(* ===== verification/_CoqProject ===== *)
-Q . S2P
Prelude.v
Gpio.v
RingBuffer.v
Ps2.v
Float32.v
Motor.v
Heap.v
SmallMem.v
Font.v
Lcd.v
Servo.v
Cabin.v
Dht11.v
Timer.v
TimerCheck.v
Thread.v
KList.v
Evolve.v
Ipc.v
Channel.v
Mailbox.v
MsgQueue.v
MemPool.v
Kprintf.v
KString.v
Msh.v
Shell.v
I2c.v
DataQueue.v
Completion.v
