(* ===== verification/Prelude.v ===== *)
(** * expert-car: a verification library for the car firmware

    The repository is the firmware of a small car on an STM32G4 under the
    RT-Thread kernel: a gamepad is polled over a bit-banged serial bus, its
    sticks drive two motors and two servos through PWM devices, sensors raise
    an alarm, readings are saved and shown on a small screen.  The library
    models the application and the parts of the kernel it stands on, as the C
    code is written, and proves what makes each part correct.

    ** Conventions

    A C function is a function from the state it touches to a [result]: a value,
    or the way the run leaves what C defines ([fault]): an [RT_ASSERT] that
    fails, an access outside an object, a signed overflow, a linked list used
    while it is broken, or fuel used up.
    Every theorem that a run is safe states that it is [Ok]; fuel is given by
    the definitions themselves, so that [Ok] also means that the loops end.
    Machine integers are [Z] with the conversions [u8], [u16], [u32], [i16],
    [i32]; signed arithmetic that can overflow goes through [chk32].  The target
    is ILP32 with unsigned [char].  Arrays are lists; [aget], [aset] and [acopy]
    fault outside them.

    Pins, PWM devices and delays are not code of this repository's core: a call
    adds an event to a history (newest first), and an input pin reads what the
    environment, an arbitrary function of the history, answers.  A theorem about
    a peripheral decodes the history with a model of what is connected.
    A thread of the application is its initialisation and the body of its loop;
    the globals it shares with other threads are inputs of the body.

    ** Files
    - Prelude: results, loops, machine integers, arrays, automation.
    - Gpio: the pin history, the bits of bytes.
    - RingBuffer: the byte ring buffer (drivers/ipc/ringbuffer.c), refined by a
      bounded FIFO.
    - Ps2: the gamepad driver (applications/ps2.c) against a model of the bus.
    - Float32: IEEE single precision on the Standard Library's [spec_float],
      with the lemmas that relate it to integers.
    - Motor: the motor loop (applications/motor.c).  The float operations are
      rounded one by one; a compiler that fuses a multiplication and an addition
      is not covered.
    - SmallMem: the heap (src/mem.c), with every access checked to be aligned and
      inside the memory the heap was given; Heap: the same steps unchecked, the list
      of blocks they are refined by, and that proof.
    - Font, Lcd: the fonts and the screen driver (applications/font.h, lcd.c)
      against a model of the panel.
    - Servo: the servo loop (applications/duoji.c).
    - Cabin: the people counter, the alarm outputs, the keys, the lamp
      (applications/hardware.c, key.c, led.c).
    - Dht11: the humidity sensor, on a line with levels in time, and the saved
      readings (applications/aht10.c).
    - Timer: hard and soft timers (src/timer.c, one skip-list level as
      configured), over an arbitrary timeout handler; TimerCheck: the checks when the
      timeout functions are any programs of timer calls.
    - Thread: threads, scheduler, clock, interrupts and closed threads
      (src/thread.c, scheduler.c, clock.c, irq.c, idle.c).  A [kernel] holds the
      threads, the ready table with its bit map, the queues of waiting threads
      and the timers; linked lists are sequences of threads, and a link that is
      entered or left twice is the fault [ListCorrupted].
    - KList: the doubly and singly linked lists on their pointers
      (include/rtservice.h), and that the rings represent the sequences.
    - Evolve: what no operation of the kernel changes behind a waiting thread's
      back (class [Evolution]).
    - Ipc: semaphores, mutexes and events (src/ipc.c) on the kernel of Thread.
    - Channel: what mailboxes and message queues share: waiting with the time
      that is left, and [room], the accounting of wake-ups at one gate.
    - Mailbox, MsgQueue: mailboxes and message queues (src/ipc.c), with the
      threads that are inside a call.  The sections of a call that run with the
      interrupts off are single steps; between them other threads run.
    - MemPool: memory pools (src/mempool.c) and the error number of a thread
      (src/kservice.c).
    - Kprintf: formatted output (src/kservice.c) with its directives, numbers and
      console line.
    - KString: memory and string functions (src/kservice.c) on a byte memory.
    - Msh: command lines of the shell, their arguments and completion
      (components/finsh/msh.c), against a tokenizer.
    - Shell: the line editor of the shell with its history
      (components/finsh/shell.c), against an abstract editor and a terminal.
    - I2c: the bit-banged I2C bus (components/drivers/i2c): the functions on bytes
      and messages over the operations [prims], which the lines and a bus of bytes
      implement (class [Simulates]).
    - DataQueue, Completion: the data queue and the completion of the device
      drivers (components/drivers/ipc), on the kernel of Thread.

    The files build on each other as the code does: Ipc calls the scheduler of
    Thread, Thread instantiates the timers of Timer with [_thread_timeout] (TimerCheck
    with programs of calls), the peripherals share the pins of Gpio, Lcd reads the bitmaps of Font, Shell hands
    its lines to Msh and moves its bytes with KString.  A call
    that blocks is split where the processor is handed over: [rt_sem_take] runs
    up to the switch, [rt_sem_take_end] is the rest, run when the thread is
    current again; between them any other calls may run.

    ** What is shown
    - RingBuffer, SmallMem, the semaphore, the mutex, the mailbox, the message
      queue, the data queue and the completion implement an abstract object (a bounded
      FIFO, a set of blocks, a counter, a lock with a queue, a bounded queue, a latch)
      for every sequence of calls, the last four for every interleaving of their
      sections.
    - SmallMem: no call of a client that keeps to its own blocks reads or writes
      outside the memory the heap was made in.
    - Ps2, Dht11 and Lcd speak their protocol: a model of the connected device,
      which decodes the pin levels, sees the frames, bytes and pixels that are
      meant, and no loop runs for ever.  For Dht11 the theorem says how long pulses,
      readings and delays may be.
    - Motor, Servo, Cabin: every loop keeps its outputs in bounds for all
      inputs, stops or counts as it should.
    - Timer, Thread: the invariants of the lists and of the ready table hold
      after all calls, timers fire on time across the wrap-around of the tick and
      whatever the timeout functions do with other timers, late checks included,
      the scheduler picks the first thread of the highest priority, equal
      threads take turns, a sleeper wakes at its tick.
    - KList: whatever the calls, as long as an object is in one list at a time, the
      pointers form rings of the members, and every walk ends.
    - Ipc: no wake-up is lost, one thread owns a mutex and priorities are lent
      and given back, an event wakes exactly the threads whose condition holds.
    - Mailbox, MsgQueue, MemPool: while a thread waits, as many woken threads are
      still to run as there are messages, free places or blocks for them.
    - MemPool: the free list and the blocks in use are always the whole pool, each
      block once; an allocation fails only without a free block, and says so.
    - Kprintf: every buffer gets the longest prefix of the text that fits, and its
      NUL; the text is that of the C standard for a list of characters and directives,
      where the code follows it, and lemmas show where it does not.
    - KString: storing by words is storing bytes, whatever the alignment, and for
      [rt_memmove] whatever the overlap; comparison and search agree with their
      definitions on lists.
    - Msh, Shell: a command gets the arguments that were typed; while a line is
      shorter than the buffer, the shell is an editor with a cursor and a history,
      and a screen that does not wrap the line shows the prompt, the text and the
      cursor where they are.  Examples show what happens to longer lines.
    - I2c: whatever the device, the lines carry the bytes; registers are read back;
      errors end a transfer.

    ** Fuel

    A loop whose end is not structural counts down a fuel.  Where the definition
    gives it (the bytes, blocks, pixels or threads the loop can visit), [Ok] in
    a theorem says that it is enough.  Where it is an argument (the check of the
    timers, the closed threads) the theorem says how much is enough: one round
    more than the list has members.  The waits on the humidity sensor have no end
    in the code: there the fuel is part of the environment, and the theorem asks for
    enough of it for the longest pulse.

    ** Left out inside the modelled parts

    In the kernel: stack contents and the stack check, hooks, the saved
    registers of a context switch, object names and the object container,
    creation and deletion on the heap, and the thread that checks the soft
    timers.  In the theorems about runs of the kernel [rt_thread_sleep] is
    called with at least one tick: with zero ticks the timer is due before the
    next check.

    ** Not modelled

    The vendor libraries (src/libraries, src/cubemx), the board support and the
    processor ports are register access.  Of the kernel:
    the rest of the service library, objects and devices, the
    allocators that are not configured; of its components the drivers other
    than the ring buffer, the data queue, the completion and the I2C bus, the input device of the shell and the commands it runs,
    file systems and network.  In the
    application: the registration of threads and interrupts, console output,
    [Get_adc] and the display thread [aht10_handle] (calls of the vendor's ADC
    library and of the C library's [sprintf]). *)

From Stdlib Require Export ZArith Lia ZifyBool.
From stdpp Require Export base tactics list numbers option gmap.
From stdpp Require Import options.

#[global] Open Scope Z_scope.

(** ** Results of C code: a value, or the way the code goes wrong *)

(** [AssertFail]: an [RT_ASSERT] of the source does not hold (its handler
    never returns).  [OutOfBounds]: an access outside the object the pointer
    designates.  [Overflow]: a signed overflow.  [ListCorrupted]: a node that is
    in a linked list is inserted in one.  [OutOfFuel]: the fuel of a loop is
    used up (no statement is about such a run except to exclude it). *)
Inductive fault : Set := AssertFail | OutOfBounds | Overflow | ListCorrupted | OutOfFuel.

Inductive result (A : Type) : Type :=
| Ok (a : A)
| Fault (f : fault).
Arguments Ok {A} a.
Arguments Fault {A} f.

#[export] Instance result_ret : MRet result := fun A a => Ok a.
#[export] Instance result_bind : MBind result := fun A B k m =>
  match m with Ok a => k a | Fault f => Fault f end.

#[export] Instance fault_eq_dec : EqDecision fault.
Proof. solve_decision. Defined.
#[export] Instance result_eq_dec {A} `{EqDecision A} : EqDecision (result A).
Proof. solve_decision. Defined.

(** [RT_ASSERT(b)] *)
Definition rt_assert (b : bool) : result unit :=
  if b then Ok tt else Fault AssertFail.

Lemma bind_Ok {A B} (m : result A) (k : A -> result B) (b : B) :
  (m ≫= k) = Ok b <-> exists a, m = Ok a /\ k a = Ok b.
Proof.
  split.
  - destruct m as [a|f]; cbn; [eauto|discriminate].
  - intros (a & -> & H). exact H.
Qed.

(** [while (cond) body]: the fuel bounds the number of iterations. *)
Fixpoint while_loop {S : Type} (fuel : nat) (cond : S -> bool) (body : S -> result S)
    (s : S) : result S :=
  match fuel with
  | O => Fault OutOfFuel
  | Datatypes.S fuel => if cond s then s ← body s; while_loop fuel cond body s else Ok s
  end.

Lemma while_loop_done {S} fuel (cond : S -> bool) body s :
  cond s = false -> while_loop (Datatypes.S fuel) cond body s = Ok s.
Proof. cbn. by intros ->. Qed.

Lemma while_loop_step {S} fuel (cond : S -> bool) body s s' :
  cond s = true -> body s = Ok s' ->
  while_loop (Datatypes.S fuel) cond body s = while_loop fuel cond body s'.
Proof. cbn. by intros -> ->. Qed.

(** Fuel beyond what a run needs does not change its result. *)
Lemma while_loop_mono {S} fuel fuel' (cond : S -> bool) body s s' :
  (fuel <= fuel')%nat -> while_loop fuel cond body s = Ok s' ->
  while_loop fuel' cond body s = Ok s'.
Proof.
  revert fuel' s. induction fuel as [|fuel IH]; intros fuel' s Hle Hr; [done|].
  destruct fuel' as [|fuel']; [lia|]. cbn in *. destruct (cond s); [|done].
  destruct (body s) as [s1|f]; [|done]. cbn in *. apply IH; [lia|done].
Qed.

(** The invariant rule: [n s] iterations are left in state [s]. *)
Lemma while_loop_inv {S} (Inv : S -> Prop) (n : S -> nat) fuel (cond : S -> bool) body s :
  (forall s, Inv s -> cond s = true ->
     exists s', body s = Ok s' /\ Inv s' /\ (n s' < n s)%nat) ->
  Inv s -> (n s < fuel)%nat ->
  exists s', while_loop fuel cond body s = Ok s' /\ Inv s' /\ cond s' = false.
Proof.
  intros Hstep. revert s. induction fuel as [|fuel IH]; intros s Hi Hf; [lia|].
  destruct (cond s) eqn:Hc.
  - destruct (Hstep s Hi Hc) as (s1 & Hb & Hi1 & Hn).
    rewrite (while_loop_step _ _ _ _ s1) by done. apply IH; [done|lia].
  - rewrite while_loop_done by done. eauto.
Qed.

(** ** Machine integers *)

(** An unsigned integer of the source is a [Z] in range; these are the
    conversions to the fixed-width types, as C defines them for the unsigned
    types and as the ARM compilers define them for the signed ones. *)
Definition u8 (z : Z) : Z := z mod 2 ^ 8.
Definition u16 (z : Z) : Z := z mod 2 ^ 16.
Definition u32 (z : Z) : Z := z mod 2 ^ 32.
Definition i16 (z : Z) : Z := (z + 2 ^ 15) mod 2 ^ 16 - 2 ^ 15.
Definition i32 (z : Z) : Z := (z + 2 ^ 31) mod 2 ^ 32 - 2 ^ 31.

(** Bit fields of width 1 and 15. *)
Definition bf1 (z : Z) : Z := z mod 2 ^ 1.
Definition bf15 (z : Z) : Z := z mod 2 ^ 15.

(** The result of a signed 32-bit operation: out of range is a fault. *)
Definition chk32 (z : Z) : result Z :=
  if (-2147483648 <=? z) && (z <=? 2147483647) then Ok z else Fault Overflow.

Lemma chk32_Ok z : -2147483648 <= z <= 2147483647 -> chk32 z = Ok z.
Proof. intros H. unfold chk32. replace (_ && _) with true by lia. done. Qed.

Lemma u8_small z : 0 <= z < 256 -> u8 z = z.
Proof. intros H. unfold u8. apply Z.mod_small. lia. Qed.
Lemma u16_small z : 0 <= z < 65536 -> u16 z = z.
Proof. intros H. unfold u16. apply Z.mod_small. lia. Qed.
Lemma u32_small z : 0 <= z < 4294967296 -> u32 z = z.
Proof. intros H. unfold u32. apply Z.mod_small. lia. Qed.
Lemma bf15_small z : 0 <= z < 32768 -> bf15 z = z.
Proof. intros H. unfold bf15. apply Z.mod_small. lia. Qed.
Lemma i16_small z : -32768 <= z < 32768 -> i16 z = z.
Proof. intros H. unfold i16. rewrite Z.mod_small; lia. Qed.
Lemma i32_small z : -2147483648 <= z < 2147483648 -> i32 z = z.
Proof. intros H. unfold i32. rewrite Z.mod_small; lia. Qed.

Lemma u8_range z : 0 <= u8 z < 256.
Proof. apply Z.mod_pos_bound. lia. Qed.
Lemma u16_range z : 0 <= u16 z < 65536.
Proof. apply Z.mod_pos_bound. lia. Qed.
Lemma u32_range z : 0 <= u32 z < 4294967296.
Proof. apply Z.mod_pos_bound. lia. Qed.
Lemma i32_range z : -2147483648 <= i32 z < 2147483648.
Proof.
  unfold i32. pose proof (Z.mod_pos_bound (z + 2 ^ 31) (2 ^ 32) ltac:(lia)). lia.
Qed.

(** [RT_ALIGN] and [RT_ALIGN_DOWN] of rtdef.h, at a given alignment. *)
Definition RT_ALIGN_SIZE : Z := 4.
Definition RT_ALIGN (size align : Z) : Z :=
  Z.land (u32 (size + align - 1)) (u32 (Z.lnot (align - 1))).
Definition RT_ALIGN_DOWN (size align : Z) : Z :=
  Z.land size (Z.lnot (align - 1)).

Lemma land_lnot3 z : Z.land z (Z.lnot 3) = z - z mod 4.
Proof.
  replace (Z.lnot 3) with (Z.lnot (Z.ones 2)) by reflexivity.
  rewrite <- Z.ldiff_land, Z.ldiff_ones_r by lia.
  rewrite Z.shiftl_mul_pow2, Z.shiftr_div_pow2 by lia.
  change (2 ^ 2) with 4. pose proof (Z.div_mod z 4 ltac:(lia)). lia.
Qed.

Lemma RT_ALIGN_DOWN_4 z : RT_ALIGN_DOWN z RT_ALIGN_SIZE = z - z mod 4.
Proof. apply land_lnot3. Qed.

Lemma RT_ALIGN_4 z :
  0 <= z < 4294967296 - 3 -> RT_ALIGN z RT_ALIGN_SIZE = z + 3 - (z + 3) mod 4.
Proof.
  intros H. unfold RT_ALIGN, RT_ALIGN_SIZE.
  rewrite u32_small by lia.
  replace (z + 4 - 1) with (z + 3) by lia. rewrite <- land_lnot3.
  apply Z.bits_inj'. intros n Hn. rewrite !Z.land_spec.
  destruct (decide (n < 32)) as [Hlt|Hge].
  - f_equal. unfold u32. rewrite Z.mod_pow2_bits_low by lia. reflexivity.
  - replace (Z.testbit (z + 3) n) with false; [reflexivity|].
    symmetry. apply Z.bits_above_log2; [lia|].
    assert (Z.log2 (z + 3) < 32); [|lia].
    apply Z.log2_lt_pow2; lia.
Qed.

(** ** Bounded access to arrays *)

(** An array of the source is a [list]; an index outside it is a fault. *)
Definition aget {A} (l : list A) (i : Z) : result A :=
  if decide (0 <= i) then
    match l !! Z.to_nat i with Some a => Ok a | None => Fault OutOfBounds end
  else Fault OutOfBounds.

Definition aset {A} (l : list A) (i : Z) (a : A) : result (list A) :=
  if decide (0 <= i < Z.of_nat (length l)) then Ok (<[Z.to_nat i := a]> l)
  else Fault OutOfBounds.

(** [rt_memcpy(&dst[i], &src[j], n)] on two distinct arrays. *)
Definition acopy {A} (dst : list A) (i : Z) (src : list A) (j n : Z)
  : result (list A) :=
  if decide (0 <= i /\ 0 <= j /\ 0 <= n /\ i + n <= Z.of_nat (length dst)
             /\ j + n <= Z.of_nat (length src))
  then Ok (take (Z.to_nat i) dst ++ take (Z.to_nat n) (drop (Z.to_nat j) src)
           ++ drop (Z.to_nat (i + n)) dst)
  else Fault OutOfBounds.

Lemma aget_Ok {A} (l : list A) i a :
  0 <= i -> l !! Z.to_nat i = Some a -> aget l i = Ok a.
Proof. intros Hi Hl. unfold aget. rewrite decide_True by done. by rewrite Hl. Qed.

Lemma aset_Ok {A} (l : list A) i a :
  0 <= i < Z.of_nat (length l) -> aset l i a = Ok (<[Z.to_nat i := a]> l).
Proof. intros Hi. unfold aset. by rewrite decide_True. Qed.

Lemma acopy_Ok {A} (dst : list A) i src j n :
  0 <= i -> 0 <= j -> 0 <= n -> i + n <= Z.of_nat (length dst) ->
  j + n <= Z.of_nat (length src) ->
  acopy dst i src j n =
    Ok (take (Z.to_nat i) dst ++ take (Z.to_nat n) (drop (Z.to_nat j) src)
        ++ drop (Z.to_nat (i + n)) dst).
Proof. intros. unfold acopy. by rewrite decide_True. Qed.

Lemma length_acopy {A} (dst : list A) i src j n dst' :
  acopy dst i src j n = Ok dst' -> length dst' = length dst.
Proof.
  unfold acopy. case_decide as H; [|discriminate]. intros [= <-].
  rewrite !length_app, !length_take, !length_drop. lia.
Qed.

Lemma acopy_total {A} (dst : list A) i src j n :
  0 <= i -> 0 <= j -> 0 <= n -> i + n <= Z.of_nat (length dst) ->
  j + n <= Z.of_nat (length src) ->
  exists dst', acopy dst i src j n = Ok dst' /\ length dst' = length dst.
Proof.
  intros. eexists. rewrite acopy_Ok by done. split; [done|].
  rewrite !length_app, !length_take, !length_drop. lia.
Qed.

(** What every cell holds after the copy. *)
Lemma lookup_acopy {A} (dst : list A) i src j n dst' (k : nat) :
  acopy dst i src j n = Ok dst' ->
  dst' !! k =
    (if decide (i <= Z.of_nat k < i + n)
     then src !! Z.to_nat (j + (Z.of_nat k - i)) else dst !! k).
Proof.
  unfold acopy. case_decide as H; [|discriminate]. intros [= <-].
  destruct (decide (Z.of_nat k < i)) as [Hk|Hk].
  { rewrite decide_False by lia.
    rewrite lookup_app_l by (rewrite length_take; lia).
    by rewrite lookup_take_lt by lia. }
  rewrite lookup_app_r by (rewrite length_take; lia).
  rewrite length_take.
  destruct (decide (Z.of_nat k < i + n)) as [Hk'|Hk'].
  - rewrite decide_True by lia.
    rewrite lookup_app_l by (rewrite length_take, length_drop; lia).
    rewrite lookup_take_lt by lia. rewrite lookup_drop. f_equal. lia.
  - rewrite decide_False by lia.
    rewrite lookup_app_r by (rewrite length_take, length_drop; lia).
    rewrite length_take, length_drop, lookup_drop. f_equal. lia.
Qed.

(** Removes the conversions whose argument is in range. *)
Ltac cint :=
  repeat match goal with
  | |- context [u8 ?z] => rewrite (u8_small z) by lia
  | |- context [u16 ?z] => rewrite (u16_small z) by lia
  | |- context [u32 ?z] => rewrite (u32_small z) by lia
  | |- context [i16 ?z] => rewrite (i16_small z) by lia
  | |- context [i32 ?z] => rewrite (i32_small z) by lia
  | |- context [bf15 ?z] => rewrite (bf15_small z) by lia
  end.

(** Case analysis on the boolean comparisons of the goal and hypotheses,
    innermost first; the outcomes stay as equations, which [lia] reads. *)
Ltac no_branch t :=
  lazymatch t with
  | context [match _ with _ => _ end] => fail
  | _ => idtac
  end.
Ltac zsplit b := no_branch b; let E := fresh "Hb" in destruct b eqn:E.
Ltac zbool :=
  repeat match goal with
  | |- context [if Z.ltb ?a ?b then _ else _] => zsplit (Z.ltb a b)
  | |- context [if Z.leb ?a ?b then _ else _] => zsplit (Z.leb a b)
  | |- context [if Z.eqb ?a ?b then _ else _] => zsplit (Z.eqb a b)
  | H : context [if Z.ltb ?a ?b then _ else _] |- _ => zsplit (Z.ltb a b)
  | H : context [if Z.leb ?a ?b then _ else _] |- _ => zsplit (Z.leb a b)
  | H : context [if Z.eqb ?a ?b then _ else _] |- _ => zsplit (Z.eqb a b)
  end.

(** Linear arithmetic with division and remainder by constants. *)
Ltac zmod := Z.to_euclidean_division_equations; lia.
