(* ===== verification/Gpio.v ===== *)
(** * Pins and delays (the pin device and the busy-wait delay)

    A thread of the application acts on the board by writing and reading
    pins and by waiting.  The history of a thread is the list of those events,
    newest first; what a pin reads is given by the [world], a function of the
    history, so that a device answering on the pin is an instance of it. *)

From S2P Require Import Prelude.

(** [GET_PIN] of drv_common.h: ports A..D are 0..3, 16 pins each. *)
Definition PORT_A : Z := 0.
Definition PORT_B : Z := 1.
Definition PORT_C : Z := 2.
Definition PORT_D : Z := 3.
Definition GET_PIN (port pin : Z) : Z := 16 * port + pin.

Definition PIN_LOW : Z := 0.
Definition PIN_HIGH : Z := 1.
Definition PIN_MODE_OUTPUT : Z := 0.
Definition PIN_MODE_INPUT : Z := 1.
Definition PIN_MODE_INPUT_PULLUP : Z := 2.

Inductive event :=
| PinMode (pin mode : Z)
| PinWrite (pin value : Z)
| PinRead (pin value : Z)
| DelayUs (us : Z)
| DelayMs (ms : Z)
| PwmSet (dev channel period pulse : Z)
| PwmEnable (dev channel : Z).

Definition history := list event.

(** The level each pin reads, given what happened before. *)
Definition world := history -> Z -> Z.

Definition rt_pin_mode (pin mode : Z) (h : history) : history := PinMode pin mode :: h.
Definition rt_pin_write (pin value : Z) (h : history) : history := PinWrite pin value :: h.
Definition rt_pin_read (w : world) (pin : Z) (h : history) : Z * history :=
  (w h pin, PinRead pin (w h pin) :: h).
Definition rt_hw_us_delay (us : Z) (h : history) : history := DelayUs us :: h.
Definition rt_thread_mdelay (ms : Z) (h : history) : history := DelayMs ms :: h.

(** [rt_pwm_set] and [rt_pwm_enable] (components/drivers/misc/rt_drv_pwm.c) of
    a device that [rt_device_find] found or not: a null device is refused with
    [-RT_EIO], which the callers ignore. *)
Definition rt_pwm_set (dev : option Z) (channel period pulse : Z) (h : history) : history :=
  match dev with Some d => PwmSet d channel period pulse :: h | None => h end.
Definition rt_pwm_enable (dev : option Z) (channel : Z) (h : history) : history :=
  match dev with Some d => PwmEnable d channel :: h | None => h end.

(** ** Bits of a byte *)

Definition bits_lsb (b : Z) : list bool := (fun i => Z.testbit b (Z.of_nat i)) <$> seq 0 8.
Definition bits_msb (b : Z) : list bool := rev (bits_lsb b).

(** The byte whose bit [i] is the [i]-th element. *)
Fixpoint byte_lsb (l : list bool) : Z :=
  match l with
  | [] => 0
  | b :: l => Z.b2z b + 2 * byte_lsb l
  end.

Lemma byte_bits_lsb b : 0 <= b < 256 -> byte_lsb (bits_lsb b) = b.
Proof.
  intros Hb.
  assert (Forall (fun b => byte_lsb (bits_lsb b) = b) (Z.of_nat <$> seq 0 256)) as H.
  { repeat (constructor; [reflexivity|]). constructor. }
  rewrite Forall_forall in H. apply H.
  apply list_elem_of_fmap. exists (Z.to_nat b). split; [lia|].
  apply elem_of_seq. lia.
Qed.

Lemma bits_byte_lsb b0 b1 b2 b3 b4 b5 b6 b7 :
  bits_lsb (byte_lsb [b0; b1; b2; b3; b4; b5; b6; b7]) = [b0; b1; b2; b3; b4; b5; b6; b7].
Proof. destruct b0, b1, b2, b3, b4, b5, b6, b7; reflexivity. Qed.

(** [ref & CMD] for the one-bit mask the transmit loops use. *)
Lemma land_bit (i c : Z) : 0 <= i -> (Z.land (2 ^ i) c =? 0) = negb (Z.testbit c i).
Proof.
  intros Hi. destruct (Z.testbit c i) eqn:E; cbn.
  - apply Z.eqb_neq. intros H. apply (f_equal (fun z => Z.testbit z i)) in H.
    rewrite Z.land_spec, Z.pow2_bits_true, E, Z.bits_0 in H by lia. done.
  - apply Z.eqb_eq. apply Z.bits_inj'. intros n Hn.
    rewrite Z.land_spec, Z.bits_0. destruct (decide (n = i)) as [->|Hne].
    + by rewrite E, andb_false_r.
    + by rewrite Z.pow2_bits_false by lia.
Qed.
