(* ===== verification/RingBuffer.v ===== *)
(** * The byte ring buffer (components/drivers/ipc/ringbuffer.c)

    The mirrored circular buffer the serial driver keeps received bytes in.
    [rt_ringbuffer] is the C structure with the pool as a list of bytes; each
    operation is the C function on it.  [contents] is the abstraction
    function to the FIFO of bytes ([Fifo], capacity [buffer_size]) and [wf]
    the invariant; the theorems are the refinement of [Fifo] by every
    operation and by every sequence of operations. *)

From S2P Require Import Prelude.

(** ** The specification: a bounded FIFO of bytes *)
Module Fifo.
Section Fifo.
Context (cap : nat).

(** Append what fits. *)
Definition put (q xs : list Z) : list Z := q ++ take (cap - length q) xs.
(** Append everything and keep the newest [cap] bytes. *)
Definition put_force (q xs : list Z) : list Z :=
  drop (length q + length xs - cap) (q ++ xs).
Definition get (q : list Z) (n : nat) : list Z * list Z := (take n q, drop n q).
End Fifo.
End Fifo.

Module Ring.

(** ** Data (ringbuffer.h) *)

Record rt_ringbuffer := mk_ringbuffer {
  buffer_ptr : list Z;      (* the pool *)
  read_mirror : Z;          (* 1 bit *)
  read_index : Z;           (* 15 bits *)
  write_mirror : Z;         (* 1 bit *)
  write_index : Z;          (* 15 bits *)
  buffer_size : Z           (* rt_int16_t *)
}.

Inductive rt_ringbuffer_state :=
  RT_RINGBUFFER_EMPTY | RT_RINGBUFFER_FULL | RT_RINGBUFFER_HALFFULL.

Definition set_buffer (buf : list Z) (rb : rt_ringbuffer) : rt_ringbuffer :=
  mk_ringbuffer buf (read_mirror rb) (read_index rb)
    (write_mirror rb) (write_index rb) (buffer_size rb).
Definition set_read (m i : Z) (rb : rt_ringbuffer) : rt_ringbuffer :=
  mk_ringbuffer (buffer_ptr rb) m i (write_mirror rb) (write_index rb) (buffer_size rb).
Definition set_write (m i : Z) (rb : rt_ringbuffer) : rt_ringbuffer :=
  mk_ringbuffer (buffer_ptr rb) (read_mirror rb) (read_index rb) m i (buffer_size rb).

(** ** Operations (ringbuffer.c) *)

Definition rt_ringbuffer_status (rb : rt_ringbuffer) : rt_ringbuffer_state :=
  if read_index rb =? write_index rb then
    if read_mirror rb =? write_mirror rb then RT_RINGBUFFER_EMPTY
    else RT_RINGBUFFER_FULL
  else RT_RINGBUFFER_HALFFULL.

Definition rt_ringbuffer_init (pool : list Z) (size : Z) : result rt_ringbuffer :=
  _ ← rt_assert (0 <? size);
  Ok (mk_ringbuffer pool 0 0 0 0 (i16 (RT_ALIGN_DOWN size RT_ALIGN_SIZE))).

Definition rt_ringbuffer_data_len (rb : rt_ringbuffer) : Z :=
  match rt_ringbuffer_status rb with
  | RT_RINGBUFFER_EMPTY => 0
  | RT_RINGBUFFER_FULL => u32 (buffer_size rb)
  | RT_RINGBUFFER_HALFFULL =>
      let wi := write_index rb in
      let ri := read_index rb in
      if ri <? wi then u32 (wi - ri)
      else u32 (u32 (buffer_size rb) - u32 (ri - wi))
  end.

Definition rt_ringbuffer_space_len (rb : rt_ringbuffer) : Z :=
  u32 (u32 (buffer_size rb) - rt_ringbuffer_data_len rb).

Definition rt_ringbuffer_get_size (rb : rt_ringbuffer) : Z := u16 (buffer_size rb).

Definition rt_ringbuffer_put (rb : rt_ringbuffer) (ptr : list Z) (length : Z)
  : result (Z * rt_ringbuffer) :=
  let size := u16 (rt_ringbuffer_space_len rb) in
  if size =? 0 then Ok (0, rb) else
  let length := if size <? length then size else length in
  let wi := write_index rb in
  let rest := buffer_size rb - wi in
  if length <? rest then
    buf ← acopy (buffer_ptr rb) wi ptr 0 length;
    Ok (length, set_write (write_mirror rb) (bf15 (wi + length)) (set_buffer buf rb))
  else
    buf ← acopy (buffer_ptr rb) wi ptr 0 rest;
    buf ← acopy buf 0 ptr rest (length - rest);
    Ok (length, set_write (bf1 (Z.lnot (write_mirror rb))) (bf15 (length - rest))
                  (set_buffer buf rb)).

Definition rt_ringbuffer_put_force (rb : rt_ringbuffer) (ptr : list Z) (length : Z)
  : result (Z * rt_ringbuffer) :=
  let space_length := u16 (rt_ringbuffer_space_len rb) in
  (* ptr = &ptr[length - buffer_size]; length = buffer_size *)
  let p := if buffer_size rb <? length then length - buffer_size rb else 0 in
  let length := if buffer_size rb <? length then u16 (buffer_size rb) else length in
  let wi := write_index rb in
  let rest := buffer_size rb - wi in
  if length <? rest then
    buf ← acopy (buffer_ptr rb) wi ptr p length;
    let rb := set_write (write_mirror rb) (bf15 (wi + length)) (set_buffer buf rb) in
    let rb := if space_length <? length
              then set_read (read_mirror rb) (write_index rb) rb else rb in
    Ok (length, rb)
  else
    buf ← acopy (buffer_ptr rb) wi ptr p rest;
    buf ← acopy buf 0 ptr (p + rest) (length - rest);
    let rb := set_write (bf1 (Z.lnot (write_mirror rb))) (bf15 (length - rest))
                (set_buffer buf rb) in
    let rb := if space_length <? length then
                let rb := if write_index rb <=? read_index rb
                          then set_read (bf1 (Z.lnot (read_mirror rb))) (read_index rb) rb
                          else rb in
                set_read (read_mirror rb) (write_index rb) rb
              else rb in
    Ok (length, rb).

(** The destination [ptr] is the caller's array; the result holds the number
    of bytes read and the array after the copies. *)
Definition rt_ringbuffer_get (rb : rt_ringbuffer) (ptr : list Z) (length : Z)
  : result (Z * list Z * rt_ringbuffer) :=
  let size := rt_ringbuffer_data_len rb in
  if size =? 0 then Ok (0, ptr, rb) else
  let length := if size <? length then u16 size else length in
  let ri := read_index rb in
  let rest := buffer_size rb - ri in
  if length <? rest then
    ptr ← acopy ptr 0 (buffer_ptr rb) ri length;
    Ok (length, ptr, set_read (read_mirror rb) (bf15 (ri + length)) rb)
  else
    ptr ← acopy ptr 0 (buffer_ptr rb) ri rest;
    ptr ← acopy ptr rest (buffer_ptr rb) 0 (length - rest);
    Ok (length, ptr,
        set_read (bf1 (Z.lnot (read_mirror rb))) (bf15 (length - rest)) rb).

(** The pointer result is the index in the pool it points to ([None]: null). *)
Definition rt_ringbuffer_peak (rb : rt_ringbuffer) : Z * option Z * rt_ringbuffer :=
  let size := rt_ringbuffer_data_len rb in
  if size =? 0 then (0, None, rb) else
  let ptr := Some (read_index rb) in
  if size <? u32 (buffer_size rb - read_index rb) then
    (size, ptr, set_read (read_mirror rb) (bf15 (read_index rb + size)) rb)
  else
    (u32 (buffer_size rb - read_index rb), ptr,
     set_read (bf1 (Z.lnot (read_mirror rb))) 0 rb).

Definition rt_ringbuffer_putchar (rb : rt_ringbuffer) (ch : Z)
  : result (Z * rt_ringbuffer) :=
  if rt_ringbuffer_space_len rb =? 0 then Ok (0, rb) else
  buf ← aset (buffer_ptr rb) (write_index rb) ch;
  let rb := set_buffer buf rb in
  Ok (1, if write_index rb =? buffer_size rb - 1
         then set_write (bf1 (Z.lnot (write_mirror rb))) 0 rb
         else set_write (write_mirror rb) (bf15 (write_index rb + 1)) rb).

Definition rt_ringbuffer_putchar_force (rb : rt_ringbuffer) (ch : Z)
  : result (Z * rt_ringbuffer) :=
  let old_state := rt_ringbuffer_status rb in
  let full := match old_state with RT_RINGBUFFER_FULL => true | _ => false end in
  buf ← aset (buffer_ptr rb) (write_index rb) ch;
  let rb := set_buffer buf rb in
  if write_index rb =? buffer_size rb - 1 then
    let rb := set_write (bf1 (Z.lnot (write_mirror rb))) 0 rb in
    Ok (1, if full
           then set_read (bf1 (Z.lnot (read_mirror rb))) (write_index rb) rb else rb)
  else
    let rb := set_write (write_mirror rb) (bf15 (write_index rb + 1)) rb in
    Ok (1, if full then set_read (read_mirror rb) (write_index rb) rb else rb).

(** The byte read ([None]: [*ch] is not written). *)
Definition rt_ringbuffer_getchar (rb : rt_ringbuffer)
  : result (Z * option Z * rt_ringbuffer) :=
  if rt_ringbuffer_data_len rb =? 0 then Ok (0, None, rb) else
  ch ← aget (buffer_ptr rb) (read_index rb);
  Ok (1, Some ch,
      if read_index rb =? buffer_size rb - 1
      then set_read (bf1 (Z.lnot (read_mirror rb))) 0 rb
      else set_read (read_mirror rb) (bf15 (read_index rb + 1)) rb).

Definition rt_ringbuffer_reset (rb : rt_ringbuffer) : rt_ringbuffer :=
  mk_ringbuffer (buffer_ptr rb) 0 0 0 0 (buffer_size rb).

(** ** Invariant and abstraction *)

Record wf (rb : rt_ringbuffer) : Prop := {
  wf_size : 0 < buffer_size rb < 32768;
  wf_pool : buffer_size rb <= Z.of_nat (length (buffer_ptr rb));
  wf_ri : 0 <= read_index rb < buffer_size rb;
  wf_wi : 0 <= write_index rb < buffer_size rb;
  wf_mirror :
    (write_mirror rb = read_mirror rb /\ read_index rb <= write_index rb
     \/ write_mirror rb = 1 - read_mirror rb /\ write_index rb <= read_index rb);
  wf_bit : read_mirror rb = 0 \/ read_mirror rb = 1
}.

Definition capacity (rb : rt_ringbuffer) : nat := Z.to_nat (buffer_size rb).

(** The queued bytes, oldest first. *)
Definition contents (rb : rt_ringbuffer) : list Z :=
  let pool := take (capacity rb) (buffer_ptr rb) in
  take (Z.to_nat (rt_ringbuffer_data_len rb))
    (drop (Z.to_nat (read_index rb)) pool ++ pool).

(** ** Index arithmetic *)

(** The number of queued bytes, by the mirror bits. *)
Definition used (rb : rt_ringbuffer) : Z :=
  if read_mirror rb =? write_mirror rb
  then write_index rb - read_index rb
  else buffer_size rb - read_index rb + write_index rb.

(** The pool index of the [i]-th queued byte. *)
Definition pos (rb : rt_ringbuffer) (i : Z) : Z :=
  if read_index rb + i <? buffer_size rb then read_index rb + i
  else read_index rb + i - buffer_size rb.

Lemma bf1_flip b : b = 0 \/ b = 1 -> bf1 (Z.lnot b) = 1 - b.
Proof. intros [-> | ->]; reflexivity. Qed.

Ltac ring_wf H :=
  destruct H as [? ? ? ? ? ?].

Lemma data_len_used rb : wf rb -> rt_ringbuffer_data_len rb = used rb.
Proof.
  intros H. ring_wf H.
  unfold rt_ringbuffer_data_len, rt_ringbuffer_status, used.
  zbool; try lia; try reflexivity; cint; lia.
Qed.

Lemma used_range rb : wf rb -> 0 <= used rb <= buffer_size rb.
Proof. intros H. ring_wf H. unfold used. zbool; lia. Qed.

Lemma space_len_used rb :
  wf rb -> rt_ringbuffer_space_len rb = buffer_size rb - used rb.
Proof.
  intros H. pose proof (used_range rb H). unfold rt_ringbuffer_space_len.
  rewrite data_len_used by done. ring_wf H. cint; lia.
Qed.

Lemma used_alt rb :
  wf rb ->
  (read_mirror rb = write_mirror rb /\ used rb = write_index rb - read_index rb
   \/ read_mirror rb = 1 - write_mirror rb /\
      used rb = buffer_size rb - read_index rb + write_index rb).
Proof. intros H. ring_wf H. unfold used. zbool; lia. Qed.

Lemma lookup_contents rb (i : nat) :
  wf rb ->
  contents rb !! i =
    if decide (Z.of_nat i < used rb) then buffer_ptr rb !! Z.to_nat (pos rb (Z.of_nat i))
    else None.
Proof.
  intros H. pose proof (used_range rb H). unfold contents, capacity.
  rewrite data_len_used by done. ring_wf H.
  case_decide as Hi; [|by rewrite lookup_take_ge by lia].
  rewrite lookup_take_lt by lia. unfold pos. zbool.
  - rewrite lookup_app_l by (rewrite length_drop, length_take; lia).
    rewrite lookup_drop, lookup_take_lt by lia. f_equal. lia.
  - rewrite lookup_app_r by (rewrite length_drop, length_take; lia).
    rewrite length_drop, length_take, lookup_take_lt by lia. f_equal. lia.
Qed.

Lemma length_contents rb : wf rb -> Z.of_nat (length (contents rb)) = used rb.
Proof.
  intros H. pose proof (used_range rb H). unfold contents, capacity.
  rewrite data_len_used by done. ring_wf H.
  rewrite length_take, length_app, length_drop, length_take. lia.
Qed.

Lemma length_contents_le rb : wf rb -> (length (contents rb) <= capacity rb)%nat.
Proof.
  intros H. pose proof (length_contents rb H). pose proof (used_range rb H).
  unfold capacity. lia.
Qed.

(** Two lists are equal when they agree below a common length. *)
Lemma list_eq_below (l1 l2 : list Z) (n : Z) :
  Z.of_nat (length l1) = n -> Z.of_nat (length l2) = n ->
  (forall i : nat, Z.of_nat i < n -> l1 !! i = l2 !! i) -> l1 = l2.
Proof.
  intros H1 H2 H. apply list_eq_same_length with (n := length l2); [done|lia|].
  intros i x y Hi Hx Hy. rewrite H in Hx by lia. congruence.
Qed.

(** ** The copies of put and put_force *)

(** Where a copy of [n] bytes at [write_index] ends up, wrapped or not: cell
    [k] of the pool is overwritten iff its distance from [wi] is below [n]. *)
Definition dist (bs wi k : Z) : Z := if wi <=? k then k - wi else k - wi + bs.

Definition written (bs wi n : Z) (ptr : list Z) (p : Z) (buf buf' : list Z) : Prop :=
  length buf' = length buf /\
  forall k : nat, Z.of_nat k < bs ->
    buf' !! k = if decide (dist bs wi (Z.of_nat k) < n)
                then ptr !! Z.to_nat (p + dist bs wi (Z.of_nat k)) else buf !! k.

Lemma copy_straight bs wi n ptr p buf :
  0 <= wi -> 0 <= n -> n < bs - wi -> bs <= Z.of_nat (length buf) ->
  0 <= p -> p + n <= Z.of_nat (length ptr) ->
  exists buf', acopy buf wi ptr p n = Ok buf' /\ written bs wi n ptr p buf buf'.
Proof.
  intros. destruct (acopy_total buf wi ptr p n) as (buf' & E & L); try lia.
  exists buf'. split; [done|]. split; [done|].
  intros k Hk. rewrite (lookup_acopy _ _ _ _ _ _ k E).
  unfold dist. zbool; repeat case_decide; try lia; try done; f_equal; lia.
Qed.

Lemma copy_wrapped bs wi n ptr p buf :
  0 <= wi < bs -> bs - wi <= n -> n <= bs -> bs <= Z.of_nat (length buf) ->
  0 <= p -> p + n <= Z.of_nat (length ptr) ->
  exists buf1 buf2,
    acopy buf wi ptr p (bs - wi) = Ok buf1 /\
    acopy buf1 0 ptr (p + (bs - wi)) (n - (bs - wi)) = Ok buf2 /\
    written bs wi n ptr p buf buf2.
Proof.
  intros.
  destruct (acopy_total buf wi ptr p (bs - wi)) as (buf1 & E1 & L1); try lia.
  destruct (acopy_total buf1 0 ptr (p + (bs - wi)) (n - (bs - wi)))
    as (buf2 & E2 & L2); try lia.
  exists buf1, buf2. split; [done|]. split; [done|].
  split; [lia|]. intros k Hk.
  rewrite (lookup_acopy _ _ _ _ _ _ k E2), (lookup_acopy _ _ _ _ _ _ k E1).
  unfold dist. zbool; repeat case_decide; try lia; try done; f_equal; lia.
Qed.

(** Writing [n] bytes behind the queue, when the read side then sits at the
    [drop] oldest bytes further: the new contents. *)
Lemma contents_written rb rb' ptr p n :
  wf rb -> wf rb' -> buffer_size rb' = buffer_size rb ->
  0 <= p -> 0 <= n <= buffer_size rb -> p + n <= Z.of_nat (length ptr) ->
  written (buffer_size rb) (write_index rb) n ptr p (buffer_ptr rb) (buffer_ptr rb') ->
  used rb' = Z.min (buffer_size rb) (used rb + n) ->
  (forall i, 0 <= i < used rb' ->
     pos rb' i = let j := i + (used rb + n - used rb') in
                 if j <? used rb then pos rb j
                 else let d := write_index rb + (j - used rb) in
                      if d <? buffer_size rb then d else d - buffer_size rb) ->
  contents rb' =
    drop (Z.to_nat (used rb + n - used rb'))
      (contents rb ++ take (Z.to_nat n) (drop (Z.to_nat p) ptr)).
Proof.
  intros H H' Hbs Hp Hn Hptr [Hlen Hw] Hu Hpos.
  pose proof (used_range rb H). pose proof (used_range rb' H').
  pose proof (length_contents rb H) as Hlc.
  apply (list_eq_below _ _ (used rb')).
  - by apply length_contents.
  - rewrite length_drop, length_app, length_take, length_drop. lia.
  - intros i Hi. rewrite lookup_contents, decide_True by done.
    rewrite lookup_drop. rewrite Hpos by lia. cbn zeta.
    set (j := Z.of_nat i + (used rb + n - used rb')).
    replace (Z.to_nat (used rb + n - used rb') + i)%nat with (Z.to_nat j) by lia.
    pose proof (used_alt rb H). pose proof (used_alt rb' H').
    ring_wf H. ring_wf H'.
    destruct (Z.ltb_spec j (used rb)) as [Hj|Hj].
    + rewrite lookup_app_l by lia.
      rewrite lookup_contents, decide_True by (try done; lia).
      rewrite Z2Nat.id by lia.
      assert (0 <= pos rb j < buffer_size rb) as Hpr
        by (unfold pos; zbool; lia).
      rewrite Hw, Z2Nat.id by lia. rewrite decide_False; [done|].
      unfold dist, pos in *. zbool; lia.
    + rewrite lookup_app_r by lia.
      replace (Z.to_nat j - length (contents rb))%nat
        with (Z.to_nat (j - used rb)) by lia.
      rewrite lookup_take_lt, lookup_drop by lia.
      set (d := if _ <? _ then _ else _).
      assert (0 <= d < buffer_size rb) by (unfold d; zbool; lia).
      rewrite Hw, Z2Nat.id by lia.
      assert (dist (buffer_size rb) (write_index rb) d = j - used rb) as ->
        by (unfold dist, d; zbool; lia).
      rewrite decide_True by lia. f_equal. lia.
Qed.

(** ** Reading: the contents after the read side advanced *)

Lemma contents_advanced rb rb' n :
  wf rb -> wf rb' -> buffer_size rb' = buffer_size rb ->
  buffer_ptr rb' = buffer_ptr rb -> 0 <= n -> used rb' = used rb - n ->
  (forall i, 0 <= i < used rb' -> pos rb' i = pos rb (n + i)) ->
  contents rb' = drop (Z.to_nat n) (contents rb).
Proof.
  intros H H' Hbs Hbuf Hn Hu Hpos.
  pose proof (length_contents rb H). pose proof (length_contents rb' H').
  apply (list_eq_below _ _ (used rb')); [done|rewrite length_drop; lia|].
  intros i Hi. rewrite lookup_drop, !lookup_contents by done.
  rewrite !decide_True by lia. rewrite Hbuf, Hpos by lia. do 3 f_equal. lia.
Qed.

(** Every cell of the queue is inside the pool. *)
Lemma pos_range rb i :
  wf rb -> 0 <= i < used rb -> 0 <= pos rb i < buffer_size rb.
Proof.
  intros H Hi. pose proof (used_alt rb H). ring_wf H. unfold pos. zbool; lia.
Qed.

(** Solves the goals about a state the operations build from [rb]. *)
Ltac ring_state :=
  unfold used, pos in *; cbn in *; rewrite ?bf1_flip in * by lia;
  cint; zbool; lia.

(** ** put *)

Section put.
Context (rb : rt_ringbuffer) (ptr : list Z) (len : Z).
Hypothesis Hwf : wf rb.
Hypothesis Hlen : 0 <= len < 65536.
Hypothesis Hptr : len <= Z.of_nat (length ptr).

Lemma rt_ringbuffer_put_spec :
  exists rb', let n := Z.min len (buffer_size rb - used rb) in
  rt_ringbuffer_put rb ptr len = Ok (n, rb') /\ wf rb' /\
  buffer_size rb' = buffer_size rb /\
  contents rb' = contents rb ++ take (Z.to_nat n) ptr.
Proof.
  pose proof (used_range rb Hwf). pose proof (used_alt rb Hwf) as Ha.
  unfold rt_ringbuffer_put. rewrite space_len_used by done.
  pose proof Hwf as Hwf'. ring_wf Hwf'.
  rewrite u16_small by lia. cbv zeta.
  destruct (Z.eqb_spec (buffer_size rb - used rb) 0) as [Hfull|Hsp].
  { exists rb. rewrite Z.min_r, Hfull by lia. rewrite app_nil_r. done. }
  replace (if _ <? len then _ else len) with (Z.min len (buffer_size rb - used rb))
    by (zbool; lia).
  set (n := Z.min len (buffer_size rb - used rb)).
  assert (forall rb', wf rb' -> buffer_size rb' = buffer_size rb ->
    written (buffer_size rb) (write_index rb) n ptr 0 (buffer_ptr rb) (buffer_ptr rb') ->
    used rb' = used rb + n -> read_index rb' = read_index rb ->
    contents rb' = contents rb ++ take (Z.to_nat n) ptr) as Hc.
  { intros rb' Hrb' Hbs Hw Hu Hri.
    rewrite (contents_written rb rb' ptr 0 n); try done; try lia.
    - replace (used rb + n - used rb') with 0 by lia. by rewrite !drop_0.
    - intros i Hi. cbn zeta. unfold pos. rewrite Hri, Hbs. zbool; lia. }
  destruct (Z.ltb_spec n (buffer_size rb - write_index rb)).
  - destruct (copy_straight (buffer_size rb) (write_index rb) n ptr 0 (buffer_ptr rb))
      as (buf & -> & Hw); try lia. cbn.
    eexists. split; [done|]. rewrite bf15_small by lia. destruct Hw as [Hl Hw].
    match goal with |- wf ?s /\ _ => assert (wf s) as Hs by (split; cbn; lia) end.
    split; [done|]. split; [done|]. apply Hc; try done. ring_state.
  - destruct (copy_wrapped (buffer_size rb) (write_index rb) n ptr 0 (buffer_ptr rb))
      as (buf1 & buf2 & -> & E2 & Hw); try lia. cbn. rewrite Z.add_0_l in E2. rewrite E2. cbn.
    eexists. split; [done|]. rewrite bf15_small, bf1_flip by lia.
    destruct Hw as [Hl Hw].
    match goal with |- wf ?s /\ _ => assert (wf s) as Hs by (split; cbn; lia) end.
    split; [done|]. split; [done|]. apply Hc; try done. ring_state.
Qed.
End put.

(** ** put_force *)

Section put_force.
Context (rb : rt_ringbuffer) (ptr : list Z) (len : Z).
Hypothesis Hwf : wf rb.
Hypothesis Hlen : 0 <= len < 65536.
Hypothesis Hptr : len <= Z.of_nat (length ptr).

(** Keeping the newest bytes of the longest part that fits. *)
Lemma put_force_newest (q : list Z) (cap : nat) :
  let n := Z.min len (Z.of_nat cap) in
  drop (length q + Z.to_nat n - cap) (q ++ take (Z.to_nat n) (drop (Z.to_nat (len - n)) ptr))
  = if decide (len <= Z.of_nat cap) then Fifo.put_force cap q (take (Z.to_nat len) ptr)
    else drop (length q) (q ++ drop (Z.to_nat (len - n)) (take (Z.to_nat len) ptr)).
Proof.
  intros n. unfold Fifo.put_force. case_decide.
  - replace (len - n) with 0 by lia. rewrite drop_0, length_take.
    replace n with len by lia. f_equal. lia.
  - rewrite take_drop_commute. f_equal; [lia|]. repeat f_equal. lia.
Qed.

Lemma put_force_newest' (q : list Z) (cap : nat) :
  (length q <= cap)%nat -> let n := Z.min len (Z.of_nat cap) in
  drop (length q + Z.to_nat n - cap) (q ++ take (Z.to_nat n) (drop (Z.to_nat (len - n)) ptr))
  = Fifo.put_force cap q (take (Z.to_nat len) ptr).
Proof.
  intros Hq n. unfold n. rewrite put_force_newest. case_decide; [done|].
  unfold Fifo.put_force. rewrite drop_app_length, length_take.
  rewrite drop_app_ge by lia. f_equal. lia.
Qed.

Lemma rt_ringbuffer_put_force_spec :
  exists rb', rt_ringbuffer_put_force rb ptr len = Ok (Z.min len (buffer_size rb), rb') /\
  wf rb' /\ buffer_size rb' = buffer_size rb /\
  contents rb' = Fifo.put_force (capacity rb) (contents rb) (take (Z.to_nat len) ptr).
Proof.
  pose proof (used_range rb Hwf). pose proof (used_alt rb Hwf) as Ha.
  pose proof (length_contents rb Hwf) as Hlc.
  unfold rt_ringbuffer_put_force. rewrite space_len_used by done.
  pose proof Hwf as Hwf'. ring_wf Hwf'. cbv zeta.
  rewrite (u16_small (buffer_size rb - used rb)), (u16_small (buffer_size rb)) by lia.
  set (n := Z.min len (buffer_size rb)).
  replace (if _ <? len then buffer_size rb else len) with n by (unfold n; zbool; lia).
  replace (if _ <? len then len - buffer_size rb else 0) with (len - n)
    by (unfold n; zbool; lia).
  assert (forall rb', wf rb' -> buffer_size rb' = buffer_size rb ->
    written (buffer_size rb) (write_index rb) n ptr (len - n)
      (buffer_ptr rb) (buffer_ptr rb') ->
    used rb' = Z.min (buffer_size rb) (used rb + n) ->
    read_index rb' = (if buffer_size rb - used rb <? n then write_index rb'
                      else read_index rb) ->
    write_index rb' = (if n <? buffer_size rb - write_index rb then write_index rb + n
                       else n - (buffer_size rb - write_index rb)) ->
    contents rb' = Fifo.put_force (capacity rb) (contents rb) (take (Z.to_nat len) ptr)) as Hc.
  { intros rb' Hrb' Hbs Hw Hu Hri Hwi.
    rewrite (contents_written rb rb' ptr (len - n) n); try done; try lia.
    - rewrite <- put_force_newest' by (by apply length_contents_le).
      unfold capacity. rewrite Z2Nat.id by lia. fold n. f_equal. lia.
    - intros i Hi. cbn zeta. unfold pos. rewrite Hri, Hwi, Hbs.
      unfold n in *. zbool; lia. }
  destruct (Z.ltb_spec n (buffer_size rb - write_index rb)).
  - destruct (copy_straight (buffer_size rb) (write_index rb) n ptr (len - n) (buffer_ptr rb))
      as (buf & -> & Hw); try lia. cbn.
    eexists. split; [done|]. rewrite bf15_small by lia. destruct Hw as [Hl Hw].
    match goal with |- wf ?s /\ _ => assert (wf s) as Hs by (split; zbool; cbn; lia) end.
    split; [done|]. split; [zbool; done|].
    apply Hc; [done| | | | |]; zbool; try done; try lia; ring_state.
  - destruct (copy_wrapped (buffer_size rb) (write_index rb) n ptr (len - n) (buffer_ptr rb))
      as (buf1 & buf2 & -> & E2 & Hw); try lia. cbn. rewrite E2. cbn.
    eexists. split; [done|]. rewrite bf15_small, !bf1_flip by lia.
    destruct Hw as [Hl Hw].
    match goal with |- wf ?s /\ _ => assert (wf s) as Hs by (split; zbool; cbn; lia) end.
    split; [done|]. split; [zbool; done|].
    apply Hc; [done| | | | |]; zbool; try done; try lia; ring_state.
Qed.
End put_force.

(** ** get *)

Section get.
Context (rb : rt_ringbuffer) (ptr : list Z) (len : Z).
Hypothesis Hwf : wf rb.
Hypothesis Hlen : 0 <= len < 65536.
Hypothesis Hptr : len <= Z.of_nat (length ptr).

Lemma rt_ringbuffer_get_spec :
  exists rb', let n := Z.min len (used rb) in
  rt_ringbuffer_get rb ptr len =
    Ok (n, take (Z.to_nat n) (contents rb) ++ drop (Z.to_nat n) ptr, rb') /\
  wf rb' /\ buffer_size rb' = buffer_size rb /\
  contents rb' = drop (Z.to_nat n) (contents rb).
Proof.
  pose proof (used_range rb Hwf). pose proof (used_alt rb Hwf) as Ha.
  pose proof (length_contents rb Hwf) as Hlc.
  unfold rt_ringbuffer_get. rewrite data_len_used by done.
  pose proof Hwf as Hwf'. ring_wf Hwf'. rewrite u16_small by lia. cbv zeta.
  destruct (Z.eqb_spec (used rb) 0) as [->|Hne].
  { exists rb. rewrite Z.min_r by lia. done. }
  replace (if _ <? len then _ else len) with (Z.min len (used rb)) by (zbool; lia).
  set (n := Z.min len (used rb)).
  assert (forall ptr', length ptr' = length ptr ->
    (forall k : nat, ptr' !! k = if decide (Z.of_nat k < n)
       then buffer_ptr rb !! Z.to_nat (pos rb (Z.of_nat k)) else ptr !! k) ->
    ptr' = take (Z.to_nat n) (contents rb) ++ drop (Z.to_nat n) ptr) as Hp.
  { intros ptr' Hl Hk.
    apply (list_eq_below _ _ (Z.of_nat (length ptr))); [lia| |].
    - rewrite length_app, length_take, length_drop. lia.
    - intros i Hi. rewrite Hk. case_decide.
      + rewrite lookup_app_l by (rewrite length_take; lia).
        rewrite lookup_take_lt, lookup_contents by (try done; lia).
        by rewrite decide_True by lia.
      + rewrite lookup_app_r by (rewrite length_take; lia).
        rewrite length_take, lookup_drop. f_equal. lia. }
  destruct (Z.ltb_spec n (buffer_size rb - read_index rb)).
  - destruct (acopy_total ptr 0 (buffer_ptr rb) (read_index rb) n)
      as (ptr1 & E1 & L1); try lia. rewrite E1. cbn. rewrite bf15_small by lia.
    rewrite (Hp ptr1); [|done|].
    2:{ intros k. rewrite (lookup_acopy _ _ _ _ _ _ k E1). unfold pos.
        zbool; repeat case_decide; try lia; try done; f_equal; lia. }
    eexists. split; [done|].
    match goal with |- wf ?s /\ _ => assert (wf s) as Hs by (split; cbn; lia) end.
    split; [done|]. split; [done|].
    apply contents_advanced; try done; try lia; [ring_state|].
    intros i Hi. ring_state.
  - destruct (acopy_total ptr 0 (buffer_ptr rb) (read_index rb)
                (buffer_size rb - read_index rb)) as (ptr1 & E1 & L1); try lia.
    destruct (acopy_total ptr1 (buffer_size rb - read_index rb) (buffer_ptr rb) 0
                (n - (buffer_size rb - read_index rb))) as (ptr2 & E2 & L2); try lia.
    rewrite E1. cbn. rewrite E2. cbn. rewrite bf15_small, bf1_flip by lia.
    rewrite (Hp ptr2); [|lia|].
    2:{ intros k. rewrite (lookup_acopy _ _ _ _ _ _ k E2), (lookup_acopy _ _ _ _ _ _ k E1).
        unfold pos. zbool; repeat case_decide; try lia; try done; f_equal; lia. }
    eexists. split; [done|].
    match goal with |- wf ?s /\ _ => assert (wf s) as Hs by (split; cbn; lia) end.
    split; [done|]. split; [done|].
    apply contents_advanced; try done; try lia; [ring_state|].
    intros i Hi. ring_state.
Qed.
End get.

(** ** Single bytes *)

Lemma aset_written bs wi ch buf :
  0 <= wi < bs -> bs <= Z.of_nat (length buf) ->
  exists buf', aset buf wi ch = Ok buf' /\ written bs wi 1 [ch] 0 buf buf'.
Proof.
  intros. eexists. split; [apply aset_Ok; lia|]. split; [by rewrite length_insert|].
  intros k Hk. destruct (decide (Z.of_nat k = wi)) as [<-|Hne].
  - rewrite Nat2Z.id, list_lookup_insert_eq by lia.
    assert (dist bs (Z.of_nat k) (Z.of_nat k) = 0) as -> by (unfold dist; zbool; lia).
    done.
  - rewrite list_lookup_insert_ne by lia. rewrite decide_False; [done|].
    unfold dist. zbool; lia.
Qed.

Lemma rt_ringbuffer_putchar_spec rb ch :
  wf rb ->
  exists rb', rt_ringbuffer_putchar rb ch = Ok (Z.min 1 (buffer_size rb - used rb), rb') /\
  wf rb' /\ buffer_size rb' = buffer_size rb /\
  contents rb' = Fifo.put (capacity rb) (contents rb) [ch].
Proof.
  intros Hwf. pose proof (used_range rb Hwf). pose proof (used_alt rb Hwf) as Ha.
  pose proof (length_contents rb Hwf) as Hlc.
  unfold rt_ringbuffer_putchar, Fifo.put, capacity. rewrite space_len_used by done.
  pose proof Hwf as Hwf'. ring_wf Hwf'.
  destruct (Z.eqb_spec (buffer_size rb - used rb) 0) as [Hfull|Hsp].
  { exists rb. rewrite Hfull. split; [done|]. split; [done|]. split; [done|].
    replace (_ - _)%nat with 0%nat by lia. by rewrite app_nil_r. }
  replace (Z.min 1 (buffer_size rb - used rb)) with 1 by lia.
  destruct (aset_written (buffer_size rb) (write_index rb) ch (buffer_ptr rb))
    as (buf & -> & Hw); try lia. cbn.
  eexists. split; [done|]. rewrite (take_ge [ch]) by (cbn; lia).
  assert (forall rb', wf rb' -> buffer_size rb' = buffer_size rb ->
    buffer_ptr rb' = buf -> used rb' = used rb + 1 -> read_index rb' = read_index rb ->
    contents rb' = contents rb ++ [ch]) as Hc.
  { intros rb' Hrb' Hbs Hb Hu Hri.
    rewrite (contents_written rb rb' [ch] 0 1); subst; try done; try lia.
    - replace (used rb + 1 - used rb') with 0 by lia. done.
    - intros i Hi. cbn zeta. unfold pos. rewrite Hri, Hbs. zbool; lia. }
  destruct Hw as [Hl Hw].
  match goal with |- wf ?s /\ _ => assert (wf s) as Hs
    by (zbool; rewrite ?bf15_small, ?bf1_flip by lia; split; cbn; lia) end.
  split; [done|]. split; [zbool; done|].
  apply Hc; zbool; try done; ring_state.
Qed.

Lemma status_full rb :
  wf rb ->
  (match rt_ringbuffer_status rb with RT_RINGBUFFER_FULL => true | _ => false end)
  = (used rb =? buffer_size rb).
Proof.
  intros H. ring_wf H. unfold rt_ringbuffer_status, used. zbool; lia || done.
Qed.

Lemma rt_ringbuffer_putchar_force_spec rb ch :
  wf rb ->
  exists rb', rt_ringbuffer_putchar_force rb ch = Ok (1, rb') /\
  wf rb' /\ buffer_size rb' = buffer_size rb /\
  contents rb' = Fifo.put_force (capacity rb) (contents rb) [ch].
Proof.
  intros Hwf. pose proof (used_range rb Hwf). pose proof (used_alt rb Hwf) as Ha.
  pose proof (length_contents rb Hwf) as Hlc.
  unfold rt_ringbuffer_putchar_force, Fifo.put_force, capacity.
  rewrite status_full by done. pose proof Hwf as Hwf'. ring_wf Hwf'.
  destruct (aset_written (buffer_size rb) (write_index rb) ch (buffer_ptr rb))
    as (buf & -> & Hw); try lia. cbn.
  assert (forall rb', wf rb' -> buffer_size rb' = buffer_size rb ->
    buffer_ptr rb' = buf -> used rb' = Z.min (buffer_size rb) (used rb + 1) ->
    write_index rb' = (if write_index rb =? buffer_size rb - 1 then 0
                       else write_index rb + 1) ->
    read_index rb' = (if used rb =? buffer_size rb then write_index rb'
                      else read_index rb) ->
    contents rb' = drop (length (contents rb) + 1 - Z.to_nat (buffer_size rb))
                     (contents rb ++ [ch])) as Hc.
  { intros rb' Hrb' Hbs Hb Hu Hwi Hri.
    rewrite (contents_written rb rb' [ch] 0 1); subst; try done; try lia.
    - cbn. f_equal. lia.
    - intros i Hi. cbn zeta. unfold pos. rewrite Hri, Hwi, Hbs. zbool; lia. }
  destruct Hw as [Hl Hw].
  destruct (Z.eqb_spec (write_index rb) (buffer_size rb - 1));
    (eexists; split; [reflexivity|];
     match goal with |- wf ?s /\ _ => assert (wf s) as Hs
       by (zbool; cbn; rewrite ?bf15_small, ?bf1_flip by lia; split; cbn; lia) end;
     split; [done|]; split; [zbool; done|];
     apply Hc; zbool; try done; ring_state).
Qed.

Lemma rt_ringbuffer_getchar_spec rb :
  wf rb ->
  exists rb', rt_ringbuffer_getchar rb =
    Ok (Z.min 1 (used rb), head (contents rb), rb') /\
  wf rb' /\ buffer_size rb' = buffer_size rb /\ contents rb' = tail (contents rb).
Proof.
  intros Hwf. pose proof (used_range rb Hwf). pose proof (used_alt rb Hwf) as Ha.
  pose proof (length_contents rb Hwf) as Hlc.
  unfold rt_ringbuffer_getchar. rewrite data_len_used by done.
  pose proof (lookup_contents rb 0 Hwf) as H0.
  destruct (Z.eqb_spec (used rb) 0) as [Hz|Hnz].
  { exists rb. rewrite Hz. destruct (contents rb); [done|cbn in *; lia]. }
  pose proof Hwf as Hwf'. ring_wf Hwf'.
  replace (Z.min 1 (used rb)) with 1 by lia.
  rewrite decide_True in H0 by lia.
  replace (pos rb (Z.of_nat 0)) with (read_index rb) in H0 by (unfold pos; zbool; lia).
  assert (exists ch, contents rb = ch :: tail (contents rb)) as [ch Hch].
  { destruct (contents rb) as [|c l]; [cbn in *; lia|by exists c]. }
  assert (buffer_ptr rb !! Z.to_nat (read_index rb) = Some ch) as Hl
    by (rewrite <- H0, Hch; done).
  rewrite (aget_Ok _ _ ch) by (done || lia). cbn.
  eexists. split; [rewrite Hch; reflexivity|].
  match goal with |- wf ?s /\ _ => assert (wf s) as Hs
    by (zbool; cbn; rewrite ?bf15_small, ?bf1_flip by lia; split; cbn; lia) end.
  split; [done|]. split; [zbool; done|].
  replace (tail (contents rb)) with (drop (Z.to_nat 1) (contents rb)) by (by rewrite Hch).
  apply contents_advanced; zbool; try done; try ring_state; intros i Hi; ring_state.
Qed.

(** [peak] gives the longest run that is contiguous in the pool and consumes it. *)
Lemma rt_ringbuffer_peak_spec rb :
  wf rb ->
  exists n p rb', rt_ringbuffer_peak rb = (n, p, rb') /\
  wf rb' /\ n = Z.min (used rb) (buffer_size rb - read_index rb) /\
  contents rb = take (Z.to_nat n) (drop (Z.to_nat (read_index rb)) (buffer_ptr rb))
                ++ contents rb' /\
  p = (if used rb =? 0 then None else Some (read_index rb)).
Proof.
  intros Hwf. pose proof (used_range rb Hwf). pose proof (used_alt rb Hwf) as Ha.
  pose proof (length_contents rb Hwf) as Hlc.
  unfold rt_ringbuffer_peak. rewrite data_len_used by done.
  pose proof Hwf as Hwf'. ring_wf Hwf'.
  destruct (Z.eqb_spec (used rb) 0) as [Hz|Hnz].
  { exists 0, None, rb. rewrite Hz, Z.min_l by lia. rewrite take_0. done. }
  rewrite (u32_small (buffer_size rb - read_index rb)) by lia.
  set (n := Z.min (used rb) (buffer_size rb - read_index rb)).
  set (rb' := if used rb <? buffer_size rb - read_index rb then
                set_read (read_mirror rb) (read_index rb + used rb) rb
              else set_read (1 - read_mirror rb) 0 rb).
  exists n, (Some (read_index rb)), rb'.
  split.
  { unfold rb', n. destruct (Z.ltb_spec (used rb) (buffer_size rb - read_index rb)).
    - by rewrite bf15_small, Z.min_l by lia.
    - by rewrite bf1_flip, Z.min_r by lia. }
  assert (wf rb') as Hs by (unfold rb'; zbool; cbn; split; cbn; lia).
  split; [done|]. split; [done|]. split; [|done].
  rewrite (contents_advanced rb rb' n); try done; try (unfold rb', n in *; zbool; done).
  - rewrite <- (take_drop (Z.to_nat n) (contents rb)) at 1. f_equal.
    apply (list_eq_below _ _ n);
      [rewrite length_take; lia|rewrite length_take, length_drop; lia|].
    intros i Hi. rewrite !lookup_take_lt, lookup_drop, lookup_contents by (try done; lia).
    rewrite decide_True by lia. f_equal. unfold pos, n in *. zbool; lia.
  - lia.
  - pose proof (used_alt rb' Hs) as Ha'. unfold n. revert Ha'. unfold rb'.
    destruct (used rb <? buffer_size rb - read_index rb) eqn:E; cbn; lia.
  - intros i Hi. unfold n, pos. revert Hi. unfold rb'.
    pose proof (used_alt rb' Hs) as Ha'. revert Ha'. unfold rb'.
    destruct (used rb <? buffer_size rb - read_index rb) eqn:E; cbn; zbool; lia.
Qed.

Lemma rt_ringbuffer_init_spec pool size :
  4 <= size < 32768 -> size <= Z.of_nat (length pool) ->
  exists rb, rt_ringbuffer_init pool size = Ok rb /\ wf rb /\ contents rb = [] /\
    buffer_size rb = size - size mod 4.
Proof.
  intros Hs Hp. unfold rt_ringbuffer_init. rewrite RT_ALIGN_DOWN_4.
  destruct (Z.ltb_spec 0 size); [cbn|lia].
  pose proof (Z.mod_pos_bound size 4 ltac:(lia)).
  assert (4 * (size / 4) = size - size mod 4) by (pose proof (Z.div_mod size 4); lia).
  assert (1 <= size / 4) by (apply Z.div_le_lower_bound; lia).
  rewrite i16_small by lia. eexists. split; [done|].
  match goal with |- wf ?s /\ _ => assert (wf s) as Hw by (split; cbn; lia) end.
  split; [done|]. split; [|done].
  apply length_zero_iff_nil. pose proof (length_contents _ Hw) as Hl.
  unfold used in Hl. cbn in *. lia.
Qed.

Lemma rt_ringbuffer_reset_spec rb :
  wf rb -> wf (rt_ringbuffer_reset rb) /\ contents (rt_ringbuffer_reset rb) = [] /\
           buffer_size (rt_ringbuffer_reset rb) = buffer_size rb.
Proof.
  intros Hwf. assert (wf (rt_ringbuffer_reset rb)) as Hw
    by (ring_wf Hwf; split; cbn; lia).
  split; [done|]. split; [|done].
  apply length_zero_iff_nil. pose proof (length_contents _ Hw) as Hl.
  unfold used in Hl. cbn in *. lia.
Qed.

(** ** Sequences of operations *)

Inductive op :=
| OpPut (xs : list Z) | OpPutForce (xs : list Z) | OpGet (n : nat)
| OpPutChar (c : Z) | OpPutCharForce (c : Z) | OpGetChar | OpPeak | OpReset.

(** The bytes an operation hands back. *)
Definition run_op (rb : rt_ringbuffer) (o : op) : result (list Z * rt_ringbuffer) :=
  match o with
  | OpPut xs => '(_, rb) ← rt_ringbuffer_put rb xs (Z.of_nat (length xs)); Ok ([], rb)
  | OpPutForce xs =>
      '(_, rb) ← rt_ringbuffer_put_force rb xs (Z.of_nat (length xs)); Ok ([], rb)
  | OpGet n =>
      '(k, out, rb) ← rt_ringbuffer_get rb (replicate n 0) (Z.of_nat n);
      Ok (take (Z.to_nat k) out, rb)
  | OpPutChar c => '(_, rb) ← rt_ringbuffer_putchar rb c; Ok ([], rb)
  | OpPutCharForce c => '(_, rb) ← rt_ringbuffer_putchar_force rb c; Ok ([], rb)
  | OpGetChar =>
      '(_, c, rb) ← rt_ringbuffer_getchar rb;
      Ok (match c with Some c => [c] | None => [] end, rb)
  | OpPeak =>
      let '(n, p, rb') := rt_ringbuffer_peak rb in
      Ok (match p with
          | Some i => take (Z.to_nat n) (drop (Z.to_nat i) (buffer_ptr rb))
          | None => [] end, rb')
  | OpReset => Ok ([], rt_ringbuffer_reset rb)
  end.

Fixpoint run_ops (rb : rt_ringbuffer) (os : list op) : result (list Z * rt_ringbuffer) :=
  match os with
  | [] => Ok ([], rb)
  | o :: os =>
      '(out1, rb) ← run_op rb o;
      '(out2, rb) ← run_ops rb os;
      Ok (out1 ++ out2, rb)
  end.

(** Lengths are passed as [rt_uint16_t]. *)
Definition op_ok (o : op) : bool :=
  match o with
  | OpPut xs | OpPutForce xs => Z.of_nat (length xs) <? 65536
  | OpGet n => Z.of_nat n <? 65536
  | _ => true
  end.

(** The same operation on the bounded FIFO.  [peak] may hand back any
    non-empty prefix of a non-empty queue. *)
Inductive fifo_step (cap : nat) : list Z -> op -> list Z -> list Z -> Prop :=
| fifo_put q xs : fifo_step cap q (OpPut xs) [] (Fifo.put cap q xs)
| fifo_put_force q xs : fifo_step cap q (OpPutForce xs) [] (Fifo.put_force cap q xs)
| fifo_get q n : fifo_step cap q (OpGet n) (take n q) (drop n q)
| fifo_putchar q c : fifo_step cap q (OpPutChar c) [] (Fifo.put cap q [c])
| fifo_putchar_force q c :
    fifo_step cap q (OpPutCharForce c) [] (Fifo.put_force cap q [c])
| fifo_getchar q : fifo_step cap q OpGetChar (take 1 q) (drop 1 q)
| fifo_peak out q : (q <> [] -> out = [] -> False) -> fifo_step cap (out ++ q) OpPeak out q
| fifo_reset q : fifo_step cap q OpReset [] [].

Inductive fifo_steps (cap : nat) : list Z -> list op -> list Z -> list Z -> Prop :=
| fifo_done q : fifo_steps cap q [] [] q
| fifo_more q o out1 q1 os out2 q2 :
    fifo_step cap q o out1 q1 -> fifo_steps cap q1 os out2 q2 ->
    fifo_steps cap q (o :: os) (out1 ++ out2) q2.

Lemma run_op_refines rb o :
  wf rb -> op_ok o = true ->
  exists out rb', run_op rb o = Ok (out, rb') /\ wf rb' /\
    buffer_size rb' = buffer_size rb /\
    fifo_step (capacity rb) (contents rb) o out (contents rb').
Proof.
  intros Hwf Hok. pose proof (used_range rb Hwf) as Hu.
  pose proof (length_contents rb Hwf) as Hlc.
  destruct o as [xs|xs|n|c|c| | |]; cbn [run_op op_ok] in *.
  - destruct (rt_ringbuffer_put_spec rb xs (Z.of_nat (length xs)))
      as (rb' & -> & Hw & Hb & Hc); [done|lia|lia|].
    exists [], rb'. split; [done|]. split; [done|]. split; [done|]. rewrite Hc.
    replace (contents rb ++ _) with (Fifo.put (capacity rb) (contents rb) xs); [constructor|].
    unfold Fifo.put, capacity. f_equal. destruct (decide (length xs <= Z.to_nat (buffer_size rb)
      - length (contents rb))%nat); [rewrite !take_ge by lia; done|f_equal; lia].
  - destruct (rt_ringbuffer_put_force_spec rb xs (Z.of_nat (length xs)))
      as (rb' & -> & Hw & Hb & Hc); [done|lia|lia|].
    exists [], rb'. rewrite Hc, Nat2Z.id, take_ge by lia. split_and!; [done..|constructor].
  - destruct (rt_ringbuffer_get_spec rb (replicate n 0) (Z.of_nat n))
      as (rb' & -> & Hw & Hb & Hc); [done|lia|rewrite length_replicate; lia|].
    cbn. eexists _, rb'. split; [done|]. split; [done|]. split; [done|]. rewrite Hc.
    rewrite take_app_le by (rewrite length_take; lia). rewrite take_take.
    destruct (decide (n <= length (contents rb))%nat).
    + rewrite Z.min_l, Nat2Z.id, Nat.min_id by lia. constructor.
    + rewrite Z.min_r, Nat.min_id by lia. rewrite take_ge, drop_ge by lia.
      rewrite <- (take_ge (contents rb) n) at 2 by lia.
      rewrite <- (drop_ge (contents rb) n) by lia. constructor.
  - destruct (rt_ringbuffer_putchar_spec rb c Hwf) as (rb' & -> & Hw & Hb & Hc).
    exists [], rb'. rewrite Hc. split_and!; [done..|constructor].
  - destruct (rt_ringbuffer_putchar_force_spec rb c Hwf) as (rb' & -> & Hw & Hb & Hc).
    exists [], rb'. rewrite Hc. split_and!; [done..|constructor].
  - destruct (rt_ringbuffer_getchar_spec rb Hwf) as (rb' & -> & Hw & Hb & Hc).
    eexists _, rb'. split; [done|]. split; [done|]. split; [done|]. rewrite Hc.
    destruct (contents rb) as [|c l];
      [apply (fifo_getchar _ [])|apply (fifo_getchar _ (c :: l))].
  - destruct (rt_ringbuffer_peak_spec rb Hwf) as (n & p & rb' & Hp & Hw & Hn & Hc & Hpp).
    rewrite Hp.
    assert (buffer_size rb' = buffer_size rb) as Hb.
    { unfold rt_ringbuffer_peak in Hp. repeat case_match; simplify_eq; done. }
    eexists _, rb'. split; [done|]. split; [done|]. split; [done|].
    set (m := match p with Some _ => _ | None => _ end).
    replace m
      with (take (Z.to_nat n) (drop (Z.to_nat (read_index rb)) (buffer_ptr rb))).
    2:{ unfold m. rewrite Hpp. zbool; [|done]. 
        replace (Z.to_nat n) with 0%nat by (destruct Hwf; lia). done. }
    rewrite Hc at 1. constructor. intros Hne Hz.
    apply (f_equal length) in Hz. apply (f_equal length) in Hc.
    rewrite length_app in Hc. rewrite Hz in Hc. cbn in Hz, Hc.
    rewrite length_take, length_drop in Hz.
    assert (length (contents rb') <> 0%nat) by (by destruct (contents rb')).
    ring_wf Hwf. lia.
  - destruct (rt_ringbuffer_reset_spec rb Hwf) as (Hw & Hc & Hb).
    eexists _, _. split; [done|]. split; [done|]. split; [done|]. rewrite Hc. constructor.
Qed.

Lemma run_ops_refines rb os :
  wf rb -> forallb op_ok os = true ->
  exists out rb', run_ops rb os = Ok (out, rb') /\ wf rb' /\
    fifo_steps (capacity rb) (contents rb) os out (contents rb').
Proof.
  revert rb. induction os as [|o os IH]; intros rb Hw Hos.
  { exists [], rb. split_and!; [done..|constructor]. }
  cbn in Hos. apply andb_prop in Hos as [Ho Hos].
  destruct (run_op_refines rb o Hw Ho) as (out1 & rb1 & E1 & Hw1 & Hb1 & Hf1).
  destruct (IH rb1 Hw1 Hos) as (out2 & rb2 & E2 & Hw2 & Hf2).
  exists (out1 ++ out2), rb2. cbn. rewrite E1. cbn. rewrite E2. cbn.
  split_and!; [done..|]. econstructor; [exact Hf1|].
  unfold capacity in *. by rewrite <- Hb1.
Qed.

(** C1: every sequence of ring-buffer operations, in any order and of any
    length, on a buffer that [rt_ringbuffer_init] accepts stays inside the
    pool, keeps the index/mirror invariant, and hands back exactly the bytes
    that a bounded FIFO of capacity [buffer_size] hands back: [put] drops what
    does not fit, [put_force] drops the oldest bytes. *)
Theorem ring_refines_fifo (pool : list Z) (size : Z) (os : list op) :
  4 <= size < 32768 -> size <= Z.of_nat (length pool) -> forallb op_ok os = true ->
  exists rb out rb', rt_ringbuffer_init pool size = Ok rb /\
    run_ops rb os = Ok (out, rb') /\ wf rb' /\
    fifo_steps (Z.to_nat (size - size mod 4)) [] os out (contents rb').
Proof.
  intros Hs Hp Hos.
  destruct (rt_ringbuffer_init_spec pool size) as (rb & Hi & Hw & Hc & Hb); [done..|].
  destruct (run_ops_refines rb os Hw Hos) as (out & rb' & Hr & Hw' & Hf).
  exists rb, out, rb'. rewrite Hc in Hf. unfold capacity in Hf. rewrite Hb in Hf. done.
Qed.

Lemma ring_refines_fifo_witness :
  exists rb out rb',
    rt_ringbuffer_init (replicate 9 0) 9 = Ok rb /\
    run_ops rb [OpPut [1; 2; 3; 4; 5]; OpGet 3; OpPutForce [6; 7; 8; 9; 10; 11; 12];
                OpPutChar 13; OpGetChar; OpPeak] = Ok (out, rb') /\ wf rb' /\
    fifo_steps 8 [] [OpPut [1; 2; 3; 4; 5]; OpGet 3; OpPutForce [6; 7; 8; 9; 10; 11; 12];
                OpPutChar 13; OpGetChar; OpPeak] out (contents rb').
Proof.
  apply (ring_refines_fifo (replicate 9 0) 9
           [OpPut [1; 2; 3; 4; 5]; OpGet 3; OpPutForce [6; 7; 8; 9; 10; 11; 12];
            OpPutChar 13; OpGetChar; OpPeak]); [lia|cbn; lia|reflexivity].
Defined.

End Ring.
