(* ===== verification/Ps2.v ===== *)
(** * The PS2 gamepad driver (applications/ps2.c)

    The driver bit-bangs the pad's synchronous serial protocol on four pins.
    [ps2] is the driver's global state with the history of the bus; every
    function of ps2.c is a function on it.  [bus_of] reads a history the way a
    device on the wires does (bits are sampled at the rising clock edge while
    CS is low), and [pad] is a pad that shifts out a given answer.  The
    theorems: what each command puts on the wire, and that a poll of the pad
    recovers exactly the bytes the pad answered and the key it encodes. *)

From S2P Require Import Prelude Gpio.

Module Ps2.

(** ** Pins and constants (ps2.h) *)

Definition CLK : Z := GET_PIN PORT_A 0.
Definition CS : Z := GET_PIN PORT_A 1.
Definition DO : Z := GET_PIN PORT_A 2.
Definition DI_PIN : Z := GET_PIN PORT_A 3.

Definition PSS_RX : Z := 5.
Definition PSS_RY : Z := 6.
Definition PSS_LX : Z := 7.
Definition PSS_LY : Z := 8.

(** [MASK]: PSB_SELECT .. PSB_PINK. *)
Definition MASK : list Z := [1; 2; 3; 4; 5; 6; 7; 8; 9; 10; 11; 12; 13; 14; 15; 16].
Definition Comd0 : Z := 0x01.
Definition Comd1 : Z := 0x42.

(** ** State *)

Record ps2 := mk_ps2 {
  Data : list Z;                         (* uint8_t Data[9] *)
  Handkey : Z;                           (* uint16_t *)
  PS2_LX : Z; PS2_LY : Z; PS2_RX : Z; PS2_RY : Z; PS2_KEY : Z;  (* int *)
  beep_value : Z;                        (* hardware.c *)
  hist : history
}.

Definition with_hist (f : history -> history) (s : ps2) : ps2 :=
  mk_ps2 (Data s) (Handkey s) (PS2_LX s) (PS2_LY s) (PS2_RX s) (PS2_RY s) (PS2_KEY s)
    (beep_value s) (f (hist s)).
Definition with_Data (d : list Z) (s : ps2) : ps2 :=
  mk_ps2 d (Handkey s) (PS2_LX s) (PS2_LY s) (PS2_RX s) (PS2_RY s) (PS2_KEY s)
    (beep_value s) (hist s).
Definition with_Handkey (k : Z) (s : ps2) : ps2 :=
  mk_ps2 (Data s) k (PS2_LX s) (PS2_LY s) (PS2_RX s) (PS2_RY s) (PS2_KEY s)
    (beep_value s) (hist s).

(** ** Operations (ps2.c) *)

Definition CS_H := with_hist (rt_pin_write CS PIN_HIGH).
Definition CS_L := with_hist (rt_pin_write CS PIN_LOW).
Definition CLK_H := with_hist (rt_pin_write CLK PIN_HIGH).
Definition CLK_L := with_hist (rt_pin_write CLK PIN_LOW).
Definition DO_H := with_hist (rt_pin_write DO PIN_HIGH).
Definition DO_L := with_hist (rt_pin_write DO PIN_LOW).
Definition DELAY_TIME := with_hist (rt_hw_us_delay 5).
Definition us_delay (n : Z) := with_hist (rt_hw_us_delay n).

Definition PS2_Init (s : ps2) : ps2 :=
  let s := with_hist (rt_pin_mode CS PIN_MODE_OUTPUT) s in
  let s := with_hist (rt_pin_mode DO PIN_MODE_OUTPUT) s in
  let s := with_hist (rt_pin_mode CLK PIN_MODE_OUTPUT) s in
  let s := with_hist (rt_pin_mode DI_PIN PIN_MODE_INPUT_PULLUP) s in
  DO_H (CLK_H (CS_H s)).

Section driver.
Context (w : world).

(** [if (DI) Data[i] = ref | Data[i];] *)
Definition read_DI (i : Z) (ref : Z) (s : ps2) : result ps2 :=
  let '(di, h) := rt_pin_read w DI_PIN (hist s) in
  let s := with_hist (fun _ => h) s in
  if di =? 0 then Ok s else
  d ← aget (Data s) i;
  data ← aset (Data s) i (u8 (Z.lor ref d));
  Ok (with_Data data s).

(** [for (ref = 0x01; ref < 0x0100; ref <<= 1)] of [PS2_Cmd]: one iteration. *)
Definition cmd_body (CMD : Z) (rs : Z * ps2) : result (Z * ps2) :=
  let '(ref, s) := rs in
  let s := if Z.land ref CMD =? 0 then DO_L s else DO_H s in
  let s := DELAY_TIME (CLK_H s) in
  let s := DELAY_TIME (CLK_L s) in
  let s := CLK_H s in
  s ← read_DI 1 ref s;
  Ok (u16 (Z.shiftl ref 1), s).

Definition PS2_Cmd (CMD : Z) (s : ps2) : result ps2 :=
  data ← aset (Data s) 1 0;
  let s := with_Data data s in
  '(_, s) ← while_loop 9 (fun rs => fst rs <? 0x0100) (cmd_body CMD) (0x01, s);
  Ok (us_delay 16 s).

Definition PS2_RedLight (s : ps2) : result (Z * ps2) :=
  let s := CS_L s in
  s ← PS2_Cmd Comd0 s;
  s ← PS2_Cmd Comd1 s;
  let s := CS_H s in
  d ← aget (Data s) 1;
  Ok (if d =? 0x73 then 0 else 1, s).

Definition read_body (byte : Z) (rs : Z * ps2) : result (Z * ps2) :=
  let '(ref, s) := rs in
  let s := DELAY_TIME (CLK_H s) in
  let s := DELAY_TIME (CLK_L s) in
  let s := CLK_H s in
  s ← read_DI byte ref s;
  Ok (u16 (Z.shiftl ref 1), s).

Definition read_byte_body (bs : Z * ps2) : result (Z * ps2) :=
  let '(byte, s) := bs in
  '(_, s) ← while_loop 9 (fun rs => fst rs <? 0x100) (read_body byte) (0x01, s);
  Ok (u8 (byte + 1), us_delay 16 s).

Definition PS2_ReadData (s : ps2) : result ps2 :=
  let s := CS_L s in
  s ← PS2_Cmd Comd0 s;
  s ← PS2_Cmd Comd1 s;
  '(_, s) ← while_loop 8 (fun bs => fst bs <? 9) read_byte_body (2, s);
  Ok (CS_H s).

(** [for (a = 0; a < 9; a++) Data[a] = 0x00;] *)
Definition PS2_ClearData (s : ps2) : result ps2 :=
  '(_, s) ← while_loop 10 (fun as_ => fst as_ <? 9)
    (fun as_ => let '(a, s) := as_ in
                d ← aset (Data s) a 0x00; Ok (u8 (a + 1), with_Data d s)) (0, s);
  Ok s.

(** The search of [PS2_DataKey] from [index] on. *)
Fixpoint find_key (fuel : nat) (handkey index : Z) : result Z :=
  match fuel with
  | O => Fault OutOfFuel
  | S fuel =>
      if index <? 16 then
        m ← aget MASK index;
        if Z.land handkey (Z.shiftl 1 (m - 1)) =? 0 then Ok (u8 (index + 1))
        else find_key fuel handkey (u8 (index + 1))
      else Ok 0
  end.

Definition PS2_DataKey (s : ps2) : result (Z * ps2) :=
  s ← PS2_ClearData s;
  s ← PS2_ReadData s;
  d4 ← aget (Data s) 4;
  d3 ← aget (Data s) 3;
  let s := with_Handkey (u16 (Z.lor (Z.shiftl d4 8) d3)) s in
  k ← find_key 17 (Handkey s) 0;
  Ok (k, s).

Definition PS2_AnologData (button : Z) (s : ps2) : result Z := aget (Data s) button.

(** A frame that sends the given bytes; the delays differ between the frames. *)
Fixpoint PS2_Cmds (cmds : list Z) (s : ps2) : result ps2 :=
  match cmds with
  | [] => Ok s
  | c :: cmds => s ← PS2_Cmd c s; PS2_Cmds cmds s
  end.

Definition PS2_Vibration (motor1 motor2 : Z) (s : ps2) : result ps2 :=
  let s := us_delay 16 (CS_L s) in
  s ← PS2_Cmds [0x01; 0x42; 0X00; motor1; motor2; 0X00; 0X00; 0X00; 0X00] s;
  Ok (us_delay 16 (CS_H s)).

Definition PS2_ShortPoll (s : ps2) : result ps2 :=
  let s := us_delay 16 (CS_L s) in
  s ← PS2_Cmds [0x01; 0x42; 0X00; 0x00; 0x00] s;
  Ok (us_delay 16 (CS_H s)).

Definition PS2_EnterConfing (s : ps2) : result ps2 :=
  let s := us_delay 16 (CS_L s) in
  s ← PS2_Cmds [0x01; 0x43; 0X00; 0x01; 0x00; 0X00; 0X00; 0X00; 0X00] s;
  Ok (us_delay 16 (CS_H s)).

Definition PS2_TurnOnAnalogMode (s : ps2) : result ps2 :=
  let s := CS_L s in
  s ← PS2_Cmds [0x01; 0x44; 0X00; 0x01; 0x03; 0X00; 0X00; 0X00; 0X00] s;
  Ok (us_delay 16 (CS_H s)).

Definition PS2_VibrationMode (s : ps2) : result ps2 :=
  let s := us_delay 16 (CS_L s) in
  s ← PS2_Cmds [0x01; 0x4D; 0X00; 0x00; 0X01] s;
  Ok (us_delay 16 (CS_H s)).

Definition PS2_ExitConfing (s : ps2) : result ps2 :=
  let s := us_delay 16 (CS_L s) in
  s ← PS2_Cmds [0x01; 0x43; 0X00; 0x00; 0x5A; 0x5A; 0x5A; 0x5A; 0x5A] s;
  Ok (us_delay 16 (CS_H s)).

Definition PS2_SetInit (s : ps2) : result ps2 :=
  s ← PS2_ShortPoll s;
  s ← PS2_ShortPoll s;
  s ← PS2_ShortPoll s;
  s ← PS2_EnterConfing s;
  s ← PS2_TurnOnAnalogMode s;
  s ← PS2_VibrationMode s;
  PS2_ExitConfing s.

(** [PS2_Receive]: the sticks come from the data of the previous poll. *)
Definition PS2_Receive (s : ps2) : result ps2 :=
  lx ← PS2_AnologData PSS_LX s;
  ly ← PS2_AnologData PSS_LY s;
  rx ← PS2_AnologData PSS_RX s;
  ry ← PS2_AnologData PSS_RY s;
  let s := mk_ps2 (Data s) (Handkey s) lx ly rx ry (PS2_KEY s) (beep_value s) (hist s) in
  '(k, s) ← PS2_DataKey s;
  Ok (mk_ps2 (Data s) (Handkey s) (PS2_LX s) (PS2_LY s) (PS2_RX s) (PS2_RY s) k
        (beep_value s) (hist s)).

(** The part of [PS2_handle] before its loop, and one iteration of the loop
    (the console print has no effect on this state). *)
Definition PS2_handle_init (s : ps2) : result ps2 :=
  let s := PS2_Init s in
  s ← PS2_SetInit s;
  s ← PS2_Vibration 0x00 0x40 s;
  Ok (with_hist (rt_thread_mdelay 250) s).

Definition PS2_handle_body (s : ps2) : result ps2 :=
  s ← PS2_Receive s;
  let beep := if PS2_KEY s =? 0 then 0 else 1 in
  Ok (mk_ps2 (Data s) (Handkey s) (PS2_LX s) (PS2_LY s) (PS2_RX s) (PS2_RY s) (PS2_KEY s)
        beep (rt_thread_mdelay 50 (hist s))).
End driver.

(** ** The wires: what a device on the bus sees *)

(** [b_bits]: the DO levels at the rising clock edges since CS fell;
    [b_falls]: the falling clock edges since then; [b_frames]: the complete
    frames, CS falling to CS rising. *)
Record bus := mk_bus {
  b_cs : Z; b_clk : Z; b_do : Z;
  b_bits : list Z; b_falls : nat; b_frames : list (list Z)
}.

Definition bus_step (e : event) (b : bus) : bus :=
  match e with
  | PinWrite p v =>
      if p =? CS then
        if v =? 0 then
          if b_cs b =? 0 then b else mk_bus 0 (b_clk b) (b_do b) [] 0 (b_frames b)
        else
          if b_cs b =? 0 then mk_bus v (b_clk b) (b_do b) [] 0 (b_frames b ++ [b_bits b])
          else mk_bus v (b_clk b) (b_do b) (b_bits b) (b_falls b) (b_frames b)
      else if p =? CLK then
        if b_cs b =? 0 then
          if v =? 0 then
            mk_bus 0 v (b_do b) (b_bits b)
              (if b_clk b =? 0 then b_falls b else S (b_falls b)) (b_frames b)
          else
            mk_bus 0 v (b_do b)
              (if b_clk b =? 0 then b_bits b ++ [b_do b] else b_bits b)
              (b_falls b) (b_frames b)
        else mk_bus (b_cs b) v (b_do b) (b_bits b) (b_falls b) (b_frames b)
      else if p =? DO then
        mk_bus (b_cs b) (b_clk b) v (b_bits b) (b_falls b) (b_frames b)
      else b
  | _ => b
  end.

Definition bus_idle : bus := mk_bus 1 1 1 [] 0 [].
Fixpoint bus_of (h : history) : bus :=
  match h with
  | [] => bus_idle
  | e :: h => bus_step e (bus_of h)
  end.

(** The levels that carry a byte, least significant bit first. *)
Definition levels (c : Z) : list Z := Z.b2z <$> bits_lsb c.

(** A pad that answers [resp]: it presents the next bit at every falling
    clock edge; after the answer the line is pulled up. *)
Definition pad_bit (resp : list Z) (n : nat) : bool :=
  default true (concat (bits_lsb <$> resp) !! n).
Definition pad (resp : list Z) : world := fun h p =>
  if p =? DI_PIN then Z.b2z (pad_bit resp (b_falls (bus_of h) - 1)) else 0.

(** ** One clock cycle *)

Definition upd (s : ps2) (data : list Z) (h : history) : ps2 :=
  with_hist (fun _ => h) (with_Data data s).

Definition ready (s : ps2) : Prop :=
  b_cs (bus_of (hist s)) = 0 /\ b_clk (bus_of (hist s)) = 1.

(** The bus after clock cycles that carried the DO levels [ls]. *)
Definition push (ls : list Z) (b : bus) : bus :=
  mk_bus 0 1 (List.last ls (b_do b)) (b_bits b ++ ls) (length ls + b_falls b) (b_frames b).

Lemma push_push ls1 ls2 b : push ls2 (push ls1 b) = push (ls1 ++ ls2) b.
Proof.
  unfold push. cbn. f_equal.
  - destruct ls2 as [|l ls2]; [by rewrite app_nil_r|].
    destruct (exists_last (l := l :: ls2)) as (ls & x & ->); [done|].
    by rewrite app_assoc, !last_last.
  - by rewrite app_assoc.
  - rewrite length_app. lia.
Qed.

Lemma push_nil b : b_cs b = 0 -> b_clk b = 1 -> push [] b = b.
Proof. destruct b; cbn; intros -> ->. unfold push. cbn. by rewrite app_nil_r. Qed.

Section cycles.
Context (w : world).

(** What one iteration of a bit loop does: it sends level [l], samples DI at
    a point where one more falling edge has passed, and ors the sample into
    [Data[dst]]. *)
Definition cycle_ok (l ref : Z) (dst : nat) (s s' : ps2) : Prop :=
  exists h hs d,
    Data s !! dst = Some d /\
    s' = upd s (if w hs DI_PIN =? 0 then Data s else <[dst := u8 (Z.lor ref d)]> (Data s)) h /\
    bus_of h = push [l] (bus_of (hist s)) /\
    b_falls (bus_of hs) = S (b_falls (bus_of (hist s))).

Lemma clock_cycle (dst : nat) ref s d :
  ready s -> Data s !! dst = Some d ->
  exists s', read_DI w (Z.of_nat dst) ref
      (CLK_H (DELAY_TIME (CLK_L (DELAY_TIME (CLK_H s))))) = Ok s' /\
    cycle_ok (b_do (bus_of (hist s))) ref dst s s'.
Proof.
  intros [Hcs Hclk] Hd.
  unfold read_DI, CLK_H, CLK_L, DELAY_TIME, rt_pin_read. cbn [hist with_hist Data with_Data].
  set (h := rt_pin_write CLK PIN_HIGH _).
  assert (bus_of h = push [b_do (bus_of (hist s))] (bus_of (hist s))) as Hb.
  { unfold h. cbn. unfold push. rewrite Hcs, Hclk. cbn.
    destruct (bus_of (hist s)); cbn in *. by subst. }
  assert (b_falls (bus_of h) = S (b_falls (bus_of (hist s)))) as Hf by by rewrite Hb.
  apply lookup_lt_Some in Hd as Hlt.
  destruct (w h DI_PIN =? 0) eqn:Hs.
  - eexists. split; [reflexivity|]. eexists _, h, d. rewrite Hs.
    split_and!; [done|reflexivity|exact Hb|exact Hf].
  - rewrite (aget_Ok _ _ d) by (rewrite ?Nat2Z.id; done || lia). cbn.
    rewrite aset_Ok by lia. rewrite Nat2Z.id. cbn.
    eexists. split; [reflexivity|]. eexists _, h, d. rewrite Hs.
    split_and!; [done|reflexivity|exact Hb|exact Hf].
Qed.

Lemma cmd_body_cycle CMD i s d :
  0 <= i < 8 -> ready s -> Data s !! 1%nat = Some d ->
  exists s', cmd_body w CMD (2 ^ i, s) = Ok (2 ^ (i + 1), s') /\
    cycle_ok (Z.b2z (Z.testbit CMD i)) (2 ^ i) 1 s s'.
Proof.
  intros Hi Hr Hd. unfold cmd_body. rewrite land_bit by lia.
  set (s0 := if negb _ then DO_L s else DO_H s).
  assert (bus_of (hist s0) =
    mk_bus 0 1 (Z.b2z (Z.testbit CMD i)) (b_bits (bus_of (hist s)))
      (b_falls (bus_of (hist s))) (b_frames (bus_of (hist s)))) as Hb.
  { destruct Hr as [Hcs Hclk]. unfold s0.
    destruct (Z.testbit CMD i); cbn; rewrite ?Hcs, ?Hclk; done. }
  assert (upd s (Data s) (hist s0) = s0) as Hs0
    by (unfold s0; destruct (negb _), s; reflexivity).
  destruct (clock_cycle 1 (2 ^ i) s0 d) as (s' & E & h & hs & d' & Hd' & -> & Hh & Hf).
  { by rewrite <- Hs0; split; cbn; rewrite Hb. }
  { by rewrite <- Hs0. }
  change (Z.of_nat 1) with 1 in E. rewrite E. cbn [mbind result_bind].
  rewrite Z.shiftl_mul_pow2 by lia. rewrite <- Z.pow_add_r by lia.
  assert (0 < 2 ^ (i + 1) <= 2 ^ 8)
    by (split; [apply Z.pow_pos_nonneg; lia|apply Z.pow_le_mono_r; lia]).
  rewrite u16_small by lia. eexists. split; [reflexivity|].
  rewrite Hb in *. cbn in Hf, Hh. rewrite <- Hs0 in Hd'. cbn in Hd'.
  exists h, hs, d. split; [done|]. split; [|split; [exact Hh|exact Hf]].
  rewrite <- Hs0. cbn. assert (d = d') as -> by congruence. reflexivity.
Qed.

Lemma read_body_cycle (dst : nat) i s d :
  0 <= i < 8 -> ready s -> Data s !! dst = Some d ->
  exists s', read_body w (Z.of_nat dst) (2 ^ i, s) = Ok (2 ^ (i + 1), s') /\
    cycle_ok (b_do (bus_of (hist s))) (2 ^ i) dst s s'.
Proof.
  intros Hi Hr Hd. unfold read_body.
  destruct (clock_cycle dst (2 ^ i) s d Hr Hd) as (s' & -> & Hc).
  cbn [mbind result_bind]. rewrite Z.shiftl_mul_pow2 by lia.
  rewrite <- Z.pow_add_r by lia.
  assert (0 < 2 ^ (i + 1) <= 2 ^ 8)
    by (split; [apply Z.pow_pos_nonneg; lia|apply Z.pow_le_mono_r; lia]).
  rewrite u16_small by lia. eauto.
Qed.

(** ** Eight cycles: a byte *)

(** [n] cycles from bit [i] on: the levels are [lvl i], ..., and the samples
    [smps] are or-ed into [Data[dst]] at bits [i], ... *)
Definition sampled (s : ps2) (smps : list bool) : Prop :=
  forall k b, smps !! k = Some b -> exists h,
    b = negb (w h DI_PIN =? 0) /\
    b_falls (bus_of h) = S (k + b_falls (bus_of (hist s))).

Fixpoint lvls (lvl : Z -> Z -> Z) (n : nat) (i do_ : Z) : list Z :=
  match n with
  | O => []
  | S n => lvl i do_ :: lvls lvl n (i + 1) (lvl i do_)
  end.

Lemma lor_pow2 i d : 0 <= i -> 0 <= d < 2 ^ i -> Z.lor (2 ^ i) d = 2 ^ i + d.
Proof.
  intros Hi Hd.
  assert (Z.testbit d i = false) as Ht
    by (by rewrite Z.testbit_eqb, Z.div_small by lia).
  assert (Z.land (2 ^ i) d = 0) as Hl.
  { apply Z.eqb_eq. by rewrite land_bit, Ht by lia. }
  rewrite <- Z.lxor_lor by done. by rewrite <- Z.add_nocarry_lxor by done.
Qed.

Lemma bit_loop body (dst : nat) (lvl : Z -> Z -> Z) :
  (forall i s d, 0 <= i < 8 -> ready s -> Data s !! dst = Some d ->
     exists s', body (2 ^ i, s) = Ok (2 ^ (i + 1), s') /\
       cycle_ok (lvl i (b_do (bus_of (hist s)))) (2 ^ i) dst s s') ->
  forall n i s d, i + Z.of_nat n = 8 -> 0 <= i -> ready s ->
    Data s !! dst = Some d -> 0 <= d < 2 ^ i ->
    exists h smps, while_loop (S n) (fun rs => fst rs <? 256) body (2 ^ i, s) =
        Ok (256, upd s (<[dst := d + 2 ^ i * byte_lsb smps]> (Data s)) h) /\
      bus_of h = push (lvls lvl n i (b_do (bus_of (hist s)))) (bus_of (hist s)) /\
      length smps = n /\ sampled s smps.
Proof.
  intros Hbody. induction n as [|n IH]; intros i s d Hin Hi Hr Hd Hdr.
  { replace i with 8 by lia. exists (hist s), []. rewrite while_loop_done by done.
    split_and!; [|by destruct Hr; rewrite push_nil|done|done].
    cbn [byte_lsb]. rewrite Z.mul_0_r, Z.add_0_r, list_insert_id by done. by destruct s. }
  assert (2 ^ i < 256) by (change 256 with (2 ^ 8); apply Z.pow_lt_mono_r; lia).
  destruct (Hbody i s d) as (s1 & E1 & h1 & hs & d0 & Hd0 & Hs1 & Hb1 & Hf1); [lia|done..|].
  assert (d0 = d) as -> by congruence.
  rewrite (while_loop_step _ _ _ _ (2 ^ (i + 1), s1)); [|cbn; lia|done].
  set (v := negb (w hs DI_PIN =? 0)).
  set (d1 := d + 2 ^ i * Z.b2z v).
  assert (2 ^ (i + 1) = 2 * 2 ^ i) as Hpow by (rewrite Z.pow_add_r by lia; lia).
  assert (2 ^ (i + 1) <= 2 ^ 8) by (apply Z.pow_le_mono_r; lia).
  assert (Data s1 = <[dst := d1]> (Data s)) as HD1.
  { subst s1. unfold d1, v. cbn. destruct (w hs DI_PIN =? 0); cbn.
    - rewrite Z.mul_0_r, Z.add_0_r. by rewrite list_insert_id.
    - rewrite Z.mul_1_r, lor_pow2, u8_small by lia. f_equal. lia. }
  apply lookup_lt_Some in Hd as Hlt.
  destruct (IH (i + 1) s1 d1) as (h & smps & E & Hb & Hl & Hsm).
  { lia. } { lia. }
  { subst s1. split; cbn; rewrite Hb1; done. }
  { rewrite HD1. apply list_lookup_insert_eq. lia. }
  { unfold d1. destruct v; cbn [Z.b2z]; lia. }
  assert (hist s1 = h1) as Hh1 by (by subst s1).
  exists h, (v :: smps). rewrite E, HD1, list_insert_insert_eq. split_and!.
  - replace (d1 + 2 ^ (i + 1) * byte_lsb smps) with (d + 2 ^ i * byte_lsb (v :: smps))
      by (cbn [byte_lsb]; unfold d1; rewrite Hpow; ring).
    by subst s1.
  - rewrite Hb, Hh1, Hb1, push_push. cbn [app lvls]. f_equal.
  - cbn. lia.
  - intros [|k] b Hk; cbn in Hk.
    + exists hs. simplify_eq. split; [done|]. rewrite Hf1. lia.
    + destruct (Hsm k b Hk) as (h' & Hb' & Hf'). exists h'. split; [done|].
      rewrite Hf', Hh1, Hb1. cbn. lia.
Qed.
Lemma PS2_Cmd_spec CMD s :
  ready s -> length (Data s) = 9%nat ->
  exists h smps, PS2_Cmd w CMD s = Ok (upd s (<[1%nat := byte_lsb smps]> (Data s)) h) /\
    bus_of h = push (levels CMD) (bus_of (hist s)) /\ length smps = 8%nat /\
    sampled s smps.
Proof.
  intros Hr Hl. unfold PS2_Cmd. rewrite aset_Ok by lia. cbn [mbind result_bind].
  set (s1 := with_Data _ s).
  destruct (bit_loop (cmd_body w CMD) 1 (fun i _ => Z.b2z (Z.testbit CMD i))) with
    (n := 8%nat) (i := 0) (s := s1) (d := 0) as (h & smps & E & Hb & Hs & Hsm).
  { intros. by apply (cmd_body_cycle _ _ _ d). }
  { done. } { done. } { done. }
  { apply list_lookup_insert_eq. rewrite Hl. lia. }
  { done. }
  change (2 ^ 0) with 1 in E. rewrite E. cbn [mbind result_bind].
  exists (rt_hw_us_delay 16 h), smps. split_and!; [|exact Hb|done|exact Hsm].
  unfold us_delay, with_hist, upd, with_Data. cbn -[byte_lsb].
  by rewrite list_insert_insert_eq, Z.mul_1_l.
Qed.

Lemma read_byte_body_spec (byte : nat) s :
  (byte < 9)%nat -> ready s -> Data s !! byte = Some 0 ->
  exists h smps, read_byte_body w (Z.of_nat byte, s) =
      Ok (Z.of_nat byte + 1, upd s (<[byte := byte_lsb smps]> (Data s)) h) /\
    bus_of h = push (replicate 8 (b_do (bus_of (hist s)))) (bus_of (hist s)) /\
    length smps = 8%nat /\ sampled s smps.
Proof.
  intros Hb9 Hr Hd. unfold read_byte_body.
  destruct (bit_loop (read_body w (Z.of_nat byte)) byte (fun _ do_ => do_)) with
    (n := 8%nat) (i := 0) (s := s) (d := 0) as (h & smps & E & Hb & Hs & Hsm);
    [|done..|].
  { intros. by apply (read_body_cycle _ _ _ d). }
  change (2 ^ 0) with 1 in E. rewrite E. cbn [mbind result_bind]. rewrite u8_small by lia.
  exists (rt_hw_us_delay 16 h), smps. split_and!; [|exact Hb|done|exact Hsm].
  by rewrite Z.mul_1_l, Z.add_0_l.
Qed.

(** ** Frames: a sequence of command bytes *)

(** [s'] differs from [s] in [Data] and the history at most. *)
Definition keeps (s s' : ps2) : Prop := exists h, s' = upd s (Data s') h.

Lemma PS2_Cmds_spec cmds s :
  ready s -> length (Data s) = 9%nat ->
  exists s', PS2_Cmds w cmds s = Ok s' /\ keeps s s' /\ length (Data s') = 9%nat /\
    ready s' /\
    bus_of (hist s') = push (concat (levels <$> cmds)) (bus_of (hist s)).
Proof.
  revert s. induction cmds as [|c cmds IH]; intros s Hr Hl.
  { exists s. split_and!; [done|exists (hist s); by destruct s|done|done|].
    by destruct Hr; rewrite push_nil. }
  destruct (PS2_Cmd_spec c s Hr Hl) as (h & smps & E & Hb & Hs & _).
  destruct (IH (upd s (<[1%nat := byte_lsb smps]> (Data s)) h))
    as (s' & E' & [h' Hk] & Hl' & Hr' & Hb').
  { split; cbn; rewrite Hb; done. }
  { cbn. by rewrite length_insert. }
  exists s'. cbn [PS2_Cmds]. rewrite E. cbn [mbind result_bind]. rewrite E'.
  split_and!; [done|exists h'; by rewrite Hk|done|done|].
  rewrite Hb'. cbn [hist upd with_hist]. rewrite Hb, push_push. done.
Qed.

(** A state between frames: CS and CLK are high. *)
Definition idle (s : ps2) : Prop :=
  b_cs (bus_of (hist s)) = 1 /\ b_clk (bus_of (hist s)) = 1 /\ length (Data s) = 9%nat.

(** The bus after one more complete frame of the given bytes. *)
Definition frame_of (cmds : list Z) : list Z := concat (levels <$> cmds).
Definition sends (cmds : list (list Z)) (s s' : ps2) : Prop :=
  idle s' /\ keeps s s' /\
  b_frames (bus_of (hist s')) = b_frames (bus_of (hist s)) ++ (frame_of <$> cmds).

Lemma sends_trans c1 c2 s1 s2 s3 :
  sends c1 s1 s2 -> sends c2 s2 s3 -> sends (c1 ++ c2) s1 s3.
Proof.
  intros (Hi & [h1 K1] & F1) (Hi2 & [h2 K2] & F2). split_and!; [done| |].
  - exists h2. rewrite K2, K1. done.
  - by rewrite F2, F1, fmap_app, app_assoc.
Qed.

(** A frame: CS falls, the bytes go out, CS rises; any delays [pre], [post]
    may be inserted. *)
Lemma frame_sends cmds s s0 :
  idle s -> keeps s s0 -> Data s0 = Data s ->
  bus_of (hist s0) = bus_of (PinWrite CS 0 :: hist s) ->
  exists s', PS2_Cmds w cmds s0 = Ok s' /\ sends [cmds] s (us_delay 16 (CS_H s')).
Proof.
  intros (Hcs & Hclk & Hl) [h0 K] HD Hb.
  assert (bus_of (hist s0) =
    mk_bus 0 1 (b_do (bus_of (hist s))) [] 0 (b_frames (bus_of (hist s)))) as Hb0.
  { rewrite Hb. cbn. by rewrite Hcs, Hclk. }
  destruct (PS2_Cmds_spec cmds s0) as (s' & E & [h' K'] & Hl' & Hr' & Hb').
  { split; by rewrite Hb0. } { by rewrite HD. }
  exists s'. split; [done|]. destruct Hr' as [Hcs' Hclk']. split_and!.
  - split_and!; cbn; rewrite ?Hcs', ?Hclk'; done.
  - exists (hist (us_delay 16 (CS_H s'))). rewrite K', K. done.
  - cbn. rewrite Hcs'. cbn. rewrite Hb', Hb0. done.
Qed.
End cycles.

(** A frame function with a delay after CS falls, and one without. *)
Ltac frame_tac w cmds s Hi :=
  let s' := fresh "s'" in let E := fresh "E" in let Hs := fresh "Hs" in
  first
    [ destruct (frame_sends w cmds s (us_delay 16 (CS_L s)) Hi)
        as (s' & E & Hs); [by eexists|done|reflexivity|]
    | destruct (frame_sends w cmds s (CS_L s) Hi)
        as (s' & E & Hs); [by eexists|done|reflexivity|] ];
  eexists; split; [rewrite E; reflexivity|exact Hs].

Section frames.
Context (w : world) (s : ps2).
Hypothesis Hidle : idle s.

Lemma PS2_ShortPoll_sends : exists s', PS2_ShortPoll w s = Ok s' /\
  sends [[0x01; 0x42; 0; 0; 0]] s s'.
Proof. unfold PS2_ShortPoll. frame_tac w [0x01; 0x42; 0; 0; 0] s Hidle. Qed.
Lemma PS2_EnterConfing_sends : exists s', PS2_EnterConfing w s = Ok s' /\
  sends [[0x01; 0x43; 0; 1; 0; 0; 0; 0; 0]] s s'.
Proof. unfold PS2_EnterConfing. frame_tac w [0x01; 0x43; 0; 1; 0; 0; 0; 0; 0] s Hidle. Qed.
Lemma PS2_TurnOnAnalogMode_sends : exists s', PS2_TurnOnAnalogMode w s = Ok s' /\
  sends [[0x01; 0x44; 0; 1; 3; 0; 0; 0; 0]] s s'.
Proof.
  unfold PS2_TurnOnAnalogMode.
  destruct (frame_sends w [0x01; 0x44; 0; 1; 3; 0; 0; 0; 0] s (CS_L s) Hidle)
    as (s' & E & Hs); [by eexists|done|reflexivity|].
  eexists. split; [rewrite E; reflexivity|exact Hs].
Qed.
Lemma PS2_VibrationMode_sends : exists s', PS2_VibrationMode w s = Ok s' /\
  sends [[0x01; 0x4D; 0; 0; 1]] s s'.
Proof. unfold PS2_VibrationMode. frame_tac w [0x01; 0x4D; 0; 0; 1] s Hidle. Qed.
Lemma PS2_ExitConfing_sends : exists s', PS2_ExitConfing w s = Ok s' /\
  sends [[0x01; 0x43; 0; 0; 0x5A; 0x5A; 0x5A; 0x5A; 0x5A]] s s'.
Proof.
  unfold PS2_ExitConfing.
  frame_tac w [0x01; 0x43; 0; 0; 0x5A; 0x5A; 0x5A; 0x5A; 0x5A] s Hidle.
Qed.
Lemma PS2_Vibration_sends m1 m2 : exists s', PS2_Vibration w m1 m2 s = Ok s' /\
  sends [[0x01; 0x42; 0; m1; m2; 0; 0; 0; 0]] s s'.
Proof. unfold PS2_Vibration. frame_tac w [0x01; 0x42; 0; m1; m2; 0; 0; 0; 0] s Hidle. Qed.
End frames.

(** Runs the next call of a sequence of frame functions. *)
Ltac next_frame L :=
  match goal with
  | Hs : sends _ _ ?s |- context [mbind _ _] =>
      let s' := fresh "s" in let E := fresh "E" in let H := fresh "H" in
      destruct (L s (proj1 Hs)) as (s' & E & H); rewrite E; cbn [mbind result_bind];
      let T := fresh "T" in pose proof (sends_trans _ _ _ _ _ Hs H) as T; clear Hs H E
  end.

(** What every configuration command of the driver puts on the wires, for
    any pad: [PS2_SetInit] sends seven frames, each with CS low exactly around
    the whole command bytes, which are those of the PS2 protocol: three short
    polls, enter config, analog mode locked, vibration mapping, exit config.
    The code returns, accesses [Data] inside its bounds and leaves the bus
    idle. *)
Lemma PS2_SetInit_frames (w : world) (s : ps2) :
  idle s ->
  exists s', PS2_SetInit w s = Ok s' /\
    sends [[0x01; 0x42; 0; 0; 0]; [0x01; 0x42; 0; 0; 0]; [0x01; 0x42; 0; 0; 0];
           [0x01; 0x43; 0; 1; 0; 0; 0; 0; 0]; [0x01; 0x44; 0; 1; 3; 0; 0; 0; 0];
           [0x01; 0x4D; 0; 0; 1]; [0x01; 0x43; 0; 0; 0x5A; 0x5A; 0x5A; 0x5A; 0x5A]] s s'.
Proof.
  intros Hi. unfold PS2_SetInit.
  destruct (PS2_ShortPoll_sends w s Hi) as (s1 & E1 & H1). rewrite E1.
  cbn [mbind result_bind].
  do 2 next_frame (PS2_ShortPoll_sends w).
  next_frame (PS2_EnterConfing_sends w).
  next_frame (PS2_TurnOnAnalogMode_sends w).
  next_frame (PS2_VibrationMode_sends w).
  match goal with Hs : sends _ _ ?s' |- _ =>
    destruct (PS2_ExitConfing_sends w s' (proj1 Hs)) as (s7 & E7 & H7);
    exists s7; split; [exact E7|exact (sends_trans _ _ _ _ _ Hs H7)]
  end.
Qed.

(** The state the firmware starts the driver in, after [PS2_Init]. *)
Definition ps2_start : ps2 :=
  PS2_Init (mk_ps2 (replicate 9 0) 0 0 0 0 0 0 0 []).

Lemma PS2_SetInit_frames_witness :
  exists s', PS2_SetInit (pad [0xFF; 0x73]) ps2_start = Ok s' /\
    sends [[0x01; 0x42; 0; 0; 0]; [0x01; 0x42; 0; 0; 0]; [0x01; 0x42; 0; 0; 0];
           [0x01; 0x43; 0; 1; 0; 0; 0; 0; 0]; [0x01; 0x44; 0; 1; 3; 0; 0; 0; 0];
           [0x01; 0x4D; 0; 0; 1]; [0x01; 0x43; 0; 0; 0x5A; 0x5A; 0x5A; 0x5A; 0x5A]]
      ps2_start s'.
Proof. apply (PS2_SetInit_frames (pad [0xFF; 0x73]) ps2_start). repeat split. Defined.

(** ** Reading a pad *)

Section pad.
Context (resp : list Z).
Hypothesis Hresp : Forall (fun b => 0 <= b < 256) resp.

(** The [j]-th byte of the answer; past its end the line is pulled up. *)
Definition resp_byte (j : nat) : Z := default 255 (resp !! j).

Lemma pad_bit_byte (j k : nat) :
  (k < 8)%nat -> Some (pad_bit resp (8 * j + k)) = bits_lsb (resp_byte j) !! k.
Proof.
  intros Hk. unfold pad_bit, resp_byte. revert j. clear Hresp.
  induction resp as [|r l IH]; intros j.
  { cbn [fmap list_fmap concat]. do 8 (destruct k as [|k]; [done|]). lia. }
  change (bits_lsb <$> r :: l) with (bits_lsb r :: (bits_lsb <$> l)).
  cbn [concat]. destruct j as [|j].
  - rewrite lookup_app_l by (cbn; lia). cbn [lookup list_lookup default].
    do 8 (destruct k as [|k]; [done|]). lia.
  - rewrite lookup_app_r by (cbn; lia). change ((r :: l) !! S j) with (l !! j).
    rewrite <- IH. do 3 f_equal. cbn [length bits_lsb fmap list_fmap seq]. lia.
Qed.

Lemma sampled_pad s smps (j : nat) :
  length smps = 8%nat -> sampled (pad resp) s smps ->
  b_falls (bus_of (hist s)) = (8 * j)%nat -> byte_lsb smps = resp_byte j.
Proof.
  intros Hl Hs Hf.
  assert (smps = bits_lsb (resp_byte j)) as ->.
  { apply list_eq_same_length with (n := 8%nat); [done|done|].
    intros k x y Hk Hx Hy. destruct (Hs k x Hx) as (h & -> & Hfh).
    rewrite <- pad_bit_byte in Hy by done.
    assert (y = pad_bit resp (8 * j + k)) as -> by congruence.
    unfold pad. rewrite Z.eqb_refl, Hfh, Hf.
    replace (S (k + 8 * j) - 1)%nat with (8 * j + k)%nat by lia.
    by destruct (pad_bit resp (8 * j + k)). }
  apply byte_bits_lsb. unfold resp_byte. destruct (resp !! j) eqn:E; cbn; [|lia].
  rewrite Forall_forall in Hresp. apply Hresp. by apply list_elem_of_lookup_2 in E.
Qed.

Lemma last_replicate_level {A} n (x : A) : List.last (replicate n x) x = x.
Proof. induction n as [|[|n] IH]; done. Qed.

Lemma read_loop (n byte : nat) s :
  (byte + n = 9)%nat -> ready s -> length (Data s) = 9%nat ->
  b_falls (bus_of (hist s)) = (8 * byte)%nat ->
  (forall j, (byte <= j < 9)%nat -> Data s !! j = Some 0) ->
  exists h, while_loop (S n) (fun bs => fst bs <? 9) (read_byte_body (pad resp))
      (Z.of_nat byte, s) =
      Ok (9, upd s (take byte (Data s) ++ (resp_byte <$> seq byte n)) h) /\
    bus_of h = push (replicate (8 * n) (b_do (bus_of (hist s)))) (bus_of (hist s)).
Proof.
  revert byte s. induction n as [|n IH]; intros byte s Hbn Hr Hl Hf Hz.
  { exists (hist s). rewrite while_loop_done by (cbn; lia).
    destruct Hr. rewrite push_nil by done. split; [|done].
    rewrite app_nil_r, take_ge by lia. replace byte with 9%nat by lia. by destruct s. }
  destruct (read_byte_body_spec (pad resp) byte s) as (h & smps & E & Hb & Hs & Hsm);
    [lia|done|apply Hz; lia|].
  rewrite (sampled_pad s smps byte) in E by done.
  rewrite (while_loop_step _ _ _ _ (Z.of_nat byte + 1,
    upd s (<[byte := resp_byte byte]> (Data s)) h)); [|cbn; lia|done].
  replace (Z.of_nat byte + 1) with (Z.of_nat (S byte)) by lia.
  destruct (IH (S byte) (upd s (<[byte := resp_byte byte]> (Data s)) h))
    as (h' & E' & Hb'); [lia|split; cbn; by rewrite Hb|cbn; by rewrite length_insert| | |].
  { cbn [hist upd with_hist]. rewrite Hb. cbn. lia. }
  { intros j Hj. cbn. rewrite list_lookup_insert_ne by lia. apply Hz. lia. }
  exists h'. rewrite E'. split.
  - do 2 f_equal. unfold upd, with_hist, with_Data. cbn. f_equal.
    rewrite (take_S_r _ _ (resp_byte byte)) by (apply list_lookup_insert_eq; lia).
    rewrite take_insert_ge by lia. by rewrite <- app_assoc.
  - rewrite Hb'. cbn [hist upd with_hist]. rewrite Hb, push_push.
    cbn [b_do push]. rewrite last_replicate_level.
    f_equal. rewrite <- replicate_add. f_equal. lia.
Qed.

Lemma PS2_ClearData_spec s :
  length (Data s) = 9%nat -> PS2_ClearData s = Ok (with_Data (replicate 9 0) s).
Proof.
  destruct s as [D hk lx ly rx ry k bp h]. cbn [Data]. intros Hl.
  do 9 (destruct D as [|? D]; [done|]). destruct D; [reflexivity|done].
Qed.

(** One poll of the pad, from an idle bus and a cleared buffer. *)
Lemma PS2_ReadData_pad s :
  idle s -> Data s = replicate 9 0 ->
  exists s', PS2_ReadData (pad resp) s = Ok s' /\
    sends [[0x01; 0x42; 0; 0; 0; 0; 0; 0; 0]] s s' /\
    Data s' = 0 :: (resp_byte <$> seq 1 8).
Proof.
  intros (Hcs & Hclk & Hl) HD. unfold PS2_ReadData.
  assert (bus_of (hist (CS_L s)) =
    mk_bus 0 1 (b_do (bus_of (hist s))) [] 0 (b_frames (bus_of (hist s)))) as Hb0.
  { cbn. by rewrite Hcs, Hclk. }
  set (s0 := CS_L s) in *.
  assert (Data s0 = replicate 9 0) as HD0 by done.
  destruct (PS2_Cmd_spec (pad resp) Comd0 s0) as (h1 & m1 & E1 & Hb1 & L1 & S1).
  { split; by rewrite Hb0. } { by rewrite HD0. }
  rewrite E1. cbn [mbind result_bind].
  rewrite (sampled_pad s0 m1 0) in * by (done || by rewrite Hb0).
  set (s1 := upd s0 _ h1).
  destruct (PS2_Cmd_spec (pad resp) Comd1 s1) as (h2 & m2 & E2 & Hb2 & L2 & S2).
  { split; cbn; by rewrite Hb1, Hb0. } { cbn. by rewrite length_insert, HD. }
  rewrite E2. cbn [mbind result_bind].
  rewrite (sampled_pad s1 m2 1) in * by (done || cbn; by rewrite Hb1, Hb0).
  change (hist s1) with h1 in Hb2. rewrite Hb1, push_push, Hb0 in Hb2.
  set (s2 := upd s1 _ h2).
  assert (Data s2 = 0 :: resp_byte 1 :: replicate 7 0) as HD2
    by (cbn; by rewrite list_insert_insert_eq, HD).
  destruct (read_loop 7 2 s2) as (h3 & E3 & Hb3); try done.
  { split; cbn; by rewrite Hb2. } { by rewrite HD2. } { cbn. by rewrite Hb2. }
  { intros j Hj. rewrite HD2. do 9 (destruct j as [|j]; [done || lia|]). lia. }
  change (Z.of_nat 2) with 2 in E3. rewrite E3. cbn [mbind result_bind].
  change (hist s2) with h2 in Hb3. rewrite Hb2, push_push in Hb3.
  rewrite HD2 in *. cbn [take app] in *.
  eexists. split; [reflexivity|]. split; [|reflexivity].
  split_and!.
  - split_and!; cbn; rewrite ?Hb3; done.
  - eexists. reflexivity.
  - cbn. rewrite Hb3. done.
Qed.
End pad.

(** ** The key code *)

Lemma find_key_S fuel handkey index :
  find_key (S fuel) handkey index =
    if index <? 16 then
      m ← aget MASK index;
      if Z.land handkey (Z.shiftl 1 (m - 1)) =? 0 then Ok (u8 (index + 1))
      else find_key fuel handkey (u8 (index + 1))
    else Ok 0.
Proof. reflexivity. Qed.

Lemma find_key_spec (n : nat) (handkey index : Z) :
  0 <= index -> index + Z.of_nat n = 16 ->
  exists k, find_key (S n) handkey index = Ok k /\
    (k = 0 /\ (forall j, index <= j < 16 -> Z.testbit handkey j = true) \/
     index < k <= 16 /\ Z.testbit handkey (k - 1) = false /\
     forall j, index <= j < k - 1 -> Z.testbit handkey j = true).
Proof.
  revert index. induction n as [|n IH]; intros index Hi Hn; rewrite find_key_S.
  { replace (index <? 16) with false by lia. exists 0. split; [done|]. left.
    split; [done|]. intros. lia. }
  replace (index <? 16) with true by lia.
  rewrite (aget_Ok _ _ (index + 1)).
  2: lia.
  2:{ assert (index = 0 \/ index = 1 \/ index = 2 \/ index = 3 \/ index = 4 \/ index = 5 \/
        index = 6 \/ index = 7 \/ index = 8 \/ index = 9 \/ index = 10 \/ index = 11 \/
        index = 12 \/ index = 13 \/ index = 14 \/ index = 15) as Hc by lia.
      repeat destruct Hc as [->|Hc]; try done. by subst. }
  cbn [mbind result_bind].
  rewrite Z.land_comm, Z.shiftl_mul_pow2, Z.mul_1_l by lia.
  replace (index + 1 - 1) with index by lia. rewrite land_bit by lia.
  rewrite u8_small by lia.
  destruct (Z.testbit handkey index) eqn:Ht; cbn [negb].
  - destruct (IH (index + 1)) as (k & E & Hk); [lia|lia|]. exists k. split; [exact E|].
    destruct Hk as [[-> Ha]|(Hr & Hf & Ha)]; [left|right].
    + split; [done|]. intros j Hj. destruct (decide (j = index)) as [->|]; [done|].
      apply Ha. lia.
    + split; [lia|]. split; [done|].
      intros j Hj. destruct (decide (j = index)) as [->|]; [done|]. apply Ha. lia.
  - exists (index + 1). split; [done|]. right. split; [lia|].
    replace (index + 1 - 1) with index by lia. split; [done|]. intros. lia.
Qed.

(** The 16 key levels of an answer (0: pressed). *)
Definition keys (resp : list Z) : Z := 256 * resp_byte resp 4 + resp_byte resp 3.

Lemma lor_bytes a b : 0 <= a < 256 -> 0 <= b < 256 -> Z.lor (Z.shiftl a 8) b = 256 * a + b.
Proof.
  intros Ha Hb. rewrite <- Z.lxor_lor, <- Z.add_nocarry_lxor.
  - rewrite Z.shiftl_mul_pow2 by lia. lia.
  - apply Z.bits_inj'. intros n Hn. rewrite Z.land_spec, Z.bits_0.
    destruct (decide (n < 8)).
    + by rewrite Z.shiftl_spec_low.
    + rewrite (Z.testbit_eqb b), Z.div_small, andb_false_r; try done; try lia.
      split; [lia|]. apply Z.lt_le_trans with (2 ^ 8); [lia|].
      apply Z.pow_le_mono_r; lia.
  - apply Z.bits_inj'. intros n Hn. rewrite Z.land_spec, Z.bits_0.
    destruct (decide (n < 8)).
    + by rewrite Z.shiftl_spec_low.
    + rewrite (Z.testbit_eqb b), Z.div_small, andb_false_r; try done; try lia.
      split; [lia|]. apply Z.lt_le_trans with (2 ^ 8); [lia|].
      apply Z.pow_le_mono_r; lia.
Qed.

(** C2: a poll of the pad is the round trip of the pad's shift register.  For
    every answer [resp] of a pad (also none at all: an unplugged pad reads as
    ones), [PS2_DataKey] sends one frame, leaves the bus idle, and [Data]
    then holds exactly the bytes the pad shifted out; the key code returned
    is the number of the first pressed key of bytes 3 and 4, 0 when none. *)
Theorem PS2_DataKey_roundtrip (resp : list Z) (s : ps2) :
  Forall (fun b => 0 <= b < 256) resp -> idle s ->
  exists k s', PS2_DataKey (pad resp) s = Ok (k, s') /\
    Data s' = 0 :: (resp_byte resp <$> seq 1 8) /\ Handkey s' = keys resp /\
    b_frames (bus_of (hist s')) = b_frames (bus_of (hist s)) ++
      [frame_of [0x01; 0x42; 0; 0; 0; 0; 0; 0; 0]] /\
    idle s' /\
    (k = 0 /\ (forall j, 0 <= j < 16 -> Z.testbit (keys resp) j = true) \/
     1 <= k <= 16 /\ Z.testbit (keys resp) (k - 1) = false /\
     forall j, 0 <= j < k - 1 -> Z.testbit (keys resp) j = true).
Proof.
  intros Hresp Hi. unfold PS2_DataKey. rewrite PS2_ClearData_spec by apply Hi.
  cbn [mbind result_bind].
  destruct (PS2_ReadData_pad resp Hresp (with_Data (replicate 9 0) s))
    as (s' & E & (Hi' & Hk & Hf) & HD).
  { destruct Hi as (? & ? & ?). split_and!; done. } { done. }
  rewrite E. cbn [mbind result_bind].
  rewrite (aget_Ok _ 4 (resp_byte resp 4)) by (by rewrite ?HD). cbn [mbind result_bind].
  rewrite (aget_Ok _ 3 (resp_byte resp 3)) by (by rewrite ?HD). cbn [mbind result_bind].
  assert (forall j, 0 <= resp_byte resp j < 256) as Hr.
  { intros j. unfold resp_byte. destruct (resp !! j) eqn:El; cbn; [|lia].
    rewrite Forall_forall in Hresp. apply Hresp. by apply list_elem_of_lookup_2 in El. }
  pose proof (Hr 4%nat). pose proof (Hr 3%nat).
  rewrite lor_bytes, u16_small by lia. fold (keys resp).
  destruct (find_key_spec 16 (keys resp) 0) as (k & Ek & Hkk); [lia|lia|].
  cbn [Handkey with_Handkey]. rewrite Ek. cbn [mbind result_bind].
  exists k. eexists. split; [reflexivity|]. split_and!; try done; [apply Hi'..|].
  destruct Hkk as [?|(? & ? & ?)]; [by left|right]. split_and!; done || lia.
Qed.

Lemma PS2_DataKey_roundtrip_witness :
  exists k s', PS2_DataKey (pad [0xFF; 0x73; 0x5A; 0xFF; 0xEF; 1; 2; 3; 200]) ps2_start
      = Ok (k, s') /\
    Data s' = 0 :: (resp_byte [0xFF; 0x73; 0x5A; 0xFF; 0xEF; 1; 2; 3; 200] <$> seq 1 8) /\
    Handkey s' = 0xEFFF /\
    b_frames (bus_of (hist s')) = b_frames (bus_of (hist ps2_start)) ++
      [frame_of [0x01; 0x42; 0; 0; 0; 0; 0; 0; 0]] /\
    idle s' /\
    (k = 0 /\ (forall j, 0 <= j < 16 -> Z.testbit 0xEFFF j = true) \/
     1 <= k <= 16 /\ Z.testbit 0xEFFF (k - 1) = false /\
     forall j, 0 <= j < k - 1 -> Z.testbit 0xEFFF j = true).
Proof.
  apply (PS2_DataKey_roundtrip [0xFF; 0x73; 0x5A; 0xFF; 0xEF; 1; 2; 3; 200] ps2_start).
  - repeat (constructor; [lia|]). constructor.
  - repeat split.
Defined.

End Ps2.
