(* ===== verification/Float32.v ===== *)
(** * Single-precision arithmetic of the C compiler's [float]

    The operations are those of Stdlib's [SpecFloat] at precision 24 and
    maximal exponent 128 (IEEE binary32, round to nearest even), which the
    Cortex-M4F unit implements.  [val] is the value of a finite number in
    units of 2^-149; the lemmas bound the rounding error of one operation and
    show that operations on integers below 2^24 are exact. *)

From Stdlib Require Import SpecFloat.
From S2P Require Import Prelude.

Definition prec : Z := 24.
Definition emax : Z := 128.

Definition f32 : Type := spec_float.
Definition f32_add : f32 -> f32 -> f32 := SFadd prec emax.
Definition f32_sub : f32 -> f32 -> f32 := SFsub prec emax.
Definition f32_mul : f32 -> f32 -> f32 := SFmul prec emax.
Definition f32_opp : f32 -> f32 := SFopp.
Definition f32_lt (x y : f32) : bool := SFltb x y.
(** [(float)z] *)
Definition f32_of_int (z : Z) : f32 := binary_normalize prec emax z 0 false.
(** A [double] constant [num/den] assigned to a [float] variable. *)
Definition f32_of_quotient (num den : Z) : f32 :=
  match SFdiv 53 1024 (binary_normalize 53 1024 num 0 false)
                      (binary_normalize 53 1024 den 0 false) with
  | S754_finite s m e => binary_normalize prec emax (cond_Zopp s (Zpos m)) e s
  | x => x
  end.
(** [(rt_int32_t)x]: truncation; out of range it is undefined in C. *)
Definition f32_to_int (x : f32) : result Z :=
  match x with
  | S754_zero _ => Ok 0
  | S754_finite s m e =>
      let a := if 0 <=? e then Zpos m * 2 ^ e else Zpos m / 2 ^ (- e) in
      let z := cond_Zopp s a in
      if (-2147483648 <=? z) && (z <=? 2147483647) then Ok z else Fault Overflow
  | _ => Fault Overflow
  end.

(** ** Values *)

(** Finite, with value [v * 2^-149]. *)
Definition val (x : f32) : option Z :=
  match x with
  | S754_zero _ => Some 0
  | S754_finite s m e =>
      if -149 <=? e then Some (cond_Zopp s (Zpos m) * 2 ^ (e + 149)) else None
  | _ => None
  end.

Definition canon (x : f32) : Prop :=
  match x with
  | S754_finite _ m e => Z.max (Zpos (digits2_pos m) + e - 24) (-149) = e
  | S754_zero _ => True
  | _ => False
  end.

Lemma digits2_bounds (p : positive) :
  2 ^ (Zpos (digits2_pos p) - 1) <= Zpos p < 2 ^ Zpos (digits2_pos p).
Proof.
  induction p as [p IH|p IH|]; cbn [digits2_pos]; [| |cbn; lia].
  all: rewrite Pos2Z.inj_succ; replace (Z.succ _ - 1) with (Zpos (digits2_pos p)) by lia;
    rewrite Z.pow_succ_r by lia;
    replace (Zpos (digits2_pos p)) with (Z.succ (Zpos (digits2_pos p) - 1)) at 1 by lia;
    rewrite Z.pow_succ_r by lia; lia.
Qed.

(** The number of digits is determined by the bounds. *)
Lemma digits2_unique (p : positive) (d : Z) :
  1 <= d -> 2 ^ (d - 1) <= Zpos p < 2 ^ d -> Zpos (digits2_pos p) = d.
Proof.
  intros Hd [H1 H2]. destruct (digits2_bounds p) as [H3 H4].
  assert (d - 1 < Zpos (digits2_pos p)) by (apply (Z.pow_lt_mono_r_iff 2); lia).
  assert (Zpos (digits2_pos p) - 1 < d) by (apply (Z.pow_lt_mono_r_iff 2); lia).
  lia.
Qed.

Lemma iter_pos_iter {A} (f : A -> A) (p : positive) (x : A) :
  SpecFloat.iter_pos f p x = Pos.iter f x p.
Proof.
  revert x. induction p as [p IH|p IH|]; intros x; cbn; [| |done].
  - rewrite !IH. rewrite <- !Pos.iter_swap. by rewrite !Pos.iter_swap.
  - by rewrite !IH.
Qed.

Lemma shr_1_m mrs : 0 <= shr_m mrs -> shr_m (shr_1 mrs) = shr_m mrs / 2.
Proof.
  destruct mrs as [m r s]. cbn. intros Hm.
  destruct m as [|[p|p|]|p]; cbn; try done; try lia.
  - apply Z.div_unique with 1; lia.
  - apply Z.div_unique with 0; lia.
Qed.

Lemma shr_1_exact m :
  Z.even m = true -> 0 <= m ->
  shr_1 (Build_shr_record m false false) = Build_shr_record (m / 2) false false.
Proof.
  intros He Hm. destruct m as [|[p|p|]|p]; cbn in *; try done; try lia.
  f_equal. apply Z.div_unique with 0; lia.
Qed.

Lemma shr_steps (n : nat) mrs :
  0 <= shr_m mrs ->
  shr_m (Nat.iter n shr_1 mrs) = shr_m mrs / 2 ^ Z.of_nat n.
Proof.
  intros Hm. induction n as [|n IH]; [by rewrite Z.div_1_r|].
  change (Nat.iter (S n) shr_1 mrs) with (shr_1 (Nat.iter n shr_1 mrs)).
  rewrite shr_1_m, IH.
  - rewrite Z.div_div, Nat2Z.inj_succ, Z.pow_succ_r by lia. f_equal. lia.
  - rewrite IH. apply Z.div_pos; lia.
Qed.

Lemma shr_steps_exact (n : nat) k :
  0 <= k ->
  Nat.iter n shr_1 (Build_shr_record (k * 2 ^ Z.of_nat n) false false)
  = Build_shr_record k false false.
Proof.
  revert k. induction n as [|n IH]; intros k Hk.
  { cbn. by rewrite Z.mul_1_r. }
  rewrite Nat.iter_succ_r. rewrite shr_1_exact.
  - rewrite Nat2Z.inj_succ, Z.pow_succ_r by lia.
    replace (k * (2 * 2 ^ Z.of_nat n)) with ((k * 2 ^ Z.of_nat n) * 2) by lia.
    rewrite Z.div_mul by lia. by apply IH.
  - rewrite Nat2Z.inj_succ, Z.pow_succ_r by lia.
    replace (k * (2 * 2 ^ Z.of_nat n)) with (2 * (k * 2 ^ Z.of_nat n)) by lia.
    by rewrite Z.even_mul.
  - apply Z.mul_nonneg_nonneg; lia.
Qed.

(** [shr] by a positive amount. *)
Lemma shr_iter mrs e n :
  0 < n -> shr mrs e n = (Nat.iter (Z.to_nat n) shr_1 mrs, e + n).
Proof.
  intros Hn. destruct n as [|p|p]; try lia. cbn [shr].
  rewrite iter_pos_iter, Pos2Nat.inj_iter. by rewrite Z2Nat.inj_pos.
Qed.
Lemma shr_none mrs e n : n <= 0 -> shr mrs e n = (mrs, e).
Proof. intros Hn. destruct n; try lia; done. Qed.

(** The rounding of a shifted mantissa is one of its neighbours. *)
Lemma round_nearest_even_near m l :
  round_nearest_even m l = m \/ round_nearest_even m l = m + 1.
Proof. destruct l as [|[]]; cbn; try (destruct (Z.even m)); auto. Qed.

(** [X] is an integer of at most 24 digits times a power of two. *)
Definition short (X : Z) : Prop := exists k t, 0 <= t /\ 0 <= k < 2 ^ 24 /\ X = k * 2 ^ t.

(** The result of rounding [X > 0]: close to [X], and exact when [X] is short. *)
Definition rounds (X r : Z) : Prop := Z.abs (r - X) * 2 ^ 23 <= X /\ (short X -> r = X).

Lemma rounds_refl X : 0 <= X -> rounds X X.
Proof. intros. split; [lia|done]. Qed.

Lemma fexp_eq e : fexp prec emax e = Z.max (e - 24) (-149).
Proof. reflexivity. Qed.

(** Dropping [n > 0] bits of a mantissa of [n + 24] digits. *)
Lemma drop_bits (m n : Z) :
  0 < n -> 2 ^ (n + 23) <= m < 2 ^ (n + 24) ->
  2 ^ 23 <= m / 2 ^ n < 2 ^ 24 /\
  forall q, q = m / 2 ^ n \/ q = m / 2 ^ n + 1 -> Z.abs (q * 2 ^ n - m) * 2 ^ 23 <= m.
Proof.
  intros Hn [H1 H2]. rewrite Z.pow_add_r in H1, H2 by lia.
  assert (0 < 2 ^ n) by (apply Z.pow_pos_nonneg; lia).
  pose proof (Z.div_mod m (2 ^ n) ltac:(lia)).
  pose proof (Z.mod_pos_bound m (2 ^ n) ltac:(lia)).
  split.
  - split; [apply Z.div_le_lower_bound; lia|apply Z.div_lt_upper_bound; lia].
  - intros q Hq. assert (Z.abs (q * 2 ^ n - m) <= 2 ^ n) by (destruct Hq; nia). nia.
Qed.

(** A short number with [n + 24] digits ends in [n] zeros. *)
Lemma short_drop (m E n : Z) :
  0 < n -> 0 <= E -> 2 ^ (n + 23) <= m -> short (m * 2 ^ E) ->
  exists q, 0 <= q /\ m = q * 2 ^ n.
Proof.
  intros Hn HE Hm (k & t & Ht & Hk & Heq).
  assert (0 < 2 ^ E) by (apply Z.pow_pos_nonneg; lia).
  rewrite Z.pow_add_r in Hm by lia.
  assert (0 < 2 ^ n) by (apply Z.pow_pos_nonneg; lia).
  destruct (decide (E <= t)) as [Hle|Hgt].
  - replace t with ((t - E) + E) in Heq by lia.
    rewrite Z.pow_add_r in Heq by lia.
    assert (m = k * 2 ^ (t - E)) as Hm' by nia.
    destruct (decide (n <= t - E)).
    + exists (k * 2 ^ (t - E - n)). split.
      * apply Z.mul_nonneg_nonneg; [lia|]. apply Z.pow_nonneg; lia.
      * rewrite <- Z.mul_assoc, <- Z.pow_add_r by lia. rewrite Hm'. do 2 f_equal. lia.
    + exfalso.
      assert (2 ^ (t - E) * 2 <= 2 ^ n).
      { replace (2 ^ (t - E) * 2) with (2 ^ (t - E + 1)) by (rewrite Z.pow_add_r; lia).
        apply Z.pow_le_mono_r; lia. }
      nia.
  - exfalso. assert (2 ^ t < 2 ^ E) by (apply Z.pow_lt_mono_r; lia).
    assert (0 < 2 ^ t) by (apply Z.pow_pos_nonneg; lia).
    assert (2 ^ 1 <= 2 ^ n) by (apply Z.pow_le_mono_r; lia).
    assert (2 ^ 24 <= m) by lia.
    assert (k * 2 ^ t < 2 ^ 24 * 2 ^ E) by nia. nia.
Qed.

(** The second normalization: the rounded mantissa may have 25 digits. *)
Lemma renormalize (s : bool) (q e : Z) :
  2 ^ 23 <= q <= 2 ^ 24 -> -149 <= e <= 100 ->
  exists x,
    (let '(mrs, e') := shr_fexp prec emax q e loc_Exact in
     match shr_m mrs with
     | Z0 => S754_zero s
     | Zpos m => if Z.leb e' (Z.sub emax prec) then S754_finite s m e' else S754_infinity s
     | _ => S754_nan
     end) = x /\
    val x = Some (cond_Zopp s (q * 2 ^ (e + 149))) /\ canon x.
Proof.
  intros Hq He. destruct q as [|p|p]; try lia. eexists. split; [reflexivity|].
  unfold shr_fexp. rewrite fexp_eq. cbn [Zdigits2 shr_record_of_loc].
  destruct (decide (Zpos p = 2 ^ 24)) as [Hp|Hp].
  - assert (Zpos (digits2_pos p) = 25) as -> by (apply digits2_unique; lia).
    rewrite shr_iter by lia. replace (Z.to_nat _) with 1%nat by lia.
    rewrite Hp. cbn [Nat.iter nat_rect]. change (shr_m (shr_1 _)) with (2 ^ 23).
    replace (Z.max _ _ - e) with 1 by lia. change (emax - prec) with 104.
    change (2 ^ 23) with (Zpos 8388608).
    replace (e + 1 <=? 104) with true by lia. cbn [val canon].
    replace (-149 <=? e + 1) with true by lia.
    split; [|change (Zpos (digits2_pos 8388608)) with 24; lia].
    f_equal. replace (e + 1 + 149) with (e + 149 + 1) by lia.
    rewrite (Z.pow_add_r _ (e + 149)) by lia. destruct s; cbn [cond_Zopp]; lia.
  - assert (Zpos (digits2_pos p) = 24) as Hd by (apply digits2_unique; lia).
    rewrite Hd, shr_none by lia. cbn [shr_m]. change (emax - prec) with 104.
    replace (e <=? 104) with true by lia. cbn [val canon].
    replace (-149 <=? e) with true by lia. split; [|lia].
    f_equal. destruct s; cbn [cond_Zopp]; lia.
Qed.

Lemma binary_round_aux_val (s : bool) (mx : positive) (ex : Z) :
  -149 <= ex -> Zpos mx * 2 ^ (ex + 149) < 2 ^ 200 ->
  exists x r, binary_round_aux prec emax s (Zpos mx) ex loc_Exact = x /\
    val x = Some (cond_Zopp s r) /\ rounds (Zpos mx * 2 ^ (ex + 149)) r /\
    (ex <= Zpos (digits2_pos mx) + ex - 24 \/ ex = Z.max (Zpos (digits2_pos mx) + ex - 24) (-149)
     -> canon x).
Proof.
  intros Hex HX. unfold binary_round_aux.
  pose proof (digits2_bounds mx) as [Hd1 Hd2].
  set (d := Zpos (digits2_pos mx)) in *.
  assert (2 ^ (d - 1 + (ex + 149)) < 2 ^ 200) as Hbig.
  { rewrite Z.pow_add_r by lia.
    assert (0 < 2 ^ (ex + 149)) by (apply Z.pow_pos_nonneg; lia). nia. }
  apply Z.pow_lt_mono_r_iff in Hbig; [|lia|lia].
  unfold shr_fexp at 1. rewrite fexp_eq. cbn [Zdigits2 shr_record_of_loc]. fold d.
  destruct (decide (d <= 24)) as [Hle|Hgt].
  - rewrite shr_none by lia. cbn [shr_m loc_of_shr_record round_nearest_even].
    unfold shr_fexp. rewrite fexp_eq. cbn [Zdigits2 shr_record_of_loc]. fold d.
    rewrite shr_none by lia. cbn [shr_m]. change (emax - prec) with 104.
    replace (ex <=? 104) with true by lia.
    eexists _, _. split; [reflexivity|]. cbn [val].
    replace (-149 <=? ex) with true by lia. split.
    { f_equal. instantiate (1 := Zpos mx * 2 ^ (ex + 149)).
      destruct s; cbn [cond_Zopp]; lia. }
    split; [apply rounds_refl; apply Z.mul_nonneg_nonneg; [lia|apply Z.pow_nonneg; lia]|].
    cbn [canon]. fold d. lia.
  - set (n := d - 24). replace (Z.max _ _ - ex) with n by lia.
    rewrite shr_iter by lia.
    destruct (drop_bits (Zpos mx) n) as [Hq Herr]; [lia| |].
    { replace (n + 23) with (d - 1) by lia. replace (n + 24) with d by lia. lia. }
    set (mrs := Nat.iter (Z.to_nat n) shr_1 _).
    assert (shr_m mrs = Zpos mx / 2 ^ n) as Hm.
    { unfold mrs. rewrite shr_steps by (cbn; lia). cbn [shr_m].
      by rewrite Z2Nat.id by lia. }
    set (q := round_nearest_even (shr_m mrs) (loc_of_shr_record mrs)).
    assert (q = Zpos mx / 2 ^ n \/ q = Zpos mx / 2 ^ n + 1) as Hqq
      by (rewrite <- Hm; apply round_nearest_even_near).
    destruct (renormalize s q (ex + n)) as (x & Ex & Hv & Hc); [lia|lia|].
    exists x, (q * 2 ^ (ex + n + 149)). split; [exact Ex|]. split; [exact Hv|].
    split; [|done].
    replace (q * 2 ^ (ex + n + 149)) with ((q * 2 ^ n) * 2 ^ (ex + 149)).
    2:{ rewrite <- Z.mul_assoc, <- Z.pow_add_r by lia. do 2 f_equal. lia. }
    assert (0 < 2 ^ (ex + 149)) by (apply Z.pow_pos_nonneg; lia).
    split.
    + specialize (Herr q Hqq). rewrite <- Z.mul_sub_distr_r, Z.abs_mul. nia.
    + intros Hs. destruct (short_drop (Zpos mx) (ex + 149) n) as (k & Hk & Hmx);
        [lia|lia| |done|].
      { replace (n + 23) with (d - 1) by lia. lia. }
      assert (mrs = Build_shr_record k false false) as Hmrs.
      { unfold mrs. rewrite Hmx. pose proof (shr_steps_exact (Z.to_nat n) k Hk) as Hx.
        rewrite Z2Nat.id in Hx by lia. exact Hx. }
      unfold q. rewrite Hmrs. cbn [loc_of_shr_record round_nearest_even shr_m].
      by rewrite <- Hmx.
Qed.

(** The same for a signed [X]. *)
Definition srounds (X r : Z) : Prop :=
  Z.abs (r - X) * 2 ^ 23 <= Z.abs X /\ (short (Z.abs X) -> r = X).

Lemma srounds_signed (s : bool) X r :
  0 <= X -> rounds X r -> srounds (cond_Zopp s X) (cond_Zopp s r).
Proof.
  intros HX [H1 H2]. split.
  - destruct s; cbn [cond_Zopp]; lia.
  - intros Hs. rewrite H2; [done|]. by destruct s; cbn [cond_Zopp] in Hs;
      rewrite ?Z.abs_opp, Z.abs_eq in Hs by lia.
Qed.

Lemma srounds_refl X : srounds X X.
Proof. split; [rewrite Z.sub_diag; cbn; lia|done]. Qed.

Lemma pos_iter_xO (m d : positive) : Zpos (Pos.iter xO m d) = Zpos m * 2 ^ Zpos d.
Proof.
  rewrite <- Pos2Nat.inj_iter || idtac.
  induction d as [|d IH] using Pos.peano_ind.
  - cbn. lia.
  - rewrite Pos.iter_succ. rewrite Pos2Z.inj_xO, IH, Pos2Z.inj_succ, Z.pow_succ_r by lia. lia.
Qed.

Lemma shl_align_val mx ex ex' :
  -149 <= ex -> -149 <= ex' ->
  let '(mz, ez) := shl_align mx ex ex' in
  ez = Z.min ex ex' /\ Zpos mz * 2 ^ (ez + 149) = Zpos mx * 2 ^ (ex + 149) /\
  Zpos (digits2_pos mz) + ez = Zpos (digits2_pos mx) + ex.
Proof.
  intros Hex Hex'. unfold shl_align.
  destruct (ex' - ex) as [|d|d] eqn:E; [lia|lia|].
  rewrite pos_iter_xO. replace ex with (Zpos d + ex') by lia.
  split; [lia|]. split.
  - rewrite <- Z.mul_assoc, <- Z.pow_add_r by lia. do 2 f_equal. lia.
  - pose proof (digits2_bounds mx) as [H1 H2].
    assert (0 < 2 ^ Zpos d) by (apply Z.pow_pos_nonneg; lia).
    rewrite (digits2_unique _ (Zpos (digits2_pos mx) + Zpos d)); [lia|lia|].
    rewrite pos_iter_xO.
    replace (Zpos (digits2_pos mx) + Zpos d - 1) with (Zpos (digits2_pos mx) - 1 + Zpos d) by lia.
    rewrite !Z.pow_add_r by lia. split; nia.
Qed.

Lemma binary_normalize_val m ex :
  -149 <= ex -> Z.abs m * 2 ^ (ex + 149) < 2 ^ 200 ->
  exists r, val (binary_normalize prec emax m ex false) = Some r /\
    srounds (m * 2 ^ (ex + 149)) r /\ canon (binary_normalize prec emax m ex false).
Proof.
  intros Hex HX.
  assert (forall s p, Z.abs m = Zpos p -> m = cond_Zopp s (Zpos p) ->
    exists r, val (binary_round prec emax s p ex) = Some r /\
      srounds (m * 2 ^ (ex + 149)) r /\ canon (binary_round prec emax s p ex)) as H.
  { intros s p Ha Hm. unfold binary_round. rewrite fexp_eq.
    pose proof (shl_align_val p ex (Z.max (Zpos (digits2_pos p) + ex - 24) (-149))) as Hs.
    destruct (shl_align _ _ _) as [mz ez]. destruct Hs as (Hez & Hv & Hd); [lia|lia|].
    rewrite Ha in HX. rewrite <- Hv in HX.
    destruct (binary_round_aux_val s mz ez) as (x & r & <- & Hr & Hrd & Hc); [lia|done|].
    eexists. split; [exact Hr|]. split; [|apply Hc; lia].
    replace (m * 2 ^ (ex + 149)) with (cond_Zopp s (Zpos mz * 2 ^ (ez + 149)))
      by (rewrite Hv, Hm; destruct s; cbn [cond_Zopp]; lia).
    apply srounds_signed; [|done]. apply Z.mul_nonneg_nonneg; [lia|apply Z.pow_nonneg; lia]. }
  destruct m as [|p|p]; cbn [binary_normalize].
  - exists 0. split; [done|]. split; [apply srounds_refl|done].
  - by apply (H false).
  - by apply (H true).
Qed.

(** ** The operations *)

Lemma f32_add_val x y a b :
  val x = Some a -> val y = Some b -> Z.abs (a + b) < 2 ^ 200 ->
  exists r, val (f32_add x y) = Some r /\ srounds (a + b) r.
Proof.
  intros Hx Hy Hb. unfold f32_add.
  destruct x as [sx|sx| |sx mx ex], y as [sy|sy| |sy my ey]; try discriminate;
    cbn [SFadd]; cbn [val] in Hx, Hy; simplify_eq.
  - exists 0. split; [by destruct sx, sy|apply srounds_refl].
  - exists b. split; [done|apply srounds_refl].
  - exists a. rewrite Z.add_0_r. split; [done|apply srounds_refl].
  - destruct (-149 <=? ex) eqn:Eex; [|discriminate].
    destruct (-149 <=? ey) eqn:Eey; [|discriminate]. simplify_eq.
    pose proof (shl_align_val mx ex (Z.min ex ey) ltac:(lia) ltac:(lia)) as Hsx.
    pose proof (shl_align_val my ey (Z.min ex ey) ltac:(lia) ltac:(lia)) as Hsy.
    destruct (shl_align mx ex _) as [mxz exz]. destruct (shl_align my ey _) as [myz eyz].
    destruct Hsx as (-> & Hvx & _), Hsy as (-> & Hvy & _). cbn [fst].
    replace (Z.min ex (Z.min ex ey)) with (Z.min ex ey) in Hvx by lia.
    replace (Z.min ey (Z.min ex ey)) with (Z.min ex ey) in Hvy by lia.
    set (ez := Z.min ex ey) in *.
    assert ((cond_Zopp sx (Zpos mxz) + cond_Zopp sy (Zpos myz)) * 2 ^ (ez + 149) =
      cond_Zopp sx (Zpos mx) * 2 ^ (ex + 149) + cond_Zopp sy (Zpos my) * 2 ^ (ey + 149)) as Hsum
      by (destruct sx, sy; cbn [cond_Zopp]; lia).
    destruct (binary_normalize_val (cond_Zopp sx (Zpos mxz) + cond_Zopp sy (Zpos myz)) ez)
      as (r & Hr & Hrd & _); [lia| |].
    { rewrite <- Hsum, Z.abs_mul in Hb. rewrite (Z.abs_eq (2 ^ _)) in Hb; [done|].
      apply Z.pow_nonneg; lia. }
    exists r. rewrite <- Hsum. done.
Qed.

Lemma f32_of_int_val z :
  Z.abs z < 2 ^ 24 ->
  val (f32_of_int z) = Some (z * 2 ^ 149) /\ canon (f32_of_int z).
Proof.
  intros Hz. unfold f32_of_int.
  destruct (binary_normalize_val z 0) as (r & Hr & [_ Hs] & Hc); [lia| |].
  { apply Z.le_lt_trans with (2 ^ 24 * 2 ^ (0 + 149)); [|done].
    apply Z.mul_le_mono_nonneg_r; [apply Z.pow_nonneg|]; lia. }
  rewrite Hr, Hs; [done|]. exists (Z.abs z), 149. split; [lia|]. split; [lia|].
  rewrite Z.abs_mul. done.
Qed.

(** An integer times a constant with a large enough exponent. *)
Lemma f32_mul_int (s : bool) m e z :
  -100 <= e -> Zpos m * 2 ^ (e + 149) < 2 ^ 170 -> Z.abs z < 2 ^ 24 ->
  exists r, val (f32_mul (S754_finite s m e) (f32_of_int z)) = Some r /\
    srounds (cond_Zopp s (Zpos m) * 2 ^ (e + 149) * z) r.
Proof.
  intros He Hm Hz. destruct (f32_of_int_val z Hz) as [Hv Hc].
  destruct (f32_of_int z) as [sy|sy| |sy my ey] eqn:E; try discriminate.
  { cbn [val] in Hv. injection Hv as Hv. assert (z = 0) as -> by lia. exists 0. rewrite Z.mul_0_r.
    split; [done|apply srounds_refl]. }
  cbn [val canon] in Hv, Hc. destruct (-149 <=? ey) eqn:Eey; [|discriminate].
  injection Hv as Hv. pose proof (digits2_bounds my) as [Hd1 Hd2].
  assert (0 < 2 ^ (ey + 149)) by (apply Z.pow_pos_nonneg; lia).
  assert (Zpos my * 2 ^ (ey + 149) = Z.abs z * 2 ^ 149) as Hva
    by (destruct sy; cbn [cond_Zopp] in Hv; lia).
  assert (Zpos my < 2 ^ 24) as Hmy.
  { apply Z.lt_le_trans with (1 := Hd2). apply Z.pow_le_mono_r; lia. }
  assert (-24 < ey) as Hey.
  { assert (2 ^ 149 < 2 ^ (24 + (ey + 149))) as Hp.
    { rewrite (Z.pow_add_r 2 24) by lia.
      assert (1 <= Z.abs z) by (destruct (decide (z = 0)); [subst; cbn in Hva; nia|lia]). nia. }
    apply Z.pow_lt_mono_r_iff in Hp; lia. }
  unfold f32_mul. cbn [SFmul].
  assert (Zpos (m * my) * 2 ^ (e + ey + 149) = Zpos m * 2 ^ (e + 149) * Z.abs z) as Hprod.
  { apply Z.mul_reg_r with (2 ^ 149); [lia|].
    rewrite <- (Z.mul_assoc _ (Z.abs z)), <- Hva, Pos2Z.inj_mul.
    rewrite <- (Z.mul_assoc _ (2 ^ (e + ey + 149))), <- Z.pow_add_r by lia.
    replace (e + ey + 149 + 149) with ((e + 149) + (ey + 149)) by lia.
    rewrite Z.pow_add_r by lia. ring. }
  destruct (binary_round_aux_val (xorb s sy) (m * my) (e + ey)) as (x & r & Hx & Hvx & Hr & _).
  { lia. }
  { rewrite Hprod. apply Z.lt_le_trans with (2 ^ 170 * 2 ^ 24); [|done].
    assert (0 <= Zpos m * 2 ^ (e + 149)) by (apply Z.mul_nonneg_nonneg; [lia|apply Z.pow_nonneg; lia]).
    nia. }
  exists (cond_Zopp (xorb s sy) r). rewrite Hx. split; [exact Hvx|].
  replace (cond_Zopp s (Zpos m) * 2 ^ (e + 149) * z)
    with (cond_Zopp (xorb s sy) (Zpos (m * my) * 2 ^ (e + ey + 149))).
  { apply srounds_signed; [|done]. apply Z.mul_nonneg_nonneg; [lia|apply Z.pow_nonneg; lia]. }
  rewrite Hprod.
  assert (z = cond_Zopp sy (Z.abs z)) as Hz' by (destruct sy; cbn [cond_Zopp] in *; nia).
  rewrite Hz' at 2. destruct s, sy; cbn [cond_Zopp xorb]; lia.
Qed.

Lemma f32_to_int_val x v :
  val x = Some v -> Z.abs v < 2 ^ 180 -> f32_to_int x = Ok (Z.quot v (2 ^ 149)).
Proof.
  intros Hx Hv. destruct x as [s|s| |s m e]; try discriminate.
  { cbn in Hx. by simplify_eq. }
  cbn [val] in Hx. destruct (-149 <=? e) eqn:Ee; [|discriminate]. simplify_eq.
  cbn [f32_to_int].
  set (a := if 0 <=? e then _ else _).
  assert (a = Zpos m * 2 ^ (e + 149) / 2 ^ 149) as Ha.
  { unfold a. destruct (0 <=? e) eqn:E0.
    - rewrite Z.pow_add_r, Z.mul_assoc, Z.div_mul by lia. done.
    - assert (0 < 2 ^ (- e)) by (apply Z.pow_pos_nonneg; lia).
      assert (0 < 2 ^ (e + 149)) by (apply Z.pow_pos_nonneg; lia).
      replace (2 ^ 149) with (2 ^ (- e) * 2 ^ (e + 149))
        by (rewrite <- Z.pow_add_r by lia; f_equal; lia).
      by rewrite Z.div_mul_cancel_r by lia. }
  assert (0 <= Zpos m * 2 ^ (e + 149)) by (apply Z.mul_nonneg_nonneg; [lia|apply Z.pow_nonneg; lia]).
  assert (0 <= a < 2 ^ 31) as Har.
  { rewrite Ha. split; [apply Z.div_pos; lia|]. apply Z.div_lt_upper_bound; [lia|].
    destruct s; cbn [cond_Zopp] in Hv; lia. }
  assert (cond_Zopp s a = Z.quot (cond_Zopp s (Zpos m) * 2 ^ (e + 149)) (2 ^ 149)) as ->.
  { destruct s; cbn [cond_Zopp].
    - rewrite Z.mul_opp_l, Z.quot_opp_l by lia. by rewrite Z.quot_div_nonneg, Ha by lia.
    - by rewrite Z.quot_div_nonneg by lia. }
  replace (_ && _) with true; [done|]. symmetry. apply andb_true_intro.
  pose proof (Z.quot_div_nonneg (Zpos m * 2 ^ (e + 149)) (2 ^ 149)).
  destruct s; cbn [cond_Zopp]; rewrite ?Z.mul_opp_l, ?Z.quot_opp_l by lia;
    rewrite Z.quot_div_nonneg, <- Ha by lia; lia.
Qed.

Lemma f32_opp_val x a :
  val x = Some a -> canon x -> val (f32_opp x) = Some (- a) /\ canon (f32_opp x).
Proof.
  destruct x as [s|s| |s m e]; cbn; try done.
  - by intros [= <-].
  - destruct (-149 <=? e); [|done]. intros [= <-] Hc. split; [|done].
    f_equal. destruct s; cbn; lia.
Qed.

(** The comparison of two canonical positive numbers goes by the exponent. *)
Lemma canon_lt m1 e1 m2 e2 :
  Z.max (Zpos (digits2_pos m1) + e1 - 24) (-149) = e1 ->
  Z.max (Zpos (digits2_pos m2) + e2 - 24) (-149) = e2 -> e1 < e2 ->
  Zpos m1 * 2 ^ (e1 + 149) < Zpos m2 * 2 ^ (e2 + 149).
Proof.
  intros H1 H2 Hlt. pose proof (digits2_bounds m1) as [_ Ha].
  pose proof (digits2_bounds m2) as [Hb _].
  assert (Zpos m1 < 2 ^ 24).
  { apply Z.lt_le_trans with (1 := Ha). apply Z.pow_le_mono_r; lia. }
  assert (2 ^ 23 <= Zpos m2).
  { apply Z.le_trans with (2 := Hb). apply Z.pow_le_mono_r; lia. }
  assert (2 ^ (e1 + 149) * 2 <= 2 ^ (e2 + 149)).
  { rewrite <- (Z.pow_add_r 2 _ 1) by lia. apply Z.pow_le_mono_r; lia. }
  assert (0 < 2 ^ (e1 + 149)) by (apply Z.pow_pos_nonneg; lia). nia.
Qed.

Lemma compare_mantissa m1 m2 P :
  0 < P -> Pos.compare_cont Eq m1 m2 = (Zpos m1 * P ?= Zpos m2 * P).
Proof.
  intros HP. change (Pos.compare_cont Eq m1 m2) with (Zpos m1 ?= Zpos m2).
  destruct (Z.compare_spec (Zpos m1) (Zpos m2)) as [H|H|H]; symmetry.
  - rewrite H. apply Z.compare_refl.
  - apply Z.compare_lt_iff. nia.
  - apply Z.compare_gt_iff. nia.
Qed.

Lemma f32_lt_val x y a b :
  val x = Some a -> canon x -> val y = Some b -> canon y -> f32_lt x y = (a <? b).
Proof.
  intros Hx Hcx Hy Hcy.
  assert (SFcompare x y = Some (a ?= b)) as H.
  2:{ unfold f32_lt, SFltb. rewrite H. unfold Z.ltb. by destruct (a ?= b). }
  destruct x as [sx|sx| |sx mx ex], y as [sy|sy| |sy my ey]; try done;
    cbn [val canon SFcompare] in *.
  - by simplify_eq.
  - destruct (-149 <=? ey); [|done]. simplify_eq. f_equal.
    assert (0 < 2 ^ (ey + 149)) by (apply Z.pow_pos_nonneg; lia). symmetry.
    destruct sy; cbn [cond_Zopp]; [apply Z.compare_gt_iff|apply Z.compare_lt_iff]; nia.
  - destruct (-149 <=? ex); [|done]. simplify_eq. f_equal.
    assert (0 < 2 ^ (ex + 149)) by (apply Z.pow_pos_nonneg; lia). symmetry.
    destruct sx; cbn [cond_Zopp]; [apply Z.compare_lt_iff|apply Z.compare_gt_iff]; nia.
  - destruct (-149 <=? ex) eqn:Eex; [|done]. destruct (-149 <=? ey) eqn:Eey; [|done].
    simplify_eq. f_equal.
    assert (0 < 2 ^ (ex + 149)) by (apply Z.pow_pos_nonneg; lia).
    assert (0 < 2 ^ (ey + 149)) by (apply Z.pow_pos_nonneg; lia).
    destruct sx, sy; cbn [cond_Zopp]; try (symmetry; apply Z.compare_gt_iff; nia);
      try (symmetry; apply Z.compare_lt_iff; nia);
      destruct (Z.compare_spec ex ey) as [->|Hlt|Hlt].
    + change (Zneg mx) with (- Zpos mx). change (Zneg my) with (- Zpos my).
      rewrite (compare_mantissa _ _ (2 ^ (ey + 149))), <- Z.compare_antisym by done.
      rewrite (Z.mul_opp_l (Zpos mx)), (Z.mul_opp_l (Zpos my)). symmetry. apply Z.compare_opp.
    + pose proof (canon_lt _ _ _ _ Hcx Hcy Hlt). symmetry. apply Z.compare_gt_iff. lia.
    + pose proof (canon_lt _ _ _ _ Hcy Hcx Hlt). symmetry. apply Z.compare_lt_iff. lia.
    + by apply compare_mantissa.
    + pose proof (canon_lt _ _ _ _ Hcx Hcy Hlt). symmetry. apply Z.compare_lt_iff. lia.
    + pose proof (canon_lt _ _ _ _ Hcy Hcx Hlt). symmetry. apply Z.compare_gt_iff. lia.
Qed.

(** ** Integers below 2^24 *)

Lemma f32_to_int_of_int z : Z.abs z < 2 ^ 24 -> f32_to_int (f32_of_int z) = Ok z.
Proof.
  intros Hz. destruct (f32_of_int_val z Hz) as [Hv _].
  rewrite (f32_to_int_val _ _ Hv).
  - by rewrite Z.quot_mul by lia.
  - rewrite Z.abs_mul. change (Z.abs (2 ^ 149)) with (2 ^ 149).
    apply Z.lt_le_trans with (2 ^ 24 * 2 ^ 149); [nia|done].
Qed.

Lemma f32_lt_of_int a b :
  Z.abs a < 2 ^ 24 -> Z.abs b < 2 ^ 24 ->
  f32_lt (f32_of_int a) (f32_of_int b) = (a <? b).
Proof.
  intros Ha Hb. destruct (f32_of_int_val a Ha), (f32_of_int_val b Hb).
  erewrite f32_lt_val by done. destruct (a <? b) eqn:E; lia.
Qed.

(** Adding two numbers with integer values below 2^24 is exact. *)
Lemma f32_add_int x y a b :
  val x = Some (a * 2 ^ 149) -> val y = Some (b * 2 ^ 149) -> Z.abs (a + b) < 2 ^ 24 ->
  val (f32_add x y) = Some ((a + b) * 2 ^ 149) /\ f32_to_int (f32_add x y) = Ok (a + b).
Proof.
  intros Hx Hy Hab.
  assert (Z.abs ((a + b) * 2 ^ 149) < 2 ^ 180) as Hbd.
  { rewrite Z.abs_mul. change (Z.abs (2 ^ 149)) with (2 ^ 149).
    apply Z.lt_le_trans with (2 ^ 24 * 2 ^ 149); [nia|done]. }
  destruct (f32_add_val x y _ _ Hx Hy) as (r & Hr & [_ Hs]).
  { rewrite <- Z.mul_add_distr_r. apply Z.lt_trans with (1 := Hbd). done. }
  rewrite <- Z.mul_add_distr_r in Hs. rewrite Hr, Hs.
  - split; [done|]. rewrite Hs in Hr.
    + rewrite (f32_to_int_val _ _ Hr Hbd). by rewrite Z.quot_mul by lia.
    + exists (Z.abs (a + b)), 149. rewrite Z.abs_mul. split_and!; done || lia.
  - exists (Z.abs (a + b)), 149. rewrite Z.abs_mul. split_and!; done || lia.
Qed.
