(* ===== verification/Motor.v ===== *)
(** * The drive motors (applications/motor.c)

    One iteration of the control loop maps the left stick to the speeds of
    the two motors through a single-precision low-pass filter, a rate limit
    and saturation, and sets direction pins and PWM pulses.  The theorems:
    no iteration overflows, the speed changes by a bounded amount, pulses stay
    within the period, the pins and pulses encode the speeds, a neutral stick
    stops the car; and what the loop does before the pad was ever read. *)

From Stdlib Require Import SpecFloat.
From S2P Require Import Prelude Gpio Float32.

Module Motor.

(** ** Pins and constants (motor.h) *)

Definition AIN1 : Z := GET_PIN PORT_B 12.
Definition AIN2 : Z := GET_PIN PORT_B 13.
Definition BIN1 : Z := GET_PIN PORT_B 14.
Definition BIN2 : Z := GET_PIN PORT_B 15.
Definition PWMA_CHANNEL : Z := 1.
Definition PWMB_CHANNEL : Z := 2.
Definition A_Period : Z := 320000.
Definition B_Period : Z := 320000.

(** ** Operations (motor.c) *)

Definition limit_change (change max_change_rate : f32) : f32 :=
  if f32_lt max_change_rate change then max_change_rate
  else if f32_lt change (f32_opp max_change_rate) then f32_opp max_change_rate
  else change.

(** [pwm_init], without its console output; [A_Pulse] and [B_Pulse] are 0. *)
Definition pwm_init (pwm_dev : option Z) (h : history) : history :=
  let h := rt_pwm_set pwm_dev PWMA_CHANNEL A_Period 0 h in
  let h := rt_pwm_set pwm_dev PWMB_CHANNEL B_Period 0 h in
  let h := rt_pwm_enable pwm_dev PWMA_CHANNEL h in
  rt_pwm_enable pwm_dev PWMB_CHANNEL h.

Definition gpio_init (h : history) : history :=
  rt_pin_mode BIN2 PIN_MODE_OUTPUT (rt_pin_mode BIN1 PIN_MODE_OUTPUT
    (rt_pin_mode AIN2 PIN_MODE_OUTPUT (rt_pin_mode AIN1 PIN_MODE_OUTPUT h))).

Definition pwm_Amotor_set (pwm_dev : option Z) (value : Z) (h : history) : history :=
  rt_pwm_set pwm_dev PWMA_CHANNEL A_Period value h.
Definition pwm_Bmotor_set (pwm_dev : option Z) (value : Z) (h : history) : history :=
  rt_pwm_set pwm_dev PWMB_CHANNEL B_Period value h.

Definition A_motor_forward (h : history) : history :=
  rt_pin_write AIN1 PIN_HIGH (rt_pin_write AIN2 PIN_LOW h).
Definition A_motor_backward (h : history) : history :=
  rt_pin_write AIN2 PIN_HIGH (rt_pin_write AIN1 PIN_LOW h).
Definition B_motor_forward (h : history) : history :=
  rt_pin_write BIN2 PIN_HIGH (rt_pin_write BIN1 PIN_LOW h).
Definition B_motor_backward (h : history) : history :=
  rt_pin_write BIN2 PIN_LOW (rt_pin_write BIN1 PIN_HIGH h).

Definition myabs (a : Z) : result Z := if a <? 0 then chk32 (- a) else Ok a.

Definition motor_pwm_set (pwm_dev : option Z) (motor1 motor2 : Z) (h : history)
  : result history :=
  h ← (if 0 <? motor1 then
         v ← myabs motor1; Ok (pwm_Amotor_set pwm_dev (u32 v) (A_motor_backward h))
       else
         v ← myabs motor1; Ok (pwm_Amotor_set pwm_dev (u32 v) (A_motor_forward h)));
  if 0 <? motor2 then
    v ← myabs motor2; Ok (pwm_Bmotor_set pwm_dev (u32 v) (B_motor_backward h))
  else
    v ← myabs motor2; Ok (pwm_Bmotor_set pwm_dev (u32 v) (B_motor_forward h)).

(** [float alpha = 0.2;] *)
Definition alpha : f32 := f32_of_quotient 1 5.
Definition max_change_rate : Z := 3280.

(** [alpha * x + (1 - alpha) * prev], assigned to an [rt_int32_t]. *)
Definition low_pass (x prev : Z) : result Z :=
  f32_to_int (f32_add (f32_mul alpha (f32_of_int x))
                (f32_mul (f32_sub (f32_of_int 1) alpha) (f32_of_int prev))).

(** [prev + limit_change(x - prev, max_change_rate)], assigned to an [rt_int32_t]. *)
Definition rate_limit (x prev : Z) : result Z :=
  d ← chk32 (x - prev);
  f32_to_int (f32_add (f32_of_int prev)
                (limit_change (f32_of_int d) (f32_of_int max_change_rate))).

Record motor := mk_motor { prev_usual : Z; prev_delta : Z; hist : history }.

(** One iteration of the loop of [motor_control], on the stick position that
    the globals [PS2_LX] and [PS2_LY] hold. *)
Definition motor_control_body (pwm_dev : option Z) (PS2_LX PS2_LY : Z) (s : motor)
  : result motor :=
  usual ← (d ← chk32 (128 - PS2_LY); chk32 (d * 2400));
  delta ← (d ← chk32 (127 - PS2_LX); chk32 (d * 1600));
  usual ← low_pass usual (prev_usual s);
  delta ← low_pass delta (prev_delta s);
  usual ← rate_limit usual (prev_usual s);
  delta ← rate_limit delta (prev_delta s);
  let usual := if 320000 <? usual then 320000 else usual in
  let delta := if 256000 <? delta then 256000 else delta in
  speeda ← chk32 (usual + delta);
  speedb ← chk32 (usual - delta);
  let speeda := if 320000 <? speeda then 320000
                else if speeda <? -320000 then -320000 else speeda in
  let speedb := if 256000 <? speedb then 256000
                else if speedb <? -256000 then -256000 else speedb in
  h ← motor_pwm_set pwm_dev speeda speedb (hist s);
  Ok (mk_motor usual delta (rt_thread_mdelay 10 h)).

(** What [motor_control] does before the loop. *)
Definition motor_control_init (pwm_dev : option Z) : motor :=
  mk_motor 0 0 (gpio_init (pwm_init pwm_dev [])).

(** The loop on a sequence of stick positions (LX, LY). *)
Fixpoint motor_run (pwm_dev : option Z) (sticks : list (Z * Z)) (s : motor) : result motor :=
  match sticks with
  | [] => Ok s
  | (lx, ly) :: sticks => s ← motor_control_body pwm_dev lx ly s; motor_run pwm_dev sticks s
  end.

(** ** The filter *)

Lemma alpha_val : alpha = S754_finite false 13421773 (-26).
Proof. vm_compute. reflexivity. Qed.
Lemma one_minus_alpha_val :
  f32_sub (f32_of_int 1) alpha = S754_finite false 13421773 (-24).
Proof. vm_compute. reflexivity. Qed.

(** The result is within one part in 2^21 of the exact filter, and truncated. *)
Lemma low_pass_bound x prev B :
  Z.abs x < 2 ^ 20 -> Z.abs prev < 2 ^ 20 ->
  (13421773 * Z.abs x + 53687092 * Z.abs prev) * (2 ^ 21 + 1) < (B + 1) * 2 ^ 47 ->
  exists y, low_pass x prev = Ok y /\ Z.abs y <= B.
Proof.
  intros Hx Hp HB. unfold low_pass. rewrite one_minus_alpha_val, alpha_val.
  destruct (f32_mul_int false 13421773 (-26) x) as (r1 & E1 & [H1 _]); [lia|lia|lia|].
  destruct (f32_mul_int false 13421773 (-24) prev) as (r2 & E2 & [H2 _]); [lia|lia|lia|].
  cbn [cond_Zopp] in H1, H2.
  change (13421773 * 2 ^ (-26 + 149)) with (13421773 * 2 ^ 123) in H1.
  change (13421773 * 2 ^ (-24 + 149)) with (53687092 * 2 ^ 123) in H2.
  assert (Z.abs (r1 + r2) * 2 ^ 23 <= (13421773 * Z.abs x + 53687092 * Z.abs prev)
    * 2 ^ 123 * (2 ^ 23 + 1)) as H12 by lia.
  destruct (f32_add_val _ _ r1 r2 E1 E2) as (r & E & [Hr _]); [lia|].
  assert (Z.abs r * 2 ^ 46 <= (13421773 * Z.abs x + 53687092 * Z.abs prev)
    * 2 ^ 123 * ((2 ^ 23 + 1) * (2 ^ 23 + 1))) as Hb by lia.
  rewrite (f32_to_int_val _ _ E) by lia. eexists. split; [done|].
  rewrite <- Z.quot_abs by lia. rewrite Z.quot_div_nonneg by lia.
  change (Z.abs (2 ^ 149)) with (2 ^ 149).
  assert (Z.abs r / 2 ^ 149 < B + 1); [|lia]. apply Z.div_lt_upper_bound; lia.
Qed.

Lemma rate_limit_spec x prev :
  Z.abs x < 2 ^ 20 -> Z.abs prev < 2 ^ 20 ->
  rate_limit x prev = Ok (prev + Z.max (- max_change_rate) (Z.min max_change_rate (x - prev))).
Proof.
  intros Hx Hp. unfold rate_limit. rewrite chk32_Ok by lia. cbn [mbind result_bind].
  unfold limit_change. set (m := max_change_rate). assert (m = 3280) as Hm by done.
  destruct (f32_of_int_val m) as [Vm Cm]; [lia|].
  destruct (f32_of_int_val (x - prev)) as [Vd Cd]; [lia|].
  destruct (f32_opp_val _ _ Vm Cm) as [Vo Co].
  rewrite (f32_lt_val _ _ _ _ Vm Cm Vd Cd), (f32_lt_val _ _ _ _ Vd Cd Vo Co).
  destruct (f32_of_int_val prev) as [Vp _]; [lia|].
  replace (m * 2 ^ 149 <? _) with (m <? x - prev) by lia.
  replace ((x - prev) * 2 ^ 149 <? _) with (x - prev <? - m) by lia.
  destruct (m <? x - prev) eqn:E1; [|destruct (x - prev <? - m) eqn:E2].
  - destruct (f32_add_int _ _ _ _ Vp Vm) as [_ ->]; [lia|]. f_equal. lia.
  - rewrite <- Z.mul_opp_l in Vo.
    destruct (f32_add_int _ _ _ _ Vp Vo) as [_ ->]; [lia|]. f_equal. lia.
  - destruct (f32_add_int _ _ _ _ Vp Vd) as [_ ->]; [lia|]. f_equal. lia.
Qed.

(** ** Reading the outputs back *)

(** The bridge inputs and the pulses as the history leaves them. *)
Record drive := mk_drive { a1 : Z; a2 : Z; b1 : Z; b2 : Z; pulse_a : Z; pulse_b : Z }.

Definition drive_step (e : event) (d : drive) : drive :=
  match e with
  | PinWrite p v =>
      if p =? AIN1 then mk_drive v (a2 d) (b1 d) (b2 d) (pulse_a d) (pulse_b d)
      else if p =? AIN2 then mk_drive (a1 d) v (b1 d) (b2 d) (pulse_a d) (pulse_b d)
      else if p =? BIN1 then mk_drive (a1 d) (a2 d) v (b2 d) (pulse_a d) (pulse_b d)
      else if p =? BIN2 then mk_drive (a1 d) (a2 d) (b1 d) v (pulse_a d) (pulse_b d)
      else d
  | PwmSet _ c _ p =>
      if c =? PWMA_CHANNEL then mk_drive (a1 d) (a2 d) (b1 d) (b2 d) p (pulse_b d)
      else if c =? PWMB_CHANNEL then mk_drive (a1 d) (a2 d) (b1 d) (b2 d) (pulse_a d) p
      else d
  | _ => d
  end.

Fixpoint drive_of (h : history) : drive :=
  match h with
  | [] => mk_drive 0 0 0 0 0 0
  | e :: h => drive_step e (drive_of h)
  end.

(** The signed speed a bridge is driven at: IN2 high is positive for motor A,
    IN1 high is positive for motor B. *)
Definition speed_of (pos neg pulse : Z) : Z :=
  if (pos =? 1) && (neg =? 0) then pulse
  else if (pos =? 0) && (neg =? 1) then - pulse else 0.
Definition speed_A (h : history) : Z :=
  let d := drive_of h in speed_of (a2 d) (a1 d) (pulse_a d).
Definition speed_B (h : history) : Z :=
  let d := drive_of h in speed_of (b1 d) (b2 d) (pulse_b d).

(** Every pulse set so far is inside its period. *)
Definition pulses_ok (h : history) : Prop :=
  Forall (fun e => match e with PwmSet _ _ period p => 0 <= p <= period | _ => True end) h.

Definition clamp (m z : Z) : Z := Z.max (- m) (Z.min m z).

Lemma A_motor_spec (dev v : Z) (h : history) :
  Z.abs v <= 320000 ->
  exists h',
    (if 0 <? v then
       v ← myabs v; Ok (pwm_Amotor_set (Some dev) (u32 v) (A_motor_backward h))
     else
       v ← myabs v; Ok (pwm_Amotor_set (Some dev) (u32 v) (A_motor_forward h))) = Ok h' /\
    speed_A h' = v /\ speed_B h' = speed_B h /\ (pulses_ok h -> pulses_ok h').
Proof.
  intros H. unfold myabs. destruct (Z.ltb_spec 0 v), (Z.ltb_spec v 0); try lia;
    rewrite ?chk32_Ok by lia; cbn [mbind result_bind]; rewrite u32_small by lia;
    (eexists; split; [reflexivity|]); (split; [first [reflexivity|change (- - v = v); lia|change (- v = v); lia]|]);
    (split; [reflexivity|]);
    intros Hp; repeat (constructor; [first [exact I|cbv [A_Period]; lia]|]); exact Hp.
Qed.

Lemma B_motor_spec (dev v : Z) (h : history) :
  Z.abs v <= 320000 ->
  exists h',
    (if 0 <? v then
       v ← myabs v; Ok (pwm_Bmotor_set (Some dev) (u32 v) (B_motor_backward h))
     else
       v ← myabs v; Ok (pwm_Bmotor_set (Some dev) (u32 v) (B_motor_forward h))) = Ok h' /\
    speed_B h' = v /\ speed_A h' = speed_A h /\ (pulses_ok h -> pulses_ok h').
Proof.
  intros H. unfold myabs. destruct (Z.ltb_spec 0 v), (Z.ltb_spec v 0); try lia;
    rewrite ?chk32_Ok by lia; cbn [mbind result_bind]; rewrite u32_small by lia;
    (eexists; split; [reflexivity|]); (split; [first [reflexivity|change (- - v = v); lia|change (- v = v); lia]|]);
    (split; [reflexivity|]);
    intros Hp; repeat (constructor; [first [exact I|cbv [B_Period]; lia]|]); exact Hp.
Qed.

Lemma motor_pwm_set_spec dev v1 v2 h :
  Z.abs v1 <= 320000 -> Z.abs v2 <= 320000 ->
  exists h', motor_pwm_set (Some dev) v1 v2 h = Ok h' /\
    speed_A h' = v1 /\ speed_B h' = v2 /\ (pulses_ok h -> pulses_ok h').
Proof.
  intros H1 H2. destruct (A_motor_spec dev v1 h H1) as (h1 & E1 & A1 & _ & P1).
  destruct (B_motor_spec dev v2 h1 H2) as (h2 & E2 & B2 & A2 & P2).
  exists h2. unfold motor_pwm_set. rewrite E1. cbn [mbind result_bind].
  split; [exact E2|]. rewrite A2. auto.
Qed.

(** ** One iteration *)

(** The filter states the sticks can produce. *)
Definition inv (s : motor) : Prop :=
  Z.abs (prev_usual s) <= 307200 /\ Z.abs (prev_delta s) <= 204800.

Definition stick_ok (v : Z) : Prop := 0 <= v < 256.

(** One channel of the filter: it stays within the range of its input and
    moves by at most [max_change_rate]; an input 0 pulls it towards 0. *)
Lemma filter_step x prev B :
  Z.abs x <= B -> Z.abs prev <= B -> 0 <= B <= 307200 ->
  exists y z, low_pass x prev = Ok y /\ rate_limit y prev = Ok z /\
    Z.abs z <= B /\ Z.abs (z - prev) <= max_change_rate /\
    (x = 0 -> Z.abs z <= Z.max 0 (Z.abs prev - 1)).
Proof.
  intros Hx Hp HB. unfold max_change_rate.
  destruct (low_pass_bound x prev B) as (y & Ey & Hy); [lia|lia|nia|].
  assert (x = 0 -> Z.abs y <= Z.max 0 (Z.abs prev - 1)) as H0.
  { intros ->. destruct (decide (prev = 0)) as [->|Hne].
    - destruct (low_pass_bound 0 0 0) as (y' & Ey' & Hy'); [lia..|].
      rewrite Ey' in Ey. injection Ey as ->. lia.
    - destruct (low_pass_bound 0 prev (Z.abs prev - 1)) as (y' & Ey' & Hy'); [lia..|].
      rewrite Ey' in Ey. injection Ey as ->. lia. }
  eexists y, _. split; [done|]. split; [apply rate_limit_spec; lia|].
  unfold max_change_rate. split; [lia|]. split; [lia|]. intros Hx0. specialize (H0 Hx0). lia.
Qed.

Lemma motor_control_body_spec dev lx ly s :
  stick_ok lx -> stick_ok ly -> inv s ->
  exists s', motor_control_body (Some dev) lx ly s = Ok s' /\ inv s' /\
    Z.abs (prev_usual s' - prev_usual s) <= max_change_rate /\
    Z.abs (prev_delta s' - prev_delta s) <= max_change_rate /\
    speed_A (hist s') = clamp 320000 (prev_usual s' + prev_delta s') /\
    speed_B (hist s') = clamp 256000 (prev_usual s' - prev_delta s') /\
    (pulses_ok (hist s) -> pulses_ok (hist s')) /\
    (ly = 128 -> Z.abs (prev_usual s') <= Z.max 0 (Z.abs (prev_usual s) - 1)) /\
    (lx = 127 -> Z.abs (prev_delta s') <= Z.max 0 (Z.abs (prev_delta s) - 1)).
Proof.
  intros Hlx Hly [Hu Hd]. unfold stick_ok in *. unfold motor_control_body.
  rewrite (chk32_Ok (128 - ly)), (chk32_Ok (127 - lx)) by lia. cbn [mbind result_bind].
  rewrite (chk32_Ok ((128 - ly) * 2400)), (chk32_Ok ((127 - lx) * 1600)) by lia.
  cbn [mbind result_bind].
  destruct (filter_step ((128 - ly) * 2400) (prev_usual s) 307200)
    as (y1 & u & -> & R1 & B1 & C1 & Z1); [lia..|].
  destruct (filter_step ((127 - lx) * 1600) (prev_delta s) 204800)
    as (y2 & d & -> & R2 & B2 & C2 & Z2); [lia..|].
  cbn [mbind result_bind]. rewrite R1. cbn [mbind result_bind]. rewrite R2.
  cbn [mbind result_bind].
  replace (320000 <? u) with false by lia. replace (256000 <? d) with false by lia.
  rewrite (chk32_Ok (u + d)), (chk32_Ok (u - d)) by lia. cbn [mbind result_bind].
  replace (if 320000 <? u + d then _ else _) with (clamp 320000 (u + d))
    by (unfold clamp; zbool; lia).
  replace (if 256000 <? u - d then _ else _) with (clamp 256000 (u - d))
    by (unfold clamp; zbool; lia).
  destruct (motor_pwm_set_spec dev (clamp 320000 (u + d)) (clamp 256000 (u - d)) (hist s))
    as (h' & -> & HA & HB & HP); [unfold clamp; lia..|].
  cbn [mbind result_bind]. eexists. split; [done|]. cbn [prev_usual prev_delta hist].
  split_and!; try done; try lia.
  - intros H. constructor; [exact I|]. by apply HP.
Qed.

(** ** Runs *)

Lemma motor_run_inv dev sticks s :
  Forall (fun xy => stick_ok (fst xy) /\ stick_ok (snd xy)) sticks -> inv s ->
  pulses_ok (hist s) ->
  exists s', motor_run (Some dev) sticks s = Ok s' /\ inv s' /\ pulses_ok (hist s').
Proof.
  revert s. induction sticks as [|[lx ly] sticks IH]; intros s Hs Hi Hp.
  { exists s. done. }
  apply Forall_cons in Hs as [[Hx Hy] Hs]. cbn [motor_run].
  destruct (motor_control_body_spec dev lx ly s Hx Hy Hi)
    as (s' & -> & Hi' & _ & _ & _ & _ & Hp' & _). apply (IH s' Hs Hi'). by apply Hp'.
Qed.

(** C3: whatever the driver does with the stick, and for however long, the
    control loop runs without a signed overflow or an undefined float
    conversion, and every pulse it ever hands to the PWM device is within the
    period: the filter keeps the two filtered values inside the ranges
    307200 and 204800 of the stick although the code saturates them on one
    side only. *)
Theorem motor_run_safe (dev : Z) (sticks : list (Z * Z)) :
  Forall (fun xy => stick_ok (fst xy) /\ stick_ok (snd xy)) sticks ->
  exists s, motor_run (Some dev) sticks (motor_control_init (Some dev)) = Ok s /\
    Z.abs (prev_usual s) <= 307200 /\ Z.abs (prev_delta s) <= 204800 /\
    Forall (fun e => match e with PwmSet _ _ period p => 0 <= p <= period | _ => True end)
      (hist s).
Proof.
  intros Hs. destruct (motor_run_inv dev sticks (motor_control_init (Some dev)) Hs)
    as (s & E & [Hu Hd] & Hp).
  - split; cbn; lia.
  - repeat (constructor; [first [exact I|cbv [A_Period B_Period]; lia]|]). constructor.
  - exists s. exact (conj E (conj Hu (conj Hd Hp))).
Qed.

Lemma motor_run_safe_witness :
  exists s, motor_run (Some 1) [(0, 0); (255, 255); (127, 128)]
      (motor_control_init (Some 1)) = Ok s /\
    Z.abs (prev_usual s) <= 307200 /\ Z.abs (prev_delta s) <= 204800 /\
    Forall (fun e => match e with PwmSet _ _ period p => 0 <= p <= period | _ => True end)
      (hist s).
Proof.
  apply (motor_run_safe 1 [(0, 0); (255, 255); (127, 128)]).
  repeat (constructor; [unfold stick_ok; cbn; lia|]). constructor.
Defined.

(** One iteration of the control loop: the filtered values move by at most
    [max_change_rate] = 3280, and after it the direction pins and pulses, read
    back as signed speeds, are the saturated sum and difference of the
    filtered values.  (Motor A saturates at 320000, motor B at 256000.) *)
Lemma motor_step (dev lx ly : Z) (s : motor) :
  stick_ok lx -> stick_ok ly ->
  Z.abs (prev_usual s) <= 307200 -> Z.abs (prev_delta s) <= 204800 ->
  exists s', motor_control_body (Some dev) lx ly s = Ok s' /\
    Z.abs (prev_usual s' - prev_usual s) <= 3280 /\
    Z.abs (prev_delta s' - prev_delta s) <= 3280 /\
    speed_A (hist s') = clamp 320000 (prev_usual s' + prev_delta s') /\
    speed_B (hist s') = clamp 256000 (prev_usual s' - prev_delta s').
Proof.
  intros Hx Hy Hu Hd.
  destruct (motor_control_body_spec dev lx ly s Hx Hy (conj Hu Hd))
    as (s' & E & _ & Cu & Cd & HA & HB & _).
  exists s'. exact (conj E (conj Cu (conj Cd (conj HA HB)))).
Qed.

Lemma motor_step_witness :
  exists s', motor_control_body (Some 1) 200 10 (mk_motor 100 (-7) []) = Ok s' /\
    Z.abs (prev_usual s' - 100) <= 3280 /\ Z.abs (prev_delta s' - (-7)) <= 3280 /\
    speed_A (hist s') = clamp 320000 (prev_usual s' + prev_delta s') /\
    speed_B (hist s') = clamp 256000 (prev_usual s' - prev_delta s').
Proof.
  apply (motor_step 1 200 10 (mk_motor 100 (-7) [])); unfold stick_ok; cbn; lia.
Defined.

Lemma neutral_decay dev (n : nat) s :
  inv s -> Z.abs (prev_usual s) <= Z.of_nat n -> Z.abs (prev_delta s) <= Z.of_nat n ->
  exists s', motor_run (Some dev) (replicate (S n) (127, 128)) s = Ok s' /\
    prev_usual s' = 0 /\ prev_delta s' = 0 /\ speed_A (hist s') = 0 /\ speed_B (hist s') = 0.
Proof.
  revert s. induction n as [|n IH]; intros s Hi Hu Hd.
  all: change (replicate (S ?k) (127, 128)) with ((127, 128) :: replicate k (127, 128));
    cbn [motor_run].
  all: destruct (motor_control_body_spec dev 127 128 s)
      as (s' & E & Hi' & _ & _ & HA & HB & _ & Zu & Zd); [unfold stick_ok; lia..|done|];
    specialize (Zu eq_refl); specialize (Zd eq_refl); rewrite E; cbn [mbind result_bind].
  - exists s'. assert (prev_usual s' = 0) as Hu0 by lia. assert (prev_delta s' = 0) as Hd0 by lia.
    rewrite HA, HB, Hu0, Hd0. split_and!; reflexivity.
  - apply IH; [done|lia|lia].
Qed.

(** C4: a released stick stops the car.  From any state of the loop, when the
    pad reports the neutral position (127, 128) for more iterations than the
    larger filter value, both motors are at speed 0. *)
Theorem neutral_stick_stops (dev : Z) (s : motor) (n : nat) :
  Z.abs (prev_usual s) <= 307200 -> Z.abs (prev_delta s) <= 204800 ->
  Z.abs (prev_usual s) <= Z.of_nat n -> Z.abs (prev_delta s) <= Z.of_nat n ->
  exists s', motor_run (Some dev) (replicate (S n) (127, 128)) s = Ok s' /\
    speed_A (hist s') = 0 /\ speed_B (hist s') = 0.
Proof.
  intros Hu Hd Hun Hdn.
  destruct (neutral_decay dev n s (conj Hu Hd) Hun Hdn) as (s' & E & _ & _ & HA & HB).
  exists s'. exact (conj E (conj HA HB)).
Qed.

Lemma neutral_stick_stops_witness :
  exists s', motor_run (Some 1) (replicate 13 (127, 128)) (mk_motor 12 (-9) []) = Ok s' /\
    speed_A (hist s') = 0 /\ speed_B (hist s') = 0.
Proof.
  apply (neutral_stick_stops 1 (mk_motor 12 (-9) []) 12); cbn; lia.
Defined.

(** Before the first poll the stick globals are 0, which the loop takes for a
    stick in the corner: after 25 iterations (the 250 ms the pad driver waits)
    motor A runs at half of its range. *)
Definition speeds_after (r : result motor) : option (Z * Z) :=
  match r with Ok s => Some (speed_A (hist s), speed_B (hist s)) | Fault _ => None end.

Lemma unpolled_pad_drives :
  speeds_after (motor_run (Some 1) (replicate 25 (0, 0)) (motor_control_init (Some 1)))
  = Some (164000, 0).
Proof. vm_compute. reflexivity. Qed.

End Motor.
