(* ===== verification/Heap.v ===== *)
(** * The heap as a list of blocks

    The steps of the small memory allocator ([SmallMem], rt-thread/src/mem.c) on a
    memory without bounds, and their specification: a list of blocks with sizes and
    use marks.  Allocation takes the first free block that fits, a release merges
    free neighbours, and each step on the chain of headers implements the step on the
    list without touching the data of a block in use.  [SmallMem] has the operations
    with every access checked and shows that they are these steps. *)

From S2P Require Import Prelude.

Module Heap.

(** ** The object and its memory *)

(** Pointers are addresses; [RT_NULL] is 0.  [self] is the address of the
    object, [ram] holds a word at every aligned address; [given] is the memory the
    object was made in, its address and size. *)
Record rt_small_mem := mk_smem {
  given : Z * Z; self : Z; heap_ptr : Z; heap_end : Z; lfree : Z; mem_size_aligned : Z;
  total : Z; used : Z; max : Z; ram : Z -> Z }.

Definition RT_NULL : Z := 0.

Definition store (r : Z -> Z) (a v : Z) : Z -> Z := fun x => if x =? a then v else r x.

Definition set_ram (m : rt_small_mem) (r : Z -> Z) : rt_small_mem :=
  mk_smem (given m) (self m) (heap_ptr m) (heap_end m) (lfree m) (mem_size_aligned m)
    (total m) (used m) (max m) r.
Definition set_lfree (m : rt_small_mem) (p : Z) : rt_small_mem :=
  mk_smem (given m) (self m) (heap_ptr m) (heap_end m) p (mem_size_aligned m)
    (total m) (used m) (max m) (ram m).
Definition set_used (m : rt_small_mem) (n : Z) : rt_small_mem :=
  mk_smem (given m) (self m) (heap_ptr m) (heap_end m) (lfree m) (mem_size_aligned m)
    (total m) n (max m) (ram m).
(** [used += n; if (max < used) max = used;] *)
Definition add_used (m : rt_small_mem) (n : Z) : rt_small_mem :=
  let n := u32 (used m + n) in
  mk_smem (given m) (self m) (heap_ptr m) (heap_end m) (lfree m) (mem_size_aligned m)
    (total m) n (if max m <? n then n else max m) (ram m).

(** The fields of the header at an address ([struct rt_small_mem_item]). *)
Definition pool_ptr (m : rt_small_mem) (mem : Z) : Z := ram m mem.
Definition next (m : rt_small_mem) (mem : Z) : Z := ram m (mem + 4).
Definition prev (m : rt_small_mem) (mem : Z) : Z := ram m (mem + 8).
Definition set_pool_ptr (m : rt_small_mem) (mem v : Z) : rt_small_mem :=
  set_ram m (store (ram m) mem v).
Definition set_next (m : rt_small_mem) (mem v : Z) : rt_small_mem :=
  set_ram m (store (ram m) (mem + 4) v).
Definition set_prev (m : rt_small_mem) (mem v : Z) : rt_small_mem :=
  set_ram m (store (ram m) (mem + 8) v).

Definition sizeof_item : Z := 12.
Definition sizeof_smem : Z := 56.
Definition MIN_SIZE : Z := 12.
Definition MEM_MASK : Z := 4294967294.
Definition MEM_USED (self : Z) : Z := Z.lor (Z.land self MEM_MASK) 1.
Definition MEM_FREED (self : Z) : Z := Z.lor (Z.land self MEM_MASK) 0.
Definition MEM_ISUSED (m : rt_small_mem) (mem : Z) : bool :=
  negb (Z.land (pool_ptr m mem) (u32 (Z.lnot MEM_MASK)) =? 0).
Definition MEM_POOL (m : rt_small_mem) (mem : Z) : Z := Z.land (pool_ptr m mem) MEM_MASK.
Definition MIN_SIZE_ALIGNED : Z := RT_ALIGN MIN_SIZE RT_ALIGN_SIZE.
Definition SIZEOF_STRUCT_MEM : Z := RT_ALIGN sizeof_item RT_ALIGN_SIZE.

(** ** Operations *)

(** [plug_holes]: the part under "plug hole forward". *)
Definition plug_forward (m : rt_small_mem) (mem : Z) : rt_small_mem :=
  let nmem := heap_ptr m + next m mem in
  if negb (mem =? nmem) && negb (MEM_ISUSED m nmem) && negb (nmem =? heap_end m) then
    let m := if lfree m =? nmem then set_lfree m mem else m in
    let m := set_pool_ptr m nmem 0 in
    let m := set_next m mem (next m nmem) in
    set_prev m (heap_ptr m + next m nmem) (mem - heap_ptr m)
  else m.

(** [plug_holes]: the part under "plug hole backward". *)
Definition plug_backward (m : rt_small_mem) (mem : Z) : rt_small_mem :=
  let pmem := heap_ptr m + prev m mem in
  if negb (pmem =? mem) && negb (MEM_ISUSED m pmem) then
    let m := if lfree m =? mem then set_lfree m pmem else m in
    let m := set_pool_ptr m mem 0 in
    let m := set_next m pmem (next m mem) in
    set_prev m (heap_ptr m + next m mem) (pmem - heap_ptr m)
  else m.

Definition plug_holes (m : rt_small_mem) (mem : Z) : result rt_small_mem :=
  _ ← rt_assert (heap_ptr m <=? mem);
  _ ← rt_assert (mem <? heap_end m);
  Ok (plug_backward (plug_forward m mem) mem).

(** [rt_smem_init], on a memory [r]; the registration of the kernel object is
    not part of the model.  [None] is [RT_NULL]. *)
Definition rt_smem_init (r : Z -> Z) (begin_addr size : Z) : option rt_small_mem :=
  let small_mem := RT_ALIGN begin_addr RT_ALIGN_SIZE in
  let start_addr := u32 (small_mem + sizeof_smem) in
  let begin_align := RT_ALIGN start_addr RT_ALIGN_SIZE in
  let end_align := RT_ALIGN_DOWN (u32 (begin_addr + size)) RT_ALIGN_SIZE in
  if (2 * SIZEOF_STRUCT_MEM <? end_align) &&
     (start_addr <=? u32 (end_align - 2 * SIZEOF_STRUCT_MEM)) then
    let mem_size := u32 (end_align - begin_align - 2 * SIZEOF_STRUCT_MEM) in
    let mem := begin_align in
    let m := mk_smem (begin_addr, size) small_mem begin_align 0 0 mem_size mem_size 0 0 r in
    let m := set_pool_ptr m mem (MEM_FREED small_mem) in
    let m := set_next m mem (u32 (mem_size + SIZEOF_STRUCT_MEM)) in
    let m := set_prev m mem 0 in
    let heap_end := heap_ptr m + next m mem in
    let m := mk_smem (begin_addr, size) small_mem begin_align heap_end 0 mem_size mem_size 0 0 (ram m) in
    let m := set_pool_ptr m heap_end (MEM_USED small_mem) in
    let m := set_next m heap_end (u32 (mem_size + SIZEOF_STRUCT_MEM)) in
    let m := set_prev m heap_end (u32 (mem_size + SIZEOF_STRUCT_MEM)) in
    Some (set_lfree m (heap_ptr m))
  else None.

(** The split of [mem] at [ptr2], shared by the two places of the source that
    write it out: a new free header [mem2] between [mem] and [mem->next]. *)
Definition split_block (m : rt_small_mem) (mem ptr ptr2 : Z) : rt_small_mem :=
  let mem2 := heap_ptr m + ptr2 in
  let m := set_pool_ptr m mem2 (MEM_FREED (self m)) in
  let m := set_next m mem2 (next m mem) in
  let m := set_prev m mem2 ptr in
  let m := set_next m mem ptr2 in
  if negb (next m mem2 =? u32 (mem_size_aligned m + SIZEOF_STRUCT_MEM)) then
    set_prev m (heap_ptr m + next m mem2) ptr2
  else m.

(** Enough iterations for any walk along the chain. *)
Definition walk_fuel (m : rt_small_mem) : nat := S (S (Z.to_nat (mem_size_aligned m))).

(** The body of the [for] loop of [rt_smem_alloc] once a block fits: the split,
    the accounting and the use bit. *)
Definition carve (m : rt_small_mem) (ptr size : Z) : rt_small_mem :=
  let mem := heap_ptr m + ptr in
  let m :=
    if u32 (u32 (size + SIZEOF_STRUCT_MEM) + MIN_SIZE_ALIGNED) <=?
         u32 (next m mem - u32 (ptr + SIZEOF_STRUCT_MEM)) then
      let ptr2 := u32 (ptr + SIZEOF_STRUCT_MEM + size) in
      let m := split_block m mem ptr ptr2 in
      add_used m (u32 (size + SIZEOF_STRUCT_MEM))
    else add_used m (u32 (next m mem - (mem - heap_ptr m))) in
  set_pool_ptr m mem (MEM_USED (self m)).

(** "Find next free block after mem and update lowest free pointer". *)
Definition next_lfree (m : rt_small_mem) : result rt_small_mem :=
  while_loop (walk_fuel m)
    (fun m => MEM_ISUSED m (lfree m) && negb (lfree m =? heap_end m))
    (fun m => Ok (set_lfree m (heap_ptr m + next m (lfree m)))) m.

Definition alloc_at (m : rt_small_mem) (ptr size : Z) : result (Z * rt_small_mem) :=
  let mem := heap_ptr m + ptr in
  let m := carve m ptr size in
  m ← (if mem =? lfree m then
         m ← next_lfree m;
         _ ← rt_assert ((lfree m =? heap_end m) || negb (MEM_ISUSED m (lfree m)));
         Ok m
       else Ok m);
  _ ← rt_assert (mem + SIZEOF_STRUCT_MEM + size <=? heap_end m);
  _ ← rt_assert ((mem + SIZEOF_STRUCT_MEM) mod RT_ALIGN_SIZE =? 0);
  _ ← rt_assert (Z.land mem (RT_ALIGN_SIZE - 1) =? 0);
  Ok (mem + SIZEOF_STRUCT_MEM, m).

(** The [for] loop of [rt_smem_alloc] from [ptr]. *)
Fixpoint alloc_from (fuel : nat) (m : rt_small_mem) (size ptr : Z)
  : result (Z * rt_small_mem) :=
  match fuel with
  | O => Fault OutOfFuel
  | S fuel =>
      if ptr <=? u32 (mem_size_aligned m - size) then
        let mem := heap_ptr m + ptr in
        if negb (MEM_ISUSED m mem) &&
           (size <=? u32 (next m mem - u32 (ptr + SIZEOF_STRUCT_MEM)))
        then alloc_at m ptr size
        else alloc_from fuel m size (next m mem)
      else Ok (RT_NULL, m)
  end.

Definition rt_smem_alloc (m : rt_small_mem) (size : Z) : result (Z * rt_small_mem) :=
  if size =? 0 then Ok (RT_NULL, m)
  else
    let size := RT_ALIGN size RT_ALIGN_SIZE in
    if mem_size_aligned m <? size then Ok (RT_NULL, m)
    else
      let size := if size <? MIN_SIZE_ALIGNED then MIN_SIZE_ALIGNED else size in
      alloc_from (walk_fuel m) m size (lfree m - heap_ptr m).

(** [rt_smem_free] from "... and is now unused" to the call of [plug_holes]. *)
Definition free_mark (m : rt_small_mem) (mem : Z) : rt_small_mem :=
  let m := set_pool_ptr m mem (MEM_FREED (self m)) in
  let m := if mem <? lfree m then set_lfree m mem else m in
  set_used m (u32 (used m - u32 (next m mem - (mem - heap_ptr m)))).

(** The source finds the object through the header; the model has one object,
    and a header that names another one is an access outside it. *)
Definition rt_smem_free (m : rt_small_mem) (rmem : Z) : result rt_small_mem :=
  if rmem =? RT_NULL then Ok m
  else
    _ ← rt_assert (Z.land rmem (RT_ALIGN_SIZE - 1) =? 0);
    let mem := rmem - SIZEOF_STRUCT_MEM in
    let small_mem := MEM_POOL m mem in
    _ ← rt_assert (negb (small_mem =? RT_NULL));
    _ ← rt_assert (MEM_ISUSED m mem);
    _ ← (if small_mem =? self m then Ok tt else Fault OutOfBounds);
    _ ← rt_assert ((heap_ptr m <=? rmem) && (rmem <? heap_end m));
    _ ← rt_assert (MEM_POOL m (heap_ptr m + next m mem) =? small_mem);
    plug_holes (free_mark m mem) mem.

(** [rt_memcpy] between two aligned addresses, [n] a multiple of 4. *)
Definition copy_words (r : Z -> Z) (dst src n : Z) : Z -> Z :=
  fun x => if (dst <=? x) && (x <? dst + n) then r (src + (x - dst)) else r x.

Definition rt_smem_realloc (m : rt_small_mem) (rmem newsize : Z)
  : result (Z * rt_small_mem) :=
  let newsize := RT_ALIGN newsize RT_ALIGN_SIZE in
  if mem_size_aligned m <? newsize then Ok (RT_NULL, m)
  else if newsize =? 0 then m ← rt_smem_free m rmem; Ok (RT_NULL, m)
  else if rmem =? RT_NULL then rt_smem_alloc m newsize
  else
    _ ← rt_assert (Z.land rmem (RT_ALIGN_SIZE - 1) =? 0);
    _ ← rt_assert (heap_ptr m <=? rmem);
    _ ← rt_assert (rmem <? heap_end m);
    let mem := rmem - SIZEOF_STRUCT_MEM in
    let ptr := mem - heap_ptr m in
    let size := u32 (next m mem - ptr - SIZEOF_STRUCT_MEM) in
    if size =? newsize then Ok (rmem, m)
    else if u32 (newsize + SIZEOF_STRUCT_MEM + MIN_SIZE) <? size then
      let m := set_used m (u32 (used m - u32 (size - newsize))) in
      let ptr2 := u32 (ptr + SIZEOF_STRUCT_MEM + newsize) in
      let mem2 := heap_ptr m + ptr2 in
      let m := split_block m mem ptr ptr2 in
      let m := if mem2 <? lfree m then set_lfree m mem2 else m in
      m ← plug_holes m mem2;
      Ok (rmem, m)
    else
      nm ← rt_smem_alloc m newsize;
      let (nmem, m) := nm : Z * rt_small_mem in
      if negb (nmem =? RT_NULL) then
        let m := set_ram m (copy_words (ram m) nmem rmem
                              (if size <? newsize then size else newsize)) in
        m ← rt_smem_free m rmem;
        Ok (nmem, m)
      else Ok (nmem, m).

(** ** Specification: a list of blocks *)

(** A block: its size, header included, and whether it is in use. *)
Record blk := Blk { bsize : Z; bused : bool }.

Fixpoint span (bs : list blk) : Z :=
  match bs with [] => 0 | b :: bs => bsize b + span bs end.

(** The offset of the lowest free block, or of the end. *)
Fixpoint first_free (bs : list blk) : Z :=
  match bs with
  | [] => 0
  | b :: bs => if bused b then bsize b + first_free bs else 0
  end.

(** First fit: the offset of the block and the new list; the rest of the block
    becomes a free block when it has room for a header and [MIN_SIZE]. *)
Fixpoint spec_alloc (n : Z) (bs : list blk) : option (Z * list blk) :=
  match bs with
  | [] => None
  | b :: bs =>
      if negb (bused b) && (n + 12 <=? bsize b) then
        Some (0, if n + 36 <=? bsize b
                 then Blk (n + 12) true :: Blk (bsize b - (n + 12)) false :: bs
                 else Blk (bsize b) true :: bs)
      else '(p, bs') ← spec_alloc n bs; Some (bsize b + p, b :: bs')
  end.

(** Merges free neighbours. *)
Definition merge_in (b : blk) (bs : list blk) : list blk :=
  match bused b, bs with
  | false, Blk s false :: bs' => Blk (bsize b + s) false :: bs'
  | _, _ => b :: bs
  end.
Definition merge (bs : list blk) : list blk := foldr merge_in [] bs.

(** Changes the block at an offset. *)
Fixpoint at_offset (f : blk -> list blk) (p : Z) (bs : list blk) : list blk :=
  match bs with
  | [] => []
  | b :: bs => if p =? 0 then f b ++ bs else b :: at_offset f (p - bsize b) bs
  end.

Definition spec_free (p : Z) (bs : list blk) : list blk :=
  merge (at_offset (fun b => [Blk (bsize b) false]) p bs).

(** Shrinking the block at an offset to [n] bytes of data. *)
Definition spec_shrink (n p : Z) (bs : list blk) : list blk :=
  merge (at_offset (fun b => [Blk (n + 12) (bused b); Blk (bsize b - (n + 12)) false]) p bs).

(** The block at offset [p] is in use and has size [s]. *)
Fixpoint live (bs : list blk) (p s : Z) : Prop :=
  match bs with
  | [] => False
  | b :: bs => (p = 0 /\ s = bsize b /\ bused b = true) \/ live bs (p - bsize b) s
  end.

Fixpoint used_of (bs : list blk) : Z :=
  match bs with [] => 0 | b :: bs => (if bused b then bsize b else 0) + used_of bs end.

(** Sizes are aligned and leave room for data. *)
Definition blk_ok (b : blk) : Prop := bsize b mod 4 = 0 /\ 12 < bsize b.

(** No two free blocks are neighbours. *)
Fixpoint separated (bs : list blk) : Prop :=
  match bs with
  | b1 :: (b2 :: _) as bs => (bused b1 = true \/ bused b2 = true) /\ separated bs
  | _ => True
  end.

(** *** Lists of blocks *)

Lemma span_app l1 l2 : span (l1 ++ l2) = span l1 + span l2.
Proof. induction l1 as [|b l1 IH]; cbn; [done|rewrite IH; lia]. Qed.
Lemma used_of_app l1 l2 : used_of (l1 ++ l2) = used_of l1 + used_of l2.
Proof. induction l1 as [|b l1 IH]; cbn; [done|rewrite IH; lia]. Qed.
Lemma span_nonneg bs : Forall blk_ok bs -> 0 <= span bs.
Proof. induction 1 as [|b bs [_ H] _ IH]; cbn; lia. Qed.
Lemma span_cases bs : Forall blk_ok bs -> span bs = 0 \/ 12 < span bs.
Proof.
  destruct 1 as [|b bs [_ H] Hf]; cbn; [by left|]. pose proof (span_nonneg _ Hf). lia.
Qed.
Lemma span_mod4 bs : Forall blk_ok bs -> span bs mod 4 = 0.
Proof. induction 1 as [|b bs [H _] _ IH]; [done|]. cbn [span]. zmod. Qed.
Lemma used_of_bounds bs : Forall blk_ok bs -> 0 <= used_of bs <= span bs.
Proof. induction 1 as [|b bs [_ H] _ IH]; cbn; [|destruct (bused b)]; lia. Qed.
Lemma span_length bs : Forall blk_ok bs -> 13 * Z.of_nat (length bs) <= span bs.
Proof. induction 1 as [|b bs [_ H] _ IH]; cbn; lia. Qed.

Lemma first_free_app l1 l2 :
  first_free (l1 ++ l2) =
    if forallb bused l1 then span l1 + first_free l2 else first_free l1.
Proof.
  induction l1 as [|b l1 IH]; cbn; [done|]. destruct (bused b); cbn; [|done].
  rewrite IH. destruct (forallb bused l1); lia.
Qed.
Lemma first_free_bounds bs : Forall blk_ok bs -> 0 <= first_free bs <= span bs.
Proof.
  induction 1 as [|b bs [_ H] Hf IH]; cbn; [lia|].
  pose proof (span_nonneg _ Hf). destruct (bused b); lia.
Qed.
Lemma first_free_all_used l : forallb bused l = true -> first_free l = span l.
Proof.
  induction l as [|b l IH]; cbn; [done|]. intros [-> H]%andb_true_iff. by rewrite IH.
Qed.
Lemma first_free_lt l : Forall blk_ok l -> forallb bused l = false -> first_free l < span l.
Proof.
  induction 1 as [|b l [_ H] Hf IH]; cbn; [done|]. pose proof (span_nonneg _ Hf).
  destruct (bused b); cbn; [intros; lia|lia].
Qed.

Lemma live_app l1 l2 p s : live (l1 ++ l2) p s <-> live l1 p s \/ live l2 (p - span l1) s.
Proof.
  revert p. induction l1 as [|b l1 IH]; intros p; cbn.
  - rewrite Z.sub_0_r. tauto.
  - rewrite IH. replace (p - bsize b - span l1) with (p - (bsize b + span l1)) by lia. tauto.
Qed.

Lemma live_split bs p s :
  live bs p s ->
  exists l1 l2, bs = l1 ++ Blk s true :: l2 /\ span l1 = p.
Proof.
  revert p. induction bs as [|[s0 u] bs IH]; intros p; cbn; [done|].
  intros [(-> & -> & ->)|H]; [by exists [], bs|].
  destruct (IH _ H) as (l1 & l2 & -> & E). exists (Blk s0 u :: l1), l2.
  cbn. split; [done|lia].
Qed.

Lemma live_mid l1 s l2 : live (l1 ++ Blk s true :: l2) (span l1) s.
Proof. rewrite live_app. right. cbn. left. split; [lia|done]. Qed.

Lemma at_offset_mid f l1 b l2 :
  Forall blk_ok l1 -> at_offset f (span l1) (l1 ++ b :: l2) = l1 ++ f b ++ l2.
Proof.
  induction 1 as [|c l1 [_ H] Hf IH]; cbn; [done|]. pose proof (span_nonneg _ Hf).
  replace (bsize c + span l1 =? 0) with false by lia.
  replace (bsize c + span l1 - bsize c) with (span l1) by lia. by rewrite IH.
Qed.

Lemma separated_app l1 b l2 :
  separated (l1 ++ b :: l2) <->
  separated (l1 ++ [b]) /\ separated (b :: l2).
Proof.
  induction l1 as [|c l1 IH]; [cbn; tauto|].
  destruct l1 as [|d l1]; cbn in *; tauto.
Qed.

Lemma merge_separated bs : separated bs -> merge bs = bs.
Proof.
  induction bs as [|b bs IH]; [done|]. intros H. change (merge (b :: bs)) with (merge_in b (merge bs)).
  rewrite IH by (destruct bs; [done|apply H]).
  unfold merge_in. destruct b as [s []]; cbn; [done|].
  destruct bs as [|[s' []] bs]; cbn in *; try done. by destruct H as [[]].
Qed.

Lemma merge_in_facts b bs :
  span (merge_in b bs) = bsize b + span bs /\
  used_of (merge_in b bs) = used_of (b :: bs) /\
  first_free (merge_in b bs) = first_free (b :: bs) /\
  (separated bs -> separated (merge_in b bs)) /\
  (blk_ok b -> Forall blk_ok bs -> Forall blk_ok (merge_in b bs)) /\
  (forall p s, live (merge_in b bs) p s <-> live (b :: bs) p s).
Proof.
  unfold merge_in. destruct b as [s []].
  { split_and!; try done; [|by constructor]. intros H. destruct bs; [done|].
    split; [by left|done]. }
  destruct bs as [|[s' []] bs]; cbn; split_and!; try done; try lia.
  - by constructor.
  - intros H. split; [by right|done].
  - by constructor.
  - intros [H1 H1'] [[H2 H2'] H3]%Forall_cons. cbn in *. constructor; [split; cbn; zmod|done].
  - intros p n. replace (p - (s + s')) with (p - s - s') by lia.
    split; [intros [(_ & _ & ?)|H]; [done|tauto]|].
    intros [(_ & _ & ?)|[(_ & _ & ?)|H]]; try done. tauto.
Qed.

Lemma span_merge bs : span (merge bs) = span bs.
Proof.
  induction bs as [|b bs IH]; [done|]. change (merge _) with (merge_in b (merge bs)).
  rewrite (proj1 (merge_in_facts _ _)), IH. done.
Qed.
Lemma used_of_merge bs : used_of (merge bs) = used_of bs.
Proof.
  induction bs as [|b bs IH]; [done|]. change (merge _) with (merge_in b (merge bs)).
  destruct (merge_in_facts b (merge bs)) as (_ & -> & _). cbn. by rewrite IH.
Qed.
Lemma first_free_merge bs : first_free (merge bs) = first_free bs.
Proof.
  induction bs as [|b bs IH]; [done|]. change (merge _) with (merge_in b (merge bs)).
  destruct (merge_in_facts b (merge bs)) as (_ & _ & -> & _). cbn. by rewrite IH.
Qed.
Lemma separated_merge bs : separated (merge bs).
Proof.
  induction bs as [|b bs IH]; [done|]. change (merge _) with (merge_in b (merge bs)).
  by apply merge_in_facts.
Qed.
Lemma blk_ok_merge bs : Forall blk_ok bs -> Forall blk_ok (merge bs).
Proof.
  induction 1 as [|b bs Hb Hbs IH]; [done|]. change (merge _) with (merge_in b (merge bs)).
  by apply merge_in_facts.
Qed.
Lemma live_merge bs p s : live (merge bs) p s <-> live bs p s.
Proof.
  revert p. induction bs as [|b bs IH]; intros p; [done|].
  change (merge (b :: bs)) with (merge_in b (merge bs)).
  destruct (merge_in_facts b (merge bs)) as (_ & _ & _ & _ & _ & ->). cbn. by rewrite IH.
Qed.

Lemma foldr_merge_separated l b r :
  separated (l ++ [b]) -> foldr merge_in (b :: r) l = l ++ b :: r.
Proof.
  induction l as [|c l IH]; intros H; [done|]. cbn [foldr app] in *.
  assert (separated (l ++ [b])) as H' by (destruct l; [done|apply H]).
  rewrite IH by done. unfold merge_in. destruct c as [sc []]; cbn; [done|].
  destruct l as [|[sd []] l]; cbn in *.
  - destruct b as [sb []]; [done|]. by destruct H as [[]].
  - done.
  - by destruct H as [[]].
Qed.

Lemma separated_tag l b b' : bused b = bused b' -> separated (l ++ [b]) -> separated (l ++ [b']).
Proof.
  intros E. induction l as [|c l IH]; [done|].
  destruct l as [|d l]; cbn in *; rewrite ?E; tauto.
Qed.

(** Freeing one block between separated lists merges at most its two neighbours. *)
Lemma merge_mid l1 b l2 :
  separated l1 -> separated l2 ->
  merge (l1 ++ b :: l2) =
    match bused b, last l1 with
    | false, Some (Blk s0 false) => removelast l1 ++
        match merge_in b l2 with
        | b' :: r => Blk (s0 + bsize b') false :: r
        | [] => []
        end
    | _, _ => l1 ++ merge_in b l2
    end.
Proof.
  intros H1 H2. unfold merge. rewrite foldr_app. cbn [foldr].
  change (foldr merge_in [] l2) with (merge l2). rewrite (merge_separated l2) by done.
  assert (exists s r, merge_in b l2 = Blk s (bused b) :: r) as (s & r & E).
  { unfold merge_in. destruct b as [s []]; [by eexists _, _|].
    destruct l2 as [|[s' []] l2]; by eexists _, _. }
  rewrite E. destruct l1 as [|c l1] using rev_ind; [by destruct (bused b)|clear IHl1].
  rewrite last_snoc, removelast_last, foldr_app. cbn [foldr].
  assert (bused b = true \/ bused c = true -> merge_in c (Blk s (bused b) :: r)
          = c :: Blk s (bused b) :: r) as Hc.
  { unfold merge_in. destruct c as [? []], (bused b); try done. by intros [|]. }
  destruct (bused b) eqn:Eb, c as [sc []]; cbn [bsize].
  - rewrite Hc by tauto. rewrite foldr_merge_separated by done. by rewrite <- app_assoc.
  - rewrite Hc by tauto. rewrite foldr_merge_separated by done. by rewrite <- app_assoc.
  - rewrite Hc by tauto. rewrite foldr_merge_separated by done. by rewrite <- app_assoc.
  - cbn. rewrite foldr_merge_separated; [done|].
    eapply (separated_tag _ (Blk sc false)); done.
Qed.

(** What first fit finds. *)
Lemma spec_alloc_Some n bs p bs' :
  spec_alloc n bs = Some (p, bs') ->
  exists l1 s l2, bs = l1 ++ Blk s false :: l2 /\ p = span l1 /\ n + 12 <= s /\
    Forall (fun b => bused b = true \/ bsize b < n + 12) l1 /\
    bs' = l1 ++ (if n + 36 <=? s then [Blk (n + 12) true; Blk (s - (n + 12)) false]
                 else [Blk s true]) ++ l2.
Proof.
  revert p bs'. induction bs as [|[s u] bs IH]; intros p bs'; cbn; [done|].
  destruct (negb u && (n + 12 <=? s)) eqn:E.
  - intros [= <- <-]. exists [], s, bs. destruct u; [done|]. cbn.
    split_and!; try done; try lia. by destruct (n + 36 <=? s).
  - destruct (spec_alloc n bs) as [[p0 bs0]|]; [|done]. cbn. intros [= <- <-].
    destruct (IH _ _ eq_refl) as (l1 & s1 & l2 & -> & -> & Hs & Hf & ->).
    exists (Blk s u :: l1), s1, l2. cbn. split_and!; try done.
    constructor; [|done]. cbn. destruct u; [by left|right; lia].
Qed.

Lemma spec_alloc_None n bs :
  spec_alloc n bs = None <-> Forall (fun b => bused b = true \/ bsize b < n + 12) bs.
Proof.
  induction bs as [|[s u] bs IH]; cbn; [done|]. rewrite Forall_cons. cbn.
  destruct u; cbn.
  - destruct (spec_alloc n bs) as [[]|]; cbn; [|tauto].
    split; [done|]. intros [_ H]. by apply IH in H.
  - destruct (n + 12 <=? s) eqn:E.
    + split; [done|]. intros [[?|?] _]; [done|lia].
    + destruct (spec_alloc n bs) as [[]|]; cbn.
      * split; [done|]. intros [_ H]. by apply IH in H.
      * split; [|done]. intros _. split; [right; lia|tauto].
Qed.

(** ** The list a memory holds *)

Definition tag (self : Z) (u : bool) : Z := if u then MEM_USED self else MEM_FREED self.
Arguments tag : simpl never.

(** The headers of [bs], the first at offset [p] with previous header [v]. *)
Fixpoint seg (r : Z -> Z) (hp self p v : Z) (bs : list blk) : Prop :=
  match bs with
  | [] => True
  | b :: bs => r (hp + p) = tag self (bused b) /\ r (hp + p + 4) = p + bsize b /\
      r (hp + p + 8) = v /\ seg r hp self (p + bsize b) p bs
  end.

Fixpoint lastpos (p v : Z) (bs : list blk) : Z :=
  match bs with [] => v | b :: bs => lastpos (p + bsize b) p bs end.

(** The offsets of the header words, and of the data of the blocks in use. *)
Fixpoint hdr (p : Z) (bs : list blk) (a : Z) : Prop :=
  match bs with
  | [] => False
  | b :: bs => a = p \/ a = p + 4 \/ a = p + 8 \/ hdr (p + bsize b) bs a
  end.
Fixpoint data (p : Z) (bs : list blk) (a : Z) : Prop :=
  match bs with
  | [] => False
  | b :: bs => (bused b = true /\ p + 12 <= a < p + bsize b) \/ data (p + bsize b) bs a
  end.

Definition heap_ok (r : Z -> Z) (hp self : Z) (bs : list blk) : Prop :=
  seg r hp self 0 0 bs /\ r (hp + span bs) = tag self true /\
  r (hp + span bs + 4) = span bs.

Lemma seg_app r hp self p v l1 l2 :
  seg r hp self p v (l1 ++ l2) <->
  seg r hp self p v l1 /\ seg r hp self (p + span l1) (lastpos p v l1) l2.
Proof.
  revert p v. induction l1 as [|b l1 IH]; intros p v; cbn.
  - rewrite Z.add_0_r. tauto.
  - rewrite IH. replace (p + bsize b + span l1) with (p + (bsize b + span l1)) by lia. tauto.
Qed.

Lemma hdr_app p l1 l2 a : hdr p (l1 ++ l2) a <-> hdr p l1 a \/ hdr (p + span l1) l2 a.
Proof.
  revert p. induction l1 as [|b l1 IH]; intros p; cbn.
  - rewrite Z.add_0_r. tauto.
  - rewrite IH. replace (p + bsize b + span l1) with (p + (bsize b + span l1)) by lia. tauto.
Qed.

Lemma data_app p l1 l2 a : data p (l1 ++ l2) a <-> data p l1 a \/ data (p + span l1) l2 a.
Proof.
  revert p. induction l1 as [|b l1 IH]; intros p; cbn.
  - rewrite Z.add_0_r. tauto.
  - rewrite IH. replace (p + bsize b + span l1) with (p + (bsize b + span l1)) by lia. tauto.
Qed.

Lemma hdr_bounds p bs a : Forall blk_ok bs -> hdr p bs a -> p <= a < p + span bs - 4.
Proof.
  intros H. revert p. induction H as [|b bs [_ Hb] Hf IH]; intros p; cbn; [done|].
  pose proof (span_nonneg _ Hf). intros [->|[->|[->|Ha]]]; try lia. apply IH in Ha. lia.
Qed.
Lemma data_bounds p bs a : Forall blk_ok bs -> data p bs a -> p + 12 <= a < p + span bs.
Proof.
  intros H. revert p. induction H as [|b bs [_ Hb] Hf IH]; intros p; cbn; [done|].
  pose proof (span_nonneg _ Hf). intros [[_ Ha]|Ha]; try lia. apply IH in Ha. lia.
Qed.
Lemma hdr_not_data p bs a : Forall blk_ok bs -> hdr p bs a -> data p bs a -> False.
Proof.
  intros H. revert p. induction H as [|b bs [Hb' Hb] Hf IH]; intros p; cbn; [done|].
  intros Hh [[_ Hd]|Hd].
  - destruct Hh as [->|[->|[->|Hh]]]; try lia. apply hdr_bounds in Hh; [lia|done].
  - destruct Hh as [->|[->|[->|Hh]]]; [apply data_bounds in Hd; [lia|done]..|eauto].
Qed.

Lemma live_data bs p q s a : live bs q s -> q + 12 <= a < q + s -> data p bs (p + a).
Proof.
  revert p q a. induction bs as [|b bs IH]; intros p q a; cbn; [done|].
  intros [(-> & -> & Hu)|H] Ha; [left; split; [done|lia]|right].
  replace (p + a) with (p + bsize b + (a - bsize b)) by lia.
  eapply IH; [done|lia].
Qed.

Lemma seg_frame r r' hp self p v bs :
  (forall a, hdr p bs a -> r' (hp + a) = r (hp + a)) ->
  seg r hp self p v bs -> seg r' hp self p v bs.
Proof.
  revert p v. induction bs as [|b bs IH]; intros p v Ha; cbn; [done|].
  cbn in Ha. intros (H1 & H2 & H3 & H4). split_and!.
  - rewrite Ha by tauto. done.
  - rewrite <- Z.add_assoc, Ha by tauto. by rewrite Z.add_assoc.
  - rewrite <- Z.add_assoc, Ha by tauto. by rewrite Z.add_assoc.
  - apply IH; [|done]. intros a Hh. apply Ha. tauto.
Qed.

(** Only the headers and the sentinel matter. *)
Lemma heap_frame r r' hp self bs :
  (forall a, hdr 0 bs a \/ a = span bs \/ a = span bs + 4 -> r' (hp + a) = r (hp + a)) ->
  heap_ok r hp self bs -> heap_ok r' hp self bs.
Proof.
  intros Ha (H1 & H2 & H3). split_and!.
  - eapply seg_frame; [|done]. intros a Hh. apply Ha. tauto.
  - rewrite Ha by tauto. done.
  - rewrite <- Z.add_assoc, Ha by tauto. by rewrite Z.add_assoc.
Qed.

Lemma store_ne r a v x : x <> a -> store r a v x = r x.
Proof. intros H. unfold store. destruct (Z.eqb_spec x a); done. Qed.
Lemma store_eq r a v x : x = a -> store r a v x = v.
Proof. intros ->. unfold store. by rewrite Z.eqb_refl. Qed.

(** Reads through a chain of stores. *)
Ltac stores := repeat first [rewrite store_eq by lia | rewrite store_ne by lia].

Section Heap.
Context (hp slf : Z).

(** The block after a point of the list gets a new previous header, and
    nothing else changes. *)
Lemma seg_set_prev r p v v' l :
  Forall blk_ok l -> seg r hp slf p v l -> seg (store r (hp + p + 8) v') hp slf p v' l.
Proof.
  intros Hok. destruct l as [|b l]; [done|]. apply Forall_cons in Hok as [[_ Hb] Hok].
  cbn. intros (H1 & H2 & H3 & H4). stores. split_and!; try done.
  eapply seg_frame; [|exact H4]. intros a Ha. apply hdr_bounds in Ha; [|done].
  by rewrite store_ne by lia.
Qed.

Lemma seg_store_out r p v l a w :
  Forall blk_ok l -> a < hp + p \/ hp + p + span l <= a ->
  seg r hp slf p v l -> seg (store r a w) hp slf p v l.
Proof.
  intros Hok Ha. apply seg_frame. intros x Hx. apply hdr_bounds in Hx; [|done].
  by rewrite store_ne by lia.
Qed.

(** Merging a free block into the one before it. *)
Lemma heap_join r l1 s1 u s2 l2 :
  let p1 := span l1 in let p2 := p1 + s1 in let n := p2 + s2 in
  Forall blk_ok (l1 ++ Blk s1 u :: Blk s2 false :: l2) ->
  heap_ok r hp slf (l1 ++ Blk s1 u :: Blk s2 false :: l2) ->
  heap_ok (store (store (store r (hp + p2) 0) (hp + p1 + 4) n) (hp + n + 8) p1) hp slf
    (l1 ++ Blk (s1 + s2) u :: l2).
Proof.
  intros p1 p2 n Hok (Hs & Ht & Hn).
  apply Forall_app in Hok as [Hok1 [[_ Hb1] [[_ Hb2] Hok2]%Forall_cons]%Forall_cons].
  cbn in Hb1, Hb2. pose proof (span_nonneg _ Hok1). pose proof (span_cases _ Hok2).
  apply seg_app in Hs as [Hs1 Hs2]. cbn in Hs2.
  destruct Hs2 as (Q1 & Q2 & Q3 & _ & Q5 & _ & Hs2).
  rewrite span_app in Ht, Hn. cbn in Ht, Hn. subst p1 p2 n.
  unfold heap_ok. rewrite seg_app, span_app. cbn. split_and!; stores; try done; try lia.
  - by repeat (apply seg_store_out; [done|lia|]).
  - replace (span l1 + s1 + s2) with (span l1 + (s1 + s2)) by lia.
    eapply seg_set_prev; [done|].
    repeat (apply seg_store_out; [done|lia|]).
    by replace (0 + span l1 + (s1 + s2)) with (0 + span l1 + s1 + s2) by lia.
  - rewrite <- Ht. f_equal. lia.
  - replace (hp + _ + 4) with (hp + (span l1 + (s1 + (s2 + span l2))) + 4) by lia. lia.
Qed.

(** Splitting a block: the second part is free.  [set] tells whether the
    header after it is told. *)
Lemma heap_split r l1 s u t l2 :
  let p1 := span l1 in let p2 := p1 + t in let n := p1 + s in
  Forall blk_ok (l1 ++ Blk s u :: l2) -> 12 < t -> 12 < s - t ->
  heap_ok r hp slf (l1 ++ Blk s u :: l2) ->
  let r1 := store (store (store (store r (hp + p2) (MEM_FREED slf)) (hp + p2 + 4) n)
                    (hp + p2 + 8) p1) (hp + p1 + 4) p2 in
  heap_ok (if n =? span (l1 ++ Blk s u :: l2) then r1 else store r1 (hp + n + 8) p2) hp slf
    (l1 ++ Blk t u :: Blk (s - t) false :: l2).
Proof.
  intros p1 p2 n Hok Ht1 Ht2 (Hs & Ht & Hn) r1.
  apply Forall_app in Hok as [Hok1 [[_ Hb1] Hok2]%Forall_cons].
  cbn in Hb1. pose proof (span_nonneg _ Hok1). pose proof (span_cases _ Hok2).
  apply seg_app in Hs as [Hs1 Hs2]. cbn in Hs2. destruct Hs2 as (Q1 & Q2 & Q3 & Hs2).
  rewrite span_app in Ht, Hn |- *. cbn [span bsize] in *.
  assert (heap_ok (store r1 (hp + n + 8) p2) hp slf (l1 ++ Blk t u :: Blk (s - t) false :: l2))
    as Hall.
  { subst r1 p1 p2 n. unfold heap_ok. rewrite seg_app, span_app. cbn.
    split_and!; stores; try done; try lia.
    - by repeat (apply seg_store_out; [done|lia|]).
    - replace (span l1 + s) with (0 + span l1 + t + (s - t)) by lia.
      eapply seg_set_prev; [done|]. repeat (apply seg_store_out; [done|lia|]).
      by replace (0 + span l1 + t + (s - t)) with (0 + span l1 + s) by lia.
    - rewrite <- Ht. f_equal. lia.
    - replace (hp + _ + 4) with (hp + (span l1 + (s + span l2)) + 4) by lia. lia. }
  destruct (n =? _) eqn:E; [|done].
  revert Hall. apply heap_frame. intros a Ha. rewrite store_ne; [done|].
  rewrite hdr_app, span_app in Ha. cbn in Ha. subst n p1 p2.
  assert (l2 = []) as ->.
  { destruct l2 as [|c l2]; [done|apply Forall_cons in Hok2 as [[_ Hc] Hok2]].
    pose proof (span_nonneg _ Hok2). cbn in E. lia. }
  cbn in *. destruct Ha as [[Ha|Ha]|Ha]; [apply hdr_bounds in Ha; [lia|done]|lia|lia].
Qed.

(** Changing the use bit of a block. *)
Lemma heap_tag r l1 s u u' l2 :
  Forall blk_ok (l1 ++ Blk s u :: l2) ->
  heap_ok r hp slf (l1 ++ Blk s u :: l2) ->
  heap_ok (store r (hp + span l1) (tag slf u')) hp slf (l1 ++ Blk s u' :: l2).
Proof.
  intros Hok (Hs & Ht & Hn). apply Forall_app in Hok as [Hok1 [[_ Hb1] Hok2]%Forall_cons].
  cbn in Hb1. pose proof (span_nonneg _ Hok1). pose proof (span_nonneg _ Hok2).
  apply seg_app in Hs as [Hs1 Hs2]. cbn in Hs2. destruct Hs2 as (Q1 & Q2 & Q3 & Hs2).
  rewrite span_app in Ht, Hn. cbn [span bsize] in *.
  unfold heap_ok. rewrite seg_app, span_app. cbn. split_and!; stores; try done; try lia.
  - by apply seg_store_out; [done|lia|].
  - by apply seg_store_out; [done|lia|].
Qed.

End Heap.

(** ** The state of the allocator and the list *)

Lemma land_mask z : 0 <= z < 2 ^ 32 -> Z.land z MEM_MASK = z - z mod 2.
Proof.
  intros Hz. assert (Z.land z MEM_MASK = Z.land z (Z.lnot 1)) as ->.
  { apply Z.bits_inj'. intros n Hn. rewrite !Z.land_spec.
    destruct (decide (n < 32)) as [H|H].
    - f_equal. change MEM_MASK with (Z.lnot 1 mod 2 ^ 32).
      by rewrite Z.mod_pow2_bits_low by lia.
    - replace (Z.testbit z n) with false; [done|]. symmetry.
      rewrite <- (Z.mod_small z (2 ^ 32)) by lia. apply Z.mod_pow2_bits_high. lia. }
  change (Z.lnot 1) with (Z.lnot (Z.ones 1)).
  rewrite <- Z.ldiff_land, Z.ldiff_ones_r by lia.
  rewrite Z.shiftl_mul_pow2, Z.shiftr_div_pow2 by lia. zmod.
Qed.

Lemma land_1 z : Z.land z (u32 (Z.lnot MEM_MASK)) = z mod 2.
Proof. change (u32 (Z.lnot MEM_MASK)) with (Z.ones 1). apply Z.land_ones. lia. Qed.

Lemma tag_val self u :
  0 < self < 2 ^ 32 -> self mod 4 = 0 -> tag self u = self + Z.b2z u.
Proof.
  intros H H4. unfold tag, MEM_USED, MEM_FREED. rewrite land_mask by lia.
  replace (self - self mod 2) with self by zmod. destruct u; cbn; [|by rewrite Z.lor_0_r; lia].
  assert (Z.land self 1 = 0) as Hl.
  { change 1 with (Z.ones 1) at 1. rewrite Z.land_ones by lia. zmod. }
  rewrite <- Z.lxor_lor, <- Z.add_nocarry_lxor; done.
Qed.

(** What does not change during the life of the heap. *)
Record geometry (m : rt_small_mem) : Prop := {
  geo_self : 0 < self m < 2 ^ 32; geo_self4 : self m mod 4 = 0;
  geo_heap : 0 < heap_ptr m; geo_heap4 : heap_ptr m mod 4 = 0;
  geo_size : 12 <= mem_size_aligned m; geo_size4 : mem_size_aligned m mod 4 = 0;
  geo_top : heap_ptr m + mem_size_aligned m + 24 <= 2 ^ 32;
  geo_end : heap_end m = heap_ptr m + (mem_size_aligned m + 12);
  geo_given : fst (given m) <= heap_ptr m /\ heap_ptr m + mem_size_aligned m + 24 <= fst (given m) + snd (given m) }.

(** [bs] is the chain in memory; [lfree] is its lowest free block. *)
Record layout (m : rt_small_mem) (bs : list blk) : Prop := {
  lay_geo : geometry m;
  lay_span : span bs = mem_size_aligned m + 12;
  lay_ok : Forall blk_ok bs;
  lay_free : lfree m = heap_ptr m + first_free bs;
  lay_heap : heap_ok (ram m) (heap_ptr m) (self m) bs }.

(** The invariant of the allocator. *)
Record rep (m : rt_small_mem) (bs : list blk) : Prop := {
  rep_lay : layout m bs;
  rep_sep : separated bs;
  rep_used : used m = used_of bs;
  rep_max : used m <= max m < 2 ^ 32 }.

(** The object is the same, and so is the data of the blocks of [bs] in use. *)
Record same_heap (m m' : rt_small_mem) (bs : list blk) : Prop := {
  same_given : given m' = given m; same_self : self m' = self m; same_heap_ptr : heap_ptr m' = heap_ptr m;
  same_end : heap_end m' = heap_end m;
  same_size : mem_size_aligned m' = mem_size_aligned m; same_total : total m' = total m;
  same_data : forall a, data 0 bs a -> ram m' (heap_ptr m + a) = ram m (heap_ptr m + a) }.

Lemma same_heap_refl m bs : same_heap m m bs.
Proof. by split. Qed.

Lemma same_heap_trans m1 m2 m3 bs bs' :
  same_heap m1 m2 bs -> same_heap m2 m3 bs' ->
  (forall a, data 0 bs a -> data 0 bs' a) -> same_heap m1 m3 bs.
Proof.
  intros [] [] H. split; try congruence. intros a Ha.
  rewrite <- same_data0 by done. rewrite <- same_heap_ptr0. auto.
Qed.

Lemma same_geometry m m' bs : same_heap m m' bs -> geometry m -> geometry m'.
Proof. intros [] []. split; congruence. Qed.

Section Reads.
Context (m : rt_small_mem) (l1 l2 : list blk).

Lemma heap_read_used :
  layout m (l1 ++ l2) ->
  MEM_ISUSED m (heap_ptr m + span l1) = match l2 with b :: _ => bused b | [] => true end.
Proof.
  intros [[] _ _ _ (Hs & Ht & _)]. apply seg_app in Hs as [_ Hs].
  rewrite Z.add_0_l in Hs.
  unfold MEM_ISUSED, pool_ptr. rewrite land_1. destruct l2 as [|b l2'].
  - rewrite app_nil_r in Ht. rewrite Ht, tag_val by done. cbn. zmod.
  - cbn in Hs. destruct Hs as (-> & _). rewrite tag_val by done. destruct (bused b); cbn; zmod.
Qed.

Lemma heap_read_pool :
  layout m (l1 ++ l2) -> MEM_POOL m (heap_ptr m + span l1) = self m.
Proof.
  intros [[] _ _ _ (Hs & Ht & _)]. apply seg_app in Hs as [_ Hs].
  rewrite Z.add_0_l in Hs.
  unfold MEM_POOL, pool_ptr. destruct l2 as [|b l2'].
  - rewrite app_nil_r in Ht. rewrite Ht, tag_val by done. rewrite land_mask by (cbn; zmod).
    cbn. zmod.
  - cbn in Hs. destruct Hs as (-> & _). rewrite tag_val by done.
    rewrite land_mask by (destruct (bused b); cbn; zmod). destruct (bused b); cbn; zmod.
Qed.

Lemma heap_read_next b :
  layout m (l1 ++ b :: l2) -> next m (heap_ptr m + span l1) = span l1 + bsize b.
Proof.
  intros [_ _ _ _ (Hs & _)]. apply seg_app in Hs as [_ Hs].
  rewrite Z.add_0_l in Hs. cbn in Hs.
  unfold next. by destruct Hs as (_ & -> & _).
Qed.

Lemma heap_read_prev b :
  layout m (l1 ++ b :: l2) -> prev m (heap_ptr m + span l1) = lastpos 0 0 l1.
Proof.
  intros [_ _ _ _ (Hs & _)]. apply seg_app in Hs as [_ Hs].
  rewrite Z.add_0_l in Hs. cbn in Hs.
  unfold prev. by destruct Hs as (_ & _ & -> & _).
Qed.

End Reads.

Lemma lastpos_snoc p v l b : lastpos p v (l ++ [b]) = p + span l.
Proof.
  revert p v. induction l as [|c l IH]; intros p v; cbn; [lia|]. rewrite IH. lia.
Qed.

(** ** [plug_holes] *)

(** One merge, as both halves of [plug_holes] do it. *)
Lemma layout_join m l1 s1 s2 l2 r :
  layout m (l1 ++ Blk s1 false :: Blk s2 false :: l2) ->
  r = store (store (store (ram m) (heap_ptr m + (span l1 + s1)) 0)
        (heap_ptr m + span l1 + 4) (span l1 + s1 + s2))
        (heap_ptr m + (span l1 + s1 + s2) + 8) (span l1) ->
  layout (set_ram m r) (l1 ++ Blk (s1 + s2) false :: l2) /\
  same_heap m (set_ram m r) (l1 ++ Blk s1 false :: Blk s2 false :: l2).
Proof.
  intros [Hg Hsp Hok Hf Hh] ->. split; [split|split]; try done.
  - by destruct Hg.
  - cbn. rewrite <- Hsp, !span_app. cbn. lia.
  - apply Forall_app in Hok as [? [[] [[] ?]%Forall_cons]%Forall_cons].
    cbn in *. apply Forall_app. split; [done|]. constructor; [split; cbn; zmod|done].
  - cbn. rewrite Hf, !first_free_app. done.
  - by apply heap_join.
  - intros a Ha. cbn.
    apply Forall_app in Hok as [Ho1 [[_ H1] [[_ H2] Ho2]%Forall_cons]%Forall_cons].
    cbn in H1, H2. rewrite data_app in Ha. cbn in Ha.
    destruct Ha as [Ha|[[? _]|[[? _]|Ha]]]; try done; apply data_bounds in Ha; try done;
      pose proof (span_nonneg _ Ho1); by stores.
Qed.

Lemma plug_forward_spec m l1 s l2 :
  layout m (l1 ++ Blk s false :: l2) ->
  let m' := plug_forward m (heap_ptr m + span l1) in
  layout m' (l1 ++ merge_in (Blk s false) l2) /\
  same_heap m m' (l1 ++ Blk s false :: l2) /\ used m' = used m /\ max m' = max m.
Proof.
  intros Hl. unfold plug_forward. rewrite (heap_read_next m l1 l2 _ Hl). cbn [bsize].
  pose proof (lay_ok _ _ Hl) as Hok.
  apply Forall_app in Hok as [Ho1 [[_ H1] Ho2]%Forall_cons]. cbn in H1.
  assert (span (l1 ++ [Blk s false]) = span l1 + s) as Hsp by (rewrite span_app; cbn; lia).
  rewrite <- Hsp. pose proof Hl as Hl'. change (Blk s false :: l2) with ([Blk s false] ++ l2) in Hl'.
  rewrite app_assoc in Hl'. rewrite (heap_read_used m _ _ Hl').
  replace (heap_ptr m + span l1 =? _) with false by lia.
  destruct l2 as [|[s2 []] l2]; [done|done|]. cbn [merge_in bused bsize negb andb].
  apply Forall_cons in Ho2 as [[_ H2] Ho2]. cbn in H2.
  pose proof (lay_span _ _ Hl) as Htot. rewrite span_app in Htot. cbn in Htot.
  pose proof (span_nonneg _ Ho2). rewrite (geo_end _ (lay_geo _ _ Hl)).
  replace (heap_ptr m + span _ =? heap_ptr m + _) with false by lia. cbn [negb].
  assert (first_free (l1 ++ Blk s false :: Blk s2 false :: l2) <= span l1) as Hff.
  { rewrite first_free_app. cbn. pose proof (first_free_bounds _ Ho1).
    destruct (forallb bused l1); lia. }
  replace (lfree m =? _) with false by (rewrite (lay_free _ _ Hl); lia).
  edestruct (layout_join m l1 s s2 l2) as [HL HS]; [done|reflexivity|].
  pose proof (heap_read_next m _ _ _ Hl') as Hn. cbn [bsize] in Hn.
  match goal with |- layout ?m' _ /\ _ => enough (m' = set_ram m
    (store (store (store (ram m) (heap_ptr m + (span l1 + s)) 0)
        (heap_ptr m + span l1 + 4) (span l1 + s + s2))
        (heap_ptr m + (span l1 + s + s2) + 8) (span l1))) as -> by done end.
  unfold set_prev, set_next, set_pool_ptr, next in *. cbn [ram heap_ptr set_ram]. stores.
  rewrite Hn, Hsp. f_equal. f_equal. lia.
Qed.

Lemma plug_backward_spec m l1 s l2 :
  layout m (l1 ++ Blk s false :: l2) ->
  let m' := plug_backward m (heap_ptr m + span l1) in
  layout m' (match last l1 with
             | Some (Blk s0 false) => removelast l1 ++ Blk (s0 + s) false :: l2
             | _ => l1 ++ Blk s false :: l2 end) /\
  same_heap m m' (l1 ++ Blk s false :: l2) /\ used m' = used m /\ max m' = max m.
Proof.
  intros Hl. unfold plug_backward. rewrite (heap_read_prev m l1 l2 _ Hl).
  destruct l1 as [|[s0 u] l1] using rev_ind; [|clear IHl1].
  { cbn. rewrite Z.eqb_refl. done. }
  rewrite lastpos_snoc, Z.add_0_l, last_snoc, removelast_last.
  pose proof (lay_ok _ _ Hl) as Hok. rewrite <- app_assoc in Hok.
  apply Forall_app in Hok as [Ho1 [[_ H0] [[_ H1] Ho2]%Forall_cons]%Forall_cons].
  cbn in H0, H1. pose proof Hl as Hl'. rewrite <- app_assoc in Hl'. cbn [app] in Hl'.
  rewrite (heap_read_used m _ _ Hl').
  assert (span (l1 ++ [Blk s0 u]) = span l1 + s0) as Hsp by (rewrite span_app; cbn; lia).
  replace (heap_ptr m + span l1 =? _) with false by lia.
  destruct u; [done|]. cbn [bused negb andb].
  assert (first_free (l1 ++ Blk s0 false :: Blk s false :: l2) <= span l1) as Hff.
  { rewrite first_free_app. cbn. pose proof (first_free_bounds _ Ho1).
    destruct (forallb bused l1); lia. }
  replace (lfree m =? _) with false by (rewrite (lay_free _ _ Hl'), Hsp; lia).
  edestruct (layout_join m l1 s0 s l2) as [HL HS]; [done|reflexivity|].
  pose proof (heap_read_next m _ _ _ Hl) as Hn. cbn [bsize] in Hn. rewrite <- app_assoc.
  match goal with |- layout ?m' _ /\ _ => enough (m' = set_ram m
    (store (store (store (ram m) (heap_ptr m + (span l1 + s0)) 0)
        (heap_ptr m + span l1 + 4) (span l1 + s0 + s))
        (heap_ptr m + (span l1 + s0 + s) + 8) (span l1))) as -> by done end.
  unfold set_prev, set_next, set_pool_ptr, next in *. cbn [ram heap_ptr set_ram]. stores.
  rewrite Hn, Hsp. f_equal. f_equal. lia.
Qed.

Lemma plug_holes_spec m l1 s l2 :
  layout m (l1 ++ Blk s false :: l2) -> separated l1 -> separated l2 ->
  exists m', plug_holes m (heap_ptr m + span l1) = Ok m' /\
    layout m' (merge (l1 ++ Blk s false :: l2)) /\
    same_heap m m' (l1 ++ Blk s false :: l2) /\ used m' = used m /\ max m' = max m.
Proof.
  intros Hl Hs1 Hs2. unfold plug_holes. pose proof (lay_ok _ _ Hl) as Hok.
  apply Forall_app in Hok as [Ho1 [[_ H1] Ho2]%Forall_cons]. cbn in H1.
  pose proof (lay_span _ _ Hl) as Htot. rewrite span_app in Htot. cbn in Htot.
  pose proof (span_nonneg _ Ho1). pose proof (span_nonneg _ Ho2).
  rewrite (geo_end _ (lay_geo _ _ Hl)).
  replace (heap_ptr m <=? _) with true by lia.
  replace (heap_ptr m + span l1 <? _) with true by lia. cbn [rt_assert mbind result_bind].
  eexists. split; [reflexivity|].
  destruct (plug_forward_spec m l1 s l2 Hl) as (HL & HS & HU & HM).
  set (m1 := plug_forward m (heap_ptr m + span l1)) in *. clearbody m1.
  assert (exists s' l2', merge_in (Blk s false) l2 = Blk s' false :: l2') as (s' & l2' & E).
  { unfold merge_in. destruct l2 as [|[? []] ?]; by eexists _, _. }
  rewrite E in HL. rewrite <- (same_heap_ptr _ _ _ HS).
  destruct (plug_backward_spec m1 l1 s' l2' HL) as (HL' & HS' & HU' & HM').
  rewrite merge_mid, E by done. cbn [bused bsize]. split_and!; [exact HL'| |congruence..].
  eapply same_heap_trans; [exact HS|exact HS'|].
  intros a Ha. rewrite data_app in Ha |- *. rewrite <- E. destruct Ha as [Ha|Ha]; [by left|right].
  cbn in Ha. destruct Ha as [[? _]|Ha]; [done|]. unfold merge_in. cbn.
  destruct l2 as [|[s2 []] l2]; cbn in *; try tauto.
  destruct Ha as [[? _]|Ha]; [done|]. right.
  by replace (0 + span l1 + (s + s2)) with (0 + span l1 + s + s2) by lia.
Qed.

(** ** [rt_smem_free] *)

Lemma aligned_land a : Z.land a (RT_ALIGN_SIZE - 1) = a mod 4.
Proof. change (RT_ALIGN_SIZE - 1) with (Z.ones 2). apply Z.land_ones. lia. Qed.

Lemma SIZEOF_12 : SIZEOF_STRUCT_MEM = 12.
Proof. reflexivity. Qed.

Lemma separated_tail l1 l2 : separated (l1 ++ l2) -> separated l2.
Proof.
  induction l1 as [|b l1 IH]; [done|]. intros H. apply IH.
  cbn [app] in H. destruct (l1 ++ l2); [done|apply H].
Qed.
Lemma separated_front l1 l2 : separated (l1 ++ l2) -> separated l1.
Proof.
  induction l1 as [|b l1 IH]; [done|]. intros H. destruct l1 as [|c l1]; [done|].
  cbn [app] in H. destruct H as [H H']. split; [done|]. by apply IH.
Qed.

(** Marking a block free, before the merge. *)
Lemma free_mark_spec m l1 s l2 :
  layout m (l1 ++ Blk s true :: l2) -> used m = used_of (l1 ++ Blk s true :: l2) ->
  let m' := free_mark m (heap_ptr m + span l1) in
  layout m' (l1 ++ Blk s false :: l2) /\
  same_heap m m' (l1 ++ Blk s true :: l2) /\
  used m' = used_of (l1 ++ Blk s false :: l2) /\ max m' = max m.
Proof.
  intros Hl Hu. unfold free_mark. pose proof Hl as [Hg Htot Hok Hfree Hheap].
  pose proof Hok as [Ho1 [[Hs4 H1] Ho2]%Forall_cons]%Forall_app. cbn in H1, Hs4.
  rewrite span_app in Htot. cbn in Htot. destruct Hg as [G1 G2 G3 G4 G5 G6 G7 G8].
  pose proof (used_of_bounds _ Ho1). pose proof (used_of_bounds _ Ho2).
  pose proof (heap_read_next m _ _ _ Hl) as Hn. cbn [bsize] in Hn. unfold next in Hn.
  rewrite used_of_app in Hu. cbn in Hu.
  set (m1 := set_pool_ptr m _ _).
  assert (next (if heap_ptr m + span l1 <? lfree m1
      then set_lfree m1 (heap_ptr m + span l1) else m1) (heap_ptr m + span l1) = span l1 + s)
    as Hn1.
  { rewrite <- Hn. destruct (_ <? lfree m1); unfold next, m1, set_pool_ptr; cbn [ram set_ram set_lfree];
      by stores. }
  rewrite Hn1.
  assert (first_free (l1 ++ Blk s false :: l2) = Z.min (span l1) (first_free (l1 ++ Blk s true :: l2)))
    as Hff.
  { rewrite !first_free_app. cbn. pose proof (first_free_bounds _ Ho2).
    destruct (forallb bused l1) eqn:Eu; [lia|]. pose proof (first_free_lt _ Ho1 Eu). lia. }
  assert (heap_ok (store (ram m) (heap_ptr m + span l1) (MEM_FREED (self m))) (heap_ptr m)
    (self m) (l1 ++ Blk s false :: l2)) as Hh by (by eapply (heap_tag _ _ _ _ _ true false)).
  assert (forall a, data 0 (l1 ++ Blk s true :: l2) a ->
    store (ram m) (heap_ptr m + span l1) (MEM_FREED (self m)) (heap_ptr m + a) =
    ram m (heap_ptr m + a)) as Hd.
  { intros a Ha. apply store_ne. intros E. assert (a = span l1) as -> by lia.
    eapply (hdr_not_data 0); [exact Hok| |exact Ha]. rewrite hdr_app. right. cbn. left. lia. }
  assert (used_of (l1 ++ Blk s false :: l2) = used m - s) as Hu'
    by (rewrite used_of_app; cbn; lia).
  assert (forall x, heap_ptr m1 = x -> u32 (span l1 + s - (heap_ptr m + span l1 - heap_ptr m)) = s)
    as Hsz by (intros _ _; rewrite u32_small; lia).
  pose proof (span_nonneg _ Ho1). pose proof (span_nonneg _ Ho2).
  assert (Forall blk_ok (l1 ++ Blk s false :: l2)) as Hok'
    by (apply Forall_app; split; [done|by constructor]).
  destruct (_ <? lfree m1) eqn:Ef; cbn [heap_ptr set_lfree m1 set_pool_ptr set_ram] in *;
    rewrite (Hsz _ eq_refl), u32_small by (cbn; lia);
    (split; [split|split; [split|split]]); cbn; try done; try lia;
    try (rewrite span_app; cbn; lia); cbn in Ef; rewrite Hff; lia.
Qed.

Lemma data_at_mid l1 s l2 a :
  Forall blk_ok (l1 ++ Blk s true :: l2) ->
  data 0 (l1 ++ Blk s false :: l2) a -> data 0 (l1 ++ Blk s true :: l2) a.
Proof.
  intros _. rewrite !data_app. cbn. intros [H|[[? _]|H]]; [by left|done|right; by right].
Qed.

Lemma rt_smem_free_spec m bs p s :
  rep m bs -> live bs p s ->
  exists m', rt_smem_free m (heap_ptr m + p + 12) = Ok m' /\ rep m' (spec_free p bs) /\
    same_heap m m' (at_offset (fun b => [Blk (bsize b) false]) p bs).
Proof.
  intros [Hl Hsep Hu Hm] Hlive. pose proof Hl as [Hg Htot Hok Hfree Hheap].
  destruct (live_split _ _ _ Hlive) as (l1 & l2 & -> & <-).
  pose proof Hok as [Ho1 [[Hs4 H1] Ho2]%Forall_cons]%Forall_app. cbn in H1, Hs4.
  rewrite span_app in Htot. cbn in Htot.
  pose proof (span_nonneg _ Ho1). pose proof (span_nonneg _ Ho2). pose proof (span_mod4 _ Ho1).
  destruct Hg as [G1 G2 G3 G4 G5 G6 G7 G8].
  assert (MEM_POOL m (heap_ptr m + (span l1 + s)) = self m) as Hpool.
  { replace (span l1 + s) with (span (l1 ++ [Blk s true])) by (rewrite span_app; cbn; lia).
    apply (heap_read_pool m _ l2). by rewrite <- app_assoc. }
  unfold spec_free. rewrite at_offset_mid by done. cbn [app bsize].
  unfold rt_smem_free. rewrite SIZEOF_12, aligned_land. unfold RT_NULL.
  replace (heap_ptr m + span l1 + 12 - 12) with (heap_ptr m + span l1) by lia.
  rewrite (heap_read_pool m l1 _ Hl), (heap_read_used m l1 _ Hl).
  rewrite (heap_read_next m l1 _ _ Hl). cbn [bsize bused]. rewrite Hpool.
  replace (heap_ptr m + span l1 + 12 =? 0) with false by lia.
  replace ((heap_ptr m + span l1 + 12) mod 4 =? 0) with true by zmod.
  replace (self m =? 0) with false by lia. rewrite Z.eqb_refl.
  replace (_ && _) with true by lia. cbn [rt_assert negb mbind result_bind].
  destruct (free_mark_spec m l1 s l2 Hl Hu) as (HL & HS & HU & HM).
  set (m1 := free_mark m _) in *. clearbody m1.
  rewrite <- (same_heap_ptr _ _ _ HS).
  destruct (plug_holes_spec m1 l1 s l2 HL) as (m' & E & HL' & HS' & HU' & HM').
  { by eapply separated_front. }
  { apply (separated_tail (l1 ++ [Blk s true])). by rewrite <- app_assoc. }
  exists m'. split; [exact E|]. split; [split; [done| | |]|].
  - apply separated_merge.
  - rewrite used_of_merge. congruence.
  - pose proof (used_of_bounds _ Ho1). pose proof (used_of_bounds _ Ho2).
    rewrite used_of_app in Hu, HU. cbn in Hu, HU. lia.
  - destruct HS, HS'. split; try congruence. intros a Ha.
    rewrite <- same_data0 by (by apply data_at_mid). rewrite <- same_heap_ptr0. by apply same_data1.
Qed.

(** ** [rt_smem_alloc] *)

Lemma set_lfree_same m : set_lfree m (lfree m) = m.
Proof. by destruct m. Qed.

Lemma next_lfree_loop fuel m l1 l2 :
  layout (set_lfree m (heap_ptr m + first_free (l1 ++ l2))) (l1 ++ l2) ->
  forallb bused l1 = true -> lfree m = heap_ptr m + span l1 -> (length l2 < fuel)%nat ->
  while_loop fuel (fun m => MEM_ISUSED m (lfree m) && negb (lfree m =? heap_end m))
    (fun m => Ok (set_lfree m (heap_ptr m + next m (lfree m)))) m
  = Ok (set_lfree m (heap_ptr m + first_free (l1 ++ l2))).
Proof.
  revert m l1 fuel. induction l2 as [|b l2 IH]; intros m l1 fuel Hl Hu Hf Hfuel;
    destruct fuel as [|fuel]; try (cbn in Hfuel; lia).
  - pose proof (lay_span _ _ Hl) as Hs. pose proof (geo_end _ (lay_geo _ _ Hl)) as He.
    rewrite app_nil_r in *. cbn in Hs, He. rewrite while_loop_done.
    + by rewrite first_free_all_used, <- Hf, set_lfree_same.
    + rewrite Hf. replace (_ =? heap_end m) with true by lia. apply andb_false_r.
  - pose proof (heap_read_used _ l1 (b :: l2) Hl) as Hr.
    change (MEM_ISUSED m (heap_ptr m + span l1) = bused b) in Hr. rewrite <- Hf in Hr.
    destruct (bused b) eqn:Eb.
    + rewrite while_loop_step with (s' := set_lfree m (heap_ptr m + next m (lfree m))).
      * assert (next m (lfree m) = span (l1 ++ [b])) as ->.
        { rewrite Hf, span_app. pose proof (heap_read_next _ l1 l2 b Hl) as Hn.
          change (next m (heap_ptr m + span l1) = span l1 + bsize b) in Hn. cbn. lia. }
        replace (l1 ++ b :: l2) with ((l1 ++ [b]) ++ l2) in * by by rewrite <- app_assoc.
        rewrite IH with (l1 := l1 ++ [b]); [done|done| |done|cbn in Hfuel; lia].
        rewrite forallb_app, Hu. cbn. by rewrite Eb.
      * rewrite Hr. pose proof (lay_span _ _ Hl) as Hs. pose proof (geo_end _ (lay_geo _ _ Hl)) as He.
        cbn in Hs, He. rewrite span_app in Hs. cbn in Hs.
        pose proof (lay_ok _ _ Hl) as [Ho1 [[_ H1] Ho2]%Forall_cons]%Forall_app.
        pose proof (span_nonneg _ Ho2). rewrite Hf. by replace (_ =? heap_end m) with false by lia.
      * done.
    + rewrite while_loop_done by by rewrite Hr.
      rewrite first_free_app, Hu. cbn. rewrite Eb, Z.add_0_r, <- Hf, set_lfree_same. done.
Qed.

(** The list after a block is taken. *)
Definition taken (n s : Z) : list blk :=
  if n + 36 <=? s then [Blk (n + 12) true; Blk (s - (n + 12)) false] else [Blk s true].

Lemma taken_facts n s :
  0 < n -> n mod 4 = 0 -> n + 12 <= s -> s mod 4 = 0 ->
  Forall blk_ok (taken n s) /\ span (taken n s) = s /\
  exists s' r, taken n s = Blk s' true :: r /\ n + 12 <= s' /\ used_of (taken n s) = s' /\
    s' <= s.
Proof.
  intros H1 H2 H3 H4. unfold taken. destruct (n + 36 <=? s) eqn:E.
  - split; [repeat constructor; cbn; zmod|]. split; [cbn; lia|].
    eexists _, _. split; [reflexivity|]. cbn. lia.
  - split; [repeat constructor; cbn; zmod|]. split; [cbn; lia|].
    eexists _, _. split; [reflexivity|]. cbn. lia.
Qed.

Lemma split_block_spec m l1 s u t l2 :
  layout m (l1 ++ Blk s u :: l2) -> t mod 4 = 0 -> 12 < t -> 12 < s - t ->
  let m1 := split_block m (heap_ptr m + span l1) (span l1) (span l1 + t) in
  let bs := l1 ++ Blk t u :: Blk (s - t) false :: l2 in
  layout (set_lfree m1 (heap_ptr m + first_free bs)) bs /\ same_heap m m1 bs /\
  lfree m1 = lfree m /\ used m1 = used m /\ max m1 = max m.
Proof.
  intros Hl Ht4 Ht1 Ht2 m1 bs. pose proof Hl as [Hg Htot Hok _ Hheap].
  pose proof Hok as [Ho1 [[Hs4 H1] Ho2]%Forall_cons]%Forall_app. cbn in H1, Hs4.
  pose proof (span_nonneg _ Ho1). pose proof (span_nonneg _ Ho2).
  pose proof (heap_read_next m _ _ _ Hl) as Hn. cbn [bsize] in Hn. unfold next in Hn.
  pose proof (heap_split (heap_ptr m) (self m) (ram m) l1 s u t l2 Hok Ht1 Ht2 Hheap) as Hsplit.
  pose proof Htot as Htot'. rewrite span_app in Htot'. cbn in Htot'.
  destruct Hg as [G1 G2 G3 G4 G5 G6 G7 G8]. cbn zeta in Hsplit.
  match type of Hsplit with heap_ok ?r _ _ _ => assert (m1 = set_ram m r) as Em1 end.
  { unfold m1, split_block, set_pool_ptr, set_next, set_prev, next.
    cbn [ram heap_ptr self mem_size_aligned set_ram]. stores. rewrite Hn, SIZEOF_12, Htot.
    rewrite u32_small by lia.
    rewrite !Z.add_assoc. unfold set_ram. cbn [self heap_ptr heap_end lfree mem_size_aligned total used max ram].
    by destruct (span l1 + s =? mem_size_aligned m + 12). }
  assert (forall a, data 0 bs a -> ram m1 (heap_ptr m + a) = ram m (heap_ptr m + a)) as Hd.
  { intros a Ha. rewrite Em1. cbn [ram set_ram]. unfold bs in Ha. rewrite data_app in Ha.
    cbn [data bused bsize] in Ha.
    assert (a < span l1 \/ (span l1 + 12 <= a < span l1 + t) \/ span l1 + s + 12 <= a) as Hcase.
    { destruct Ha as [Ha|[Ha|[[? _]|Ha]]]; [|lia|done|];
        apply data_bounds in Ha; [lia|done|lia|done]. }
    destruct (_ =? _); by stores. }
  assert (used m1 = used m /\ max m1 = max m /\ lfree m1 = lfree m) as (? & ? & ?) by by rewrite Em1.
  split; [|split; [split; try (by rewrite Em1); exact Hd|done]].
  split.
  - split; rewrite Em1; cbn; done.
  - rewrite Em1. cbn. rewrite <- Htot. unfold bs. rewrite !span_app. cbn. lia.
  - unfold bs. apply Forall_app. split; [done|].
    constructor; [split; cbn; lia|constructor; [split; cbn; zmod|done]].
  - cbn. rewrite Em1. done.
  - rewrite Em1. cbn [ram set_ram set_lfree heap_ptr self]. exact Hsplit.
Qed.

Lemma take_block_spec m l1 s l2 :
  layout (set_lfree m (heap_ptr m + first_free (l1 ++ Blk s false :: l2)))
    (l1 ++ Blk s false :: l2) ->
  used m = used_of (l1 ++ Blk s false :: l2) -> used m <= max m < 2 ^ 32 ->
  let m1 := set_pool_ptr (add_used m s) (heap_ptr m + span l1) (MEM_USED (self m)) in
  let bs := l1 ++ Blk s true :: l2 in
  layout (set_lfree m1 (heap_ptr m + first_free bs)) bs /\
  same_heap m m1 (l1 ++ Blk s false :: l2) /\
  lfree m1 = lfree m /\ used m1 = used_of bs /\ used m1 <= max m1 < 2 ^ 32.
Proof.
  intros [Hg Htot Hok _ Hheap] Hu Hm m1 bs. cbn in Htot, Hheap.
  pose proof Hok as [Ho1 [[Hs4 H1] Ho2]%Forall_cons]%Forall_app. cbn in H1, Hs4.
  destruct Hg as [G1 G2 G3 G4 G5 G6 G7 G8]. cbn in *.
  pose proof (used_of_bounds _ Ho1). pose proof (used_of_bounds _ Ho2).
  rewrite span_app in Htot. rewrite used_of_app in Hu. cbn in Htot, Hu.
  assert (used m1 = used_of bs) as Hu1.
  { unfold m1, bs. rewrite used_of_app. cbn. rewrite u32_small; lia. }
  split; [split|split; [split|]]; try done.
  - unfold bs. rewrite span_app. exact Htot.
  - apply Forall_app. split; [done|by constructor].
  - cbn. by eapply (heap_tag _ _ _ _ _ false true).
  - intros a Ha. cbn. apply store_ne. intros E. assert (a = span l1) as -> by lia.
    eapply (hdr_not_data 0); [exact Hok| |exact Ha]. rewrite hdr_app. right. cbn. left. lia.
  - split; [done|]. split; [exact Hu1|]. rewrite u32_small by lia.
    destruct (_ <? _) eqn:E; lia.
Qed.

Lemma carve_spec m l1 s l2 n :
  rep m (l1 ++ Blk s false :: l2) -> 0 < n -> n mod 4 = 0 -> n + 12 <= s ->
  let m1 := carve m (span l1) n in
  let bs := l1 ++ taken n s ++ l2 in
  layout (set_lfree m1 (heap_ptr m + first_free bs)) bs /\
  same_heap m m1 (l1 ++ Blk s false :: l2) /\
  lfree m1 = lfree m /\ used m1 = used_of bs /\ used m1 <= max m1 < 2 ^ 32.
Proof.
  intros [Hl Hsep Hu Hm] Hn0 Hn4 Hns m1 bs. pose proof Hl as [Hg Htot Hok Hfr Hheap].
  pose proof Hok as [Ho1 [[Hs4 H1] Ho2]%Forall_cons]%Forall_app. cbn in H1, Hs4.
  pose proof (span_nonneg _ Ho1). pose proof (span_nonneg _ Ho2).
  pose proof (heap_read_next m _ _ _ Hl) as Hnx. cbn [bsize] in Hnx.
  pose proof Htot as Htot'. rewrite span_app in Htot'. cbn in Htot'.
  destruct Hg as [G1 G2 G3 G4 G5 G6 G7 G8].
  assert (Hcond : (u32 (u32 (n + SIZEOF_STRUCT_MEM) + MIN_SIZE_ALIGNED) <=?
     u32 (next m (heap_ptr m + span l1) - u32 (span l1 + SIZEOF_STRUCT_MEM))) = (n + 36 <=? s)).
  { rewrite Hnx, SIZEOF_12. change MIN_SIZE_ALIGNED with 12.
    rewrite (u32_small (n + 12)), (u32_small (span l1 + 12)) by lia. rewrite !u32_small by lia. lia. }
  unfold m1, carve. rewrite Hcond. unfold bs, taken. destruct (n + 36 <=? s) eqn:Ec.
  - rewrite SIZEOF_12. rewrite (u32_small (n + 12)), (u32_small (span l1 + 12 + n)) by lia.
    replace (span l1 + 12 + n) with (span l1 + (n + 12)) by lia.
    destruct (split_block_spec m l1 s false (n + 12) l2 Hl) as (HL & HS & HF & HU & HM); [zmod|lia..|].
    set (m2 := split_block m _ _ _) in *. clearbody m2.
    pose proof (same_heap_ptr _ _ _ HS) as Hp. pose proof (same_self _ _ _ HS) as Hsl.
    rewrite <- Hp in HL |- *.
    destruct (take_block_spec m2 l1 (n + 12) (Blk (s - (n + 12)) false :: l2) HL)
      as (TL & TS & TF & TU & TM).
    { rewrite HU, Hu, !used_of_app. done. }
    { by rewrite HU, HM. }
    split; [exact TL|]. split; [|exact (conj (eq_trans TF HF) (conj TU TM))].
    eapply same_heap_trans; [|exact TS|].
    + destruct HS as [? ? ? ? ? ? Hd]. split; try done. intros a Ha. apply Hd.
      rewrite data_app in Ha |- *. destruct Ha as [Ha|Ha]; [by left|right].
      cbn in Ha |- *. destruct Ha as [[? _]|Ha]; [done|]. right. right.
      by replace (0 + span l1 + (n + 12) + (s - (n + 12))) with (0 + span l1 + s) by lia.
    + intros a Ha. rewrite data_app in Ha |- *. destruct Ha as [Ha|Ha]; [by left|right].
      cbn in Ha |- *. destruct Ha as [[? _]|Ha]; [done|]. right. right.
      by replace (0 + span l1 + (n + 12) + (s - (n + 12))) with (0 + span l1 + s) by lia.
  - rewrite Hnx. replace (u32 _) with s by (rewrite u32_small; lia).
    destruct (take_block_spec m l1 s l2) as (TL & TS & TF & TU & TM); try done.
Qed.

(** The blocks after an allocation are as separated as before. *)
Lemma separated_taken l1 n s l2 :
  separated (l1 ++ Blk s false :: l2) -> separated (l1 ++ taken n s ++ l2).
Proof.
  intros [Hs1 Hs2]%separated_app.
  assert (separated (l1 ++ [Blk s true])) as Hs1'.
  { clear -Hs1. induction l1 as [|b l1 IH]; [done|]. destruct l1 as [|c l1].
    - cbn in *. tauto.
    - cbn [app] in *. destruct Hs1 as [? Hs1]. split; [done|]. by apply IH. }
  unfold taken. destruct (n + 36 <=? s); cbn [app].
  - apply separated_app. split; [by eapply separated_tag; [|exact Hs1']|].
    cbn. split; [by left|]. destruct l2; [done|]. exact Hs2.
  - apply separated_app. split; [done|]. destruct l2; [done|]. cbn in *. tauto.
Qed.

Lemma first_free_block bs :
  first_free bs <> span bs -> exists k1 b k2, bs = k1 ++ b :: k2 /\ bused b = false /\ span k1 = first_free bs.
Proof.
  induction bs as [|b bs IH]; [done|]. cbn. intros E. destruct (bused b) eqn:Eb; [|by exists [], b, bs].
  destruct IH as (k1 & b' & k2 & -> & Hb' & Hk); [lia|].
  exists (b :: k1), b', k2. cbn. split_and!; [done|done|lia].
Qed.

(** The pointer to the first free block moves on when that block is taken. *)
Lemma move_lfree_spec m l1 r s l2 :
  let m2 := set_lfree m (heap_ptr m + first_free (l1 ++ r)) in
  layout m2 (l1 ++ r) -> Forall blk_ok l1 -> lfree m = heap_ptr m + first_free (l1 ++ Blk s false :: l2) ->
  (if heap_ptr m + span l1 =? lfree m then
     m ← next_lfree m;
     _ ← rt_assert ((lfree m =? heap_end m) || negb (MEM_ISUSED m (lfree m)));
     Ok m
   else Ok m) = Ok m2.
Proof.
  intros m2 HL Ho1 Hfr. destruct (_ =? _) eqn:Elf.
  - assert (Hall : forallb bused l1 = true).
    { destruct (forallb bused l1) eqn:E; [done|]. rewrite Hfr, first_free_app, E in Elf.
      pose proof (first_free_lt _ Ho1 E). lia. }
    unfold next_lfree. rewrite (next_lfree_loop _ m l1 r); [..|lia|].
    + cbn [mbind result_bind]. fold m2. destruct (decide (first_free (l1 ++ r) = span (l1 ++ r))) as [E|E].
      * replace (lfree m2 =? heap_end m2) with true; [done|].
        pose proof (lay_span _ _ HL) as K. destruct (lay_geo _ _ HL). cbn in * |- *. lia.
      * assert (negb (MEM_ISUSED m2 (lfree m2)) = true) as ->; [|by rewrite orb_true_r].
        destruct (first_free_block _ E) as (k1 & b & k2 & Eb & Hb & Hk).
        pose proof HL as HL'. rewrite Eb in HL'. pose proof (heap_read_used _ k1 (b :: k2) HL') as K.
        rewrite Hk, Hb in K. change (lfree m2) with (heap_ptr m2 + first_free (l1 ++ r)). by rewrite K.
    + exact HL.
    + done.
    + pose proof (span_length _ (lay_ok _ _ HL)) as K.
      rewrite (lay_span _ _ HL), length_app in K. cbn in K. unfold walk_fuel. lia.
  - rewrite Hfr, first_free_app in Elf. unfold m2. rewrite first_free_app.
    destruct (forallb bused l1) eqn:E; cbn in Elf; [lia|].
    rewrite first_free_app, E in Hfr. by rewrite <- Hfr, set_lfree_same.
Qed.

Lemma alloc_at_spec m l1 s l2 n :
  rep m (l1 ++ Blk s false :: l2) -> 0 < n -> n mod 4 = 0 -> n + 12 <= s ->
  exists m', alloc_at m (span l1) n = Ok (heap_ptr m + span l1 + 12, m') /\
    rep m' (l1 ++ taken n s ++ l2) /\ same_heap m m' (l1 ++ Blk s false :: l2).
Proof.
  intros Hr Hn0 Hn4 Hns. pose proof Hr as [Hl Hsep Hu Hm]. pose proof Hl as [Hg Htot Hok Hfr Hheap].
  pose proof Hok as [Ho1 [[Hs4 H1] Ho2]%Forall_cons]%Forall_app. cbn in H1, Hs4.
  pose proof (span_nonneg _ Ho1). pose proof (span_nonneg _ Ho2). pose proof (span_mod4 _ Ho1).
  rewrite span_app in Htot. cbn in Htot. destruct Hg as [G1 G2 G3 G4 G5 G6 G7 G8].
  destruct (carve_spec m l1 s l2 n Hr Hn0 Hn4 Hns) as (HL & HS & HF & HU & HM).
  destruct (taken_facts n s Hn0 Hn4 Hns Hs4) as (T1 & T2 & s' & tr & T3 & _).
  unfold alloc_at. set (m1 := carve m (span l1) n) in *. clearbody m1.
  set (bs := l1 ++ taken n s ++ l2) in *.
  pose proof (same_heap_ptr _ _ _ HS) as Hp. pose proof (same_end _ _ _ HS) as He.
  pose proof (same_size _ _ _ HS) as Hsz.
  assert (lfree m1 = heap_ptr m1 + first_free (l1 ++ Blk s false :: l2)) as Hfr1 by by rewrite HF, Hp.
  rewrite <- Hp in HL. pose proof (move_lfree_spec m1 l1 _ s l2 HL Ho1 Hfr1) as Hwalk. rewrite Hp in HL, Hwalk.
  rewrite Hwalk. fold bs. set (m2 := set_lfree m1 (heap_ptr m + first_free bs)) in *.
  cbn [mbind result_bind]. rewrite SIZEOF_12, aligned_land.
  replace (_ <=? heap_end m2) with true by (cbn; lia).
  replace ((heap_ptr m + span l1 + 12) mod RT_ALIGN_SIZE =? 0) with true
    by (unfold RT_ALIGN_SIZE; zmod).
  replace ((heap_ptr m + span l1) mod 4 =? 0) with true by zmod.
  cbn [rt_assert mbind result_bind]. eexists. split; [reflexivity|]. split; [split|]; try done.
  - by apply separated_taken.
  - destruct HS. by split.
Qed.

Lemma alloc_from_spec fuel m l1 l2 n :
  rep m (l1 ++ l2) -> 0 < n <= mem_size_aligned m -> (length l2 < fuel)%nat ->
  alloc_from fuel m n (span l1) =
    match spec_alloc n l2 with
    | Some (p, _) => alloc_at m (span l1 + p) n
    | None => Ok (RT_NULL, m)
    end.
Proof.
  intros Hr Hn. pose proof (rep_lay _ _ Hr) as Hl. pose proof (lay_ok _ _ Hl) as Hok.
  pose proof (lay_span _ _ Hl) as Htot. destruct (lay_geo _ _ Hl) as [G1 G2 G3 G4 G5 G6 G7 G8].
  revert l1 fuel Hr Hl Hok Htot. induction l2 as [|b l2 IH]; intros l1 fuel Hr Hl Hok Htot Hf;
    (destruct fuel as [|fuel]; [cbn in Hf; lia|]); cbn [alloc_from];
    rewrite (u32_small (_ - n)) by lia.
  - rewrite app_nil_r in Htot. by replace (span l1 <=? _) with false by lia.
  - pose proof (heap_read_used m l1 _ Hl) as Hu. pose proof (heap_read_next m _ _ _ Hl) as Hx.
    cbn in Hu. rewrite Hu, Hx, SIZEOF_12. rewrite span_app in Htot. cbn in Htot.
    pose proof Hok as [Ho1 [[Hs4 H1] Ho2]%Forall_cons]%Forall_app.
    pose proof (span_nonneg _ Ho1). pose proof (span_nonneg _ Ho2).
    destruct (span l1 <=? mem_size_aligned m - n) eqn:Ele.
    + rewrite (u32_small (span l1 + 12)) by lia. rewrite u32_small by lia.
      replace (n <=? span l1 + bsize b - (span l1 + 12)) with (n + 12 <=? bsize b) by lia.
      cbn [spec_alloc]. destruct (negb (bused b) && (n + 12 <=? bsize b)) eqn:E.
      { by rewrite Z.add_0_r. }
      replace (l1 ++ b :: l2) with ((l1 ++ [b]) ++ l2) in * by by rewrite <- app_assoc.
      replace (span l1 + bsize b) with (span (l1 ++ [b])) by (rewrite span_app; cbn; lia).
      rewrite IH; [|done|done|done|rewrite !span_app; cbn; lia|cbn in Hf; lia].
      destruct (spec_alloc n l2) as [[p bs']|]; cbn; [|done].
      f_equal. rewrite span_app. cbn. lia.
    + replace (spec_alloc n (b :: l2)) with (@None (Z * list blk)); [done|].
      symmetry. apply spec_alloc_None. constructor; [right; lia|].
      assert (Hall : Forall (fun c => bsize c <= span l2) l2).
      { clear -Ho2. induction Ho2 as [|c l2 [_ Hc] Hl2 IH]; [done|].
        pose proof (span_nonneg _ Hl2). constructor; cbn; [lia|].
        eapply Forall_impl; [exact IH|]. cbn. intros; lia. }
      eapply Forall_impl; [exact Hall|]. cbn. intros; right; lia.
Qed.

Lemma spec_alloc_too_large k n bs :
  Forall blk_ok bs -> span bs = k + 12 -> k < n -> spec_alloc n bs = None.
Proof.
  intros Hok Hs Hn. apply spec_alloc_None.
  assert (Hall : Forall (fun c => bsize c <= span bs) bs).
  { clear -Hok. induction Hok as [|c l2 [_ Hc] Hl2 IH]; [done|].
    pose proof (span_nonneg _ Hl2). constructor; cbn; [lia|].
    eapply Forall_impl; [exact IH|]. cbn. intros; lia. }
  eapply Forall_impl; [exact Hall|]. cbn. intros; right. lia.
Qed.

Lemma spec_alloc_skip n l1 l2 :
  forallb bused l1 = true ->
  spec_alloc n (l1 ++ l2) =
    match spec_alloc n l2 with Some (p, l) => Some (span l1 + p, l1 ++ l) | None => None end.
Proof.
  induction l1 as [|b l1 IH]; cbn; intros H.
  - by destruct (spec_alloc n l2) as [[]|].
  - apply andb_true_iff in H as [-> H]. cbn. rewrite IH by done.
    destruct (spec_alloc n l2) as [[p l]|]; cbn; [|done]. by rewrite Z.add_assoc.
Qed.

Lemma first_free_split bs :
  exists l1 l2, bs = l1 ++ l2 /\ forallb bused l1 = true /\ span l1 = first_free bs.
Proof.
  induction bs as [|b bs (l1 & l2 & -> & H & E)]; [by exists [], []|]. cbn.
  destruct (bused b) eqn:Eb.
  - exists (b :: l1), l2. cbn. rewrite Eb. split_and!; [done|done|lia].
  - by exists [], (b :: l1 ++ l2).
Qed.

(** The size [rt_smem_alloc] looks for. *)
Definition request (size : Z) : Z := Z.max 12 (size + 3 - (size + 3) mod 4).

Lemma rt_smem_alloc_spec m bs size :
  rep m bs -> 0 < size < 2 ^ 32 - 3 ->
  match spec_alloc (request size) bs with
  | Some (p, bs') => exists m', rt_smem_alloc m size = Ok (heap_ptr m + p + 12, m') /\
      rep m' bs' /\ same_heap m m' bs
  | None => rt_smem_alloc m size = Ok (RT_NULL, m)
  end.
Proof.
  intros Hr Hs. pose proof (rep_lay _ _ Hr) as Hl. pose proof (lay_geo _ _ Hl) as [G1 G2 G3 G4 G5 G6 G7 G8].
  pose proof (lay_span _ _ Hl) as Htot. pose proof (lay_ok _ _ Hl) as Hok.
  unfold rt_smem_alloc. rewrite RT_ALIGN_4 by lia. replace (size =? 0) with false by lia.
  change MIN_SIZE_ALIGNED with 12.
  replace (if _ <? 12 then _ else _) with (request size) by (unfold request; zbool; lia).
  assert (0 < request size /\ request size mod 4 = 0) as [Hq Hq4] by (unfold request; zmod).
  destruct (mem_size_aligned m <? _) eqn:Elt.
  - replace (spec_alloc (request size) bs) with (@None (Z * list blk)); [done|].
    symmetry. apply (spec_alloc_too_large (mem_size_aligned m)); [done|done|].
    unfold request. lia.
  - destruct (first_free_split bs) as (l1 & l2 & -> & Hall & Hsp).
    rewrite (lay_free _ _ Hl). replace (heap_ptr m + _ - heap_ptr m) with (span l1) by lia.
    pose proof (span_length _ Hok) as Hlen. rewrite length_app in Hlen.
    rewrite (alloc_from_spec _ m l1 l2); [|done|unfold request; zmod|unfold walk_fuel; lia].
    rewrite spec_alloc_skip by done.
    destruct (spec_alloc (request size) l2) as [[p l]|] eqn:E; [|done].
    apply spec_alloc_Some in E as (k1 & s & k2 & -> & -> & Hfit & _ & ->).
    rewrite app_assoc in Hr |- *. rewrite <- span_app.
    destruct (alloc_at_spec m (l1 ++ k1) s k2 (request size) Hr Hq Hq4 Hfit) as (m' & E & R & S).
    exists m'. rewrite <- (app_assoc l1 k1 (_ :: _)) in S. exact (conj E (conj R S)).
Qed.

(** ** [rt_smem_init] *)

Lemma rt_smem_init_spec r begin_addr size :
  0 < begin_addr -> 104 <= size -> begin_addr + size + 3 < 2 ^ 32 ->
  exists m, rt_smem_init r begin_addr size = Some m /\
    rep m [Blk (mem_size_aligned m + 12) false] /\
    begin_addr <= self m /\ heap_ptr m = self m + 56 /\
    heap_ptr m + mem_size_aligned m + 24 <= begin_addr + size /\
    size - 89 <= mem_size_aligned m.
Proof.
  intros Hb Hs Ht. unfold rt_smem_init. rewrite SIZEOF_12. unfold sizeof_smem.
  rewrite RT_ALIGN_DOWN_4, (RT_ALIGN_4 begin_addr) by lia.
  set (sm := begin_addr + 3 - (begin_addr + 3) mod 4).
  assert (begin_addr <= sm <= begin_addr + 3 /\ sm mod 4 = 0) as [Hsm Hsm4] by (subst sm; zmod).
  rewrite (u32_small (sm + 56)), (u32_small (begin_addr + size)) by lia.
  rewrite RT_ALIGN_4 by lia. replace (sm + 56 + 3 - (sm + 56 + 3) mod 4) with (sm + 56) by zmod.
  set (ea := begin_addr + size - (begin_addr + size) mod 4).
  assert (begin_addr + size - 3 <= ea <= begin_addr + size /\ ea mod 4 = 0) as [He He4]
    by (subst ea; zmod).
  clearbody sm ea. rewrite (u32_small (ea - 2 * 12)) by lia.
  replace (_ && _) with true by lia. rewrite (u32_small (ea - _ - _)) by lia.
  rewrite u32_small by lia. set (n := ea - (sm + 56) - 2 * 12).
  assert (12 <= n /\ n mod 4 = 0) as [Hn Hn4] by (subst n; zmod).
  cbv [set_lfree set_prev set_next set_pool_ptr next set_ram
       ram given self heap_ptr heap_end lfree mem_size_aligned total used max]. stores.
  match goal with |- context [mk_smem _ _ _ _ _ _ _ _ _ ?x] => set (r1 := x) end.
  assert (heap_ok r1 (sm + 56) sm [Blk (n + 12) false]) as Hh.
  { subst r1. unfold heap_ok. cbn. stores. split_and!; reflexivity || lia. }
  clearbody r1. eexists. split; [reflexivity|]. cbn. split; [|subst n; lia].
  split; [split; [split| | | |]| | |]; cbn; try done; try (subst n; lia); try zmod.
  repeat constructor; cbn; [zmod|lia].
Qed.

(** ** [rt_smem_realloc] *)

Lemma copy_words_in r dst src n x :
  dst <= x < dst + n -> copy_words r dst src n x = r (src + (x - dst)).
Proof. intros H. unfold copy_words. by replace (_ && _) with true by lia. Qed.
Lemma copy_words_out r dst src n x :
  x < dst \/ dst + n <= x -> copy_words r dst src n x = r x.
Proof. intros H. unfold copy_words. by replace (_ && _) with false by lia. Qed.

(** Data of a block in use may be changed at will. *)
Lemma rep_write_data m bs r :
  rep m bs ->
  (forall a, hdr 0 bs a \/ a = span bs \/ a = span bs + 4 ->
     r (heap_ptr m + a) = ram m (heap_ptr m + a)) ->
  rep (set_ram m r) bs.
Proof.
  intros [[[] ? ? ? ?] ? ? ?] H. split; try done. split; try done. by eapply heap_frame.
Qed.

Lemma live_not_hdr bs p s a :
  Forall blk_ok bs -> live bs p s -> p + 12 <= a < p + s ->
  ~ (hdr 0 bs a \/ a = span bs \/ a = span bs + 4).
Proof.
  intros Hok Hl Ha [Hh|Hh].
  - eapply hdr_not_data; [exact Hok|exact Hh|]. by apply (live_data bs 0 p s a).
  - pose proof (live_data bs 0 p s a Hl Ha) as Hd. apply data_bounds in Hd; [lia|done].
Qed.

(** *** Blocks in use *)

Lemma live_bounds bs p s :
  Forall blk_ok bs -> live bs p s -> 0 <= p /\ p + s <= span bs /\ 12 < s /\ p mod 4 = 0 /\ s mod 4 = 0.
Proof.
  intros Hok Hl. destruct (live_split _ _ _ Hl) as (l1 & l2 & -> & <-).
  apply Forall_app in Hok as [Ho1 [[H4 H1] Ho2]%Forall_cons]. cbn in H4, H1.
  rewrite span_app. cbn. pose proof (span_nonneg _ Ho1). pose proof (span_nonneg _ Ho2).
  pose proof (span_mod4 _ Ho1). lia.
Qed.

Lemma live_disjoint bs p s q t :
  Forall blk_ok bs -> live bs p s -> live bs q t ->
  (p = q /\ s = t) \/ p + s <= q \/ q + t <= p.
Proof.
  intros Hok. revert p q. induction Hok as [|b bs [_ Hb] Hok IH]; intros p q; cbn; [done|].
  intros [(-> & -> & _)|Hp] [(-> & -> & _)|Hq].
  - by left.
  - apply live_bounds in Hq; [lia|done].
  - apply live_bounds in Hp; [lia|done].
  - destruct (IH _ _ Hp Hq) as [[? ?]|[?|?]]; lia.
Qed.

Lemma data_live bs a : data 0 bs a <-> exists p s, live bs p s /\ p + 12 <= a < p + s.
Proof.
  enough (H : forall q, data q bs (q + a) <-> exists p s, live bs p s /\ p + 12 <= a < p + s).
  { specialize (H 0). by rewrite Z.add_0_l in H. }
  revert a. induction bs as [|b bs IH]; intros a q; cbn.
  { split; [done|]. intros (p & s & [] & _). }
  replace (q + a) with (q + bsize b + (a - bsize b)) at 3 by lia. rewrite IH. split.
  - intros [[Hu Ha]|(p & s & Hl & Ha)].
    + exists 0, (bsize b). split; [by left|lia].
    + exists (p + bsize b), s. split; [|lia]. right.
      by replace (p + bsize b - bsize b) with p by lia.
  - intros (p & s & [(-> & -> & Hu)|Hl] & Ha); [left; split; [done|lia]|right].
    exists (p - bsize b), s. split; [done|lia].
Qed.

(** Freeing takes exactly one block away. *)
Lemma live_freed bs p s q t :
  Forall blk_ok bs -> live bs p s ->
  live (at_offset (fun b => [Blk (bsize b) false]) p bs) q t <-> live bs q t /\ q <> p.
Proof.
  intros Hok Hl. destruct (live_split _ _ _ Hl) as (l1 & l2 & -> & <-).
  pose proof Hok as [Ho1 [[H4 H1] Ho2]%Forall_cons]%Forall_app. cbn in H4, H1.
  rewrite at_offset_mid by done. cbn [app bsize]. rewrite !live_app. cbn. split.
  - intros [H|[(_ & _ & ?)|H]]; [|done|].
    + split; [by left|]. apply live_bounds in H; [lia|done].
    + split; [right; by right|]. apply live_bounds in H; [lia|done].
  - intros [[H|[(? & _ & _)|H]] Hne]; [by left|lia|right; by right].
Qed.

Lemma live_free bs p s q t :
  Forall blk_ok bs -> live bs p s ->
  live (spec_free p bs) q t <-> live bs q t /\ q <> p.
Proof. intros Hok Hl. unfold spec_free. rewrite live_merge. by eapply live_freed. Qed.

(** Allocating adds exactly one, large enough and apart from all others. *)
Lemma live_alloc n bs p bs' :
  Forall blk_ok bs -> 0 < n -> n mod 4 = 0 -> spec_alloc n bs = Some (p, bs') ->
  exists s', n + 12 <= s' /\
    (forall q t, live bs' q t <-> live bs q t \/ (q = p /\ t = s')) /\
    (forall q t, live bs q t -> q + t <= p \/ p + s' <= q).
Proof.
  intros Hok Hn Hn4 (l1 & s & l2 & -> & -> & Hs & _ & ->)%spec_alloc_Some.
  pose proof Hok as [Ho1 [[H4 H1] Ho2]%Forall_cons]%Forall_app. cbn in H4, H1.
  assert (forall s' , s' <= s -> forall q t, live (l1 ++ Blk s false :: l2) q t ->
    q + t <= span l1 \/ span l1 + s' <= q) as Hdis.
  { intros s' Hs' q t. rewrite live_app. cbn. intros [H|[(_ & _ & ?)|H]]; [left|done|right].
    - apply live_bounds in H; [lia|done].
    - apply live_bounds in H; [lia|done]. }
  destruct (n + 36 <=? s) eqn:E.
  - exists (n + 12). split; [lia|]. split; [|apply Hdis; lia].
    intros q t. rewrite !live_app. cbn.
    replace (q - span l1 - (n + 12 + (s - (n + 12) + 0))) with (q - span l1 - s) by lia. split.
    + intros [H|[[(? & ? & _)|[(_ & _ & ?)|[]]]|H]]; [tauto|right; lia|done|tauto].
    + intros [[H|[(_ & _ & ?)|H]]|[-> ->]]; [tauto|done|tauto|]. right. left. left.
      split_and!; [lia|done|done].
  - exists s. split; [lia|]. split; [|apply Hdis; lia].
    intros q t. rewrite !live_app. cbn. split.
    + replace (s + 0) with s by lia.
      intros [H|[[(? & ? & _)|[]]|H]]; [tauto|right; lia|tauto].
    + replace (s + 0) with s by lia.
      intros [[H|[(_ & _ & ?)|H]]|[-> ->]]; [tauto|done|tauto|]. right. left. left.
      split_and!; [lia|done|done].
Qed.

(** *** The three outcomes of [rt_smem_realloc] on a block in use *)

Lemma layout_set_used m u bs : layout m bs -> layout (set_used m u) bs.
Proof. intros [[] ? ? ? ?]. split; [by split|done..]. Qed.

(** The part of [rt_smem_realloc] that shrinks a block in place. *)
Lemma shrink_spec m bs p s n :
  rep m bs -> live bs p s -> 0 < n -> n mod 4 = 0 -> n + 36 < s ->
  let m1 := set_used m (u32 (used m - u32 (s - 12 - n))) in
  let mem2 := heap_ptr m + (p + (n + 12)) in
  let m2 := split_block m1 (heap_ptr m + p) p (p + (n + 12)) in
  let m3 := if mem2 <? lfree m2 then set_lfree m2 mem2 else m2 in
  exists m', plug_holes m3 mem2 = Ok m' /\ rep m' (spec_shrink n p bs) /\
    same_heap m m' (at_offset (fun b => [Blk (n + 12) (bused b); Blk (bsize b - (n + 12)) false]) p bs).
Proof.
  intros [Hl Hsep Hu Hm] Hlive Hn0 Hn4 Hns m1 mem2 m2 m3.
  destruct (live_split _ _ _ Hlive) as (l1 & l2 & -> & <-).
  pose proof (lay_ok _ _ Hl) as [Ho1 [[Hs4 H1] Ho2]%Forall_cons]%Forall_app. cbn in H1, Hs4.
  pose proof (lay_span _ _ Hl) as Htot. rewrite span_app in Htot. cbn in Htot.
  pose proof (span_nonneg _ Ho1). pose proof (span_nonneg _ Ho2).
  pose proof (used_of_bounds _ Ho1). pose proof (used_of_bounds _ Ho2).
  destruct (lay_geo _ _ Hl) as [G1 G2 G3 G4 G5 G6 G7 G8].
  rewrite used_of_app in Hu. cbn in Hu.
  destruct (split_block_spec m1 l1 s true (n + 12) l2) as (HL & HS & HF & HU & HM);
    [by apply layout_set_used|zmod|lia..|].
  fold m2 in HL, HS, HF, HU, HM. change (heap_ptr m1) with (heap_ptr m) in *.
  change (split_block m1 (heap_ptr m + span l1) (span l1) (span l1 + (n + 12))) with m2 in HL, HS, HF, HU, HM.
  unfold spec_shrink. rewrite at_offset_mid by done. cbn [app bused bsize].
  set (bs1 := l1 ++ Blk (n + 12) true :: Blk (s - (n + 12)) false :: l2) in *.
  assert (bs1 = (l1 ++ [Blk (n + 12) true]) ++ Blk (s - (n + 12)) false :: l2) as Ebs
    by by rewrite <- app_assoc.
  assert (span (l1 ++ [Blk (n + 12) true]) = span l1 + (n + 12)) as Hsp by (rewrite span_app; cbn; lia).
  assert (m3 = set_lfree m2 (heap_ptr m + first_free bs1)) as Em3.
  { subst m3 mem2. rewrite HF. change (lfree m1) with (lfree m). rewrite (lay_free _ _ Hl).
    unfold bs1. rewrite !first_free_app. cbn. pose proof (first_free_bounds _ Ho2).
    destruct (forallb bused l1) eqn:E.
    - replace (_ <? _) with true by lia. f_equal. lia.
    - pose proof (first_free_lt _ Ho1 E). replace (_ <? _) with false by lia.
      rewrite <- (set_lfree_same m2) at 1. f_equal. rewrite HF. cbn.
      rewrite (lay_free _ _ Hl), first_free_app, E. done. }
  assert (u32 (used m - u32 (s - 12 - n)) = used_of bs1) as Hu1.
  { unfold bs1. rewrite used_of_app. cbn. rewrite (u32_small (s - 12 - n)) by lia.
    rewrite u32_small; lia. }
  pose proof (same_heap_ptr _ _ _ HS) as Hp. cbn in Hp.
  rewrite Em3. unfold mem2. rewrite <- Hsp.
  pose proof HL as HL1. rewrite Ebs in HL1 at 2.
  destruct (plug_holes_spec (set_lfree m2 (heap_ptr m + first_free bs1)) _ _ _ HL1)
    as (m' & E & HL' & HS' & HU' & HM').
  { apply separated_front in Hsep as Hsf. clear -Hsep.
    replace (l1 ++ Blk s true :: l2) with ((l1 ++ [Blk s true]) ++ l2) in Hsep
      by by rewrite <- app_assoc. apply separated_front in Hsep.
    by eapply separated_tag; [|exact Hsep]. }
  { apply (separated_tail (l1 ++ [Blk s true])). by rewrite <- app_assoc. }
  rewrite <- Ebs in HL', HS'. cbn in HU', HM'.
  cbn [heap_ptr set_lfree] in E. rewrite Hp in E.
  exists m'. split; [exact E|]. split; [split; [done| | |]|].
  - apply separated_merge.
  - rewrite used_of_merge, HU', HU. exact Hu1.
  - rewrite HU', HU, HM', HM. cbn. rewrite Hu1. unfold bs1. rewrite used_of_app. cbn. lia.
  - apply (same_heap_trans m m2 m' bs1 bs1); [destruct HS; by split|destruct HS'; by split|done].
Qed.

(** A copy into a block in use keeps the chain. *)
Lemma copy_rep m bs q s src k :
  rep m bs -> live bs q s -> k <= s - 12 ->
  rep (set_ram m (copy_words (ram m) (heap_ptr m + q + 12) src k)) bs.
Proof.
  intros Hr Hlive Hk. pose proof (lay_ok _ _ (rep_lay _ _ Hr)) as Hok.
  apply rep_write_data; [done|]. intros a Hh. rewrite copy_words_out; [done|].
  destruct (decide (q + 12 <= a < q + s)) as [Hin|]; [|lia].
  by destruct (live_not_hdr bs q s a Hok Hlive Hin Hh).
Qed.

(** The part that moves a block: the copy and the free of the old block. *)
Lemma move_spec m bs p s n q bs1 m1 k :
  rep m bs -> live bs p s -> 0 < n -> n mod 4 = 0 -> 0 <= k <= n -> k <= s - 12 ->
  spec_alloc n bs = Some (q, bs1) -> rep m1 bs1 -> same_heap m m1 bs ->
  exists m', rt_smem_free (set_ram m1 (copy_words (ram m1) (heap_ptr m + q + 12)
                             (heap_ptr m + p + 12) k)) (heap_ptr m + p + 12) = Ok m' /\
    rep m' (spec_free p bs1) /\
    same_heap m m' (at_offset (fun b => [Blk (bsize b) false]) p bs) /\
    (forall a, 12 <= a < 12 + k -> ram m' (heap_ptr m + q + a) = ram m (heap_ptr m + p + a)).
Proof.
  intros Hr Hlive Hn0 Hn4 Hk Hks Ha Hr1 HS. pose proof (lay_ok _ _ (rep_lay _ _ Hr)) as Hok.
  pose proof (lay_ok _ _ (rep_lay _ _ Hr1)) as Hok1.
  destruct (live_alloc _ _ _ _ Hok Hn0 Hn4 Ha) as (s' & Hs' & Hiff & Hdis).
  pose proof (same_heap_ptr _ _ _ HS) as Hp.
  set (r2 := copy_words _ _ _ _). set (m2 := set_ram m1 r2).
  assert (live bs1 q s') as Hlq by (apply Hiff; by right).
  assert (live bs1 p s) as Hlp by (apply Hiff; by left).
  assert (rep m2 bs1) as Hr2 by (unfold m2, r2; rewrite <- Hp; apply (copy_rep m1 bs1 q s'); [done|done|lia]).
  destruct (rt_smem_free_spec m2 bs1 p s Hr2 Hlp) as (m' & E & R & S).
  change (heap_ptr m2) with (heap_ptr m1) in E. rewrite Hp in E.
  exists m'. split; [exact E|]. split; [done|]. pose proof (Hdis _ _ Hlive) as Hd.
  assert (forall a, data 0 (at_offset (fun b => [Blk (bsize b) false]) p bs1) a ->
    ram m' (heap_ptr m + a) = r2 (heap_ptr m + a)) as Hm'.
  { intros a Hda. rewrite <- Hp. by apply S. }
  split.
  - destruct HS, S. split; try (cbn in *; congruence). intros a Hda.
    apply data_live in Hda as (x & y & Hxy & Hay). apply (live_freed bs p s x y Hok Hlive) in Hxy as [Hxy Hne].
    rewrite Hm'.
    + pose proof (Hdis _ _ Hxy). unfold r2. rewrite copy_words_out by lia. apply same_data0.
      apply data_live. eauto.
    + apply data_live. exists x, y. split; [|done]. apply (live_freed bs1 p s x y Hok1 Hlp).
      split; [apply Hiff; by left|done].
  - intros a Hak. replace (heap_ptr m + q + a) with (heap_ptr m + (q + a)) by lia. rewrite Hm'.
    + unfold r2. rewrite copy_words_in by lia.
      replace (_ + (_ - _)) with (heap_ptr m + (p + a)) by lia.
      replace (heap_ptr m + p + a) with (heap_ptr m + (p + a)) by lia.
      apply (same_data _ _ _ HS). apply data_live. exists p, s. split; [done|lia].
    + apply data_live. exists q, s'. split; [|lia]. apply (live_freed bs1 p s q s' Hok1 Hlp).
      split; [done|]. pose proof (live_bounds _ _ _ Hok Hlive). lia.
Qed.

Definition aligned (n : Z) : Z := n + 3 - (n + 3) mod 4.

(** [bs'] holds the blocks of [bs] except the one at [p], with their data. *)
Definition others_kept (m m' : rt_small_mem) (bs bs' : list blk) (p : Z) : Prop :=
  forall x y, live bs x y -> x <> p -> live bs' x y /\
    forall a, x + 12 <= a < x + y -> ram m' (heap_ptr m + a) = ram m (heap_ptr m + a).

Lemma others_kept_at m m' f bs bs' p s :
  Forall blk_ok bs -> live bs p s -> same_heap m m' (at_offset f p bs) ->
  (forall x y, live bs x y -> x <> p -> live (at_offset f p bs) x y /\ live bs' x y) ->
  others_kept m m' bs bs' p.
Proof.
  intros Hok Hl HS H x y Hxy Hne. destruct (H _ _ Hxy Hne) as [H1 H2]. split; [done|].
  intros a Ha. apply (same_data _ _ _ HS). apply data_live. eauto.
Qed.

Lemma live_shrunk bs p s n q t :
  Forall blk_ok bs -> live bs p s -> 0 < n -> n + 36 < s ->
  live (at_offset (fun b => [Blk (n + 12) (bused b); Blk (bsize b - (n + 12)) false]) p bs) q t
  <-> (live bs q t /\ q <> p) \/ (q = p /\ t = n + 12).
Proof.
  intros Hok Hl Hn Hs. destruct (live_split _ _ _ Hl) as (l1 & l2 & -> & <-).
  pose proof Hok as [Ho1 [[H4 H1] Ho2]%Forall_cons]%Forall_app. cbn in H4, H1.
  rewrite at_offset_mid by done. cbn [app bsize bused]. rewrite !live_app. cbn.
  replace (q - span l1 - (n + 12) - (s - (n + 12))) with (q - span l1 - s) by lia. split.
  - intros [H|[(? & ? & _)|[(_ & _ & ?)|H]]]; [left|right; lia|done|left].
    + split; [by left|]. apply live_bounds in H; [lia|done].
    + split; [right; by right|]. apply live_bounds in H; [lia|done].
  - intros [[[H|[(? & _ & _)|H]] Hne]|[-> ->]]; [by left|lia|right; right; by right|].
    right. left. split_and!; [lia|done|done].
Qed.

(** What a successful reallocation of the block at [p] to [n] bytes returns. *)
Definition resized (m : rt_small_mem) (bs : list blk) (p s n r : Z) (m' : rt_small_mem)
    (bs' : list blk) : Prop :=
  rep m' bs' /\ heap_ptr m' = heap_ptr m /\
  exists q t, r = heap_ptr m + q + 12 /\ live bs' q t /\ n + 12 <= t /\
    (forall x y, live bs' x y -> (live bs x y /\ x <> p) \/ (x = q /\ y = t)) /\
    (forall x y, live bs x y -> x <> p -> x <> q) /\
    (forall a, 12 <= a < 12 + Z.min n (s - 12) ->
       ram m' (heap_ptr m + q + a) = ram m (heap_ptr m + p + a)) /\
    others_kept m m' bs bs' p.

Lemma resized_same m bs p s :
  rep m bs -> live bs p s -> resized m bs p s (s - 12) (heap_ptr m + p + 12) m bs.
Proof.
  intros Hr Hlive. pose proof (lay_ok _ _ (rep_lay _ _ Hr)) as Hok. split; [done|]. split; [done|].
  exists p, s. split_and!; try done; [lia|].
  intros x y Hxy. destruct (live_bounds _ _ _ Hok Hxy) as (? & ? & ? & _).
  destruct (live_disjoint _ _ _ _ _ Hok Hlive Hxy) as [[-> ->]|[?|?]]; [by right|..];
    left; (split; [done|]); pose proof (live_bounds _ _ _ Hok Hlive); lia.
Qed.

Lemma resized_shrink m bs p s n m' :
  rep m bs -> live bs p s -> 0 < n -> n + 36 < s -> rep m' (spec_shrink n p bs) ->
  same_heap m m' (at_offset (fun b => [Blk (n + 12) (bused b); Blk (bsize b - (n + 12)) false]) p bs) ->
  resized m bs p s n (heap_ptr m + p + 12) m' (spec_shrink n p bs).
Proof.
  intros Hr Hlive Hn Hns R S. pose proof (lay_ok _ _ (rep_lay _ _ Hr)) as Hok.
  split; [done|]. split; [apply S|].
  assert (forall x y, live (spec_shrink n p bs) x y <->
    (live bs x y /\ x <> p) \/ (x = p /\ y = n + 12)) as Hiff.
  { intros x y. unfold spec_shrink. rewrite live_merge. by apply (live_shrunk bs p s). }
  exists p, (n + 12). split_and!; [done|apply Hiff; by right|lia|apply Hiff|done| |].
  - intros a Ha. rewrite <- !Z.add_assoc. apply (same_data _ _ _ S). apply data_live.
    exists p, (n + 12). split; [|lia]. apply (live_shrunk bs p s); try done. by right.
  - eapply others_kept_at; [done|exact Hlive|exact S|]. intros x y Hxy Hne. split.
    + apply (live_shrunk bs p s); try done. by left.
    + apply Hiff. by left.
Qed.

Lemma spec_alloc_pos n bs p bs' : Forall blk_ok bs -> spec_alloc n bs = Some (p, bs') -> 0 <= p.
Proof.
  intros Hok (k1 & s1 & k2 & -> & -> & _)%spec_alloc_Some.
  apply Forall_app in Hok as [Hk1 _]. by apply span_nonneg.
Qed.

Lemma resized_move m bs p s n q bs1 m1 :
  rep m bs -> live bs p s -> 0 < n -> n mod 4 = 0 ->
  spec_alloc (Z.max 12 n) bs = Some (q, bs1) -> rep m1 bs1 -> same_heap m m1 bs ->
  exists m', rt_smem_free (set_ram m1 (copy_words (ram m1) (heap_ptr m + q + 12)
      (heap_ptr m + p + 12) (if s - 12 <? n then s - 12 else n))) (heap_ptr m + p + 12) = Ok m' /\
    resized m bs p s n (heap_ptr m + q + 12) m' (spec_free p bs1).
Proof.
  intros Hr Hlive Hn Hn4 Ha R1 S1. pose proof (lay_ok _ _ (rep_lay _ _ Hr)) as Hok.
  pose proof (lay_ok _ _ (rep_lay _ _ R1)) as Hok1.
  set (k := if s - 12 <? n then s - 12 else n).
  assert (k = Z.min n (s - 12)) as Ek by (subst k; zbool; lia). clearbody k.
  pose proof (live_bounds _ _ _ Hok Hlive) as HB.
  assert (0 < Z.max 12 n /\ Z.max 12 n mod 4 = 0) as [Hq Hq4] by zmod.
  destruct (move_spec m bs p s (Z.max 12 n) q bs1 m1 k Hr Hlive Hq Hq4) as (m' & E & R & S & D);
    [lia|lia|done|done|done|].
  destruct (live_alloc _ _ _ _ Hok Hq Hq4 Ha) as (t & Ht & Hiff & Hdis).
  assert (live bs1 p s) as Hlp by (apply Hiff; by left).
  assert (forall x y, live (spec_free p bs1) x y <-> live bs1 x y /\ x <> p) as Hfree
    by (intros x y; by eapply live_free).
  assert (q <> p) as Hqp by (pose proof (Hdis _ _ Hlive); lia).
  exists m'. split; [exact E|]. split; [exact R|]. split; [apply S|].
  exists q, t. split_and!; [done|apply Hfree; split; [apply Hiff; by right|done]|lia| | | |].
  - intros x y Hxy. apply Hfree in Hxy as [[?|?]%Hiff ?]; [by left|by right].
  - intros x y Hxy _. pose proof (Hdis _ _ Hxy). pose proof (live_bounds _ _ _ Hok Hxy). lia.
  - rewrite <- Ek. exact D.
  - eapply others_kept_at; [done|exact Hlive|exact S|]. intros x y Hxy Hne. split.
    + by eapply live_freed.
    + apply Hfree. split; [apply Hiff; by left|done].
Qed.

(** The guards of [rt_smem_realloc] on a block in use. *)
Lemma realloc_guards m bs p s newsize :
  rep m bs -> live bs p s -> 0 < newsize < 2 ^ 32 - 3 ->
  aligned newsize <= mem_size_aligned m ->
  let n := aligned newsize in
  rt_smem_realloc m (heap_ptr m + p + 12) newsize =
    if s - 12 =? n then Ok (heap_ptr m + p + 12, m)
    else if n + 24 <? s - 12 then
      let m1 := set_used m (u32 (used m - u32 (s - 12 - n))) in
      let mem2 := heap_ptr m + (p + (n + 12)) in
      let m2 := split_block m1 (heap_ptr m + p) p (p + (n + 12)) in
      let m3 := if mem2 <? lfree m2 then set_lfree m2 mem2 else m2 in
      m' ← plug_holes m3 mem2; Ok (heap_ptr m + p + 12, m')
    else
      nm ← rt_smem_alloc m n;
      let (nmem, m1) := nm : Z * rt_small_mem in
      if negb (nmem =? RT_NULL) then
        let m2 := set_ram m1 (copy_words (ram m1) nmem (heap_ptr m + p + 12)
                                (if s - 12 <? n then s - 12 else n)) in
        m' ← rt_smem_free m2 (heap_ptr m + p + 12); Ok (nmem, m')
      else Ok (nmem, m1).
Proof.
  intros Hr Hlive Hn Hfit n. pose proof (rep_lay _ _ Hr) as Hl. pose proof (lay_ok _ _ Hl) as Hok.
  pose proof (lay_span _ _ Hl) as Htot. destruct (lay_geo _ _ Hl) as [G1 G2 G3 G4 G5 G6 G7 G8].
  destruct (live_bounds _ _ _ Hok Hlive) as (B1 & B2 & B3 & B4 & B5).
  assert (0 < n /\ n mod 4 = 0) as [Hal Hal4] by (unfold n, aligned; zmod).
  destruct (live_split _ _ _ Hlive) as (l1 & l2 & Ebs & Esp).
  assert (next m (heap_ptr m + p) = p + s) as Hnx.
  { rewrite Ebs in Hl. rewrite <- Esp. by rewrite (heap_read_next _ _ _ _ Hl). }
  unfold rt_smem_realloc. rewrite RT_ALIGN_4 by lia. fold (aligned newsize). fold n in Hfit |- *.
  replace (mem_size_aligned m <? n) with false by lia.
  replace (n =? 0) with false by lia.
  replace (heap_ptr m + p + 12 =? RT_NULL) with false by (unfold RT_NULL; lia).
  rewrite aligned_land, SIZEOF_12.
  replace ((heap_ptr m + p + 12) mod 4 =? 0) with true by zmod.
  replace (heap_ptr m <=? _) with true by lia.
  replace (heap_ptr m + p + 12 <? heap_end m) with true by lia. cbn [rt_assert mbind result_bind].
  replace (heap_ptr m + p + 12 - 12) with (heap_ptr m + p) by lia.
  rewrite Hnx. replace (u32 (p + s - (heap_ptr m + p - heap_ptr m) - 12)) with (s - 12)
    by (rewrite u32_small; lia).
  change MIN_SIZE with 12. rewrite (u32_small (n + 12 + 12)) by lia.
  replace (n + 12 + 12) with (n + 24) by lia.
  destruct (s - 12 =? n); [done|]. destruct (n + 24 <? s - 12) eqn:E; [|done].
  replace (u32 (heap_ptr m + p - heap_ptr m + 12 + n)) with (p + (n + 12))
    by (rewrite u32_small; lia).
  by replace (heap_ptr m + p - heap_ptr m) with p by lia.
Qed.

Lemma rt_smem_realloc_spec m bs p s newsize :
  rep m bs -> live bs p s -> 0 < newsize < 2 ^ 32 - 3 ->
  (rt_smem_realloc m (heap_ptr m + p + 12) newsize = Ok (RT_NULL, m) /\
     spec_alloc (request newsize) bs = None) \/
  (exists r m' bs', rt_smem_realloc m (heap_ptr m + p + 12) newsize = Ok (r, m') /\
     resized m bs p s (aligned newsize) r m' bs').
Proof.
  intros Hr Hlive Hn. pose proof (rep_lay _ _ Hr) as Hl. pose proof (lay_ok _ _ Hl) as Hok.
  pose proof (geo_heap _ (lay_geo _ _ Hl)) as Hp0.
  assert (0 < aligned newsize /\ aligned newsize mod 4 = 0) as [Hal Hal4] by (unfold aligned; zmod).
  destruct (Z.ltb_spec (mem_size_aligned m) (aligned newsize)) as [Hbig|Hfit].
  { left. split.
    - unfold rt_smem_realloc. rewrite RT_ALIGN_4 by lia. fold (aligned newsize).
      by replace (_ <? aligned newsize) with true by lia.
    - apply (spec_alloc_too_large (mem_size_aligned m)); [done|apply Hl|].
      unfold request, aligned in *. lia. }
  rewrite (realloc_guards _ _ _ _ _ Hr Hlive Hn Hfit). cbn zeta.
  destruct (s - 12 =? aligned newsize) eqn:Esame.
  { right. eexists _, m, bs. split; [reflexivity|].
    replace (aligned newsize) with (s - 12) by lia. by apply resized_same. }
  destruct (aligned newsize + 24 <? s - 12) eqn:Eshrink.
  - right. destruct (shrink_spec m bs p s (aligned newsize) Hr Hlive Hal Hal4) as (m' & E & R & S); [lia|].
    cbn zeta in E. rewrite E. cbn [mbind result_bind].
    eexists _, m', _. split; [reflexivity|]. apply resized_shrink; try done. lia.
  - assert (aligned newsize < 2 ^ 32 - 3) as Hlt.
    { destruct (lay_geo _ _ Hl). lia. }
    pose proof (rt_smem_alloc_spec m bs (aligned newsize) Hr (conj Hal Hlt)) as Halloc.
    replace (request (aligned newsize)) with (Z.max 12 (aligned newsize)) in Halloc
      by (unfold request, aligned; zmod).
    change (request newsize) with (Z.max 12 (aligned newsize)).
    destruct (spec_alloc (Z.max 12 (aligned newsize)) bs) as [[q bs1]|] eqn:Esp1.
    + right. destruct Halloc as (m1 & -> & R1 & S1). cbn [mbind result_bind].
      pose proof (spec_alloc_pos _ _ _ _ Hok Esp1).
      replace (_ =? RT_NULL) with false by (unfold RT_NULL; lia). cbn [negb].
      destruct (resized_move m bs p s (aligned newsize) q bs1 m1 Hr Hlive Hal Hal4 Esp1 R1 S1)
        as (m' & E & R).
      rewrite E.
      cbn [mbind result_bind]. by eexists _, m', _.
    + left. rewrite Halloc. done.
Qed.

(** ** Clients *)

(** What a client that keeps a list of its pointers can ask for. *)
Inductive cmd := CAlloc (size : Z) | CFree (i : nat) | CRealloc (i : nat) (size : Z).

Definition cmd_ok (c : cmd) : Prop :=
  match c with CAlloc n | CRealloc _ n => 0 < n < 2 ^ 32 - 3 | CFree _ => True end.

Definition client_step (c : cmd) (m : rt_small_mem) (held : list Z)
  : result (rt_small_mem * list Z) :=
  match c with
  | CAlloc n =>
      '(p, m) ← rt_smem_alloc m n; Ok (m, if p =? RT_NULL then held else p :: held)
  | CFree i =>
      match held !! i with
      | Some p => m ← rt_smem_free m p; Ok (m, delete i held)
      | None => Ok (m, held)
      end
  | CRealloc i n =>
      match held !! i with
      | Some p => '(q, m) ← rt_smem_realloc m p n;
                  Ok (m, if q =? RT_NULL then held else <[i := q]> held)
      | None => Ok (m, held)
      end
  end.

Fixpoint client_run (cs : list cmd) (m : rt_small_mem) (held : list Z)
  : result (rt_small_mem * list Z) :=
  match cs with
  | [] => Ok (m, held)
  | c :: cs => '(m, held) ← client_step c m held; client_run cs m held
  end.

(** The pointers held are the blocks in use. *)
Definition client_inv (hp : Z) (m : rt_small_mem) (held : list Z) (bs : list blk) : Prop :=
  rep m bs /\ heap_ptr m = hp /\ NoDup held /\
  (forall p, p ∈ held <-> exists x s, live bs x s /\ p = hp + x + 12).

Lemma in_delete (held : list Z) i p q :
  NoDup held -> held !! i = Some p -> q ∈ delete i held <-> q ∈ held /\ q <> p.
Proof.
  intros Hnd Hi. destruct (list_elem_of_split_length _ _ _ Hi) as (l1 & l2 & -> & ->).
  rewrite delete_middle. apply NoDup_app in Hnd as (_ & Hd & Hnd).
  apply NoDup_cons in Hnd as [Hp _]. rewrite !elem_of_app, elem_of_cons. split.
  - intros [H|H]; (split; [tauto|]); intros ->; [|done].
    apply (Hd p H). apply elem_of_cons. by left.
  - intros [[?|[?|?]] ?]; tauto.
Qed.

Lemma in_insert (held : list Z) i p q x :
  NoDup held -> held !! i = Some p -> x ∈ <[i := q]> held <-> (x ∈ held /\ x <> p) \/ x = q.
Proof.
  intros Hnd Hi. destruct (list_elem_of_split_length _ _ _ Hi) as (l1 & l2 & -> & ->).
  rewrite insert_app_r_alt, Nat.sub_diag by lia. cbn.
  apply NoDup_app in Hnd as (_ & Hd & Hnd). apply NoDup_cons in Hnd as [Hp _].
  rewrite !elem_of_app, !elem_of_cons. split.
  - intros [H|[H|H]]; [left|by right|left]; (split; [tauto|]); intros ->; [|done].
    apply (Hd p H). apply elem_of_cons. by left.
  - intros [[[?|[?|?]] ?]|?]; tauto.
Qed.

Lemma NoDup_insert_fresh (held : list Z) i p q :
  NoDup held -> held !! i = Some p -> (q ∈ held -> q = p) -> NoDup (<[i := q]> held).
Proof.
  intros Hnd Hi Hq. destruct (decide (q = p)) as [->|Hne]; [by rewrite list_insert_id|].
  assert (q ∉ held) as Hq' by tauto.
  destruct (list_elem_of_split_length _ _ _ Hi) as (l1 & l2 & -> & ->).
  rewrite insert_app_r_alt, Nat.sub_diag by lia. cbn. rewrite !elem_of_app, elem_of_cons in Hq'.
  apply NoDup_app in Hnd as (H1 & Hd & Hnd). apply NoDup_cons in Hnd as [Hp Hnd].
  apply NoDup_app. split_and!; [done| |apply NoDup_cons; tauto].
  intros x Hx [->|H]%elem_of_cons; [tauto|]. apply (Hd x Hx). apply elem_of_cons. by right.
Qed.

Lemma client_alloc hp m held bs n :
  0 < n < 2 ^ 32 - 3 -> client_inv hp m held bs ->
  exists m' held' bs', client_step (CAlloc n) m held = Ok (m', held') /\ client_inv hp m' held' bs'.
Proof.
  intros Hn (Hr & <- & Hnd & Hheld). pose proof (lay_ok _ _ (rep_lay _ _ Hr)) as Hok.
  pose proof (geo_heap _ (lay_geo _ _ (rep_lay _ _ Hr))).
  pose proof (rt_smem_alloc_spec m bs n Hr Hn) as Ha. cbn [client_step].
  destruct (spec_alloc (request n) bs) as [[q bs']|] eqn:E.
  - destruct Ha as (m' & -> & R & S). cbn [mbind result_bind].
    pose proof (spec_alloc_pos _ _ _ _ Hok E).
    assert (0 < request n /\ request n mod 4 = 0) as [Hq Hq4] by (unfold request; zmod).
    destruct (live_alloc _ _ _ _ Hok Hq Hq4 E) as (t & Ht & Hiff & Hdis).
    replace (_ =? RT_NULL) with false by (unfold RT_NULL; lia).
    eexists m', _, bs'. split; [reflexivity|]. split_and!; [done|apply S| |].
    + apply NoDup_cons. split; [|done]. intros (x & s & Hl & Hx)%Hheld.
      pose proof (Hdis _ _ Hl). pose proof (live_bounds _ _ _ Hok Hl). lia.
    + intros p. rewrite elem_of_cons, Hheld. split.
      * intros [->|(x & s & Hl & ->)]; eexists _, _; (split; [apply Hiff|done]); [by right|by left].
      * intros (x & s & [Hl|[-> ->]]%Hiff & ->); [right; eauto|by left].
  - rewrite Ha. cbn [mbind result_bind]. rewrite Z.eqb_refl. by exists m, held, bs.
Qed.

Lemma client_free m held bs i p x s :
  client_inv (heap_ptr m) m held bs -> held !! i = Some p -> live bs x s ->
  p = heap_ptr m + x + 12 ->
  exists m' bs', client_step (CFree i) m held = Ok (m', delete i held) /\
    client_inv (heap_ptr m) m' (delete i held) bs'.
Proof.
  intros (Hr & _ & Hnd & Hheld) Hi Hl ->. pose proof (lay_ok _ _ (rep_lay _ _ Hr)) as Hok.
  cbn [client_step]. rewrite Hi. destruct (rt_smem_free_spec m bs x s Hr Hl) as (m' & -> & R & S).
  cbn [mbind result_bind]. eexists m', _. split; [reflexivity|]. split_and!; [exact R|apply S| |].
  - eapply sublist_NoDup; [exact Hnd|]. apply sublist_delete.
  - intros q. rewrite (in_delete _ _ _ _ Hnd Hi), Hheld. split.
    + intros [(y & t & Hy & ->) Hne]. exists y, t. split; [|done].
      apply (live_free bs x s y t Hok Hl). split; [done|lia].
    + intros (y & t & Hy & ->). apply (live_free bs x s y t Hok Hl) in Hy as [Hy Hne].
      split; [eauto|lia].
Qed.

Lemma client_realloc m held bs i p x s n :
  0 < n < 2 ^ 32 - 3 -> client_inv (heap_ptr m) m held bs -> held !! i = Some p -> live bs x s ->
  p = heap_ptr m + x + 12 ->
  exists m' held' bs', client_step (CRealloc i n) m held = Ok (m', held') /\
    client_inv (heap_ptr m) m' held' bs'.
Proof.
  intros Hn (Hr & Hhp & Hnd & Hheld) Hi Hl ->. pose proof (lay_ok _ _ (rep_lay _ _ Hr)) as Hok.
  pose proof (geo_heap _ (lay_geo _ _ (rep_lay _ _ Hr))).
  cbn [client_step]. rewrite Hi.
  destruct (rt_smem_realloc_spec m bs x s n Hr Hl Hn) as [[-> _]|(r & m' & bs' & -> & R & Hp & q & t
    & -> & Hq & _ & Hback & Hfresh & _ & Hkept)]; cbn [mbind result_bind].
  { rewrite Z.eqb_refl. exists m, held, bs. by split_and!. }
  destruct (live_bounds _ _ _ (lay_ok _ _ (rep_lay _ _ R)) Hq) as (B & _).
  replace (_ =? RT_NULL) with false by (unfold RT_NULL; lia).
  eexists m', _, bs'. split; [reflexivity|]. split_and!; [done|done| |].
  - eapply NoDup_insert_fresh; [done|exact Hi|]. intros (y & u & Hy & E)%Hheld.
    destruct (decide (y = x)) as [->|Hne]; [done|]. pose proof (Hfresh _ _ Hy Hne). lia.
  - intros z. rewrite (in_insert _ _ _ _ _ Hnd Hi), Hheld. split.
    + intros [[(y & u & Hy & ->) Hne]| ->]; [|by exists q, t].
      exists y, u. split; [|done]. apply Hkept; [done|lia].
    + intros (y & u & [[Hy Hne]|[-> ->]]%Hback & ->); [left; split; [eauto|lia]|by right].
Qed.

Lemma client_step_spec hp c m held bs :
  cmd_ok c -> client_inv hp m held bs ->
  exists m' held' bs', client_step c m held = Ok (m', held') /\ client_inv hp m' held' bs'.
Proof.
  intros Hc Hinv. pose proof Hinv as (Hr & Hp & Hnd & Hheld). subst hp.
  destruct c as [n|i|i n]; [by eapply client_alloc| |].
  - destruct (held !! i) as [p|] eqn:Hi; [|cbn; rewrite Hi; by exists m, held, bs].
    pose proof (list_elem_of_lookup_2 _ _ _ Hi) as Hin. apply Hheld in Hin as (x & s & Hl & E).
    destruct (client_free m held bs i p x s Hinv Hi Hl E) as (m' & bs' & H). by eexists m', _, bs'.
  - destruct (held !! i) as [p|] eqn:Hi; [|cbn; rewrite Hi; by exists m, held, bs].
    pose proof (list_elem_of_lookup_2 _ _ _ Hi) as Hin. apply Hheld in Hin as (x & s & Hl & E).
    by eapply client_realloc.
Qed.

Lemma client_run_spec hp cs m held bs :
  Forall cmd_ok cs -> client_inv hp m held bs ->
  exists m' held' bs', client_run cs m held = Ok (m', held') /\ client_inv hp m' held' bs'.
Proof.
  intros Hcs. revert m held bs. induction Hcs as [|c cs Hc _ IH]; intros m held bs Hinv.
  { by exists m, held, bs. }
  destruct (client_step_spec hp c m held bs Hc Hinv) as (m1 & held1 & bs1 & E & H1).
  cbn [client_run]. rewrite E. cbn [mbind result_bind]. by eapply IH.
Qed.

(** A heap without a block in use is one free block. *)
Lemma nothing_live bs :
  separated bs -> Forall blk_ok bs -> bs <> [] -> (forall p s, ~ live bs p s) ->
  bs = [Blk (span bs) false].
Proof.
  intros Hsep Hok Hne Hl. destruct bs as [|[s1 u1] bs]; [done|].
  destruct u1; [by destruct (Hl 0 s1); left|].
  destruct bs as [|[s2 u2] bs]; [cbn; by rewrite Z.add_0_r|].
  destruct Hsep as [[?|Hu] _]; [done|]. cbn in Hu. subst u2.
  destruct (Hl s1 s2). cbn. right. left. split_and!; [lia|done|done].
Qed.

Lemma client_inv_empty hp m bs :
  client_inv hp m [] bs -> bs = [Blk (mem_size_aligned m + 12) false] /\ used m = 0.
Proof.
  intros (Hr & _ & _ & Hheld). pose proof (rep_lay _ _ Hr) as Hl.
  pose proof (geo_size _ (lay_geo _ _ Hl)). pose proof (lay_span _ _ Hl) as Hs.
  assert (bs = [Blk (mem_size_aligned m + 12) false]) as ->.
  { rewrite <- Hs. apply nothing_live; [apply Hr|apply Hl| |].
    - intros ->. cbn in Hs. lia.
    - intros p s Hlive. assert (hp + p + 12 ∈ @nil Z) as Hin by (apply Hheld; eauto). inversion Hin. }
  split; [done|]. by rewrite (rep_used _ _ Hr).
Qed.

End Heap.
