(* ===== verification/SmallMem.v ===== *)
(** * The small memory allocator (rt-thread/src/mem.c)

    The kernel heap: a chain of blocks, each with a header of three words (owner and
    used bit, offset of the next header, offset of the previous one), a sentinel
    header at the end, and a pointer to the lowest free block.  The headers live in
    the memory the heap was made in, between the data of the users.  Every access to a
    header, and both areas of a copy, must be aligned and inside that memory, behind
    the object at its beginning: any other access is a fault of the model.

    The file [Heap] has the record of the object, the same steps without these
    checks, and the list of blocks as the specification.  Here each operation is shown
    to make allowed accesses only, and so to be those steps.  The theorems: the
    operations implement the list of blocks, so that blocks never overlap, a request
    fails only when no free block is large enough, freed neighbours are merged, and no
    operation touches the data of a block in use; whatever a client asks for, no access
    is out of bounds. *)

From S2P Require Import Prelude Heap.

Module SmallMem.
Import Heap.

(** ** Accesses *)

Definition inside (m : rt_small_mem) (a n : Z) : bool :=
  (heap_ptr m <=? a) && (a + n <=? fst (given m) + snd (given m)).
Definition load (m : rt_small_mem) (a : Z) : result Z :=
  if (a mod 4 =? 0) && inside m a 4 then Ok (ram m a) else Fault OutOfBounds.
Definition save (m : rt_small_mem) (a v : Z) : result rt_small_mem :=
  if (a mod 4 =? 0) && inside m a 4 then Ok (set_ram m (store (ram m) a v)) else Fault OutOfBounds.

(** The fields of the header at an address ([struct rt_small_mem_item]). *)
Definition pool_ptr (m : rt_small_mem) (mem : Z) : result Z := load m mem.
Definition next (m : rt_small_mem) (mem : Z) : result Z := load m (mem + 4).
Definition prev (m : rt_small_mem) (mem : Z) : result Z := load m (mem + 8).
Definition set_pool_ptr (m : rt_small_mem) (mem v : Z) : result rt_small_mem := save m mem v.
Definition set_next (m : rt_small_mem) (mem v : Z) : result rt_small_mem := save m (mem + 4) v.
Definition set_prev (m : rt_small_mem) (mem v : Z) : result rt_small_mem := save m (mem + 8) v.

Definition MEM_ISUSED (m : rt_small_mem) (mem : Z) : result bool :=
  p ← pool_ptr m mem; Ok (negb (Z.land p (u32 (Z.lnot MEM_MASK)) =? 0)).
Definition MEM_POOL (m : rt_small_mem) (mem : Z) : result Z :=
  p ← pool_ptr m mem; Ok (Z.land p MEM_MASK).

(** ** Operations *)

(** [plug_holes]: the part under "plug hole forward". *)
Definition plug_forward (m : rt_small_mem) (mem : Z) : result rt_small_mem :=
  n ← next m mem;
  let nmem := heap_ptr m + n in
  free ← (if mem =? nmem then Ok false
          else u ← MEM_ISUSED m nmem; Ok (negb u && negb (nmem =? heap_end m)));
  if (free : bool) then
    let m := if lfree m =? nmem then set_lfree m mem else m in
    m ← set_pool_ptr m nmem 0;
    n ← next m nmem;
    m ← set_next m mem n;
    n ← next m nmem;
    set_prev m (heap_ptr m + n) (mem - heap_ptr m)
  else Ok m.

(** [plug_holes]: the part under "plug hole backward". *)
Definition plug_backward (m : rt_small_mem) (mem : Z) : result rt_small_mem :=
  p ← prev m mem;
  let pmem := heap_ptr m + p in
  free ← (if pmem =? mem then Ok false else u ← MEM_ISUSED m pmem; Ok (negb u));
  if (free : bool) then
    let m := if lfree m =? mem then set_lfree m pmem else m in
    m ← set_pool_ptr m mem 0;
    n ← next m mem;
    m ← set_next m pmem n;
    n ← next m mem;
    set_prev m (heap_ptr m + n) (pmem - heap_ptr m)
  else Ok m.

Definition plug_holes (m : rt_small_mem) (mem : Z) : result rt_small_mem :=
  _ ← rt_assert (heap_ptr m <=? mem);
  _ ← rt_assert (mem <? heap_end m);
  m ← plug_forward m mem;
  plug_backward m mem.

(** [rt_smem_init], on a memory [r] of which the area is given; the registration of
    the kernel object is not part of the model.  [None] is [RT_NULL]. *)
Definition rt_smem_init (r : Z -> Z) (begin_addr size : Z) : result (option rt_small_mem) :=
  let small_mem := RT_ALIGN begin_addr RT_ALIGN_SIZE in
  let start_addr := u32 (small_mem + sizeof_smem) in
  let begin_align := RT_ALIGN start_addr RT_ALIGN_SIZE in
  let end_align := RT_ALIGN_DOWN (u32 (begin_addr + size)) RT_ALIGN_SIZE in
  if (2 * SIZEOF_STRUCT_MEM <? end_align) &&
     (start_addr <=? u32 (end_align - 2 * SIZEOF_STRUCT_MEM)) then
    let mem_size := u32 (end_align - begin_align - 2 * SIZEOF_STRUCT_MEM) in
    (* [rt_memset(small_mem, 0, sizeof( *small_mem))] *)
    _ ← (if (begin_addr <=? small_mem) && (small_mem + sizeof_smem <=? begin_addr + size)
         then Ok tt else Fault OutOfBounds);
    let mem := begin_align in
    let m := mk_smem (begin_addr, size) small_mem begin_align 0 0 mem_size mem_size 0 0 r in
    m ← set_pool_ptr m mem (MEM_FREED small_mem);
    m ← set_next m mem (u32 (mem_size + SIZEOF_STRUCT_MEM));
    m ← set_prev m mem 0;
    n ← next m mem;
    let heap_end := heap_ptr m + n in
    let m := mk_smem (begin_addr, size) small_mem begin_align heap_end 0 mem_size mem_size 0 0 (ram m) in
    m ← set_pool_ptr m heap_end (MEM_USED small_mem);
    m ← set_next m heap_end (u32 (mem_size + SIZEOF_STRUCT_MEM));
    m ← set_prev m heap_end (u32 (mem_size + SIZEOF_STRUCT_MEM));
    Ok (Some (set_lfree m (heap_ptr m)))
  else Ok None.

(** The split of [mem] at [ptr2], shared by the two places of the source that
    write it out: a new free header [mem2] between [mem] and [mem->next]. *)
Definition split_block (m : rt_small_mem) (mem ptr ptr2 : Z) : result rt_small_mem :=
  let mem2 := heap_ptr m + ptr2 in
  m ← set_pool_ptr m mem2 (MEM_FREED (self m));
  n ← next m mem;
  m ← set_next m mem2 n;
  m ← set_prev m mem2 ptr;
  m ← set_next m mem ptr2;
  n ← next m mem2;
  if negb (n =? u32 (mem_size_aligned m + SIZEOF_STRUCT_MEM))
  then set_prev m (heap_ptr m + n) ptr2 else Ok m.

(** The body of the [for] loop of [rt_smem_alloc] once a block fits: the split,
    the accounting and the use bit. *)
Definition carve (m : rt_small_mem) (ptr size : Z) : result rt_small_mem :=
  let mem := heap_ptr m + ptr in
  n ← next m mem;
  m ← (if u32 (u32 (size + SIZEOF_STRUCT_MEM) + MIN_SIZE_ALIGNED) <=?
            u32 (n - u32 (ptr + SIZEOF_STRUCT_MEM)) then
         let ptr2 := u32 (ptr + SIZEOF_STRUCT_MEM + size) in
         m ← split_block m mem ptr ptr2;
         Ok (add_used m (u32 (size + SIZEOF_STRUCT_MEM)))
       else n ← next m mem; Ok (add_used m (u32 (n - (mem - heap_ptr m)))));
  set_pool_ptr m mem (MEM_USED (self m)).

(** "Find next free block after mem and update lowest free pointer". *)
Fixpoint next_lfree (fuel : nat) (m : rt_small_mem) : result rt_small_mem :=
  match fuel with
  | O => Fault OutOfFuel
  | S fuel =>
      u ← MEM_ISUSED m (lfree m);
      if u && negb (lfree m =? heap_end m) then
        n ← next m (lfree m);
        next_lfree fuel (set_lfree m (heap_ptr m + n))
      else Ok m
  end.

Definition alloc_at (m : rt_small_mem) (ptr size : Z) : result (Z * rt_small_mem) :=
  let mem := heap_ptr m + ptr in
  m ← carve m ptr size;
  m ← (if mem =? lfree m then
         m ← next_lfree (walk_fuel m) m;
         free ← (if lfree m =? heap_end m then Ok true else u ← MEM_ISUSED m (lfree m); Ok (negb u));
         _ ← rt_assert free;
         Ok m
       else Ok m);
  _ ← rt_assert (mem + SIZEOF_STRUCT_MEM + size <=? heap_end m);
  _ ← rt_assert ((mem + SIZEOF_STRUCT_MEM) mod RT_ALIGN_SIZE =? 0);
  _ ← rt_assert (Z.land mem (RT_ALIGN_SIZE - 1) =? 0);
  Ok (mem + SIZEOF_STRUCT_MEM, m).

(** The [for] loop of [rt_smem_alloc] from [ptr]. *)
Fixpoint alloc_from (fuel : nat) (m : rt_small_mem) (size ptr : Z)
  : result (Z * rt_small_mem) :=
  match fuel with
  | O => Fault OutOfFuel
  | S fuel =>
      if ptr <=? u32 (mem_size_aligned m - size) then
        let mem := heap_ptr m + ptr in
        u ← MEM_ISUSED m mem;
        n ← next m mem;
        if negb u && (size <=? u32 (n - u32 (ptr + SIZEOF_STRUCT_MEM)))
        then alloc_at m ptr size
        else alloc_from fuel m size n
      else Ok (RT_NULL, m)
  end.

Definition rt_smem_alloc (m : rt_small_mem) (size : Z) : result (Z * rt_small_mem) :=
  if size =? 0 then Ok (RT_NULL, m)
  else
    let size := RT_ALIGN size RT_ALIGN_SIZE in
    if mem_size_aligned m <? size then Ok (RT_NULL, m)
    else
      let size := if size <? MIN_SIZE_ALIGNED then MIN_SIZE_ALIGNED else size in
      alloc_from (walk_fuel m) m size (lfree m - heap_ptr m).

(** [rt_smem_free] from "... and is now unused" to the call of [plug_holes]. *)
Definition free_mark (m : rt_small_mem) (mem : Z) : result rt_small_mem :=
  m ← set_pool_ptr m mem (MEM_FREED (self m));
  let m := if mem <? lfree m then set_lfree m mem else m in
  n ← next m mem;
  Ok (set_used m (u32 (used m - u32 (n - (mem - heap_ptr m))))).

(** The source finds the object through the header; the model has one object,
    and a header that names another one is an access outside it. *)
Definition rt_smem_free (m : rt_small_mem) (rmem : Z) : result rt_small_mem :=
  if rmem =? RT_NULL then Ok m
  else
    _ ← rt_assert (Z.land rmem (RT_ALIGN_SIZE - 1) =? 0);
    let mem := rmem - SIZEOF_STRUCT_MEM in
    small_mem ← MEM_POOL m mem;
    _ ← rt_assert (negb (small_mem =? RT_NULL));
    u ← MEM_ISUSED m mem;
    _ ← rt_assert u;
    _ ← (if small_mem =? self m then Ok tt else Fault OutOfBounds);
    _ ← rt_assert ((heap_ptr m <=? rmem) && (rmem <? heap_end m));
    n ← next m mem;
    p ← MEM_POOL m (heap_ptr m + n);
    _ ← rt_assert (p =? small_mem);
    m ← free_mark m mem;
    plug_holes m mem.

(** [rt_memcpy] between two aligned addresses, [n] a multiple of 4. *)
Definition rt_memcpy (m : rt_small_mem) (dst src n : Z) : result rt_small_mem :=
  if inside m dst n && inside m src n then Ok (set_ram m (copy_words (ram m) dst src n))
  else Fault OutOfBounds.

Definition rt_smem_realloc (m : rt_small_mem) (rmem newsize : Z)
  : result (Z * rt_small_mem) :=
  let newsize := RT_ALIGN newsize RT_ALIGN_SIZE in
  if mem_size_aligned m <? newsize then Ok (RT_NULL, m)
  else if newsize =? 0 then m ← rt_smem_free m rmem; Ok (RT_NULL, m)
  else if rmem =? RT_NULL then rt_smem_alloc m newsize
  else
    _ ← rt_assert (Z.land rmem (RT_ALIGN_SIZE - 1) =? 0);
    _ ← rt_assert (heap_ptr m <=? rmem);
    _ ← rt_assert (rmem <? heap_end m);
    let mem := rmem - SIZEOF_STRUCT_MEM in
    let ptr := mem - heap_ptr m in
    n ← next m mem;
    let size := u32 (n - ptr - SIZEOF_STRUCT_MEM) in
    if size =? newsize then Ok (rmem, m)
    else if u32 (newsize + SIZEOF_STRUCT_MEM + MIN_SIZE) <? size then
      let m := set_used m (u32 (used m - u32 (size - newsize))) in
      let ptr2 := u32 (ptr + SIZEOF_STRUCT_MEM + newsize) in
      let mem2 := heap_ptr m + ptr2 in
      m ← split_block m mem ptr ptr2;
      let m := if mem2 <? lfree m then set_lfree m mem2 else m in
      m ← plug_holes m mem2;
      Ok (rmem, m)
    else
      nm ← rt_smem_alloc m newsize;
      let (nmem, m) := nm : Z * rt_small_mem in
      if negb (nmem =? RT_NULL) then
        m ← rt_memcpy m nmem rmem (if size <? newsize then size else newsize);
        m ← rt_smem_free m rmem;
        Ok (nmem, m)
      else Ok (nmem, m).

(** ** Clients *)

(** A client that keeps a list of its pointers ([cmd] of [Heap]). *)
Definition client_step (c : cmd) (m : rt_small_mem) (held : list Z)
  : result (rt_small_mem * list Z) :=
  match c with
  | CAlloc n =>
      '(p, m) ← rt_smem_alloc m n; Ok (m, if p =? RT_NULL then held else p :: held)
  | CFree i =>
      match held !! i with
      | Some p => m ← rt_smem_free m p; Ok (m, delete i held)
      | None => Ok (m, held)
      end
  | CRealloc i n =>
      match held !! i with
      | Some p => '(q, m) ← rt_smem_realloc m p n;
                  Ok (m, if q =? RT_NULL then held else <[i := q]> held)
      | None => Ok (m, held)
      end
  end.

Fixpoint client_run (cs : list cmd) (m : rt_small_mem) (held : list Z)
  : result (rt_small_mem * list Z) :=
  match cs with
  | [] => Ok (m, held)
  | c :: cs => '(m, held) ← client_step c m held; client_run cs m held
  end.

(** ** Every access is allowed *)

(** The offsets [P] of the headers, the sentinel's included: aligned, inside, apart
    from each other, and closed under the offsets the headers hold. *)
Record closed (m : rt_small_mem) (P : Z -> Prop) : Prop := {
  cl_base : heap_ptr m mod 4 = 0;
  cl_header q : P q -> q mod 4 = 0 /\ 0 <= q /\ heap_ptr m + q + 12 <= fst (given m) + snd (given m);
  cl_apart p q : P p -> P q -> p = q \/ p + 12 <= q \/ q + 12 <= p;
  cl_next q : P q -> P (Heap.next m (heap_ptr m + q));
  cl_prev q : P q -> heap_ptr m + q <> heap_end m -> P (Heap.prev m (heap_ptr m + q));
  cl_lfree : P (lfree m - heap_ptr m);
  cl_end : P (heap_end m - heap_ptr m) }.

(** A header at an address; one that may be made at an offset. *)
Definition hd (m : rt_small_mem) (P : Z -> Prop) (mem : Z) : Prop := P (mem - heap_ptr m).
Record room_at (m : rt_small_mem) (P : Z -> Prop) (q : Z) : Prop := {
  ra_header : q mod 4 = 0 /\ 0 <= q /\ heap_ptr m + q + 12 <= fst (given m) + snd (given m);
  ra_apart p : P p -> p + 12 <= q \/ q + 12 <= p }.

Lemma hd_offset m P q : P q -> hd m P (heap_ptr m + q).
Proof. intros H. unfold hd. by replace (heap_ptr m + q - heap_ptr m) with q by lia. Qed.
Lemma hd_next m P mem : closed m P -> hd m P mem -> P (Heap.next m mem).
Proof. intros C H. pose proof (cl_next _ _ C _ H) as Hn. by replace (heap_ptr m + (mem - heap_ptr m)) with mem in Hn by lia. Qed.
Lemma hd_prev m P mem : closed m P -> hd m P mem -> mem <> heap_end m -> P (Heap.prev m mem).
Proof.
  intros C H He. pose proof (cl_prev _ _ C _ H) as Hn. replace (heap_ptr m + (mem - heap_ptr m)) with mem in Hn by lia. auto.
Qed.

Section Access.
Context (m : rt_small_mem) (q k : Z).
Context (Hb : heap_ptr m mod 4 = 0).
Context (Hq : q mod 4 = 0 /\ 0 <= q /\ heap_ptr m + q + 12 <= fst (given m) + snd (given m)).
Context (Hk : k = 0 \/ k = 4 \/ k = 8).

Lemma load_ok a : a = heap_ptr m + q + k -> load m a = Ok (ram m a).
Proof using Hb Hq Hk.
  intros ->. unfold load, inside.
  assert ((heap_ptr m + q + k) mod 4 = 0) as E by (destruct Hq as (Hq4 & _); destruct Hk as [-> |[-> | ->]]; zmod).
  rewrite E, Z.eqb_refl. by replace (_ && _) with true by lia.
Qed.
Lemma save_ok a v : a = heap_ptr m + q + k -> save m a v = Ok (set_ram m (store (ram m) a v)).
Proof using Hb Hq Hk.
  intros ->. unfold save, inside.
  assert ((heap_ptr m + q + k) mod 4 = 0) as E by (destruct Hq as (Hq4 & _); destruct Hk as [-> |[-> | ->]]; zmod).
  rewrite E, Z.eqb_refl. by replace (_ && _) with true by lia.
Qed.
End Access.

Section Headers.
Context (m : rt_small_mem) (mem : Z).
Context (Hb : heap_ptr m mod 4 = 0).
Context (Hq : (mem - heap_ptr m) mod 4 = 0 /\ 0 <= mem - heap_ptr m /\ heap_ptr m + (mem - heap_ptr m) + 12 <= fst (given m) + snd (given m)).

Lemma pool_ptr_at : pool_ptr m mem = Ok (Heap.pool_ptr m mem).
Proof using Hb Hq. unfold pool_ptr. apply (load_ok m (mem - heap_ptr m) 0); [done|done|auto|lia]. Qed.
Lemma next_at : next m mem = Ok (Heap.next m mem).
Proof using Hb Hq. unfold next. apply (load_ok m (mem - heap_ptr m) 4); [done|done|auto|lia]. Qed.
Lemma prev_at : prev m mem = Ok (Heap.prev m mem).
Proof using Hb Hq. unfold prev. apply (load_ok m (mem - heap_ptr m) 8); [done|done|auto|lia]. Qed.
Lemma set_pool_ptr_at v : set_pool_ptr m mem v = Ok (Heap.set_pool_ptr m mem v).
Proof using Hb Hq. unfold set_pool_ptr. apply (save_ok m (mem - heap_ptr m) 0); [done|done|auto|lia]. Qed.
Lemma set_next_at v : set_next m mem v = Ok (Heap.set_next m mem v).
Proof using Hb Hq. unfold set_next. apply (save_ok m (mem - heap_ptr m) 4); [done|done|auto|lia]. Qed.
Lemma set_prev_at v : set_prev m mem v = Ok (Heap.set_prev m mem v).
Proof using Hb Hq. unfold set_prev. apply (save_ok m (mem - heap_ptr m) 8); [done|done|auto|lia]. Qed.
End Headers.

Section Closed.
Context (m : rt_small_mem) (P : Z -> Prop) (C : closed m P).

Lemma read_pool_ptr mem : hd m P mem -> pool_ptr m mem = Ok (Heap.pool_ptr m mem).
Proof using C. intros H. apply pool_ptr_at; by apply C. Qed.
Lemma read_next mem : hd m P mem -> next m mem = Ok (Heap.next m mem).
Proof using C. intros H. apply next_at; by apply C. Qed.
Lemma read_prev mem : hd m P mem -> prev m mem = Ok (Heap.prev m mem).
Proof using C. intros H. apply prev_at; by apply C. Qed.
Lemma write_pool_ptr mem v : hd m P mem -> set_pool_ptr m mem v = Ok (Heap.set_pool_ptr m mem v).
Proof using C. intros H. apply set_pool_ptr_at; by apply C. Qed.
Lemma write_next mem v : hd m P mem -> set_next m mem v = Ok (Heap.set_next m mem v).
Proof using C. intros H. apply set_next_at; by apply C. Qed.
Lemma write_prev mem v : hd m P mem -> set_prev m mem v = Ok (Heap.set_prev m mem v).
Proof using C. intros H. apply set_prev_at; by apply C. Qed.
Lemma is_used_ok mem : hd m P mem -> MEM_ISUSED m mem = Ok (Heap.MEM_ISUSED m mem).
Proof using C. intros H. unfold MEM_ISUSED. by rewrite read_pool_ptr. Qed.
Lemma pool_ok mem : hd m P mem -> MEM_POOL m mem = Ok (Heap.MEM_POOL m mem).
Proof using C. intros H. unfold MEM_POOL. by rewrite read_pool_ptr. Qed.

(** *** Writes keep the headers closed *)

Lemma closed_ram r :
  (forall q, P q -> P (r (heap_ptr m + q + 4))) ->
  (forall q, P q -> heap_ptr m + q <> heap_end m -> P (r (heap_ptr m + q + 8))) -> closed (set_ram m r) P.
Proof using C. intros Hn Hp. destruct C. by split. Qed.
Lemma closed_store a v :
  (forall q, P q -> a = heap_ptr m + q + 4 -> P v) -> (forall q, P q -> a = heap_ptr m + q + 8 -> P v) ->
  closed (set_ram m (store (ram m) a v)) P.
Proof using C.
  intros Hn Hp. apply closed_ram; intros q Hq.
  - unfold store. destruct (Z.eqb_spec (heap_ptr m + q + 4) a); [by apply (Hn q)|by apply C].
  - intros He. unfold store. destruct (Z.eqb_spec (heap_ptr m + q + 8) a); [by apply (Hp q)|by apply C].
Qed.
Lemma closed_set_pool_ptr mem v : hd m P mem -> closed (Heap.set_pool_ptr m mem v) P.
Proof using C. intros H. apply closed_store; intros q Hq E; destruct (cl_apart _ _ C _ _ H Hq); lia. Qed.
Lemma closed_set_next mem v : hd m P mem -> P v -> closed (Heap.set_next m mem v) P.
Proof using C. intros H Hv. by apply closed_store. Qed.
Lemma closed_set_prev mem v : hd m P mem -> P v -> closed (Heap.set_prev m mem v) P.
Proof using C. intros H Hv. by apply closed_store. Qed.
Lemma closed_set_lfree p : hd m P p -> closed (set_lfree m p) P.
Proof using C. intros H. destruct C. by split. Qed.
Lemma closed_set_used n : closed (set_used m n) P.
Proof using C. destruct C. by split. Qed.
Lemma closed_add_used n : closed (add_used m n) P.
Proof using C. destruct C. by split. Qed.

(** A store at a header to be made. *)
Lemma closed_room q k v : room_at m P q -> 0 <= k <= 8 -> closed (set_ram m (store (ram m) (heap_ptr m + q + k) v)) P.
Proof using C. intros R Hk. apply closed_store; intros p Hp E; destruct (ra_apart _ _ _ R p Hp); lia. Qed.
(** The header made. *)
Lemma closed_add q :
  room_at m P q -> P (Heap.next m (heap_ptr m + q)) -> P (Heap.prev m (heap_ptr m + q)) ->
  closed m (fun p => P p \/ p = q).
Proof using C.
  intros R Hn Hp. destruct C. split; try by left.
  - done.
  - intros p [H| ->]; [by apply cl_header0|apply R].
  - intros p p' [H| ->] [H'| ->]; [by apply cl_apart0|destruct (ra_apart _ _ _ R p H); lia|destruct (ra_apart _ _ _ R p' H'); lia|by left].
  - intros p [H| ->]; left; [by apply cl_next0|done].
  - intros p [H| ->] He; left; [by apply cl_prev0|done].
Qed.
End Closed.

Lemma room_ram m P q r : room_at m P q -> room_at (set_ram m r) P q.
Proof. by intros []. Qed.

(** ** Each operation makes allowed accesses only *)

Lemma plug_forward_ok m P mem :
  closed m P -> hd m P mem ->
  plug_forward m mem = Ok (Heap.plug_forward m mem) /\ closed (Heap.plug_forward m mem) P /\
  heap_ptr (Heap.plug_forward m mem) = heap_ptr m /\ heap_end (Heap.plug_forward m mem) = heap_end m.
Proof.
  intros C H. unfold plug_forward, Heap.plug_forward. rewrite (read_next m P) by done. cbn [mbind result_bind].
  set (nmem := heap_ptr m + Heap.next m mem). assert (hd m P nmem) as Hn by by apply hd_offset, hd_next.
  destruct (Z.eqb_spec mem nmem) as [E|E]; cbn [negb andb mbind result_bind]; [done|].
  rewrite (is_used_ok m P) by done. cbn [mbind result_bind]. destruct (negb _ && negb _); [|done].
  set (m1 := if lfree m =? nmem then set_lfree m mem else m).
  assert (closed m1 P) as C1 by (unfold m1; destruct (_ =? _); [by apply closed_set_lfree|done]).
  assert (heap_ptr m1 = heap_ptr m /\ heap_end m1 = heap_end m) as [E1 E1'] by (unfold m1; by destruct (_ =? _)). clearbody m1.
  assert (forall a, hd m P a -> hd m1 P a) as H1 by (unfold hd; by rewrite E1).
  rewrite (write_pool_ptr m1 P) by auto. cbn [mbind result_bind]. set (m2 := Heap.set_pool_ptr m1 nmem 0).
  assert (closed m2 P) as C2 by (apply closed_set_pool_ptr; auto). assert (forall a, hd m P a -> hd m2 P a) as H2 by exact H1.
  rewrite (read_next m2 P) by auto. cbn [mbind result_bind]. rewrite (write_next m2 P) by auto. cbn [mbind result_bind].
  set (m3 := Heap.set_next m2 mem (Heap.next m2 nmem)).
  assert (closed m3 P) as C3 by (apply closed_set_next; [done|auto|apply hd_next; auto]). assert (forall a, hd m P a -> hd m3 P a) as H3 by exact H1.
  rewrite (read_next m3 P) by auto. cbn [mbind result_bind].
  assert (hd m3 P (heap_ptr m3 + Heap.next m3 nmem)) as H4 by (apply hd_offset, hd_next; auto).
  rewrite (write_prev m3 P) by done. split; [done|]. split; [|by rewrite <- E1, <- E1'].
  apply closed_set_prev; [done|done|]. apply H3 in H. exact H.
Qed.

Lemma plug_backward_ok m P mem :
  closed m P -> hd m P mem -> mem <> heap_end m ->
  plug_backward m mem = Ok (Heap.plug_backward m mem) /\ closed (Heap.plug_backward m mem) P.
Proof.
  intros C H He. unfold plug_backward, Heap.plug_backward. rewrite (read_prev m P) by done. cbn [mbind result_bind].
  set (pmem := heap_ptr m + Heap.prev m mem). assert (hd m P pmem) as Hn by by apply hd_offset, hd_prev.
  destruct (Z.eqb_spec pmem mem) as [E|E]; cbn [negb andb mbind result_bind]; [done|].
  rewrite (is_used_ok m P) by done. cbn [mbind result_bind]. destruct (negb _); [|done].
  set (m1 := if lfree m =? mem then set_lfree m pmem else m).
  assert (closed m1 P) as C1 by (unfold m1; destruct (_ =? _); [by apply closed_set_lfree|done]).
  assert (heap_ptr m1 = heap_ptr m) as E1 by (unfold m1; by destruct (_ =? _)). clearbody m1.
  assert (forall a, hd m P a -> hd m1 P a) as H1 by (unfold hd; by rewrite E1).
  rewrite (write_pool_ptr m1 P) by auto. cbn [mbind result_bind]. set (m2 := Heap.set_pool_ptr m1 mem 0).
  assert (closed m2 P) as C2 by (apply closed_set_pool_ptr; auto). assert (forall a, hd m P a -> hd m2 P a) as H2 by exact H1.
  rewrite (read_next m2 P) by auto. cbn [mbind result_bind]. rewrite (write_next m2 P) by auto. cbn [mbind result_bind].
  set (m3 := Heap.set_next m2 pmem (Heap.next m2 mem)).
  assert (closed m3 P) as C3 by (apply closed_set_next; [done|auto|apply hd_next; auto]). assert (forall a, hd m P a -> hd m3 P a) as H3 by exact H1.
  rewrite (read_next m3 P) by auto. cbn [mbind result_bind].
  assert (hd m3 P (heap_ptr m3 + Heap.next m3 mem)) as H4 by (apply hd_offset, hd_next; auto).
  rewrite (write_prev m3 P) by done. split; [done|]. apply closed_set_prev; [done|done|]. apply H3 in Hn. exact Hn.
Qed.

Lemma plug_holes_ok m P mem : closed m P -> hd m P mem -> plug_holes m mem = Heap.plug_holes m mem.
Proof.
  intros C H. unfold plug_holes, Heap.plug_holes, rt_assert. destruct (heap_ptr m <=? mem); [|done]. cbn [mbind result_bind].
  destruct (Z.ltb_spec mem (heap_end m)) as [He|]; [|done]. cbn [mbind result_bind].
  destruct (plug_forward_ok m P mem C H) as (E & C1 & E1 & E2). rewrite E. cbn [mbind result_bind].
  destruct (plug_backward_ok (Heap.plug_forward m mem) P mem C1) as [-> _]; [unfold hd; by rewrite E1|rewrite E2; lia|done].
Qed.

Lemma split_block_ok m P mem ptr ptr2 :
  closed m P -> mem = heap_ptr m + ptr -> P ptr -> room_at m P ptr2 ->
  split_block m mem ptr ptr2 = Ok (Heap.split_block m mem ptr ptr2) /\
  closed (Heap.split_block m mem ptr ptr2) (fun p => P p \/ p = ptr2).
Proof.
  intros C -> Hp R. unfold split_block, Heap.split_block. set (mem := heap_ptr m + ptr). set (mem2 := heap_ptr m + ptr2).
  assert (hd m P mem) as H by by apply hd_offset.
  assert (heap_ptr m mod 4 = 0 /\ (mem2 - heap_ptr m) mod 4 = 0 /\ 0 <= mem2 - heap_ptr m /\
          heap_ptr m + (mem2 - heap_ptr m) + 12 <= fst (given m) + snd (given m)) as [Hb Hq].
  { split; [apply C|]. replace (mem2 - heap_ptr m) with ptr2 by (unfold mem2; lia). apply R. }
  rewrite set_pool_ptr_at by done. cbn [mbind result_bind]. set (m1 := Heap.set_pool_ptr m mem2 _).
  assert (closed m1 P) as C1.
  { unfold m1, Heap.set_pool_ptr. replace mem2 with (heap_ptr m + ptr2 + 0) by (unfold mem2; lia). by apply closed_room. }
  rewrite (read_next m1 P) by done. cbn [mbind result_bind]. rewrite set_next_at by done. cbn [mbind result_bind].
  set (m2 := Heap.set_next m1 mem2 (Heap.next m1 mem)).
  assert (closed m2 P) as C2 by (apply (closed_room m1 P C1 ptr2 4); [by apply room_ram|lia]).
  rewrite set_prev_at by done. cbn [mbind result_bind]. set (m3 := Heap.set_prev m2 mem2 ptr).
  assert (closed m3 P) as C3 by (apply (closed_room m2 P C2 ptr2 8); [by apply room_ram, room_ram|lia]).
  assert (Heap.next m3 mem2 = Heap.next m1 mem /\ Heap.prev m3 mem2 = ptr) as [En Ep].
  { unfold m3, m2. cbn. unfold Heap.next, Heap.prev, Heap.set_next, Heap.set_prev, set_ram. cbn.
    split; [rewrite store_ne by lia|]; apply store_eq; done. }
  assert (closed m3 (fun p => P p \/ p = ptr2)) as C3'.
  { apply closed_add; [done|by do 3 apply room_ram| |].
    - change (heap_ptr m3 + ptr2) with mem2. rewrite En. by apply hd_next.
    - change (heap_ptr m3 + ptr2) with mem2. by rewrite Ep. }
  set (P' := fun p => P p \/ p = ptr2) in *.
  assert (hd m3 P' mem) as H3 by (left; exact H). assert (hd m3 P' mem2) as H3' by (apply (hd_offset m3); by right).
  rewrite (write_next m3 P') by done. cbn [mbind result_bind]. set (m4 := Heap.set_next m3 mem ptr2).
  assert (closed m4 P') as C4 by (apply closed_set_next; [done|done|by right]).
  rewrite (read_next m4 P') by done. cbn [mbind result_bind]. destruct (negb _); [|done].
  assert (hd m4 P' (heap_ptr m4 + Heap.next m4 mem2)) as H5 by (apply hd_offset, hd_next; done).
  rewrite (write_prev m4 P') by done. split; [done|]. apply closed_set_prev; [done|done|by right].
Qed.

(** *** Allocation *)

(** When the block at [ptr] is split for [size] bytes, there is room for the new
    header. *)
Definition splits (m : rt_small_mem) (ptr size : Z) : bool :=
  u32 (u32 (size + SIZEOF_STRUCT_MEM) + MIN_SIZE_ALIGNED) <=?
  u32 (Heap.next m (heap_ptr m + ptr) - u32 (ptr + SIZEOF_STRUCT_MEM)).
Definition roomy (m : rt_small_mem) (P : Z -> Prop) (size : Z) : Prop :=
  forall ptr, P ptr -> splits m ptr size = true -> size <= u32 (Heap.next m (heap_ptr m + ptr) - u32 (ptr + SIZEOF_STRUCT_MEM)) ->
    Heap.MEM_ISUSED m (heap_ptr m + ptr) = false -> room_at m P (u32 (ptr + SIZEOF_STRUCT_MEM + size)).

Lemma carve_ok m P ptr size :
  closed m P -> P ptr -> (splits m ptr size = true -> room_at m P (u32 (ptr + SIZEOF_STRUCT_MEM + size))) ->
  carve m ptr size = Ok (Heap.carve m ptr size) /\ heap_ptr (Heap.carve m ptr size) = heap_ptr m /\
  exists P', closed (Heap.carve m ptr size) P' /\ (forall p, P p -> P' p).
Proof.
  intros C Hp R. unfold carve, Heap.carve. fold (splits m ptr size). set (mem := heap_ptr m + ptr).
  assert (hd m P mem) as H by by apply hd_offset. rewrite (read_next m P) by done. cbn [mbind result_bind].
  change (u32 (u32 (size + SIZEOF_STRUCT_MEM) + MIN_SIZE_ALIGNED) <=? u32 (Heap.next m mem - u32 (ptr + SIZEOF_STRUCT_MEM)))
    with (splits m ptr size). destruct (splits m ptr size) eqn:Es.
  - specialize (R eq_refl). destruct (split_block_ok m P mem ptr _ C eq_refl Hp R) as [E C'].
    rewrite E. cbn [mbind result_bind]. set (m1 := Heap.split_block m mem ptr _) in *. set (P' := fun p => P p \/ _) in *.
    assert (heap_ptr m1 = heap_ptr m) as E1 by (unfold m1, Heap.split_block; by destruct (negb _)).
    set (m2 := add_used m1 _). assert (closed m2 P') as C2 by by apply closed_add_used.
    assert (hd m2 P' mem) as H2 by (unfold hd; change (heap_ptr m2) with (heap_ptr m1); rewrite E1; by left).
    rewrite (write_pool_ptr m2 P') by done. split; [done|]. split; [exact E1|]. exists P'. split; [by apply closed_set_pool_ptr|by left].
  - cbn [mbind result_bind]. set (m2 := add_used m _). assert (closed m2 P) as C2 by by apply closed_add_used.
    rewrite (write_pool_ptr m2 P) by done. split; [done|]. split; [done|]. exists P. split; [by apply closed_set_pool_ptr|done].
Qed.

Lemma next_lfree_ok fuel m P :
  closed m P ->
  next_lfree fuel m = while_loop fuel (fun m => Heap.MEM_ISUSED m (lfree m) && negb (lfree m =? heap_end m))
    (fun m => Ok (set_lfree m (heap_ptr m + Heap.next m (lfree m)))) m /\
  forall m', next_lfree fuel m = Ok m' -> closed m' P.
Proof.
  revert m. induction fuel as [|fuel IH]; intros m C; [done|]. cbn [next_lfree while_loop].
  assert (hd m P (lfree m)) as H by apply C. rewrite (is_used_ok m P) by done. cbn [mbind result_bind].
  destruct (_ && _); [|split; [done|by intros m' [= <-]]]. rewrite (read_next m P) by done. cbn [mbind result_bind].
  apply IH. apply closed_set_lfree; [done|]. by apply hd_offset, hd_next.
Qed.

Lemma alloc_at_ok m P ptr size :
  closed m P -> P ptr -> (splits m ptr size = true -> room_at m P (u32 (ptr + SIZEOF_STRUCT_MEM + size))) ->
  alloc_at m ptr size = Heap.alloc_at m ptr size.
Proof.
  intros C Hp R. unfold alloc_at, Heap.alloc_at. destruct (carve_ok m P ptr size C Hp R) as (E & E1 & P' & C' & HP').
  rewrite E. cbn [mbind result_bind]. set (m1 := Heap.carve m ptr size) in *. destruct (_ =? lfree m1); [|done].
  unfold Heap.next_lfree. destruct (next_lfree_ok (walk_fuel m1) m1 P' C') as [E2 C2]. rewrite <- E2.
  destruct (next_lfree (walk_fuel m1) m1) as [m2|]; [|done]. specialize (C2 m2 eq_refl). cbn [mbind result_bind].
  destruct (lfree m2 =? heap_end m2); [done|]. rewrite (is_used_ok m2 P') by apply C2. done.
Qed.

Lemma alloc_from_ok fuel m P size ptr :
  closed m P -> P ptr -> roomy m P size -> alloc_from fuel m size ptr = Heap.alloc_from fuel m size ptr.
Proof.
  intros C Hp R. revert ptr Hp. induction fuel as [|fuel IH]; intros ptr Hp; [done|]. cbn [alloc_from Heap.alloc_from].
  destruct (ptr <=? _); [|done]. assert (hd m P (heap_ptr m + ptr)) as H by by apply hd_offset.
  rewrite (is_used_ok m P), (read_next m P) by done. cbn [mbind result_bind].
  destruct (negb _ && _) eqn:Ef; [|by apply IH, hd_next]. apply andb_true_iff in Ef as [Eu Es].
  apply (alloc_at_ok m P); [done|done|]. intros Hs. apply R; [done|done|lia|by apply negb_true_iff].
Qed.

Lemma alloc_ok m P size :
  closed m P -> (forall n, n = Z.max 12 (RT_ALIGN size RT_ALIGN_SIZE) -> roomy m P n) -> rt_smem_alloc m size = Heap.rt_smem_alloc m size.
Proof.
  intros C R. unfold rt_smem_alloc, Heap.rt_smem_alloc. destruct (size =? 0); [done|]. destruct (_ <? _); [done|].
  apply (alloc_from_ok _ m P); [done|apply C|]. apply R. change MIN_SIZE_ALIGNED with 12. destruct (Z.ltb_spec (RT_ALIGN size RT_ALIGN_SIZE) 12); lia.
Qed.

(** *** Release *)

Lemma free_mark_ok m P mem :
  closed m P -> hd m P mem -> free_mark m mem = Ok (Heap.free_mark m mem) /\ closed (Heap.free_mark m mem) P /\
  heap_ptr (Heap.free_mark m mem) = heap_ptr m.
Proof.
  intros C H. unfold free_mark, Heap.free_mark. rewrite (write_pool_ptr m P) by done. cbn [mbind result_bind].
  set (m1 := Heap.set_pool_ptr m mem _). assert (closed m1 P) as C1 by by apply closed_set_pool_ptr.
  set (m2 := if mem <? lfree m1 then set_lfree m1 mem else m1).
  assert (closed m2 P) as C2 by (unfold m2; destruct (_ <? _); [by apply closed_set_lfree|done]).
  assert (heap_ptr m2 = heap_ptr m) as E2 by (unfold m2; by destruct (_ <? _)).
  assert (hd m2 P mem) as H2 by (unfold hd; by rewrite E2). rewrite (read_next m2 P) by done. cbn [mbind result_bind].
  split; [done|]. split; [by apply closed_set_used|exact E2].
Qed.

Lemma free_ok m P rmem : closed m P -> hd m P (rmem - SIZEOF_STRUCT_MEM) -> rt_smem_free m rmem = Heap.rt_smem_free m rmem.
Proof.
  intros C H. unfold rt_smem_free, Heap.rt_smem_free, rt_assert. destruct (rmem =? RT_NULL); [done|].
  destruct (_ =? 0); [|done]. cbn [mbind result_bind]. set (mem := rmem - SIZEOF_STRUCT_MEM) in *.
  rewrite (pool_ok m P) by done. cbn [mbind result_bind]. destruct (negb (_ =? RT_NULL)); [|done]. cbn [mbind result_bind].
  rewrite (is_used_ok m P) by done. cbn [mbind result_bind]. destruct (Heap.MEM_ISUSED m mem); [|done]. cbn [mbind result_bind].
  destruct (_ =? self m); [|done]. cbn [mbind result_bind]. destruct (_ && _); [|done]. cbn [mbind result_bind].
  rewrite (read_next m P) by done. cbn [mbind result_bind].
  rewrite (pool_ok m P C (heap_ptr m + Heap.next m mem)) by by apply hd_offset, hd_next. cbn [mbind result_bind]. destruct (_ =? _); [|done]. cbn [mbind result_bind].
  destruct (free_mark_ok m P mem C H) as (E & C1 & E1). rewrite E. cbn [mbind result_bind].
  apply (plug_holes_ok _ P); [done|]. unfold hd. by rewrite E1.
Qed.

(** *** The chain of blocks *)

(** The offsets of the headers: the blocks', and the sentinel's. *)
Definition pos (bs : list blk) (q : Z) : Prop := exists l1 l2, bs = l1 ++ l2 /\ q = span l1.

Lemma pos_app l1 l2 : pos (l1 ++ l2) (span l1).
Proof. by exists l1, l2. Qed.
Lemma pos_live bs p s : live bs p s -> pos bs p.
Proof. intros (l1 & l2 & -> & <-)%live_split. apply pos_app. Qed.

Lemma pos_order bs p q :
  Forall blk_ok bs -> pos bs p -> pos bs q -> p = q \/ p + 12 < q \/ q + 12 < p.
Proof.
  intros Hok (l1 & l2 & -> & ->) (k1 & k2 & E & ->).
  apply app_eq_app in E as (l & [[-> ->]|[-> ->]]); rewrite span_app.
  - rewrite <- app_assoc, !Forall_app in Hok. destruct Hok as (_ & Hl & _). pose proof (span_cases _ Hl). lia.
  - rewrite !Forall_app in Hok. destruct Hok as (_ & Hl & _). pose proof (span_cases _ Hl). lia.
Qed.

(** No header inside a block. *)
Lemma pos_block l1 b l2 p :
  Forall blk_ok (l1 ++ b :: l2) -> pos (l1 ++ b :: l2) p ->
  p = span l1 \/ p + 12 < span l1 \/ span l1 + bsize b <= p.
Proof.
  intros Hok (k1 & k2 & E & ->). pose proof Hok as (Ho1 & Hob)%Forall_app.
  apply app_eq_app in E as (l & [[-> ->]|[-> E]]).
  - rewrite span_app. apply Forall_app in Ho1 as [_ Hl]. pose proof (span_cases _ Hl). lia.
  - rewrite span_app. destruct l as [|c l]; [cbn; lia|]. injection E as <- ->.
    apply Forall_cons in Hob as [_ Hl]. apply Forall_app in Hl as [Hl _]. pose proof (span_nonneg _ Hl). cbn. lia.
Qed.

Lemma closed_layout m bs : layout m bs -> closed m (pos bs).
Proof.
  intros Hl. pose proof (lay_geo _ _ Hl) as G. pose proof (lay_ok _ _ Hl) as Hok.
  pose proof (lay_span _ _ Hl) as Hs. split.
  - apply G.
  - intros q (l1 & l2 & -> & ->). apply Forall_app in Hok as [Ho1 Ho2]. rewrite span_app in Hs.
    pose proof (span_mod4 _ Ho1). pose proof (span_nonneg _ Ho1). pose proof (span_nonneg _ Ho2).
    destruct (geo_given _ G). lia.
  - intros p q Hp Hq. pose proof (pos_order bs p q Hok Hp Hq). lia.
  - intros q (l1 & l2 & -> & ->). destruct l2 as [|b l2].
    + unfold Heap.next. destruct (lay_heap _ _ Hl) as (_ & _ & Hn). rewrite app_nil_r in Hn |- *. rewrite Hn.
      exists l1, []. by rewrite app_nil_r.
    + rewrite (heap_read_next _ _ _ _ Hl). exists (l1 ++ [b]), l2. split; [by rewrite <- app_assoc|].
      rewrite span_app. cbn. lia.
  - intros q (l1 & l2 & -> & ->) He. destruct l2 as [|b l2].
    + rewrite (geo_end _ G), <- Hs, app_nil_r in He. done.
    + rewrite (heap_read_prev _ _ _ _ Hl). destruct l1 as [|c l1 _] using rev_ind; [by exists [], (b :: l2)|].
      rewrite lastpos_snoc. exists l1, (c :: b :: l2). split; [by rewrite <- app_assoc|lia].
  - rewrite (lay_free _ _ Hl). destruct (first_free_split bs) as (l1 & l2 & -> & _ & E).
    rewrite <- E. replace (heap_ptr m + span l1 - heap_ptr m) with (span l1) by lia. apply pos_app.
  - rewrite (geo_end _ G), <- Hs. exists bs, []. rewrite app_nil_r. split; [done|lia].
Qed.

Lemma room_block m l1 b l2 n :
  layout m (l1 ++ b :: l2) -> 12 <= n -> n mod 4 = 0 -> n + 12 <= bsize b ->
  room_at m (pos (l1 ++ b :: l2)) (span l1 + n).
Proof.
  intros Hl Hn Hn4 Hs. pose proof (lay_ok _ _ Hl) as Hok. pose proof (lay_span _ _ Hl) as Ht. split.
  - apply Forall_app in Hok as [Ho1 [_ Ho2]%Forall_cons]. rewrite span_app in Ht. cbn in Ht.
    pose proof (span_mod4 _ Ho1). pose proof (span_nonneg _ Ho1). pose proof (span_nonneg _ Ho2).
    destruct (geo_given _ (lay_geo _ _ Hl)). split; [zmod|lia].
  - intros p Hp. pose proof (pos_block l1 b l2 p Hok Hp). lia.
Qed.

Lemma roomy_layout m bs n : layout m bs -> 12 <= n -> n mod 4 = 0 -> roomy m (pos bs) n.
Proof.
  intros Hl Hn Hn4 ptr (l1 & l2 & -> & ->) Hs Hfit Hu. rewrite (heap_read_used _ _ _ Hl) in Hu.
  destruct l2 as [|b l2]; [done|]. unfold splits in Hs.
  pose proof (lay_ok _ _ Hl) as [Ho1 [[H4 H1] Ho2]%Forall_cons]%Forall_app.
  pose proof (lay_span _ _ Hl) as Ht. rewrite span_app in Ht. cbn in Ht.
  pose proof (span_nonneg _ Ho1). pose proof (span_nonneg _ Ho2). pose proof (geo_top _ (lay_geo _ _ Hl)).
  pose proof (geo_heap _ (lay_geo _ _ Hl)).
  rewrite (heap_read_next _ _ _ _ Hl), SIZEOF_12 in Hs. rewrite (heap_read_next _ _ _ _ Hl), SIZEOF_12 in Hfit.
  rewrite SIZEOF_12. rewrite (u32_small (span l1 + 12)) in Hs, Hfit by lia.
  rewrite (u32_small (span l1 + bsize b - _)) in Hs, Hfit by lia. change MIN_SIZE_ALIGNED with 12 in Hs.
  rewrite (u32_small (n + 12)) in Hs by lia. rewrite (u32_small (n + 12 + 12)) in Hs by lia.
  rewrite u32_small by lia. replace (span l1 + 12 + n) with (span l1 + (n + 12)) by lia.
  apply room_block; [done|lia|zmod|lia].
Qed.

(** ** The checked operations on a heap *)

Lemma alloc_same m bs size : rep m bs -> 0 < size < 2 ^ 32 - 3 -> rt_smem_alloc m size = Heap.rt_smem_alloc m size.
Proof.
  intros Hr Hs. pose proof (rep_lay _ _ Hr) as Hl. apply (alloc_ok m (pos bs)); [by apply closed_layout|].
  intros n ->. rewrite RT_ALIGN_4 by lia. apply roomy_layout; [done|lia|zmod].
Qed.

Lemma free_same m bs p s : rep m bs -> live bs p s -> rt_smem_free m (heap_ptr m + p + 12) = Heap.rt_smem_free m (heap_ptr m + p + 12).
Proof.
  intros Hr Hlive. apply (free_ok m (pos bs)); [by apply closed_layout, Hr|].
  unfold hd. rewrite SIZEOF_12. replace (heap_ptr m + p + 12 - 12 - heap_ptr m) with p by lia. by eapply pos_live.
Qed.

Lemma copy_same m bs p s q t k :
  rep m bs -> live bs p s -> live bs q t -> k <= s - 12 -> k <= t - 12 ->
  rt_memcpy m (heap_ptr m + q + 12) (heap_ptr m + p + 12) k =
  Ok (set_ram m (copy_words (ram m) (heap_ptr m + q + 12) (heap_ptr m + p + 12) k)).
Proof.
  intros Hr Hp Hq Hs Ht. pose proof (rep_lay _ _ Hr) as Hl. pose proof (lay_ok _ _ Hl) as Hok.
  pose proof (live_bounds _ _ _ Hok Hp). pose proof (live_bounds _ _ _ Hok Hq).
  pose proof (lay_span _ _ Hl). destruct (geo_given _ (lay_geo _ _ Hl)).
  unfold rt_memcpy, inside. by replace (_ && _) with true by lia.
Qed.

Lemma shrink_same m bs p s n :
  rep m bs -> live bs p s -> 0 < n -> n mod 4 = 0 -> n + 36 < s ->
  let m1 := set_used m (u32 (used m - u32 (s - 12 - n))) in
  let mem2 := heap_ptr m + (p + (n + 12)) in
  let m2 := Heap.split_block m1 (heap_ptr m + p) p (p + (n + 12)) in
  let m3 := if mem2 <? lfree m2 then set_lfree m2 mem2 else m2 in
  split_block m1 (heap_ptr m + p) p (p + (n + 12)) = Ok m2 /\ plug_holes m3 mem2 = Heap.plug_holes m3 mem2.
Proof.
  intros Hr Hlive Hn0 Hn4 Hns m1 mem2 m2 m3. pose proof (rep_lay _ _ Hr) as Hl.
  assert (closed m1 (pos bs)) as C by by apply closed_set_used, closed_layout.
  assert (room_at m1 (pos bs) (p + (n + 12))) as R.
  { destruct (live_split _ _ _ Hlive) as (l1 & l2 & -> & <-).
    apply room_block; [by apply layout_set_used|lia|zmod|cbn; lia]. }
  destruct (split_block_ok m1 _ (heap_ptr m + p) p _ C eq_refl (pos_live _ _ _ Hlive) R) as [-> C2].
  split; [done|]. fold m2 in C2. set (P := fun q => pos bs q \/ q = p + (n + 12)) in *.
  assert (heap_ptr m2 = heap_ptr m) as E2 by (unfold m2, Heap.split_block; by destruct (negb _)).
  assert (hd m2 P mem2) as H2 by (unfold hd, P, mem2; rewrite E2; right; lia).
  apply (plug_holes_ok m3 P); unfold m3; destruct (mem2 <? lfree m2); [by apply closed_set_lfree|done|exact H2|exact H2].
Qed.

Lemma realloc_same m bs p s newsize :
  rep m bs -> live bs p s -> 0 < newsize < 2 ^ 32 - 3 ->
  rt_smem_realloc m (heap_ptr m + p + 12) newsize = Heap.rt_smem_realloc m (heap_ptr m + p + 12) newsize.
Proof.
  intros Hr Hlive Hn. pose proof (rep_lay _ _ Hr) as Hl. pose proof (lay_ok _ _ Hl) as Hok.
  pose proof (lay_span _ _ Hl) as Htot. pose proof (lay_geo _ _ Hl) as [G1 G2 G3 G4 G5 G6 G7 G8 G9].
  pose proof (live_bounds _ _ _ Hok Hlive) as (B1 & B2 & B3 & B4 & B5).
  destruct (Z.ltb_spec (mem_size_aligned m) (aligned newsize)) as [Hbig|Hfit].
  { unfold rt_smem_realloc, Heap.rt_smem_realloc. rewrite RT_ALIGN_4 by lia. fold (aligned newsize).
    by replace (_ <? aligned newsize) with true by lia. }
  rewrite (realloc_guards m bs p s newsize Hr Hlive Hn Hfit). set (n := aligned newsize) in *.
  assert (0 < n /\ n mod 4 = 0) as [Hal Hal4] by (unfold n, aligned; zmod).
  unfold rt_smem_realloc. rewrite RT_ALIGN_4 by lia. fold (aligned newsize). fold n.
  replace (mem_size_aligned m <? n) with false by lia. replace (n =? 0) with false by lia.
  replace (heap_ptr m + p + 12 =? RT_NULL) with false by (unfold RT_NULL; lia).
  rewrite aligned_land, SIZEOF_12. replace ((heap_ptr m + p + 12) mod 4 =? 0) with true by zmod.
  replace (heap_ptr m <=? _) with true by lia. replace (heap_ptr m + p + 12 <? heap_end m) with true by lia.
  cbn [rt_assert mbind result_bind]. replace (heap_ptr m + p + 12 - 12) with (heap_ptr m + p) by lia.
  rewrite (read_next m (pos bs)); [|by apply closed_layout|by eapply hd_offset, pos_live]. cbn [mbind result_bind].
  assert (Heap.next m (heap_ptr m + p) = p + s) as ->.
  { destruct (live_split _ _ _ Hlive) as (l1 & l2 & -> & <-). by rewrite (heap_read_next _ _ _ _ Hl). }
  replace (heap_ptr m + p - heap_ptr m) with p by lia. replace (u32 (p + s - p - 12)) with (s - 12) by (rewrite u32_small; lia).
  change MIN_SIZE with 12. rewrite (u32_small (n + 12 + 12)) by lia. replace (n + 12 + 12) with (n + 24) by lia.
  destruct (s - 12 =? n) eqn:E1; [done|]. destruct (n + 24 <? s - 12) eqn:E2.
  - replace (u32 (p + 12 + n)) with (p + (n + 12)) by (rewrite u32_small; lia).
    destruct (shrink_same m bs p s n Hr Hlive Hal Hal4) as [Es Ep]; [lia|]. cbn zeta in Es, Ep |- *.
    change (heap_ptr (set_used m _)) with (heap_ptr m). rewrite Es. cbn [mbind result_bind]. by rewrite Ep.
  - rewrite (alloc_same m bs n Hr) by lia. pose proof (rt_smem_alloc_spec m bs n Hr) as Ha.
    destruct (spec_alloc (request n) bs) as [[q bs1]|] eqn:Esp.
    + destruct Ha as (m1 & -> & R1 & S1); [lia|]. cbn [mbind result_bind].
      assert (0 < request n /\ request n mod 4 = 0 /\ n <= request n) as (Hq & Hq4 & Hqn) by (unfold request; zmod).
      destruct (live_alloc _ _ _ _ Hok Hq Hq4 Esp) as (t & Ht & Hiff & _).
      destruct (negb _); [|done]. rewrite <- (same_heap_ptr _ _ _ S1).
      set (k := if s - 12 <? n then s - 12 else n). assert (k <= n /\ k <= s - 12) as [Hk Hk'] by (unfold k; zbool; lia). clearbody k.
      assert (live bs1 p s) as Hp1 by (apply Hiff; by left). assert (live bs1 q t) as Hq1 by (apply Hiff; by right).
      rewrite (copy_same m1 bs1 p s q t k R1 Hp1 Hq1) by lia. cbn [mbind result_bind].
      pose proof (copy_rep m1 bs1 q t (heap_ptr m1 + p + 12) k R1 Hq1 ltac:(lia)) as R2.
      pose proof (free_same _ bs1 p s R2 Hp1) as Ef. cbn [heap_ptr set_ram] in Ef. by rewrite Ef.
    + rewrite Ha by lia. cbn [mbind result_bind]. done.
Qed.

Lemma init_same r begin_addr size :
  0 < begin_addr -> 104 <= size -> begin_addr + size + 3 < 2 ^ 32 ->
  rt_smem_init r begin_addr size = Ok (Heap.rt_smem_init r begin_addr size).
Proof.
  intros Hb Hs Ht. unfold rt_smem_init, Heap.rt_smem_init. rewrite SIZEOF_12. unfold sizeof_smem.
  rewrite RT_ALIGN_DOWN_4, (RT_ALIGN_4 begin_addr) by lia.
  set (sm := begin_addr + 3 - (begin_addr + 3) mod 4).
  assert (begin_addr <= sm <= begin_addr + 3 /\ sm mod 4 = 0) as [Hsm Hsm4] by (subst sm; zmod).
  rewrite (u32_small (sm + 56)), (u32_small (begin_addr + size)) by lia.
  rewrite RT_ALIGN_4 by lia. replace (sm + 56 + 3 - (sm + 56 + 3) mod 4) with (sm + 56) by zmod.
  set (ea := begin_addr + size - (begin_addr + size) mod 4).
  assert (begin_addr + size - 3 <= ea <= begin_addr + size /\ ea mod 4 = 0) as [He He4] by (subst ea; zmod).
  clearbody sm ea. rewrite (u32_small (ea - 2 * 12)) by lia.
  replace (_ && _) with true by lia. rewrite (u32_small (ea - _ - _)) by lia.
  rewrite u32_small by lia. set (n := ea - (sm + 56) - 2 * 12).
  assert (12 <= n /\ n mod 4 = 0) as [Hn Hn4] by (subst n; zmod).
  replace (_ && _) with true by lia. cbn [mbind result_bind].
  match goal with |- context [set_pool_ptr ?x _ _] => set (m := x) end.
  assert (sm + 56 - heap_ptr m = 0) as E0 by (cbn; lia).
  assert (heap_ptr m mod 4 = 0) as Hb4 by (cbn; zmod).
  assert ((sm + 56 - heap_ptr m) mod 4 = 0 /\ 0 <= sm + 56 - heap_ptr m /\ heap_ptr m + (sm + 56 - heap_ptr m) + 12 <= fst (given m) + snd (given m)) as H0.
  { rewrite E0. cbn. clear m E0 Hb4. subst n. split; [done|]. lia. }
  rewrite set_pool_ptr_at by done. cbn [mbind result_bind]. rewrite set_next_at by done. cbn [mbind result_bind].
  rewrite set_prev_at by done. cbn [mbind result_bind]. rewrite next_at by done. cbn [mbind result_bind].
  set (he := heap_ptr _ + Heap.next _ _). assert (he = sm + 56 + (n + 12)) as Ehe.
  { unfold he, Heap.next, Heap.set_prev, Heap.set_next, set_ram. cbn. stores. lia. }
  match goal with |- context [set_pool_ptr ?x _ _] => set (m' := x) end.
  assert (heap_ptr m' mod 4 = 0) as Hb4' by (cbn; zmod).
  assert ((he - heap_ptr m') mod 4 = 0 /\ 0 <= he - heap_ptr m' /\ heap_ptr m' + (he - heap_ptr m') + 12 <= fst (given m') + snd (given m')) as H1.
  { rewrite Ehe. cbn. subst n. split; [zmod|lia]. }
  rewrite set_pool_ptr_at by done. cbn [mbind result_bind]. rewrite set_next_at by done. cbn [mbind result_bind].
  rewrite set_prev_at by done. done.
Qed.

Lemma client_step_same hp c m held bs :
  cmd_ok c -> client_inv hp m held bs -> client_step c m held = Heap.client_step c m held.
Proof.
  intros Hc (Hr & <- & Hnd & Hheld). destruct c as [n|i|i n]; cbn [client_step Heap.client_step].
  - by rewrite (alloc_same m bs n Hr).
  - destruct (held !! i) as [p|] eqn:Hi; [|done]. pose proof (list_elem_of_lookup_2 _ _ _ Hi) as Hin.
    apply Hheld in Hin as (x & s & Hl & ->). by rewrite (free_same m bs x s Hr Hl).
  - destruct (held !! i) as [p|] eqn:Hi; [|done]. pose proof (list_elem_of_lookup_2 _ _ _ Hi) as Hin.
    apply Hheld in Hin as (x & s & Hl & ->). by rewrite (realloc_same m bs x s n Hr Hl).
Qed.

Lemma client_run_same hp cs m held bs :
  Forall cmd_ok cs -> client_inv hp m held bs -> client_run cs m held = Heap.client_run cs m held.
Proof.
  intros Hcs. revert m held bs. induction Hcs as [|c cs Hc _ IH]; intros m held bs Hinv; [done|].
  cbn [client_run Heap.client_run]. rewrite (client_step_same hp c m held bs Hc Hinv).
  destruct (client_step_spec hp c m held bs Hc Hinv) as (m' & held' & bs' & -> & Hinv').
  cbn [mbind result_bind]. by apply (IH m' held' bs').
Qed.

Lemma given_init r begin_addr size m : Heap.rt_smem_init r begin_addr size = Some m -> given m = (begin_addr, size).
Proof. unfold Heap.rt_smem_init. cbn zeta. destruct (_ && _); [|done]. by intros [= <-]. Qed.

(** ** Properties *)

(** C5: an allocation either returns [RT_NULL] and changes nothing, and then no
    free block has room for the rounded-up request; or it returns an aligned
    pointer to a block of at least the rounded-up size inside the heap, which
    overlaps no block in use; that block and the ones in use before are the
    blocks in use after, their data is untouched, and the invariant (the chain,
    the lowest free block, no free neighbours, the byte count) holds again. *)
Theorem rt_smem_alloc_correct (m : rt_small_mem) (bs : list blk) (size : Z) :
  rep m bs -> 0 < size < 2 ^ 32 - 3 ->
  (rt_smem_alloc m size = Ok (RT_NULL, m) /\
     forall b, b ∈ bs -> bused b = false -> bsize b - 12 < request size) \/
  (exists p s m' bs', rt_smem_alloc m size = Ok (heap_ptr m + p + 12, m') /\ rep m' bs' /\
     (heap_ptr m + p + 12) mod 4 = 0 /\
     size <= request size <= s - 12 /\ 0 <= p /\ heap_ptr m + p + s <= heap_end m /\
     (forall q t, live bs q t -> q + t <= p \/ p + s <= q) /\
     (forall q t, live bs' q t <-> live bs q t \/ (q = p /\ t = s)) /\
     (forall a, data 0 bs a -> ram m' (heap_ptr m + a) = ram m (heap_ptr m + a))).
Proof.
  intros Hr Hs. rewrite (alloc_same m bs size Hr Hs). pose proof (rt_smem_alloc_spec m bs size Hr Hs) as H.
  pose proof (rep_lay _ _ Hr) as Hl. pose proof (lay_ok _ _ Hl) as Hok.
  destruct (lay_geo _ _ Hl) as [G1 G2 G3 G4 G5 G6 G7 G8 G9]. pose proof (lay_span _ _ Hl) as Htot.
  assert (0 < request size /\ request size mod 4 = 0 /\ size <= request size) as (Hq & Hq4 & Hqs)
    by (unfold request; zmod).
  destruct (spec_alloc (request size) bs) as [[p bs']|] eqn:E.
  - right. destruct H as (m' & Ea & R & S).
    destruct (live_alloc _ _ _ _ Hok Hq Hq4 E) as (s & Hs' & Hiff & Hdis).
    assert (live bs' p s) as Hlp by (apply Hiff; by right).
    destruct (live_bounds _ _ _ (lay_ok _ _ (rep_lay _ _ R)) Hlp) as (B1 & B2 & B3 & B4 & B5).
    rewrite (lay_span _ _ (rep_lay _ _ R)), (same_size _ _ _ S) in B2.
    exists p, s, m', bs'. split_and!; try done; try lia; [zmod|apply S].
  - left. split; [done|]. intros b Hb Hu. apply spec_alloc_None in E.
    rewrite Forall_forall in E. destruct (E b Hb) as [?|?]; [congruence|lia].
Qed.

(** C6: freeing a block in use takes exactly that block away: every other
    block in use stays in use with its data, the used byte count drops by the
    size of the block, and no two free blocks are neighbours. *)
Theorem rt_smem_free_correct (m : rt_small_mem) (bs : list blk) (p s : Z) :
  rep m bs -> live bs p s ->
  exists m' bs', rt_smem_free m (heap_ptr m + p + 12) = Ok m' /\ rep m' bs' /\
    separated bs' /\ used m' = used m - s /\
    (forall q t, live bs' q t <-> live bs q t /\ q <> p) /\
    others_kept m m' bs bs' p.
Proof.
  intros Hr Hlive. pose proof (lay_ok _ _ (rep_lay _ _ Hr)) as Hok. rewrite (free_same m bs p s Hr Hlive).
  destruct (rt_smem_free_spec m bs p s Hr Hlive) as (m' & E & R & S).
  exists m', (spec_free p bs). split; [done|]. split; [done|]. split; [apply R|].
  assert (forall q t, live (spec_free p bs) q t <-> live bs q t /\ q <> p) as Hiff
    by (intros; by eapply live_free).
  split_and!; [|done|].
  - rewrite (rep_used _ _ R), (rep_used _ _ Hr). unfold spec_free. rewrite used_of_merge.
    destruct (live_split _ _ _ Hlive) as (l1 & l2 & -> & <-).
    apply Forall_app in Hok as [Ho1 _]. rewrite at_offset_mid by done.
    rewrite !used_of_app. cbn. lia.
  - eapply others_kept_at; [done|exact Hlive|exact S|]. intros x y Hxy Hne. split.
    + by eapply live_freed.
    + by apply Hiff.
Qed.

(** C7: a reallocation of a block in use either returns [RT_NULL] and changes
    nothing, and then a fresh request of that size fails too; or it returns a
    block of at least the new size (in place or moved) that holds the old data
    up to the smaller of the two sizes, and all other blocks in use keep their
    place and data. *)
Theorem rt_smem_realloc_correct (m : rt_small_mem) (bs : list blk) (p s newsize : Z) :
  rep m bs -> live bs p s -> 0 < newsize < 2 ^ 32 - 3 ->
  (rt_smem_realloc m (heap_ptr m + p + 12) newsize = Ok (RT_NULL, m) /\
     rt_smem_alloc m newsize = Ok (RT_NULL, m)) \/
  (exists r m' bs', rt_smem_realloc m (heap_ptr m + p + 12) newsize = Ok (r, m') /\
     resized m bs p s (aligned newsize) r m' bs').
Proof.
  intros Hr Hlive Hn. rewrite (realloc_same m bs p s newsize Hr Hlive Hn), (alloc_same m bs newsize Hr Hn).
  destruct (rt_smem_realloc_spec m bs p s newsize Hr Hlive Hn) as [[E N]|H].
  - left. split; [done|]. pose proof (rt_smem_alloc_spec m bs newsize Hr Hn) as Ha. by rewrite N in Ha.
  - by right.
Qed.


(** C8: a heap is made in any memory of at least 104 bytes, whatever it holds, and
    then serves any sequence of requests of a client that only frees and
    reallocates the pointers it holds: no call reads or writes a byte outside that
    memory or at a misaligned address, trips an assertion or loops for ever.  The
    client's pointers are the blocks in use, none is given twice, and once it holds
    none the heap is the one free block it was at the start. *)
Theorem smem_client_safe (r : Z -> Z) (begin_addr size : Z) (cs : list cmd) :
  0 < begin_addr -> 104 <= size -> begin_addr + size + 3 < 2 ^ 32 -> Forall cmd_ok cs ->
  exists m0 m held bs,
    rt_smem_init r begin_addr size = Ok (Some m0) /\ given m0 = (begin_addr, size) /\
    client_run cs m0 [] = Ok (m, held) /\ rep m bs /\ NoDup held /\
    (forall p, p ∈ held <-> exists x s, live bs x s /\ p = heap_ptr m + x + 12) /\
    (held = [] -> bs = [Blk (mem_size_aligned m + 12) false] /\ used m = 0).
Proof.
  intros Hb Hs Ht Hcs. rewrite init_same by done. destruct (rt_smem_init_spec r begin_addr size Hb Hs Ht) as (m0 & E0 & R0 & _).
  assert (client_inv (heap_ptr m0) m0 [] [Blk (mem_size_aligned m0 + 12) false]) as H0.
  { split_and!; [done|done|constructor|]. intros p. split; [intros H; inversion H|].
    cbn. intros (x & s & [(_ & _ & ?)|[]] & _); done. }
  destruct (client_run_spec _ cs _ _ _ Hcs H0) as (m & held & bs & E & Hinv).
  pose proof Hinv as (Hr & Hp & Hnd & Hheld). rewrite <- Hp in Hheld.
  exists m0, m, held, bs. rewrite (client_run_same _ cs m0 [] _ Hcs H0), E0.
  split_and!; try done; [by eapply given_init|intros ->; by eapply client_inv_empty].
Qed.

Lemma smem_client_safe_witness :
  exists m0 m held bs,
    rt_smem_init (fun _ => 7) 536870912 400 = Ok (Some m0) /\ given m0 = (536870912, 400) /\
    client_run [CAlloc 20; CAlloc 100; CFree 1; CRealloc 0 150; CFree 0] m0 [] = Ok (m, held) /\
    rep m bs /\ NoDup held /\
    (forall p, p ∈ held <-> exists x s, live bs x s /\ p = heap_ptr m + x + 12) /\
    (held = [] -> bs = [Blk (mem_size_aligned m + 12) false] /\ used m = 0).
Proof.
  apply (smem_client_safe (fun _ => 7) 536870912 400); [lia|lia|lia|].
  repeat (apply Forall_cons; split; [cbn; exact I || lia|]). constructor.
Defined.

(** A heap with one block of 28 bytes in use. *)
Lemma example_heap :
  exists m bs, rep m bs /\ live bs 0 28 /\ mem_size_aligned m <= 120.
Proof.
  destruct (rt_smem_init_spec (fun _ => 0) 4096 200) as (m & E & R & ? & ? & ? & ?); [lia..|].
  pose proof (rt_smem_alloc_spec m _ 16 R ltac:(lia)) as H3. change (request 16) with 16 in H3.
  cbn [spec_alloc bused bsize negb andb] in H3.
  replace (16 + 12 <=? mem_size_aligned m + 12) with true in H3 by lia.
  replace (16 + 36 <=? mem_size_aligned m + 12) with true in H3 by lia.
  destruct H3 as (m' & _ & R' & S). eexists m', _. split; [exact R'|]. split; [by left|].
  rewrite (same_size _ _ _ S). lia.
Qed.

Lemma rt_smem_alloc_correct_witness :
  exists m bs, rep m bs /\
  ((rt_smem_alloc m 40 = Ok (RT_NULL, m) /\
     forall b, b ∈ bs -> bused b = false -> bsize b - 12 < request 40) \/
  (exists p s m' bs', rt_smem_alloc m 40 = Ok (heap_ptr m + p + 12, m') /\ rep m' bs' /\
     (heap_ptr m + p + 12) mod 4 = 0 /\
     40 <= request 40 <= s - 12 /\ 0 <= p /\ heap_ptr m + p + s <= heap_end m /\
     (forall q t, live bs q t -> q + t <= p \/ p + s <= q) /\
     (forall q t, live bs' q t <-> live bs q t \/ (q = p /\ t = s)) /\
     (forall a, data 0 bs a -> ram m' (heap_ptr m + a) = ram m (heap_ptr m + a)))).
Proof.
  destruct example_heap as (m & bs & R & _). exists m, bs. split; [exact R|].
  apply (rt_smem_alloc_correct m bs 40 R). lia.
Defined.

Lemma rt_smem_free_correct_witness :
  exists m bs, rep m bs /\ live bs 0 28 /\
  exists m' bs', rt_smem_free m (heap_ptr m + 0 + 12) = Ok m' /\ rep m' bs' /\
    separated bs' /\ used m' = used m - 28 /\
    (forall q t, live bs' q t <-> live bs q t /\ q <> 0) /\
    others_kept m m' bs bs' 0.
Proof.
  destruct example_heap as (m & bs & R & L & _). exists m, bs. split; [exact R|]. split; [exact L|].
  apply (rt_smem_free_correct m bs 0 28 R L).
Defined.

Lemma rt_smem_realloc_correct_witness :
  exists m bs, rep m bs /\ live bs 0 28 /\
  ((rt_smem_realloc m (heap_ptr m + 0 + 12) 30 = Ok (RT_NULL, m) /\
     rt_smem_alloc m 30 = Ok (RT_NULL, m)) \/
  (exists r m' bs', rt_smem_realloc m (heap_ptr m + 0 + 12) 30 = Ok (r, m') /\
     resized m bs 0 28 (aligned 30) r m' bs')).
Proof.
  destruct example_heap as (m & bs & R & L & _). exists m, bs. split; [exact R|]. split; [exact L|].
  apply (rt_smem_realloc_correct m bs 0 28 30 R L). lia.
Defined.

(** *** What the code does at its edges *)

(** A request within 3 bytes of the address space is rounded up to 0 and
    served as one of 12 bytes, instead of being refused. *)
Lemma alloc_huge_request m size :
  2 ^ 32 - 3 <= size < 2 ^ 32 -> 12 <= mem_size_aligned m ->
  rt_smem_alloc m size = rt_smem_alloc m 12.
Proof.
  intros Hs Hm. unfold rt_smem_alloc. change (RT_ALIGN 12 RT_ALIGN_SIZE) with 12.
  assert (RT_ALIGN size RT_ALIGN_SIZE = 0) as ->.
  { assert (size = 4294967293 \/ size = 4294967294 \/ size = 4294967295) as [-> | [-> | ->]] by lia;
      reflexivity. }
  replace (size =? 0) with false by lia. replace (mem_size_aligned m <? 0) with false by lia.
  replace (mem_size_aligned m <? 12) with false by lia. reflexivity.
Qed.

(** Shrinking a block by at most 24 bytes needs a second block: it fails on a
    full heap although the block is large enough. *)
Definition result_ptr (r : result (Z * rt_small_mem)) : option Z :=
  match r with Ok (p, _) => Some p | Fault _ => None end.

Lemma realloc_smaller_fails :
  match rt_smem_init (fun _ => 0) 4096 200 with
  | Ok (Some m) =>
      match rt_smem_alloc m 120 with
      | Ok (p, m) => p <> RT_NULL /\ result_ptr (rt_smem_realloc m p 100) = Some RT_NULL
      | Fault _ => False
      end
  | _ => False
  end.
Proof. vm_compute. split; [discriminate|reflexivity]. Qed.

(** A heap of less than 12 bytes: [mem_size_aligned - size] wraps around, and
    the search walks on the sentinel for ever. *)
Lemma tiny_heap_hangs :
  match rt_smem_init (fun _ => 0) 4096 88 with
  | Ok (Some m) => mem_size_aligned m = 8 /\
      forall fuel, alloc_from fuel m 12 (lfree m - heap_ptr m) = Fault OutOfFuel
  | _ => False
  end.
Proof.
  destruct (rt_smem_init (fun _ => 0) 4096 88) as [[m|]|] eqn:E; [|by vm_compute in E..].
  assert (mem_size_aligned m = 8 /\ heap_ptr m = 4152 /\ lfree m = 4152 /\
    MEM_ISUSED m 4152 = Ok false /\ MEM_ISUSED m 4172 = Ok true /\
    next m 4152 = Ok 20 /\ next m 4172 = Ok 20) as (H1 & H2 & H3 & H4 & H5 & H6 & H7).
  { assert (Ok (Some m) = rt_smem_init (fun _ => 0) 4096 88) as H by by rewrite E.
    vm_compute in H. injection H as ->. vm_compute. auto 10. }
  split; [done|]. assert (forall fuel, alloc_from fuel m 12 20 = Fault OutOfFuel) as Hloop.
  { induction fuel as [|fuel IH]; [done|]. cbn [alloc_from]. rewrite H1, H2.
    change (4152 + 20) with 4172. rewrite H5, H7. exact IH. }
  intros [|fuel]; [done|]. cbn [alloc_from]. rewrite H1, H3, H2.
  change (4152 + (4152 - 4152)) with 4152. rewrite H4, H6. exact (Hloop fuel).
Qed.

End SmallMem.
