(* ===== verification/Font.v ===== *)
(** * The font tables (applications/font.h)

    The 16x16 bitmaps of the printable ASCII characters and of the Chinese
    characters the display code indexes; each row of a bitmap is two bytes, the
    least significant bit of the first one leftmost. *)

From S2P Require Import Prelude.

Definition ascii_8X16 : list (list Z) :=
  [[0; 0; 0; 0; 0; 0; 0; 0; 0; 0; 0; 0; 0; 0; 0; 0;
    0; 0; 0; 0; 0; 0; 0; 0; 0; 0; 0; 0; 0; 0; 0; 0];
   [0; 0; 0; 0; 0; 0; 128; 1; 128; 1; 128; 1; 128; 1; 128; 1;
    128; 0; 128; 0; 0; 0; 0; 0; 128; 1; 192; 1; 0; 0; 0; 0];
   [0; 0; 192; 24; 224; 28; 48; 6; 8; 1; 0; 0; 0; 0; 0; 0;
    0; 0; 0; 0; 0; 0; 0; 0; 0; 0; 0; 0; 0; 0; 0; 0];
   [0; 0; 0; 0; 0; 0; 32; 16; 32; 24; 254; 127; 254; 127; 16; 8;
    16; 8; 16; 8; 254; 127; 24; 4; 8; 4; 8; 4; 0; 0; 0; 0];
   [0; 0; 0; 0; 128; 1; 224; 15; 152; 25; 152; 29; 184; 1; 224; 1;
    128; 7; 128; 29; 128; 25; 156; 25; 136; 25; 240; 7; 128; 1; 0; 0];
   [0; 0; 0; 0; 0; 0; 60; 8; 98; 4; 99; 4; 99; 2; 98; 1;
    156; 60; 64; 98; 32; 66; 32; 66; 16; 98; 8; 60; 0; 0; 0; 0];
   [0; 0; 0; 0; 0; 0; 240; 1; 8; 3; 8; 3; 152; 1; 120; 4;
    60; 24; 102; 8; 195; 4; 131; 7; 6; 135; 248; 120; 0; 0; 0; 0];
   [0; 0; 24; 0; 56; 0; 48; 0; 8; 0; 0; 0; 0; 0; 0; 0;
    0; 0; 0; 0; 0; 0; 0; 0; 0; 0; 0; 0; 0; 0; 0; 0];
   [0; 0; 0; 32; 0; 24; 0; 4; 0; 2; 0; 3; 128; 1; 128; 1;
    128; 1; 128; 1; 128; 1; 0; 3; 0; 6; 0; 12; 0; 48; 0; 0];
   [0; 0; 6; 0; 24; 0; 32; 0; 64; 0; 192; 0; 128; 1; 128; 1;
    128; 1; 128; 1; 128; 0; 192; 0; 96; 0; 16; 0; 12; 0; 0; 0];
   [0; 0; 0; 0; 0; 0; 0; 0; 128; 1; 128; 1; 142; 113; 240; 14;
    192; 3; 190; 60; 132; 33; 128; 1; 0; 0; 0; 0; 0; 0; 0; 0];
   [0; 0; 0; 0; 0; 0; 0; 0; 0; 1; 0; 1; 0; 1; 0; 1;
    252; 63; 0; 1; 0; 1; 0; 1; 0; 0; 0; 0; 0; 0; 0; 0];
   [0; 0; 0; 0; 0; 0; 0; 0; 0; 0; 0; 0; 0; 0; 0; 0;
    0; 0; 0; 0; 0; 0; 0; 0; 60; 0; 48; 0; 16; 0; 12; 0];
   [0; 0; 0; 0; 0; 0; 0; 0; 0; 0; 0; 0; 0; 0; 254; 127;
    0; 0; 0; 0; 0; 0; 0; 0; 0; 0; 0; 0; 0; 0; 0; 0];
   [0; 0; 0; 0; 0; 0; 0; 0; 0; 0; 0; 0; 0; 0; 0; 0;
    0; 0; 0; 0; 0; 0; 0; 0; 60; 0; 60; 0; 0; 0; 0; 0];
   [0; 0; 0; 0; 0; 32; 0; 16; 0; 8; 0; 4; 0; 2; 0; 1;
    128; 0; 64; 0; 32; 0; 48; 0; 24; 0; 12; 0; 4; 0; 0; 0];
   [0; 0; 0; 0; 0; 0; 224; 7; 24; 24; 28; 56; 12; 48; 12; 48;
    12; 48; 12; 48; 12; 48; 28; 24; 56; 8; 224; 7; 0; 0; 0; 0];
   [0; 0; 0; 0; 0; 0; 0; 1; 224; 1; 128; 1; 128; 1; 128; 1;
    128; 1; 128; 1; 128; 1; 128; 1; 128; 1; 240; 31; 0; 0; 0; 0];
   [0; 0; 0; 0; 0; 0; 240; 15; 12; 24; 28; 48; 8; 24; 0; 24;
    0; 6; 128; 1; 96; 0; 16; 32; 12; 48; 252; 31; 0; 0; 0; 0];
   [0; 0; 0; 0; 0; 0; 240; 7; 12; 24; 28; 24; 0; 24; 0; 6;
    128; 15; 0; 24; 0; 48; 28; 48; 12; 24; 240; 7; 0; 0; 0; 0];
   [0; 0; 0; 0; 0; 0; 0; 12; 0; 15; 128; 14; 64; 14; 48; 14;
    8; 14; 4; 14; 254; 127; 0; 14; 0; 14; 192; 127; 0; 0; 0; 0];
   [0; 0; 0; 0; 0; 0; 248; 31; 8; 0; 8; 0; 8; 0; 232; 15;
    24; 24; 0; 48; 0; 48; 28; 48; 12; 24; 240; 7; 0; 0; 0; 0];
   [0; 0; 0; 0; 0; 0; 224; 15; 16; 24; 8; 0; 12; 0; 236; 15;
    28; 48; 12; 48; 12; 48; 12; 48; 24; 24; 224; 7; 0; 0; 0; 0];
   [0; 0; 0; 0; 0; 0; 248; 63; 12; 16; 4; 8; 0; 4; 0; 2;
    0; 1; 128; 1; 192; 0; 192; 0; 192; 1; 192; 0; 0; 0; 0; 0];
   [0; 0; 0; 0; 0; 0; 240; 15; 12; 16; 12; 48; 28; 16; 240; 12;
    176; 7; 12; 28; 6; 48; 6; 48; 12; 16; 240; 15; 0; 0; 0; 0];
   [0; 0; 0; 0; 0; 0; 240; 7; 12; 24; 12; 48; 14; 48; 12; 56;
    28; 52; 240; 51; 0; 56; 0; 24; 28; 12; 240; 3; 0; 0; 0; 0];
   [0; 0; 0; 0; 0; 0; 0; 0; 0; 0; 0; 0; 128; 1; 192; 1;
    0; 0; 0; 0; 0; 0; 0; 0; 192; 1; 192; 1; 0; 0; 0; 0];
   [0; 0; 0; 0; 0; 0; 0; 0; 0; 0; 0; 0; 0; 0; 192; 1;
    0; 0; 0; 0; 0; 0; 0; 0; 192; 1; 192; 1; 128; 1; 0; 0];
   [0; 0; 0; 0; 0; 0; 0; 24; 0; 6; 128; 1; 96; 0; 24; 0;
    12; 0; 48; 0; 192; 0; 0; 3; 0; 12; 0; 48; 0; 0; 0; 0];
   [0; 0; 0; 0; 0; 0; 0; 0; 0; 0; 0; 0; 254; 127; 0; 0;
    0; 0; 252; 63; 0; 0; 0; 0; 0; 0; 0; 0; 0; 0; 0; 0];
   [0; 0; 0; 0; 0; 0; 24; 0; 96; 0; 128; 1; 0; 6; 0; 24;
    0; 48; 0; 12; 0; 3; 192; 0; 48; 0; 12; 0; 0; 0; 0; 0];
   [0; 0; 0; 0; 0; 0; 240; 15; 12; 48; 12; 48; 28; 48; 0; 28;
    0; 3; 128; 0; 128; 0; 0; 0; 192; 1; 192; 1; 0; 0; 0; 0];
   [0; 0; 0; 0; 0; 0; 224; 31; 24; 48; 140; 79; 196; 76; 102; 76;
    102; 68; 38; 68; 100; 55; 140; 72; 24; 48; 224; 15; 0; 0; 0; 0];
   [0; 0; 0; 0; 0; 0; 128; 1; 64; 3; 64; 3; 32; 6; 32; 6;
    16; 4; 240; 15; 8; 12; 8; 24; 4; 24; 31; 124; 0; 0; 0; 0];
   [0; 0; 0; 0; 0; 0; 252; 15; 24; 56; 24; 48; 24; 56; 24; 14;
    248; 29; 24; 48; 24; 112; 24; 112; 24; 48; 255; 15; 0; 0; 0; 0];
   [0; 0; 0; 0; 0; 0; 224; 63; 24; 32; 12; 64; 14; 0; 6; 0;
    6; 0; 6; 0; 14; 0; 12; 64; 24; 48; 224; 15; 0; 0; 0; 0];
   [0; 0; 0; 0; 0; 0; 252; 7; 24; 24; 24; 48; 24; 112; 24; 112;
    24; 112; 24; 112; 24; 48; 24; 48; 24; 12; 254; 3; 0; 0; 0; 0];
   [0; 0; 0; 0; 0; 0; 252; 63; 24; 32; 24; 0; 24; 8; 24; 12;
    248; 15; 24; 8; 24; 0; 24; 64; 24; 32; 254; 63; 0; 0; 0; 0];
   [0; 0; 0; 0; 0; 0; 252; 63; 24; 64; 24; 0; 24; 8; 24; 8;
    248; 15; 24; 8; 24; 0; 24; 0; 24; 0; 126; 0; 0; 0; 0; 0];
   [0; 0; 0; 0; 0; 0; 224; 31; 24; 16; 12; 16; 6; 0; 6; 0;
    6; 0; 6; 60; 14; 24; 12; 24; 24; 24; 224; 7; 0; 0; 0; 0];
   [0; 0; 0; 0; 0; 0; 28; 56; 12; 48; 12; 48; 12; 48; 12; 48;
    252; 63; 12; 48; 12; 48; 12; 48; 12; 48; 63; 124; 0; 0; 0; 0];
   [0; 0; 0; 0; 0; 0; 240; 15; 128; 1; 128; 1; 128; 1; 128; 1;
    128; 1; 128; 1; 128; 1; 128; 1; 128; 1; 248; 31; 0; 0; 0; 0];
   [0; 0; 0; 0; 0; 0; 192; 63; 0; 6; 0; 6; 0; 6; 0; 6;
    0; 6; 0; 6; 0; 6; 0; 6; 0; 6; 0; 6; 14; 3; 248; 0];
   [0; 0; 0; 0; 0; 0; 60; 60; 24; 4; 24; 2; 152; 1; 216; 0;
    184; 1; 24; 3; 24; 6; 24; 12; 24; 24; 126; 124; 0; 0; 0; 0];
   [0; 0; 0; 0; 0; 0; 60; 0; 24; 0; 24; 0; 24; 0; 24; 0;
    24; 0; 24; 0; 24; 0; 24; 64; 24; 32; 254; 63; 0; 0; 0; 0];
   [0; 0; 0; 0; 0; 0; 14; 120; 12; 56; 28; 52; 20; 52; 52; 52;
    52; 50; 100; 50; 100; 49; 196; 49; 196; 48; 143; 252; 0; 0; 0; 0];
   [0; 0; 0; 0; 0; 0; 30; 112; 60; 32; 116; 32; 228; 32; 196; 33;
    4; 35; 4; 38; 4; 44; 4; 56; 4; 48; 31; 32; 0; 0; 0; 0];
   [0; 0; 0; 0; 0; 0; 224; 15; 24; 24; 12; 48; 14; 96; 14; 96;
    14; 96; 14; 96; 12; 96; 12; 48; 24; 24; 224; 7; 0; 0; 0; 0];
   [0; 0; 0; 0; 0; 0; 252; 15; 24; 48; 24; 96; 24; 96; 24; 48;
    248; 15; 24; 0; 24; 0; 24; 0; 24; 0; 126; 0; 0; 0; 0; 0];
   [0; 0; 0; 0; 0; 0; 224; 7; 24; 24; 12; 48; 14; 112; 6; 96;
    6; 96; 6; 96; 206; 112; 60; 51; 24; 30; 224; 7; 0; 60; 0; 0];
   [0; 0; 0; 0; 0; 0; 252; 15; 24; 48; 24; 48; 24; 48; 24; 28;
    248; 3; 24; 6; 24; 6; 24; 12; 24; 24; 126; 112; 0; 0; 0; 0];
   [0; 0; 0; 0; 0; 0; 240; 31; 12; 16; 4; 0; 12; 0; 120; 0;
    128; 7; 0; 24; 0; 48; 4; 48; 12; 16; 244; 15; 0; 0; 0; 0];
   [0; 0; 0; 0; 0; 0; 252; 63; 130; 33; 128; 1; 128; 1; 128; 1;
    128; 1; 128; 1; 128; 1; 128; 1; 128; 1; 224; 7; 0; 0; 0; 0];
   [0; 0; 0; 0; 0; 0; 30; 48; 12; 16; 12; 16; 12; 16; 12; 16;
    12; 16; 12; 16; 12; 16; 12; 16; 24; 24; 224; 7; 0; 0; 0; 0];
   [0; 0; 0; 0; 0; 0; 30; 48; 24; 16; 24; 8; 48; 8; 48; 4;
    96; 4; 96; 2; 192; 2; 192; 1; 128; 1; 128; 0; 0; 0; 0; 0];
   [0; 0; 0; 0; 0; 0; 142; 97; 132; 33; 12; 33; 140; 19; 136; 19;
    88; 18; 88; 14; 80; 14; 48; 14; 48; 4; 16; 4; 0; 0; 0; 0];
   [0; 0; 0; 0; 0; 0; 28; 56; 48; 8; 48; 4; 96; 2; 192; 1;
    128; 1; 64; 3; 32; 6; 16; 12; 24; 24; 62; 124; 0; 0; 0; 0];
   [0; 0; 0; 0; 0; 0; 28; 56; 24; 16; 48; 8; 48; 4; 96; 2;
    192; 2; 128; 1; 128; 1; 128; 1; 128; 1; 224; 7; 0; 0; 0; 0];
   [0; 0; 0; 0; 0; 0; 248; 63; 12; 24; 0; 12; 0; 6; 0; 3;
    128; 1; 192; 0; 96; 0; 48; 32; 28; 48; 254; 31; 0; 0; 0; 0];
   [0; 0; 192; 63; 192; 0; 192; 0; 192; 0; 192; 0; 192; 0; 192; 0;
    192; 0; 192; 0; 192; 0; 192; 0; 192; 0; 192; 0; 192; 31; 0; 0];
   [0; 0; 0; 0; 12; 0; 24; 0; 48; 0; 32; 0; 64; 0; 192; 0;
    128; 1; 0; 3; 0; 2; 0; 4; 0; 12; 0; 24; 0; 48; 0; 32];
   [0; 0; 252; 3; 0; 3; 0; 3; 0; 3; 0; 3; 0; 3; 0; 3;
    0; 3; 0; 3; 0; 3; 0; 3; 0; 3; 0; 3; 248; 3; 0; 0];
   [0; 0; 192; 3; 48; 12; 0; 0; 0; 0; 0; 0; 0; 0; 0; 0;
    0; 0; 0; 0; 0; 0; 0; 0; 0; 0; 0; 0; 0; 0; 0; 0];
   [0; 0; 0; 0; 0; 0; 0; 0; 0; 0; 0; 0; 0; 0; 0; 0;
    0; 0; 0; 0; 0; 0; 0; 0; 0; 0; 0; 0; 0; 0; 255; 255];
   [0; 0; 112; 0; 128; 1; 0; 0; 0; 0; 0; 0; 0; 0; 0; 0;
    0; 0; 0; 0; 0; 0; 0; 0; 0; 0; 0; 0; 0; 0; 0; 0];
   [0; 0; 0; 0; 0; 0; 0; 0; 0; 0; 0; 0; 0; 0; 248; 15;
    12; 24; 192; 31; 56; 24; 12; 24; 12; 28; 248; 115; 0; 0; 0; 0];
   [0; 0; 0; 0; 0; 0; 12; 0; 8; 0; 8; 0; 8; 3; 232; 28;
    24; 48; 8; 48; 8; 48; 8; 48; 24; 24; 232; 7; 0; 0; 0; 0];
   [0; 0; 0; 0; 0; 0; 0; 0; 0; 0; 0; 0; 0; 0; 240; 31;
    24; 24; 12; 0; 12; 0; 12; 0; 24; 16; 224; 15; 0; 0; 0; 0];
   [0; 0; 0; 0; 0; 0; 0; 28; 0; 24; 0; 24; 128; 25; 112; 30;
    24; 24; 12; 24; 12; 24; 12; 24; 24; 28; 224; 59; 0; 0; 0; 0];
   [0; 0; 0; 0; 0; 0; 0; 0; 0; 0; 0; 0; 0; 0; 240; 31;
    8; 48; 12; 48; 252; 15; 12; 0; 24; 16; 224; 15; 0; 0; 0; 0];
   [0; 0; 0; 0; 0; 0; 0; 63; 192; 96; 64; 0; 248; 15; 64; 0;
    64; 0; 64; 0; 64; 0; 64; 0; 64; 0; 252; 15; 0; 0; 0; 0];
   [0; 0; 0; 0; 0; 0; 0; 0; 0; 0; 0; 0; 0; 0; 240; 127;
    8; 24; 8; 24; 48; 6; 200; 1; 248; 15; 12; 48; 4; 48; 248; 31];
   [0; 0; 0; 0; 0; 0; 28; 0; 24; 0; 24; 0; 24; 3; 248; 28;
    24; 24; 24; 24; 24; 24; 24; 24; 24; 24; 62; 124; 0; 0; 0; 0];
   [0; 0; 0; 0; 0; 0; 128; 3; 0; 0; 0; 0; 112; 1; 128; 1;
    128; 1; 128; 1; 128; 1; 128; 1; 128; 1; 248; 31; 0; 0; 0; 0];
   [0; 0; 0; 0; 0; 0; 0; 28; 0; 0; 0; 0; 0; 11; 0; 12;
    0; 8; 0; 8; 0; 8; 0; 8; 0; 8; 0; 8; 8; 12; 248; 3];
   [0; 0; 0; 0; 0; 0; 28; 0; 24; 0; 24; 0; 24; 16; 24; 12;
    24; 3; 216; 1; 56; 3; 24; 6; 24; 28; 62; 124; 0; 0; 0; 0];
   [0; 0; 0; 0; 0; 0; 240; 1; 128; 1; 128; 1; 128; 1; 128; 1;
    128; 1; 128; 1; 128; 1; 128; 1; 128; 1; 248; 31; 0; 0; 0; 0];
   [0; 0; 0; 0; 0; 0; 0; 0; 0; 0; 0; 0; 98; 24; 156; 39;
    132; 97; 132; 97; 132; 97; 132; 97; 132; 97; 223; 243; 0; 0; 0; 0];
   [0; 0; 0; 0; 0; 0; 0; 0; 0; 0; 0; 0; 20; 3; 248; 28;
    24; 24; 24; 24; 24; 24; 24; 24; 24; 24; 62; 124; 0; 0; 0; 0];
   [0; 0; 0; 0; 0; 0; 0; 0; 0; 0; 0; 0; 0; 0; 240; 15;
    12; 48; 12; 48; 12; 48; 12; 48; 24; 24; 224; 7; 0; 0; 0; 0];
   [0; 0; 0; 0; 0; 0; 0; 0; 0; 0; 0; 0; 16; 3; 252; 28;
    24; 48; 24; 48; 24; 48; 24; 48; 24; 24; 248; 7; 24; 0; 60; 0];
   [0; 0; 0; 0; 0; 0; 0; 0; 0; 0; 0; 0; 0; 0; 240; 23;
    12; 24; 12; 24; 12; 24; 12; 24; 8; 24; 240; 31; 0; 24; 0; 60];
   [0; 0; 0; 0; 0; 0; 0; 0; 0; 0; 0; 0; 12; 8; 48; 119;
    224; 0; 32; 0; 32; 0; 32; 0; 32; 0; 254; 3; 0; 0; 0; 0];
   [0; 0; 0; 0; 0; 0; 0; 0; 0; 0; 0; 0; 0; 0; 240; 31;
    24; 16; 112; 0; 128; 15; 0; 48; 8; 16; 248; 15; 0; 0; 0; 0];
   [0; 0; 0; 0; 0; 0; 0; 0; 128; 0; 192; 0; 248; 15; 192; 0;
    192; 0; 192; 0; 192; 0; 192; 0; 192; 16; 128; 15; 0; 0; 0; 0];
   [0; 0; 0; 0; 0; 0; 0; 0; 0; 0; 0; 0; 0; 4; 12; 24;
    8; 24; 8; 24; 8; 24; 8; 24; 24; 28; 240; 59; 0; 0; 0; 0];
   [0; 0; 0; 0; 0; 0; 0; 0; 0; 0; 0; 0; 0; 0; 60; 56;
    48; 8; 48; 4; 96; 4; 192; 2; 192; 1; 128; 0; 0; 0; 0; 0];
   [0; 0; 0; 0; 0; 0; 0; 0; 0; 0; 0; 0; 0; 0; 142; 97;
    140; 33; 136; 19; 88; 18; 80; 14; 48; 12; 32; 4; 0; 0; 0; 0];
   [0; 0; 0; 0; 0; 0; 0; 0; 0; 0; 0; 0; 0; 0; 56; 28;
    96; 4; 192; 3; 128; 3; 96; 6; 16; 12; 62; 126; 0; 0; 0; 0];
   [0; 0; 0; 0; 0; 0; 0; 0; 0; 0; 0; 0; 0; 0; 60; 56;
    48; 8; 32; 4; 64; 6; 192; 2; 128; 1; 128; 0; 128; 0; 124; 0];
   [0; 0; 0; 0; 0; 0; 0; 0; 0; 0; 0; 0; 0; 0; 248; 15;
    4; 6; 0; 3; 192; 0; 96; 32; 24; 16; 252; 31; 0; 0; 0; 0];
   [0; 0; 0; 56; 0; 4; 0; 4; 0; 6; 0; 6; 0; 6; 0; 2;
    0; 1; 0; 6; 0; 6; 0; 6; 0; 6; 0; 4; 0; 28; 0; 0];
   [128; 0; 128; 0; 128; 0; 128; 0; 128; 0; 128; 0; 128; 0; 128; 0;
    128; 0; 128; 0; 128; 0; 128; 0; 128; 0; 128; 0; 128; 0; 128; 0];
   [0; 0; 28; 0; 32; 0; 32; 0; 96; 0; 96; 0; 96; 0; 64; 0;
    128; 0; 96; 0; 96; 0; 96; 0; 96; 0; 32; 0; 56; 0; 0; 0];
   [56; 0; 196; 64; 2; 63; 0; 0; 0; 0; 0; 0; 0; 0; 0; 0;
    0; 0; 0; 0; 0; 0; 0; 0; 0; 0; 0; 0; 0; 0; 0; 0]].

Definition chines_word : list (list Z) :=
  [[128; 0; 159; 16; 144; 16; 144; 8; 144; 4; 158; 2; 130; 0; 226; 127;
    130; 2; 158; 4; 144; 4; 144; 8; 144; 16; 144; 34; 138; 65; 132; 0];
   [8; 0; 200; 127; 8; 0; 8; 0; 152; 63; 170; 32; 138; 32; 138; 63;
    137; 32; 136; 32; 136; 63; 136; 32; 8; 0; 8; 0; 200; 127; 8; 0];
   [0; 4; 64; 68; 95; 68; 68; 68; 196; 127; 4; 0; 228; 127; 31; 4;
    4; 2; 196; 127; 68; 74; 92; 74; 71; 74; 66; 74; 64; 74; 64; 96];
   [32; 0; 112; 0; 30; 0; 16; 62; 16; 34; 255; 34; 16; 34; 24; 34;
    56; 34; 84; 34; 84; 34; 18; 34; 17; 62; 16; 34; 16; 0; 16; 0];
   [128; 0; 128; 0; 254; 63; 192; 1; 160; 2; 144; 4; 140; 24; 131; 96;
    240; 7; 0; 2; 0; 1; 255; 127; 128; 0; 128; 0; 160; 0; 64; 0];
   [0; 8; 224; 9; 63; 61; 36; 37; 36; 35; 228; 21; 132; 8; 159; 20;
    132; 98; 164; 3; 164; 60; 188; 36; 167; 36; 162; 37; 112; 60; 0; 36];
   [0; 4; 0; 4; 222; 127; 18; 4; 146; 63; 18; 4; 210; 127; 30; 0;
    146; 63; 146; 32; 146; 63; 146; 32; 158; 63; 146; 32; 128; 40; 128; 16]].

(** A table of [n] bitmaps of 32 bytes. *)
Definition font_ok (n : Z) (font : list (list Z)) : bool :=
  (Z.of_nat (length font) =? n) &&
  forallb (fun g => (Z.of_nat (length g) =? 32) &&
                    forallb (fun b => (0 <=? b) && (b <? 256)) g) font.

Lemma ascii_font_ok : font_ok 95 ascii_8X16 = true.
Proof. vm_compute. reflexivity. Qed.
Lemma chinese_font_ok : font_ok 7 chines_word = true.
Proof. vm_compute. reflexivity. Qed.

Lemma font_glyph n font i :
  font_ok n font = true -> 0 <= i < n ->
  exists g, aget font i = Ok g /\ length g = 32%nat.
Proof.
  intros [Hl Hf]%andb_true_iff Hi.
  destruct (lookup_lt_is_Some_2 font (Z.to_nat i)) as [g Hg]; [lia|].
  exists g. split; [by apply aget_Ok; [lia|]|].
  rewrite forallb_forall in Hf. specialize (Hf g). rewrite <- list_elem_of_In in Hf.
  apply list_elem_of_lookup_2 in Hg. apply Hf, andb_true_iff in Hg as [Hg _]. lia.
Qed.
