(* ===== verification/Lcd.v ===== *)
(** * The display (applications/lcd.c, font.h)

    The driver of the ST7789 panel: bytes are bit-banged on SPI pins, with a
    pin that tells commands from data; windows are set and pixels streamed into
    them; text, lines and circles are drawn on top.  [sent] reads a history the
    way the panel's serial interface does, [panel_of] executes the commands
    received, and [painted] is the list of pixels written.  The theorems: every
    byte goes over the wire as it is; points, fills and glyphs paint exactly
    their pixels; lines are the rounded lines between their end points; circles
    stay within one pixel of the ideal circle. *)

From S2P Require Import Prelude Gpio Font.

Module Lcd.

(** ** Pins and constants (lcd.h) *)

Definition SPI_SCK : Z := GET_PIN PORT_A 5.
Definition SPI_SDA : Z := GET_PIN PORT_A 7.
Definition SPI_RST : Z := GET_PIN PORT_B 5.
Definition SPI_DC : Z := GET_PIN PORT_A 6.
Definition SPI_CS : Z := GET_PIN PORT_A 4.
Definition SPI_BLK : Z := GET_PIN PORT_B 2.

Definition TFT_COLUMN_NUMBER : Z := 170.
Definition TFT_LINE_NUMBER : Z := 320.
Definition TFT_COLUMN_OFFSET : Z := 35.
Definition TFT_LINE_OFFSET : Z := 0.

Definition WHITE : Z := 0xffff.
Definition BLACK : Z := 0x0000.
Definition GRAY1 : Z := 0x8410.
Definition GRAY2 : Z := 0x4208.

(** A loop whose body does not use the counter. *)
Definition repeat_loop {A : Type} (n : Z) (body : A -> A) (a : A) : A :=
  Nat.iter (Z.to_nat n) body a.

(** ** Bytes and commands (lcd.c) *)

Definition SPI_SendByte (byte : Z) (h : history) : history :=
  snd (repeat_loop 8 (fun '(byte, h) =>
    let h := rt_pin_write SPI_SCK PIN_LOW h in
    let h := if Z.land byte 0x80 =? 0 then rt_pin_write SPI_SDA PIN_LOW h
             else rt_pin_write SPI_SDA PIN_HIGH h in
    let byte := u8 (Z.shiftl byte 1) in
    let h := rt_pin_write SPI_SCK PIN_HIGH h in
    (byte, rt_pin_write SPI_SCK PIN_LOW h)) (u8 byte, h)).

Definition TFT_SEND_CMD (o_command : Z) (h : history) : history :=
  let h := rt_pin_write SPI_DC PIN_LOW h in
  let h := rt_pin_write SPI_CS PIN_LOW h in
  let h := SPI_SendByte o_command h in
  rt_pin_write SPI_CS PIN_HIGH h.

Definition TFT_SEND_DATA (o_data : Z) (h : history) : history :=
  let h := rt_pin_write SPI_DC PIN_HIGH h in
  let h := rt_pin_write SPI_CS PIN_LOW h in
  let h := SPI_SendByte o_data h in
  rt_pin_write SPI_CS PIN_HIGH h.

Definition TFT_Write_HalfWord (da : Z) (h : history) : history :=
  let da := u16 da in
  let h := rt_pin_write SPI_DC PIN_HIGH h in
  let h := rt_pin_write SPI_CS PIN_LOW h in
  let h := SPI_SendByte (Z.shiftr da 8) h in
  let h := SPI_SendByte da h in
  rt_pin_write SPI_CS PIN_HIGH h.

(** The four parameters are [unsigned short]. *)
Definition TFT_SET_ADD (x_start y_start x_end y_end : Z) (h : history) : history :=
  let x := u16 (u16 x_start + TFT_COLUMN_OFFSET) in
  let y := u16 (u16 x_end + TFT_COLUMN_OFFSET) in
  let h := TFT_SEND_CMD 0x2a h in
  let h := TFT_SEND_DATA (Z.shiftr x 8) h in
  let h := TFT_SEND_DATA x h in
  let h := TFT_SEND_DATA (Z.shiftr y 8) h in
  let h := TFT_SEND_DATA y h in
  let x := u16 (u16 y_start + TFT_LINE_OFFSET) in
  let y := u16 (u16 y_end + TFT_LINE_OFFSET) in
  let h := TFT_SEND_CMD 0x2b h in
  let h := TFT_SEND_DATA (Z.shiftr x 8) h in
  let h := TFT_SEND_DATA x h in
  let h := TFT_SEND_DATA (Z.shiftr y 8) h in
  let h := TFT_SEND_DATA y h in
  TFT_SEND_CMD 0x2C h.

Definition TFT_clear (h : history) : history :=
  let h := TFT_SET_ADD 0 0 (TFT_COLUMN_NUMBER - 1) (TFT_LINE_NUMBER - 1) h in
  repeat_loop TFT_LINE_NUMBER
    (repeat_loop TFT_COLUMN_NUMBER (fun h => TFT_SEND_DATA 0xFF (TFT_SEND_DATA 0xFF h))) h.

Definition TFT_full (color : Z) (h : history) : history :=
  let h := TFT_SET_ADD 0 0 (TFT_COLUMN_NUMBER - 1) (TFT_LINE_NUMBER - 1) h in
  repeat_loop TFT_LINE_NUMBER
    (repeat_loop TFT_COLUMN_NUMBER
       (fun h => TFT_SEND_DATA color (TFT_SEND_DATA (Z.shiftr color 8) h))) h.

Definition TFT_init (h : history) : history :=
  let h := rt_pin_mode SPI_SCK PIN_MODE_OUTPUT h in
  let h := rt_pin_mode SPI_SDA PIN_MODE_OUTPUT h in
  let h := rt_pin_mode SPI_RST PIN_MODE_OUTPUT h in
  let h := rt_pin_mode SPI_DC PIN_MODE_OUTPUT h in
  let h := rt_pin_mode SPI_CS PIN_MODE_OUTPUT h in
  let h := rt_pin_mode SPI_BLK PIN_MODE_OUTPUT h in
  let h := rt_pin_write SPI_SCK PIN_HIGH h in
  let h := rt_pin_write SPI_RST PIN_LOW h in
  let h := rt_thread_mdelay 1000 h in
  let h := rt_pin_write SPI_RST PIN_HIGH h in
  let h := rt_thread_mdelay 1000 h in
  let h := TFT_SEND_CMD 0x11 h in
  let h := rt_thread_mdelay 120 h in
  let h := TFT_SEND_CMD 0x3a h in let h := TFT_SEND_DATA 0x05 h in
  let h := TFT_SEND_CMD 0xc5 h in let h := TFT_SEND_DATA 0x1a h in
  let h := TFT_SEND_CMD 0x36 h in let h := TFT_SEND_DATA 0x00 h in
  let h := TFT_SEND_CMD 0xb2 h in let h := TFT_SEND_DATA 0x05 h in
    let h := TFT_SEND_DATA 0x05 h in let h := TFT_SEND_DATA 0x00 h in
    let h := TFT_SEND_DATA 0x33 h in let h := TFT_SEND_DATA 0x33 h in
  let h := TFT_SEND_CMD 0xb7 h in let h := TFT_SEND_DATA 0x05 h in
  let h := TFT_SEND_CMD 0xbb h in let h := TFT_SEND_DATA 0x3f h in
  let h := TFT_SEND_CMD 0xc0 h in let h := TFT_SEND_DATA 0x2c h in
  let h := TFT_SEND_CMD 0xc2 h in let h := TFT_SEND_DATA 0x01 h in
  let h := TFT_SEND_CMD 0xc3 h in let h := TFT_SEND_DATA 0x0f h in
  let h := TFT_SEND_CMD 0xc4 h in let h := TFT_SEND_DATA 0x20 h in
  let h := TFT_SEND_CMD 0xc6 h in let h := TFT_SEND_DATA 0x01 h in
  let h := TFT_SEND_CMD 0xd0 h in let h := TFT_SEND_DATA 0xa4 h in
    let h := TFT_SEND_DATA 0xa1 h in
  let h := TFT_SEND_CMD 0xe8 h in let h := TFT_SEND_DATA 0x03 h in
  let h := TFT_SEND_CMD 0xe9 h in let h := TFT_SEND_DATA 0x09 h in
    let h := TFT_SEND_DATA 0x09 h in let h := TFT_SEND_DATA 0x08 h in
  let h := TFT_SEND_CMD 0xe0 h in let h := TFT_SEND_DATA 0xd0 h in
    let h := TFT_SEND_DATA 0x05 h in let h := TFT_SEND_DATA 0x09 h in
    let h := TFT_SEND_DATA 0x09 h in let h := TFT_SEND_DATA 0x08 h in
    let h := TFT_SEND_DATA 0x14 h in let h := TFT_SEND_DATA 0x28 h in
    let h := TFT_SEND_DATA 0x33 h in let h := TFT_SEND_DATA 0x3f h in
    let h := TFT_SEND_DATA 0x07 h in let h := TFT_SEND_DATA 0x13 h in
    let h := TFT_SEND_DATA 0x14 h in let h := TFT_SEND_DATA 0x28 h in
    let h := TFT_SEND_DATA 0x30 h in
  let h := TFT_SEND_CMD 0xe1 h in let h := TFT_SEND_DATA 0xd0 h in
    let h := TFT_SEND_DATA 0x05 h in let h := TFT_SEND_DATA 0x09 h in
    let h := TFT_SEND_DATA 0x09 h in let h := TFT_SEND_DATA 0x08 h in
    let h := TFT_SEND_DATA 0x03 h in let h := TFT_SEND_DATA 0x24 h in
    let h := TFT_SEND_DATA 0x32 h in let h := TFT_SEND_DATA 0x32 h in
    let h := TFT_SEND_DATA 0x3b h in let h := TFT_SEND_DATA 0x14 h in
    let h := TFT_SEND_DATA 0x13 h in let h := TFT_SEND_DATA 0x28 h in
    let h := TFT_SEND_DATA 0x2f h in
  let h := TFT_SEND_CMD 0x21 h in
  let h := TFT_SEND_CMD 0x29 h in
  h.

(** ** Text *)

(** One byte of a bitmap, least significant bit first: the inner loop of
    [display_char16_16] and [display_ascii_16_16]. *)
Definition display_column (color temp : Z) (h : history) : history :=
  snd (repeat_loop 8 (fun '(temp, h) =>
    let h := if negb (Z.land temp 0x01 =? 0)
             then TFT_SEND_DATA color (TFT_SEND_DATA (Z.shiftr color 8) h)
             else TFT_SEND_DATA 0xFF (TFT_SEND_DATA 0xFF h) in
    (Z.shiftr temp 1, h)) (temp, h)).

(** The outer loop, from byte [xxx] of the bitmap. *)
Fixpoint display_columns (font : list (list Z)) (word_serial_number color : Z)
    (n : nat) (xxx : Z) (h : history) : result history :=
  match n with
  | O => Ok h
  | S n =>
      g ← aget font word_serial_number;
      temp ← aget g xxx;
      display_columns font word_serial_number color n (u8 (xxx + 1)) (display_column color temp h)
  end.

(** [x], [y]: [unsigned int]; [word_serial_number]: [unsigned char]. *)
Definition display_char16_16 (x y color word_serial_number : Z) (h : history) : result history :=
  let h := TFT_SET_ADD x y (x + 15) (y + 15) h in
  display_columns chines_word (u8 word_serial_number) color 32 0 h.

Definition display_ascii_16_16 (x y color word_serial_number : Z) (h : history) : result history :=
  let h := TFT_SET_ADD x y (x + 15) (y + 15) h in
  display_columns ascii_8X16 (u8 word_serial_number) color 32 0 h.

(** The string is the list of its characters before the terminating zero. *)
Fixpoint display_string (x y color : Z) (data : list Z) (h : history) : result history :=
  match data with
  | [] => Ok h
  | c :: data =>
      h ← display_ascii_16_16 x y BLACK (c - 32) h;
      display_string (u32 (x + 16)) y color data h
  end.

(** [PIC_NUM] bytes of a picture. *)
Definition PIC_LEN : Z := 120.
Definition PIC_HIG : Z := 120.
Definition PIC_NUM : Z := 28800.
Fixpoint send_bytes (n : nat) (ptr_pic : list Z) (h : history) : result history :=
  match n with
  | O => Ok h
  | S n => match ptr_pic with
           | [] => Fault OutOfBounds
           | b :: ptr_pic => send_bytes n ptr_pic (TFT_SEND_DATA b h)
           end
  end.
Definition Picture_display (ptr_pic : list Z) (h : history) : result history :=
  let h := TFT_SET_ADD 0 0 (PIC_LEN - 1) (PIC_HIG - 1) h in
  send_bytes (Z.to_nat PIC_NUM) ptr_pic h.

(** ** Points, circles and lines *)

Definition Gui_DrawPoint (x y color : Z) (h : history) : history :=
  let h := TFT_SET_ADD x y (x + 1) (y + 1) h in
  TFT_Write_HalfWord color h.

Definition Gui_Drawmap (x y color : Z) (h : history) : history :=
  let h := Gui_DrawPoint x y color h in
  let h := Gui_DrawPoint (x - 1) (y - 1) color h in
  let h := Gui_DrawPoint (x + 1) (y - 1) color h in
  let h := Gui_DrawPoint (x - 1) (y + 1) color h in
  Gui_DrawPoint (x + 1) (y + 1) color h.

(** The state of the loop of [Gui_Circle]. *)
Record circle := mk_circle { ca : Z; cb : Z; cc : Z; ch : history }.

Definition circle_points (X Y fc : Z) (s : circle) : history :=
  let (a, b, _, h) := s in
  let h := Gui_DrawPoint (X + a) (Y + b) fc h in
  let h := Gui_DrawPoint (X - a) (Y + b) fc h in
  let h := Gui_DrawPoint (X + a) (Y - b) fc h in
  let h := Gui_DrawPoint (X - a) (Y - b) fc h in
  let h := Gui_DrawPoint (X + b) (Y + a) fc h in
  let h := Gui_DrawPoint (X - b) (Y + a) fc h in
  let h := Gui_DrawPoint (X + b) (Y - a) fc h in
  Gui_DrawPoint (X - b) (Y - a) fc h.

Definition circle_body (X Y fc : Z) (s : circle) : result circle :=
  let h := circle_points X Y fc s in
  let (a, b, c, _) := s in
  if c <? 0 then
    c ← chk32 (c + 4 * a + 6);
    Ok (mk_circle (u16 (a + 1)) b c h)
  else
    c ← chk32 (c + 4 * (a - b) + 10);
    Ok (mk_circle (u16 (a + 1)) (u16 (b - 1)) c h).

(** The points drawn after the loop when [a==b]. *)
Definition circle_last (X Y fc : Z) (s : circle) : history :=
  let (a, b, _, h) := s in
  let h := Gui_DrawPoint (X + a) (Y + b) fc h in
  let h := Gui_DrawPoint (X + a) (Y + b) fc h in
  let h := Gui_DrawPoint (X + a) (Y - b) fc h in
  let h := Gui_DrawPoint (X - a) (Y - b) fc h in
  let h := Gui_DrawPoint (X + b) (Y + a) fc h in
  let h := Gui_DrawPoint (X - b) (Y + a) fc h in
  let h := Gui_DrawPoint (X + b) (Y - a) fc h in
  Gui_DrawPoint (X - b) (Y - a) fc h.

(** All four parameters are [uint16_t]; the loop ends within [R + 1] steps. *)
Definition Gui_Circle (X Y R fc : Z) (h : history) : result history :=
  s ← while_loop (S (S (Z.to_nat R))) (fun s => ca s <? cb s) (circle_body X Y fc)
        (mk_circle 0 R (3 - 2 * R) h);
  Ok (if ca s =? cb s then circle_last X Y fc s else ch s).

(** The state of the two loops of [Gui_DrawLine]. *)
Record line := mk_line { lx : Z; ly : Z; lerr : Z; lh : history }.

(** The body of the loop over x ([dx > dy]), and of the one over y. *)
Definition line_x (dx2 dy2 x_inc y_inc Color : Z) (s : line) : line :=
  let (x0, y0, error, h) := s in
  let h := Gui_DrawPoint x0 y0 Color h in
  let '(error, y0) := if 0 <=? error then (error - dx2, u16 (y0 + y_inc)) else (error, y0) in
  let error := error + dy2 in
  mk_line (u16 (x0 + x_inc)) y0 error h.
Definition line_y (dx2 dy2 x_inc y_inc Color : Z) (s : line) : line :=
  let (x0, y0, error, h) := s in
  let h := Gui_DrawPoint x0 y0 Color h in
  let '(error, x0) := if 0 <=? error then (error - dy2, u16 (x0 + x_inc)) else (error, x0) in
  let error := error + dx2 in
  mk_line x0 (u16 (y0 + y_inc)) error h.

(** All five parameters are [uint16_t]: no intermediate value leaves [int]. *)
Definition Gui_DrawLine (x0 y0 x1 y1 Color : Z) (h : history) : history :=
  let x0 := u16 x0 in let y0 := u16 y0 in let x1 := u16 x1 in let y1 := u16 y1 in
  let h := TFT_SET_ADD x0 y0 x0 y0 h in
  let dx := x1 - x0 in
  let dy := y1 - y0 in
  let '(x_inc, dx) := if 0 <=? dx then (1, dx) else (-1, - dx) in
  let '(y_inc, dy) := if 0 <=? dy then (1, dy) else (-1, - dy) in
  let dx2 := Z.shiftl dx 1 in
  let dy2 := Z.shiftl dy 1 in
  if dy <? dx then
    lh (repeat_loop (dx + 1) (line_x dx2 dy2 x_inc y_inc Color) (mk_line x0 y0 (dy2 - dx) h))
  else
    lh (repeat_loop (dy + 1) (line_y dx2 dy2 x_inc y_inc Color) (mk_line x0 y0 (dx2 - dy) h)).

Definition Gui_box (x y w h bc : Z) (hs : history) : history :=
  let hs := Gui_DrawLine x y (x + w) y 0xEF7D hs in
  let hs := Gui_DrawLine (x + w - 1) (y + 1) (x + w - 1) (y + 1 + h) 0x2965 hs in
  let hs := Gui_DrawLine x (y + h) (x + w) (y + h) 0x2965 hs in
  let hs := Gui_DrawLine x y x (y + h) 0xEF7D hs in
  Gui_DrawLine (x + 1) (y + 1) (x + 1 + w - 2) (y + 1 + h - 2) bc hs.

(** The four edges of [Gui_box2], in its two colours. *)
Definition box2_edges (x y w h c1 c2 : Z) (hs : history) : history :=
  let hs := Gui_DrawLine x y (x + w) y c1 hs in
  let hs := Gui_DrawLine (x + w - 1) (y + 1) (x + w - 1) (y + 1 + h) c2 hs in
  let hs := Gui_DrawLine x (y + h) (x + w) (y + h) c2 hs in
  Gui_DrawLine x y x (y + h) c1 hs.
Definition Gui_box2 (x y w h mode : Z) (hs : history) : history :=
  let hs := if mode =? 0 then box2_edges x y w h 0xEF7D 0x2965 hs else hs in
  let hs := if mode =? 1 then box2_edges x y w h 0x2965 0xEF7D hs else hs in
  if mode =? 2 then box2_edges x y w h 0xffff 0xffff hs else hs.

Definition DisplayButtonDown (x1 y1 x2 y2 : Z) (h : history) : history :=
  let h := Gui_DrawLine x1 y1 x2 y1 GRAY2 h in
  let h := Gui_DrawLine (x1 + 1) (y1 + 1) x2 (y1 + 1) GRAY1 h in
  let h := Gui_DrawLine x1 y1 x1 y2 GRAY2 h in
  let h := Gui_DrawLine (x1 + 1) (y1 + 1) (x1 + 1) y2 GRAY1 h in
  let h := Gui_DrawLine x1 y2 x2 y2 WHITE h in
  Gui_DrawLine x2 y1 x2 y2 WHITE h.

Definition DisplayButtonUp (x1 y1 x2 y2 : Z) (h : history) : history :=
  let h := Gui_DrawLine x1 y1 x2 y1 WHITE h in
  let h := Gui_DrawLine x1 y1 x1 y2 WHITE h in
  let h := Gui_DrawLine (x1 + 1) (y2 - 1) x2 (y2 - 1) GRAY1 h in
  let h := Gui_DrawLine x1 y2 x2 y2 GRAY2 h in
  let h := Gui_DrawLine (x2 - 1) (y1 + 1) (x2 - 1) y2 GRAY1 h in
  Gui_DrawLine x2 y1 x2 y2 GRAY2 h.

(** ** What the panel receives *)

(** The serial interface: the levels of the pins, the bits of the byte under
    way (oldest first) and the bytes received, newest first, each with the
    level of the data/command pin. *)
Record wire := mk_wire {
  w_sck : Z; w_sda : Z; w_dc : Z; w_cs : Z; w_bits : list bool; w_rx : list (bool * Z) }.

Definition byte_msb (l : list bool) : Z := byte_lsb (rev l).

Definition take_bit (b : bool) (w : wire) : wire :=
  let bits := w_bits w ++ [b] in
  if Nat.eqb (length bits) 8
  then mk_wire (w_sck w) (w_sda w) (w_dc w) (w_cs w) []
         ((negb (w_dc w =? 0), byte_msb bits) :: w_rx w)
  else mk_wire (w_sck w) (w_sda w) (w_dc w) (w_cs w) bits (w_rx w).

Definition wire_step (e : event) (w : wire) : wire :=
  match e with
  | PinWrite p v =>
      if p =? SPI_SCK then
        let w' := mk_wire v (w_sda w) (w_dc w) (w_cs w) (w_bits w) (w_rx w) in
        if (v =? 1) && (w_sck w =? 0) && (w_cs w =? 0)
        then take_bit (negb (w_sda w =? 0)) w' else w'
      else if p =? SPI_SDA then mk_wire (w_sck w) v (w_dc w) (w_cs w) (w_bits w) (w_rx w)
      else if p =? SPI_DC then mk_wire (w_sck w) (w_sda w) v (w_cs w) (w_bits w) (w_rx w)
      else if p =? SPI_CS then
        mk_wire (w_sck w) (w_sda w) (w_dc w) v (if v =? 0 then w_bits w else []) (w_rx w)
      else if p =? SPI_RST then
        mk_wire (w_sck w) (w_sda w) (w_dc w) (w_cs w) (if v =? 0 then [] else w_bits w) (w_rx w)
      else w
  | _ => w
  end.

Fixpoint wire_of (h : history) : wire :=
  match h with
  | [] => mk_wire 0 0 0 0 [] []
  | e :: h => wire_step e (wire_of h)
  end.

Definition idle (h : history) : Prop := w_bits (wire_of h) = [].
Definition sent (h : history) : list (bool * Z) := w_rx (wire_of h).

(** The commands the panel executes: column window, row window, memory write;
    the others do not change what is painted.  [px] is the list of the pixels
    written, newest first; [k] counts them within the window, row by row. *)
Record panel := mk_panel {
  cmd : Z; args : list Z; xs : Z; xe : Z; ys : Z; ye : Z;
  k : Z; hi : option Z; px : list ((Z * Z) * Z) }.

Definition panel_step (b : bool * Z) (p : panel) : panel :=
  let '(is_data, b) := b in
  if negb is_data then
    mk_panel b [] (xs p) (xe p) (ys p) (ye p) 0 None (px p)
  else if cmd p =? 0x2a then
    let p := mk_panel (cmd p) (args p ++ [b]) (xs p) (xe p) (ys p) (ye p) (k p) (hi p) (px p) in
    match args p with
    | [a0; a1; a2; a3] =>
        mk_panel (cmd p) (args p) (a0 * 256 + a1) (a2 * 256 + a3) (ys p) (ye p) (k p) (hi p) (px p)
    | _ => p
    end
  else if cmd p =? 0x2b then
    let p := mk_panel (cmd p) (args p ++ [b]) (xs p) (xe p) (ys p) (ye p) (k p) (hi p) (px p) in
    match args p with
    | [a0; a1; a2; a3] =>
        mk_panel (cmd p) (args p) (xs p) (xe p) (a0 * 256 + a1) (a2 * 256 + a3) (k p) (hi p) (px p)
    | _ => p
    end
  else if cmd p =? 0x2c then
    match hi p with
    | None => mk_panel (cmd p) (args p) (xs p) (xe p) (ys p) (ye p) (k p) (Some b) (px p)
    | Some hb =>
        let w := xe p - xs p + 1 in
        let at_ := (xs p + k p mod w, ys p + k p / w mod (ye p - ys p + 1)) in
        mk_panel (cmd p) (args p) (xs p) (xe p) (ys p) (ye p) (k p + 1) None
          ((at_, hb * 256 + b) :: px p)
    end
  else p.

Definition panel_of (rx : list (bool * Z)) : panel :=
  foldr panel_step (mk_panel 0 [] 0 0 0 0 0 None []) rx.

Definition painted (h : history) : list ((Z * Z) * Z) := px (panel_of (sent h)).

(** *** The wire *)

Definition clock (b : bool) (h : history) : history :=
  PinWrite SPI_SCK 0 :: PinWrite SPI_SCK 1 :: PinWrite SPI_SDA (Z.b2z b) :: PinWrite SPI_SCK 0 :: h.

Lemma testbit_shift x n : 0 < n < 8 -> Z.testbit (u8 (Z.shiftl x 1)) n = Z.testbit x (n - 1).
Proof.
  intros Hn. unfold u8. rewrite Z.mod_pow2_bits_low by lia. apply Z.shiftl_spec. lia.
Qed.

Lemma SPI_SendByte_clocks b h :
  SPI_SendByte b h = foldl (fun h b => clock b h) h (bits_msb (u8 b)).
Proof.
  unfold SPI_SendByte, repeat_loop. change (Z.to_nat 8) with 8%nat.
  set (b0 := u8 b). clearbody b0. set (f := fun _ : Z * history => _).
  assert (forall b h, f (b, h) = (u8 (Z.shiftl b 1), clock (Z.testbit b 7) h)) as Hbit.
  { intros b1 h1. subst f. cbn beta iota zeta. rewrite (Z.land_comm b1).
    change 128 with (2 ^ 7). rewrite land_bit by lia. by destruct (Z.testbit b1 7). }
  clearbody f. unfold Nat.iter. cbn [nat_rect]. rewrite !Hbit. cbn [snd].
  unfold bits_msb, bits_lsb. cbn [seq fmap list_fmap rev app foldl].
  rewrite !testbit_shift by lia. reflexivity.
Qed.

Lemma wire_sck v h :
  wire_of (PinWrite SPI_SCK v :: h) =
    let w := wire_of h in
    let w' := mk_wire v (w_sda w) (w_dc w) (w_cs w) (w_bits w) (w_rx w) in
    if (v =? 1) && (w_sck w =? 0) && (w_cs w =? 0)
    then take_bit (negb (w_sda w =? 0)) w' else w'.
Proof. reflexivity. Qed.
Lemma wire_sda v h :
  wire_of (PinWrite SPI_SDA v :: h) =
    let w := wire_of h in mk_wire (w_sck w) v (w_dc w) (w_cs w) (w_bits w) (w_rx w).
Proof. reflexivity. Qed.
Lemma wire_dc v h :
  wire_of (PinWrite SPI_DC v :: h) =
    let w := wire_of h in mk_wire (w_sck w) (w_sda w) v (w_cs w) (w_bits w) (w_rx w).
Proof. reflexivity. Qed.
Lemma wire_cs v h :
  wire_of (PinWrite SPI_CS v :: h) =
    let w := wire_of h in
    mk_wire (w_sck w) (w_sda w) (w_dc w) v (if v =? 0 then w_bits w else []) (w_rx w).
Proof. reflexivity. Qed.

Lemma wire_clock b h :
  w_cs (wire_of h) = 0 ->
  wire_of (clock b h) = take_bit b (mk_wire 0 (Z.b2z b) (w_dc (wire_of h)) 0
    (w_bits (wire_of h)) (w_rx (wire_of h))).
Proof.
  intros Hcs. unfold clock. rewrite wire_sck, wire_sck, wire_sda, wire_sck.
  destruct (wire_of h) as [sck sda dc cs bits rx].
  cbn in Hcs. subst cs. cbn. unfold take_bit. cbn.
  destruct b; cbn; by destruct (Nat.eqb _ 8).
Qed.

Lemma wire_SendByte b h :
  w_cs (wire_of h) = 0 -> idle h ->
  let w := wire_of (SPI_SendByte b h) in
  w_cs w = 0 /\ w_bits w = [] /\ w_dc w = w_dc (wire_of h) /\
  w_rx w = (negb (w_dc (wire_of h) =? 0), u8 b) :: sent h.
Proof.
  intros Hcs Hb. unfold idle, sent in *. rewrite SPI_SendByte_clocks.
  pose proof (u8_range b) as Hr. set (b0 := u8 b) in *. clearbody b0.
  assert (byte_msb (bits_msb b0) = b0) as Hbyte.
  { unfold byte_msb, bits_msb. rewrite rev_involutive. by apply byte_bits_lsb. }
  unfold bits_msb, bits_lsb in *. cbn [seq fmap list_fmap rev app foldl] in *.
  destruct (wire_of h) as [sck sda dc cs bits rx] eqn:Ew. cbn in Hcs, Hb. subst cs bits.
  repeat (rewrite wire_clock; cbn [wire_of w_sck w_sda w_dc w_cs w_bits w_rx take_bit length app Nat.eqb]);
    rewrite ?Ew; cbn [w_cs w_dc w_rx w_bits take_bit length app Nat.eqb]; try done.
  by rewrite Hbyte.
Qed.

#[local] Opaque SPI_SendByte.

Lemma cs_high h :
  idle (PinWrite SPI_CS PIN_HIGH :: h) /\ sent (PinWrite SPI_CS PIN_HIGH :: h) = sent h.
Proof. unfold idle, sent. by rewrite wire_cs. Qed.

(** The pins before a byte: data or command, and the panel selected. *)
Lemma select dc h :
  idle h ->
  let h1 := PinWrite SPI_CS PIN_LOW :: PinWrite SPI_DC dc :: h in
  idle h1 /\ sent h1 = sent h /\ w_cs (wire_of h1) = 0 /\ w_dc (wire_of h1) = dc.
Proof. intros Hi h1. subst h1. unfold idle, sent. rewrite wire_cs, wire_dc. cbn. by rewrite Hi. Qed.

(** [f] sends the bytes [l]. *)
Definition sends (f : history -> history) (l : list (bool * Z)) : Prop :=
  forall h, idle h -> idle (f h) /\ sent (f h) = rev l ++ sent h.

Lemma sends_comp f g l1 l2 :
  sends f l1 -> sends g l2 -> sends (fun h => g (f h)) (l1 ++ l2).
Proof.
  intros Hf Hg h Hi. destruct (Hf h Hi) as [Hi1 E1]. destruct (Hg _ Hi1) as [Hi2 E2].
  split; [done|]. by rewrite E2, E1, rev_app_distr, app_assoc.
Qed.

Lemma sends_byte dc c :
  sends (fun h => PinWrite SPI_CS PIN_HIGH ::
           SPI_SendByte c (PinWrite SPI_CS PIN_LOW :: PinWrite SPI_DC dc :: h))
    [(negb (dc =? 0), u8 c)].
Proof.
  intros h Hi. destruct (select dc h Hi) as (Hi1 & E1 & C1 & D1).
  set (h1 := PinWrite SPI_CS PIN_LOW :: _) in *. clearbody h1.
  destruct (wire_SendByte c h1 C1 Hi1) as (H1 & H2 & H3 & H4).
  set (h2 := SPI_SendByte c h1) in *. clearbody h2.
  destruct (cs_high h2) as [Hi3 E3]. split; [exact Hi3|].
  rewrite E3. unfold sent at 1. by rewrite H4, D1, E1.
Qed.

Lemma sends_cmd c : sends (TFT_SEND_CMD c) [(false, u8 c)].
Proof. exact (sends_byte PIN_LOW c). Qed.
Lemma sends_data c : sends (TFT_SEND_DATA c) [(true, u8 c)].
Proof. exact (sends_byte PIN_HIGH c). Qed.

Lemma sends_halfword c :
  sends (TFT_Write_HalfWord c) [(true, u8 (Z.shiftr (u16 c) 8)); (true, u8 (u16 c))].
Proof.
  intros h Hi. unfold TFT_Write_HalfWord, rt_pin_write. cbn zeta.
  destruct (select PIN_HIGH h Hi) as (Hi1 & E1 & C1 & D1).
  set (h1 := PinWrite SPI_CS PIN_LOW :: _) in *. clearbody h1.
  destruct (wire_SendByte (Z.shiftr (u16 c) 8) h1 C1 Hi1) as (H1 & H2 & H3 & H4).
  set (h2 := SPI_SendByte _ h1) in *. clearbody h2.
  destruct (wire_SendByte (u16 c) h2 H1 H2) as (K1 & K2 & K3 & K4).
  set (h3 := SPI_SendByte _ h2) in *. clearbody h3.
  destruct (cs_high h3) as [Hi3 E3]. split; [exact Hi3|].
  rewrite E3. unfold sent at 1. rewrite K4, H3, D1. unfold sent at 1. by rewrite H4, D1, E1.
Qed.

#[local] Opaque TFT_SEND_CMD TFT_SEND_DATA.

Lemma sends_id : sends (fun h => h) [].
Proof. done. Qed.
Lemma sends_then_cmd c f l : sends f l -> sends (fun h => TFT_SEND_CMD c (f h)) (l ++ [(false, u8 c)]).
Proof. intros H. apply sends_comp; [done|apply sends_cmd]. Qed.
Lemma sends_then_data c f l : sends f l -> sends (fun h => TFT_SEND_DATA c (f h)) (l ++ [(true, u8 c)]).
Proof. intros H. apply sends_comp; [done|apply sends_data]. Qed.

(** *** The panel *)

Lemma halves x : 0 <= x < 65536 -> u8 (Z.shiftr x 8) * 256 + u8 x = x.
Proof.
  intros Hx. rewrite Z.shiftr_div_pow2 by lia. unfold u8. change (2 ^ 8) with 256. zmod.
Qed.

(** The window and the pixel counter after [TFT_SET_ADD]. *)
Definition in_window (x1 y1 x2 y2 n : Z) (p : panel) : Prop :=
  cmd p = 0x2c /\ hi p = None /\ k p = n /\ xs p = x1 /\ xe p = x2 /\ ys p = y1 /\ ye p = y2.

Lemma panel_set_add a0 a1 b0 b1 c0 c1 d0 d1 p :
  foldr panel_step p [(false, 44); (true, d1); (true, d0); (true, c1); (true, c0); (false, 43);
    (true, b1); (true, b0); (true, a1); (true, a0); (false, 42)]
  = mk_panel 44 [] (a0 * 256 + a1) (b0 * 256 + b1) (c0 * 256 + c1) (d0 * 256 + d1) 0 None (px p).
Proof. destruct p. reflexivity. Qed.

Lemma set_add_spec x1 y1 x2 y2 h :
  idle h ->
  let h' := TFT_SET_ADD x1 y1 x2 y2 h in
  idle h' /\ painted h' = painted h /\
  in_window (u16 (u16 x1 + 35)) (u16 y1) (u16 (u16 x2 + 35)) (u16 y2) 0 (panel_of (sent h')).
Proof.
  intros Hi h'. subst h'. unfold TFT_SET_ADD, TFT_COLUMN_OFFSET, TFT_LINE_OFFSET. rewrite !Z.add_0_r.
  pose proof (u16_range (u16 x1 + 35)) as R1. pose proof (u16_range (u16 x2 + 35)) as R2.
  pose proof (u16_range y1) as R3. pose proof (u16_range y2) as R4.
  rewrite (u16_small (u16 y1)), (u16_small (u16 y2)) by lia.
  set (a := u16 (u16 x1 + 35)) in *. set (b := u16 (u16 x2 + 35)) in *.
  set (c := u16 y1) in *. set (d := u16 y2) in *. clearbody a b c d.
  assert (sends (fun h => TFT_SEND_CMD 44 (TFT_SEND_DATA d (TFT_SEND_DATA (Z.shiftr d 8)
    (TFT_SEND_DATA c (TFT_SEND_DATA (Z.shiftr c 8) (TFT_SEND_CMD 43 (TFT_SEND_DATA b
    (TFT_SEND_DATA (Z.shiftr b 8) (TFT_SEND_DATA a (TFT_SEND_DATA (Z.shiftr a 8)
    (TFT_SEND_CMD 42 h)))))))))))
    ((((((((((([] ++ [(false, u8 42)]) ++ [(true, u8 (Z.shiftr a 8))]) ++ [(true, u8 a)]) ++
      [(true, u8 (Z.shiftr b 8))]) ++ [(true, u8 b)]) ++ [(false, u8 43)]) ++
      [(true, u8 (Z.shiftr c 8))]) ++ [(true, u8 c)]) ++ [(true, u8 (Z.shiftr d 8))]) ++
      [(true, u8 d)]) ++ [(false, u8 44)])) as Hs.
  { apply sends_then_cmd. do 4 apply sends_then_data. apply sends_then_cmd.
    do 4 apply sends_then_data. apply sends_then_cmd. apply sends_id. }
  destruct (Hs h Hi) as [Hi' E]. cbn zeta. split; [exact Hi'|]. unfold painted. rewrite E.
  unfold panel_of. rewrite foldr_app. fold (panel_of (sent h)).
  assert (Hp := panel_set_add (u8 (Z.shiftr a 8)) (u8 a) (u8 (Z.shiftr b 8)) (u8 b)
    (u8 (Z.shiftr c 8)) (u8 c) (u8 (Z.shiftr d 8)) (u8 d) (panel_of (sent h))).
  rewrite !halves in Hp by lia.
  match goal with |- context [foldr panel_step _ ?l] => match type of Hp with
    context [foldr panel_step _ ?l'] => change l with l' end end.
  rewrite Hp. clear. unfold in_window. cbn [px cmd hi k xs xe ys ye]. split_and!; reflexivity.
Qed.

(** The position of the [n]-th pixel of a window. *)
Definition pixel_at (x1 y1 x2 y2 n : Z) : Z * Z :=
  (x1 + n mod (x2 - x1 + 1), y1 + n / (x2 - x1 + 1) mod (y2 - y1 + 1)).

Definition color_bytes (c : Z) : list (bool * Z) := [(true, u8 (Z.shiftr c 8)); (true, u8 c)].

Lemma panel_pixel x1 y1 x2 y2 n b0 b1 p :
  in_window x1 y1 x2 y2 n p ->
  let q := foldr panel_step p [(true, b1); (true, b0)] in
  in_window x1 y1 x2 y2 (n + 1) q /\
  px q = (pixel_at x1 y1 x2 y2 n, b0 * 256 + b1) :: px p.
Proof.
  destruct p as [c a xs0 xe0 ys0 ye0 k0 hi0 px0]. intros (H1 & H2 & H3 & H4 & H5 & H6 & H7).
  cbn in *. subst. repeat split.
Qed.

Lemma panel_pixels x1 y1 x2 y2 n cs p :
  in_window x1 y1 x2 y2 n p -> Forall (fun c => 0 <= c < 65536) cs ->
  let q := foldr panel_step p (rev (flat_map color_bytes cs)) in
  in_window x1 y1 x2 y2 (n + Z.of_nat (length cs)) q /\
  px q = rev (imap (fun i c => (pixel_at x1 y1 x2 y2 (n + Z.of_nat i), c)) cs) ++ px p.
Proof.
  intros Hw Hc. revert n p Hw. induction Hc as [|c cs Hc Hcs IH]; intros n p Hw; cbn [flat_map].
  { cbn. rewrite Z.add_0_r. done. }
  rewrite rev_app_distr, foldr_app.
  change (rev (color_bytes c)) with [(true, u8 c); (true, u8 (Z.shiftr c 8))].
  destruct (panel_pixel x1 y1 x2 y2 n (u8 (Z.shiftr c 8)) (u8 c) p Hw) as [Hw1 E1].
  rewrite halves in E1 by lia. set (p1 := foldr panel_step p _) in *. clearbody p1.
  destruct (IH _ _ Hw1) as [Hw2 E2]. cbn zeta. rewrite E2, E1. split.
  - replace (n + Z.of_nat (length (c :: cs))) with (n + 1 + Z.of_nat (length cs)) by (cbn [length]; lia).
    exact Hw2.
  - rewrite imap_cons. cbn [rev]. rewrite <- app_assoc. cbn [app]. rewrite Z.add_0_r.
    f_equal. f_equal. apply imap_ext. intros i x _. cbn. do 2 f_equal. lia.
Qed.

(** [f] paints the pixels [l], in this order. *)
Definition paints (f : history -> history) (l : list ((Z * Z) * Z)) : Prop :=
  forall h, idle h -> idle (f h) /\ painted (f h) = rev l ++ painted h.

Lemma paints_id : paints (fun h => h) [].
Proof. done. Qed.
Lemma paints_comp f g l1 l2 :
  paints f l1 -> paints g l2 -> paints (fun h => g (f h)) (l1 ++ l2).
Proof.
  intros Hf Hg h Hi. destruct (Hf h Hi) as [Hi1 E1]. destruct (Hg _ Hi1) as [Hi2 E2].
  split; [done|]. by rewrite E2, E1, rev_app_distr, app_assoc.
Qed.

(** A window followed by the colours of its pixels. *)
Lemma paints_window x1 y1 x2 y2 f cs :
  Forall (fun c => 0 <= c < 65536) cs -> sends f (flat_map color_bytes cs) ->
  paints (fun h => f (TFT_SET_ADD x1 y1 x2 y2 h))
    (imap (fun i c => (pixel_at (u16 (u16 x1 + 35)) (u16 y1) (u16 (u16 x2 + 35)) (u16 y2)
                         (Z.of_nat i), c)) cs).
Proof.
  intros Hc Hf h Hi. destruct (set_add_spec x1 y1 x2 y2 h Hi) as (Hi1 & E1 & Hw).
  set (h1 := TFT_SET_ADD x1 y1 x2 y2 h) in *. clearbody h1.
  destruct (Hf h1 Hi1) as [Hi2 E2]. split; [done|]. unfold painted. rewrite E2.
  unfold panel_of. rewrite foldr_app. fold (panel_of (sent h1)).
  destruct (panel_pixels _ _ _ _ _ cs _ Hw Hc) as [_ E]. cbn zeta in E. rewrite E.
  fold (painted h1). rewrite E1. f_equal.
Qed.

Lemma paints_point x y color :
  paints (Gui_DrawPoint x y color) [((u16 (u16 x + 35), u16 y), u16 color)].
Proof.
  pose proof (paints_window x y (x + 1) (y + 1) (TFT_Write_HalfWord color) [u16 color]) as H.
  intros h Hi. unfold Gui_DrawPoint. destruct (H ltac:(pose proof (u16_range color); by constructor)
    (sends_halfword color) h Hi) as [Hi' E]. split; [exact Hi'|].
  rewrite E. clear. cbn [imap rev app]. unfold compose, pixel_at. cbn [Z.of_nat].
  rewrite Zmod_0_l, Zdiv_0_l, Zmod_0_l, !Z.add_0_r. reflexivity.
Qed.

Lemma sends_iter f l n : sends f l -> sends (Nat.iter n f) (concat (replicate n l)).
Proof.
  intros Hf. induction n as [|n IH]; [apply sends_id|].
  replace (concat (replicate (S n) l)) with (concat (replicate n l) ++ l).
  - intros h Hi. destruct (IH h Hi) as [Hi1 E1]. destruct (Hf _ Hi1) as [Hi2 E2].
    split; [exact Hi2|]. change (Nat.iter (S n) f h) with (f (Nat.iter n f h)).
    by rewrite E2, E1, rev_app_distr, app_assoc.
  - clear. induction n as [|n IH]; cbn; [by rewrite app_nil_r|]. by rewrite <- app_assoc, IH.
Qed.

(** *** The picture *)

(** The colour last painted at a place of the visible screen, whose columns
    start at column 35 of the panel's memory. *)
Fixpoint color_at (l : list ((Z * Z) * Z)) (p : Z * Z) : option Z :=
  match l with
  | [] => None
  | (q, c) :: l => if decide (p = q) then Some c else color_at l p
  end.
Definition screen (h : history) (x y : Z) : option Z := color_at (painted h) (x + 35, y).

Lemma color_at_app l1 l2 p :
  color_at (l1 ++ l2) p = match color_at l1 p with Some c => Some c | None => color_at l2 p end.
Proof. induction l1 as [|[q c] l1 IH]; cbn; [done|]. by case_decide. Qed.

Lemma color_at_imap (f : Z -> Z * Z) cs p :
  (forall i j, 0 <= i < Z.of_nat (length cs) -> 0 <= j < Z.of_nat (length cs) -> f i = f j -> i = j) ->
  (forall i c, cs !! i = Some c -> p = f (Z.of_nat i) ->
     color_at (rev (imap (fun i c => (f (Z.of_nat i), c)) cs)) p = Some c) /\
  ((forall i, 0 <= i < Z.of_nat (length cs) -> p <> f i) ->
     color_at (rev (imap (fun i c => (f (Z.of_nat i), c)) cs)) p = None).
Proof.
  induction cs as [|c cs IH] using rev_ind; intros Hinj; [done|].
  rewrite imap_app, rev_app_distr. cbn. rewrite Nat.add_0_r. rewrite length_app in *. cbn in *.
  destruct IH as [IH1 IH2]; [intros; apply Hinj; auto; lia|]. split.
  - intros i c' Hi ->. case_decide as E.
    + apply lookup_lt_Some in Hi as Hlt. rewrite length_app in Hlt. cbn in Hlt.
      apply Hinj in E; [|lia|lia]. assert (i = length cs) as -> by lia.
      by rewrite list_lookup_middle in Hi.
    + apply IH1 with i; [|done]. apply lookup_app_Some in Hi as [Hi|[Hl Hi]]; [done|].
      destruct (i - length cs)%nat as [|m] eqn:Em; [|done]. destruct E. f_equal. lia.
  - intros Hp. rewrite decide_False by (apply Hp; lia). apply IH2. intros i Hi. apply Hp. lia.
Qed.

Lemma window_color x1 y1 x2 y2 cs x y :
  x1 <= x2 -> y1 <= y2 -> Z.of_nat (length cs) = (x2 - x1 + 1) * (y2 - y1 + 1) ->
  color_at (rev (imap (fun i c => (pixel_at x1 y1 x2 y2 (Z.of_nat i), c)) cs)) (x, y) =
    if decide (x1 <= x <= x2 /\ y1 <= y <= y2)
    then cs !! Z.to_nat ((y - y1) * (x2 - x1 + 1) + (x - x1)) else None.
Proof.
  intros Hx Hy Hlen. unfold pixel_at.
  set (w := x2 - x1 + 1) in *. set (ht := y2 - y1 + 1) in *.
  assert (0 < w /\ 0 < ht) as [Hw Hh] by lia.
  assert (forall i, 0 <= i < w * ht -> i / w mod ht = i / w) as Hrow.
  { intros i Hi. apply Z.mod_small. split; [apply Z.div_pos; lia|].
    apply Z.div_lt_upper_bound; lia. }
  destruct (color_at_imap (fun n => (x1 + n mod w, y1 + n / w mod ht)) cs (x, y)) as [H1 H2].
  { intros i j Hi Hj E. injection E as E1 E2. rewrite !Hrow in E2 by lia.
    rewrite (Z.div_mod i w), (Z.div_mod j w) by lia. replace (i mod w) with (j mod w) by lia.
    replace (i / w) with (j / w) by lia. done. }
  case_decide as Hin.
  - set (i := (y - y1) * w + (x - x1)).
    assert (i mod w = x - x1 /\ i / w = y - y1) as [Em Ed].
    { subst i. rewrite Z.add_comm. rewrite Z.mod_add, Z.div_add by lia.
      rewrite Z.mod_small, Z.div_small by lia. lia. }
    assert (0 <= i < w * ht) as Hi by (subst i; nia).
    destruct (lookup_lt_is_Some_2 cs (Z.to_nat i)) as [c Hc]; [lia|]. rewrite Hc.
    apply (H1 (Z.to_nat i)); [done|]. rewrite Z2Nat.id by lia. rewrite Hrow, Em, Ed by lia.
    f_equal; lia.
  - apply H2. intros i Hi E. injection E as -> ->. apply Hin. rewrite Hrow by lia.
    pose proof (Z.mod_pos_bound i w Hw). pose proof (Z.div_pos i w ltac:(lia) Hw).
    assert (i / w < ht) by (apply Z.div_lt_upper_bound; lia). lia.
Qed.

(** *** Fills *)

Lemma color_bytes_u16 c : color_bytes (u16 c) = color_bytes c.
Proof.
  assert (u8 (u16 c) = u8 c /\ u8 (Z.shiftr (u16 c) 8) = u8 (Z.shiftr c 8)) as [E1 E2].
  { split; apply Z.bits_inj'; intros n Hn; unfold u8, u16;
      (destruct (decide (n < 8)) as [H|H];
       [rewrite !Z.mod_pow2_bits_low by lia|by rewrite !Z.mod_pow2_bits_high by lia]).
    - done.
    - rewrite !Z.shiftr_spec by lia. by rewrite Z.mod_pow2_bits_low by lia. }
  unfold color_bytes. by rewrite E1, E2.
Qed.

Lemma sends_color c :
  sends (fun h => TFT_SEND_DATA c (TFT_SEND_DATA (Z.shiftr c 8) h)) (color_bytes c).
Proof.
  change (color_bytes c) with (([] ++ [(true, u8 (Z.shiftr c 8))]) ++ [(true, u8 c)]).
  apply sends_then_data, sends_then_data, sends_id.
Qed.

Lemma iter_iter {A} m n (f : A -> A) a : Nat.iter m (Nat.iter n f) a = Nat.iter (m * n) f a.
Proof.
  induction m as [|m IH]; [done|]. cbn [Nat.mul]. rewrite Nat.iter_add.
  change (Nat.iter (S m) (Nat.iter n f) a) with (Nat.iter n f (Nat.iter m (Nat.iter n f) a)).
  by rewrite IH.
Qed.

Lemma flat_map_replicate n c :
  flat_map color_bytes (replicate n c) = concat (replicate n (color_bytes c)).
Proof. induction n as [|n IH]; [done|]. cbn [replicate flat_map concat]. by rewrite IH. Qed.

Lemma paints_full c :
  paints (TFT_full c)
    (imap (fun i c => (pixel_at 35 0 204 319 (Z.of_nat i), c)) (replicate (320 * 170) (u16 c))).
Proof.
  pose proof (paints_window 0 0 (TFT_COLUMN_NUMBER - 1) (TFT_LINE_NUMBER - 1)
    (Nat.iter (320 * 170) (fun h => TFT_SEND_DATA c (TFT_SEND_DATA (Z.shiftr c 8) h)))
    (replicate (320 * 170) (u16 c))) as H.
  intros h Hi. unfold TFT_full, repeat_loop.
  change (Z.to_nat TFT_LINE_NUMBER) with 320%nat. change (Z.to_nat TFT_COLUMN_NUMBER) with 170%nat.
  rewrite iter_iter. apply H; [|rewrite flat_map_replicate, color_bytes_u16|done].
  - apply Forall_replicate, u16_range.
  - apply sends_iter, sends_color.
Qed.

(** *** Glyphs *)

Definition glyph_colors (color : Z) (g : list Z) : list Z :=
  (fun b : bool => if b then u16 color else 0xffff) <$> flat_map bits_lsb g.

Lemma sends_column color temp :
  sends (display_column color temp) (flat_map color_bytes (glyph_colors color [temp])).
Proof.
  unfold glyph_colors. cbn [flat_map]. rewrite app_nil_r.
  unfold display_column, repeat_loop. change (Z.to_nat 8) with 8%nat.
  set (f := fun _ : Z * history => _).
  set (put := fun (b : bool) (h : history) =>
    if b then TFT_SEND_DATA color (TFT_SEND_DATA (Z.shiftr color 8) h)
    else TFT_SEND_DATA 0xFF (TFT_SEND_DATA 0xFF h)).
  assert (forall b : bool, sends (put b) (color_bytes (if b then u16 color else 0xffff))) as Hput.
  { intros []; [rewrite color_bytes_u16; apply sends_color|].
    change (color_bytes 65535) with (([] ++ [(true, u8 255)]) ++ [(true, u8 255)]).
    apply sends_then_data, sends_then_data, sends_id. }
  assert (forall t h, f (t, h) = (Z.shiftr t 1, put (Z.testbit t 0) h)) as Hf.
  { intros t h. subst f put. cbn beta iota zeta. rewrite (Z.land_comm t).
    change (Z.land 1 t) with (Z.land (2 ^ 0) t). rewrite land_bit, negb_involutive by lia. done. }
  clearbody f put. intros h Hi. unfold Nat.iter. cbn [nat_rect]. rewrite !Hf. cbn [snd].
  unfold bits_lsb. cbn [seq fmap list_fmap flat_map].
  repeat rewrite Z.shiftr_shiftr by lia. rewrite !Z.shiftr_spec by lia.
  cbn [Z.add Pos.add Pos.succ Z.of_nat Pos.of_succ_nat]. rewrite app_nil_r.
  rewrite !app_assoc.
  exact (sends_comp _ _ _ _ (sends_comp _ _ _ _ (sends_comp _ _ _ _ (sends_comp _ _ _ _
    (sends_comp _ _ _ _ (sends_comp _ _ _ _ (sends_comp _ _ _ _ (Hput _) (Hput _)) (Hput _))
    (Hput _)) (Hput _)) (Hput _)) (Hput _)) (Hput _) h Hi).
Qed.

Lemma sends_columns color bs :
  sends (fun h => foldl (fun h b => display_column color b h) h bs)
    (flat_map color_bytes (glyph_colors color bs)).
Proof.
  induction bs as [|b bs IH]; [apply sends_id|].
  change (flat_map color_bytes (glyph_colors color (b :: bs))) with
    (flat_map color_bytes ((fun b : bool => if b then u16 color else 0xffff) <$>
       (bits_lsb b ++ flat_map bits_lsb bs))).
  rewrite fmap_app, flat_map_app. pose proof (sends_column color b) as Hb.
  unfold glyph_colors in Hb. cbn [flat_map] in Hb. rewrite app_nil_r in Hb.
  exact (sends_comp _ _ _ _ Hb IH).
Qed.

Lemma display_columns_foldl font w g color n xxx h :
  aget font w = Ok g -> 0 <= xxx -> (Z.to_nat xxx + n <= length g)%nat -> (length g <= 255)%nat ->
  display_columns font w color n xxx h =
    Ok (foldl (fun h b => display_column color b h) h (take n (drop (Z.to_nat xxx) g))).
Proof.
  intros Hg. revert xxx h. induction n as [|n IH]; intros xxx h Hx Hn Hl; [done|].
  cbn [display_columns]. rewrite Hg. cbn [mbind result_bind].
  destruct (lookup_lt_is_Some_2 g (Z.to_nat xxx)) as [b Hb]; [lia|].
  rewrite (aget_Ok g xxx b) by done. cbn [mbind result_bind].
  rewrite u8_small by lia. rewrite IH by lia.
  rewrite (drop_S _ _ _ Hb). cbn [take foldl].
  by replace (Z.to_nat (xxx + 1)) with (S (Z.to_nat xxx)) by lia.
Qed.

Lemma flat_map_bits_lookup g q r b :
  (r < 8)%nat -> g !! q = Some b ->
  flat_map bits_lsb g !! (8 * q + r)%nat = Some (Z.testbit b (Z.of_nat r)).
Proof.
  intros Hr. revert q. induction g as [|c g IH]; intros q Hq; [done|]. cbn [flat_map].
  destruct q as [|q]; cbn [lookup list_lookup] in Hq.
  - injection Hq as ->. rewrite lookup_app_l by (cbn; lia).
    do 8 (destruct r as [|r]; [done|]). lia.
  - rewrite lookup_app_r by (change (length (bits_lsb c)) with 8%nat; lia).
    change (length (bits_lsb c)) with 8%nat.
    replace (8 * S q + r - 8)%nat with (8 * q + r)%nat by lia. by apply IH.
Qed.

Lemma length_glyph_colors color g : length (glyph_colors color g) = (8 * length g)%nat.
Proof.
  unfold glyph_colors. rewrite length_fmap. induction g as [|b g IH]; [done|].
  cbn [flat_map length]. rewrite length_app, IH. change (length (bits_lsb b)) with 8%nat. lia.
Qed.

(** The colour of pixel ([dx], [dy]) of a bitmap. *)
Definition glyph_color (color : Z) (g : list Z) (dx dy : Z) : option Z :=
  match g !! Z.to_nat (2 * dy + dx / 8) with
  | Some b => Some (if Z.testbit b (dx mod 8) then u16 color else 0xffff)
  | None => None
  end.

Lemma glyph_colors_at color g dx dy :
  length g = 32%nat -> 0 <= dx < 16 -> 0 <= dy < 16 ->
  glyph_colors color g !! Z.to_nat (dy * 16 + dx) = glyph_color color g dx dy.
Proof.
  intros Hg Hx Hy. unfold glyph_color, glyph_colors. rewrite list_lookup_fmap.
  destruct (lookup_lt_is_Some_2 g (Z.to_nat (2 * dy + dx / 8))) as [b Hb]; [zmod|].
  rewrite Hb.
  replace (Z.to_nat (dy * 16 + dx)) with
    (8 * Z.to_nat (2 * dy + dx / 8) + Z.to_nat (dx mod 8))%nat by zmod.
  rewrite (flat_map_bits_lookup _ _ _ b) by (done || zmod). cbn.
  by rewrite Z2Nat.id by zmod.
Qed.

Lemma glyph_spec font x y color w g h :
  idle h -> aget font w = Ok g -> length g = 32%nat ->
  0 <= x < 65536 - 50 -> 0 <= y < 65536 - 15 ->
  exists h', display_columns font w color 32 0 (TFT_SET_ADD x y (x + 15) (y + 15) h) = Ok h' /\
    idle h' /\
    forall px py, screen h' px py =
      if decide (x <= px < x + 16 /\ y <= py < y + 16)
      then glyph_color color g (px - x) (py - y) else screen h px py.
Proof.
  intros Hi Hg Hl Hx Hy.
  rewrite (display_columns_foldl _ _ g) by (done || (rewrite ?Hl; cbn; lia)).
  change (drop (Z.to_nat 0) g) with g. rewrite take_ge by lia. eexists. split; [reflexivity|].
  destruct (paints_window x y (x + 15) (y + 15) _ (glyph_colors color g)
    ltac:(apply Forall_fmap, Forall_true; intros [|]; cbn; [apply u16_range|lia])
    (sends_columns color g) h Hi) as [Hi' E].
  split; [exact Hi'|]. intros px py. unfold screen. rewrite E. clear E Hi'.
  rewrite (u16_small x), (u16_small (x + 15)), (u16_small y), (u16_small (y + 15)) by lia.
  rewrite !u16_small by lia. rewrite color_at_app.
  rewrite window_color; [|lia|lia|rewrite length_glyph_colors, Hl; lia].
  destruct (decide (x <= px < x + 16 /\ y <= py < y + 16)) as [Hin|Hout].
  - rewrite decide_True by lia. replace (x + 15 + 35 - (x + 35) + 1) with 16 by lia.
    replace (px + 35 - (x + 35)) with (px - x) by lia.
    rewrite glyph_colors_at by (done || lia).
    destruct (glyph_color color g (px - x) (py - y)) eqn:Eg; [done|].
    unfold glyph_color in Eg. destruct (g !! _) eqn:El; [done|].
    apply lookup_ge_None in El. zmod.
  - rewrite decide_False by lia. done.
Qed.

(** ** Properties: fills and text *)

(** [TFT_full] gives every one of the 170 x 320 pixels of the visible
    screen the colour (its low 16 bits), through whatever levels the pins had
    before, and paints nothing outside the screen. *)
Lemma TFT_full_fills (color : Z) (h : history) :
  idle h ->
  idle (TFT_full color h) /\
  forall x y, screen (TFT_full color h) x y =
    if decide (0 <= x < 170 /\ 0 <= y < 320) then Some (u16 color) else screen h x y.
Proof.
  intros Hi. destruct (paints_full color h Hi) as [Hi' E]. split; [exact Hi'|].
  intros x y. unfold screen. rewrite E. clear E Hi'. rewrite color_at_app.
  rewrite window_color by (rewrite ?length_replicate; lia).
  destruct (decide (0 <= x < 170 /\ 0 <= y < 320)) as [Hin|Hout].
  - rewrite decide_True by lia. rewrite lookup_replicate_2 by lia. done.
  - rewrite decide_False by lia. done.
Qed.

Lemma TFT_full_fills_witness :
  idle (TFT_full WHITE []) /\
  forall x y, screen (TFT_full WHITE []) x y =
    if decide (0 <= x < 170 /\ 0 <= y < 320) then Some (u16 WHITE) else screen [] x y.
Proof. apply (TFT_full_fills WHITE []). reflexivity. Defined.

(** C9: [display_ascii_16_16] draws a printable character: each of the 256
    pixels of its cell gets the colour where the bitmap of font.h has a bit and
    white elsewhere (two bytes a row, least significant bit leftmost), and
    nothing else changes; the font has a bitmap for each of the 95 characters. *)
Theorem display_ascii_draws (x y color c : Z) (h : history) :
  idle h -> 32 <= c < 127 -> 0 <= x < 65536 - 50 -> 0 <= y < 65536 - 15 ->
  exists g h', aget ascii_8X16 (c - 32) = Ok g /\
    display_ascii_16_16 x y color (c - 32) h = Ok h' /\ idle h' /\
    forall px py, screen h' px py =
      if decide (x <= px < x + 16 /\ y <= py < y + 16)
      then glyph_color color g (px - x) (py - y) else screen h px py.
Proof.
  intros Hi Hc Hx Hy.
  destruct (font_glyph 95 ascii_8X16 (c - 32) ascii_font_ok) as (g & Hg & Hl); [lia|].
  unfold display_ascii_16_16. rewrite (u8_small (c - 32)) by lia.
  destruct (glyph_spec ascii_8X16 x y color (c - 32) g h Hi Hg Hl Hx Hy) as (h' & E & Hi' & Hs).
  by exists g, h'.
Qed.

Lemma display_ascii_draws_witness :
  exists g h', aget ascii_8X16 (65 - 32) = Ok g /\
    display_ascii_16_16 20 40 0x07e0 (65 - 32) [] = Ok h' /\ idle h' /\
    forall px py, screen h' px py =
      if decide (20 <= px < 20 + 16 /\ 40 <= py < 40 + 16)
      then glyph_color 0x07e0 g (px - 20) (py - 40) else screen [] px py.
Proof. apply (display_ascii_draws 20 40 0x07e0 65 []); [reflexivity|lia..]. Defined.

(** [display_string] ignores its colour: it always draws black. *)
Lemma display_string_black x y color color' data h :
  display_string x y color data h = display_string x y color' data h.
Proof.
  revert x h. induction data as [|c data IH]; intros x h; [done|]. cbn [display_string].
  destruct (display_ascii_16_16 x y BLACK (c - 32) h) as [h'|f]; [|done]. cbn. apply IH.
Qed.

(** ** Lines *)

(** [i] steps along the longer side [n] of a line make this many along its
    side [d]: [i * d / n] rounded to the nearest integer. *)
Definition steps (i d n : Z) : Z := (2 * i * d + n) / (2 * n).

Lemma steps_0 d n : 0 <= n -> steps 0 d n = 0.
Proof.
  intros Hn. unfold steps. destruct (decide (n = 0)) as [->|]; [done|]. apply Z.div_small. lia.
Qed.
Lemma steps_end d n : 0 <= d <= n -> steps n d n = d.
Proof.
  intros Hd. unfold steps. destruct (decide (n = 0)) as [->|].
  { by replace d with 0 by lia. }
  replace (2 * n * d + n) with (n + d * (2 * n)) by lia. rewrite Z.div_add by lia.
  rewrite Z.div_small by lia. lia.
Qed.
Lemma steps_same i n : 0 < n -> steps i n n = i.
Proof.
  intros Hn. unfold steps. replace (2 * i * n + n) with (n + i * (2 * n)) by lia.
  rewrite Z.div_add by lia. rewrite Z.div_small by lia. lia.
Qed.
Lemma steps_none i n : 0 <= n -> steps i 0 n = 0.
Proof.
  intros Hn. unfold steps. destruct (decide (n = 0)) as [->|].
  { by rewrite Z.mul_0_r. }
  apply Z.div_small. lia.
Qed.
Lemma steps_round i d n : 0 < n -> - n <= 2 * (i * d - n * steps i d n) < n.
Proof.
  intros Hn. unfold steps. pose proof (Z.div_mod (2 * i * d + n) (2 * n) ltac:(lia)).
  pose proof (Z.mod_pos_bound (2 * i * d + n) (2 * n) ltac:(lia)).
  set (q := (2 * i * d + n) / (2 * n)) in *. lia.
Qed.

(** The decision variable of the loops tells when the shorter side steps. *)
Lemma steps_next i d n :
  0 < n -> 0 <= d <= n ->
  let e := 2 * d * (i + 1) - n - 2 * n * steps i d n in
  steps (i + 1) d n = (if 0 <=? e then steps i d n + 1 else steps i d n) /\
  - 2 * n <= e <= 2 * n.
Proof.
  intros Hn Hd e. unfold steps in *. set (q := (2 * i * d + n) / (2 * n)) in *.
  pose proof (Z.div_mod (2 * i * d + n) (2 * n) ltac:(lia)) as H1.
  pose proof (Z.mod_pos_bound (2 * i * d + n) (2 * n) ltac:(lia)) as H2.
  fold q in H1. split; [|subst e; lia].
  destruct (0 <=? e) eqn:E; symmetry; apply Z.div_unique_pos with (2 * (i + 1) * d + n - 2 * n * (if 0 <=? e then q + 1 else q));
    rewrite E; subst e; lia.
Qed.

Lemma steps_bounds i d n : 0 <= i <= n -> 0 <= d <= n -> 0 <= steps i d n <= d.
Proof.
  intros Hi Hd. destruct (decide (n = 0)) as [->|Hn].
  { assert (i = 0 /\ d = 0) as [-> ->] by lia. rewrite steps_0 by lia. lia. }
  unfold steps. split; [apply Z.div_pos; nia|].
  assert ((2 * i * d + n) / (2 * n) < d + 1); [|lia]. apply Z.div_lt_upper_bound; nia.
Qed.

(** The [i]-th point of the line. *)
Definition line_point (x0 y0 x1 y1 i : Z) : Z * Z :=
  let n := Z.max (Z.abs (x1 - x0)) (Z.abs (y1 - y0)) in
  (x0 + Z.sgn (x1 - x0) * steps i (Z.abs (x1 - x0)) n,
   y0 + Z.sgn (y1 - y0) * steps i (Z.abs (y1 - y0)) n).

Definition line_pixel (x0 y0 x1 y1 c i : Z) : (Z * Z) * Z :=
  let '(x, y) := line_point x0 y0 x1 y1 i in ((u16 (x + 35), y), u16 c).

(** The pixels of [m] steps. *)
Definition line_pixels (x0 y0 x1 y1 c : Z) (m : nat) : list ((Z * Z) * Z) :=
  (fun i => line_pixel x0 y0 x1 y1 c (Z.of_nat i)) <$> seq 0 m.

Lemma line_pixels_S x0 y0 x1 y1 c m :
  rev (line_pixels x0 y0 x1 y1 c (S m)) =
    line_pixel x0 y0 x1 y1 c (Z.of_nat m) :: rev (line_pixels x0 y0 x1 y1 c m).
Proof. unfold line_pixels. rewrite seq_S, fmap_app, rev_app_distr. done. Qed.

Section Line.
Context (x0 y0 x1 y1 c : Z) (h : history).
Context (Hx0 : 0 <= x0 < 65536) (Hy0 : 0 <= y0 < 65536) (Hx1 : 0 <= x1 < 65536)
  (Hy1 : 0 <= y1 < 65536) (Hidle : idle h).

Let dx := Z.abs (x1 - x0).
Let dy := Z.abs (y1 - y0).
Let n := Z.max dx dy.

(** What the loops have done after [m] iterations. *)
Definition line_inv (sx sy : Z) (lerr0 m : Z) (s : line) : Prop :=
  lx s = x0 + sx * steps m dx n /\ ly s = y0 + sy * steps m dy n /\ lerr s = lerr0 /\
  idle (lh s) /\ painted (lh s) = rev (line_pixels x0 y0 x1 y1 c (Z.to_nat m)) ++ painted h.

Lemma line_in_range sx sy m :
  (sx = Z.sgn (x1 - x0) \/ dx = 0) -> (sy = Z.sgn (y1 - y0) \/ dy = 0) -> 0 <= m <= n ->
  x0 + sx * steps m dx n = fst (line_point x0 y0 x1 y1 m) /\
  y0 + sy * steps m dy n = snd (line_point x0 y0 x1 y1 m) /\
  0 <= x0 + sx * steps m dx n < 65536 /\ 0 <= y0 + sy * steps m dy n < 65536.
Proof.
  intros Hsx Hsy Hm. unfold line_point. cbn [fst snd]. fold dx dy. fold n.
  pose proof (steps_bounds m dx n Hm ltac:(lia)) as Bx.
  pose proof (steps_bounds m dy n Hm ltac:(lia)) as By.
  assert (sx * steps m dx n = Z.sgn (x1 - x0) * steps m dx n) as ->.
  { destruct Hsx as [->|E]; [done|]. rewrite E, steps_none by lia. lia. }
  assert (sy * steps m dy n = Z.sgn (y1 - y0) * steps m dy n) as ->.
  { destruct Hsy as [->|E]; [done|]. rewrite E, steps_none by lia. lia. }
  split; [done|]. split; [done|]. subst dx dy. clear -Bx By Hx0 Hx1 Hy0 Hy1.
  destruct (Z.sgn_spec (x1 - x0)) as [[? ->]|[[? ->]|[? ->]]];
    destruct (Z.sgn_spec (y1 - y0)) as [[? ->]|[[? ->]|[? ->]]]; lia.
Qed.

(** The drawing at the start of an iteration. *)
Lemma line_draw sx sy m e s :
  (sx = Z.sgn (x1 - x0) \/ dx = 0) -> (sy = Z.sgn (y1 - y0) \/ dy = 0) -> 0 <= m <= n ->
  line_inv sx sy e m s ->
  idle (Gui_DrawPoint (lx s) (ly s) c (lh s)) /\
  painted (Gui_DrawPoint (lx s) (ly s) c (lh s)) =
    rev (line_pixels x0 y0 x1 y1 c (Z.to_nat (m + 1))) ++ painted h.
Proof.
  intros Hsx Hsy Hm (E1 & E2 & _ & Hi & Hp).
  destruct (line_in_range sx sy m Hsx Hsy Hm) as (F1 & F2 & R1 & R2).
  destruct (paints_point (lx s) (ly s) c (lh s) Hi) as [Hi' E]. split; [done|].
  rewrite E, Hp. replace (Z.to_nat (m + 1)) with (S (Z.to_nat m)) by lia.
  rewrite line_pixels_S. cbn [rev app]. f_equal. unfold line_pixel.
  rewrite Z2Nat.id by lia. rewrite E1, E2 in *.
  destruct (line_point x0 y0 x1 y1 m) as [a b]. cbn in F1, F2. rewrite F1, F2 in *.
  by rewrite (u16_small a), (u16_small b) by lia.
Qed.

Let sx := if 0 <=? x1 - x0 then 1 else -1.
Let sy := if 0 <=? y1 - y0 then 1 else -1.

Lemma sx_sgn : sx = Z.sgn (x1 - x0) \/ dx = 0.
Proof.
  subst sx dx. destruct (Z.sgn_spec (x1 - x0)) as [[? ->]|[[? ->]|[? ->]]]; zbool; lia.
Qed.
Lemma sy_sgn : sy = Z.sgn (y1 - y0) \/ dy = 0.
Proof.
  subst sy dy. destruct (Z.sgn_spec (y1 - y0)) as [[? ->]|[[? ->]|[? ->]]]; zbool; lia.
Qed.

Lemma line_inv_0 e h' : idle h' -> painted h' = painted h ->
  line_inv sx sy e 0 (mk_line x0 y0 e h').
Proof.
  intros Hi E. split_and!; cbn [lx ly lerr lh]; try done.
  - rewrite steps_0 by lia. lia.
  - rewrite steps_0 by lia. lia.
Qed.

(** One iteration of the loop over x, then over y. *)
Lemma line_x_step m s :
  dy < dx -> 0 <= m < n ->
  line_inv sx sy (2 * dy * (m + 1) - dx - 2 * dx * steps m dy n) m s ->
  line_inv sx sy (2 * dy * (m + 2) - dx - 2 * dx * steps (m + 1) dy n) (m + 1)
    (line_x (2 * dx) (2 * dy) sx sy c s).
Proof.
  intros Hlt Hm Hinv. pose proof (line_draw sx sy m _ s sx_sgn sy_sgn ltac:(lia) Hinv) as [Hi Hp].
  destruct (line_in_range sx sy (m + 1) sx_sgn sy_sgn ltac:(lia)) as (_ & _ & R1 & R2).
  destruct Hinv as (E1 & E2 & E3 & _). assert (n = dx) as En by lia.
  destruct (steps_next m dy n ltac:(lia) ltac:(lia)) as [Hk _]. cbn zeta in Hk.
  rewrite En in Hk, R1, R2, E1, E2, E3 |- *. rewrite steps_same in R1, E1 by lia.
  destruct s as [x y e hh]. cbn [lx ly lerr lh] in *. unfold line_x.
  rewrite <- E3 in Hk. rewrite Hk in R2 |- *.
  destruct (0 <=? e) eqn:Ee; unfold line_inv; cbn [lx ly lerr lh]; rewrite En, ?steps_same, Hk by lia;
    (split_and!; [rewrite u16_small; lia| |lia|done|done]); [rewrite u16_small; lia|lia].
Qed.

Lemma line_y_step m s :
  dx <= dy -> 0 <= m < n ->
  line_inv sx sy (2 * dx * (m + 1) - dy - 2 * dy * steps m dx n) m s ->
  line_inv sx sy (2 * dx * (m + 2) - dy - 2 * dy * steps (m + 1) dx n) (m + 1)
    (line_y (2 * dx) (2 * dy) sx sy c s).
Proof.
  intros Hlt Hm Hinv. pose proof (line_draw sx sy m _ s sx_sgn sy_sgn ltac:(lia) Hinv) as [Hi Hp].
  destruct (line_in_range sx sy (m + 1) sx_sgn sy_sgn ltac:(lia)) as (_ & _ & R1 & R2).
  destruct Hinv as (E1 & E2 & E3 & _). assert (n = dy) as En by lia.
  destruct (steps_next m dx n ltac:(lia) ltac:(lia)) as [Hk _]. cbn zeta in Hk.
  rewrite En in Hk, R1, R2, E1, E2, E3 |- *. rewrite steps_same in R2, E2 by lia.
  destruct s as [x y e hh]. cbn [lx ly lerr lh] in *. unfold line_y.
  rewrite <- E3 in Hk. rewrite Hk in R1 |- *.
  destruct (0 <=? e) eqn:Ee; unfold line_inv; cbn [lx ly lerr lh]; rewrite En, ?steps_same, Hk by lia;
    (split_and!; [|rewrite u16_small; lia|lia|done|done]); [rewrite u16_small; lia|lia].
Qed.

(** A loop whose body keeps an invariant up to its last drawing. *)
Lemma line_loop (body : line -> line) (e : Z -> Z) s0 :
  (forall m s, 0 <= m < n -> line_inv sx sy (e m) m s -> line_inv sx sy (e (m + 1)) (m + 1) (body s)) ->
  (forall s, lh (body s) = Gui_DrawPoint (lx s) (ly s) c (lh s)) ->
  line_inv sx sy (e 0) 0 s0 ->
  let h' := lh (repeat_loop (n + 1) body s0) in
  idle h' /\ painted h' = rev (line_pixels x0 y0 x1 y1 c (Z.to_nat (n + 1))) ++ painted h.
Proof.
  intros Hstep Hdraw H0. unfold repeat_loop.
  assert (forall j, (Z.of_nat j <= n) -> line_inv sx sy (e (Z.of_nat j)) (Z.of_nat j) (Nat.iter j body s0))
    as Hj.
  { induction j as [|j IH]; intros Hle; [done|].
    change (Nat.iter (S j) body s0) with (body (Nat.iter j body s0)).
    replace (Z.of_nat (S j)) with (Z.of_nat j + 1) by lia. apply Hstep; [lia|]. apply IH. lia. }
  cbn zeta. replace (Nat.iter (Z.to_nat (n + 1)) body s0) with (Nat.iter (S (Z.to_nat n)) body s0)
    by (f_equal; lia).
  change (Nat.iter (S (Z.to_nat n)) body s0) with (body (Nat.iter (Z.to_nat n) body s0)).
  specialize (Hj (Z.to_nat n) ltac:(lia)). rewrite Z2Nat.id in Hj by lia. rewrite Hdraw.
  exact (line_draw sx sy n _ _ sx_sgn sy_sgn ltac:(lia) Hj).
Qed.

Lemma Gui_DrawLine_spec :
  idle (Gui_DrawLine x0 y0 x1 y1 c h) /\
  painted (Gui_DrawLine x0 y0 x1 y1 c h) =
    rev (line_pixels x0 y0 x1 y1 c (Z.to_nat (n + 1))) ++ painted h.
Proof.
  unfold Gui_DrawLine. rewrite (u16_small x0), (u16_small y0), (u16_small x1), (u16_small y1) by lia.
  destruct (set_add_spec x0 y0 x0 y0 h Hidle) as (Hi & Hp & _).
  set (h1 := TFT_SET_ADD x0 y0 x0 y0 h) in *. clearbody h1.
  replace (if 0 <=? x1 - x0 then (1, x1 - x0) else (-1, - (x1 - x0))) with (sx, dx)
    by (subst sx dx; zbool; f_equal; lia).
  replace (if 0 <=? y1 - y0 then (1, y1 - y0) else (-1, - (y1 - y0))) with (sy, dy)
    by (subst sy dy; zbool; f_equal; lia).
  rewrite !Z.shiftl_mul_pow2 by lia. change (2 ^ 1) with 2. rewrite !(Z.mul_comm _ 2).
  destruct (dy <? dx) eqn:Elt.
  - replace (dx + 1) with (n + 1) by lia.
    apply (line_loop _ (fun m => 2 * dy * (m + 1) - dx - 2 * dx * steps m dy n)).
    + intros m s Hm Hinv. replace (m + 1 + 1) with (m + 2) by lia. apply line_x_step; [lia|done|done].
    + intros [x y e hh]. unfold line_x. by destruct (0 <=? e).
    + rewrite steps_0 by lia. replace (2 * dy * (0 + 1) - dx - 2 * dx * 0) with (2 * dy - dx) by lia.
      by apply line_inv_0.
  - replace (dy + 1) with (n + 1) by lia.
    apply (line_loop _ (fun m => 2 * dx * (m + 1) - dy - 2 * dy * steps m dx n)).
    + intros m s Hm Hinv. replace (m + 1 + 1) with (m + 2) by lia. apply line_y_step; [lia|done|done].
    + intros [x y e hh]. unfold line_y. by destruct (0 <=? e).
    + rewrite steps_0 by lia. replace (2 * dx * (0 + 1) - dy - 2 * dy * 0) with (2 * dx - dy) by lia.
      by apply line_inv_0.
Qed.

End Line.

(** C10: [Gui_DrawLine] paints exactly the pixels of the line, in order: as
    many steps as the longer side has, from the one end point to the other, the
    [i]-th with the coordinate of the shorter side rounded to the nearest pixel
    of the ideal line. *)
Theorem Gui_DrawLine_draws (x0 y0 x1 y1 c : Z) (h : history) :
  0 <= x0 < 65536 -> 0 <= y0 < 65536 -> 0 <= x1 < 65536 -> 0 <= y1 < 65536 -> idle h ->
  let n := Z.max (Z.abs (x1 - x0)) (Z.abs (y1 - y0)) in
  painted (Gui_DrawLine x0 y0 x1 y1 c h) =
    rev (line_pixels x0 y0 x1 y1 c (Z.to_nat (n + 1))) ++ painted h /\
  line_point x0 y0 x1 y1 0 = (x0, y0) /\ line_point x0 y0 x1 y1 n = (x1, y1) /\
  forall i, 0 < n ->
    let '(x, y) := line_point x0 y0 x1 y1 i in
    2 * Z.abs (n * (x - x0) - i * (x1 - x0)) <= n /\ 2 * Z.abs (n * (y - y0) - i * (y1 - y0)) <= n.
Proof.
  intros Hx0 Hy0 Hx1 Hy1 Hi n.
  destruct (Gui_DrawLine_spec x0 y0 x1 y1 c h Hx0 Hy0 Hx1 Hy1 Hi) as [_ E]. split; [exact E|].
  unfold line_point. fold n. split; [|split].
  - rewrite !steps_0 by lia. f_equal; lia.
  - rewrite !steps_end by lia. f_equal; lia.
  - intros i Hn. pose proof (steps_round i (Z.abs (x1 - x0)) n Hn) as Rx.
    pose proof (steps_round i (Z.abs (y1 - y0)) n Hn) as Ry.
    assert (forall a z s, - n <= 2 * (i * Z.abs (a - z) - n * s) < n ->
      2 * Z.abs (n * (z + Z.sgn (a - z) * s - z) - i * (a - z)) <= n) as H.
    { clear. intros a z s.
      destruct (Z.sgn_spec (a - z)) as [[? ->]|[[? ->]|[? ->]]]; intros Hs.
      - rewrite Z.abs_eq in Hs by lia. lia.
      - assert (a - z = 0) as E by lia. rewrite E in *. lia.
      - rewrite Z.abs_neq in Hs by lia. lia. }
    split; apply H; done.
Qed.

Lemma Gui_DrawLine_draws_witness :
  let n := Z.max (Z.abs (10 - 3)) (Z.abs (40 - 52)) in
  painted (Gui_DrawLine 3 52 10 40 0xf800 []) =
    rev (line_pixels 3 52 10 40 0xf800 (Z.to_nat (n + 1))) ++ painted [] /\
  line_point 3 52 10 40 0 = (3, 52) /\ line_point 3 52 10 40 n = (10, 40) /\
  forall i, 0 < n ->
    let '(x, y) := line_point 3 52 10 40 i in
    2 * Z.abs (n * (x - 3) - i * (10 - 3)) <= n /\ 2 * Z.abs (n * (y - 52) - i * (40 - 52)) <= n.
Proof. apply (Gui_DrawLine_draws 3 52 10 40 0xf800 []); [lia..|reflexivity]. Defined.

(** ** Circles *)

(** A pixel of colour [fc] close to the circle of radius [R]. *)
Definition on_circle (X Y R fc : Z) (q : (Z * Z) * Z) : Prop :=
  let '((x, y), c) := q in
  let p := x - 35 - X in let r := y - Y in
  c = u16 fc /\ Z.abs (p * p + r * r - R * R) <= Z.max (Z.abs p) (Z.abs r).

Lemma paints_then_point f l x y c :
  0 <= x < 65536 - 35 -> 0 <= y < 65536 -> paints f l ->
  paints (fun h => Gui_DrawPoint x y c (f h)) (l ++ [((x + 35, y), u16 c)]).
Proof.
  intros Hx Hy Hf. apply paints_comp; [done|]. pose proof (paints_point x y c) as H.
  rewrite (u16_small x), (u16_small y), u16_small in H by lia. exact H.
Qed.

Section Circle.
Context (X Y R fc : Z) (h0 : history).
Context (HR : 0 <= R) (HX : R <= X) (HXR : X + R < 65536 - 35) (HY : R <= Y) (HYR : Y + R < 65536).

Lemma on_circle_point a b p q :
  0 <= a <= b -> Z.abs (a * a + b * b - R * R) <= b ->
  (Z.abs p = a /\ Z.abs q = b) \/ (Z.abs p = b /\ Z.abs q = a) ->
  on_circle X Y R fc ((X + p + 35, Y + q), u16 fc).
Proof.
  intros Hab Hd Hpq. unfold on_circle. split; [done|].
  replace (X + p + 35 - 35 - X) with p by lia. replace (Y + q - Y) with q by lia.
  rewrite <- (Z.abs_square p), <- (Z.abs_square q).
  destruct Hpq as [[-> ->]|[-> ->]]; lia.
Qed.

Lemma circle_points_spec a b c h :
  0 <= a <= b -> b <= R -> Z.abs (a * a + b * b - R * R) <= b -> idle h ->
  let h' := circle_points X Y fc (mk_circle a b c h) in
  idle h' /\ exists l, painted h' = l ++ painted h /\ Forall (on_circle X Y R fc) l /\
    ((X + a + 35, Y + b), u16 fc) ∈ l /\ ((X + a + 35, Y - b), u16 fc) ∈ l /\
    ((X + b + 35, Y + a), u16 fc) ∈ l /\ ((X - b + 35, Y + a), u16 fc) ∈ l.
Proof.
  intros Hab Hb Hd Hi. assert (exists l, paints (fun h => circle_points X Y fc (mk_circle a b c h)) l /\
    l = [((X + a + 35, Y + b), u16 fc); ((X - a + 35, Y + b), u16 fc);
         ((X + a + 35, Y - b), u16 fc); ((X - a + 35, Y - b), u16 fc);
         ((X + b + 35, Y + a), u16 fc); ((X - b + 35, Y + a), u16 fc);
         ((X + b + 35, Y - a), u16 fc); ((X - b + 35, Y - a), u16 fc)]) as (l & Hp & El).
  { eexists. split.
    - unfold circle_points. do 8 (apply paints_then_point; [lia|lia|]). apply paints_id.
    - reflexivity. }
  destruct (Hp h Hi) as [Hi' E]. split; [done|]. exists (rev l). split; [done|].
  assert (forall x, x ∈ l -> x ∈ rev l) as Hin.
  { intros x. rewrite !list_elem_of_In. apply in_rev. }
  split; [apply Forall_rev; rewrite El|].
  - repeat (apply Forall_cons; split; [rewrite <- ?Z.add_opp_r; apply (on_circle_point a b); lia|]).
    by constructor.
  - split_and!; apply Hin; rewrite El, !elem_of_cons; tauto.
Qed.

(** The loop: [c] decides between the two candidates of the next column, and
    the chosen one stays close. *)
Definition circle_inv (s : circle) : Prop :=
  let (a, b, c, h) := s in
  0 <= a <= b + 1 /\ 0 <= b <= R /\ c = 2 * ((a + 1) * (a + 1) + b * b - R * R) - 2 * b + 1 /\
  (a <= b -> Z.abs (a * a + b * b - R * R) <= b) /\ idle h /\
  exists l, painted h = l ++ painted h0 /\ Forall (on_circle X Y R fc) l /\
    (0 < a -> ((X + 35, Y + R), u16 fc) ∈ l /\ ((X + 35, Y - R), u16 fc) ∈ l /\
              ((X + R + 35, Y), u16 fc) ∈ l /\ ((X - R + 35, Y), u16 fc) ∈ l) /\
    (a = 0 -> b = R).

Lemma circle_body_inv s :
  circle_inv s -> ca s <? cb s = true ->
  exists s', circle_body X Y fc s = Ok s' /\ circle_inv s' /\
    (Z.to_nat (R + 1 - ca s') < Z.to_nat (R + 1 - ca s))%nat.
Proof.
  destruct s as [a b c h]. cbn [ca cb]. intros (Ha & Hb & Hc & Hd & Hi & l & Hp & Hl & Hcard & H0) Hlt.
  destruct (circle_points_spec a b c h) as (Hi' & l' & Hp' & Hl' & In1 & In2 & In3 & In4); [lia..|done|].
  unfold circle_body. set (h' := circle_points X Y fc _) in *. clearbody h'.
  assert (painted h' = (l' ++ l) ++ painted h0) as Hp2 by (by rewrite Hp', Hp, app_assoc).
  assert (Forall (on_circle X Y R fc) (l' ++ l)) as Hl2 by (by apply Forall_app).
  assert (((X + 35, Y + R), u16 fc) ∈ l' ++ l /\ ((X + 35, Y - R), u16 fc) ∈ l' ++ l /\
    ((X + R + 35, Y), u16 fc) ∈ l' ++ l /\ ((X - R + 35, Y), u16 fc) ∈ l' ++ l) as Hcard2.
  { rewrite !elem_of_app. destruct (decide (a = 0)) as [->|Hne].
    - rewrite H0 in * by done. rewrite !Z.add_0_r in *. tauto.
    - destruct Hcard as (? & ? & ? & ?); [lia|]. tauto. }
  specialize (Hd ltac:(lia)). destruct (c <? 0) eqn:Ec.
  - rewrite chk32_Ok by lia. cbn [mbind result_bind]. rewrite u16_small by lia.
    eexists. split; [reflexivity|]. cbn [ca]. split; [|lia].
    split_and!; try done; try lia. exists (l' ++ l). split_and!; done || lia.
  - rewrite chk32_Ok by lia. cbn [mbind result_bind]. rewrite !u16_small by lia.
    eexists. split; [reflexivity|]. cbn [ca]. split; [|lia].
    split_and!; try done; try lia. exists (l' ++ l). split_and!; done || lia.
Qed.

Lemma circle_last_spec a c h :
  0 <= a <= R -> Z.abs (a * a + a * a - R * R) <= a -> idle h ->
  let h' := circle_last X Y fc (mk_circle a a c h) in
  idle h' /\ exists l, painted h' = l ++ painted h /\ Forall (on_circle X Y R fc) l /\
    ((X + a + 35, Y + a), u16 fc) ∈ l.
Proof.
  intros Ha Hd Hi. assert (exists l, paints (fun h => circle_last X Y fc (mk_circle a a c h)) l /\
    l = [((X + a + 35, Y + a), u16 fc); ((X + a + 35, Y + a), u16 fc);
         ((X + a + 35, Y - a), u16 fc); ((X - a + 35, Y - a), u16 fc);
         ((X + a + 35, Y + a), u16 fc); ((X - a + 35, Y + a), u16 fc);
         ((X + a + 35, Y - a), u16 fc); ((X - a + 35, Y - a), u16 fc)]) as (l & Hp & El).
  { eexists. split.
    - unfold circle_last. do 8 (apply paints_then_point; [lia|lia|]). apply paints_id.
    - reflexivity. }
  destruct (Hp h Hi) as [Hi' E]. split; [done|]. exists (rev l). split; [done|].
  split; [apply Forall_rev; rewrite El|].
  - repeat (apply Forall_cons; split; [rewrite <- ?Z.add_opp_r; apply (on_circle_point a a); lia|]).
    by constructor.
  - rewrite list_elem_of_In, <- in_rev, <- list_elem_of_In, El. by apply elem_of_cons; left.
Qed.

Lemma Gui_Circle_spec :
  idle h0 ->
  exists h l, Gui_Circle X Y R fc h0 = Ok h /\ idle h /\ painted h = l ++ painted h0 /\
    Forall (on_circle X Y R fc) l /\
    ((X + 35, Y + R), u16 fc) ∈ l /\ ((X + 35, Y - R), u16 fc) ∈ l /\
    ((X + R + 35, Y), u16 fc) ∈ l /\ ((X - R + 35, Y), u16 fc) ∈ l.
Proof.
  intros Hidle. unfold Gui_Circle.
  destruct (while_loop_inv circle_inv (fun s => Z.to_nat (R + 1 - ca s)) (S (S (Z.to_nat R)))
    (fun s => ca s <? cb s) (circle_body X Y fc) (mk_circle 0 R (3 - 2 * R) h0)) as (s & -> & Hs & Hend).
  - intros s. apply circle_body_inv.
  - split_and!; try done; try lia. exists []. split_and!; try done; lia.
  - cbn [ca]. lia.
  - destruct s as [a b c h]. cbn [ca cb ch mbind result_bind] in *.
    destruct Hs as (Ha & Hb & Hc & Hd & Hi & l & Hp & Hl & Hcard & H0).
    destruct (a =? b) eqn:Eab.
    + assert (a = b) as -> by lia. specialize (Hd ltac:(lia)).
      destruct (circle_last_spec b c h) as (Hi' & l' & Hp' & Hl' & Hin); [lia|done|done|].
      eexists _, (l' ++ l). split; [reflexivity|]. split; [done|].
      rewrite Hp', Hp, app_assoc, Forall_app, !elem_of_app. split; [done|]. split; [done|].
      destruct (decide (b = 0)) as [->|Hne].
      * rewrite <- H0, !Z.add_0_r, !Z.sub_0_r in * by done. tauto.
      * destruct Hcard as (? & ? & ? & ?); [lia|]. tauto.
    + eexists _, l. split; [reflexivity|]. split_and!; try done; apply Hcard; lia.
Qed.

End Circle.

(** C11: [Gui_Circle] ends and paints only pixels next to the ideal circle:
    for a pixel at offset (p, r) from the centre, p^2 + r^2 differs from R^2 by
    at most max(|p|, |r|), which is less than a pixel of distance; the four
    extreme points are painted, and the decision variable never overflows. *)
Theorem Gui_Circle_draws (X Y R fc : Z) (h0 : history) :
  0 <= R -> R <= X -> X + R < 65536 - 35 -> R <= Y -> Y + R < 65536 -> idle h0 ->
  exists h l, Gui_Circle X Y R fc h0 = Ok h /\ painted h = l ++ painted h0 /\
    Forall (on_circle X Y R fc) l /\
    ((X + 35, Y + R), u16 fc) ∈ l /\ ((X + 35, Y - R), u16 fc) ∈ l /\
    ((X + R + 35, Y), u16 fc) ∈ l /\ ((X - R + 35, Y), u16 fc) ∈ l.
Proof.
  intros HR HX HXR HY HYR Hi.
  destruct (Gui_Circle_spec X Y R fc h0 HR HX HXR HY HYR Hi) as (h & l & E & _ & H).
  exists h, l. exact (conj E H).
Qed.

Lemma Gui_Circle_draws_witness :
  exists h l, Gui_Circle 85 160 30 0xf800 [] = Ok h /\ painted h = l ++ painted [] /\
    Forall (on_circle 85 160 30 0xf800) l /\
    ((85 + 35, 160 + 30), u16 0xf800) ∈ l /\ ((85 + 35, 160 - 30), u16 0xf800) ∈ l /\
    ((85 + 30 + 35, 160), u16 0xf800) ∈ l /\ ((85 - 30 + 35, 160), u16 0xf800) ∈ l.
Proof. apply (Gui_Circle_draws 85 160 30 0xf800 []); [lia..|reflexivity]. Defined.

(** ** The start of the panel *)

(** The commands [TFT_init] sends after the reset, with their parameters; it
    ends with "display on", and paints nothing. *)
Fixpoint commands (rx : list (bool * Z)) : list (Z * list Z) :=
  match rx with
  | [] => []
  | (false, c) :: rx => (c, []) :: commands rx
  | (true, d) :: rx =>
      match commands rx with
      | (c, ds) :: cs => (c, ds ++ [d]) :: cs
      | [] => []
      end
  end.

Lemma TFT_init_commands :
  idle (TFT_init []) /\ painted (TFT_init []) = [] /\
  fst <$> rev (commands (sent (TFT_init []))) =
    [0x11; 0x3a; 0xc5; 0x36; 0xb2; 0xb7; 0xbb; 0xc0; 0xc2; 0xc3; 0xc4; 0xc6; 0xd0; 0xe8; 0xe9;
     0xe0; 0xe1; 0x21; 0x29] /\
  last (rev (commands (sent (TFT_init [])))) = Some (0x29, []).
Proof. vm_compute. auto. Qed.

End Lcd.
