(* ===== verification/Servo.v ===== *)
(** * The servos (applications/duoji.c)

    Two servos follow the right stick: each iteration adds a speed to a pulse
    width when the sum stays inside a window, in mixed signed and unsigned
    arithmetic; a button presets both pulses and freezes them for a while.
    The theorems: no iteration overflows, the pulses and every value handed to
    the PWM device stay inside the window, and a preset is kept for exactly 50
    iterations. *)

From S2P Require Import Prelude Gpio.

Module Servo.

(** ** Constants (duoji.h, duoji.c) *)

Definition PWM_DUOJI1_CHANNEL : Z := 3.
Definition PWM_DUOJI2_CHANNEL : Z := 4.
Definition duoji1_period : Z := 10000000 - 1.
Definition duoji2_period : Z := 10000000 - 1.

(** ** State *)

(** The two pulse widths ([rt_uint32_t] globals), the locals of
    [duoji_handle] and what was sent to the device. *)
Record servo := mk_servo {
  duoji1_pulse : Z; duoji2_pulse : Z;
  duoji1_speed : Z; duoji2_speed : Z;
  ps2_flag : Z; i : Z; hist : history }.

(** ** Operations (duoji.c) *)

(** [pwm_init], without its console output; the result is not used. *)
Definition pwm_init (pwm_dev : option Z) (p1 p2 : Z) (h : history) : history :=
  match pwm_dev with
  | None => h
  | Some _ =>
      let h := rt_pwm_set pwm_dev PWM_DUOJI1_CHANNEL duoji1_period p1 h in
      let h := rt_pwm_set pwm_dev PWM_DUOJI2_CHANNEL duoji2_period p2 h in
      let h := rt_pwm_enable pwm_dev PWM_DUOJI1_CHANNEL h in
      rt_pwm_enable pwm_dev PWM_DUOJI2_CHANNEL h
  end.

Definition duoji_init (pwm_dev : option Z) : servo :=
  mk_servo 750000 750000 0 0 0 0 (pwm_init pwm_dev 750000 750000 []).

(** [if((speed+pulse)<1250000&&(speed+pulse)>325000) pulse += speed;]: an [int]
    plus an [rt_uint32_t] is unsigned. *)
Definition move_pulse (speed pulse : Z) : Z :=
  if (u32 (speed + pulse) <? 1250000) && (325000 <? u32 (speed + pulse))
  then u32 (pulse + speed) else pulse.

(** [-(stick-centre)*50] *)
Definition stick_speed (stick centre : Z) : result Z :=
  d ← chk32 (stick - centre);
  d ← chk32 (- d);
  chk32 (d * 50).

(** One iteration of the loop of [duoji_handle], on the pad state it reads. *)
Definition duoji_body (pwm_dev : option Z) (PS2_KEY PS2_RX PS2_RY : Z) (s : servo)
  : result servo :=
  let h := rt_thread_mdelay 10 (hist s) in
  let '(flag, i) :=
    if ps2_flag s =? 1 then
      let i' := u8 (i s + 1) in
      if 50 <=? i s then (0, 0) else (1, i')
    else (ps2_flag s, i s) in
  let '(flag, p1, p2) :=
    if PS2_KEY =? 8 then (1, 950000, 600000)
    else (flag, duoji1_pulse s, duoji2_pulse s) in
  if negb (PS2_RX =? 63) && (flag =? 0) then
    v1 ← (if negb (PS2_RY =? 63) then stick_speed PS2_RY 128 else Ok 0);
    let p1 := move_pulse v1 p1 in
    v2 ← stick_speed PS2_RX 127;
    let p2 := move_pulse v2 p2 in
    let h := rt_pwm_set pwm_dev PWM_DUOJI1_CHANNEL duoji1_period p1 h in
    let h := rt_pwm_set pwm_dev PWM_DUOJI2_CHANNEL duoji2_period p2 h in
    Ok (mk_servo p1 p2 v1 v2 flag i h)
  else Ok (mk_servo p1 p2 (duoji1_speed s) (duoji2_speed s) flag i h).

(** What the pad driver leaves in its globals at an iteration. *)
Record pad_state := mk_pad { key : Z; rx : Z; ry : Z }.

Fixpoint duoji_run (pwm_dev : option Z) (pads : list pad_state) (s : servo) : result servo :=
  match pads with
  | [] => Ok s
  | p :: pads => s ← duoji_body pwm_dev (key p) (rx p) (ry p) s; duoji_run pwm_dev pads s
  end.

(** ** Invariant *)

Definition in_range (p : Z) : Prop := 325000 < p < 1250000.
Definition pad_ok (p : pad_state) : Prop := 0 <= rx p < 256 /\ 0 <= ry p < 256.

(** Every pulse sent so far is in the window (and so below its period). *)
Definition sent_ok (h : history) : Prop :=
  Forall (fun e => match e with PwmSet _ _ period p => in_range p /\ p < period | _ => True end) h.

Definition inv (s : servo) : Prop :=
  in_range (duoji1_pulse s) /\ in_range (duoji2_pulse s) /\ sent_ok (hist s) /\
  ((ps2_flag s = 0 /\ i s = 0) \/ (ps2_flag s = 1 /\ 0 <= i s <= 50)).

Lemma stick_speed_Ok stick centre :
  0 <= stick < 256 -> 0 <= centre < 256 ->
  stick_speed stick centre = Ok (- (stick - centre) * 50).
Proof.
  intros H1 H2. unfold stick_speed.
  do 3 (rewrite chk32_Ok by lia; cbn [mbind result_bind]). done.
Qed.

Lemma move_pulse_spec speed pulse :
  in_range pulse -> Z.abs speed <= 6400 ->
  in_range (move_pulse speed pulse) /\ Z.abs (move_pulse speed pulse - pulse) <= Z.abs speed /\
  (in_range (pulse + speed) -> move_pulse speed pulse = pulse + speed).
Proof.
  unfold in_range, move_pulse. intros Hp Hs.
  rewrite (u32_small (speed + pulse)), (u32_small (pulse + speed)) by lia.
  destruct (_ && _) eqn:E; lia.
Qed.

Lemma sent_ok_set dev c p h :
  sent_ok h -> in_range p -> sent_ok (rt_pwm_set dev c (10000000 - 1) p h).
Proof.
  intros Hh Hp. destruct dev; [|done]. constructor; [|done]. unfold in_range in *. lia.
Qed.

Lemma inv_init dev : inv (duoji_init dev).
Proof.
  unfold inv, in_range. cbn [duoji_init duoji1_pulse duoji2_pulse ps2_flag i hist].
  split_and!; try lia. destruct dev; repeat constructor; unfold in_range; lia.
Qed.

Lemma duoji_body_spec dev k x y s :
  pad_ok (mk_pad k x y) -> inv s ->
  exists s', duoji_body dev k x y s = Ok s' /\ inv s' /\
    (ps2_flag s' = 1 -> hist s' = DelayMs 10 :: hist s) /\
    (k <> 8 -> Z.abs (duoji1_pulse s' - duoji1_pulse s) <= 6400 /\
               Z.abs (duoji2_pulse s' - duoji2_pulse s) <= 6400).
Proof.
  intros [Hx Hy] (H1 & H2 & Hs & Hf). cbn in Hx, Hy. unfold duoji_body.
  set (fi := if ps2_flag s =? 1 then _ else _).
  assert (exists f n, fi = (f, n) /\ ((f = 0 /\ n = 0) \/ (f = 1 /\ 0 <= n <= 50))) as (f & n & -> & Hfn).
  { subst fi. destruct Hf as [[-> ->]|[-> Hi]]; cbn [Z.eqb].
    - exists 0, 0. split; [done|lia].
    - cbn. rewrite u8_small by lia. destruct (50 <=? i s) eqn:E; eexists _, _; (split; [done|lia]). }
  set (fp := if k =? 8 then _ else _).
  assert (exists f' p1 p2, fp = (f', p1, p2) /\ in_range p1 /\ in_range p2 /\
    ((f' = 0 /\ n = 0) \/ (f' = 1 /\ 0 <= n <= 50)) /\
    (k <> 8 -> p1 = duoji1_pulse s /\ p2 = duoji2_pulse s)) as (f' & p1 & p2 & -> & R1 & R2 & Hfn' & Hk).
  { subst fp. unfold in_range in *. destruct (k =? 8) eqn:E; eexists _, _, _;
      (split; [reflexivity|]); split_and!; lia. }
  assert (sent_ok (rt_thread_mdelay 10 (hist s))) as Hh by (by constructor).
  destruct (negb (x =? 63) && (f' =? 0)) eqn:Ego.
  - assert (exists v1, (if negb (y =? 63) then stick_speed y 128 else Ok 0) = Ok v1 /\ Z.abs v1 <= 6400)
      as (v1 & -> & B1).
    { destruct (negb (y =? 63)); [rewrite stick_speed_Ok by lia|]; eexists; (split; [reflexivity|lia]). }
    cbn [mbind result_bind]. rewrite stick_speed_Ok by lia. cbn [mbind result_bind].
    destruct (move_pulse_spec v1 p1 R1 B1) as (M1 & D1 & _).
    destruct (move_pulse_spec (- (x - 127) * 50) p2 R2) as (M2 & D2 & _); [lia|].
    eexists. split; [reflexivity|]. split; [split_and!; cbn; try done|].
    + by apply sent_ok_set; [apply sent_ok_set|].
    + cbn. split; [intros ->; lia|]. intros Hne. destruct (Hk Hne) as [<- <-]. lia.
  - eexists. split; [reflexivity|]. split; [by split_and!|].
    cbn. split; [done|]. intros Hne. destruct (Hk Hne) as [<- <-]. lia.
Qed.

(** C12: whatever the pad reports, the servo loop runs without a signed
    overflow or an unsigned wrap-around, and the pulse widths and every value
    ever handed to the PWM device stay strictly between 325000 and 1250000 ns,
    below the period. *)
Theorem duoji_run_safe (pwm_dev : option Z) (pads : list pad_state) :
  Forall pad_ok pads ->
  exists s, duoji_run pwm_dev pads (duoji_init pwm_dev) = Ok s /\
    in_range (duoji1_pulse s) /\ in_range (duoji2_pulse s) /\ sent_ok (hist s).
Proof.
  intros Hp. assert (forall s, inv s -> exists s', duoji_run pwm_dev pads s = Ok s' /\ inv s') as H.
  { induction Hp as [|[k x y] pads Hp _ IH]; intros s Hi; [by exists s|]. cbn [duoji_run key rx ry].
    destruct (duoji_body_spec pwm_dev k x y s Hp Hi) as (s1 & -> & Hi1 & _). by apply IH. }
  destruct (H _ (inv_init pwm_dev)) as (s & E & H1 & H2 & H3 & _). by exists s.
Qed.

Lemma duoji_run_safe_witness :
  exists s, duoji_run (Some 8) [mk_pad 0 0 255; mk_pad 8 255 0; mk_pad 0 63 63]
      (duoji_init (Some 8)) = Ok s /\
    in_range (duoji1_pulse s) /\ in_range (duoji2_pulse s) /\ sent_ok (hist s).
Proof.
  apply (duoji_run_safe (Some 8) [mk_pad 0 0 255; mk_pad 8 255 0; mk_pad 0 63 63]).
  repeat constructor; cbn; lia.
Defined.

(** ** The preset *)

Lemma replicate_next {A} n (x : A) h : replicate n x ++ x :: h = replicate (S n) x ++ h.
Proof.
  change (replicate (S n) x ++ h) with ((x :: replicate n x) ++ h).
  by rewrite replicate_cons_app, <- app_assoc.
Qed.

(** A frozen state keeps its pulses until the counter has run out. *)
Lemma frozen_run dev pads s :
  Forall (fun p => key p <> 8) pads -> ps2_flag s = 1 -> i s + Z.of_nat (length pads) <= 50 ->
  0 <= i s ->
  exists s', duoji_run dev pads s = Ok s' /\
    duoji1_pulse s' = duoji1_pulse s /\ duoji2_pulse s' = duoji2_pulse s /\
    ps2_flag s' = 1 /\ i s' = i s + Z.of_nat (length pads) /\
    hist s' = replicate (length pads) (DelayMs 10) ++ hist s.
Proof.
  intros Hp. revert s. induction Hp as [|[k x y] pads Hk _ IH]; intros s Hf Hi Hi0.
  { exists s. split_and!; try done. cbn. lia. }
  cbn [duoji_run key rx ry length] in *. unfold duoji_body. rewrite Hf. cbn [Z.eqb Pos.eqb].
  replace (50 <=? i s) with false by lia. replace (k =? 8) with false by lia.
  rewrite u8_small by lia. rewrite andb_false_r. cbn [mbind result_bind].
  destruct (IH (mk_servo (duoji1_pulse s) (duoji2_pulse s) (duoji1_speed s) (duoji2_speed s) 1
    (i s + 1) (rt_thread_mdelay 10 (hist s)))) as (s' & -> & E1 & E2 & E3 & E4 & E5);
    cbn [ps2_flag i]; try done; try lia.
  exists s'. cbn [hist duoji1_pulse duoji2_pulse ps2_flag i] in *.
  split_and!; try done; try lia. rewrite E5.
  apply replicate_next.
Qed.

(** Pressing the preset button (key 8) outside a preset sets the pulses to
    950000 and 600000, sends nothing, and the next 50 iterations neither move
    the pulses nor send anything, whatever the stick does; then the stick
    moves them again from there. *)
Lemma duoji_preset_holds (dev : option Z) (s : servo) (p0 : pad_state) (pads : list pad_state)
    (p51 : pad_state) :
  inv s -> ps2_flag s = 0 -> key p0 = 8 -> length pads = 50%nat ->
  Forall (fun p => key p <> 8) pads -> key p51 <> 8 -> pad_ok p51 -> rx p51 <> 63 ->
  exists s1 s2, duoji_run dev (p0 :: pads) s = Ok s1 /\
    duoji1_pulse s1 = 950000 /\ duoji2_pulse s1 = 600000 /\
    hist s1 = replicate 51 (DelayMs 10) ++ hist s /\
    duoji_body dev (key p51) (rx p51) (ry p51) s1 = Ok s2 /\ ps2_flag s2 = 0 /\
    duoji1_pulse s2 = 950000 + (if ry p51 =? 63 then 0 else - (ry p51 - 128) * 50) /\
    duoji2_pulse s2 = 600000 - (rx p51 - 127) * 50.
Proof.
  intros (H1 & H2 & Hs & Hfi) Hf Hk Hlen Hpads Hk51 [Hx Hy] Hx63.
  assert (i s = 0) as Hi by lia. cbn [duoji_run]. rewrite Hk.
  assert (duoji_body dev 8 (rx p0) (ry p0) s = Ok (mk_servo 950000 600000 (duoji1_speed s)
    (duoji2_speed s) 1 0 (rt_thread_mdelay 10 (hist s)))) as ->.
  { unfold duoji_body. rewrite Hf, Hi. cbn [Z.eqb Pos.eqb]. by rewrite andb_false_r. }
  cbn [mbind result_bind].
  destruct (frozen_run dev pads (mk_servo 950000 600000 (duoji1_speed s) (duoji2_speed s) 1 0
    (rt_thread_mdelay 10 (hist s)))) as (s1 & -> & E1 & E2 & E3 & E4 & E5);
    cbn [ps2_flag i]; try done; try lia.
  cbn in E1, E2, E3, E4, E5. rewrite Hlen in *.
  set (v1 := if ry p51 =? 63 then 0 else - (ry p51 - 128) * 50).
  assert ((if negb (ry p51 =? 63) then stick_speed (ry p51) 128 else Ok 0) = Ok v1) as Estick
    by (subst v1; destruct (ry p51 =? 63); [done|by rewrite stick_speed_Ok by lia]).
  assert (Z.abs v1 <= 6400) as Hv1 by (subst v1; destruct (ry p51 =? 63); lia). clearbody v1.
  eexists s1, _. split; [reflexivity|]. split; [done|]. split; [done|]. split.
  { rewrite E5. apply replicate_next. }
  unfold duoji_body. rewrite E3, E4. cbn [Z.eqb Pos.eqb Z.add Z.of_nat].
  replace (50 <=? _) with true by done. replace (key p51 =? 8) with false by lia.
  replace (rx p51 =? 63) with false by lia. cbn [negb andb Z.eqb].
  rewrite E1, E2. rewrite (stick_speed_Ok (rx p51)) by lia.
  rewrite Estick.
  cbn [mbind result_bind]. split; [reflexivity|]. cbn [duoji1_pulse duoji2_pulse ps2_flag].
  split; [done|].
  destruct (move_pulse_spec v1 950000) as (_ & _ & ->); unfold in_range; try lia.
  destruct (move_pulse_spec (- (rx p51 - 127) * 50) 600000) as (_ & _ & ->); unfold in_range; lia.
Qed.

Lemma duoji_preset_holds_witness :
  exists s1 s2, duoji_run (Some 8) (mk_pad 8 10 10 :: replicate 50 (mk_pad 0 200 7))
      (duoji_init (Some 8)) = Ok s1 /\
    duoji1_pulse s1 = 950000 /\ duoji2_pulse s1 = 600000 /\
    hist s1 = replicate 51 (DelayMs 10) ++ hist (duoji_init (Some 8)) /\
    duoji_body (Some 8) 0 100 90 s1 = Ok s2 /\ ps2_flag s2 = 0 /\
    duoji1_pulse s2 = 950000 + (if 90 =? 63 then 0 else - (90 - 128) * 50) /\
    duoji2_pulse s2 = 600000 - (100 - 127) * 50.
Proof.
  apply (duoji_preset_holds (Some 8) (duoji_init (Some 8)) (mk_pad 8 10 10)
    (replicate 50 (mk_pad 0 200 7)) (mk_pad 0 100 90)); try reflexivity.
  - apply inv_init.
  - apply Forall_replicate. discriminate.
  - discriminate.
  - split; cbn; lia.
  - discriminate.
Defined.

End Servo.
