(* ===== verification/Cabin.v ===== *)
(** * The people counter, the alarm outputs and the keys (applications/hardware.c, key.c)

    One thread samples a detector, drives a buzzer and a lamp, and counts people
    with a blind time after each; two keys move a cursor over the saved
    readings from an interrupt handler.  The theorems: the counter counts
    exactly the detections that a 50-iteration blind time lets through, modulo
    256; the outputs follow the alarm; the cursor stays inside the table of
    readings while at most 18 have been saved, whatever the interleaving. *)

From S2P Require Import Prelude Gpio.

Module Hardware.

Definition BEEP_PIN : Z := GET_PIN PORT_D 2.
Definition LED_PIN : Z := GET_PIN PORT_B 6.
Definition DETECT_PIN : Z := GET_PIN PORT_B 9.

(** The global [people_number], the locals of [hardware_entry], the pins. *)
Record hardware := mk_hw { people_number : Z; n : Z; n_flag : Z; hist : history }.

Definition hardware_init (h : history) : history :=
  let h := rt_pin_mode BEEP_PIN PIN_MODE_OUTPUT h in
  let h := rt_pin_mode LED_PIN PIN_MODE_OUTPUT h in
  let h := rt_pin_mode DETECT_PIN PIN_MODE_INPUT h in
  let h := rt_pin_write BEEP_PIN PIN_HIGH h in
  let h := rt_pin_write LED_PIN PIN_LOW h in
  rt_thread_mdelay 2000 h.

Definition beep_handle (value : Z) (h : history) : history :=
  if value =? 1 then rt_pin_write BEEP_PIN PIN_LOW h
  else if value =? 0 then rt_pin_write BEEP_PIN PIN_HIGH h
  else h.

Definition led_solve (value : Z) (h : history) : history :=
  if value =? 1 then rt_pin_write LED_PIN PIN_HIGH h
  else if value =? 0 then rt_pin_write LED_PIN PIN_LOW h
  else h.

(** The three flags are globals of hardware.c, key.c and aht10.c. *)
Definition people_detect (w : world) (beep_value beep_value2 beep_value3 : Z) (h : history)
  : history :=
  let '(detect, h) := rt_pin_read w DETECT_PIN h in
  if (detect =? PIN_HIGH) || (beep_value =? 1) || (beep_value2 =? 1) || (beep_value3 =? 1) then
    let h := rt_thread_mdelay 200 h in
    let h := beep_handle 1 h in
    led_solve 1 h
  else
    let h := beep_handle 0 h in
    led_solve 0 h.

(** One iteration of the loop of [hardware_entry]. *)
Definition hardware_body (w : world) (beep_value beep_value2 beep_value3 : Z) (s : hardware)
  : hardware :=
  let h := people_detect w beep_value beep_value2 beep_value3 (hist s) in
  let h := rt_thread_mdelay 50 h in
  let '(detect, h) := rt_pin_read w DETECT_PIN h in
  let '(people, flag) :=
    if (detect =? PIN_HIGH) && (n s =? 0) then (u8 (people_number s + 1), 1)
    else (people_number s, n_flag s) in
  let '(n', flag) :=
    if flag =? 1 then
      if 50 <=? n s then (0, 0) else (u8 (n s + 1), flag)
    else (n s, flag) in
  mk_hw people n' flag h.

Definition hardware_start (people : Z) : hardware :=
  mk_hw people 0 1 (hardware_init []).

(** What an iteration meets: the detector at its two readings, and the flags. *)
Record input := mk_input { detect1 : Z; detect2 : Z; b1 : Z; b2 : Z; b3 : Z }.

(** The detector's two readings in an iteration: the second comes after the
    wait of 50 ms. *)
Definition detector (i : input) : world := fun h _ =>
  match h with DelayMs 50 :: _ => detect2 i | _ => detect1 i end.

Fixpoint hardware_run (inputs : list input) (s : hardware) : hardware :=
  match inputs with
  | [] => s
  | i :: inputs => hardware_run inputs (hardware_body (detector i) (b1 i) (b2 i) (b3 i) s)
  end.

(** ** What is counted *)

(** A detection counts when no blind iteration is left, and makes the next 50
    blind. *)
Fixpoint crossings (blind : nat) (ds : list bool) : Z :=
  match ds with
  | [] => 0
  | d :: ds =>
      match blind with
      | S blind => crossings blind ds
      | O => if d then 1 + crossings 50 ds else crossings 0 ds
      end
  end.

(** The loop starts as if it had just counted: its first iteration may count,
    and the next 50 are blind either way. *)
Definition counted (ds : list bool) : Z :=
  match ds with
  | [] => 0
  | d :: ds => Z.b2z d + crossings 50 ds
  end.

Definition detected (i : input) : bool := detect2 i =? PIN_HIGH.

(** [blind] iterations are left in a state of the loop. *)
Definition blind_inv (blind : nat) (s : hardware) : Prop :=
  (n s = 0 /\ n_flag s = 0 /\ blind = 0%nat) \/
  (n_flag s = 1 /\ 1 <= n s <= 50 /\ Z.of_nat blind = 51 - n s).

Lemma detector_reads i h1 :
  fst (rt_pin_read (detector i) DETECT_PIN (rt_thread_mdelay 50 h1)) = detect2 i.
Proof. reflexivity. Qed.

Lemma hardware_body_state i s :
  let s' := hardware_body (detector i) (b1 i) (b2 i) (b3 i) s in
  people_number s' = (if detected i && (n s =? 0) then u8 (people_number s + 1) else people_number s) /\
  let flag := if detected i && (n s =? 0) then 1 else n_flag s in
  n s' = (if flag =? 1 then if 50 <=? n s then 0 else u8 (n s + 1) else n s) /\
  n_flag s' = (if flag =? 1 then if 50 <=? n s then 0 else flag else flag).
Proof.
  unfold hardware_body. set (h := people_detect _ _ _ _ _). clearbody h.
  unfold rt_pin_read. change (detector i (rt_thread_mdelay 50 h) DETECT_PIN) with (detect2 i).
  unfold detected. destruct ((detect2 i =? PIN_HIGH) && (n s =? 0)); cbn.
  - by destruct (50 <=? n s).
  - destruct (n_flag s =? 1); [|done]. by destruct (50 <=? n s).
Qed.

Lemma u8_add a b : u8 (u8 a + b) = u8 (a + b).
Proof. unfold u8. apply Zplus_mod_idemp_l. Qed.

Lemma u8_idem a : u8 (u8 a) = u8 a.
Proof. unfold u8. by rewrite Z.mod_mod by lia. Qed.

Lemma hardware_run_crossings inputs s blind :
  blind_inv blind s -> u8 (people_number s) = people_number s ->
  people_number (hardware_run inputs s) = u8 (people_number s + crossings blind (detected <$> inputs)).
Proof.
  revert s blind. induction inputs as [|i inputs IH]; intros s blind Hb Hp; cbn [hardware_run fmap list_fmap crossings].
  { by rewrite Z.add_0_r. }
  destruct (hardware_body_state i s) as (E1 & E2 & E3). cbn zeta in *.
  set (s' := hardware_body _ _ _ _ s) in *. clearbody s'.
  destruct Hb as [(Hn & Hf & ->)|(Hf & Hn & Hbl)].
  - rewrite Hn in *. rewrite Hf in *. cbn [Z.eqb andb] in *. destruct (detected i); cbn in *.
    + rewrite (IH s' 50%nat).
      * rewrite E1. rewrite u8_add. f_equal. lia.
      * right. rewrite E2, E3. rewrite ?u8_small by lia. lia.
      * rewrite E1. apply u8_idem.
    + rewrite (IH s' 0%nat); [by rewrite E1|left; by rewrite E2, E3|by rewrite E1].
  - destruct blind as [|blind]; [lia|]. replace (n s =? 0) with false in * by lia.
    rewrite andb_false_r, Hf in *. cbn [Z.eqb Pos.eqb] in *.
    rewrite (IH s' blind); [by rewrite E1| |by rewrite E1].
    unfold blind_inv. destruct (50 <=? n s) eqn:E; rewrite E2, E3.
    + left. lia.
    + right. rewrite u8_small by lia. lia.
Qed.

(** ** Reading the outputs back *)

Fixpoint level_of (pin : Z) (h : history) : Z :=
  match h with
  | [] => 0
  | PinWrite p v :: h => if p =? pin then v else level_of pin h
  | _ :: h => level_of pin h
  end.

(** The people counter.  After any sequence of iterations the counter has
    grown, modulo 256, by the number of detections that a blind time of 50
    iterations after each counted one (and after the start) lets through. *)
Lemma people_counted (people : Z) (inputs : list input) :
  0 <= people < 256 ->
  people_number (hardware_run inputs (hardware_start people)) =
    u8 (people + counted (detected <$> inputs)).
Proof.
  intros Hp. destruct inputs as [|i inputs]; cbn [hardware_run fmap list_fmap counted].
  { cbn. by rewrite Z.add_0_r, u8_small. }
  destruct (hardware_body_state i (hardware_start people)) as (E1 & E2 & E3). cbn zeta in *.
  set (s' := hardware_body _ _ _ _ _) in *. clearbody s'. cbn in E1, E2, E3.
  rewrite andb_true_r in E1, E2, E3.
  rewrite (hardware_run_crossings inputs s' 50).
  - rewrite E1. destruct (detected i); cbn [Z.b2z].
    + rewrite u8_add. f_equal. lia.
    + by rewrite Z.add_0_l.
  - right. rewrite E2, E3. destruct (detected i); cbn; rewrite ?u8_small by lia; lia.
  - rewrite E1. destruct (detected i); [|by apply u8_small].
    apply u8_idem.
Qed.

Lemma people_counted_witness :
  people_number (hardware_run (replicate 103 (mk_input 0 1 0 0 0)) (hardware_start 255)) =
    u8 (255 + counted (detected <$> replicate 103 (mk_input 0 1 0 0 0))).
Proof. apply (people_counted 255 (replicate 103 (mk_input 0 1 0 0 0))). lia. Defined.

(** 103 iterations with somebody always there are three people. *)
Lemma people_counted_example : counted (replicate 103 true) = 3.
Proof. reflexivity. Qed.

(** After every iteration the buzzer (active low) and the lamp are on when
    the detector's first reading or any of the three flags asks for it, and
    off otherwise. *)
Lemma alarm_outputs (w : world) (f1 f2 f3 : Z) (s : hardware) :
  let h' := hist (hardware_body w f1 f2 f3 s) in
  let alarm := (w (hist s) DETECT_PIN =? PIN_HIGH) || (f1 =? 1) || (f2 =? 1) || (f3 =? 1) in
  level_of BEEP_PIN h' = (if alarm then PIN_LOW else PIN_HIGH) /\
  level_of LED_PIN h' = (if alarm then PIN_HIGH else PIN_LOW).
Proof.
  cbn zeta. assert (level_of BEEP_PIN (hist (hardware_body w f1 f2 f3 s)) =
      level_of BEEP_PIN (people_detect w f1 f2 f3 (hist s)) /\
    level_of LED_PIN (hist (hardware_body w f1 f2 f3 s)) =
      level_of LED_PIN (people_detect w f1 f2 f3 (hist s))) as [-> ->].
  { unfold hardware_body, rt_pin_read. set (h := people_detect _ _ _ _ _). clearbody h.
    destruct (_ && _); cbn; [by destruct (50 <=? n s)|].
    destruct (n_flag s =? 1); [|done]. by destruct (50 <=? n s). }
  unfold people_detect, rt_pin_read. by destruct (_ || _).
Qed.

End Hardware.

(** ** The keys *)

Module Key.

Definition key1 : Z := GET_PIN PORT_A 8.
Definition key2 : Z := GET_PIN PORT_B 1.

(** The globals [buf] and [beep_value2], and [number] of aht10.c. *)
Record keys := mk_keys { buf : Z; beep_value2 : Z; number : Z }.

(** [irq_callback], without its console output. *)
Definition irq_callback (args : Z) (s : keys) : keys :=
  let sign := u32 args in
  let b := if number s <? buf s then 0 else buf s in
  let b := if sign =? key1 then (if b <=? 99 then u8 (b + 1) else b)
           else if sign =? key2 then (if 0 <? b then u8 (b - 1) else b)
           else b in
  mk_keys b 1 (number s).

(** One iteration of the loop of [key_handle], with its local [i]. *)
Definition key_body (i : Z) (s : keys) : Z * keys :=
  if beep_value2 s =? 1 then
    if 25 <=? i then (0, mk_keys (buf s) 0 (number s)) else (u8 (i + 1), s)
  else (i, s).

(** The interrupt, and what the thread of aht10.c does to [number] and [buf]:
    a reading is saved, or the table is cleared. *)
Inductive step : keys -> keys -> Prop :=
| step_irq args s : step s (irq_callback args s)
| step_beep i s : step s (snd (key_body i s))
| step_save s : number s <= 18 -> step s (mk_keys (buf s) (beep_value2 s) (u8 (number s + 1)))
| step_clear s : step s (mk_keys 0 (beep_value2 s) 0).

Definition start : keys := mk_keys 0 0 0.

Inductive reachable : keys -> Prop :=
| reach_start : reachable start
| reach_step s s' : reachable s -> step s s' -> reachable s'.

Lemma irq_callback_bound args s :
  0 <= number s <= 19 -> 0 <= buf s <= number s + 1 ->
  0 <= buf (irq_callback args s) <= number s + 1.
Proof.
  intros Hn Hb. unfold irq_callback. cbn [buf].
  assert (0 <= (if number s <? buf s then 0 else buf s) <= number s) as Hb0 by (zbool; lia).
  set (b := if number s <? buf s then 0 else buf s) in *. clearbody b.
  destruct (u32 args =? key1); [|destruct (u32 args =? key2); [|lia]].
  - replace (b <=? 99) with true by lia. rewrite u8_small; lia.
  - destruct (0 <? b) eqn:E; [rewrite u8_small; lia|lia].
Qed.

Lemma reachable_inv s : reachable s -> 0 <= number s <= 19 /\ 0 <= buf s <= number s + 1.
Proof.
  induction 1 as [|s s' _ IH Hs]; [cbn; lia|]. destruct Hs as [args s|i s|s Hn|s].
  - change (number (irq_callback args s)) with (number s). split; [lia|].
    apply irq_callback_bound; apply IH.
  - unfold key_body. destruct (beep_value2 s =? 1); [destruct (25 <=? i)|]; done.
  - cbn. rewrite u8_small; lia.
  - cbn. lia.
Qed.

(** The cursor of the keys.  Whatever interleaving of key interrupts,
    buzzer iterations, saves and clears, while fewer than 19 readings were
    saved since the last clear the cursor is at most one past the readings and
    inside the 20 rows of the table that aht10.c shows through it. *)
Lemma cursor_in_table (s : keys) :
  reachable s -> number s <= 18 ->
  0 <= buf s <= number s + 1 /\ buf s < 20.
Proof. intros Hr Hn. pose proof (reachable_inv s Hr). lia. Qed.

Lemma cursor_in_table_witness :
  reachable (mk_keys 2 1 1) /\ (0 <= buf (mk_keys 2 1 1) <= number (mk_keys 2 1 1) + 1 /\
    buf (mk_keys 2 1 1) < 20).
Proof.
  assert (reachable (mk_keys 2 1 1)) as H.
  { apply (reach_step (mk_keys 1 1 1)); [|exact (step_irq key1 (mk_keys 1 1 1))].
    apply (reach_step (mk_keys 0 0 1)); [|exact (step_irq key1 (mk_keys 0 0 1))].
    apply (reach_step start); [apply reach_start|].
    exact (step_save start ltac:(cbn; lia)). }
  split; [exact H|]. apply (cursor_in_table _ H). cbn. lia.
Defined.

(** With 19 readings saved, two presses put the cursor past the table: the
    guard of the handler compares with [number], not with the table. *)
Lemma cursor_leaves_table :
  buf (irq_callback key1 (mk_keys 19 0 19)) = 20.
Proof. reflexivity. Qed.

(** An interrupt sounds the buzzer for 26 iterations of the loop. *)
Lemma beep_lasts k : 0 <= k <= 25 ->
  forall b n, key_body k (mk_keys b 1 n) = if k =? 25 then (0, mk_keys b 0 n) else (k + 1, mk_keys b 1 n).
Proof.
  intros Hk b n. unfold key_body. cbn [beep_value2 Z.eqb Pos.eqb buf number].
  destruct (Z.leb_spec 25 k), (Z.eqb_spec k 25); try lia; [done|]. by rewrite u8_small by lia.
Qed.

End Key.

(** ** The lamp on the board (led.c) *)

Module Led.

Definition PIN_LED1 : Z := GET_PIN PORT_C 13.

(** One iteration of the loop of [led_handle] (the thread is not started). *)
Definition led_body (h : history) : history :=
  let h := rt_pin_write PIN_LED1 PIN_LOW h in
  let h := rt_thread_mdelay 500 h in
  let h := rt_pin_write PIN_LED1 PIN_HIGH h in
  rt_thread_mdelay 500 h.

End Led.
