(* ===== verification/Dht11.v ===== *)
(** * The humidity sensor and the saved readings (applications/aht10.c)

    The DHT11 sensor answers on one pin with pulses whose lengths are the bits; the
    driver polls the pin, waits after the beginning of a pulse and looks whether the
    pulse still lasts.  Time is part of the model: the line has a level at each
    nanosecond, a reading of the pin and a delay take time, and a wait that the line
    does not end is a fault, so that a result is a run whose waits all ended.  The
    theorems: a byte sent with pulses of the right lengths is read back, whatever the
    time the readings take within their bounds; so is a whole answer, which ends up
    in [dht11_data], and in the result exactly when the checksum is the plain sum;
    the iterations of the monitoring thread stay inside the table of saved readings
    unless a reading is saved; clearing the table clears one row. *)

From S2P Require Import Prelude Gpio.

Module Dht11.

Definition DHT11_PIN : Z := GET_PIN PORT_C 12.

(** ** The pin *)

(** What the thread meets, in nanoseconds: the level of the line at each time; how
    long a reading of the pin takes that begins at a time, and how much longer than
    asked a delay; and how many readings a wait lasts at most. *)
Record wire := mk_wire { line : Z -> Z; cost : Z -> Z; extra : Z -> Z; patience : nat }.
(** The time, and the events so far. *)
Record sensor := mk_sensor { wire_of : wire; now : Z; hist : history }.

Definition with_hist (f : history -> history) (s : sensor) : sensor :=
  mk_sensor (wire_of s) (now s) (f (hist s)).
Definition sleep (ns : Z) (s : sensor) : sensor :=
  mk_sensor (wire_of s) (now s + ns + extra (wire_of s) (now s)) (hist s).

(** [DHT11_DQ_IN]: the level at the end of the reading. *)
Definition DHT11_DQ_IN (s : sensor) : Z * sensor :=
  let t := now s + cost (wire_of s) (now s) in
  let l := line (wire_of s) t in
  (l, mk_sensor (wire_of s) t (PinRead DHT11_PIN l :: hist s)).

Definition DHT11_DQ_OUT (x : Z) : sensor -> sensor :=
  with_hist (rt_pin_write DHT11_PIN (if x =? 0 then PIN_LOW else PIN_HIGH)).
Definition delay_ms (x : Z) (s : sensor) : sensor := sleep (1000000 * x) (with_hist (rt_thread_mdelay x) s).
Definition delay_us (x : Z) (s : sensor) : sensor := sleep (1000 * (x / 2)) (with_hist (rt_hw_us_delay (x / 2)) s).

(** [while(DHT11_DQ_IN);] and [while(!DHT11_DQ_IN);] *)
Fixpoint wait (fuel : nat) (level : bool) (s : sensor) : result sensor :=
  match fuel with
  | O => Fault OutOfFuel
  | S fuel =>
      let '(l, s) := DHT11_DQ_IN s in
      if Bool.eqb (negb (l =? 0)) level then wait fuel level s else Ok s
  end.
Definition while_high (s : sensor) : result sensor := wait (patience (wire_of s)) true s.
Definition while_low (s : sensor) : result sensor := wait (patience (wire_of s)) false s.

(** ** Operations (aht10.c) *)

Definition dht11_gpio_input : sensor -> sensor :=
  with_hist (rt_pin_mode DHT11_PIN PIN_MODE_INPUT).
Definition dht11_gpio_output : sensor -> sensor :=
  with_hist (rt_pin_mode DHT11_PIN PIN_MODE_OUTPUT).

Definition dht11_start (s : sensor) : result sensor :=
  let s := dht11_gpio_output s in
  let s := DHT11_DQ_OUT 1 s in
  let s := DHT11_DQ_OUT 0 s in
  let s := delay_ms 20 s in
  let s := DHT11_DQ_OUT 1 s in
  let s := dht11_gpio_input s in
  s ← while_high s;
  s ← while_low s;
  while_high s.

(** One iteration of the loop of [dht11_read_byte]. *)
Definition dht11_read_bit (read_data : Z) (s : sensor) : result (Z * sensor) :=
  s ← while_low s;
  let s := delay_us 50 s in
  let '(l, s) := DHT11_DQ_IN s in
  '(temp, s) ← (if l =? 1 then s ← while_high s; Ok (1, s) else Ok (0, s));
  Ok (Z.lor (u8 (Z.shiftl read_data 1)) temp, s).

Fixpoint read_bits (n : nat) (read_data : Z) (s : sensor) : result (Z * sensor) :=
  match n with
  | O => Ok (read_data, s)
  | S n => '(read_data, s) ← dht11_read_bit read_data s; read_bits n read_data s
  end.
Definition dht11_read_byte (s : sensor) : result (Z * sensor) := read_bits 8 0 s.

(** [for(i = 0; i < 5; i++) dht11_data[i] = dht11_read_byte();], from [i]. *)
Fixpoint read_data (n : nat) (i : Z) (data : list Z) (s : sensor) : result (list Z * sensor) :=
  match n with
  | O => Ok (data, s)
  | S n =>
      '(b, s) ← dht11_read_byte s;
      data ← aset data i b;
      read_data n (i + 1) data s
  end.

(** [char] is unsigned on this machine; the sums are [int]. *)
Definition dht11_read (result0 dht11_data : list Z) (s : sensor)
  : result (list Z * list Z * sensor) :=
  s ← dht11_start s;
  let s := dht11_gpio_input s in
  '(data, s) ← read_data 5 0 dht11_data s;
  d0 ← aget data 0; d1 ← aget data 1; d2 ← aget data 2; d3 ← aget data 3; d4 ← aget data 4;
  if d0 + d1 + d2 + d3 =? d4 then
    r ← acopy result0 0 data 0 4; Ok (r, data, s)
  else Ok (result0, data, s).

(** ** The monitoring thread *)

(** The globals of aht10.c and key.c it uses, its locals [n] and [i], and the
    texts it shows with their positions, newest first.  [ADC_Value] has the one
    element its initialiser gives it. *)
Record monitor := mk_monitor {
  n : Z; i : Z;
  dht11_data : list Z; dht11_result : list Z;
  review_buf : list (list Z); number : Z; key_flag : Z; buf : Z; beep_value3 : Z;
  ADC_Value : list Z; shown : list (Z * Z * list Z); dev : sensor }.

Definition humi_error : list Z := [104; 117; 109; 105; 32; 101; 114; 114; 111; 114].
Definition temp_error : list Z := [116; 101; 109; 112; 32; 101; 114; 114; 111; 114].

(** The check of the readings, every 201st iteration. *)
Definition check_readings (m : monitor) : result monitor :=
  let i' := u8 (i m + 1) in
  if 200 <=? i m then
    d0 ← aget (dht11_data m) 0;
    d2 ← aget (dht11_data m) 2;
    let '(sh, b3) :=
      if (90 <=? d0) || (d0 <=? 10) then ((0, 220, humi_error) :: shown m, 1)
      else if (40 <=? d2) || (d2 <=? 1) then ((0, 240, temp_error) :: shown m, 1)
      else (shown m, beep_value3 m) in
    Ok (mk_monitor (n m) 0 (dht11_data m) (dht11_result m) (review_buf m) (number m)
          (key_flag m) (buf m) b3 (ADC_Value m) sh (dev m))
  else Ok (mk_monitor (n m) i' (dht11_data m) (dht11_result m) (review_buf m) (number m)
             (key_flag m) (buf m) (beep_value3 m) (ADC_Value m) (shown m) (dev m)).

(** The reading of the sensor, every 51st iteration. *)
Definition poll_sensor (m : monitor) : result monitor :=
  let n' := u8 (n m + 1) in
  if 50 <=? n m then
    '(r, d, s) ← dht11_read (replicate 4 0) (dht11_data m) (dev m);
    Ok (mk_monitor 0 (i m) d r (review_buf m) (number m)
          (key_flag m) (buf m) (beep_value3 m) (ADC_Value m) (shown m) s)
  else Ok (mk_monitor n' (i m) (dht11_data m) (dht11_result m) (review_buf m) (number m)
             (key_flag m) (buf m) (beep_value3 m) (ADC_Value m) (shown m) (dev m)).

(** [review_buf[r][c] = v] *)
Definition set_review (t : list (list Z)) (r c v : Z) : result (list (list Z)) :=
  row ← aget t r; row ← aset row c v; aset t r row.

(** Key 13: a reading is saved. *)
Definition save_reading (m : monitor) : result monitor :=
  d0 ← aget (dht11_data m) 0; d1 ← aget (dht11_data m) 1;
  d2 ← aget (dht11_data m) 2; d3 ← aget (dht11_data m) 3;
  t ← set_review (review_buf m) (number m) 0 (u8 (d2 * 10 + d3));
  t ← set_review t (number m) 1 (u8 (d0 * 10 + d1));
  v ← aget (ADC_Value m) 1;
  t ← set_review t (number m) 2 (u8 v);
  Ok (mk_monitor (n m) (i m) (dht11_data m) (dht11_result m) t (u8 (number m + 1))
        (key_flag m) (buf m) (beep_value3 m) (ADC_Value m) (shown m) (dev m)).

(** Key 10: the loop that clears the table; [k] is the loop's own [n]. *)
Record clearing := mk_clearing { k : Z; num : Z; table : list (list Z); cursor : Z }.
Definition clear_body (c : clearing) : result clearing :=
  t ← set_review (table c) (num c) 0 0;
  t ← set_review t (num c) 1 0;
  t ← set_review t (num c) 2 0;
  Ok (mk_clearing (k c + 1) 0 t 0).
Definition clear_readings (m : monitor) : result monitor :=
  c ← while_loop (S (S (Z.to_nat (number m)))) (fun c => k c <? num c + 1) clear_body
        (mk_clearing 0 (number m) (review_buf m) (buf m));
  Ok (mk_monitor (n m) (i m) (dht11_data m) (dht11_result m) (table c) (num c)
        0 (cursor c) (beep_value3 m) (ADC_Value m) (shown m) (dev m)).

(** One iteration of the loop of [dht11_handle]; [k1], [k2] and [k3] are what
    its three reads of [PS2_KEY] give. *)
Definition dht11_body (k1 k2 k3 : Z) (m : monitor) : result monitor :=
  m ← check_readings m;
  m ← poll_sensor m;
  m ← (if k1 =? 13 then save_reading m else Ok m);
  m ← (if k2 =? 12 then
         Ok (mk_monitor (n m) (i m) (dht11_data m) (dht11_result m) (review_buf m) (number m)
               1 (buf m) (beep_value3 m) (ADC_Value m) (shown m) (dev m))
       else if k3 =? 10 then clear_readings m
       else Ok m);
  Ok (mk_monitor (n m) (i m) (dht11_data m) (dht11_result m) (review_buf m) (number m)
        (key_flag m) (buf m) (beep_value3 m) (ADC_Value m) (shown m) (delay_ms 100 (dev m))).

(** ** The sensor *)

(** A bit on the wire: the time the line is low, and the time it is high then. *)
Definition pulse : Type := bool * Z * Z.
Definition bit_of (p : pulse) : bool := fst (fst p).

(** The level between two times. *)
Definition level_is (w : wire) (l t u : Z) : Prop := forall x, t <= x < u -> line w x = l.

(** The pulses on the line from the time [t], and a last low of [gap]. *)
Fixpoint sends (w : wire) (gap t : Z) (l : list pulse) : Prop :=
  match l with
  | [] => level_is w 0 t (t + gap)
  | (_, lo, hi) :: l =>
      level_is w 0 t (t + lo) /\ level_is w 1 (t + lo) (t + lo + hi) /\ sends w gap (t + lo + hi) l
  end.
(** When the last high of them ends. *)
Definition ends_at (t : Z) (l : list pulse) : Z := foldl (fun t '(_, lo, hi) => t + lo + hi) t l.

(** The bounds of the times: of a reading, and of the surplus of a delay. *)
Record paced (w : wire) (least most over over' : Z) : Prop := {
  pa_least : 0 < least;
  pa_cost t : least <= cost w t <= most;
  pa_over : 0 <= over;
  pa_extra t : over <= extra w t <= over' }.

(** The delay before the line is looked at again, and the longest time until it is
    seen from the beginning of the pulse, less one reading. *)
Definition DELAY : Z := 1000 * (50 / 2).
Definition gap_of (most over' : Z) : Z := DELAY + over' + most.

(** A pulse the driver can read: short ones end before the delay, long ones last
    longer than it, and the line is low between them long enough. *)
Definition readable (w : wire) (least most over over' : Z) (p : pulse) : Prop :=
  let '(b, lo, hi) := p in
  gap_of most over' <= lo <= Z.of_nat (patience w) * least /\
  if b : bool then gap_of most over' + most <= hi <= Z.of_nat (patience w) * least
  else most <= hi <= DELAY + over.

Definition of_bits (l : list bool) : Z := foldl (fun a b => 2 * a + Z.b2z b) 0 l.

(** A wait that began in time ends with the first reading behind the edge. *)
Lemma wait_edge w least most over over' fuel (level : bool) T t h :
  paced w least most over over' -> t < T -> T - t <= Z.of_nat fuel * least ->
  level_is w (Z.b2z level) t T -> level_is w (Z.b2z (negb level)) T (T + most) ->
  exists t' h', wait fuel level (mk_sensor w t h) = Ok (mk_sensor w t' h') /\ T <= t' < T + most.
Proof.
  intros [Hl Hc _ _]. revert t h. induction fuel as [|fuel IH]; intros t h Ht Hf H1 H2; [lia|].
  pose proof (Hc t). cbn [wait DHT11_DQ_IN wire_of now hist]. destruct (decide (t + cost w t < T)) as [Hlt|Hge].
  - rewrite (H1 (t + cost w t)) by lia.
    replace (Bool.eqb (negb (Z.b2z level =? 0)) level) with true by (by destruct level).
    apply IH; [lia|lia| |done]. intros x Hx. apply H1. lia.
  - rewrite (H2 (t + cost w t)) by lia.
    replace (Bool.eqb (negb (Z.b2z (negb level) =? 0)) level) with false by (by destruct level).
    eexists _, _. split; [done|lia].
Qed.

Lemma shifted_bit v t : 0 <= t < 2 -> Z.lor (u8 (Z.shiftl v 1)) t = u8 (2 * v + t).
Proof.
  intros Ht. rewrite Z.shiftl_mul_pow2 by lia. change (2 ^ 1) with 2. unfold u8.
  change (2 ^ 8) with 256.
  replace ((2 * v + t) mod 256) with ((v * 2) mod 256 + t) by zmod.
  destruct (decide (t = 0)) as [->|]; [by rewrite Z.lor_0_r, Z.add_0_r|].
  replace t with 1 by lia. rewrite <- Z.lxor_lor, <- Z.add_nocarry_lxor; [done|..];
    (change 1 with (Z.ones 1); rewrite Z.land_ones by lia; zmod).
Qed.

Lemma of_bits_snoc l b : of_bits (l ++ [b]) = 2 * of_bits l + Z.b2z b.
Proof. unfold of_bits. by rewrite foldl_app. Qed.

Lemma of_bits_range l : 0 <= of_bits l < 2 ^ Z.of_nat (length l).
Proof.
  induction l as [|b l IH] using rev_ind; [done|]. rewrite of_bits_snoc, length_app. cbn [length].
  rewrite Nat2Z.inj_add, Z.pow_add_r by lia. change (2 ^ Z.of_nat 1) with 2. destruct b; cbn [Z.b2z]; lia.
Qed.

Section Reading.
Context (w : wire) (least most over over' : Z) (P : paced w least most over over').
Notation gap := (gap_of most over').
Notation readable := (readable w least most over over').
Notation sends := (sends w gap).

(** The thread has seen the line low: the low began at [t]. *)
Definition at_low (t : Z) (s : sensor) : Prop := wire_of s = w /\ t <= now s < t + gap.

Lemma over_nonneg : 0 <= over <= over'.
Proof using P. pose proof (pa_extra _ _ _ _ _ P 0). pose proof (pa_over _ _ _ _ _ P). lia. Qed.
Lemma most_positive : 0 < most.
Proof using P. pose proof (pa_cost _ _ _ _ _ P 0). pose proof (pa_least _ _ _ _ _ P). lia. Qed.

Lemma sends_low t l : Forall readable l -> sends t l -> level_is w 0 t (t + gap).
Proof using Type.
  intros Hr. destruct Hr as [|[[b lo] hi] l [H _] _]; [done|]. intros (Hl & _) x Hx. apply Hl. lia.
Qed.
Lemma sends_app t l l' : Forall readable l' -> sends t (l ++ l') -> sends t l /\ sends (ends_at t l) l'.
Proof using Type.
  intros Hr. revert t. induction l as [|[[b lo] hi] l IH]; intros t; cbn [app Dht11.sends ends_at foldl].
  - intros H. split; [|done]. by eapply sends_low.
  - intros (H1 & H2 & H3%IH). tauto.
Qed.

Lemma read_bit_pulse v b lo hi t l s :
  readable (b, lo, hi) -> Forall readable l -> sends t ((b, lo, hi) :: l) -> at_low t s ->
  exists s', dht11_read_bit v s = Ok (u8 (2 * v + Z.b2z b), s') /\ at_low (t + lo + hi) s'.
Proof using P.
  intros [Hlo Hhi] Hr (S1 & S2 & S3%sends_low) (Hw & Hn); [|done].
  pose proof over_nonneg as Ho. pose proof most_positive as Hm. unfold gap_of in *.
  assert (0 <= DELAY) as HD by done. assert (most <= hi) as Hh by (destruct b; lia).
  destruct s as [w' t0 h]. cbn in Hw, Hn. subst w'. unfold dht11_read_bit, while_low. cbn [wire_of].
  destruct (wait_edge w least most over over' (patience w) false (t + lo) t0 h P) as (t1 & h1 & -> & H1); [lia|lia| | |].
  { intros x Hx. apply S1. lia. }
  { intros x Hx. apply S2. lia. }
  cbn [mbind result_bind]. unfold delay_us, sleep, with_hist. cbn [wire_of now hist]. fold DELAY.
  set (t2 := t1 + DELAY + extra w t1). pose proof (pa_extra _ _ _ _ _ P t1). unfold DHT11_DQ_IN. cbn [wire_of now hist].
  pose proof (pa_cost _ _ _ _ _ P t2). pose proof (pa_least _ _ _ _ _ P). set (t3 := t2 + cost w t2).
  assert (t + lo + DELAY + over < t3 < t + lo + DELAY + over' + most + most) as H3 by lia. clearbody t3.
  destruct b.
  - rewrite (S2 t3) by lia. change (1 =? 1) with true. cbv match. unfold while_high. cbn [wire_of].
    destruct (wait_edge w least most over over' (patience w) true (t + lo + hi) t3
      (PinRead DHT11_PIN 1 :: rt_hw_us_delay (50 / 2) h1) P) as (t4 & h4 & E4 & H4); [lia|lia| | |].
    { intros x Hx. apply S2. lia. }
    { intros x Hx. apply S3. lia. }
    rewrite E4. cbn [mbind result_bind]. rewrite shifted_bit by lia. eexists. split; [done|]. split; [done|]. unfold gap_of. cbn. lia.
  - rewrite (S3 t3) by lia. change (0 =? 1) with false. cbv match. cbn [mbind result_bind]. rewrite shifted_bit by lia.
    eexists. split; [done|]. split; [done|]. unfold gap_of. cbn. lia.
Qed.

Lemma read_bits_pulses pre bits t s :
  (length pre + length bits <= 8)%nat -> Forall readable bits -> sends t bits -> at_low t s ->
  exists s', read_bits (length bits) (of_bits pre) s = Ok (of_bits (pre ++ (bit_of <$> bits)), s') /\ at_low (ends_at t bits) s'.
Proof using P.
  intros Hl Hr. revert pre t s Hl. induction Hr as [|[[b lo] hi] bits Hp Hr IH]; intros pre t s Hl Hs Ha.
  { exists s. cbn. by rewrite app_nil_r. }
  destruct (read_bit_pulse (of_bits pre) b lo hi t bits s) as (s1 & E1 & Ha1); [done..|].
  cbn [length read_bits fmap list_fmap bit_of fst]. rewrite E1. cbn [mbind result_bind]. rewrite <- of_bits_snoc.
  assert (2 ^ Z.of_nat (length (pre ++ [b])) <= 2 ^ 8) as Hb.
  { apply Z.pow_le_mono_r; [lia|]. rewrite length_app. cbn in *. lia. }
  pose proof (of_bits_range (pre ++ [b])) as Hb'. rewrite u8_small by lia. destruct Hs as (_ & _ & Hs).
  destruct (IH (pre ++ [b]) (t + lo + hi) s1) as (s2 & E2 & Ha2); [rewrite length_app; cbn in *; lia|done|done|].
  exists s2. rewrite E2. by rewrite <- app_assoc.
Qed.
Lemma read_byte_pulses bits t s :
  length bits = 8%nat -> Forall readable bits -> sends t bits -> at_low t s ->
  exists s', dht11_read_byte s = Ok (of_bits (bit_of <$> bits), s') /\ at_low (ends_at t bits) s'.
Proof using P. intros Hl. unfold dht11_read_byte. rewrite <- Hl. apply (read_bits_pulses []). cbn. lia. Qed.

(** The bytes of an answer. *)
Definition byte_of (bits : list pulse) : Z := of_bits (bit_of <$> bits).

Lemma read_data_pulses bytes done data t s :
  Forall (fun bits => length bits = 8%nat) bytes -> Forall readable (mjoin bytes) ->
  sends t (mjoin bytes) -> at_low t s ->
  length data = (length done + length bytes)%nat -> take (length done) data = done ->
  exists s', read_data (length bytes) (Z.of_nat (length done)) data s = Ok (done ++ (byte_of <$> bytes), s') /\
             at_low (ends_at t (mjoin bytes)) s'.
Proof using P.
  intros Hb. revert done data t s. induction Hb as [|bits bytes Hl _ IH]; intros done data t s Hr Hs Ha Hlen Hd.
  { exists s. cbn in *. rewrite app_nil_r, <- Hd. split; [|done]. do 2 f_equal. by rewrite firstn_all2 by lia. }
  cbn [mjoin list_join] in Hr, Hs |- *. apply Forall_app in Hr as [Hr1 Hr2]. apply sends_app in Hs as [Hs1 Hs2]; [|done].
  destruct (read_byte_pulses bits t s) as (s1 & E1 & Ha1); [done..|].
  cbn [length read_data fmap list_fmap]. rewrite E1. cbn [mbind result_bind length] in *. rewrite aset_Ok by lia.
  cbn [mbind result_bind]. rewrite Nat2Z.id. fold (byte_of bits).
  destruct (IH (done ++ [byte_of bits]) (<[length done := byte_of bits]> data) (ends_at t bits) s1) as (s2 & E2 & Ha2); [done..| | |].
  - rewrite length_insert, length_app. cbn. lia.
  - rewrite length_app. cbn. rewrite Nat.add_1_r.
    rewrite (take_S_r _ _ (byte_of bits)) by (apply list_lookup_insert_eq; lia).
    by rewrite take_insert_ge, Hd by lia.
  - exists s2. rewrite length_app in E2. cbn [length] in E2. rewrite Nat2Z.inj_add in E2.
    change (Z.of_nat 1) with 1 in E2. rewrite E2. split; [by rewrite <- app_assoc|].
    unfold ends_at in *. by rewrite foldl_app.
Qed.

(** The answer to the start signal: the sensor leaves the line high until [a], low
    until [b], high until [c]. *)
Lemma start_spec a b c s :
  wire_of s = w -> now (delay_ms 20 s) < a -> a + most <= b -> b + most <= c ->
  a - now (delay_ms 20 s) <= Z.of_nat (patience w) * least -> b - a <= Z.of_nat (patience w) * least ->
  c - b <= Z.of_nat (patience w) * least ->
  level_is w 1 (now (delay_ms 20 s)) a -> level_is w 0 a b -> level_is w 1 b c -> level_is w 0 c (c + gap) ->
  exists s', dht11_start s = Ok s' /\ at_low c s'.
Proof using P.
  destruct s as [w' t0 h]. cbn [wire_of]. intros -> Ha Hb Hc Fa Fb Fc L1 L2 L3 L4. pose proof most_positive as Hm. pose proof over_nonneg as Ho.
  assert (most <= gap) as Hg by (unfold gap_of; change DELAY with 25000; lia).
  unfold dht11_start, dht11_gpio_output, dht11_gpio_input, DHT11_DQ_OUT, delay_ms, sleep, with_hist, while_high, while_low in *.
  cbn [wire_of now hist] in *. set (t1 := t0 + 1000000 * 20 + extra w t0) in *. cbn [Z.eqb].
  match goal with |- context [mk_sensor w t1 ?h0] => set (h1 := h0) end.
  destruct (wait_edge w least most over over' (patience w) true a t1 h1 P) as (t2 & h2 & E2 & H2); [done|lia|done| |].
  { intros x Hx. apply L2. lia. }
  rewrite E2. cbn [mbind result_bind wire_of].
  destruct (wait_edge w least most over over' (patience w) false b t2 h2 P) as (t3 & h3 & E3 & H3); [lia|lia| | |].
  { intros x Hx. apply L2. lia. }
  { intros x Hx. apply L3. lia. }
  rewrite E3. cbn [mbind result_bind wire_of].
  destruct (wait_edge w least most over over' (patience w) true c t3 h3 P) as (t4 & h4 & E4 & H4); [lia|lia| | |].
  { intros x Hx. apply L3. lia. }
  { intros x Hx. apply L4. lia. }
  rewrite E4. eexists. split; [done|]. split; [done|]. cbn. lia.
Qed.

(** A whole answer.  The five bytes the sensor sends end up in [dht11_data] whatever
    they are; the four values are handed on exactly when their plain sum is the
    fifth byte, and otherwise the result is as before. *)
Lemma dht11_read_answer bytes a b c result0 data s :
  Forall (fun bits => length bits = 8%nat) bytes -> length bytes = 5%nat -> Forall readable (mjoin bytes) ->
  wire_of s = w -> now (delay_ms 20 s) < a -> a + most <= b -> b + most <= c ->
  a - now (delay_ms 20 s) <= Z.of_nat (patience w) * least -> b - a <= Z.of_nat (patience w) * least ->
  c - b <= Z.of_nat (patience w) * least ->
  level_is w 1 (now (delay_ms 20 s)) a -> level_is w 0 a b -> level_is w 1 b c -> sends c (mjoin bytes) ->
  length data = 5%nat -> length result0 = 4%nat ->
  exists b0 b1 b2 b3 b4 s', byte_of <$> bytes = [b0; b1; b2; b3; b4] /\
    dht11_read result0 data s =
      Ok (if b0 + b1 + b2 + b3 =? b4 then [b0; b1; b2; b3] else result0, [b0; b1; b2; b3; b4], s').
Proof using P.
  intros Hb H5 Hr Hw Ha Hab Hbc Fa Fb Fc L1 L2 L3 Hs Hd Hres. pose proof (sends_low _ _ Hr Hs) as L4.
  destruct (start_spec a b c s) as (s1 & E1 & A1); [done..|]. unfold dht11_read. rewrite E1. cbn [mbind result_bind].
  destruct (read_data_pulses bytes [] data c (dht11_gpio_input s1)) as (s2 & E2 & _); try done; [by rewrite Hd, H5|].
  rewrite H5 in E2. cbn [length app] in E2. change (Z.of_nat 0) with 0 in E2. rewrite E2. cbn [mbind result_bind].
  do 6 (destruct bytes as [|? bytes]; try discriminate). cbn [fmap list_fmap].
  set (x0 := byte_of l). set (x1 := byte_of l0). set (x2 := byte_of l1). set (x3 := byte_of l2). set (x4 := byte_of l3).
  exists x0, x1, x2, x3, x4, s2. split; [done|]. clearbody x0 x1 x2 x3 x4. clear -Hres.
  change (aget [x0; x1; x2; x3; x4] 0) with (Ok x0). change (aget [x0; x1; x2; x3; x4] 1) with (Ok x1).
  change (aget [x0; x1; x2; x3; x4] 2) with (Ok x2). change (aget [x0; x1; x2; x3; x4] 3) with (Ok x3).
  change (aget [x0; x1; x2; x3; x4] 4) with (Ok x4). cbn [mbind result_bind].
  destruct (x0 + x1 + x2 + x3 =? x4); [|reflexivity].
  rewrite acopy_Ok by (rewrite ?Hres; cbn; lia). cbn [mbind result_bind].
  rewrite (skipn_all2 result0) by lia. reflexivity.
Qed.
End Reading.

(** ** Properties: the sensor *)

(** C13: A byte the sensor sends is read back, first bit highest.  A reading of the pin
    takes between [least] and [most] nanoseconds, a delay between [over] and [over']
    longer than asked, at each time as it comes; the thread comes while the line is
    low.  The short pulses of the zeros last at least a reading and at most the delay
    of 25 us; the long ones of the ones, and the low line between the pulses, outlast
    the delay by the time of the readings.  Then every wait ends, the eight bits are
    those sent, and the thread has seen the low line behind the last pulse. *)
Theorem dht11_read_byte_roundtrip (w : wire) (least most over over' : Z) (bits : list pulse) (t t0 : Z) (h : history) :
  paced w least most over over' -> length bits = 8%nat -> Forall (readable w least most over over') bits ->
  sends w (gap_of most over') t bits -> t <= t0 < t + gap_of most over' ->
  exists t1 h', dht11_read_byte (mk_sensor w t0 h) = Ok (of_bits (bit_of <$> bits), mk_sensor w t1 h') /\
    ends_at t bits <= t1 < ends_at t bits + gap_of most over'.
Proof.
  intros P Hl Hr Hs Ht.
  destruct (read_byte_pulses w least most over over' P bits t (mk_sensor w t0 h)) as ([w1 t1 h'] & E & Hw & Ht1); try done.
  cbn in Hw. subst w1. by exists t1, h'.
Qed.

(** A line that is high when the pulses say so. *)
Fixpoint line_of (t : Z) (l : list pulse) (x : Z) : Z :=
  match l with
  | [] => 0
  | (_, lo, hi) :: l => if x <? t + lo then 0 else if x <? t + lo + hi then 1 else line_of (t + lo + hi) l x
  end.
Lemma line_of_low l t x : Forall (fun '(_, lo, hi) => 0 <= lo /\ 0 <= hi) l -> x < t -> line_of t l x = 0.
Proof. intros H. destruct H as [|[[b lo] hi] l [Hl Hh] _]; intros Hx; cbn; [done|]. by replace (x <? t + lo) with true by lia. Qed.
Lemma line_of_sends w gap l t :
  Forall (fun '(_, lo, hi) => 0 <= lo /\ 0 <= hi) l -> (forall x, t <= x -> line w x = line_of t l x) -> sends w gap t l.
Proof.
  intros H. revert t. induction H as [|[[b lo] hi] l [Hl Hh] H IH]; intros t Hx; cbn [sends].
  - intros x Hb. apply Hx. lia.
  - split_and!.
    + intros x Hb. rewrite Hx by lia. cbn. by replace (x <? t + lo) with true by lia.
    + intros x Hb. rewrite Hx by lia. cbn. replace (x <? t + lo) with false by lia. by replace (x <? t + lo + hi) with true by lia.
    + apply IH. intros x Hb. rewrite Hx by lia. cbn. replace (x <? t + lo) with false by lia. by replace (x <? t + lo + hi) with false by lia.
Qed.

(** Lows of 50 us, highs of 24 us for zeros and 70 us for ones; a reading takes from
    200 to 500 ns. *)
Definition sample_bits : list pulse :=
  (fun b : bool => (b, 50000, if b then 70000 else 24000)) <$> [true; false; true; true; false; false; true; false].
Definition sample_wire (l : list pulse) : wire := mk_wire (line_of 0 l) (fun t => if Z.even t then 200 else 500) (fun _ => 0) 500.
Lemma sample_paced l : paced (sample_wire l) 200 500 0 0.
Proof. split; [lia| |lia|done]. intros t. cbn. destruct (Z.even t); lia. Qed.

Lemma dht11_read_byte_roundtrip_witness :
  exists t1 h', dht11_read_byte (mk_sensor (sample_wire sample_bits) 0 []) =
      Ok (178, mk_sensor (sample_wire sample_bits) t1 h') /\
    ends_at 0 sample_bits <= t1 < ends_at 0 sample_bits + gap_of 500 0.
Proof.
  apply (dht11_read_byte_roundtrip (sample_wire sample_bits) 200 500 0 0 sample_bits 0 0 []).
  - apply sample_paced.
  - reflexivity.
  - repeat (constructor; [vm_compute; repeat split; discriminate|]). constructor.
  - apply line_of_sends; [|done]. repeat (constructor; [split; discriminate|]). constructor.
  - vm_compute. split; [discriminate|reflexivity].
Defined.

(** A zero of 27 us, in the middle of what the sensor may send, is read as a one when
    the delay takes no longer than asked: [delay_us(50)] asks for 25 us. *)
Definition zero_bits : list pulse := replicate 8 (false, 50000, 27000).
Lemma short_delay_misreads :
  match dht11_read_byte (mk_sensor (sample_wire zero_bits) 0 []) with Ok (b, _) => b = 255 | Fault _ => False end.
Proof. vm_compute. reflexivity. Qed.
(** With 50 us it would be a zero. *)
Lemma full_delay_reads t :
  0 <= t < 500 -> line_of 0 zero_bits (50000 + t) = 1 /\ line_of 0 zero_bits (50000 + t + 50000) = 0.
Proof.
  intros Ht. unfold zero_bits. cbn [replicate line_of].
  split; repeat (match goal with |- context [?a <? ?b] => destruct (Z.ltb_spec a b); [try lia|try lia] end); done.
Qed.

(** The sensor's checksum is the sum modulo 256; the test compares the plain
    sum, so that an answer whose sum is 256 or more is never accepted. *)
Lemma large_sum_rejected b0 b1 b2 b3 b4 :
  b4 = u8 (b0 + b1 + b2 + b3) -> 256 <= b0 + b1 + b2 + b3 -> (b0 + b1 + b2 + b3 =? b4) = false.
Proof. intros -> H. pose proof (u8_range (b0 + b1 + b2 + b3)). lia. Qed.

(** ** Properties: the saved readings *)

Definition table_ok (t : list (list Z)) : Prop :=
  length t = 20%nat /\ Forall (fun row => length row = 3%nat) t.

Lemma set_review_Ok t r c v :
  table_ok t -> 0 <= r < 20 -> 0 <= c < 3 ->
  exists row, t !! Z.to_nat r = Some row /\
    set_review t r c v = Ok (<[Z.to_nat r := <[Z.to_nat c := v]> row]> t) /\
    table_ok (<[Z.to_nat r := <[Z.to_nat c := v]> row]> t).
Proof.
  intros [Hl Hf] Hr Hc. destruct (lookup_lt_is_Some_2 t (Z.to_nat r)) as [row Hrow]; [lia|].
  assert (length row = 3%nat) as H3 by (by eapply (Forall_lookup_1 _ _ _ _ Hf)).
  exists row. split; [done|]. unfold set_review. rewrite (aget_Ok _ _ row) by (done || lia).
  cbn [mbind result_bind]. rewrite aset_Ok by lia. cbn [mbind result_bind].
  rewrite aset_Ok by lia. split; [done|]. split; [by rewrite length_insert|].
  apply Forall_insert; [done|]. by rewrite length_insert.
Qed.

(** Clearing one row through three writes. *)
Lemma clear_row t r :
  table_ok t -> 0 <= r < 20 ->
  exists t1 t2, set_review t r 0 0 = Ok t1 /\ set_review t1 r 1 0 = Ok t2 /\
    set_review t2 r 2 0 = Ok (<[Z.to_nat r := [0; 0; 0]]> t) /\
    table_ok (<[Z.to_nat r := [0; 0; 0]]> t).
Proof.
  intros Ht Hr. assert (Z.to_nat r < length t)%nat as Hlt by (destruct Ht; lia).
  destruct (set_review_Ok t r 0 0 Ht Hr) as (row & Hrow & E0 & T0); [lia|].
  destruct (set_review_Ok _ r 1 0 T0 Hr) as (row1 & Hrow1 & E1 & T1); [lia|].
  destruct (set_review_Ok _ r 2 0 T1 Hr) as (row2 & Hrow2 & E2 & T2); [lia|].
  rewrite list_lookup_insert_eq in Hrow1 by lia. injection Hrow1 as <-.
  rewrite list_lookup_insert_eq in Hrow2 by (rewrite length_insert; lia). injection Hrow2 as <-.
  rewrite !list_insert_insert_eq in *.
  assert (length row = 3%nat) as H3 by (by eapply (Forall_lookup_1 _ _ _ _ (proj2 Ht))).
  do 4 (destruct row as [|? row]; try discriminate). eauto 10.
Qed.

(** Clearing the table (key 10) with [number] readings saved zeroes only
    the row [number], the one after the readings, and resets the counters: the
    loop ends after one round because it resets its own bound, and every
    saved reading is still in the table. *)
Lemma clear_keeps_readings (m : monitor) :
  table_ok (review_buf m) -> 0 <= number m < 20 ->
  exists m', clear_readings m = Ok m' /\ number m' = 0 /\ buf m' = 0 /\ key_flag m' = 0 /\
    review_buf m' = <[Z.to_nat (number m) := [0; 0; 0]]> (review_buf m) /\
    forall r, 0 <= r < number m -> review_buf m' !! Z.to_nat r = review_buf m !! Z.to_nat r.
Proof.
  intros Ht Hn. unfold clear_readings.
  destruct (clear_row (review_buf m) (number m) Ht Hn) as (t1 & t2 & E0 & E1 & E2 & _).
  rewrite while_loop_step with (s' := mk_clearing 1 0 (<[Z.to_nat (number m) := [0; 0; 0]]> (review_buf m)) 0).
  - rewrite while_loop_done by done. cbn [mbind result_bind].
    eexists. split; [reflexivity|]. cbn [number buf key_flag review_buf num cursor table].
    split_and!; try done. intros r Hr. apply list_lookup_insert_ne. lia.
  - cbn [k num]. lia.
  - unfold clear_body. cbn [k num table]. rewrite E0. cbn [mbind result_bind]. rewrite E1.
    cbn [mbind result_bind]. by rewrite E2.
Qed.

Definition sample_monitor : monitor :=
  mk_monitor 0 0 [60; 0; 25; 3; 88] (replicate 4 0) (replicate 20 [9; 9; 9]) 3 1 2 0 [0] []
    (mk_sensor (sample_wire []) 0 []).

Lemma clear_keeps_readings_witness :
  exists m', clear_readings sample_monitor = Ok m' /\ number m' = 0 /\ buf m' = 0 /\ key_flag m' = 0 /\
    review_buf m' = <[Z.to_nat 3 := [0; 0; 0]]> (replicate 20 [9; 9; 9]) /\
    forall r, 0 <= r < 3 -> review_buf m' !! Z.to_nat r = (replicate 20 [9; 9; 9]) !! Z.to_nat r.
Proof.
  apply (clear_keeps_readings sample_monitor); [|cbn; lia].
  split; [reflexivity|]. apply Forall_replicate. reflexivity.
Defined.

(** Saving a reading (key 13) reads past the end of [ADC_Value], which has one
    element: the run is outside what C defines, whatever the state. *)
Lemma save_out_of_bounds m :
  length (ADC_Value m) = 1%nat -> length (dht11_data m) = 5%nat -> table_ok (review_buf m) ->
  0 <= number m < 20 -> save_reading m = Fault OutOfBounds.
Proof.
  intros Ha Hd Ht Hn. unfold save_reading.
  destruct (dht11_data m) as [|d0 [|d1 [|d2 [|d3 [|d4 [|]]]]]]; try discriminate.
  destruct (set_review_Ok (review_buf m) (number m) 0 (u8 (d2 * 10 + d3)) Ht Hn)
    as (row & _ & E1 & T1); [lia|].
  destruct (set_review_Ok _ (number m) 1 (u8 (d0 * 10 + d1)) T1 Hn) as (row1 & _ & E2 & _); [lia|].
  set (l := [d0; d1; d2; d3; d4]).
  assert (aget l 0 = Ok d0 /\ aget l 1 = Ok d1 /\ aget l 2 = Ok d2 /\ aget l 3 = Ok d3)
    as (-> & -> & -> & ->) by done.
  cbn [mbind result_bind]. rewrite E1. cbn [mbind result_bind]. rewrite E2. cbn [mbind result_bind].
  by destruct (ADC_Value m) as [|v [|]].
Qed.

End Dht11.
