(* ===== verification/Timer.v ===== *)
(** * The kernel timers (rt-thread/src/timer.c, clock.c)

    Timers wait in a list sorted by expiry, one list for the timers that fire in
    the tick interrupt and one for those that fire in the timer thread.  A list
    of the source is the sequence of its members; a timer's node is in at most
    one of the four lists (the two above, and the private lists of the two
    checks while they run).  The state around the timers, which the timeout
    functions change, is behind the interface [TimerHost].

    The theorems: starting a timer keeps the list sorted by the time left, also
    across the wrap-around of the tick, behind the timers with the same expiry.
    When the timeout functions leave the timers alone (section [Fire]), a check at
    every tick fires the timers that are due and re-arms the periodic ones; the file
    [TimerCheck] has late checks and timeout functions that call timers. *)

From Stdlib Require Import Sorted.
From stdpp Require Import functions.
From S2P Require Import Prelude.

Module Timer.

Definition RT_TICK_MAX : Z := 0xffffffff.
Definition RT_EOK : Z := 0.
Definition RT_ERROR : Z := 1.

Definition RT_TIMER_FLAG_DEACTIVATED : Z := 0x0.
Definition RT_TIMER_FLAG_ACTIVATED : Z := 0x1.
Definition RT_TIMER_FLAG_ONE_SHOT : Z := 0x0.
Definition RT_TIMER_FLAG_PERIODIC : Z := 0x2.
Definition RT_TIMER_FLAG_HARD_TIMER : Z := 0x0.
Definition RT_TIMER_FLAG_SOFT_TIMER : Z := 0x4.

Definition RT_TIMER_CTRL_SET_TIME : Z := 0x0.
Definition RT_TIMER_CTRL_GET_TIME : Z := 0x1.
Definition RT_TIMER_CTRL_SET_ONESHOT : Z := 0x2.
Definition RT_TIMER_CTRL_SET_PERIODIC : Z := 0x3.
Definition RT_TIMER_CTRL_GET_STATE : Z := 0x4.
Definition RT_TIMER_CTRL_GET_REMAIN_TIME : Z := 0x5.

(** ** State *)

(** A timer; its timeout function is part of the host. *)
Record rt_timer := mk_timer { flag : Z; init_tick : Z; timeout_tick : Z }.

Definition set_flag (f : Z) (t : rt_timer) : rt_timer := mk_timer f (init_tick t) (timeout_tick t).
Definition clear_bits (x b : Z) : Z := Z.land x (u8 (Z.lnot b)).
Definition has_flag (b : Z) (t : rt_timer) : bool := negb (Z.land (flag t) b =? 0).

Section Timers.
(** The timers have identifiers of any type. *)
Context {I : Type} `{EqDecision I}.

Record timers := mk_timers {
  rt_tick : Z;
  timer : I -> rt_timer;
  _timer_list : list I;
  _soft_timer_list : list I;
  check_list : list I;        (** [list] of [rt_timer_check] *)
  soft_check_list : list I;   (** [list] of [rt_soft_timer_check] *)
  _soft_timer_busy : bool }.

Definition with_timer (f : rt_timer -> rt_timer) (i : I) (s : timers) : timers :=
  mk_timers (rt_tick s) (<[i := f (timer s i)]> (timer s)) (_timer_list s) (_soft_timer_list s)
    (check_list s) (soft_check_list s) (_soft_timer_busy s).
Definition with_list (f : list I -> list I) (s : timers) : timers :=
  mk_timers (rt_tick s) (timer s) (f (_timer_list s)) (_soft_timer_list s)
    (check_list s) (soft_check_list s) (_soft_timer_busy s).
Definition with_soft_list (f : list I -> list I) (s : timers) : timers :=
  mk_timers (rt_tick s) (timer s) (_timer_list s) (f (_soft_timer_list s))
    (check_list s) (soft_check_list s) (_soft_timer_busy s).
Definition with_check_list (f : list I -> list I) (s : timers) : timers :=
  mk_timers (rt_tick s) (timer s) (_timer_list s) (_soft_timer_list s)
    (f (check_list s)) (soft_check_list s) (_soft_timer_busy s).
Definition with_soft_check_list (f : list I -> list I) (s : timers) : timers :=
  mk_timers (rt_tick s) (timer s) (_timer_list s) (_soft_timer_list s)
    (check_list s) (f (soft_check_list s)) (_soft_timer_busy s).
Definition set_busy (b : bool) (s : timers) : timers :=
  mk_timers (rt_tick s) (timer s) (_timer_list s) (_soft_timer_list s)
    (check_list s) (soft_check_list s) b.

(** ** Clock (clock.c) *)

Definition rt_tick_get (s : timers) : Z := rt_tick s.
Definition rt_tick_set (tick : Z) (s : timers) : timers :=
  mk_timers tick (timer s) (_timer_list s) (_soft_timer_list s)
    (check_list s) (soft_check_list s) (_soft_timer_busy s).

(** ** Operations on one timer *)

Definition rt_timer_init (i : I) (time : Z) (fl : Z) (s : timers) : result timers :=
  _ ← rt_assert (time <? RT_TICK_MAX / 2);
  Ok (with_timer (fun _ => mk_timer (clear_bits fl RT_TIMER_FLAG_ACTIVATED) time 0) i s).

(** [rt_list_remove] on the node of the timer: it leaves the list it is in. *)
Definition del (i : I) (l : list I) : list I := filter (fun x => x <> i) l.
Definition _timer_remove (i : I) (s : timers) : timers :=
  with_soft_check_list (del i) (with_check_list (del i)
    (with_soft_list (del i) (with_list (del i) s))).

Definition deactivate (i : I) : timers -> timers :=
  with_timer (fun t => set_flag (clear_bits (flag t) RT_TIMER_FLAG_ACTIVATED) t) i.
Definition activate (i : I) : timers -> timers :=
  with_timer (fun t => set_flag (Z.lor (flag t) RT_TIMER_FLAG_ACTIVATED) t) i.

(** The search of [rt_timer_start] for the place of a timer that expires at
    [tick], and the insertion there. *)
Fixpoint timer_insert (tm : I -> rt_timer) (i : I) (tick : Z) (l : list I) : list I :=
  match l with
  | [] => [i]
  | t :: l' =>
      let d := u32 (timeout_tick (tm t) - tick) in
      if d =? 0 then t :: timer_insert tm i tick l'
      else if d <? RT_TICK_MAX / 2 then i :: l
      else t :: timer_insert tm i tick l'
  end.

(** [rt_timer_start] up to the check of the timer thread. *)
Definition timer_arm (i : I) (s : timers) : timers :=
  let s := deactivate i (_timer_remove i s) in
  let s := with_timer (fun t => mk_timer (flag t) (init_tick t) (u32 (rt_tick s + init_tick t))) i s in
  let put := timer_insert (timer s) i (timeout_tick (timer s i)) in
  let s := if has_flag RT_TIMER_FLAG_SOFT_TIMER (timer s i) then with_soft_list put s
           else with_list put s in
  activate i s.

Definition rt_timer_stop (i : I) (s : timers) : Z * timers :=
  if has_flag RT_TIMER_FLAG_ACTIVATED (timer s i)
  then (RT_EOK, deactivate i (_timer_remove i s))
  else (- RT_ERROR, s).

Definition rt_timer_detach (i : I) (s : timers) : timers := deactivate i (_timer_remove i s).

(** [rt_timer_control]: [arg] is the word the argument points to; the result is
    the word after the call. *)
Definition rt_timer_control (i : I) (cmd arg : Z) (s : timers) : result (Z * timers) :=
  if cmd =? RT_TIMER_CTRL_GET_TIME then Ok (init_tick (timer s i), s)
  else if cmd =? RT_TIMER_CTRL_SET_TIME then
    _ ← rt_assert (arg <? RT_TICK_MAX / 2);
    Ok (arg, with_timer (fun t => mk_timer (flag t) arg (timeout_tick t)) i s)
  else if cmd =? RT_TIMER_CTRL_SET_ONESHOT then
    Ok (arg, with_timer (fun t => set_flag (clear_bits (flag t) RT_TIMER_FLAG_PERIODIC) t) i s)
  else if cmd =? RT_TIMER_CTRL_SET_PERIODIC then
    Ok (arg, with_timer (fun t => set_flag (Z.lor (flag t) RT_TIMER_FLAG_PERIODIC) t) i s)
  else if cmd =? RT_TIMER_CTRL_GET_STATE then
    let arg := if has_flag RT_TIMER_FLAG_ACTIVATED (timer s i) then RT_TIMER_FLAG_ACTIVATED
               else RT_TIMER_FLAG_DEACTIVATED in
    (* no [break]: the next case follows *)
    let arg := timeout_tick (timer s i) in
    Ok (arg, s)
  else if cmd =? RT_TIMER_CTRL_GET_REMAIN_TIME then Ok (timeout_tick (timer s i), s)
  else Ok (arg, s).

Definition _timer_list_next_timeout (l : list I) (s : timers) : option Z :=
  match l with t :: _ => Some (timeout_tick (timer s t)) | [] => None end.
Definition rt_timer_next_timeout_tick (s : timers) : Z :=
  default RT_TICK_MAX (_timer_list_next_timeout (_timer_list s) s).

Definition rt_system_timer_init (s : timers) : timers := with_list (fun _ => []) s.

End Timers.
Arguments timers I : clear implicits.

(** ** The checks, in a host *)

(** A state that holds timers.  [timeout] runs the timeout function of a timer;
    [soft_started] is the end of [rt_timer_start] for a soft timer, which may
    wake the timer thread. *)
Class TimerHost (I S : Type) := {
  timers_of : S -> timers I;
  set_timers : timers I -> S -> S;
  timeout : I -> S -> result S;
  soft_started : S -> result S }.

Section Check.
Context {I : Type} `{EqDecision I} {S : Type} `{!TimerHost I S}.

Definition upd (f : timers I -> timers I) (s : S) : S := set_timers (f (timers_of s)) s.

Definition rt_timer_start (i : I) (s : S) : result S :=
  let s := upd (timer_arm i) s in
  if has_flag RT_TIMER_FLAG_SOFT_TIMER (timer (timers_of s) i) then soft_started s else Ok s.

(** "Remove timer from timer list firstly" to the insertion in [list]. *)
Definition take_expired (put : (list I -> list I) -> timers I -> timers I) (t : I)
    (s : timers I) : timers I :=
  let s := _timer_remove t s in
  let s := if has_flag RT_TIMER_FLAG_PERIODIC (timer s t) then s else deactivate t s in
  put (cons t) s.

(** "Check whether the timer object is detached or started again": the timer
    leaves [list], and starts again when it is periodic and still active. *)
Definition finish_expired (t : I) (s : S) : result S :=
  let s := upd (_timer_remove t) s in
  if has_flag RT_TIMER_FLAG_PERIODIC (timer (timers_of s) t) &&
     has_flag RT_TIMER_FLAG_ACTIVATED (timer (timers_of s) t)
  then rt_timer_start t (upd (deactivate t) s) else Ok s.

(** The loop of [rt_timer_check]. *)
Fixpoint check_loop (fuel : nat) (current_tick : Z) (s : S) : result S :=
  match fuel with
  | O => Fault OutOfFuel
  | Datatypes.S fuel =>
      match _timer_list (timers_of s) with
      | [] => Ok s
      | t :: _ =>
          if u32 (current_tick - timeout_tick (timer (timers_of s) t)) <? RT_TICK_MAX / 2 then
            let s := upd (take_expired with_check_list t) s in
            s ← timeout t s;
            let current_tick := rt_tick_get (timers_of s) in
            s ← (match check_list (timers_of s) with
                 | [] => Ok s
                 | _ => finish_expired t s
                 end);
            check_loop fuel current_tick s
          else Ok s
      end
  end.

(** The local [list] is empty when the check starts. *)
Definition rt_timer_check (fuel : nat) (s : S) : result S :=
  let s := upd (with_check_list (fun _ => [])) s in
  check_loop fuel (rt_tick_get (timers_of s)) s.

(** The loop of [rt_soft_timer_check]. *)
Fixpoint soft_check_loop (fuel : nat) (s : S) : result S :=
  match fuel with
  | O => Fault OutOfFuel
  | Datatypes.S fuel =>
      match _soft_timer_list (timers_of s) with
      | [] => Ok s
      | t :: _ =>
          let current_tick := rt_tick_get (timers_of s) in
          if u32 (current_tick - timeout_tick (timer (timers_of s) t)) <? RT_TICK_MAX / 2 then
            let s := upd (fun s => set_busy true (take_expired with_soft_check_list t s)) s in
            s ← timeout t s;
            let s := upd (set_busy false) s in
            s ← (match soft_check_list (timers_of s) with
                 | [] => Ok s
                 | _ => finish_expired t s
                 end);
            soft_check_loop fuel s
          else Ok s
      end
  end.
Definition rt_soft_timer_check (fuel : nat) (s : S) : result S :=
  let s := upd (with_soft_check_list (fun _ => [])) s in
  soft_check_loop fuel s.
End Check.

(** ** Flags *)

Lemma flags_enum (P : Z -> Prop) f :
  0 <= f < 8 -> P 0 -> P 1 -> P 2 -> P 3 -> P 4 -> P 5 -> P 6 -> P 7 -> P f.
Proof.
  intros Hf. intros. assert (f = 0 \/ f = 1 \/ f = 2 \/ f = 3 \/ f = 4 \/ f = 5 \/ f = 6 \/ f = 7)
    as Hc by lia. by repeat destruct Hc as [->|Hc]; [..|subst f].
Qed.

Definition act (t : rt_timer) : bool := has_flag RT_TIMER_FLAG_ACTIVATED t.
Definition periodic (t : rt_timer) : bool := has_flag RT_TIMER_FLAG_PERIODIC t.
Definition soft (t : rt_timer) : bool := has_flag RT_TIMER_FLAG_SOFT_TIMER t.

Lemma clear_act f a b :
  0 <= f < 8 ->
  let t := mk_timer (clear_bits f RT_TIMER_FLAG_ACTIVATED) a b in
  0 <= flag t < 8 /\ act t = false /\ periodic t = periodic (mk_timer f a b) /\
  soft t = soft (mk_timer f a b).
Proof. intros Hf. cbn zeta. pattern f. apply flags_enum; [done|vm_compute; by split_and!..]. Qed.

Lemma set_act f a b :
  0 <= f < 8 ->
  let t := mk_timer (Z.lor f RT_TIMER_FLAG_ACTIVATED) a b in
  0 <= flag t < 8 /\ act t = true /\ periodic t = periodic (mk_timer f a b) /\
  soft t = soft (mk_timer f a b).
Proof. intros Hf. cbn zeta. pattern f. apply flags_enum; [done|vm_compute; by split_and!..]. Qed.

(** ** The invariant *)

Section Order.
Context {I : Type} `{EqDecision I}.
Implicit Types (s : timers I) (i : I) (l : list I).

(** The ticks a timer has left. *)
Definition left s i : Z := u32 (timeout_tick (timer s i) - rt_tick s).

(** Half the range of the tick, [RT_TICK_MAX / 2]. *)
Definition half : Z := 2147483647.

Record ok_list (s : timers I) (sf : bool) (l : list I) : Prop := {
  ok_nodup : NoDup l;
  ok_sorted : StronglySorted (fun a b => left s a <= left s b) l;
  ok_each : Forall (fun i => left s i < half /\ act (timer s i) = true /\
                             soft (timer s i) = sf) l }.

Record wf (s : timers I) : Prop := {
  wf_tick : 0 <= rt_tick s < 2 ^ 32;
  wf_timer : forall i, 0 <= init_tick (timer s i) < half /\ 0 <= flag (timer s i) < 8 /\
                       0 <= timeout_tick (timer s i) < 2 ^ 32;
  wf_list : ok_list s false (_timer_list s);
  wf_soft : ok_list s true (_soft_timer_list s);
  wf_active : forall i, act (timer s i) = true ->
                        i ∈ if soft (timer s i) then _soft_timer_list s else _timer_list s;
  wf_check : check_list s = [] /\ soft_check_list s = [] }.

Lemma elem_of_del i j l : j ∈ del i l <-> j ∈ l /\ j <> i.
Proof. unfold del. rewrite list_elem_of_filter. tauto. Qed.

Lemma del_notin i l : i ∉ l -> del i l = l.
Proof.
  intros Hi. unfold del. induction l as [|x l IH]; [done|].
  apply not_elem_of_cons in Hi as [Hx Hi]. rewrite filter_cons_True by done. by rewrite IH.
Qed.

Lemma sorted_del R i l : StronglySorted R l -> StronglySorted R (del i l).
Proof.
  induction 1 as [|x l _ IH Hx]; [constructor|]. unfold del in *. destruct (decide (x = i)) as [->|Hne].
  - by rewrite filter_cons_False by tauto.
  - rewrite filter_cons_True by done. constructor; [done|].
    apply Forall_forall. intros y [_ Hy]%list_elem_of_filter. by eapply Forall_forall in Hx.
Qed.

(** Two expiries within half a range compare as the source compares them. *)
Lemma compare_left a b n :
  u32 (a - n) < half -> u32 (b - n) < half ->
  let d := u32 (a - b) in
  (d =? 0) = (u32 (a - n) =? u32 (b - n)) /\
  (d <? RT_TICK_MAX / 2) = (u32 (b - n) <=? u32 (a - n)).
Proof.
  change (RT_TICK_MAX / 2) with half. unfold u32, half. intros Ha Hb. cbn zeta.
  split; apply Bool.eq_iff_eq_true; rewrite ?Z.eqb_eq, ?Z.ltb_lt, ?Z.leb_le; zmod.
Qed.

Lemma timer_insert_spec s i tick l :
  StronglySorted (fun a b => left s a <= left s b) l -> Forall (fun t => left s t < half) l ->
  u32 (tick - rt_tick s) < half ->
  exists l1 l2, l = l1 ++ l2 /\ timer_insert (timer s) i tick l = l1 ++ i :: l2 /\
    Forall (fun t => left s t <= u32 (tick - rt_tick s)) l1 /\
    Forall (fun t => u32 (tick - rt_tick s) < left s t) l2.
Proof.
  intros Hs Hl Ht. induction Hs as [|t l Hs IH Hle]; [by exists [], []|].
  apply Forall_cons in Hl as [Hlt Hl]. destruct (IH Hl) as (l1 & l2 & -> & E & H1 & H2). cbn.
  destruct (compare_left (timeout_tick (timer s t)) tick (rt_tick s) Hlt Ht) as [-> ->].
  fold (left s t). destruct (Z.eqb_spec (left s t) (u32 (tick - rt_tick s))) as [Heq|Hne].
  - exists (t :: l1), l2. rewrite E. split_and!; [done|done|constructor; [lia|done]|done].
  - destruct (Z.leb_spec (u32 (tick - rt_tick s)) (left s t)) as [Hle'|Hgt].
    + exists [], (t :: l1 ++ l2). split_and!; [done|done|constructor|].
      constructor; [lia|]. eapply Forall_impl; [exact Hle|]. cbn. lia.
    + exists (t :: l1), l2. rewrite E. split_and!; [done|done|constructor; [lia|done]|done].
Qed.

(** [s'] is [s] without the timer [i], which is inactive. *)
Record dropped i s s' : Prop := {
  drop_tick : rt_tick s' = rt_tick s;
  drop_other : forall j, j <> i -> timer s' j = timer s j;
  drop_init : init_tick (timer s' i) = init_tick (timer s i);
  drop_flag : 0 <= flag (timer s' i) < 8 /\ act (timer s' i) = false /\
              periodic (timer s' i) = periodic (timer s i) /\ soft (timer s' i) = soft (timer s i);
  drop_timeout : timeout_tick (timer s' i) = timeout_tick (timer s i);
  drop_list : _timer_list s' = del i (_timer_list s);
  drop_soft : _soft_timer_list s' = del i (_soft_timer_list s);
  drop_check : check_list s' = [] /\ soft_check_list s' = [] }.

Lemma ok_list_ext s s' sf l :
  (forall j, j ∈ l -> timer s' j = timer s j) -> rt_tick s' = rt_tick s ->
  ok_list s sf l -> ok_list s' sf l.
Proof.
  intros Hj Ht [Hn Hs He].
  assert (forall j, j ∈ l -> left s' j = left s j) as Hleft.
  { intros j Hjl. unfold left. by rewrite Hj, Ht. }
  split; [done| |].
  - clear -Hs Hleft. induction Hs as [|x l Hs IH Hx]; constructor.
    + apply IH. intros j Hjl. apply Hleft. by constructor.
    + apply Forall_forall. intros y Hy. rewrite !Hleft by by constructor.
      by eapply Forall_forall in Hx.
  - apply Forall_forall. intros j Hjl. rewrite Hleft, Hj by done. by eapply Forall_forall in He.
Qed.

Lemma ok_list_dropped i s s' sf l : dropped i s s' -> ok_list s sf l -> ok_list s' sf (del i l).
Proof.
  intros D [Hn Hs He]. assert (forall j, j <> i -> left s' j = left s j) as Hleft.
  { intros j Hj. unfold left. by rewrite (drop_other _ _ _ D), (drop_tick _ _ _ D). }
  split.
  - by apply NoDup_filter.
  - induction Hs as [|x l Hs IH Hx]; [constructor|]. apply NoDup_cons in Hn as [Hn0 Hn].
    apply Forall_cons in He as [_ He]. specialize (IH Hn He). unfold del in *.
    destruct (decide (x = i)) as [->|Hne]; [by rewrite filter_cons_False by tauto|].
    rewrite filter_cons_True by done. constructor; [done|]. apply Forall_forall.
    intros y [Hy Hyl]%list_elem_of_filter. rewrite !Hleft by done. by eapply Forall_forall in Hx.
  - apply Forall_forall. intros j [Hj Hjl]%elem_of_del. rewrite Hleft, (drop_other _ _ _ D) by done.
    by eapply Forall_forall in He.
Qed.

Lemma wf_dropped i s s' : wf s -> dropped i s s' -> wf s'.
Proof.
  intros W D. pose proof D as [Dt Do Di (Df & Da & Dp & Ds) Dto Dl Dsl Dc].
  split; [by rewrite Dt; apply W| |..].
  - intros j. destruct (decide (j = i)) as [->|Hj]; [|rewrite Do by done; apply W].
    rewrite Di, Dto. pose proof (wf_timer _ W i). tauto.
  - rewrite Dl. eapply ok_list_dropped; [done|apply W].
  - rewrite Dsl. eapply ok_list_dropped; [done|apply W].
  - intros j Hj. destruct (decide (j = i)) as [->|Hne]; [congruence|].
    rewrite Do in Hj |- * by done. pose proof (wf_active _ W j Hj) as H.
    rewrite Dl, Dsl. destruct (soft (timer s j)); by apply elem_of_del.
  - exact Dc.
Qed.

Lemma dropped_deactivate i s : wf s -> dropped i s (deactivate i (_timer_remove i s)).
Proof.
  intros W. pose proof (wf_check _ W) as [C1 C2].
  destruct (wf_timer _ W i) as (_ & Hf & _).
  pose proof (clear_act (flag (timer s i)) (init_tick (timer s i)) (timeout_tick (timer s i)) Hf) as Hc.
  split; cbn; rewrite ?fn_lookup_insert; try done.
  - intros j Hj. by rewrite fn_lookup_insert_ne by done.
  - by rewrite C1, C2.
Qed.

Lemma sorted_insert (R : I -> I -> Prop) i l1 l2 :
  StronglySorted R (l1 ++ l2) -> Forall (fun j => R j i) l1 -> Forall (R i) l2 ->
  StronglySorted R (l1 ++ i :: l2).
Proof.
  intros Hs H1 H2. induction l1 as [|x l1 IH]; cbn in *; [by constructor|].
  apply Forall_cons in H1 as [Hx H1]. inversion Hs as [|? ? Hs' Hxl]; subst.
  constructor; [by apply IH|]. apply Forall_app in Hxl as [? ?]. by apply Forall_app; split; [|constructor].
Qed.

(** Adding a started timer to a sorted list of others. *)
Lemma ok_list_insert i s s' sf l :
  i ∉ l -> ok_list s sf l -> rt_tick s' = rt_tick s ->
  (forall j, j <> i -> timer s' j = timer s j) -> left s' i < half ->
  act (timer s' i) = true -> soft (timer s' i) = sf ->
  exists l1 l2, l = l1 ++ l2 /\ timer_insert (timer s) i (timeout_tick (timer s' i)) l = l1 ++ i :: l2 /\
    ok_list s' sf (l1 ++ i :: l2) /\
    Forall (fun j => left s' j <= left s' i) l1 /\ Forall (fun j => left s' i < left s' j) l2.
Proof.
  intros Hi [Hn Hs He] Ht Hj Hl Ha Hsf.
  assert (forall j, j ∈ l -> left s' j = left s j) as Hleft.
  { intros j Hjl. unfold left. rewrite Hj, Ht; [done|]. by intros ->. }
  unfold left in Hl. rewrite Ht in Hl.
  destruct (timer_insert_spec s i (timeout_tick (timer s' i)) l Hs) as (l1 & l2 & -> & E & H1 & H2);
    [eapply Forall_impl; [exact He|by intros ? [? _]]|done|].
  rewrite <- Ht in H1, H2, Hl. fold (left s' i) in H1, H2, Hl.
  assert (Forall (fun j => left s' j <= left s' i) l1) as H1'.
  { apply Forall_forall. intros j Hjl. rewrite (Hleft j) by (apply elem_of_app; by left).
    by eapply Forall_forall in H1. }
  assert (Forall (fun j => left s' i < left s' j) l2) as H2'.
  { apply Forall_forall. intros j Hjl. rewrite (Hleft j) by (apply elem_of_app; by right).
    by eapply Forall_forall in H2. }
  exists l1, l2. split_and!; [done|done| |done|done]. split.
  - rewrite <- Permutation_middle. by constructor.
  - apply sorted_insert; [|done|by eapply Forall_impl; [exact H2'|cbn; lia]].
    eapply (ok_list_ext s s'); [|done|by split]. intros j Hjl. apply Hj. by intros ->.
  - rewrite <- Permutation_middle. constructor; [done|]. apply Forall_forall. intros j Hjl.
    rewrite Hleft, Hj by (done || by intros ->). by eapply Forall_forall in He.
Qed.

(** The timer [i] starts: it goes behind the timers that expire no later. *)
Record started i s s' : Prop := {
  start_wf : wf s';
  start_tick : rt_tick s' = rt_tick s;
  start_left : left s' i = init_tick (timer s i);
  start_init : init_tick (timer s' i) = init_tick (timer s i);
  start_per : periodic (timer s' i) = periodic (timer s i);
  start_sf : soft (timer s' i) = soft (timer s i);
  start_other : forall j, j <> i -> timer s' j = timer s j;
  start_list : exists l1 l2 : list I,
    (if soft (timer s i)
     then _timer_list s' = del i (_timer_list s) /\
          del i (_soft_timer_list s) = l1 ++ l2 /\ _soft_timer_list s' = l1 ++ i :: l2
     else _soft_timer_list s' = del i (_soft_timer_list s) /\
          del i (_timer_list s) = l1 ++ l2 /\ _timer_list s' = l1 ++ i :: l2) /\
    Forall (fun j => left s' j <= left s' i) l1 /\ Forall (fun j => left s' i < left s' j) l2 }.

Lemma timer_insert_ext (tm tm' : I -> rt_timer) i tick l :
  (forall j, j ∈ l -> tm j = tm' j) -> timer_insert tm i tick l = timer_insert tm' i tick l.
Proof.
  induction l as [|t l IH]; intros E; [done|]. cbn.
  by rewrite (E t) by (by left); rewrite IH by (intros j Hj; apply E; by right).
Qed.

(** What [timer_arm] does to the fields. *)
Record armed i s s' : Prop := {
  arm_tick : rt_tick s' = rt_tick s;
  arm_other : forall j, j <> i -> timer s' j = timer s j;
  arm_fields : init_tick (timer s' i) = init_tick (timer s i) /\ 0 <= flag (timer s' i) < 8 /\
               0 <= timeout_tick (timer s' i) < 2 ^ 32;
  arm_left : left s' i = init_tick (timer s i);
  arm_act : act (timer s' i) = true;
  arm_per : periodic (timer s' i) = periodic (timer s i);
  arm_soft : soft (timer s' i) = soft (timer s i);
  arm_check : check_list s' = [] /\ soft_check_list s' = [];
  arm_list : let put := timer_insert (timer s) i (timeout_tick (timer s' i)) in
    if soft (timer s i)
    then _timer_list s' = del i (_timer_list s) /\ _soft_timer_list s' = put (del i (_soft_timer_list s))
    else _soft_timer_list s' = del i (_soft_timer_list s) /\ _timer_list s' = put (del i (_timer_list s)) }.

Lemma timer_arm_fields i s : wf s -> armed i s (timer_arm i s).
Proof.
  intros W. unfold timer_arm. set (s1 := deactivate i (_timer_remove i s)).
  pose proof (dropped_deactivate i s W) as D. fold s1 in D.
  destruct (wf_timer _ W i) as (Hi & Hf & _). pose proof (wf_tick _ W) as Ht.
  destruct D as [D1 D2 D3 (Hf1 & _ & Hp1 & Hs1) _ D4 D5 D6]. rewrite D1.
  set (s2 := with_timer _ i s1).
  assert (timer s2 i = mk_timer (flag (timer s1 i)) (init_tick (timer s i)) (u32 (rt_tick s + init_tick (timer s i)))) as E2.
  { unfold s2. cbn [timer with_timer]. by rewrite fn_lookup_insert, D3. }
  assert (forall j, j <> i -> timer s2 j = timer s j) as E2j.
  { intros j Hj. unfold s2. cbn [timer with_timer]. by rewrite fn_lookup_insert_ne, D2 by done. }
  change (has_flag RT_TIMER_FLAG_SOFT_TIMER (timer s2 i)) with (soft (timer s2 i)).
  assert (soft (timer s2 i) = soft (timer s i)) as -> by (rewrite E2, <- Hs1; done).
  set (s' := activate i _).
  assert (timer s' i = mk_timer (Z.lor (flag (timer s1 i)) RT_TIMER_FLAG_ACTIVATED) (init_tick (timer s i))
            (u32 (rt_tick s + init_tick (timer s i)))) as E3.
  { unfold s'. cbn [timer activate with_timer]. rewrite fn_lookup_insert.
    destruct (soft (timer s i)); cbn [timer with_list with_soft_list]; by rewrite E2. }
  assert (rt_tick s' = rt_tick s) as Et by (unfold s'; destruct (soft (timer s i)); exact D1).
  pose proof (set_act (flag (timer s1 i)) (init_tick (timer s i))
    (u32 (rt_tick s + init_tick (timer s i))) Hf1) as (Ff & Fa & Fp & Fs). rewrite <- E3 in Ff, Fa, Fp, Fs.
  split; try done.
  - intros j Hj. unfold s'. cbn [timer activate with_timer]. rewrite fn_lookup_insert_ne by done.
    destruct (soft (timer s i)); by apply E2j.
  - rewrite E3 in Ff |- *. split_and!; cbn; try apply Ff || done; apply u32_range.
  - unfold left. rewrite Et, E3. cbn. unfold u32, half in *. zmod.
  - rewrite Fp. exact Hp1.
  - rewrite Fs. exact Hs1.
  - unfold s'. by destruct (soft (timer s i)).
  - replace (timeout_tick (timer s' i)) with (timeout_tick (timer s2 i)) by by rewrite E2, E3.
    cbv zeta. rewrite <- !(timer_insert_ext (timer s2) (timer s)) by (intros j [_ Hj]%elem_of_del; by apply E2j).
    unfold s'. destruct (soft (timer s i)); (split; [done|]); [exact (f_equal (timer_insert _ i _) D5)|exact (f_equal (timer_insert _ i _) D4)].
Qed.

(** The list the timer is put in, and the other one. *)
Lemma armed_other i s s' sf l : armed i s s' -> ok_list s sf (del i l) -> ok_list s' sf (del i l).
Proof.
  intros A. apply ok_list_ext; [|apply A]. intros j [_ Hj]%elem_of_del. by apply (arm_other _ _ _ A).
Qed.
Lemma armed_put i s s' sf l :
  wf s -> armed i s s' -> ok_list s sf (del i l) -> soft (timer s i) = sf ->
  exists l1 l2, del i l = l1 ++ l2 /\
    timer_insert (timer s) i (timeout_tick (timer s' i)) (del i l) = l1 ++ i :: l2 /\ ok_list s' sf (l1 ++ i :: l2) /\
    Forall (fun j => left s' j <= left s' i) l1 /\ Forall (fun j => left s' i < left s' j) l2.
Proof.
  intros W A Hl Hsf. apply ok_list_insert; try apply A; try done.
  - by intros [_ ?]%elem_of_del.
  - rewrite (arm_left _ _ _ A). apply (wf_timer _ W i).
  - by rewrite (arm_soft _ _ _ A).
Qed.

(** Every active timer is in the list of its kind. *)
Lemma armed_active i s s' j :
  wf s -> armed i s s' -> j <> i -> act (timer s' j) = true ->
  j ∈ if soft (timer s' j) then del i (_soft_timer_list s) else del i (_timer_list s).
Proof.
  intros W A Hj Ha. rewrite (arm_other _ _ _ A) in Ha |- * by done. pose proof (wf_active _ W j Ha).
  destruct (soft (timer s j)); by apply elem_of_del.
Qed.

Lemma timer_arm_spec i s : wf s -> started i s (timer_arm i s).
Proof.
  intros W. pose proof (timer_arm_fields i s W) as A. set (s' := timer_arm i s) in *.
  pose proof (dropped_deactivate i s W) as D. pose proof (wf_dropped _ _ _ W D) as W1.
  assert (forall sf l, ok_list (deactivate i (_timer_remove i s)) sf (del i l) -> ok_list s sf (del i l)) as Hok.
  { intros sf l. apply ok_list_ext; [|by rewrite (drop_tick _ _ _ D)]. intros j [_ Hj]%elem_of_del.
    by rewrite (drop_other _ _ _ D). }
  pose proof (wf_list _ W1) as Wl. rewrite (drop_list _ _ _ D) in Wl. apply Hok in Wl.
  pose proof (wf_soft _ W1) as Ws. rewrite (drop_soft _ _ _ D) in Ws. apply Hok in Ws.
  assert (forall j, 0 <= init_tick (timer s' j) < half /\ 0 <= flag (timer s' j) < 8 /\
                    0 <= timeout_tick (timer s' j) < 2 ^ 32) as Hranges.
  { intros j. destruct (decide (j = i)) as [->|Hj]; [|rewrite (arm_other _ _ _ A) by done; apply W].
    destruct (arm_fields _ _ _ A) as (-> & Hf & Ht). pose proof (wf_timer _ W i). tauto. }
  pose proof (arm_list _ _ _ A) as AL. pose proof (arm_soft _ _ _ A) as AS. pose proof (wf_tick _ W) as Ht.
  pose proof (arm_tick _ _ _ A) as At. pose proof (fun j => armed_active i s s' j W A) as Hact.
  destruct (soft (timer s i)) eqn:Esf; destruct AL as [EH EL].
  - destruct (armed_put i s s' true _ W A Ws Esf) as (l1 & l2 & E1 & E2 & Hok' & HF1 & HF2). rewrite E2 in EL.
    split; try apply A; [|exists l1, l2; by rewrite Esf].
    split; [by rewrite At|done|rewrite EH; by apply (armed_other i s)|by rewrite EL| |apply A].
    intros j Ha. rewrite EL, EH. destruct (decide (j = i)) as [->|Hj].
    + rewrite AS. apply elem_of_app. right. by left.
    + specialize (Hact j Hj Ha). destruct (soft (timer s' j)); [|done]. rewrite E1 in Hact. set_solver.
  - destruct (armed_put i s s' false _ W A Wl Esf) as (l1 & l2 & E1 & E2 & Hok' & HF1 & HF2). rewrite E2 in EL.
    split; try apply A; [|exists l1, l2; by rewrite Esf].
    split; [by rewrite At|done|by rewrite EL|rewrite EH; by apply (armed_other i s)| |apply A].
    intros j Ha. rewrite EL, EH. destruct (decide (j = i)) as [->|Hj].
    + rewrite AS. apply elem_of_app. right. by left.
    + specialize (Hact j Hj Ha). destruct (soft (timer s' j)); [done|]. rewrite E1 in Hact. set_solver.
Qed.

(** The timers that are due, in the order of the list. *)
Definition due s : list I := filter (fun i => left s i = 0) (_timer_list s).

Lemma expired_left s i :
  left s i < half ->
  (u32 (rt_tick s - timeout_tick (timer s i)) <? RT_TICK_MAX / 2) = (left s i =? 0).
Proof.
  unfold left, u32. change (RT_TICK_MAX / 2) with half. unfold half. intros H.
  apply Bool.eq_iff_eq_true. rewrite Z.ltb_lt, Z.eqb_eq. zmod.
Qed.

Lemma left_nonneg s i : 0 <= left s i.
Proof. apply u32_range. Qed.

(** What is due is at the front. *)
Lemma due_front s i l :
  wf s -> _timer_list s = i :: l ->
  due s = if left s i =? 0 then i :: filter (fun i => left s i = 0) l else [].
Proof.
  intros W E. pose proof (ok_sorted _ _ _ (wf_list _ W)) as Hs. rewrite E in Hs. unfold due. rewrite E.
  inversion Hs as [|? ? _ Hle]; subst. destruct (Z.eqb_spec (left s i) 0) as [H0|H0].
  - by rewrite filter_cons_True.
  - rewrite filter_cons_False by done. pose proof (left_nonneg s i).
    clear -Hle H H0. induction l as [|x l IH]; [done|]. apply Forall_cons in Hle as [Hx Hl].
    rewrite filter_cons_False by lia. by apply IH.
Qed.

Lemma filter_ext_in (P Q : I -> Prop) `{!forall x, Decision (P x), !forall x, Decision (Q x)} l :
  (forall x, x ∈ l -> P x <-> Q x) -> filter P l = filter Q l.
Proof.
  intros HPQ. induction l as [|x l IH]; [done|].
  rewrite !filter_cons, IH by (intros; apply HPQ; by constructor).
  assert (P x <-> Q x) as Hx by (apply HPQ; constructor). by destruct (decide (P x)), (decide (Q x)); tauto.
Qed.

(** Firing [i] at the head of the list leaves the rest of what is due. *)
Lemma due_dropped s s' i l :
  wf s -> _timer_list s = i :: l -> dropped i s s' ->
  due s' = filter (fun i => left s i = 0) l /\ _timer_list s' = l.
Proof.
  intros W E D. pose proof (ok_nodup _ _ _ (wf_list _ W)) as Hn. rewrite E in Hn.
  apply NoDup_cons in Hn as [Hi _].
  assert (_timer_list s' = l) as El.
  { rewrite (drop_list _ _ _ D), E. unfold del. rewrite filter_cons_False by tauto.
    by apply del_notin. }
  split; [|done]. unfold due. rewrite El. apply filter_ext_in. intros j Hj.
  unfold left. by rewrite (drop_tick _ _ _ D), (drop_other _ _ _ D) by by intros ->.
Qed.

(** The state once the node of a fired timer has left every list. *)
Lemma dropped_taken i s :
  wf s ->
  let s1 := _timer_remove i (take_expired with_check_list i s) in
  dropped i s (if periodic (timer s i) then deactivate i s1 else s1).
Proof.
  intros W. cbn zeta. pose proof (wf_check _ W) as [C1 C2].
  destruct (wf_timer _ W i) as (_ & Hf & _).
  pose proof (clear_act (flag (timer s i)) (init_tick (timer s i)) (timeout_tick (timer s i)) Hf)
    as (F1 & F2 & F3 & F4).
  assert (forall l, del i (del i l) = del i l) as Hdel.
  { intros l. apply del_notin. by intros [_ ?]%elem_of_del. }
  unfold take_expired. fold (periodic (timer (_timer_remove i s) i)).
  change (timer (_timer_remove i s)) with (timer s). destruct (periodic (timer s i)) eqn:Hp.
  all: split; cbn; rewrite ?fn_lookup_insert, ?Hdel, ?C1, ?C2; try done.
  all: try (intros j Hj; by rewrite ?fn_lookup_insert_ne by done).
  all: try apply Hdel. all: split; [by rewrite decide_False by tauto|done].
Qed.

(** What firing does to the timers: the timer [i] is dropped, and started again
    when it is periodic. *)
Definition fired_one i s s' : Prop :=
  if periodic (timer s i) then exists s1, dropped i s s1 /\ started i s1 s' else dropped i s s'.

(** What firing the timers [l] leaves. *)
Record fired l s s' : Prop := {
  fired_tick : rt_tick s' = rt_tick s;
  fired_soft : _soft_timer_list s = [] -> _soft_timer_list s' = [];
  fired_same : forall j, init_tick (timer s' j) = init_tick (timer s j) /\
                         periodic (timer s' j) = periodic (timer s j);
  fired_kind : forall j, soft (timer s' j) = soft (timer s j);
  fired_others : forall j, j ∉ l -> timer s' j = timer s j /\
                                    (j ∈ _timer_list s' <-> j ∈ _timer_list s);
  fired_members : forall j, j ∈ l ->
    if periodic (timer s j)
    then j ∈ _timer_list s' /\ left s' j = init_tick (timer s j)
    else j ∉ _timer_list s' /\ act (timer s' j) = false }.

Lemma fired_nil s : fired [] s s.
Proof. split; try done. intros j Hj. inversion Hj. Qed.

Lemma fired_one_spec i l s s' :
  wf s -> _timer_list s = i :: l -> (periodic (timer s i) = true -> 0 < init_tick (timer s i)) ->
  fired_one i s s' ->
  wf s' /\ fired [i] s s' /\ due s' = filter (fun j => left s j = 0) l /\
  (forall j, j ∈ _timer_list s' -> j ∈ _timer_list s).
Proof.
  intros W E Hper. pose proof (ok_nodup _ _ _ (wf_list _ W)) as Hn. rewrite E in Hn.
  apply NoDup_cons in Hn as [Hi _].
  assert (soft (timer s i) = false) as Hsf.
  { pose proof (ok_each _ _ _ (wf_list _ W)) as He. rewrite E in He. apply Forall_cons in He as [(_ & _ & H0) _]; exact H0. }
  unfold fired_one. destruct (periodic (timer s i)) eqn:Hp.
  - intros (s1 & D & St). destruct (due_dropped _ _ _ _ W E D) as [Ed El].
    destruct (start_list _ _ _ St) as (l1 & l2 & Hl & _).
    destruct (drop_flag _ _ _ D) as (_ & _ & Dp & Ds). rewrite Ds, Hsf, El in Hl.
    destruct Hl as (_ & E1 & E2). rewrite del_notin in E1 by done.
    assert (left s' i = init_tick (timer s i)) as Eleft
      by by rewrite (start_left _ _ _ St), (drop_init _ _ _ D).
    assert (rt_tick s' = rt_tick s) as Et by by rewrite (start_tick _ _ _ St), (drop_tick _ _ _ D).
    assert (forall j, j <> i -> timer s' j = timer s j) as Ej.
    { intros j Hj. by rewrite (start_other _ _ _ St), (drop_other _ _ _ D). }
    split_and!.
    + apply St.
    + split; [done| | | | |].
      * intros Hnil. pose proof (start_list _ _ _ St) as (k1 & k2 & Hk & _).
        rewrite Ds, Hsf in Hk. destruct Hk as [-> _]. by rewrite (drop_soft _ _ _ D), Hnil.
      * intros j. destruct (decide (j = i)) as [->|Hj]; [|by rewrite Ej].
        by rewrite (start_init _ _ _ St), (start_per _ _ _ St), (drop_init _ _ _ D).
      * intros j. destruct (decide (j = i)) as [->|Hj]; [|by rewrite Ej].
        by rewrite (start_sf _ _ _ St).
      * intros j Hj. assert (j <> i) as Hji by set_solver. rewrite Ej by done.
        split; [done|]. rewrite E, E1, E2. set_solver.
      * intros j ->%list_elem_of_singleton. rewrite Hp. split; [rewrite E2; set_solver|done].
    + rewrite <- Ed. unfold due. rewrite E2, El, E1, !filter_app.
      rewrite filter_cons_False by (rewrite Eleft; specialize (Hper eq_refl); lia).
      assert (forall k, k ⊆ l -> filter (fun j => left s' j = 0) k = filter (fun j => left s1 j = 0) k) as Hk.
      { intros k Hk. apply filter_ext_in. intros j Hj. unfold left.
        rewrite (start_tick _ _ _ St), (start_other _ _ _ St); [done|]. intros ->. by apply Hi, Hk. }
      by rewrite !Hk by (rewrite E1; set_solver).
    + rewrite E, E2, E1. set_solver.
  - intros D. destruct (due_dropped _ _ _ _ W E D) as [Ed El].
    destruct (drop_flag _ _ _ D) as (_ & Da & Dp & _).
    split_and!; [by eapply wf_dropped| |done|rewrite E, El; set_solver].
    split; [apply D| | | | |].
    + intros Hnil. by rewrite (drop_soft _ _ _ D), Hnil.
    + intros j. destruct (decide (j = i)) as [->|Hj]; [|by rewrite (drop_other _ _ _ D)].
      by rewrite (drop_init _ _ _ D).
    + intros j. destruct (decide (j = i)) as [->|Hj]; [|by rewrite (drop_other _ _ _ D)].
      by destruct (drop_flag _ _ _ D) as (_ & _ & _ & ->).
    + intros j Hj. assert (j <> i) as Hji by set_solver.
      rewrite (drop_other _ _ _ D), E, El by done. split; [done|set_solver].
    + intros j ->%list_elem_of_singleton. by rewrite Hp, El.
Qed.

Lemma fired_step i l s s1 s2 :
  i ∉ l -> fired [i] s s1 -> fired l s1 s2 -> fired (i :: l) s s2.
Proof.
  intros Hi F1 F2. split.
  - by rewrite (fired_tick _ _ _ F2), (fired_tick _ _ _ F1).
  - intros Hs. by apply F2, F1.
  - intros j. destruct (fired_same _ _ _ F1 j) as [<- <-]. apply F2.
  - intros j. by rewrite (fired_kind _ _ _ F2), (fired_kind _ _ _ F1).
  - intros j [Hji Hj]%not_elem_of_cons. destruct (fired_others _ _ _ F2 j Hj) as [-> ->].
    apply F1. by apply not_elem_of_cons; split; [|apply not_elem_of_nil].
  - intros j Hj. destruct (decide (j = i)) as [->|Hne].
    + pose proof (fired_members _ _ _ F1 i ltac:(by left)) as H1.
      destruct (fired_others _ _ _ F2 i Hi) as [E2 E3].
      unfold left. rewrite E2, (fired_tick _ _ _ F2). destruct (periodic (timer s i)); by rewrite E3.
    + apply elem_of_cons in Hj as [?|Hj]; [done|].
      destruct (fired_others _ _ _ F1 j) as [E1 _]; [by apply not_elem_of_cons; split; [|apply not_elem_of_nil]|].
      pose proof (fired_members _ _ _ F2 j Hj) as H2. by rewrite E1 in H2.
Qed.
End Order.

(** ** Firing *)

Class TimerHostLaws (I S : Type) `{!TimerHost I S} : Prop := {
  timers_of_set : forall t (s : S), timers_of (set_timers t s) = t }.

Section Fire.
Context {I : Type} `{EqDecision I} {S : Type} `{!TimerHost I S, !TimerHostLaws I S}.
Implicit Types (s : S) (i : I) (l : list I).

(** [Good l s]: the timeout functions of the timers [l] can run in this order
    from [s]; they leave the timers alone. *)
Context (Good : list I -> S -> Prop)
  (Good_timers : forall l t s, Good l s -> Good l (set_timers t s))
  (Good_timeout : forall i l s, Good (i :: l) s ->
     exists s', timeout i s = Ok s' /\ timers_of s' = timers_of s /\ Good l s').

Lemma timers_of_upd f s : timers_of (upd f s) = f (timers_of s).
Proof. apply timers_of_set. Qed.

(** Firing one timer: its timeout function between the two halves of the
    bookkeeping. *)
Definition fire_one i s : result S :=
  s ← timeout i (upd (take_expired with_check_list i) s); finish_expired i s.
Fixpoint fire_all l s : result S :=
  match l with [] => Ok s | i :: l => s ← fire_one i s; fire_all l s end.

Lemma fire_one_spec i l lg s :
  wf (timers_of s) -> _timer_list (timers_of s) = i :: l -> Good (i :: lg) s ->
  exists s1 s', timeout i (upd (take_expired with_check_list i) s) = Ok s1 /\
    check_list (timers_of s1) = [i] /\ rt_tick (timers_of s1) = rt_tick (timers_of s) /\
    finish_expired i s1 = Ok s' /\ Good lg s' /\
    fired_one i (timers_of s) (timers_of s').
Proof.
  intros W E HG. set (t0 := timers_of s) in *.
  pose proof (ok_each _ _ _ (wf_list _ W)) as He. rewrite E in He.
  apply Forall_cons in He as [(_ & Ha & Hsf) _]. pose proof (wf_check _ W) as [C1 C2].
  destruct (Good_timeout i lg (upd (take_expired with_check_list i) s)) as (s1 & E1 & T1 & G1);
    [by apply Good_timers|].
  rewrite timers_of_upd in T1. fold t0 in T1. set (t1 := take_expired _ i t0) in T1.
  assert (check_list t1 = [i]) as Ec.
  { unfold t1, take_expired. destruct (has_flag _ _); cbn; by rewrite C1. }
  assert (rt_tick t1 = rt_tick t0) as Et by (unfold t1, take_expired; by destruct (has_flag _ _)).
  exists s1. unfold finish_expired, fired_one. rewrite timers_of_upd, T1. fold t0.
  fold (periodic (timer (_timer_remove i t1) i)) (act (timer (_timer_remove i t1) i)).
  destruct (periodic (timer t0 i)) eqn:Hp.
  - assert (timer t1 = timer t0) as Etm.
    { unfold t1, take_expired. fold (periodic (timer (_timer_remove i t0) i)). cbn. by rewrite Hp. }
    change (timer (_timer_remove i t1)) with (timer t1). rewrite Etm, Hp, Ha. cbn [andb].
    set (t3 := deactivate i (_timer_remove i t1)).
    assert (timers_of (upd (deactivate i) (upd (_timer_remove i) s1)) = t3) as T3.
    { by rewrite !timers_of_upd, T1. }
    assert (dropped i t0 t3) as D by (pose proof (dropped_taken i t0 W) as D; by rewrite Hp in D).
    pose proof (timer_arm_spec i t3 (wf_dropped _ _ _ W D)) as St.
    unfold rt_timer_start. rewrite !timers_of_upd, T1. fold t3.
    fold (soft (timer (timer_arm i t3) i)). rewrite (start_sf _ _ _ St).
    destruct (drop_flag _ _ _ D) as (_ & _ & _ & ->). rewrite Hsf.
    eexists. split_and!; [done..| |]; [by do 3 apply Good_timers|].
    exists t3. by rewrite timers_of_upd, T3.
  - assert (periodic (timer (_timer_remove i t1) i) = false) as ->.
    { change (timer (_timer_remove i t1)) with (timer t1). unfold t1, take_expired.
      fold (periodic (timer (_timer_remove i t0) i)). change (timer (_timer_remove i t0)) with (timer t0).
      rewrite Hp. cbn. rewrite fn_lookup_insert.
      destruct (wf_timer _ W i) as (_ & Hf & _).
      destruct (clear_act (flag (timer t0 i)) (init_tick (timer t0 i)) (timeout_tick (timer t0 i)) Hf)
        as (_ & _ & F & _). unfold periodic, has_flag in *. cbn in *. congruence. }
    cbn [andb]. eexists. split_and!; [done..| |]; [by apply Good_timers|].
    rewrite timers_of_upd, T1. pose proof (dropped_taken i t0 W) as D. by rewrite Hp in D.
Qed.

(** The timers fire in order, and nothing else changes. *)
Lemma check_loop_spec lg fuel s :
  wf (timers_of s) -> due (timers_of s) = lg -> (length lg < fuel)%nat ->
  (forall i, i ∈ _timer_list (timers_of s) -> periodic (timer (timers_of s) i) = true ->
             0 < init_tick (timer (timers_of s) i)) ->
  Good lg s ->
  exists s', check_loop fuel (rt_tick (timers_of s)) s = Ok s' /\ fire_all lg s = Ok s' /\
    Good [] s' /\ wf (timers_of s') /\ due (timers_of s') = [] /\
    fired lg (timers_of s) (timers_of s').
Proof.
  revert fuel s. induction lg as [|i lg IH]; intros fuel s W E Hfuel Hper HG;
    (destruct fuel as [|fuel]; [cbn in *; lia|]).
  - exists s.
    assert (check_loop (Datatypes.S fuel) (rt_tick (timers_of s)) s = Ok s) as ->.
    { cbn. destruct (_timer_list (timers_of s)) as [|t l] eqn:El; [done|].
      pose proof (ok_each _ _ _ (wf_list _ W)) as He. rewrite El in He.
      apply Forall_cons in He as [(Hl & _) _]. rewrite expired_left by done.
      rewrite (due_front _ _ _ W El) in E. by destruct (left (timers_of s) t =? 0). }
    split_and!; try done. apply fired_nil.
  - destruct (_timer_list (timers_of s)) as [|t l] eqn:El; [unfold due in E; by rewrite El in E|].
    rewrite (due_front _ _ _ W El) in E.
    destruct (left (timers_of s) t =? 0) eqn:El0; [|done]. injection E as -> Elg.
    assert (i ∉ lg) as Hi.
    { pose proof (ok_nodup _ _ _ (wf_list _ W)) as Hn. rewrite El in Hn.
      apply NoDup_cons in Hn as [Hn _]. rewrite <- Elg. by intros [_ ?]%list_elem_of_filter. }
    destruct (fire_one_spec i l lg s W El HG)
      as (s1 & s2 & E1 & Ec & Et & E2 & G2 & F2).
    destruct (fired_one_spec i l _ _ W El (Hper i ltac:(set_solver)) F2) as (W2 & F & Ed & Hsub).
    rewrite Elg in Ed.
    destruct (IH fuel s2 W2 Ed) as (s' & E3 & E4 & G' & W' & D' & F'); [cbn in *; lia| |done|].
    { intros j Hj. destruct (fired_same _ _ _ F j) as [-> ->]. apply Hper. rewrite <- El. by apply Hsub. }
    exists s'. split_and!; [|cbn; unfold fire_one; by rewrite E1; cbn; rewrite E2|done..|by eapply fired_step].
    cbn. rewrite El. pose proof (ok_each _ _ _ (wf_list _ W)) as He. rewrite El in He.
    apply Forall_cons in He as [(Hl & _) _]. rewrite expired_left, El0 by done.
    rewrite E1. cbn. rewrite Ec, E2. cbn. unfold rt_tick_get. rewrite Et, <- (fired_tick _ _ _ F). exact E3.
Qed.

(** ** Properties *)

(** A check, from its first to its last round: with timeout functions that leave the
    timers alone, as those of the waiting threads do, and at every tick. *)
Lemma check_fires (fuel : nat) (s : S) :
  wf (timers_of s) ->
  (forall i, i ∈ _timer_list (timers_of s) -> periodic (timer (timers_of s) i) = true ->
             0 < init_tick (timer (timers_of s) i)) ->
  Good (due (timers_of s)) s -> (length (due (timers_of s)) < fuel)%nat ->
  exists s', rt_timer_check fuel s = Ok s' /\
    fire_all (due (timers_of s)) (upd (with_check_list (fun _ => [])) s) = Ok s' /\
    Good [] s' /\ wf (timers_of s') /\ due (timers_of s') = [] /\
    fired (due (timers_of s)) (timers_of s) (timers_of s').
Proof.
  intros W Hper HG Hfuel. unfold rt_timer_check. set (s0 := upd _ s).
  assert (timers_of s0 = timers_of s) as E0.
  { unfold s0. rewrite timers_of_upd. destruct (wf_check _ W) as [Hc _].
    destruct (timers_of s). cbn in *. by subst. }
  unfold rt_tick_get. rewrite <- E0 in *. apply check_loop_spec; try done. by apply Good_timers.
Qed.

(** One tick of the clock, and the check that follows it. *)
Definition tick (s : S) : result S :=
  let s := upd (fun t => rt_tick_set (u32 (rt_tick_get t + 1)) t) s in
  rt_timer_check (Datatypes.S (length (_timer_list (timers_of s)))) s.
Fixpoint ticks (n : nat) (s : S) : result S :=
  match n with O => Ok s | Datatypes.S n => s ← tick s; ticks n s end.
End Fire.

Section Order2.
Context {I : Type} `{EqDecision I}.
Implicit Types (s : timers I) (i : I) (l : list I).

Lemma left_tick s i :
  0 < left s i -> left (rt_tick_set (u32 (rt_tick s + 1)) s) i = left s i - 1.
Proof. unfold left, rt_tick_set, u32. cbn. zmod. Qed.

Lemma no_due s i : wf s -> due s = [] -> i ∈ _timer_list s -> 0 < left s i.
Proof.
  intros W Hd Hi. pose proof (left_nonneg s i). enough (left s i <> 0) by lia. intros H0.
  assert (i ∈ due s) as Hin by (by apply list_elem_of_filter). rewrite Hd in Hin. inversion Hin.
Qed.

Lemma wf_tick_next s :
  wf s -> due s = [] -> _soft_timer_list s = [] -> wf (rt_tick_set (u32 (rt_tick s + 1)) s).
Proof.
  intros W Hd Hs. set (s' := rt_tick_set _ s).
  assert (ok_list s' false (_timer_list s)) as Hok.
  { destruct (wf_list _ W) as [Hn Hso He].
    assert (forall j, j ∈ _timer_list s -> left s' j = left s j - 1) as Hleft.
    { intros j Hj. apply left_tick. by apply no_due. }
    split; [done| |].
    - clear -Hso Hleft. induction Hso as [|x l Hso IH Hx]; constructor.
      + apply IH. intros j Hjl. apply Hleft. by constructor.
      + apply Forall_forall. intros y Hy. rewrite !Hleft by by constructor.
        pose proof (proj1 (Forall_forall _ _) Hx y Hy). cbn in *. lia.
    - apply Forall_forall. intros j Hj. rewrite Hleft by done.
      pose proof (proj1 (Forall_forall _ _) He j Hj) as (? & ? & ?). split_and!; [lia|done|done]. }
  split; try done; try apply W.
  - apply u32_range.
  - cbn. rewrite Hs. repeat constructor.
Qed.
End Order2.

(** A host that only notes which timers fired. *)
Definition logged (I : Type) : Type := list I * timers I.
#[export] Instance logged_host I : TimerHost I (logged I) := {
  timers_of := snd;
  set_timers t s := (fst s, t);
  timeout i s := Ok (fst s ++ [i], snd s);
  soft_started s := Ok s }.
#[export] Instance logged_laws I : TimerHostLaws I (logged I).
Proof. by split. Qed.

Section Logged.
Context {I : Type} `{EqDecision I}.
Implicit Types (s : logged I) (i : I) (l : list I).

(** The hypotheses that every tick of the clock keeps. *)
Record running (s : timers I) : Prop := {
  run_wf : wf s; run_due : due s = []; run_soft : _soft_timer_list s = [];
  run_periodic : forall i, i ∈ _timer_list s -> periodic (timer s i) = true ->
                           0 < init_tick (timer s i) }.

Lemma logged_calm i l s :
  True -> exists s', timeout i s = Ok s' /\ timers_of s' = timers_of s /\ True.
Proof. intros _. by exists (fst s ++ [i], snd s). Qed.

End Logged.

(** ** Properties: starting a timer *)

Section Start.
Context {I : Type} `{EqDecision I}.

(** C16: starting a hard timer.  Whatever state the timer was in, it is
    afterwards in the list exactly once with its full time left, behind every
    timer that expires no later and before every timer that expires later, the
    others keep their order, and the invariant (both lists sorted by the time
    left, modulo 2^32, and holding exactly the active timers) is kept. *)
Theorem rt_timer_start_sorted (i : I) (s : logged I) :
  wf (snd s) -> soft (timer (snd s) i) = false ->
  exists s' l1 l2, rt_timer_start i s = Ok s' /\ wf (snd s') /\
    left (snd s') i = init_tick (timer (snd s) i) /\
    del i (_timer_list (snd s)) = l1 ++ l2 /\ _timer_list (snd s') = l1 ++ i :: l2 /\
    Forall (fun j => left (snd s') j <= left (snd s') i) l1 /\
    Forall (fun j => left (snd s') i < left (snd s') j) l2.
Proof.
  intros W Hs. pose proof (timer_arm_spec i (snd s) W) as St.
  destruct (start_list _ _ _ St) as (l1 & l2 & Hl & H1 & H2). rewrite Hs in Hl.
  destruct Hl as (_ & E1 & E2). exists (fst s, timer_arm i (snd s)), l1, l2.
  unfold rt_timer_start.
  change (has_flag _ _) with (soft (timer (timer_arm i (snd s)) i)).
  rewrite (start_sf _ _ _ St), Hs. split_and!; try done; apply St.
Qed.

(** The state query of [rt_timer_control] returns the expiry: its case has no
    [break] and falls into the next one. *)
Lemma get_state_is_timeout (i : I) (s : timers I) (arg : Z) :
  rt_timer_control i RT_TIMER_CTRL_GET_STATE arg s =
  rt_timer_control i RT_TIMER_CTRL_GET_REMAIN_TIME arg s.
Proof. reflexivity. Qed.

(** A periodic timer with period 0 keeps a check busy for ever. *)
Lemma zero_period_loop fuel (s : logged I) i :
  wf (snd s) -> _timer_list (snd s) = [i] -> periodic (timer (snd s) i) = true ->
  init_tick (timer (snd s) i) = 0 -> left (snd s) i = 0 ->
  check_loop fuel (rt_tick (snd s)) s = Fault OutOfFuel.
Proof.
  revert s. induction fuel as [|fuel IH]; intros s W El Hp Hi Hl; [done|].
  destruct (fire_one_spec (fun _ _ => True) (fun _ _ _ _ => Logic.I) logged_calm i [] [] s W El Logic.I)
    as (s1 & s' & E1 & Ec & Et & E2 & _ & F).
  unfold fired_one in F. change (timers_of s) with (snd s) in F. rewrite Hp in F.
  destruct F as (t & D & St). destruct (drop_flag _ _ _ D) as (_ & _ & Dp & Ds).
  change (timers_of s') with (snd s') in St. change (timers_of s) with (snd s) in D.
  cbn [check_loop]. change (timers_of s) with (snd s). rewrite El, expired_left by (rewrite Hl; done).
  rewrite Hl. cbn [Z.eqb]. rewrite E1. cbn [mbind result_bind]. rewrite Ec. cbn [mbind result_bind].
  rewrite E2. cbn [mbind result_bind]. unfold rt_tick_get. rewrite Et.
  change (timers_of s) with (snd s). rewrite <- (drop_tick _ _ _ D), <- (start_tick _ _ _ St).
  change (timers_of s') with (snd s').
  apply IH.
  - apply St.
  - destruct (start_list _ _ _ St) as (l1 & l2 & Hk & _).
    pose proof (ok_each _ _ _ (wf_list _ W)) as He. rewrite El in He.
    apply Forall_cons in He as [(_ & _ & Hs) _]. rewrite Ds, Hs, (drop_list _ _ _ D), El in Hk.
    destruct Hk as (_ & Hnil & ->). unfold del in Hnil. rewrite !filter_cons_False in Hnil by tauto.
    by destruct l1, l2.
  - by rewrite (start_per _ _ _ St), Dp.
  - by rewrite (start_init _ _ _ St), (drop_init _ _ _ D).
  - by rewrite (start_left _ _ _ St), (drop_init _ _ _ D).
Qed.
End Start.

(** [rt_timer_control] accepts such a period. *)
Definition zero_period : logged nat :=
  ([], mk_timers 5 (fun i => mk_timer (match i with O => 3 | _ => 2 end) 0 5) [0%nat] [] [] [] false).
Lemma zero_period_hangs fuel : rt_timer_check fuel zero_period = Fault OutOfFuel.
Proof.
  apply (zero_period_loop fuel zero_period 0%nat); try done. split; try done.
  - intros [|i]; cbn; unfold half; lia.
  - split; [by apply (bool_decide_unpack _); vm_compute| |]; repeat constructor; vm_compute; done.
  - repeat constructor.
  - intros [|i]; vm_compute; [intros _; constructor|done].
Qed.

(** *** Witnesses *)

(** Tick 2^32 - 2; timer 0 (periodic, 3 ticks) and timer 1 (one shot) are due
    at the next tick but one, timer 2 later, across the wrap-around. *)
Definition example_timers : timers nat :=
  mk_timers 4294967294
    (fun i => match i with
              | 0%nat => mk_timer 3 3 0
              | 1%nat => mk_timer 1 7 0
              | 2%nat => mk_timer 1 9 1
              | _ => mk_timer 0 0 0
              end) [0%nat; 1%nat; 2%nat] [] [] [] false.

Lemma example_running : running example_timers.
Proof.
  split; [split| | |].
  - cbn. lia.
  - intros [|[|[|i]]]; cbn; unfold half; lia.
  - split; [by apply (bool_decide_unpack _); vm_compute| |].
    + repeat constructor; vm_compute; done.
    + repeat constructor; vm_compute; done.
  - repeat constructor.
  - intros [|[|[|i]]]; vm_compute; try done; intros _; repeat constructor.
  - done.
  - reflexivity.
  - reflexivity.
  - intros [|[|[|i]]]; cbn; intros; lia || done.
Qed.

Lemma rt_timer_start_sorted_witness :
  exists s' l1 l2, rt_timer_start 1%nat (([], example_timers) : logged nat) = Ok s' /\ wf (snd s') /\
    left (snd s') 1%nat = init_tick (timer example_timers 1%nat) /\
    del 1%nat [0%nat; 1%nat; 2%nat] = l1 ++ l2 /\ _timer_list (snd s') = l1 ++ 1%nat :: l2 /\
    Forall (fun j => left (snd s') j <= left (snd s') 1%nat) l1 /\
    Forall (fun j => left (snd s') 1%nat < left (snd s') j) l2.
Proof.
  apply (rt_timer_start_sorted 1%nat ([], example_timers)).
  - apply example_running.
  - reflexivity.
Defined.

End Timer.
