(* ===== verification/TimerCheck.v ===== *)
(** * The check of the timers, with timeout functions that call timers

    [rt_timer_check] (rt-thread/src/timer.c) runs the timeout functions of the
    timers that are due.  Here a timeout function is any program: it starts, stops,
    detaches and changes any timers, its own included, and decides by all that
    happened before.  Timers may also be overdue, when ticks went by without a
    check.  The order of a list is the order of the expiries after a tick [b] that
    lies behind all of them; [b] and the present tick are less than half a range
    apart, together with the longest time [M] of a timer.

    The theorems: a check ends, its log says which due timer fired and which one an
    earlier timeout function called off, and what the last word on each timer was;
    with a check at every tick a timer fires on time, whatever the timeout functions
    of the other timers do to the timers that are not it. *)

From Stdlib Require Import Sorted.
From stdpp Require Import functions.
From S2P Require Import Prelude Timer.

Module TimerCheck.
Import Timer.

(** ** Timeout functions *)

Section Calls.
Context {I : Type} `{EqDecision I}.

(** What a timeout function may call; [rt_timer_delete] does to the lists what
    [rt_timer_detach] does. *)
Inductive tcall :=
| Start (j : I) | Stop (j : I) | Detach (j : I)
| SetTime (j : I) (n : Z) | SetOneShot (j : I) | SetPeriodic (j : I).
(** What the log of a run says. *)
Inductive tev := Fired (i : I) | Called (c : tcall).

Definition target (c : tcall) : I :=
  match c with Start j | Stop j | Detach j | SetTime j _ | SetOneShot j | SetPeriodic j => j end.
Definition names (j : I) (c : tcall) : bool := bool_decide (target c = j).
(** The calls that put a timer in its list or take it out. *)
Definition moves (j : I) (c : tcall) : bool :=
  match c with Start _ | Stop _ | Detach _ => names j c | _ => false end.
Definition is_start (c : tcall) : bool := match c with Start _ => true | _ => false end.

Definition fired_of (tr : list tev) : list I := omap (fun e => match e with Fired i => Some i | Called _ => None end) tr.
Definition calls_of (tr : list tev) : list tcall := omap (fun e => match e with Fired _ => None | Called c => Some c end) tr.
Definition moved (j : I) (tr : list tev) : bool := existsb (moves j) (calls_of tr).
Definition named (j : I) (tr : list tev) : bool := existsb (names j) (calls_of tr).

(** The last word on a timer since it fired: it was started, or called off. *)
Definition say (j : I) (w : option bool) (e : tev) : option bool :=
  match e with
  | Fired i => if decide (i = j) then None else w
  | Called c => if moves j c then Some (is_start c) else w
  end.
Definition last_word (j : I) (tr : list tev) : option bool := foldl (say j) None tr.

(** The timers by themselves. *)
#[local] Instance bare_host : TimerHost I (timers I) := {
  timers_of s := s; set_timers t s := t; timeout _ s := Ok s; soft_started s := Ok s }.

Definition do_call (c : tcall) (s : timers I) : result (timers I) :=
  match c with
  | Start j => rt_timer_start j s
  | Stop j => Ok (snd (rt_timer_stop j s))
  | Detach j => Ok (rt_timer_detach j s)
  | SetTime j n => '(_, s) ← rt_timer_control j RT_TIMER_CTRL_SET_TIME n s; Ok s
  | SetOneShot j => '(_, s) ← rt_timer_control j RT_TIMER_CTRL_SET_ONESHOT 0 s; Ok s
  | SetPeriodic j => '(_, s) ← rt_timer_control j RT_TIMER_CTRL_SET_PERIODIC 0 s; Ok s
  end.

(** The log and the timers. *)
Definition scripted : Type := list tev * timers I.
Fixpoint run_calls (cs : list tcall) (s : scripted) : result scripted :=
  match cs with
  | [] => Ok s
  | c :: cs => t ← do_call c (snd s); run_calls cs (fst s ++ [Called c], t)
  end.
End Calls.
Arguments tcall I : clear implicits.
Arguments tev I : clear implicits.
Arguments scripted I : clear implicits.

(** The timeout function of [i] makes the calls [prog i], computed from the log and
    the timers at its beginning: what a function that asks the timers in between
    does is such a list too. *)
Definition program (I : Type) : Type := I -> list (tev I) -> timers I -> list (tcall I).
Definition scripted_host {I} `{EqDecision I} (prog : program I) : TimerHost I (scripted I) := {|
  timers_of := snd;
  set_timers t s := (fst s, t);
  timeout i s := run_calls (prog i (fst s ++ [Fired i]) (snd s)) (fst s ++ [Fired i], snd s);
  soft_started s := Ok s |}.

(** ** The invariant *)

Section Inv.
Context {I : Type} `{EqDecision I}.
Implicit Types (s : timers I) (i j : I) (l : list I).

(** The timers that are due, the overdue ones included, in the order of the list. *)
Definition expired s : list I :=
  filter (fun i => u32 (rt_tick s - timeout_tick (timer s i)) < half) (_timer_list s).

Definition within (M b : Z) s (sf : bool) l : Prop :=
  ok_list (rt_tick_set b s) sf l /\ u32 (rt_tick s - b) + M < half.

(** Times from 1 to [M]; both lists sorted from their ticks [b] and [c] on and made
    of active timers; a timer that fires is in no other list. *)
Record inv (M b c : Z) s : Prop := {
  iv_tick : 0 <= rt_tick s < 2 ^ 32;
  iv_timer j : 1 <= init_tick (timer s j) <= M /\ 0 <= flag (timer s j) < 8 /\ 0 <= timeout_tick (timer s j) < 2 ^ 32;
  iv_list : within M b s false (_timer_list s);
  iv_soft : within M c s true (_soft_timer_list s);
  iv_check j : j ∈ check_list s -> j ∉ _timer_list s /\ j ∉ _soft_timer_list s;
  iv_single : check_list s = [] \/ exists i, check_list s = [i];
  iv_soft_check : soft_check_list s = [] }.

(** In a list; active and in the list of its kind; inactive and in none. *)
Definition placed j s : Prop := j ∈ _timer_list s \/ j ∈ _soft_timer_list s \/ j ∈ check_list s.
Definition said (v : bool) j s : Prop :=
  if v then act (timer s j) = true /\ j ∈ (if soft (timer s j) then _soft_timer_list s else _timer_list s)
  else act (timer s j) = false /\ j ∉ _timer_list s /\ j ∉ _soft_timer_list s.

(** *** One timer removed *)

(** [s'] is [s] with the timer [j] in no list; its flag may have changed. *)
Record removed j s s' : Prop := {
  rm_tick : rt_tick s' = rt_tick s;
  rm_other k : k <> j -> timer s' k = timer s k;
  rm_fields : init_tick (timer s' j) = init_tick (timer s j) /\ timeout_tick (timer s' j) = timeout_tick (timer s j) /\
    0 <= flag (timer s' j) < 8 /\ soft (timer s' j) = soft (timer s j) /\ periodic (timer s' j) = periodic (timer s j);
  rm_list : _timer_list s' = del j (_timer_list s);
  rm_soft : _soft_timer_list s' = del j (_soft_timer_list s);
  rm_check : check_list s' = del j (check_list s);
  rm_soft_check : soft_check_list s' = del j (soft_check_list s) }.

Lemma del_idem j l : del j (del j l) = del j l.
Proof. apply del_notin. by intros [_ ?]%elem_of_del. Qed.
Lemma not_in_del j l : j ∉ del j l.
Proof. by intros [_ ?]%elem_of_del. Qed.

Lemma ok_list_del s s' sf j l :
  rt_tick s' = rt_tick s -> (forall k, k <> j -> timer s' k = timer s k) -> ok_list s sf l -> ok_list s' sf (del j l).
Proof.
  intros Ht Hk [Hn Hs He]. apply (ok_list_ext s); [intros k [_ Hj]%elem_of_del; by apply Hk|done|]. split.
  - by apply NoDup_filter.
  - by apply sorted_del.
  - apply Forall_forall. intros k [Hin _]%elem_of_del. by eapply Forall_forall in He.
Qed.
Lemma within_del M b s s' sf j l :
  rt_tick s' = rt_tick s -> (forall k, k <> j -> timer s' k = timer s k) -> within M b s sf l -> within M b s' sf (del j l).
Proof. intros Ht Hk [Hok Hl]. split; [|by rewrite Ht]. by apply (ok_list_del (rt_tick_set b s)). Qed.

Lemma single_del j l : (l = [] \/ exists i, l = [i]) -> del j l = [] \/ exists i, del j l = [i] /\ l = [i] /\ i <> j.
Proof.
  intros [->|[i ->]]; [by left|]. unfold del. destruct (decide (i = j)) as [->|Hi].
  - left. by rewrite filter_cons_False by tauto.
  - right. exists i. by rewrite filter_cons_True.
Qed.

Lemma inv_removed M b c j s s' : inv M b c s -> removed j s s' -> inv M b c s'.
Proof.
  intros V R. pose proof V as [Vt Vi Vl Vs Vc V1 V0]. pose proof R as [Rt Ro (Ri & Rto & Rf & _) Rl Rs Rc Rsc].
  split.
  - by rewrite Rt.
  - intros k. destruct (decide (k = j)) as [->|Hk]; [|rewrite Ro by done; apply Vi]. rewrite Ri, Rto. pose proof (Vi j). tauto.
  - rewrite Rl. by apply (within_del M b s).
  - rewrite Rs. by apply (within_del M c s).
  - intros k. rewrite Rc, Rl, Rs, !elem_of_del. intros [H%Vc _]. tauto.
  - rewrite Rc. destruct (single_del j _ V1) as [->|(i & -> & _)]; eauto.
  - by rewrite Rsc, V0.
Qed.

Lemma deactivated M b c j s : inv M b c s -> removed j s (deactivate j (_timer_remove j s)) /\ act (timer (deactivate j (_timer_remove j s)) j) = false.
Proof.
  intros V. destruct (iv_timer _ _ _ _ V j) as (_ & Hf & _).
  destruct (clear_act (flag (timer s j)) (init_tick (timer s j)) (timeout_tick (timer s j)) Hf) as (F1 & F2 & F3 & F4).
  split; [split|]; cbn; rewrite ?fn_lookup_insert; try done.
  intros k Hk. by rewrite fn_lookup_insert_ne.
Qed.
Lemma plainly_removed M b c j s : inv M b c s -> removed j s (_timer_remove j s).
Proof. intros V. destruct (iv_timer _ _ _ _ V j) as (_ & Hf & _). by split. Qed.

(** *** What is due *)

Lemma filter_del (P : I -> Prop) `{!forall x, Decision (P x)} j l : filter P (del j l) = del j (filter P l).
Proof. unfold del. rewrite !list_filter_filter. apply filter_ext_in. tauto. Qed.
Lemma expired_ext s s' l :
  rt_tick s' = rt_tick s -> (forall k, k ∈ l -> timer s' k = timer s k) ->
  filter (fun i => u32 (rt_tick s' - timeout_tick (timer s' i)) < half) l =
  filter (fun i => u32 (rt_tick s - timeout_tick (timer s i)) < half) l.
Proof. intros Ht Hk. apply filter_ext_in. intros k Hin. by rewrite Ht, Hk. Qed.
Lemma expired_removed j s s' : removed j s s' -> expired s' = del j (expired s).
Proof.
  intros R. unfold expired. rewrite (rm_list _ _ _ R), <- filter_del. apply expired_ext; [apply R|].
  intros k [_ Hk]%elem_of_del. by apply (rm_other _ _ _ R).
Qed.

(** Relative to the beginning of the list. *)
Lemma expired_left_b M b s i :
  u32 (rt_tick s - b) + M < half -> 1 <= M -> left (rt_tick_set b s) i < half ->
  (u32 (rt_tick s - timeout_tick (timer s i)) < half <-> left (rt_tick_set b s) i <= u32 (rt_tick s - b)).
Proof. unfold left, half, u32. cbn. intros. split; zmod. Qed.

Lemma expired_front M b c s i l :
  inv M b c s -> _timer_list s = i :: l ->
  expired s = if u32 (rt_tick s - timeout_tick (timer s i)) <? RT_TICK_MAX / 2
              then i :: filter (fun i => u32 (rt_tick s - timeout_tick (timer s i)) < half) l else [].
Proof.
  intros V E. destruct (iv_list _ _ _ _ V) as [[_ Hs He] Hl]. rewrite E in Hs, He. change (RT_TICK_MAX / 2) with half.
  pose proof (iv_timer _ _ _ _ V i) as [HM _]. unfold expired. rewrite E. inversion Hs as [|? ? _ Hle]; subst.
  apply Forall_cons in He as [(Hi & _) He].
  destruct (Z.ltb_spec (u32 (rt_tick s - timeout_tick (timer s i))) half) as [H|H]; [by rewrite filter_cons_True|].
  rewrite filter_cons_False by lia. pose proof (expired_left_b M b s i Hl ltac:(lia) Hi) as Hx.
  clear Hs E. induction l as [|x l IH]; [done|]. apply Forall_cons in Hle as [Hx1 Hle]. apply Forall_cons in He as [(Hx2 & _) He].
  rewrite filter_cons_False; [by apply IH|]. rewrite (expired_left_b M b) by (done || lia). lia.
Qed.

(** *** One timer started *)

Record armed_at j s s' : Prop := {
  aa_tick : rt_tick s' = rt_tick s;
  aa_other k : k <> j -> timer s' k = timer s k;
  aa_init : init_tick (timer s' j) = init_tick (timer s j);
  aa_timeout : timeout_tick (timer s' j) = u32 (rt_tick s + init_tick (timer s j));
  aa_flags : 0 <= flag (timer s' j) < 8 /\ act (timer s' j) = true /\ soft (timer s' j) = soft (timer s j) /\
             periodic (timer s' j) = periodic (timer s j);
  aa_lists : exists l1 l2,
    if soft (timer s j)
    then _timer_list s' = del j (_timer_list s) /\ del j (_soft_timer_list s) = l1 ++ l2 /\ _soft_timer_list s' = l1 ++ j :: l2
    else _soft_timer_list s' = del j (_soft_timer_list s) /\ del j (_timer_list s) = l1 ++ l2 /\ _timer_list s' = l1 ++ j :: l2;
  aa_check : check_list s' = del j (check_list s);
  aa_soft_check : soft_check_list s' = del j (soft_check_list s) }.

Lemma within_put M b s s' sf j l :
  1 <= init_tick (timer s j) <= M -> within M b s sf l -> rt_tick s' = rt_tick s ->
  (forall k, k <> j -> timer s' k = timer s k) -> timeout_tick (timer s' j) = u32 (rt_tick s + init_tick (timer s j)) ->
  act (timer s' j) = true -> soft (timer s' j) = sf ->
  forall tm, (forall k, k <> j -> tm k = timer s k) ->
  exists l1 l2, del j l = l1 ++ l2 /\ timer_insert tm j (timeout_tick (timer s' j)) (del j l) = l1 ++ j :: l2 /\
    within M b s' sf (l1 ++ j :: l2).
Proof.
  intros Hi [Hok Hl] Ht Ho Hto Ha Hs tm Htm.
  assert (left (rt_tick_set b s') j = u32 (rt_tick s - b) + init_tick (timer s j)) as El.
  { unfold left. cbn. rewrite Hto. unfold u32, half in *. zmod. }
  destruct (ok_list_insert j (rt_tick_set b s) (rt_tick_set b s') sf (del j l)) as (l1 & l2 & E1 & E2 & Hok' & _ & _); try done.
  - apply not_in_del.
  - by apply (ok_list_del (rt_tick_set b s)).
  - rewrite El. lia.
  - exists l1, l2. split; [done|]. split; [|by split; [|rewrite Ht]]. rewrite <- E2. apply timer_insert_ext.
    intros k [_ Hk]%elem_of_del. by apply Htm.
Qed.

Lemma arm_ok M b c j s : inv M b c s -> armed_at j s (timer_arm j s) /\ inv M b c (timer_arm j s).
Proof.
  intros V. unfold timer_arm. set (s1 := deactivate j (_timer_remove j s)).
  destruct (deactivated M b c j s V) as [R Ra]. fold s1 in R, Ra. destruct R as [Rt Ro (Ri & Rto & Rf & Rs & Rp) Rl Rsl Rc Rsc].
  rewrite Rt. set (s2 := with_timer _ j s1).
  assert (timer s2 j = mk_timer (flag (timer s1 j)) (init_tick (timer s j)) (u32 (rt_tick s + init_tick (timer s j)))) as E2.
  { unfold s2. cbn [timer with_timer]. by rewrite fn_lookup_insert, Ri. }
  assert (forall k, k <> j -> timer s2 k = timer s k) as E2k.
  { intros k Hk. unfold s2. cbn [timer with_timer]. by rewrite fn_lookup_insert_ne, Ro by done. }
  change (has_flag RT_TIMER_FLAG_SOFT_TIMER (timer s2 j)) with (soft (timer s2 j)).
  assert (soft (timer s2 j) = soft (timer s j)) as -> by (rewrite E2, <- Rs; done).
  set (s' := activate j _).
  assert (timer s' j = mk_timer (Z.lor (flag (timer s1 j)) RT_TIMER_FLAG_ACTIVATED) (init_tick (timer s j))
            (u32 (rt_tick s + init_tick (timer s j)))) as E3.
  { unfold s'. cbn [timer activate with_timer]. rewrite fn_lookup_insert.
    destruct (soft (timer s j)); cbn [timer with_list with_soft_list]; by rewrite E2. }
  destruct (set_act (flag (timer s1 j)) (init_tick (timer s j)) (u32 (rt_tick s + init_tick (timer s j))) Rf) as (Ff & Fa & Fp & Fs).
  rewrite <- E3 in Ff, Fa, Fp, Fs.
  assert (periodic (timer s' j) = periodic (timer s j)) as Ep by (rewrite Fp; exact Rp).
  assert (soft (timer s' j) = soft (timer s j)) as Es by (rewrite Fs; exact Rs).
  assert (rt_tick s' = rt_tick s) as Et by (unfold s'; destruct (soft (timer s j)); exact Rt).
  assert (forall k, k <> j -> timer s' k = timer s k) as Ek.
  { intros k Hk. unfold s'. cbn [timer activate with_timer]. rewrite fn_lookup_insert_ne by done.
    destruct (soft (timer s j)); by apply E2k. }
  assert (timeout_tick (timer s2 j) = timeout_tick (timer s' j)) as Eto by by rewrite E2, E3.
  pose proof (iv_timer _ _ _ _ V j) as (HM & _ & _).
  assert (check_list s' = del j (check_list s) /\ soft_check_list s' = del j (soft_check_list s)) as [Ec Esc].
  { unfold s'. by destruct (soft (timer s j)). }
  assert (exists l1 l2,
    (if soft (timer s j)
     then _timer_list s' = del j (_timer_list s) /\ del j (_soft_timer_list s) = l1 ++ l2 /\ _soft_timer_list s' = l1 ++ j :: l2
     else _soft_timer_list s' = del j (_soft_timer_list s) /\ del j (_timer_list s) = l1 ++ l2 /\ _timer_list s' = l1 ++ j :: l2) /\
    within M b s' false (_timer_list s') /\ within M c s' true (_soft_timer_list s')) as (l1 & l2 & HL & W1 & W2).
  { destruct (soft (timer s j)) eqn:Esf.
    - destruct (within_put M c s s' true j (_soft_timer_list s) HM (iv_soft _ _ _ _ V) Et Ek ltac:(by rewrite E3) Fa Es (timer s2) E2k)
        as (l1 & l2 & H1 & H2 & H3). exists l1, l2.
      assert (_soft_timer_list s' = l1 ++ j :: l2) as -> by (rewrite <- H2, <- Eto, <- Rsl; done).
      assert (_timer_list s' = del j (_timer_list s)) as -> by (rewrite <- Rl; done).
      split; [done|]. split; [|done]. apply (within_del M b s); [done|done|apply V].
    - destruct (within_put M b s s' false j (_timer_list s) HM (iv_list _ _ _ _ V) Et Ek ltac:(by rewrite E3) Fa Es (timer s2) E2k)
        as (l1 & l2 & H1 & H2 & H3). exists l1, l2.
      assert (_timer_list s' = l1 ++ j :: l2) as -> by (rewrite <- H2, <- Eto, <- Rl; done).
      assert (_soft_timer_list s' = del j (_soft_timer_list s)) as -> by (rewrite <- Rsl; done).
      split; [done|]. split; [done|]. apply (within_del M c s); [done|done|apply V]. }
  split.
  - split; [exact Et|exact Ek|by rewrite E3|by rewrite E3|done|by exists l1, l2|exact Ec|exact Esc].
  - split; [by rewrite Et; apply V| |exact W1|exact W2| | |by rewrite Esc, (iv_soft_check _ _ _ _ V)].
    + intros k. destruct (decide (k = j)) as [->|Hk]; [|rewrite Ek by done; apply V]. split_and!; [by rewrite E3; cbn; lia..|apply Ff|apply Ff| |];
        rewrite E3; cbn; apply u32_range.
    + intros k. rewrite Ec. intros [[Hk1 Hk2]%(iv_check _ _ _ _ V) Hkj]%elem_of_del.
      destruct (soft (timer s j)); destruct HL as (-> & HL & ->); split; try (intros [? ?]%elem_of_del; done);
        intros Hin; assert (k ∈ l1 ++ l2) as Hin' by (rewrite !elem_of_app, elem_of_cons in *; tauto);
        rewrite <- HL in Hin'; by apply elem_of_del in Hin' as [? _].
    + rewrite Ec. destruct (single_del j _ (iv_single _ _ _ _ V)) as [->|(i & -> & _)]; eauto.
Qed.

Lemma expired_armed M b c j s s' : inv M b c s -> armed_at j s s' -> expired s' = del j (expired s).
Proof.
  intros V A. pose proof A as [At Ao Ai Ato Af (l1 & l2 & HL) Ac _].
  assert (~ u32 (rt_tick s' - timeout_tick (timer s' j)) < half) as Hj.
  { rewrite At, Ato. destruct (iv_timer _ _ _ _ V j) as ([H1 H2] & _). destruct (iv_list _ _ _ _ V) as [_ Hl].
    pose proof (u32_range (rt_tick s - b)). unfold u32, half in *. zmod. }
  assert (_timer_list s' = del j (_timer_list s) \/ exists l1 l2, del j (_timer_list s) = l1 ++ l2 /\ _timer_list s' = l1 ++ j :: l2) as [E|(k1 & k2 & E1 & E)].
  { destruct (soft (timer s j)); [left; apply HL|right; exists l1, l2; apply HL]. }
  - unfold expired. rewrite E, <- filter_del. apply expired_ext; [done|]. intros k [_ Hk]%elem_of_del. by apply Ao.
  - unfold expired. rewrite E, <- filter_del, E1, !filter_app, filter_cons_False by done.
    rewrite <- !filter_app. apply expired_ext; [done|]. intros k Hk. apply Ao. intros ->. rewrite <- E1 in Hk. by apply not_in_del in Hk.
Qed.

(** ** What calls do *)

(** The calls keep the times within [M]. *)
Definition bounded (M : Z) (c : tcall I) : Prop := match c with SetTime _ n => 1 <= n <= M | _ => True end.
Definition word (j : I) (cs : list (tcall I)) : option bool := foldl (fun w c => if moves j c then Some (is_start c) else w) None cs.

Record called (cs : list (tcall I)) s s' : Prop := {
  cl_tick : rt_tick s' = rt_tick s;
  cl_kind j : soft (timer s' j) = soft (timer s j);
  cl_check j : j ∈ check_list s' -> j ∈ check_list s;
  cl_still j : existsb (moves j) cs = false ->
    act (timer s' j) = act (timer s j) /\ timeout_tick (timer s' j) = timeout_tick (timer s j) /\
    (j ∈ _timer_list s' <-> j ∈ _timer_list s) /\ (j ∈ _soft_timer_list s' <-> j ∈ _soft_timer_list s) /\
    (j ∈ check_list s' <-> j ∈ check_list s);
  cl_alone j : existsb (names j) cs = false -> timer s' j = timer s j;
  cl_word j v : word j cs = Some v -> said v j s';
  cl_due : expired s' = filter (fun j => existsb (moves j) cs = false) (expired s);
  cl_stray j : act (timer s' j) = true -> placed j s' \/ act (timer s j) = true /\ ~ placed j s;
  cl_pending j : j ∈ check_list s' -> act (timer s' j) = true -> act (timer s j) = true;
  cl_shot j : periodic (timer s j) = true -> periodic (timer s' j) = false -> SetOneShot j ∈ cs }.

Lemma moves_names j c : moves j c = true -> names j c = true.
Proof. by destruct c. Qed.
Lemma moves_named j cs : existsb (names j) cs = false -> existsb (moves j) cs = false.
Proof.
  intros H. destruct (existsb (moves j) cs) eqn:E; [|done]. apply existsb_exists in E as (c & Hc & E%moves_names).
  rewrite <- H. symmetry. apply existsb_exists. eauto.
Qed.

Lemma word_from j cs w :
  foldl (fun w c => if moves j c then Some (is_start c) else w) w cs = if existsb (moves j) cs then word j cs else w.
Proof.
  unfold word. revert w. induction cs as [|c cs IH]; intros w; cbn; [done|].
  rewrite IH. destruct (moves j c); cbn; [by rewrite (IH (Some _))|]. done.
Qed.
Lemma word_app j cs cs' :
  word j (cs ++ cs') = if existsb (moves j) cs' then word j cs' else word j cs.
Proof. unfold word at 1. rewrite foldl_app. apply word_from. Qed.

Lemma called_nil s : called [] s s.
Proof.
  split; try done.
  - clear. unfold expired. induction (filter _ _) as [|x l IH]; [done|]. rewrite filter_cons_True by done. by f_equal.
  - intros j Ha. destruct (decide (j ∈ _timer_list s)); [by left; left|]. destruct (decide (j ∈ _soft_timer_list s)); [by left; right; left|].
    destruct (decide (j ∈ check_list s)); [by left; right; right|]. right. split; [done|]. by intros [?|[?|?]].
  - by intros j -> .
Qed.

Lemma said_still v j s s' :
  act (timer s' j) = act (timer s j) -> soft (timer s' j) = soft (timer s j) ->
  (j ∈ _timer_list s' <-> j ∈ _timer_list s) -> (j ∈ _soft_timer_list s' <-> j ∈ _soft_timer_list s) ->
  said v j s -> said v j s'.
Proof. intros Ha Hs Hl Hsl. unfold said. rewrite Ha, Hs. destruct v; [|by rewrite Hl, Hsl]. by destruct (soft (timer s j)); rewrite ?Hl, ?Hsl. Qed.

Lemma called_app cs cs' s s1 s' : called cs s s1 -> called cs' s1 s' -> called (cs ++ cs') s s'.
Proof.
  intros A B. split.
  - by rewrite (cl_tick _ _ _ B), (cl_tick _ _ _ A).
  - intros j. by rewrite (cl_kind _ _ _ B), (cl_kind _ _ _ A).
  - intros j H. by apply (cl_check _ _ _ A), (cl_check _ _ _ B).
  - intros j. rewrite existsb_app. intros [Ha Hb]%orb_false_iff.
    destruct (cl_still _ _ _ A j Ha) as (E1 & E2 & E3 & E4 & E5). destruct (cl_still _ _ _ B j Hb) as (F1 & F2 & F3 & F4 & F5).
    rewrite F1, F2, F3, F4, F5. tauto.
  - intros j. rewrite existsb_app. intros [Ha Hb]%orb_false_iff. by rewrite (cl_alone _ _ _ B), (cl_alone _ _ _ A).
  - intros j v. rewrite word_app. destruct (existsb (moves j) cs') eqn:E; [apply B|]. intros Hw%(cl_word _ _ _ A).
    destruct (cl_still _ _ _ B j E) as (F1 & F2 & F3 & F4 & F5). by apply (said_still v j s1); [|apply B|..].
  - rewrite (cl_due _ _ _ B), (cl_due _ _ _ A), list_filter_filter. apply filter_ext_in. intros j _.
    rewrite existsb_app, orb_false_iff. tauto.
  - intros j [H|[H1 H2]]%(cl_stray _ _ _ B); [by left|]. destruct (cl_stray _ _ _ A j H1); [done|by right].
  - intros j Hc Ha. apply (cl_pending _ _ _ A); [by apply (cl_check _ _ _ B)|]. by apply (cl_pending _ _ _ B).
  - intros j Hp Hp'. apply elem_of_app. destruct (periodic (timer s1 j)) eqn:E; [right; by apply (cl_shot _ _ _ B)|left; by apply (cl_shot _ _ _ A)].
Qed.

(** A timer in a list is active; an inactive one is in none. *)
Lemma listed_active M b c s j : inv M b c s -> j ∈ _timer_list s \/ j ∈ _soft_timer_list s -> act (timer s j) = true.
Proof.
  intros V. destruct (iv_list _ _ _ _ V) as [[_ _ H1] _]. destruct (iv_soft _ _ _ _ V) as [[_ _ H2] _].
  intros [H|H]; [apply (proj1 (Forall_forall _ _) H1) in H|apply (proj1 (Forall_forall _ _) H2) in H]; tauto.
Qed.

Lemma no_moves j k c : target c = k -> existsb (moves j) [c] = false -> moves k c = true -> j <> k.
Proof. intros <- H Hm ->. cbn in H. rewrite Hm in H. done. Qed.
Lemma del_other j k l : j <> k -> j ∈ del k l <-> j ∈ l.
Proof. rewrite elem_of_del. tauto. Qed.

Lemma put_other j k l l1 l2 : del k l = l1 ++ l2 -> j <> k -> j ∈ l1 ++ k :: l2 <-> j ∈ l.
Proof. intros E Hj. rewrite <- (del_other j k l), E, !elem_of_app, elem_of_cons by done. tauto. Qed.

(** Taking a timer out of its list. *)
Lemma called_removed M b c0 c s s' :
  inv M b c0 s -> moves (target c) c = true -> is_start c = false -> removed (target c) s s' ->
  act (timer s' (target c)) = false -> called [c] s s'.
Proof.
  intros V Hm Hst R Ha. set (k := target c) in *. pose proof R as [Rt Ro (_ & _ & _ & Rs & Rp) Rl Rsl Rc _].
  assert (forall j, existsb (moves j) [c] = false -> j <> k) as Hne by (intros j Hj; by apply (no_moves j k c)).
  assert (forall j, moves j c = true -> j = k) as Heq.
  { intros j Hj%moves_names. unfold names in Hj. by apply bool_decide_eq_true in Hj as <-. }
  split.
  - done.
  - intros j. destruct (decide (j = k)) as [->|Hj]; [done|by rewrite Ro].
  - intros j. rewrite Rc. by intros [? _]%elem_of_del.
  - intros j Hj%Hne. rewrite Ro, Rl, Rsl, Rc, !del_other by done. done.
  - intros j Hj%moves_named%Hne. by apply Ro.
  - intros j v. unfold word. cbn. destruct (moves j c) eqn:E; [|done]. apply Heq in E as ->. intros [= <-]. rewrite Hst. unfold said.
    rewrite Rl, Rsl. split_and!; [done|apply not_in_del..].
  - rewrite (expired_removed k s s' R). unfold del. apply filter_ext_in. intros j _. cbn. rewrite orb_false_r. split.
    + intros Hj. destruct (moves j c) eqn:E; [|done]. by apply Heq in E.
    + intros Hj ->. congruence.
  - intros j Haj. assert (j <> k) as Hj by congruence. rewrite Ro in Haj by done. unfold placed. rewrite Rl, Rsl, Rc, !del_other by done.
    destruct (decide (j ∈ _timer_list s)); [by left; left|]. destruct (decide (j ∈ _soft_timer_list s)); [by left; right; left|].
    destruct (decide (j ∈ check_list s)); [by left; right; right|]. right. split; [done|]. tauto.
  - intros j _ Haj. assert (j <> k) as Hj by congruence. by rewrite Ro in Haj.
  - intros j. destruct (decide (j = k)) as [->|Hj]; [congruence|rewrite Ro by done; congruence].
Qed.

(** Starting one. *)
Lemma called_armed M b c0 k s s' : inv M b c0 s -> armed_at k s s' -> called [Start k] s s'.
Proof.
  intros V A. pose proof A as [At Ao Ai Ato (_ & Aa & As & Ap) (l1 & l2 & HL) Ac _].
  assert (forall j, existsb (moves j) [Start k] = false <-> j <> k) as Hne.
  { intros j. cbn. unfold names. cbn. rewrite orb_false_r, bool_decide_eq_false. split; congruence. }
  assert (forall j, j <> k -> (j ∈ _timer_list s' <-> j ∈ _timer_list s) /\ (j ∈ _soft_timer_list s' <-> j ∈ _soft_timer_list s)) as Hin.
  { intros j Hj. destruct (soft (timer s k)); destruct HL as (-> & HL & ->); by rewrite (del_other j k), (put_other j k _ _ _ HL). }
  split.
  - done.
  - intros j. destruct (decide (j = k)) as [->|Hj]; [done|by rewrite Ao].
  - intros j. rewrite Ac. by intros [? _]%elem_of_del.
  - intros j Hj%Hne. rewrite Ao, Ac, del_other by done. destruct (Hin j Hj). tauto.
  - intros j Hj%moves_named%Hne. by apply Ao.
  - intros j v. unfold word. cbn. unfold names. cbn. case_bool_decide as E; [|done]. subst j. intros [= <-]. cbn. split; [done|].
    rewrite As. destruct (soft (timer s k)); destruct HL as (_ & _ & ->); apply elem_of_app; right; by left.
  - rewrite (expired_armed M b c0 k s s' V A). unfold del. apply filter_ext_in. intros j _. by rewrite Hne.
  - intros j Haj. destruct (decide (j = k)) as [->|Hj].
    + left. unfold placed. destruct (soft (timer s k)); destruct HL as (_ & _ & ->); rewrite elem_of_app, elem_of_cons; tauto.
    + rewrite Ao in Haj by done. unfold placed. destruct (Hin j Hj) as [-> ->]. rewrite Ac, del_other by done.
      destruct (decide (j ∈ _timer_list s)); [by left; left|]. destruct (decide (j ∈ _soft_timer_list s)); [by left; right; left|].
      destruct (decide (j ∈ check_list s)); [by left; right; right|]. right. split; [done|]. tauto.
  - intros j Hj Haj. rewrite Ac in Hj. apply elem_of_del in Hj as [_ Hj]. by rewrite Ao in Haj.
  - intros j. destruct (decide (j = k)) as [->|Hj]; [congruence|rewrite Ao by done; congruence].
Qed.

(** Changing the time or the kind. *)
Lemma set_kind f a b' :
  0 <= f < 8 ->
  (let t := mk_timer (clear_bits f RT_TIMER_FLAG_PERIODIC) a b' in
   0 <= flag t < 8 /\ act t = act (mk_timer f a b') /\ soft t = soft (mk_timer f a b')) /\
  (let t := mk_timer (Z.lor f RT_TIMER_FLAG_PERIODIC) a b' in
   0 <= flag t < 8 /\ act t = act (mk_timer f a b') /\ soft t = soft (mk_timer f a b') /\ periodic t = true).
Proof. intros Hf. cbv zeta. pattern f. apply flags_enum; [done|vm_compute; by split_and!..]. Qed.

Lemma ok_list_same s s' sf l :
  (forall j, j ∈ l -> act (timer s' j) = act (timer s j) /\ soft (timer s' j) = soft (timer s j) /\ timeout_tick (timer s' j) = timeout_tick (timer s j)) ->
  rt_tick s' = rt_tick s -> ok_list s sf l -> ok_list s' sf l.
Proof.
  intros H Ht [Hn Hs He]. assert (forall j, j ∈ l -> left s' j = left s j) as El.
  { intros j Hj. unfold left. destruct (H j Hj) as (_ & _ & ->). by rewrite Ht. }
  split; [done| |].
  - clear -Hs El. induction Hs as [|x l Hs IH Hx]; constructor.
    + apply IH. intros j Hj. apply El. by right.
    + apply Forall_forall. intros y Hy. rewrite !El by (by left || by right). by eapply Forall_forall in Hx.
  - apply Forall_forall. intros j Hj. rewrite El by done. destruct (H j Hj) as (-> & -> & _). by eapply Forall_forall in He.
Qed.
Lemma called_changed M b c0 c t s :
  inv M b c0 s -> (forall j, moves j c = false) -> 1 <= init_tick t <= M -> 0 <= flag t < 8 ->
  timeout_tick t = timeout_tick (timer s (target c)) -> act t = act (timer s (target c)) -> soft t = soft (timer s (target c)) ->
  (periodic (timer s (target c)) = true -> periodic t = false -> c = SetOneShot (target c)) ->
  let s' := with_timer (fun _ => t) (target c) s in called [c] s s' /\ inv M b c0 s'.
Proof.
  intros V Hm Hi Hf Hto Ha Hs Hp s'. set (k := target c) in *.
  assert (forall j, j <> k -> timer s' j = timer s j) as Ho by (intros j Hj; unfold s'; cbn; by rewrite fn_lookup_insert_ne).
  assert (timer s' k = t) as Ek by (unfold s'; cbn; by rewrite fn_lookup_insert).
  assert (forall j, act (timer s' j) = act (timer s j) /\ soft (timer s' j) = soft (timer s j) /\ timeout_tick (timer s' j) = timeout_tick (timer s j)) as Hall.
  { intros j. destruct (decide (j = k)) as [->|Hj]; [by rewrite Ek|by rewrite Ho]. }
  split.
  - split; try done.
    + intros j. apply Hall.
    + intros j _. destruct (Hall j) as (-> & _ & ->). done.
    + intros j Hj. apply Ho. intros ->. cbn in Hj. unfold names in Hj. rewrite bool_decide_true in Hj by done. done.
    + intros j v. unfold word. cbn. by rewrite Hm.
    + unfold expired. change (_timer_list s') with (_timer_list s). rewrite list_filter_filter. apply filter_ext_in. intros j _.
      cbn. rewrite Hm. destruct (Hall j) as (_ & _ & E). change (timer s') with (timer s') in E. cbn in E. rewrite E. tauto.
    + intros j Haj. destruct (Hall j) as (Ea & _). rewrite Ea in Haj. unfold placed. change (_timer_list s') with (_timer_list s).
      change (_soft_timer_list s') with (_soft_timer_list s). change (check_list s') with (check_list s).
      destruct (decide (j ∈ _timer_list s)); [by left; left|]. destruct (decide (j ∈ _soft_timer_list s)); [by left; right; left|].
      destruct (decide (j ∈ check_list s)); [by left; right; right|]. right. split; [done|]. tauto.
    + intros j _ Haj. by destruct (Hall j) as (<- & _).
    + intros j Hp1 Hp2. destruct (decide (j = k)) as [->|Hj]; [|rewrite Ho in Hp2 by done; congruence].
      rewrite Ek in Hp2. rewrite (Hp Hp1 Hp2). by left.
  - pose proof V as [Vt Vi Vl Vs Vc V1 V0]. split; try done.
    + intros j. destruct (decide (j = k)) as [->|Hj]; [|rewrite Ho by done; apply Vi]. rewrite Ek, Hto. pose proof (Vi k). tauto.
    + destruct Vl as [Hl L]. split; [|done]. apply (ok_list_same (rt_tick_set b s)); [|done|done]. intros j _. apply Hall.
    + destruct Vs as [Hl L]. split; [|done]. apply (ok_list_same (rt_tick_set c0 s)); [|done|done]. intros j _. apply Hall.
Qed.
End Inv.
Section Run.
Context {I : Type} `{EqDecision I}.
Implicit Types (s : timers I) (i j : I) (l : list I).

Lemma called_idle M b c0 k s : inv M b c0 s -> act (timer s k) = false -> called [Stop k] s s.
Proof.
  intros V Ha. assert (k ∉ _timer_list s /\ k ∉ _soft_timer_list s) as [Hl Hs].
  { split; intros H; pose proof (listed_active M b c0 s k V) as Hx; rewrite Hx in Ha; auto; done. }
  split; try done.
  - intros j v. unfold word. cbn. unfold names. cbn. case_bool_decide as E; [|done]. subst j. intros [= <-]. done.
  - unfold expired. rewrite list_filter_filter. apply filter_ext_in. intros j Hj. cbn. unfold names. cbn.
    rewrite orb_false_r, bool_decide_eq_false. split; [|tauto]. intros H. split; [|done]. by intros ->.
  - intros j Haj. unfold placed.
    destruct (decide (j ∈ _timer_list s)); [by left; left|]. destruct (decide (j ∈ _soft_timer_list s)); [by left; right; left|].
    destruct (decide (j ∈ check_list s)); [by left; right; right|]. right. split; [done|]. tauto.
  - congruence.
Qed.

Lemma do_call_ok M b c0 c s :
  inv M b c0 s -> bounded M c -> exists s', do_call c s = Ok s' /\ called [c] s s' /\ inv M b c0 s'.
Proof.
  intros V Hb. destruct c as [k|k|k|k n|k|k]; cbn [do_call].
  - destruct (arm_ok M b c0 k s V) as [A V']. exists (timer_arm k s). unfold rt_timer_start. cbn [timers_of set_timers upd soft_started].
    split; [by destruct (has_flag _ _)|]. split; [by eapply called_armed|done].
  - unfold rt_timer_stop. fold (act (timer s k)). destruct (act (timer s k)) eqn:Ha; cbn [snd].
    + destruct (deactivated M b c0 k s V) as [R Hd]. eexists. split; [done|]. split; [|by eapply inv_removed].
      apply (called_removed M b c0); try done. cbn. by apply bool_decide_eq_true.
    + exists s. split; [done|]. split; [by eapply called_idle|done].
  - destruct (deactivated M b c0 k s V) as [R Hd]. eexists. split; [done|]. split; [|by eapply inv_removed].
    apply (called_removed M b c0); try done. cbn. by apply bool_decide_eq_true.
  - cbn in Hb. unfold rt_timer_control. cbn [Z.eqb RT_TIMER_CTRL_SET_TIME RT_TIMER_CTRL_GET_TIME].
    change (RT_TIMER_CTRL_SET_TIME =? RT_TIMER_CTRL_GET_TIME) with false. change (RT_TIMER_CTRL_SET_TIME =? RT_TIMER_CTRL_SET_TIME) with true.
    cbv match. destruct (iv_list _ _ _ _ V) as [_ HM]. pose proof (u32_range (rt_tick s - b)).
    change (RT_TICK_MAX / 2) with half. replace (n <? half) with true by lia. cbn [rt_assert mbind result_bind].
    eexists. split; [done|]. destruct (iv_timer _ _ _ _ V k) as (Hi & Hf & Hto).
    apply (called_changed M b c0 (SetTime k n) (mk_timer (flag (timer s k)) n (timeout_tick (timer s k))) s V); cbn; try done.
    intros Hp Hp'. unfold periodic, has_flag in *. cbn in Hp'. congruence.
  - destruct (iv_timer _ _ _ _ V k) as (Hi & Hf & Hto).
    destruct (set_kind (flag (timer s k)) (init_tick (timer s k)) (timeout_tick (timer s k)) Hf) as [(F1 & F2 & F3) _].
    eexists. split; [done|].
    apply (called_changed M b c0 (SetOneShot k) (set_flag (clear_bits (flag (timer s k)) RT_TIMER_FLAG_PERIODIC) (timer s k)) s V); cbn; done.
  - destruct (iv_timer _ _ _ _ V k) as (Hi & Hf & Hto).
    destruct (set_kind (flag (timer s k)) (init_tick (timer s k)) (timeout_tick (timer s k)) Hf) as [_ (F1 & F2 & F3 & F4)].
    eexists. split; [done|].
    apply (called_changed M b c0 (SetPeriodic k) (set_flag (Z.lor (flag (timer s k)) RT_TIMER_FLAG_PERIODIC) (timer s k)) s V); cbn; try done.
    intros _ Hp. unfold set_flag in Hp. congruence.
Qed.

Lemma run_calls_ok M b c0 cs tr s :
  inv M b c0 s -> Forall (bounded M) cs ->
  exists s', run_calls cs (tr, s) = Ok (tr ++ map Called cs, s') /\ called cs s s' /\ inv M b c0 s'.
Proof.
  intros V Hb. revert tr s V. induction Hb as [|c cs Hc Hb IH]; intros tr s V; cbn [run_calls map].
  - exists s. rewrite app_nil_r. split; [done|]. split; [apply called_nil|done].
  - destruct (do_call_ok M b c0 c s V Hc) as (s1 & E1 & C1 & V1). cbn [fst snd]. rewrite E1. cbn [mbind result_bind].
    destruct (IH (tr ++ [Called c]) s1 V1) as (s2 & E2 & C2 & V2). exists s2. rewrite E2, <- (assoc_L app).
    split; [done|]. split; [|done]. by apply (called_app [c] cs s s1).
Qed.

(** ** One round of the loop *)

Lemma within_same M b s s' sf l : rt_tick s' = rt_tick s -> timer s' = timer s -> within M b s sf l -> within M b s' sf l.
Proof.
  intros Ht Hk [Hl L]. split; [|by rewrite Ht]. apply (ok_list_same (rt_tick_set b s)); [|done|done]. intros j _. cbn. by rewrite Hk.
Qed.

(** The timer [i] at the head leaves the list to be fired. *)
Record taken i l s s' : Prop := {
  tk_tick : rt_tick s' = rt_tick s;
  tk_other k : k <> i -> timer s' k = timer s k;
  tk_own : init_tick (timer s' i) = init_tick (timer s i) /\ timeout_tick (timer s' i) = timeout_tick (timer s i) /\
           soft (timer s' i) = soft (timer s i) /\ periodic (timer s' i) = periodic (timer s i) /\
           act (timer s' i) = periodic (timer s i);
  tk_list : _timer_list s' = l;
  tk_soft : _soft_timer_list s' = _soft_timer_list s;
  tk_check : check_list s' = [i];
  tk_due : expired s' = filter (fun i => u32 (rt_tick s - timeout_tick (timer s i)) < half) l }.

Lemma head_facts M b c0 i l s :
  inv M b c0 s -> _timer_list s = i :: l -> i ∉ l /\ i ∉ _soft_timer_list s /\ act (timer s i) = true /\ soft (timer s i) = false.
Proof.
  intros V E. destruct (iv_list _ _ _ _ V) as [[Hn _ He] _]. destruct (iv_soft _ _ _ _ V) as [[_ _ Hs] _].
  rewrite E in Hn, He. apply NoDup_cons in Hn as [Hn _]. apply Forall_cons in He as [(_ & Ha & Hk) _].
  split_and!; try done. intros Hin. apply (proj1 (Forall_forall _ _) Hs) in Hin as (_ & _ & Hin). cbn in *. congruence.
Qed.

Lemma take_ok M b c0 i l s :
  inv M b c0 s -> check_list s = [] -> _timer_list s = i :: l ->
  taken i l s (take_expired with_check_list i s) /\ inv M b c0 (take_expired with_check_list i s).
Proof.
  intros V Hc E. destruct (head_facts M b c0 i l s V E) as (Hl & Hs & Ha & Hk). unfold take_expired.
  set (s1 := if has_flag _ _ then _ else _).
  assert (removed i s s1 /\ act (timer s1 i) = periodic (timer s i)) as [R Ra].
  { unfold s1. change (has_flag RT_TIMER_FLAG_PERIODIC (timer (_timer_remove i s) i)) with (periodic (timer s i)).
    destruct (periodic (timer s i)) eqn:Ep; [split; [by eapply plainly_removed|exact Ha]|by eapply deactivated]. }
  clearbody s1. pose proof (inv_removed M b c0 i s s1 V R) as V1. pose proof R as [Rt Ro (Ri & Rto & Rf & Rs & Rp) Rl Rsl Rc Rsc].
  assert (del i (_timer_list s) = l) as El.
  { rewrite E. unfold del. rewrite filter_cons_False by tauto. by apply del_notin. }
  assert (del i (_soft_timer_list s) = _soft_timer_list s) as Es by by apply del_notin.
  split.
  - split; cbn; try done; [by rewrite Rl|by rewrite Rsl|by rewrite Rc, Hc|].
    unfold expired. cbn. rewrite Rl, El. apply expired_ext; [done|]. intros k Hk'. apply Ro. by intros ->.
  - pose proof V1 as [Vt Vi Vl Vs Vc V1' V0]. split; [exact Vt|exact Vi|by apply (within_same M b s1)|by apply (within_same M c0 s1)| | |exact V0].
    + intros k. cbn. rewrite Rc, Hc, elem_of_cons. intros [->|H]; [|by apply not_elem_of_nil in H].
      rewrite Rl, Rsl, El, Es. done.
    + cbn. rewrite Rc, Hc. by right; exists i.
Qed.

(** The end of a round. *)
Definition finish i s : timers I :=
  let s := _timer_remove i s in if periodic (timer s i) && act (timer s i) then timer_arm i (deactivate i s) else s.

(** What happened from [s] to [s'], with the log [tr], both states between rounds.
    Timers fire in the order they are due in, each at most once ([pg_due]); one that
    is no longer due has fired or was moved ([pg_lost]); a timer that was moved does
    not fire any more ([pg_stop], [pg_order]).  A timer that neither fired nor was
    moved stays where it was ([pg_still]), as it was when no call named it
    ([pg_alone]); one that fired and no call named is in the list again with its
    full time, or inactive ([pg_again]).  After a start the timer is active and in
    the list of its kind, after a stop or detach inactive and in none ([pg_word]).
    Only a periodic timer made one-shot can be left active in no list ([pg_stray]). *)
Record progress (tr : list (tev I)) s s' : Prop := {
  pg_tick : rt_tick s' = rt_tick s;
  pg_kind j : soft (timer s' j) = soft (timer s j);
  pg_due : fired_of tr ++ expired s' `sublist_of` expired s;
  pg_lost j : j ∈ expired s -> j ∈ fired_of tr \/ moved j tr = true \/ j ∈ expired s';
  pg_stop j : moved j tr = true -> j ∉ expired s';
  pg_order j tr1 tr2 : tr = tr1 ++ Fired j :: tr2 -> moved j tr1 = false;
  pg_still j : j ∉ fired_of tr -> moved j tr = false ->
    act (timer s' j) = act (timer s j) /\ timeout_tick (timer s' j) = timeout_tick (timer s j) /\
    (j ∈ _timer_list s' <-> j ∈ _timer_list s) /\ (j ∈ _soft_timer_list s' <-> j ∈ _soft_timer_list s);
  pg_alone j : j ∉ fired_of tr -> named j tr = false -> timer s' j = timer s j;
  pg_again j : j ∈ fired_of tr -> named j tr = false ->
    init_tick (timer s' j) = init_tick (timer s j) /\ periodic (timer s' j) = periodic (timer s j) /\
    if periodic (timer s j)
    then act (timer s' j) = true /\ j ∈ _timer_list s' /\ timeout_tick (timer s' j) = u32 (rt_tick s + init_tick (timer s j))
    else act (timer s' j) = false /\ j ∉ _timer_list s';
  pg_word j v : last_word j tr = Some v -> said v j s';
  pg_stray j : act (timer s' j) = true ->
    (j ∈ _timer_list s' \/ j ∈ _soft_timer_list s') \/
    (act (timer s j) = true /\ j ∉ _timer_list s /\ j ∉ _soft_timer_list s) \/ SetOneShot j ∈ calls_of tr }.

Lemma fired_app (tr tr' : list (tev I)) : fired_of (tr ++ tr') = fired_of tr ++ fired_of tr'.
Proof. apply omap_app. Qed.
Lemma calls_app (tr tr' : list (tev I)) : calls_of (tr ++ tr') = calls_of tr ++ calls_of tr'.
Proof. apply omap_app. Qed.
Lemma moved_app j (tr tr' : list (tev I)) : moved j (tr ++ tr') = moved j tr || moved j tr'.
Proof. unfold moved. by rewrite calls_app, existsb_app. Qed.
Lemma named_app j (tr tr' : list (tev I)) : named j (tr ++ tr') = named j tr || named j tr'.
Proof. unfold named. by rewrite calls_app, existsb_app. Qed.
Lemma moved_named j (tr : list (tev I)) : named j tr = false -> moved j tr = false.
Proof. apply moves_named. Qed.

Definition about (j : I) (tr : list (tev I)) : Prop := j ∈ fired_of tr \/ moved j tr = true.
Lemma about_fired j i tr : about j (Fired i :: tr) <-> i = j \/ about j tr.
Proof.
  unfold about. change (fired_of (Fired i :: tr)) with (i :: fired_of tr). change (moved j (Fired i :: tr)) with (moved j tr).
  rewrite elem_of_cons. naive_solver.
Qed.
Lemma about_called j c tr : about j (Called c :: tr) <-> moves j c = true \/ about j tr.
Proof.
  unfold about. change (fired_of (Called c :: tr)) with (fired_of tr). change (moved j (Called c :: tr)) with (moves j c || moved j tr).
  rewrite orb_true_iff. tauto.
Qed.
#[local] Instance about_dec j tr : Decision (about j tr).
Proof. unfold about. apply _. Defined.
Lemma last_word_from j (tr : list (tev I)) w :
  foldl (say j) w tr = if decide (about j tr) then last_word j tr else w.
Proof.
  unfold last_word. revert w. induction tr as [|e tr IH]; intros w.
  { rewrite decide_False; [done|]. intros [H|H]; [by apply not_elem_of_nil in H|done]. }
  cbn [foldl]. rewrite IH, (IH (say j None e)). destruct (decide (about j tr)) as [H|H].
  - rewrite decide_True; [done|]. destruct e; rewrite ?about_fired, ?about_called; tauto.
  - destruct e as [i|c]; cbn [say].
    + destruct (decide (i = j)) as [Hi|Hi]; [rewrite decide_True by (rewrite about_fired; tauto)|rewrite decide_False by (rewrite about_fired; tauto)]; done.
    + destruct (moves j c) eqn:E; [rewrite decide_True by (rewrite about_called; tauto)|rewrite decide_False by (rewrite about_called, E; intros [?|?]; done)]; done.
Qed.

Lemma progress_nil s : check_list s = [] -> progress [] s s.
Proof.
  intros Hc. split; try done.
  - intros j H. by right; right.
  - by intros j [|] tr2.
  - intros j H. by apply not_elem_of_nil in H.
  - intros j Ha. destruct (decide (j ∈ _timer_list s)); [by left; left|]. destruct (decide (j ∈ _soft_timer_list s)); [by left; right|]. by right; left.
Qed.

Lemma progress_app tr tr' s s1 s' :
  NoDup (expired s) -> progress tr s s1 -> progress tr' s1 s' -> progress (tr ++ tr') s s'.
Proof.
  intros Hnd A B.
  assert (forall j, j ∈ fired_of tr' -> j ∈ expired s1) as Hin.
  { intros j Hj. apply (elem_of_submseteq (fired_of tr' ++ expired s')); [apply elem_of_app; by left|].
    apply sublist_submseteq, (pg_due _ _ _ B). }
  assert (forall j, j ∈ fired_of tr -> j ∉ expired s1) as Hout.
  { intros j Hj Hj'. pose proof (sublist_NoDup _ _ Hnd (pg_due _ _ _ A)) as Hx. apply NoDup_app in Hx as (_ & Hx & _). by apply (Hx j). }
  split.
  - by rewrite (pg_tick _ _ _ B), (pg_tick _ _ _ A).
  - intros j. by rewrite (pg_kind _ _ _ B), (pg_kind _ _ _ A).
  - rewrite fired_app, <- (assoc_L app). etrans; [|apply A]. apply sublist_app; [done|apply B].
  - intros j Hj. rewrite fired_app, moved_app, elem_of_app, orb_true_iff.
    destruct (pg_lost _ _ _ A j Hj) as [H|[H|H]]; [tauto..|]. destruct (pg_lost _ _ _ B j H) as [H'|[H'|H']]; tauto.
  - intros j. rewrite moved_app, orb_true_iff. intros [H|H]; [|by apply B].
    intros Hj. apply (pg_stop _ _ _ A j H). apply (elem_of_submseteq (fired_of tr' ++ expired s')); [apply elem_of_app; by right|].
    apply sublist_submseteq, (pg_due _ _ _ B).
  - intros j tr1 tr2 E. destruct (app_eq_inv _ _ _ _ E) as [(k & E1 & E2)|(k & E1 & E2)].
    + destruct k as [|e k].
      * rewrite app_nil_r in E1. subst tr1. cbn in E2.
        destruct (moved j tr) eqn:Em; [|done]. exfalso. apply (pg_stop _ _ _ A j Em), Hin. rewrite <- E2. cbn. by left.
      * injection E2 as <- E2. by apply (pg_order _ _ _ A j tr1 k).
    + subst tr1. rewrite moved_app. apply orb_false_iff. split; [|by apply (pg_order _ _ _ B j k tr2)].
      destruct (moved j tr) eqn:Em; [|done]. exfalso. apply (pg_stop _ _ _ A j Em), Hin. rewrite E2, fired_app. apply elem_of_app. right. by left.
  - intros j. rewrite fired_app, moved_app, not_elem_of_app, orb_false_iff. intros [H1 H2] [H3 H4].
    destruct (pg_still _ _ _ A j H1 H3) as (E1 & E2 & E3 & E4). destruct (pg_still _ _ _ B j H2 H4) as (F1 & F2 & F3 & F4).
    rewrite F1, F2, F3, F4. done.
  - intros j. rewrite fired_app, named_app, not_elem_of_app, orb_false_iff. intros [H1 H2] [H3 H4].
    by rewrite (pg_alone _ _ _ B), (pg_alone _ _ _ A).
  - intros j. rewrite fired_app, named_app, elem_of_app, orb_false_iff. intros Hj [H3 H4].
    destruct (decide (j ∈ fired_of tr)) as [Hf|Hf].
    + assert (j ∉ fired_of tr') as Hf' by (intros ?%Hin; by apply (Hout j)).
      destruct (pg_again _ _ _ A j Hf H3) as (E1 & E2 & E3). rewrite (pg_alone _ _ _ B j Hf' H4).
      destruct (pg_still _ _ _ B j Hf' (moved_named _ _ H4)) as (_ & _ & F3 & _). split; [done|]. split; [done|]. destruct (periodic (timer s j)); tauto.
    + destruct Hj as [?|Hj]; [done|]. destruct (pg_again _ _ _ B j Hj H4) as (E1 & E2 & E3).
      rewrite (pg_alone _ _ _ A j Hf H3) in E1, E2, E3. rewrite (pg_tick _ _ _ A) in E3. done.
  - intros j v. unfold last_word. rewrite foldl_app. rewrite last_word_from.
    destruct (decide (about j tr')) as [H|H]; [apply B|]. intros Hw%(pg_word _ _ _ A). unfold about in H.
    destruct (pg_still _ _ _ B j) as (F1 & F2 & F3 & F4); [tauto|destruct (moved j tr'); tauto|].
    by apply (said_still v j s1); [|apply B|..].
  - intros j Ha. rewrite calls_app, elem_of_app. destruct (pg_stray _ _ _ B j Ha) as [H|[(H1 & H2 & H3)|H]]; [by left| |tauto].
    destruct (pg_stray _ _ _ A j H1) as [H|[H|H]]; tauto.
Qed.

(** What the end of a round does to the timer that fired, when no call moved it. *)
Record finished i s s' : Prop := {
  fn_tick : rt_tick s' = rt_tick s;
  fn_other k : k <> i -> timer s' k = timer s k /\ (k ∈ _timer_list s' <-> k ∈ _timer_list s) /\ (k ∈ _soft_timer_list s' <-> k ∈ _soft_timer_list s);
  fn_check : check_list s' = [];
  fn_due : expired s' = expired s;
  fn_kind : soft (timer s' i) = soft (timer s i);
  fn_own : if periodic (timer s i) && act (timer s i)
    then act (timer s' i) = true /\ i ∈ (if soft (timer s i) then _soft_timer_list s' else _timer_list s') /\
         timeout_tick (timer s' i) = u32 (rt_tick s + init_tick (timer s i)) /\
         init_tick (timer s' i) = init_tick (timer s i) /\ periodic (timer s' i) = periodic (timer s i)
    else timer s' i = timer s i /\ i ∉ _timer_list s' /\ i ∉ _soft_timer_list s' }.

Lemma finish_ok M b c0 i s : inv M b c0 s -> check_list s = [i] -> finished i s (finish i s) /\ inv M b c0 (finish i s).
Proof.
  intros V Hc. destruct (iv_check _ _ _ _ V i) as [Hl Hs]; [rewrite Hc; by left|].
  assert (i ∉ expired s) as He by (unfold expired; intros [_ ?]%list_elem_of_filter; done).
  assert (del i [i] = []) as Ed by (unfold del; by rewrite filter_cons_False by tauto).
  unfold finish. change (timer (_timer_remove i s) i) with (timer s i).
  destruct (periodic (timer s i) && act (timer s i)) eqn:Eb.
  - destruct (deactivated M b c0 i s V) as [R _]. set (s1 := deactivate i (_timer_remove i s)) in *.
    pose proof (inv_removed _ _ _ _ _ _ V R) as V1. destruct (arm_ok M b c0 i s1 V1) as [A V2]. split; [|done].
    set (s2 := timer_arm i s1) in *. pose proof (expired_armed M b c0 i s1 s2 V1 A) as E2. pose proof (expired_removed i s s1 R) as E1.
    destruct R as [Rt Ro (Ri & Rto & Rf & Rs & Rp) Rl Rsl Rc _]. destruct A as [At Ao Ai Ato (_ & Aa & As & Ap) (l1 & l2 & HL) Ac _].
    rewrite Rs in HL. rewrite Rl, Rsl, !del_idem, !del_notin in HL by done. split.
    + congruence.
    + intros k Hk. split; [by rewrite Ao, Ro|].
      assert (k ∈ l1 ++ i :: l2 <-> k ∈ l1 ++ l2) as Hput by (rewrite !elem_of_app, elem_of_cons; tauto).
      destruct (soft (timer s i)); destruct HL as (-> & -> & ->); tauto.
    + by rewrite Ac, Rc, Hc, !Ed.
    + by rewrite E2, E1, !del_notin by (rewrite ?del_notin; done).
    + congruence.
    + rewrite Eb. split_and!; try congruence. destruct (soft (timer s i)); destruct HL as (_ & _ & ->); apply elem_of_app; right; by left.
  - pose proof (plainly_removed M b c0 i s V) as R. split; [|by eapply inv_removed].
    pose proof (expired_removed i s _ R) as E1. set (s1 := _timer_remove i s) in *.
    destruct R as [Rt Ro (Ri & Rto & Rf & Rs & Rp) Rl Rsl Rc _]. rewrite !del_notin in Rl, Rsl by done. split; try done.
    + intros k Hk. by rewrite Rl, Rsl.
    + by rewrite Rc, Hc.
    + by rewrite E1, del_notin.
    + rewrite Eb, Rl, Rsl. done.
Qed.

Lemma fired_round i cs : fired_of (Fired i :: map (@Called I) cs) = [i].
Proof. cbn. f_equal. by induction cs. Qed.
Lemma calls_round i cs : calls_of (Fired i :: map (@Called I) cs) = cs.
Proof. cbn. induction cs as [|c cs IH]; [done|]. cbn. by f_equal. Qed.
Lemma moved_round j i cs : moved j (Fired i :: map (@Called I) cs) = existsb (moves j) cs.
Proof. unfold moved. by rewrite calls_round. Qed.
Lemma named_round j i cs : named j (Fired i :: map (@Called I) cs) = existsb (names j) cs.
Proof. unfold named. by rewrite calls_round. Qed.
Lemma word_round j i cs : last_word j (Fired i :: map (@Called I) cs) = word j cs.
Proof.
  unfold last_word. cbn [foldl say]. destruct (decide (i = j)); unfold word; generalize (@None bool);
    induction cs as [|c cs IH]; intros w; cbn; auto.
Qed.
Lemma fired_in_round j k i cs tr1 tr2 : Fired i :: map (@Called I) cs = tr1 ++ Fired j :: tr2 -> moved k tr1 = false.
Proof.
  destruct tr1 as [|e tr1]; [done|]. intros [= _ E]. exfalso.
  assert (Fired j ∈ map (@Called I) cs) as H by (rewrite E; apply elem_of_app; right; by left).
  apply list_elem_of_In, in_map_iff in H as (c & Hc & _). done.
Qed.
Lemma nodup_expired M b c0 s : inv M b c0 s -> NoDup (expired s).
Proof. intros V. apply NoDup_filter. apply (iv_list _ _ _ _ V). Qed.

(** A round in which a call moved the timer that fired, or none did: in both cases
    the timer's own place afterwards. *)
Lemma round_ok M b c0 i l cs s s1 s2 s3 :
  inv M b c0 s -> check_list s = [] -> _timer_list s = i :: l ->
  u32 (rt_tick s - timeout_tick (timer s i)) < half ->
  taken i l s s1 -> called cs s1 s2 -> inv M b c0 s2 ->
  (check_list s2 = [] /\ s3 = s2 \/ check_list s2 = [i] /\ finished i s2 s3) ->
  progress (Fired i :: map Called cs) s s3.
Proof.
  intros V Hc0 E Hdue T C V2 HF. destruct (head_facts M b c0 i l s V E) as (Hl & Hsl & Ha & Hk).
  pose proof T as [Tt To (Ti & Tto & Ts & Tp & Ta) Tl Tsl Tc Td].
  assert (expired s = i :: expired s1) as Ex.
  { rewrite (expired_front M b c0 s i l V E), Td. change (RT_TICK_MAX / 2) with half. by replace (_ <? half) with true by lia. }
  assert (expired s3 = expired s2) as E3 by (destruct HF as [[_ ->]|[_ F]]; [done|apply F]).
  assert (rt_tick s3 = rt_tick s2) as T3 by (destruct HF as [[_ ->]|[_ F]]; [done|apply F]).
  assert (forall k, k <> i -> timer s3 k = timer s2 k /\ (k ∈ _timer_list s3 <-> k ∈ _timer_list s2) /\
            (k ∈ _soft_timer_list s3 <-> k ∈ _soft_timer_list s2)) as O3.
  { intros k Hki. destruct HF as [[_ ->]|[_ F]]; [done|by apply F]. }
  assert (soft (timer s3 i) = soft (timer s2 i)) as S3 by (destruct HF as [[_ ->]|[_ F]]; [done|apply F]).
  assert (forall k, k <> i -> (k ∈ _timer_list s1 <-> k ∈ _timer_list s)) as L1.
  { intros k Hki. rewrite Tl, E, elem_of_cons. tauto. }
  pose proof (nodup_expired _ _ _ _ V) as Hnd. rewrite Ex in Hnd. apply NoDup_cons in Hnd as [Hi1 Hnd].
  split; rewrite ?fired_round; try setoid_rewrite moved_round; try setoid_rewrite named_round; try setoid_rewrite calls_round.
  - by rewrite T3, (cl_tick _ _ _ C).
  - intros k. destruct (decide (k = i)) as [->|Hki]; [by rewrite S3, (cl_kind _ _ _ C)|].
    destruct (O3 k Hki) as (-> & _). by rewrite (cl_kind _ _ _ C), To.
  - rewrite E3, (cl_due _ _ _ C), Ex. cbn. constructor. apply sublist_filter.
  - intros k. rewrite Ex, elem_of_cons, E3, (cl_due _ _ _ C), list_elem_of_filter. intros [->|Hk1]; [left; by left|].
    right. destruct (existsb (moves k) cs); tauto.
  - intros k. rewrite E3, (cl_due _ _ _ C), list_elem_of_filter. intros -> [? _]. done.
  - intros k tr1 tr2. apply fired_in_round.
  - intros k Hki%not_elem_of_cons Hm. destruct Hki as [Hki _]. destruct (O3 k Hki) as (-> & -> & ->).
    destruct (cl_still _ _ _ C k Hm) as (-> & -> & -> & -> & _). rewrite To, L1, Tsl by done. done.
  - intros k Hki%not_elem_of_cons Hm. destruct Hki as [Hki _]. destruct (O3 k Hki) as (-> & _). by rewrite (cl_alone _ _ _ C), To.
  - intros k Hki Hm. apply list_elem_of_singleton in Hki as ->.
    pose proof (cl_alone _ _ _ C i Hm) as Ei. destruct (cl_still _ _ _ C i (moves_named _ _ Hm)) as (_ & _ & _ & _ & Ec).
    destruct HF as [[Hc _]|[Hc F]]; [rewrite Hc, Tc in Ec; exfalso; apply (not_elem_of_nil i), Ec; by left|].
    destruct F as [Ft Fo Fc Fd Fk Fw]. rewrite Ei, Ta, Tp, Ti, Ts, Hk, (cl_tick _ _ _ C), Tt in Fw.
    destruct (periodic (timer s i)) eqn:Ep; cbn in Fw.
    + destruct Fw as (F1 & F2 & F3 & F4 & F5). done.
    + destruct Fw as (F1 & F2 & F3). rewrite F1, Ta, Ti, Tp. done.
  - intros k v. rewrite word_round. intros Hw%(cl_word _ _ _ C).
    destruct (decide (k = i)) as [->|Hki].
    + destruct HF as [[_ ->]|[Hc F]]; [done|]. destruct (iv_check _ _ _ _ V2 i) as [H1 H2]; [rewrite Hc; by left|].
      destruct v; cbn in Hw |- *; [exfalso; destruct Hw as [_ Hw]; by destruct (soft (timer s2 i))|].
      destruct Hw as (Hw & _ & _). pose proof (fn_own _ _ _ F) as Fw. rewrite Hw, andb_false_r in Fw. destruct Fw as (-> & ? & ?). done.
    + destruct (O3 k Hki) as (O1 & O2 & O4). by apply (said_still v k s2); rewrite ?O1.
  - intros k Hk3. destruct (decide (k = i)) as [->|Hki].
    + destruct HF as [[Hc ->]|[Hc F]].
      * destruct (cl_stray _ _ _ C i Hk3) as [[H|[H|H]]|[_ H]]; [by left; left|by left; right|by rewrite Hc in H; apply not_elem_of_nil in H|].
        exfalso. apply H. right. right. rewrite Tc. by left.
      * pose proof (fn_own _ _ _ F) as Fw. destruct (periodic (timer s2 i)) eqn:Ep, (act (timer s2 i)) eqn:Ea; cbn in Fw.
        -- destruct Fw as (_ & Fin & _). left. destruct (soft (timer s2 i)); tauto.
        -- destruct Fw as (Fw & _). rewrite Fw in Hk3. congruence.
        -- right. right. apply (cl_shot _ _ _ C); [|done]. rewrite Tp, <- Ta. apply (cl_pending _ _ _ C); [|done]. rewrite Hc. by left.
        -- destruct Fw as (Fw & _). rewrite Fw in Hk3. congruence.
    + destruct (O3 k Hki) as (O1 & O2 & O4). rewrite O1 in Hk3. rewrite O2, O4.
      destruct (cl_stray _ _ _ C k Hk3) as [[H|[H|H]]|[H1 H2]]; [by left; left|by left; right| |].
      * apply (cl_check _ _ _ C) in H. rewrite Tc in H. by apply list_elem_of_singleton in H.
      * right. left. rewrite To in H1 by done. unfold placed in H2. rewrite L1, Tsl in H2 by done. tauto.
Qed.
End Run.

(** ** The check *)

Section Check.
Context {I : Type} `{EqDecision I}.
Context (prog : program I) (M : Z) (Q : tcall I -> Prop).
Context (Hprog : forall i tr s, Forall (fun c => bounded M c /\ Q c) (prog i tr s)).
#[local] Instance host : TimerHost I (scripted I) := scripted_host prog.
Implicit Types (s : timers I) (i j : I) (l : list I) (tr : list (tev I)).

Lemma finish_run i tr s : finish_expired i (tr, s) = Ok (tr, finish i s).
Proof.
  unfold finish_expired, finish, upd. cbn [timers_of set_timers host scripted_host fst snd].
  change (has_flag RT_TIMER_FLAG_PERIODIC (timer (_timer_remove i s) i)) with (periodic (timer (_timer_remove i s) i)).
  change (has_flag RT_TIMER_FLAG_ACTIVATED (timer (_timer_remove i s) i)) with (act (timer (_timer_remove i s) i)).
  destruct (periodic _ && act _); [|done]. unfold rt_timer_start, upd. cbn [timers_of set_timers host scripted_host fst snd soft_started].
  by destruct (has_flag _ _).
Qed.

Lemma check_loop_ok b c0 fuel tr s :
  inv M b c0 s -> check_list s = [] -> (length (expired s) < fuel)%nat ->
  exists tr' s', check_loop fuel (rt_tick s) (tr, s) = Ok (tr ++ tr', s') /\ progress tr' s s' /\
    inv M b c0 s' /\ check_list s' = [] /\ expired s' = [] /\ Forall Q (calls_of tr').
Proof using Hprog.
  revert tr s. induction fuel as [|fuel IH]; intros tr s V Hc Hf; [lia|]. cbn [check_loop]. cbn [timers_of host scripted_host snd].
  destruct (_timer_list s) as [|i l] eqn:E.
  { exists [], s. rewrite app_nil_r. split; [done|]. split; [by apply progress_nil|]. split; [done|]. split; [done|].
    split; [unfold expired; by rewrite E|constructor]. }
  pose proof (expired_front M b c0 s i l V E) as Ex. destruct (Z.ltb_spec (u32 (rt_tick s - timeout_tick (timer s i))) (RT_TICK_MAX / 2)) as [Hd|Hd].
  2:{ exists [], s. rewrite app_nil_r. split; [done|]. split; [by apply progress_nil|]. split_and!; done || constructor. }
  destruct (take_ok M b c0 i l s V Hc E) as [T V1]. set (s1 := take_expired with_check_list i s) in *.
  unfold upd at 1. cbn [timeout timers_of set_timers host scripted_host fst snd]. set (cs := prog i _ _).
  assert (Forall (bounded M) cs /\ Forall Q cs) as [Hb HQ] by (apply Forall_and, Hprog).
  destruct (run_calls_ok M b c0 cs (tr ++ [Fired i]) s1 V1 Hb) as (s2 & E2 & C & V2). fold s1 cs. rewrite E2. cbn [mbind result_bind].
  assert (exists s3, match check_list s2 with [] => Ok ((tr ++ [Fired i]) ++ map Called cs, s2)
            | _ :: _ => finish_expired i ((tr ++ [Fired i]) ++ map Called cs, s2) end = Ok ((tr ++ [Fired i]) ++ map Called cs, s3) /\
            (check_list s2 = [] /\ s3 = s2 \/ check_list s2 = [i] /\ finished i s2 s3) /\ inv M b c0 s3 /\ check_list s3 = [])
    as (s3 & E3 & HF & V3 & Hc3).
  { destruct (iv_single _ _ _ _ V2) as [Hc2|[x Hc2]]; rewrite Hc2; [by exists s2; auto|].
    assert (x = i) as -> by (apply list_elem_of_singleton; rewrite <- (tk_check _ _ _ _ T); apply (cl_check _ _ _ C); rewrite Hc2; by left).
    destruct (finish_ok M b c0 i s2 V2 Hc2) as [F V3]. exists (finish i s2). rewrite finish_run. split; [done|].
    split; [by right|]. split; [done|apply F]. }
  cbn [timers_of host scripted_host snd]. rewrite E3. cbn [mbind result_bind].
  pose proof (round_ok M b c0 i l cs s s1 s2 s3 V Hc E Hd T C V2 HF) as P.
  assert (rt_tick s2 = rt_tick s3) as Et.
  { rewrite (pg_tick _ _ _ P), (cl_tick _ _ _ C). apply T. }
  unfold rt_tick_get. cbn [timers_of host scripted_host snd]. rewrite Et.
  destruct (IH ((tr ++ [Fired i]) ++ map Called cs) s3 V3 Hc3) as (tr' & s' & E' & P' & V' & Hc' & Ex' & HQ').
  { pose proof (sublist_length _ _ (pg_due _ _ _ P)) as Hlen. rewrite fired_round, length_app in Hlen. cbn in Hlen. lia. }
  exists ((Fired i :: map Called cs) ++ tr'), s'. rewrite E'. split; [by rewrite <- !(assoc_L app)|].
  split; [by apply (progress_app _ _ s s3 s'); [by eapply nodup_expired|..]|]. split_and!; try done.
  rewrite calls_app, calls_round. by apply Forall_app.
Qed.

Lemma check_ok b c0 fuel tr s :
  inv M b c0 s -> check_list s = [] -> (length (expired s) < fuel)%nat ->
  exists tr' s', rt_timer_check fuel (tr, s) = Ok (tr ++ tr', s') /\ progress tr' s s' /\
    inv M b c0 s' /\ check_list s' = [] /\ expired s' = [] /\ Forall Q (calls_of tr').
Proof using Hprog.
  intros V Hc Hf. unfold rt_timer_check, upd. cbn [timers_of set_timers host scripted_host fst snd].
  assert (with_check_list (fun _ => []) s = s) as -> by (destruct s; cbn in *; by subst).
  by apply check_loop_ok.
Qed.

(** *** Ticks *)

(** When nothing is due the lists begin at the present tick. *)
Lemma inv_rebase b c0 s : inv M b c0 s -> expired s = [] -> M < half -> inv M (rt_tick s) c0 s.
Proof using Type.
  intros V Hx HM. pose proof V as [Vt Vi Vl Vs Vc V1 V0]. split; try done. destruct Vl as [[Hn Hs He] Hl].
  assert (forall j, j ∈ _timer_list s -> left (rt_tick_set (rt_tick s) s) j = left (rt_tick_set b s) j - u32 (rt_tick s - b) /\
            u32 (rt_tick s - b) < left (rt_tick_set b s) j) as Hleft.
  { intros j Hj. pose proof (proj1 (Forall_forall _ _) He j Hj) as (H1 & _). destruct (Vi j) as [HM' _].
    assert (~ u32 (rt_tick s - timeout_tick (timer s j)) < half) as Hne.
    { intros H. assert (j ∈ expired s) as Hin by (by apply list_elem_of_filter). rewrite Hx in Hin. by apply not_elem_of_nil in Hin. }
    rewrite (expired_left_b M b) in Hne by (done || lia). split; [|lia]. unfold left, u32, half in *. cbn in *. zmod. }
  split; [|unfold u32; rewrite Z.sub_diag; change (0 mod 2 ^ 32) with 0; lia]. split; [done| |].
  - clear -Hs Hleft. induction Hs as [|x l Hs IH Hx]; constructor.
    + apply IH. intros j Hj. apply Hleft. by right.
    + apply Forall_forall. intros y Hy. destruct (Hleft x) as [-> _]; [by left|]. destruct (Hleft y) as [-> _]; [by right|].
      apply (proj1 (Forall_forall _ _) Hx) in Hy. cbn in *. lia.
  - apply Forall_forall. intros j Hj. pose proof (proj1 (Forall_forall _ _) He j Hj) as (H1 & H2 & H3). destruct (Hleft j Hj) as [-> _].
    pose proof (u32_range (rt_tick s - b)). split_and!; [lia|exact H2|exact H3].
Qed.

Definition next_tick s : timers I := rt_tick_set (u32 (rt_tick s + 1)) s.
Lemma inv_next b c0 s :
  inv M b c0 s -> u32 (rt_tick s - b) + 1 + M < half -> u32 (rt_tick s - c0) + 1 + M < half -> inv M b c0 (next_tick s).
Proof using Type.
  intros V Hb Hc. pose proof V as [Vt Vi [Vl Lb] [Vs Lc] Vc V1 V0]. pose proof (Vi) as _. split; try done.
  - apply u32_range.
  - split; [by apply (ok_list_same (rt_tick_set b s))|]. cbn. unfold u32, half in *. zmod.
  - split; [by apply (ok_list_same (rt_tick_set c0 s))|]. cbn. unfold u32, half in *. zmod.
Qed.

Lemma tick_ok b c0 tr s :
  inv M b c0 s -> check_list s = [] -> expired s = [] -> M + 1 < half -> u32 (rt_tick s - c0) + 1 + M < half ->
  exists tr' s', tick (tr, s) = Ok (tr ++ tr', s') /\ progress tr' (next_tick s) s' /\
    inv M (rt_tick s) c0 s' /\ check_list s' = [] /\ expired s' = [] /\ Forall Q (calls_of tr').
Proof using Hprog.
  intros V Hc Hx HM Hs. unfold tick, upd. cbn [timers_of set_timers host scripted_host fst snd]. fold (next_tick s).
  apply check_ok; [|done|].
  - apply inv_next; [apply (inv_rebase b); done || lia| |done]. unfold u32. rewrite Z.sub_diag. change (0 mod 2 ^ 32) with 0. lia.
  - apply Nat.lt_succ_r, length_filter.
Qed.
End Check.

(** ** Properties *)

Section Properties.
Context {I : Type} `{EqDecision I}.
Implicit Types (s : timers I) (i j : I) (tr : list (tev I)).

(** C14: A check of the timers, whatever their timeout functions start, stop, detach and
    change, and however late the check is, within half the range of the tick.
    [rt_timer_check] ends and no timer is due any more.  The timers fired are timers
    that were due, in the order of their expiry, each once; every timer that was due
    has fired, or an earlier timeout function moved it, and then it did not fire after
    that.  [progress] says of each timer what became of it: periodic ones that fired
    wait again with their full time, one-shot ones are inactive, a timer that was
    started last is in its list, one that was stopped last is in none, all others are
    as they were.  The invariant (sorted lists of active timers) is kept. *)
Theorem rt_timer_check_fires (prog : program I) (M b c : Z) (fuel : nat) tr s :
  (forall i tr s, Forall (bounded M) (prog i tr s)) ->
  inv M b c s -> check_list s = [] -> (length (expired s) < fuel)%nat ->
  exists tr' s', @rt_timer_check I _ _ (scripted_host prog) fuel (tr, s) = Ok (tr ++ tr', s') /\
    inv M b c s' /\ expired s' = [] /\
    fired_of tr' `sublist_of` expired s /\
    (forall j, j ∈ expired s -> j ∈ fired_of tr' \/ moved j tr' = true) /\
    (forall j tr1 tr2, tr' = tr1 ++ Fired j :: tr2 -> moved j tr1 = false) /\
    progress tr' s s'.
Proof.
  intros Hp V Hc Hf. destruct (check_ok prog M (fun _ => True)) with (b := b) (c0 := c) (fuel := fuel) (tr := tr) (s := s)
    as (tr' & s' & E & P & V' & _ & Ex & _); try done.
  { intros i t u. eapply Forall_impl; [apply Hp|by split]. }
  exists tr', s'. split; [exact E|]. split; [done|]. split; [done|]. split; [|split; [|split; [apply P|done]]].
  - pose proof (pg_due _ _ _ P) as Hd. by rewrite Ex, app_nil_r in Hd.
  - intros j Hj. destruct (pg_lost _ _ _ P j Hj) as [?|[?|Hx]]; [by left|by right|]. rewrite Ex in Hx. by apply not_elem_of_nil in Hx.
Qed.

Lemma ticks_app n m (s : scripted I) (prog : program I) :
  @ticks I _ _ (scripted_host prog) (n + m) s = (s ← @ticks I _ _ (scripted_host prog) n s; @ticks I _ _ (scripted_host prog) m s).
Proof. revert s. induction n as [|n IH]; intros s; [done|]. cbn [Nat.add ticks]. destruct (tick s); cbn; [apply IH|done]. Qed.

(** The timer with [n] ticks left at the next tick. *)
Lemma left_next M b c s i :
  inv M b c s -> expired s = [] -> M < half -> i ∈ _timer_list s ->
  0 < left s i < half /\ left (next_tick s) i = left s i - 1 /\ (i ∈ expired (next_tick s) <-> left s i = 1).
Proof.
  intros V Hx HM Hi. pose proof (inv_rebase M b c s V Hx HM) as V'. destruct (iv_list _ _ _ _ V') as [[_ _ He] _].
  pose proof (proj1 (Forall_forall _ _) He i Hi) as (Hl & _). change (left s i < half) in Hl.
  assert (i ∉ expired s) as Hn by (rewrite Hx; apply not_elem_of_nil). pose proof (iv_tick _ _ _ _ V) as Ht.
  destruct (iv_timer _ _ _ _ V i) as (_ & _ & Hto).
  assert (~ u32 (rt_tick s - timeout_tick (timer s i)) < half) as Hd by (intros H; apply Hn; by apply list_elem_of_filter).
  assert (0 < left s i) as Hp. { unfold left, u32, half in *. zmod. }
  assert (left (next_tick s) i = left s i - 1) as E by by apply left_tick.
  split; [done|]. split; [exact E|]. unfold expired. rewrite list_elem_of_filter.
  change (_timer_list (next_tick s)) with (_timer_list s). change (timer (next_tick s) i) with (timer s i).
  change (rt_tick (next_tick s)) with (u32 (rt_tick s + 1)). unfold left, u32, half in *. split.
  - intros [H _]. zmod.
  - intros H. split; [|done]. zmod.
Qed.

(** One tick, when no program names the timer [i]. *)
Lemma tick_without (prog : program I) (M b c : Z) i tr s :
  (forall j tr s, Forall (fun call => bounded M call /\ names i call = false) (prog j tr s)) ->
  inv M b c s -> check_list s = [] -> expired s = [] -> M + 1 < half -> u32 (rt_tick s - c) + 1 + M < half ->
  exists tr1 s1, @ticks I _ _ (scripted_host prog) 1 (tr, s) = Ok (tr ++ tr1, s1) /\ progress tr1 (next_tick s) s1 /\
    inv M (rt_tick s) c s1 /\ check_list s1 = [] /\ expired s1 = [] /\ named i tr1 = false.
Proof.
  intros Hp V Hc Hx HM Hs.
  destruct (tick_ok prog M (fun call => names i call = false) Hp b c tr s) as (tr1 & s1 & E1 & P & V1 & Hc1 & Hx1 & HQ); try done.
  exists tr1, s1. cbn [ticks]. unfold host in E1. change (list (tev I) * timers I)%type with (scripted I) in E1.
  rewrite E1. cbn [mbind result_bind]. split_and!; try done.
  destruct (named i tr1) eqn:En; [|done]. apply existsb_exists in En as (call & Hin & En).
  apply list_elem_of_In, (proj1 (Forall_forall _ _) HQ) in Hin. congruence.
Qed.

(** Until its time has come the timer stays as it is. *)
Lemma ticks_before (prog : program I) (M c : Z) i m b s tr :
  (forall j tr s, Forall (fun call => bounded M call /\ names i call = false) (prog j tr s)) ->
  inv M b c s -> check_list s = [] -> expired s = [] -> M + 1 < half ->
  u32 (rt_tick s - c) + Z.of_nat (S m) + M < half -> i ∈ _timer_list s -> Z.of_nat m < left s i ->
  exists tr' s', @ticks I _ _ (scripted_host prog) m (tr, s) = Ok (tr ++ tr', s') /\ i ∉ fired_of tr' /\
    timer s' i = timer s i /\ i ∈ _timer_list s' /\ left s' i = left s i - Z.of_nat m /\
    (exists b', inv M b' c s') /\ check_list s' = [] /\ expired s' = [] /\ rt_tick s' = u32 (rt_tick s + Z.of_nat m).
Proof.
  intros Hp V Hc Hx HM. revert b s tr V Hc Hx. induction m as [|m IH]; intros b s tr V Hc Hx Hs Hi Hl.
  - exists [], s. cbn [ticks]. rewrite app_nil_r. pose proof (iv_tick _ _ _ _ V).
    split_and!; try done; [apply not_elem_of_nil|lia|eauto|]. rewrite Z.add_0_r, u32_small; lia.
  - destruct (left_next M b c s i) as (Hl1 & Hl2 & Hl3); [done|done|lia|done|].
    destruct (tick_without prog M b c i tr s) as (tr1 & s1 & E1 & P & V1 & Hc1 & Hx1 & Hn); try done; [lia|].
    assert (i ∉ fired_of tr1) as Hf.
    { intros Hf. assert (i ∈ expired (next_tick s)) as Hin; [|apply Hl3 in Hin; lia].
      apply (elem_of_submseteq (fired_of tr1 ++ expired s1)); [apply elem_of_app; by left|]. apply sublist_submseteq, P. }
    destruct (pg_still _ _ _ P i Hf (moved_named _ _ Hn)) as (_ & _ & L1 & _). pose proof (pg_alone _ _ _ P i Hf Hn) as Ei.
    change (timer (next_tick s) i) with (timer s i) in Ei. change (_timer_list (next_tick s)) with (_timer_list s) in L1.
    assert (rt_tick s1 = u32 (rt_tick s + 1)) as Et by apply P.
    assert (left s1 i = left s i - 1) as El by (rewrite <- Hl2; unfold left; rewrite Ei, Et; done).
    destruct (IH (rt_tick s) s1 (tr ++ tr1)) as (tr2 & s2 & E2 & F2 & T2 & I2 & L2 & V2 & C2 & X2 & R2); try done; [|by apply L1|lia|].
    { rewrite Et. pose proof (u32_range (rt_tick s - c)). unfold u32, half in *. zmod. }
    exists (tr1 ++ tr2), s2. change (S m) with (1 + m)%nat. rewrite ticks_app, E1. cbn [mbind result_bind].
    rewrite E2, (assoc_L app), fired_app, not_elem_of_app.
    split_and!; try done; [congruence|lia|]. rewrite R2, Et. unfold u32. zmod.
Qed.

(** C15: A timer fires on time, with a check at every tick.  The timeout functions of
    the other timers and its own may start, stop and change any other timer, those
    that are due included; they do not name this one.  With [n] ticks left the timer
    does not fire in fewer than [n] ticks and fires at the [n]-th, also when the tick
    wraps around; a periodic one then has its full time left, a one-shot one is
    inactive.  (Soft timers wait in their list meanwhile; [c] is the tick it begins at.) *)
Theorem timer_fires_on_time (prog : program I) (M b c : Z) (n : nat) i tr s :
  (forall j tr s, Forall (fun call => bounded M call /\ names i call = false) (prog j tr s)) ->
  inv M b c s -> check_list s = [] -> expired s = [] -> M + 1 < half -> u32 (rt_tick s - c) + Z.of_nat n + M < half ->
  i ∈ _timer_list s -> left s i = Z.of_nat n ->
  (forall m, (m < n)%nat -> exists tr' s', @ticks I _ _ (scripted_host prog) m (tr, s) = Ok (tr ++ tr', s') /\ i ∉ fired_of tr') /\
  exists tr' s', @ticks I _ _ (scripted_host prog) n (tr, s) = Ok (tr ++ tr', s') /\ i ∈ fired_of tr' /\
    if periodic (timer s i) then i ∈ _timer_list s' /\ left s' i = init_tick (timer s i)
    else act (timer s' i) = false /\ i ∉ _timer_list s'.
Proof.
  intros Hp V Hc Hx HM Hs Hi Hl. split.
  - intros m Hm. destruct (ticks_before prog M c i m b s tr) as (tr' & s' & E & F & _); try done; [lia..|]. by exists tr', s'.
  - destruct n as [|n]; [destruct (left_next M b c s i) as (Hl1 & _); [done|done|lia|done|lia]|].
    destruct (ticks_before prog M c i n b s tr) as (tr1 & s1 & E1 & F1 & T1 & I1 & L1 & (b1 & V1) & C1 & X1 & R1); try done; [lia|].
    destruct (left_next M b1 c s1 i) as (Hl1 & Hl2 & Hl3); [done|done|lia|done|].
    destruct (tick_without prog M b1 c i (tr ++ tr1) s1) as (tr2 & s2 & E2 & P & V2 & Hc2 & Hx2 & Hn); try done.
    { rewrite R1. pose proof (u32_range (rt_tick s - c)). unfold u32, half in *. zmod. }
    assert (i ∈ fired_of tr2) as Hf.
    { destruct (pg_lost _ _ _ P i) as [?|[Hm|Hx']]; [apply Hl3; lia|done| |].
      - by rewrite (moved_named _ _ Hn) in Hm.
      - rewrite Hx2 in Hx'. by apply not_elem_of_nil in Hx'. }
    exists (tr1 ++ tr2), s2. replace (S n) with (n + 1)%nat by lia. rewrite ticks_app, E1. cbn [mbind result_bind].
    rewrite E2. split; [by rewrite (assoc_L app)|]. rewrite fired_app. split; [apply elem_of_app; by right|].
    destruct (pg_again _ _ _ P i Hf Hn) as (_ & _ & Pa). change (timer (next_tick s1) i) with (timer s1 i) in Pa. rewrite T1 in Pa.
    destruct (periodic (timer s i)); [|done]. destruct Pa as (_ & Pi & Pt). split; [done|]. unfold left. rewrite Pt, (pg_tick _ _ _ P).
    destruct (iv_timer _ _ _ _ V i) as (Hi' & _). pose proof (u32_range (rt_tick (next_tick s1))). unfold u32, half in *. zmod.
Qed.
End Properties.

(** ** Concrete runs *)

(** The tick is 2.  The timer 0 has been overdue for three ticks, since before the
    wrap-around, and 1 for one; 2 is due; 3 has four ticks left; 4 is a soft timer.
    The timeout function of 0 stops 2, starts its own timer again and the soft one. *)
Definition sample_timers : timers nat :=
  mk_timers 2
    (fun i => match i with
              | 0%nat => mk_timer 1 3 4294967295
              | 1%nat => mk_timer 3 5 1
              | 2%nat => mk_timer 1 4 2
              | 3%nat => mk_timer 1 9 6
              | 4%nat => mk_timer 4 2 0
              | _ => mk_timer 0 1 0
              end) [0%nat; 1%nat; 2%nat; 3%nat] [] [] [] false.
Definition sample_program : program nat :=
  fun i _ _ => match i with 0%nat => [Stop 2%nat; Start 0%nat; Start 4%nat] | 1%nat => [SetTime 1%nat 6] | _ => [] end.

Lemma sample_inv : inv 10 4294967294 2 sample_timers.
Proof.
  split.
  - done.
  - intros [|[|[|[|[|j]]]]]; cbn; lia.
  - split; [|done]. split; [by apply (bool_decide_unpack _); vm_compute| |]; repeat constructor; vm_compute; done.
  - split; [|done]. repeat constructor.
  - intros j H. by apply not_elem_of_nil in H.
  - by left.
  - done.
Qed.
Lemma sample_bounded i tr s : Forall (bounded 10) (sample_program i tr s).
Proof. destruct i as [|[|i]]; cbn; repeat constructor; cbn; done. Qed.

(** What the check does there. *)
Lemma sample_check :
  match @rt_timer_check nat _ _ (scripted_host sample_program) 4 (([], sample_timers) : scripted nat) with
  | Ok (tr, s) =>
      tr = [Fired 0%nat; Called (Stop 2%nat); Called (Start 0%nat); Called (Start 4%nat); Fired 1%nat; Called (SetTime 1%nat 6)] /\
      _timer_list s = [0%nat; 3%nat; 1%nat] /\ _soft_timer_list s = [4%nat]
  | Fault _ => False
  end.
Proof. by vm_compute. Qed.

Lemma rt_timer_check_fires_witness :
  exists tr' s', @rt_timer_check nat _ _ (scripted_host sample_program) 4 ([], sample_timers) = Ok ([] ++ tr', s') /\
    inv 10 4294967294 2 s' /\ expired s' = [] /\
    fired_of tr' `sublist_of` expired sample_timers /\
    (forall j, j ∈ expired sample_timers -> j ∈ fired_of tr' \/ moved j tr' = true) /\
    (forall j tr1 tr2, tr' = tr1 ++ Fired j :: tr2 -> moved j tr1 = false) /\
    progress tr' sample_timers s'.
Proof.
  apply (rt_timer_check_fires sample_program 10 4294967294 2 4 [] sample_timers).
  - exact sample_bounded.
  - exact sample_inv.
  - reflexivity.
  - vm_compute. lia.
Defined.

(** Nothing is due; 3 has four ticks left; the functions of the others stop and start
    each other. *)
Definition later_timers : timers nat :=
  mk_timers 4294967295
    (fun i => match i with
              | 0%nat => mk_timer 3 1 0
              | 1%nat => mk_timer 3 2 1
              | 2%nat => mk_timer 1 3 3
              | 3%nat => mk_timer 3 9 3
              | _ => mk_timer 0 1 0
              end) [0%nat; 1%nat; 2%nat; 3%nat] [] [] [] false.
Definition later_program : program nat :=
  fun i _ s => match i with
               | 0%nat => [Stop 2%nat; SetTime 1%nat 3]
               | 1%nat => if act (timer s 2%nat) then [Stop 2%nat] else [Start 2%nat]
               | _ => [] end.
Lemma later_inv : inv 10 4294967295 4294967295 later_timers.
Proof.
  split.
  - done.
  - intros [|[|[|[|j]]]]; cbn; lia.
  - split; [|done]. split; [by apply (bool_decide_unpack _); vm_compute| |]; repeat constructor; vm_compute; done.
  - split; [|done]. repeat constructor.
  - intros j H. by apply not_elem_of_nil in H.
  - by left.
  - done.
Qed.
Lemma later_bounded j tr s : Forall (fun call => bounded 10 call /\ names 3%nat call = false) (later_program j tr s).
Proof. destruct j as [|[|j]]; cbn; [|destruct (act _)|]; repeat constructor; cbn; done. Qed.

Lemma timer_fires_on_time_witness :
  (forall m, (m < 4)%nat -> exists tr' s', @ticks nat _ _ (scripted_host later_program) m ([], later_timers) = Ok ([] ++ tr', s') /\
                              3%nat ∉ fired_of tr') /\
  exists tr' s', @ticks nat _ _ (scripted_host later_program) 4 ([], later_timers) = Ok ([] ++ tr', s') /\ 3%nat ∈ fired_of tr' /\
    3%nat ∈ _timer_list s' /\ left s' 3%nat = 9.
Proof.
  apply (timer_fires_on_time later_program 10 4294967295 4294967295 4 3%nat [] later_timers).
  - exact later_bounded.
  - exact later_inv.
  - reflexivity.
  - reflexivity.
  - reflexivity.
  - reflexivity.
  - repeat constructor.
  - reflexivity.
Defined.

(** A periodic timer whose own timeout function makes it one-shot stays active and is
    in no list: the end of the round takes it out and looks only at periodic timers. *)
Definition stranded_program : program nat := fun i _ _ => match i with 1%nat => [SetOneShot 1%nat] | _ => [] end.
Lemma one_shot_stranded :
  match @rt_timer_check nat _ _ (scripted_host stranded_program) 4 (([], sample_timers) : scripted nat) with
  | Ok (_, s) => act (timer s 1%nat) = true /\ 1%nat ∉ _timer_list s
  | Fault _ => False
  end.
Proof. vm_compute. split; [done|]. intros H. repeat (apply elem_of_cons in H as [H|H]; [done|]). by apply not_elem_of_nil in H. Qed.
End TimerCheck.
