(* ===== verification/Thread.v ===== *)
(** * Threads and the scheduler (rt-thread/src/scheduler.c, thread.c, idle.c,
    clock.c, irq.c)

    The threads are numbered; a number names the structure [rt_thread] and its
    built-in timer.  The node [tlist] of a thread is in at most one list: a row
    of the ready table, the suspend list of an IPC object (named by the address
    of its head), or the list of closed threads.  [lists] holds these lists; a
    list head that was never initialised is not in it.

    A switch to another thread is the change of [rt_current_thread]: saving and
    loading the registers is code of the processor port.  The check of the
    thread's stack is left out.

    The theorems: [rt_schedule] gives the processor to the first thread of the
    highest priority; every operation keeps the invariant of the kernel, and no
    assertion of it fails; a sleeping thread wakes at the tick it asked for;
    threads of one priority run in turn. *)

From stdpp Require Import functions fin_maps.
From S2P Require Import Prelude Timer.

Module Thread.
Import Timer.

(** ** Constants (rtdef.h, rtconfig.h) *)

Definition RT_THREAD_PRIORITY_MAX : Z := 32.
Definition RT_TICK_PER_SECOND : Z := 1000.

Definition RT_ETIMEOUT : Z := 2.

Definition RT_THREAD_INIT : Z := 0x00.
Definition RT_THREAD_READY : Z := 0x01.
Definition RT_THREAD_SUSPEND : Z := 0x02.
Definition RT_THREAD_RUNNING : Z := 0x03.
Definition RT_THREAD_CLOSE : Z := 0x04.
Definition RT_THREAD_STAT_MASK : Z := 0x07.
Definition RT_THREAD_STAT_YIELD : Z := 0x08.
Definition RT_THREAD_STAT_YIELD_MASK : Z := RT_THREAD_STAT_YIELD.

Definition RT_WAITING_FOREVER : Z := -1.

(** ** State *)

Record rt_thread := mk_thread {
  error : Z;
  stat : Z;
  current_priority : Z;
  number_mask : Z;
  event_set : Z;
  event_info : Z;
  init_tick : Z;
  remaining_tick : Z }.

Definition set_error (e : Z) (t : rt_thread) : rt_thread :=
  mk_thread e (stat t) (current_priority t) (number_mask t) (event_set t) (event_info t)
    (init_tick t) (remaining_tick t).
Definition set_stat (st : Z) (t : rt_thread) : rt_thread :=
  mk_thread (error t) st (current_priority t) (number_mask t) (event_set t) (event_info t)
    (init_tick t) (remaining_tick t).
Definition set_priority (p : Z) (t : rt_thread) : rt_thread :=
  mk_thread (error t) (stat t) p (number_mask t) (event_set t) (event_info t)
    (init_tick t) (remaining_tick t).
Definition set_mask (m : Z) (t : rt_thread) : rt_thread :=
  mk_thread (error t) (stat t) (current_priority t) m (event_set t) (event_info t)
    (init_tick t) (remaining_tick t).
Definition set_event (es ei : Z) (t : rt_thread) : rt_thread :=
  mk_thread (error t) (stat t) (current_priority t) (number_mask t) es ei
    (init_tick t) (remaining_tick t).
Definition set_remaining (r : Z) (t : rt_thread) : rt_thread :=
  mk_thread (error t) (stat t) (current_priority t) (number_mask t) (event_set t) (event_info t)
    (init_tick t) r.

(** [stat & RT_THREAD_STAT_MASK], and the assignment of a status that keeps the
    other bits. *)
Definition status (t : rt_thread) : Z := Z.land (stat t) RT_THREAD_STAT_MASK.
Definition set_status (st : Z) (t : rt_thread) : rt_thread :=
  set_stat (Z.lor st (clear_bits (stat t) RT_THREAD_STAT_MASK)) t.
Definition yielded (t : rt_thread) : bool :=
  negb (Z.land (stat t) RT_THREAD_STAT_YIELD_MASK =? 0).
Definition set_yield (t : rt_thread) : rt_thread := set_stat (Z.lor (stat t) RT_THREAD_STAT_YIELD) t.
Definition clear_yield (t : rt_thread) : rt_thread :=
  set_stat (clear_bits (stat t) RT_THREAD_STAT_YIELD_MASK) t.

(** The list heads of the kernel. *)
Inductive head := Ready (p : nat) | Waiting (q : nat) | Defunct.
#[export] Instance head_eq_dec : EqDecision head.
Proof. solve_decision. Defined.
#[export] Instance head_countable : Countable head.
Proof.
  refine (inj_countable'
    (fun a => match a with Ready p => inl (inl p) | Waiting q => inl (inr q) | Defunct => inr tt end)
    (fun x => match x with inl (inl p) => Ready p | inl (inr q) => Waiting q | inr tt => Defunct end) _).
  by intros [].
Defined.

Record kernel := mk_kernel {
  thread : nat -> rt_thread;
  lists : gmap head (list nat);
  rt_thread_ready_priority_group : Z;
  rt_current_thread : option nat;
  rt_current_priority : Z;
  rt_scheduler_lock_nest : Z;
  rt_interrupt_nest : Z;
  timers : timers nat }.

Definition with_thread (f : rt_thread -> rt_thread) (t : nat) (k : kernel) : kernel :=
  mk_kernel (<[t := f (thread k t)]> (thread k)) (lists k) (rt_thread_ready_priority_group k)
    (rt_current_thread k) (rt_current_priority k) (rt_scheduler_lock_nest k)
    (rt_interrupt_nest k) (timers k).
Definition with_lists (f : gmap head (list nat) -> gmap head (list nat)) (k : kernel) : kernel :=
  mk_kernel (thread k) (f (lists k)) (rt_thread_ready_priority_group k)
    (rt_current_thread k) (rt_current_priority k) (rt_scheduler_lock_nest k)
    (rt_interrupt_nest k) (timers k).
Definition with_group (f : Z -> Z) (k : kernel) : kernel :=
  mk_kernel (thread k) (lists k) (f (rt_thread_ready_priority_group k))
    (rt_current_thread k) (rt_current_priority k) (rt_scheduler_lock_nest k)
    (rt_interrupt_nest k) (timers k).
Definition with_current (c : option nat) (p : Z) (k : kernel) : kernel :=
  mk_kernel (thread k) (lists k) (rt_thread_ready_priority_group k)
    c p (rt_scheduler_lock_nest k) (rt_interrupt_nest k) (timers k).
Definition with_lock (n : Z) (k : kernel) : kernel :=
  mk_kernel (thread k) (lists k) (rt_thread_ready_priority_group k)
    (rt_current_thread k) (rt_current_priority k) n (rt_interrupt_nest k) (timers k).
Definition with_nest (n : Z) (k : kernel) : kernel :=
  mk_kernel (thread k) (lists k) (rt_thread_ready_priority_group k)
    (rt_current_thread k) (rt_current_priority k) (rt_scheduler_lock_nest k) n (timers k).
Definition with_timers (tm : Timer.timers nat) (k : kernel) : kernel :=
  mk_kernel (thread k) (lists k) (rt_thread_ready_priority_group k)
    (rt_current_thread k) (rt_current_priority k) (rt_scheduler_lock_nest k)
    (rt_interrupt_nest k) tm.

(** The members of a list; a head that does not exist has none. *)
Definition members (a : head) (k : kernel) : list nat := default [] (lists k !! a).

(** ** Lists (rtservice.h) *)

(** The list whose head is read or linked must exist. *)
Definition get_list (a : head) (k : kernel) : result (list nat) :=
  match lists k !! a with Some l => Ok l | None => Fault OutOfBounds end.

Definition rt_list_isempty (a : head) (k : kernel) : result bool :=
  l ← get_list a k; Ok (bool_decide (l = [])).

(** A node that is in no list can be linked. *)
Definition unlinked (t : nat) (k : kernel) : bool :=
  bool_decide (map_Forall (fun _ l => t ∉ l) (lists k)).
Definition link (f : list nat -> list nat) (a : head) (t : nat) (k : kernel) : result kernel :=
  l ← get_list a k;
  if unlinked t k then Ok (with_lists <[a := f l]> k) else Fault ListCorrupted.

(** Insertion before the head, that is at the end, and after it. *)
Definition rt_list_insert_before : head -> nat -> kernel -> result kernel :=
  fun a t => link (fun l => l ++ [t]) a t.
Definition rt_list_insert_after : head -> nat -> kernel -> result kernel :=
  fun a t => link (cons t) a t.
Definition rt_list_remove (t : nat) : kernel -> kernel := with_lists (fmap (del t)).

(** ** Scheduler (scheduler.c) *)

(** The instructions RBIT and CLZ of [__rt_ffs]. *)
Fixpoint rbit (n : nat) (v : Z) : Z :=
  match n with
  | O => 0
  | S n => Z.b2z (Z.testbit v 0) * 2 ^ Z.of_nat n + rbit n (Z.shiftr v 1)
  end.
Definition clz (v : Z) : Z := if v =? 0 then 32 else 31 - Z.log2 v.
Definition __rt_ffs (value : Z) : Z := if value =? 0 then 0 else clz (rbit 32 value) + 1.

Definition rt_thread_self (k : kernel) : option nat := rt_current_thread k.

(** The thread structure that [rt_current_thread] points to. *)
Definition current (k : kernel) : result nat :=
  match rt_current_thread k with Some t => Ok t | None => Fault OutOfBounds end.

Definition _scheduler_get_highest_priority_thread (k : kernel) : result (Z * nat) :=
  let highest_ready_priority := __rt_ffs (rt_thread_ready_priority_group k) - 1 in
  l ← get_list (Ready (Z.to_nat highest_ready_priority)) k;
  match l with
  | t :: _ => Ok (highest_ready_priority, t)
  | [] => Fault OutOfBounds
  end.

Definition rt_schedule_insert_thread (t : nat) (k : kernel) : result kernel :=
  if bool_decide (rt_current_thread k = Some t)
  then Ok (with_thread (set_status RT_THREAD_RUNNING) t k)
  else
    let k := with_thread (set_status RT_THREAD_READY) t k in
    k ← rt_list_insert_before (Ready (Z.to_nat (current_priority (thread k t)))) t k;
    Ok (with_group (fun g => Z.lor g (number_mask (thread k t))) k).

Definition rt_schedule_remove_thread (t : nat) (k : kernel) : result kernel :=
  let k := rt_list_remove t k in
  e ← rt_list_isempty (Ready (Z.to_nat (current_priority (thread k t)))) k;
  Ok (if e : bool
      then with_group (fun g => Z.land g (Z.lnot (number_mask (thread k t)))) k else k).

Definition rt_system_scheduler_init (k : kernel) : kernel :=
  let k := with_lock 0 k in
  let k := with_lists (fun m => foldr (fun p => <[Ready p := []]>) m
                                  (seq 0 (Z.to_nat RT_THREAD_PRIORITY_MAX))) k in
  with_group (fun _ => 0) k.

Definition rt_system_scheduler_start (k : kernel) : result kernel :=
  '(_, to_thread) ← _scheduler_get_highest_priority_thread k;
  let k := with_current (Some to_thread) (rt_current_priority k) k in
  k ← rt_schedule_remove_thread to_thread k;
  Ok (with_thread (set_stat RT_THREAD_RUNNING) to_thread k).

(** The thread keeps the processor: it runs, and no ready thread has a higher
    priority, nor the same when it yielded. *)
Definition keeps_running (c : rt_thread) (highest_ready_priority : Z) : bool :=
  (status c =? RT_THREAD_RUNNING) &&
  ((current_priority c <? highest_ready_priority) ||
   (current_priority c =? highest_ready_priority) && negb (yielded c)).

Definition rt_schedule (k : kernel) : result kernel :=
  if negb (rt_scheduler_lock_nest k =? 0) then Ok k
  else if rt_thread_ready_priority_group k =? 0 then Ok k
  else
    '(highest_ready_priority, first) ← _scheduler_get_highest_priority_thread k;
    from_thread ← current k;
    let c := thread k from_thread in
    let running := status c =? RT_THREAD_RUNNING in
    let to_thread := if keeps_running c highest_ready_priority then from_thread else first in
    let need_insert_from_thread := running && negb (keeps_running c highest_ready_priority) in
    let k := if running then with_thread clear_yield from_thread k else k in
    if bool_decide (to_thread <> from_thread) then
      let k := with_current (Some to_thread) (u8 highest_ready_priority) k in
      k ← (if need_insert_from_thread then rt_schedule_insert_thread from_thread k else Ok k);
      k ← rt_schedule_remove_thread to_thread k;
      Ok (with_thread (set_status RT_THREAD_RUNNING) to_thread k)
    else
      k ← rt_schedule_remove_thread from_thread k;
      Ok (with_thread (set_status RT_THREAD_RUNNING) from_thread k).

(** [rt_scheduler_lock_nest] has 16 bits. *)
Definition rt_enter_critical (k : kernel) : kernel :=
  with_lock (i16 (rt_scheduler_lock_nest k + 1)) k.
Definition rt_exit_critical (k : kernel) : result kernel :=
  let k := with_lock (i16 (rt_scheduler_lock_nest k - 1)) k in
  if rt_scheduler_lock_nest k <=? 0 then
    let k := with_lock 0 k in
    match rt_current_thread k with Some _ => rt_schedule k | None => Ok k end
  else Ok k.
Definition rt_critical_level (k : kernel) : Z := u16 (rt_scheduler_lock_nest k).

(** ** Interrupts (irq.c) *)

Definition rt_interrupt_enter (k : kernel) : kernel := with_nest (u8 (rt_interrupt_nest k + 1)) k.
Definition rt_interrupt_leave (k : kernel) : kernel := with_nest (u8 (rt_interrupt_nest k - 1)) k.
Definition rt_interrupt_get_nest (k : kernel) : Z := rt_interrupt_nest k.

(** ** Closed threads (idle.c) *)

Definition rt_thread_defunct_enqueue (t : nat) : kernel -> result kernel :=
  rt_list_insert_after Defunct t.
Definition rt_thread_defunct_dequeue (k : kernel) : result (option nat * kernel) :=
  l ← get_list Defunct k;
  Ok (match l with t :: _ => (Some t, rt_list_remove t k) | [] => (None, k) end).

(** The threads that [rt_defunct_execute] gives back, in order: what the
    cleanup function and the object container do with them is not here. *)
Fixpoint rt_defunct_execute (fuel : nat) (k : kernel) : result (list nat * kernel) :=
  match fuel with
  | O => Fault OutOfFuel
  | S fuel =>
      '(t, k) ← rt_thread_defunct_dequeue k;
      match t with
      | None => Ok ([], k)
      | Some t => '(ts, k) ← rt_defunct_execute fuel k; Ok (t :: ts, k)
      end
  end.

(** ** Threads (thread.c) *)

Definition on_timers (f : Timer.timers nat -> Timer.timers nat) (k : kernel) : kernel :=
  with_timers (f (timers k)) k.

(** [_thread_timeout], the timeout function of the thread timers. *)
Definition _thread_timeout (t : nat) (k : kernel) : result kernel :=
  _ ← rt_assert (status (thread k t) =? RT_THREAD_SUSPEND);
  let k := with_thread (set_error (- RT_ETIMEOUT)) t k in
  let k := rt_list_remove t k in
  k ← rt_schedule_insert_thread t k;
  rt_schedule k.

Definition rt_thread_suspend (t : nat) (k : kernel) : result (Z * kernel) :=
  _ ← rt_assert (bool_decide (rt_thread_self k = Some t));
  let st := status (thread k t) in
  if negb (st =? RT_THREAD_READY) && negb (st =? RT_THREAD_RUNNING) then Ok (- RT_ERROR, k)
  else
    k ← rt_schedule_remove_thread t k;
    let k := with_thread (set_status RT_THREAD_SUSPEND) t k in
    Ok (RT_EOK, on_timers (fun tm => (rt_timer_stop t tm).2) k).

Definition rt_thread_resume (t : nat) (k : kernel) : result (Z * kernel) :=
  if negb (status (thread k t) =? RT_THREAD_SUSPEND) then Ok (- RT_ERROR, k)
  else
    let k := rt_list_remove t k in
    let k := on_timers (fun tm => (rt_timer_stop t tm).2) k in
    k ← rt_schedule_insert_thread t k;
    Ok (RT_EOK, k).

(** The thread 0 is [_timer_thread], the thread of the soft timers. *)
Definition _timer_thread : nat := 0.

#[export] Instance kernel_host : TimerHost nat kernel := {
  timers_of := timers;
  set_timers := with_timers;
  timeout := _thread_timeout;
  soft_started k :=
    if negb (_soft_timer_busy (timers k)) &&
       (status (thread k _timer_thread) =? RT_THREAD_SUSPEND)
    then '(_, k) ← rt_thread_resume _timer_thread k; rt_schedule k
    else Ok k }.
#[export] Instance kernel_laws : TimerHostLaws nat kernel.
Proof. by split. Qed.

Definition _thread_init (t : nat) (priority tick : Z) (k : kernel) : result kernel :=
  (* [rt_list_init] on the node *)
  _ ← (if unlinked t k then Ok tt else Fault ListCorrupted);
  _ ← rt_assert (priority <? RT_THREAD_PRIORITY_MAX);
  let k := with_thread (fun _ => mk_thread RT_EOK RT_THREAD_INIT priority 0 0 0 tick tick) t k in
  tm ← rt_timer_init t 0 RT_TIMER_FLAG_ONE_SHOT (timers k);
  Ok (with_timers tm k).

Definition rt_thread_startup (t : nat) (k : kernel) : result kernel :=
  _ ← rt_assert (status (thread k t) =? RT_THREAD_INIT);
  let k := with_thread (fun th => set_mask (u32 (Z.shiftl 1 (current_priority th))) th) t k in
  let k := with_thread (set_stat RT_THREAD_SUSPEND) t k in
  '(_, k) ← rt_thread_resume t k;
  match rt_thread_self k with Some _ => rt_schedule k | None => Ok k end.

(** [rt_thread_detach], and [rt_thread_delete] for a thread of the heap. *)
Definition rt_thread_detach (t : nat) (k : kernel) : result kernel :=
  if status (thread k t) =? RT_THREAD_CLOSE then Ok k
  else
    k ← (if negb (status (thread k t) =? RT_THREAD_INIT)
         then rt_schedule_remove_thread t k else Ok k);
    let k := on_timers (rt_timer_detach t) k in
    let k := with_thread (set_stat RT_THREAD_CLOSE) t k in
    rt_thread_defunct_enqueue t k.

(** A thread returns from its entry function. *)
Definition _thread_exit (k : kernel) : result kernel :=
  t ← current k;
  k ← rt_schedule_remove_thread t k;
  let k := on_timers (rt_timer_detach t) k in
  let k := with_thread (set_stat RT_THREAD_CLOSE) t k in
  k ← rt_thread_defunct_enqueue t k;
  rt_schedule k.

Definition rt_thread_yield (k : kernel) : result kernel :=
  t ← current k;
  let k := with_thread (fun th => set_remaining (init_tick th) th) t k in
  let k := with_thread set_yield t k in
  rt_schedule k.

(** A call that blocks is two functions: up to the return of its [rt_schedule],
    which other threads' steps follow, and the rest, once the thread runs
    again. *)
Definition start_thread_timer (t : nat) (tick : Z) (k : kernel) : result kernel :=
  '(_, tm) ← rt_timer_control t RT_TIMER_CTRL_SET_TIME tick (timers k);
  rt_timer_start t (with_timers tm k).

Definition sleep_block (t : nat) (tick : Z) (k : kernel) : result kernel :=
  '(_, k) ← rt_thread_suspend t k;
  k ← start_thread_timer t tick k;
  rt_schedule k.

Definition rt_thread_sleep (tick : Z) (k : kernel) : result kernel :=
  t ← current k;
  sleep_block t tick (with_thread (set_error RT_EOK) t k).
Definition rt_thread_sleep_end (t : nat) (k : kernel) : Z * kernel :=
  let k := if error (thread k t) =? - RT_ETIMEOUT then with_thread (set_error RT_EOK) t k else k in
  (error (thread k t), k).

(** The new value of [*tick], whether the thread sleeps, and the state. *)
Definition rt_thread_delay_until (tick inc_tick : Z) (k : kernel) : result (Z * bool * kernel) :=
  t ← current k;
  let k := with_thread (set_error RT_EOK) t k in
  let cur_tick := rt_tick_get (timers k) in
  if u32 (cur_tick - tick) <? inc_tick then
    let tick := u32 (tick + inc_tick) in
    let left_tick := u32 (tick - cur_tick) in
    k ← sleep_block t left_tick k;
    Ok (tick, true, k)
  else Ok (cur_tick, false, k).

Definition rt_tick_from_millisecond (ms : Z) : Z :=
  if ms <? 0 then u32 RT_WAITING_FOREVER
  else
    let tick := u32 (RT_TICK_PER_SECOND * Z.quot ms 1000) in
    u32 (tick + Z.quot (RT_TICK_PER_SECOND * Z.rem ms 1000 + 999) 1000).

Definition rt_thread_mdelay (ms : Z) : kernel -> result kernel :=
  rt_thread_sleep (rt_tick_from_millisecond ms).

(** The command [RT_THREAD_CTRL_CHANGE_PRIORITY] of [rt_thread_control]. *)
Definition change_priority (t : nat) (p : Z) (k : kernel) : result kernel :=
  let set := fun th => set_mask (u32 (Z.shiftl 1 p)) (set_priority p th) in
  if status (thread k t) =? RT_THREAD_READY then
    k ← rt_schedule_remove_thread t k;
    rt_schedule_insert_thread t (with_thread set t k)
  else Ok (with_thread set t k).

(** The command [RT_THREAD_CTRL_CLOSE]. *)
Definition close_thread (t : nat) (k : kernel) : result kernel :=
  k ← rt_thread_detach t k; rt_schedule k.

(** ** Clock (clock.c) *)

Definition rt_tick_increase (k : kernel) : result kernel :=
  let k := on_timers (fun tm => rt_tick_set (u32 (rt_tick tm + 1)) tm) k in
  t ← current k;
  let k := with_thread (fun th => set_remaining (u32 (remaining_tick th - 1)) th) t k in
  k ← (if remaining_tick (thread k t) =? 0
       then
         let k := with_thread (fun th => set_remaining (init_tick th) th) t k in
         rt_schedule (with_thread set_yield t k)
       else Ok k);
  rt_timer_check (S (length (_timer_list (timers k)))) k.

(** The interrupt of the clock ([HAL_IncTick] counts a tick of the vendor library). *)
Definition SysTick (k : kernel) : result kernel :=
  k ← rt_tick_increase (rt_interrupt_enter k); Ok (rt_interrupt_leave k).

(** ** The first set bit *)

(** Bit [p] is the lowest one of [v]. *)
Definition first_bit (v p : Z) : Prop :=
  0 <= p /\ Z.testbit v p = true /\ forall q, 0 <= q < p -> Z.testbit v q = false.

Lemma first_bit_exists v : 0 < v -> exists p, first_bit v p /\ p <= Z.log2 v.
Proof.
  intros Hv.
  assert (forall n : nat, (forall q, 0 <= q < Z.of_nat n -> Z.testbit v q = false) \/
            exists p, first_bit v p /\ p < Z.of_nat n) as H.
  { induction n as [|n [IH|(p & Hp & Hn)]]; [left; lia| |right; exists p; split; [done|lia]].
    destruct (Z.testbit v (Z.of_nat n)) eqn:E.
    - right. exists (Z.of_nat n). split; [|lia]. split_and!; [lia|done|exact IH].
    - left. intros q Hq. destruct (decide (q = Z.of_nat n)) as [->|]; [done|]. apply IH. lia. }
  destruct (H (Z.to_nat (Z.log2 v + 1))) as [Hall|(p & Hp & Hlt)].
  - pose proof (Z.log2_nonneg v). specialize (Hall (Z.log2 v) ltac:(lia)).
    by rewrite Z.bit_log2 in Hall by done.
  - exists p. split; [done|]. pose proof (Z.log2_nonneg v). lia.
Qed.

Lemma rbit_range n v : 0 <= rbit n v < 2 ^ Z.of_nat n.
Proof.
  revert v. induction n as [|n IH]; intros v; [cbn; lia|]. cbn [rbit].
  specialize (IH (Z.shiftr v 1)). rewrite Nat2Z.inj_succ, Z.pow_succ_r by lia.
  destruct (Z.testbit v 0); cbn [Z.b2z]; lia.
Qed.

Lemma rbit_first n v p :
  first_bit v p -> p < Z.of_nat n ->
  2 ^ (Z.of_nat n - 1 - p) <= rbit n v < 2 ^ (Z.of_nat n - p).
Proof.
  revert v p. induction n as [|n IH]; intros v p (Hp & Hb & Hlow) Hn; [lia|]. cbn [rbit].
  destruct (decide (p = 0)) as [->|Hne].
  - rewrite Hb. cbn [Z.b2z]. pose proof (rbit_range n (Z.shiftr v 1)).
    replace (Z.of_nat (S n) - 1 - 0) with (Z.of_nat n) by lia.
    replace (Z.of_nat (S n) - 0) with (Z.succ (Z.of_nat n)) by lia.
    rewrite Z.pow_succ_r by lia. lia.
  - rewrite (Hlow 0) by lia. cbn [Z.b2z].
    replace (Z.of_nat (S n) - 1 - p) with (Z.of_nat n - 1 - (p - 1)) by lia.
    replace (Z.of_nat (S n) - p) with (Z.of_nat n - (p - 1)) by lia.
    rewrite Z.mul_0_l, Z.add_0_l. apply IH; [|lia]. split_and!; [lia| |].
    + rewrite Z.shiftr_spec by lia. by replace (p - 1 + 1) with p by lia.
    + intros q Hq. rewrite Z.shiftr_spec by lia. apply Hlow. lia.
Qed.

Lemma rt_ffs_first v : 0 < v < 2 ^ 32 -> first_bit v (__rt_ffs v - 1) /\ __rt_ffs v - 1 < 32.
Proof.
  intros Hv. destruct (first_bit_exists v) as (p & Hp & Hlog); [lia|].
  assert (p < 32) as Hp32.
  { assert (Z.log2 v < 32) by (apply Z.log2_lt_pow2; lia). lia. }
  pose proof (rbit_first 32 v p Hp Hp32) as Hr. pose proof Hp as (Hp0 & _).
  change (Z.of_nat 32) with 32 in Hr.
  assert (Z.log2 (rbit 32 v) = 31 - p) as Hl.
  { apply Z.log2_unique; [lia|]. replace (Z.succ (31 - p)) with (32 - p) by lia.
    by replace (32 - 1 - p) with (31 - p) in Hr by lia. }
  unfold __rt_ffs, clz. pose proof (Z.pow_pos_nonneg 2 (32 - 1 - p) ltac:(lia) ltac:(lia)).
  destruct (Z.eqb_spec v 0); [lia|]. destruct (Z.eqb_spec (rbit 32 v) 0); [lia|].
  rewrite Hl. by replace (31 - (31 - p) + 1 - 1) with p by lia.
Qed.

Lemma first_bit_unique v p q : first_bit v p -> first_bit v q -> p = q.
Proof.
  intros (Hp & Bp & Lp) (Hq & Bq & Lq).
  destruct (Z.lt_trichotomy p q) as [H|[H|H]]; [|done|].
  - by rewrite Lq in Bp by lia.
  - by rewrite Lp in Bq by lia.
Qed.

(** ** The status word *)

Lemma stat_enum (P : Z -> Prop) st :
  0 <= st < 16 -> P 0 -> P 1 -> P 2 -> P 3 -> P 4 -> P 5 -> P 6 -> P 7 -> P 8 -> P 9 -> P 10 ->
  P 11 -> P 12 -> P 13 -> P 14 -> P 15 -> P st.
Proof.
  intros Hst. intros. assert (exists n, st = Z.of_nat n /\ (n < 16)%nat) as (n & -> & Hn)
    by (exists (Z.to_nat st); lia).
  by do 16 (destruct n as [|n]; [done|]); lia.
Qed.

Lemma set_status_spec st th :
  0 <= stat th < 16 -> 0 <= st <= 4 ->
  0 <= stat (set_status st th) < 16 /\ status (set_status st th) = st /\
  yielded (set_status st th) = yielded th.
Proof.
  intros Hs Hst. unfold set_status, status, yielded. cbn [stat set_stat].
  assert (st = 0 \/ st = 1 \/ st = 2 \/ st = 3 \/ st = 4) as Hc by lia.
  pattern (stat th). apply stat_enum; [done|destruct Hc as [->|[->|[->|[->| ->]]]]; vm_compute; by split_and!..].
Qed.

Lemma clear_yield_spec th :
  0 <= stat th < 16 ->
  0 <= stat (clear_yield th) < 16 /\ status (clear_yield th) = status th /\
  yielded (clear_yield th) = false.
Proof.
  intros Hs. unfold clear_yield, status, yielded. cbn [stat set_stat].
  pattern (stat th). apply stat_enum; [done|vm_compute; by split_and!..].
Qed.

Lemma set_yield_spec th :
  0 <= stat th < 16 ->
  0 <= stat (set_yield th) < 16 /\ status (set_yield th) = status th /\
  yielded (set_yield th) = true.
Proof.
  intros Hs. unfold set_yield, status, yielded. cbn [stat set_stat].
  pattern (stat th). apply stat_enum; [done|vm_compute; by split_and!..].
Qed.

(** Two statuses of one thread. *)
Ltac status_clash :=
  match goal with
  | H1 : status ?x = ?a, H2 : status ?x = ?b |- _ => rewrite H1 in H2; discriminate H2
  end.

(** ** The invariant of the scheduler *)

(** What being in a list means. *)
Definition belongs (k : kernel) (a : head) (t : nat) : Prop :=
  match a with
  | Ready p => status (thread k t) = RT_THREAD_READY /\
               current_priority (thread k t) = Z.of_nat p
  | Waiting _ => status (thread k t) = RT_THREAD_SUSPEND
  | Defunct => status (thread k t) = RT_THREAD_CLOSE
  end.

Definition in_use (th : rt_thread) : Prop :=
  status th = RT_THREAD_READY \/ status th = RT_THREAD_SUSPEND \/ status th = RT_THREAD_RUNNING.

(** A thread by itself. *)
Record thread_ok (th : rt_thread) : Prop := {
  tk_stat : 0 <= stat th < 16;
  tk_priority : 0 <= current_priority th < RT_THREAD_PRIORITY_MAX;
  tk_mask : in_use th -> number_mask th = 2 ^ current_priority th;
  tk_mask0 : number_mask th = 2 ^ current_priority th \/ number_mask th = 0 }.

(** [cur] is the current thread; [fl] is a thread an operation is moving: it is
    in no list and its status is free. *)
Record sched_inv (fl cur : option nat) (k : kernel) : Prop := {
  si_thread : forall t, thread_ok (thread k t);
  si_heads : forall p, is_Some (lists k !! Ready p) <-> (p < 32)%nat;
  si_defunct : is_Some (lists k !! Defunct);
  si_nodup : forall a, NoDup (members a k);
  si_belongs : forall a t, t ∈ members a k -> belongs k a t /\ fl <> Some t;
  si_once : forall a b t, t ∈ members a k -> t ∈ members b k -> a = b;
  si_ready : forall t, fl <> Some t -> status (thread k t) = RT_THREAD_READY ->
    t ∈ members (Ready (Z.to_nat (current_priority (thread k t)))) k;
  si_range : 0 <= rt_thread_ready_priority_group k < 2 ^ 32;
  si_group : forall p, (p < 32)%nat ->
    Z.testbit (rt_thread_ready_priority_group k) (Z.of_nat p) = true <-> members (Ready p) k <> [];
  si_running : forall t, fl <> Some t -> status (thread k t) = RT_THREAD_RUNNING -> cur = Some t;
  si_current : forall t, cur = Some t -> fl <> Some t ->
    status (thread k t) <> RT_THREAD_READY /\ status (thread k t) <> RT_THREAD_INIT }.

Section Inv.
Implicit Types (k : kernel) (t c : nat) (a b : head) (l : list nat) (fl cur : option nat).

Lemma sched_inv_ext fl cur k k' :
  thread k' = thread k -> lists k' = lists k ->
  rt_thread_ready_priority_group k' = rt_thread_ready_priority_group k ->
  sched_inv fl cur k -> sched_inv fl cur k'.
Proof.
  intros E1 E2 E3 [].
  assert (forall a, members a k' = members a k) as E4 by (intros a; unfold members; by rewrite E2).
  split; rewrite ?E2, ?E3; try done; setoid_rewrite E4 || idtac; try done.
  - by rewrite E1.
  - intros a t Ht. unfold belongs. rewrite E1. by apply si_belongs0.
  - rewrite E1. done.
  - by rewrite E1.
  - by rewrite E1.
Qed.

Lemma thread_with_thread f t k j :
  thread (with_thread f t k) j = if decide (j = t) then f (thread k t) else thread k j.
Proof. cbn. case_decide; [subst; by rewrite fn_lookup_insert|by rewrite fn_lookup_insert_ne]. Qed.

Lemma members_with_thread f t k a : members a (with_thread f t k) = members a k.
Proof. done. Qed.

Lemma get_list_members a k : is_Some (lists k !! a) -> get_list a k = Ok (members a k).
Proof. intros [l E]. unfold get_list, members. by rewrite E. Qed.

Lemma members_remove a t k : members a (rt_list_remove t k) = del t (members a k).
Proof. unfold members. cbn. rewrite lookup_fmap. by destruct (lists k !! a). Qed.

Lemma head_remove a t k : is_Some (lists (rt_list_remove t k) !! a) <-> is_Some (lists k !! a).
Proof. cbn. rewrite lookup_fmap. apply fmap_is_Some. Qed.

Lemma in_use_status th st : status th = st -> st = 1 \/ st = 2 \/ st = 3 -> in_use th.
Proof. intros <- [H|[H|H]]; unfold in_use; rewrite H; [by left|right; by left|right; by right]. Qed.

Lemma ready_priority fl cur k p t :
  sched_inv fl cur k -> t ∈ members (Ready p) k ->
  status (thread k t) = RT_THREAD_READY /\ current_priority (thread k t) = Z.of_nat p /\
  (p < 32)%nat.
Proof.
  intros I Ht. destruct (si_belongs _ _ _ I _ _ Ht) as [[H1 H2] _]. split_and!; [done|done|].
  pose proof (tk_priority _ (si_thread _ _ _ I t)) as Hp. unfold RT_THREAD_PRIORITY_MAX in Hp. lia.
Qed.

(** The first row that has a thread. *)
Lemma highest_spec fl cur k :
  sched_inv fl cur k -> rt_thread_ready_priority_group k <> 0 ->
  exists p t l, _scheduler_get_highest_priority_thread k = Ok (Z.of_nat p, t) /\
    (p < 32)%nat /\ members (Ready p) k = t :: l /\
    (forall q, (q < p)%nat -> members (Ready q) k = []).
Proof.
  intros I H0. pose proof (si_range _ _ _ I) as Hr.
  destruct (rt_ffs_first (rt_thread_ready_priority_group k)) as [(Hp & Hb & Hlow) Hlt]; [lia|].
  set (hp := __rt_ffs _ - 1) in *. unfold _scheduler_get_highest_priority_thread. fold hp.
  assert (Z.to_nat hp < 32)%nat as Hp32 by lia.
  rewrite get_list_members by by apply (si_heads _ _ _ I). cbn.
  pose proof (proj1 (si_group _ _ _ I (Z.to_nat hp) Hp32)) as Hm. rewrite Z2Nat.id in Hm by done.
  specialize (Hm Hb). destruct (members (Ready (Z.to_nat hp)) k) as [|t l] eqn:E; [done|].
  exists (Z.to_nat hp), t, l. rewrite Z2Nat.id by done. split_and!; [done|done|done|].
  intros q Hq. pose proof (proj2 (si_group _ _ _ I q ltac:(lia))) as Hm'.
  destruct (members (Ready q) k); [done|]. rewrite Hlow in Hm' by lia. by specialize (Hm' ltac:(done)).
Qed.

Lemma group_empty fl cur k :
  sched_inv fl cur k -> rt_thread_ready_priority_group k = 0 ->
  forall t, fl <> Some t -> status (thread k t) <> RT_THREAD_READY.
Proof.
  intros I H0 t Hfl Hs. pose proof (si_ready _ _ _ I t Hfl Hs) as Hm.
  destruct (ready_priority _ _ _ _ _ I Hm) as (_ & _ & Hp).
  pose proof (proj2 (si_group _ _ _ I _ Hp)) as Hb. rewrite H0, Z.bits_0 in Hb.
  destruct (members _ k); [inversion Hm|]. by specialize (Hb ltac:(done)).
Qed.

Lemma clear_mask g m p :
  0 <= g < 2 ^ 32 -> 0 <= p < 32 -> (m = 2 ^ p \/ m = 0) ->
  0 <= Z.land g (Z.lnot m) < 2 ^ 32 /\
  forall q, 0 <= q -> Z.testbit (Z.land g (Z.lnot m)) q =
    Z.testbit g q && negb ((q =? p) && (m =? 2 ^ p)).
Proof.
  intros Hg Hp Hm. pose proof (Z.pow_pos_nonneg 2 p ltac:(lia) ltac:(lia)).
  assert (Z.land g (Z.lnot m) = Z.ldiff g m) as -> by by rewrite Z.ldiff_land.
  assert (forall q, 0 <= q -> Z.testbit (Z.ldiff g m) q = Z.testbit g q && negb ((q =? p) && (m =? 2 ^ p))) as Hb.
  { intros q Hq. rewrite Z.ldiff_spec. destruct Hm as [-> | ->].
    - rewrite Z.pow2_bits_eqb by lia. rewrite Z.eqb_refl, andb_true_r. by rewrite (Z.eqb_sym p q).
    - rewrite Z.bits_0. destruct (Z.eqb_spec 0 (2 ^ p)); [lia|]. by rewrite andb_false_r. }
  split; [|exact Hb].
  enough (0 <= Z.ldiff g m <= g) by lia. apply Z.ldiff_le; [lia|].
  apply Z.bits_inj'. intros q Hq. rewrite !Z.ldiff_spec, Z.bits_0.
  by destruct (Z.testbit g q), (Z.testbit m q).
Qed.
Lemma unlinked_spec t k : unlinked t k = true <-> forall a, t ∉ members a k.
Proof.
  unfold unlinked, members. rewrite bool_decide_eq_true, map_Forall_lookup. split.
  - intros H a. destruct (lists k !! a) eqn:E; [by eapply H|apply not_elem_of_nil].
  - intros H a l E. specialize (H a). by rewrite E in H.
Qed.

Lemma float_unlinked t cur k : sched_inv (Some t) cur k -> unlinked t k = true.
Proof. intros I. apply unlinked_spec. intros a Ha. by destruct (si_belongs _ _ _ I a t Ha). Qed.

(** Everything but the lists and the group is as it was. *)
Record same_but_lists (k k' : kernel) : Prop := {
  sl_thread : thread k' = thread k;
  sl_current : rt_current_thread k' = rt_current_thread k;
  sl_priority : rt_current_priority k' = rt_current_priority k;
  sl_lock : rt_scheduler_lock_nest k' = rt_scheduler_lock_nest k;
  sl_nest : rt_interrupt_nest k' = rt_interrupt_nest k;
  sl_timers : timers k' = timers k }.

Lemma del_nil_iff t l : del t l = [] <-> forall j, j ∈ l -> j = t.
Proof.
  split.
  - intros E j Hj. destruct (decide (j = t)) as [|Hne]; [done|].
    assert (j ∈ del t l) as H by by apply elem_of_del. rewrite E in H. inversion H.
  - intros H. destruct (del t l) as [|j l'] eqn:E; [done|].
    assert (j ∈ del t l) as [Hj Hne]%elem_of_del by (rewrite E; by left). by apply H in Hj.
Qed.

(** The bit map without the bit of a row that is left empty. *)
Definition group_without (t : nat) (k : kernel) : Z :=
  if bool_decide (del t (members (Ready (Z.to_nat (current_priority (thread k t)))) k) = [])
  then Z.land (rt_thread_ready_priority_group k) (Z.lnot (number_mask (thread k t)))
  else rt_thread_ready_priority_group k.

Lemma group_without_spec t cur k :
  sched_inv None cur k ->
  0 <= group_without t k < 2 ^ 32 /\ forall p, (p < 32)%nat ->
    Z.testbit (group_without t k) (Z.of_nat p) = true <-> del t (members (Ready p) k) <> [].
Proof.
  intros I. unfold group_without. pose proof (si_thread _ _ _ I t) as [_ Hp _ Hm]. unfold RT_THREAD_PRIORITY_MAX in Hp.
  set (th := thread k t) in *. set (e := bool_decide _).
  assert (forall p, (p < 32)%nat -> p <> Z.to_nat (current_priority th) ->
      del t (members (Ready p) k) = members (Ready p) k) as Hother.
    { intros p _ Hne. apply del_notin. intros Ht.
      destruct (ready_priority _ _ _ _ _ I Ht) as (_ & Hpp & _). fold th in Hpp. lia. }
  pose proof (si_range _ _ _ I) as Hr.
  assert (forall p, (p < 32)%nat -> p = Z.to_nat (current_priority th) ->
    e = false -> del t (members (Ready p) k) <> []) as Hne.
  { intros p _ -> He. unfold e in He. by apply bool_decide_eq_false in He. }
  destruct e eqn:Ee.
  - unfold e in Ee. apply bool_decide_eq_true in Ee.
    destruct (clear_mask _ _ _ Hr Hp Hm) as [H1 H2]. split; [done|].
    intros p Hp32. rewrite H2 by lia. pose proof (si_group _ _ _ I p Hp32) as Hgr.
    destruct (decide (p = Z.to_nat (current_priority th))) as [->|Hpne].
    + rewrite Z2Nat.id, Z.eqb_refl, Ee by lia. rewrite Z2Nat.id in Hgr by lia.
      destruct (Z.eqb_spec (number_mask th) (2 ^ current_priority th)) as [_|Hz]; cbn.
      { by rewrite andb_false_r. }
      rewrite andb_true_r. rewrite Hgr.
      destruct (members (Ready (Z.to_nat (current_priority th))) k) as [|j l] eqn:El; [done|].
      assert (j = t) as -> by (eapply del_nil_iff; [exact Ee|by left]).
      destruct (ready_priority _ _ _ _ t I ltac:(rewrite El; by left)) as (Hst & _).
      fold th in Hst. by destruct Hz; apply (tk_mask _ (si_thread _ _ _ I t)); left.
    + replace (Z.of_nat p =? current_priority th) with false by lia.
      rewrite andb_true_r, Hother by done. done.
  - split; [done|]. intros p Hp32. destruct (decide (p = Z.to_nat (current_priority th))) as [Heq|Hpne].
    + rewrite (si_group _ _ _ I p Hp32). specialize (Hne p Hp32 Heq eq_refl).
      split; [done|]. intros _ Hnil. by rewrite Hnil in Hne.
    + rewrite Hother by done. by apply (si_group _ _ _ I).
Qed.

Lemma remove_spec t cur k :
  sched_inv None cur k ->
  exists k', rt_schedule_remove_thread t k = Ok k' /\ sched_inv (Some t) cur k' /\
    same_but_lists k k' /\ (forall a, members a k' = del t (members a k)) /\
    (forall a, is_Some (lists k' !! a) <-> is_Some (lists k !! a)).
Proof.
  intros I. unfold rt_schedule_remove_thread, rt_list_isempty.
  set (k1 := rt_list_remove t k). pose proof (si_thread _ _ _ I t) as [_ Hp _ Hm].
  change (thread k1) with (thread k). set (th := thread k t) in *. unfold RT_THREAD_PRIORITY_MAX in Hp.
  rewrite get_list_members by (apply head_remove, (si_heads _ _ _ I); lia). cbn [mbind result_bind].
  assert (forall a, members a k1 = del t (members a k)) as Em by (intros a; apply members_remove).
  rewrite Em. destruct (group_without_spec t cur k I) as [Hg Hb]. unfold group_without in Hg, Hb. fold th in Hg, Hb.
  set (e := bool_decide _) in *.
  set (g := if e then Z.land (rt_thread_ready_priority_group k) (Z.lnot (number_mask th))
            else rt_thread_ready_priority_group k) in *.
  exists (mk_kernel (thread k1) (lists k1) g (rt_current_thread k1) (rt_current_priority k1)
     (rt_scheduler_lock_nest k1) (rt_interrupt_nest k1) (timers k1)).
  split_and!; [by unfold g; destruct e| |done| |].
  - split; cbn [thread rt_thread_ready_priority_group]; try exact Hg.
    + apply I.
    + intros p. cbn [lists]. unfold k1. rewrite head_remove. apply I.
    + cbn [lists]. unfold k1. rewrite head_remove. apply I.
    + intros a. change (NoDup (members a k1)). rewrite Em. apply NoDup_filter, I.
    + intros a j Hj. change (j ∈ members a k1) in Hj. rewrite Em in Hj.
      apply elem_of_del in Hj as [Hj Hjt]. split; [|congruence].
      by apply (si_belongs _ _ _ I) in Hj as [Hj _].
    + intros a b j Ha Hb'. change (j ∈ members a k1) in Ha. change (j ∈ members b k1) in Hb'.
      rewrite Em in Ha, Hb'. apply elem_of_del in Ha as [Ha _]. apply elem_of_del in Hb' as [Hb' _].
      by eapply si_once.
    + intros j Hj Hs. change (j ∈ members (Ready (Z.to_nat (current_priority (thread k j)))) k1).
      rewrite Em. apply elem_of_del. split; [by apply (si_ready _ _ _ I)|congruence].
    + intros p Hp32. change (members (Ready p) _) with (members (Ready p) k1). rewrite Em. by apply Hb.
    + intros j Hj Hs. by apply (si_running _ _ _ I).
    + intros j Hj _. by apply (si_current _ _ _ I).
  - intros a. apply Em.
  - intros a. apply (head_remove a t k).
Qed.
(** A thread that is in no list may be moved. *)
Lemma float t cur k :
  sched_inv None cur k -> unlinked t k = true -> sched_inv (Some t) cur k.
Proof.
  intros I Hu. destruct I as [H1 H2 H3 H4 H5 H6 H7 H8 H9 H10 H11]. rewrite unlinked_spec in Hu. split; try done.
  - intros a j Hj. split; [by apply H5|]. intros [= <-]. by apply (Hu a).
  - intros j _. by apply H7.
  - intros j _. by apply H10.
  - intros j Hj _. by apply H11.
Qed.

Lemma settle t cur k :
  sched_inv (Some t) cur k -> status (thread k t) <> RT_THREAD_READY ->
  (status (thread k t) = RT_THREAD_RUNNING -> cur = Some t) ->
  (cur = Some t -> status (thread k t) <> RT_THREAD_INIT) -> sched_inv None cur k.
Proof.
  intros I Hr Hru Hc. destruct I as [H1 H2 H3 H4 H5 H6 H7 H8 H9 H10 H11]. split; try done.
  - intros a j Hj. split; [by apply H5|done].
  - intros j _ Hs. apply H7; [by intros [= <-]|done].
  - intros j _ Hs. destruct (decide (t = j)) as [<-|Hne]; [by apply Hru|].
    apply H10; [congruence|done].
  - intros j Hj _. destruct (decide (t = j)) as [<-|Hne]; [by split; [|apply Hc]|].
    apply H11; [done|congruence].
Qed.

(** The moved thread can change in any way that keeps it well formed. *)
Lemma change_float t cur f k :
  sched_inv (Some t) cur k -> thread_ok (f (thread k t)) ->
  sched_inv (Some t) cur (with_thread f t k).
Proof.
  intros I Hf. pose proof I as [H1 H2 H3 H4 H5 H6 H7 H8 H9 H10 H11].
  assert (forall j, Some t <> Some j -> thread (with_thread f t k) j = thread k j) as E.
  { intros j Hj. rewrite thread_with_thread, decide_False by congruence. done. }
  split; try done.
  - intros j. rewrite thread_with_thread. by case_decide.
  - intros a j Hj. destruct (H5 a j Hj) as [Hb Hfl]. split; [|done].
    unfold belongs. rewrite E by done. exact Hb.
  - intros j Hj. rewrite E by done. by apply H7.
  - intros j Hj. rewrite E by done. by apply H10.
  - intros j Hj Hfl. rewrite E by done. by apply H11.
Qed.

(** A change that the scheduler does not look at. *)
Lemma change_same t fl cur f k :
  sched_inv fl cur k -> thread_ok (f (thread k t)) ->
  status (f (thread k t)) = status (thread k t) ->
  (status (thread k t) = RT_THREAD_READY ->
   current_priority (f (thread k t)) = current_priority (thread k t)) ->
  sched_inv fl cur (with_thread f t k).
Proof.
  intros I Hf Hs Hp. pose proof I as [H1 H2 H3 H4 H5 H6 H7 H8 H9 H10 H11].
  assert (forall j, status (thread (with_thread f t k) j) = status (thread k j)) as E.
  { intros j. rewrite thread_with_thread. by case_decide; [subst|]. }
  assert (forall j, status (thread k j) = RT_THREAD_READY ->
    current_priority (thread (with_thread f t k) j) = current_priority (thread k j)) as Ep.
  { intros j Hj. rewrite thread_with_thread. case_decide; [subst; by apply Hp|done]. }
  split; try done.
  - intros j. rewrite thread_with_thread. by case_decide.
  - intros a j Hj. destruct (H5 a j Hj) as [Hb Hfl]. split; [|done].
    destruct a; cbn in *; rewrite E; [|done|done]. destruct Hb as [Hb1 Hb2]. by rewrite Ep.
  - intros j Hj. rewrite E. intros Hr. rewrite Ep by done. by apply H7.
  - intros j Hj. rewrite E. by apply H10.
  - intros j Hj Hfl. rewrite E. by apply H11.
Qed.

Lemma drop_current t k : sched_inv (Some t) (Some t) k -> sched_inv (Some t) None k.
Proof.
  intros I. pose proof I as [H1 H2 H3 H4 H5 H6 H7 H8 H9 H10 H11]. split; try done.
  intros j Hj Hs. by specialize (H10 j Hj Hs).
Qed.

(** Linking the node of a thread. *)
Lemma link_spec f a t k :
  (forall l, f l ≡ₚ t :: l) -> is_Some (lists k !! a) -> unlinked t k = true ->
  link f a t k = Ok (with_lists <[a := f (members a k)]> k) /\
  let k' := with_lists <[a := f (members a k)]> k in
  members a k' = f (members a k) /\ (forall b, b <> a -> members b k' = members b k) /\
  (forall b, is_Some (lists k' !! b) <-> is_Some (lists k !! b)).
Proof.
  intros Hf Ha Hu. unfold link. rewrite get_list_members by done. cbn. rewrite Hu.
  split_and!; [done| | |].
  - unfold members. cbn. by rewrite lookup_insert_eq.
  - intros b Hb. unfold members. cbn. by rewrite lookup_insert_ne.
  - intros b. rewrite lookup_insert_is_Some. destruct (decide (a = b)) as [->|]; naive_solver.
Qed.

Lemma link_inv f a t fl cur k :
  (forall l, f l ≡ₚ t :: l) -> is_Some (lists k !! a) -> unlinked t k = true ->
  (forall p, a <> Ready p) -> fl <> Some t -> belongs k a t -> sched_inv fl cur k ->
  exists k', link f a t k = Ok k' /\ sched_inv fl cur k' /\ same_but_lists k k' /\
    members a k' = f (members a k) /\ (forall b, b <> a -> members b k' = members b k).
Proof.
  intros Hf Ha Hu Hnr Hfl Hb I. destruct (link_spec f a t k Hf Ha Hu) as (E & Em & Eo & Eh).
  eexists. split_and!; [exact E| |done|done|done].
  pose proof I as [H1 H2 H3 H4 H5 H6 H7 H8 H9 H10 H11]. set (k' := with_lists _ k) in *.
  rewrite unlinked_spec in Hu.
  assert (forall b j, j ∈ members b k' <-> j ∈ members b k \/ b = a /\ j = t) as Hmem.
  { intros b j. destruct (decide (b = a)) as [->|Hne]; [rewrite Em, Hf|rewrite Eo by done];
      set_solver. }
  split; try done.
  - intros p. rewrite Eh. apply H2.
  - by rewrite Eh.
  - intros b. destruct (decide (b = a)) as [->|Hne]; [|by rewrite Eo].
    rewrite Em, Hf. constructor; [apply Hu|apply H4].
  - intros b j [Hj|[-> ->]]%Hmem; [by apply H5|done].
  - intros b1 b2 j [Hj1|[-> ->]]%Hmem [Hj2|[-> ?]]%Hmem; try done.
    + by eapply H6.
    + subst. by destruct (Hu b1).
    + by destruct (Hu b2).
  - intros j Hj Hs. apply Hmem. left. by apply H7.
  - intros p Hp. rewrite Eo by done. by apply H9.
Qed.

Lemma lor_bit g p :
  0 <= g < 2 ^ 32 -> 0 <= p < 32 ->
  0 <= Z.lor g (2 ^ p) < 2 ^ 32 /\
  forall q, 0 <= q -> Z.testbit (Z.lor g (2 ^ p)) q = Z.testbit g q || (p =? q).
Proof.
  intros Hg Hp. split.
  - split; [apply Z.lor_nonneg; split; [lia|apply Z.pow_nonneg; lia]|].
    apply Z.log2_lt_cancel. rewrite Z.log2_lor, Z.log2_pow2 by (try apply Z.pow_nonneg; lia).
    change (Z.log2 (2 ^ 32)) with 32. destruct (decide (g = 0)) as [->|]; [cbn; lia|].
    assert (Z.log2 g < 32) by (apply Z.log2_lt_pow2; lia). lia.
  - intros q Hq. by rewrite Z.lor_spec, Z.pow2_bits_eqb by lia.
Qed.

Lemma insert_spec t cur k :
  sched_inv (Some t) cur k -> rt_current_thread k <> Some t -> cur <> Some t ->
  number_mask (thread k t) = 2 ^ current_priority (thread k t) ->
  exists k', rt_schedule_insert_thread t k = Ok k' /\ sched_inv None cur k' /\
    same_but_lists (with_thread (set_status RT_THREAD_READY) t k) k' /\
    let p := Z.to_nat (current_priority (thread k t)) in
    members (Ready p) k' = members (Ready p) k ++ [t] /\
    (forall a, a <> Ready p -> members a k' = members a k).
Proof.
  intros I Hcur Hc Hmask. unfold rt_schedule_insert_thread. rewrite bool_decide_false by done.
  set (k1 := with_thread _ t k). set (p := Z.to_nat (current_priority (thread k t))).
  pose proof (si_thread _ _ _ I t) as [Hst Hp Hm Hm0]. unfold RT_THREAD_PRIORITY_MAX in Hp.
  destruct (set_status_spec RT_THREAD_READY (thread k t) Hst) as (S1 & S2 & S3); [by vm_compute|].
  assert (sched_inv (Some t) cur k1) as I1 by (apply change_float; [done|by split]).
  assert (thread k1 t = set_status RT_THREAD_READY (thread k t)) as Et
    by (unfold k1; by rewrite thread_with_thread, decide_True).
  rewrite Et. cbn [current_priority set_status set_stat]. fold p.
  unfold rt_list_insert_before. assert (forall l, l ++ [t] ≡ₚ t :: l) as Hf
    by (intros l; by rewrite Permutation_app_comm).
  destruct (link_spec (fun l => l ++ [t]) (Ready p) t k1 Hf) as (E & Em & Eo & Eh).
  { apply (si_heads _ _ _ I1). lia. }
  { by eapply float_unlinked. }
  rewrite E. cbn [mbind result_bind]. set (k2 := with_lists _ k1) in *.
  change (thread k2) with (thread k1). rewrite Et. cbn [number_mask set_status set_stat].
  rewrite Hmask. eexists. split; [done|].
  change (members (Ready p) k1) with (members (Ready p) k) in *.
  split_and!; [|done|exact Em|exact Eo].
  pose proof (si_range _ _ _ I1) as Hr.
  pose proof (float_unlinked _ _ _ I1) as Hu. rewrite unlinked_spec in Hu.
  pose proof I1 as [H1 H2 H3 H4 H5 H6 H7 H8 H9 H10 H11].
  assert (forall b j, j ∈ members b k2 <-> j ∈ members b k \/ b = Ready p /\ j = t) as Hmem.
  { intros b j. destruct (decide (b = Ready p)) as [->|Hne]; [rewrite Em, Hf|rewrite Eo by done];
      set_solver. }
  set (k3 := with_group _ k2).
  split; try done.
  - intros q. change (lists k3) with (lists k2). rewrite Eh. apply H2.
  - change (lists k3) with (lists k2). by rewrite Eh.
  - intros b. change (NoDup (members b k2)). destruct (decide (b = Ready p)) as [->|Hne]; [|by rewrite Eo].
    rewrite Em, Hf. constructor; [apply Hu|apply H4].
  - intros b j [Hj|[-> ->]]%Hmem.
    + split; [|done]. by apply H5.
    + split; [|done]. cbn [belongs]. change (thread k3 t) with (thread k1 t). rewrite Et.
      split; [done|]. cbn. unfold p. lia.
  - intros b1 b2 j [Hj1|[-> ->]]%Hmem [Hj2|[-> ?]]%Hmem; try done.
    + by eapply H6.
    + subst. by destruct (Hu b1).
    + by destruct (Hu b2).
  - intros j _ Hs. change (thread k3 j) with (thread k1 j) in Hs |- *. apply Hmem.
    destruct (decide (t = j)) as [<-|Hne]; [right; by rewrite Et|].
    left. apply H7; [congruence|done].
  - unfold k3. cbn [with_group rt_thread_ready_priority_group].
    change (rt_thread_ready_priority_group k2) with (rt_thread_ready_priority_group k1).
    apply (lor_bit _ (current_priority (thread k t))); lia.
  - intros q Hq. unfold k3. cbn [with_group rt_thread_ready_priority_group].
    change (members (Ready q) _) with (members (Ready q) k2).
    change (rt_thread_ready_priority_group k2) with (rt_thread_ready_priority_group k1).
    rewrite (proj2 (lor_bit _ (current_priority (thread k t)) Hr ltac:(lia))) by lia.
    destruct (decide (q = p)) as [->|Hne].
    + rewrite Em. replace (_ =? _) with true by (unfold p; lia). rewrite orb_true_r.
      split; [|done]. intros _. by destruct (members (Ready p) k).
    + rewrite Eo by congruence. replace (_ =? _) with false by (unfold p in Hne; lia).
      rewrite orb_false_r. by apply H9.
  - intros j _ Hs. change (thread k3 j) with (thread k1 j) in Hs.
    destruct (decide (t = j)) as [<-|Hne]; [by rewrite Et, S2 in Hs|]. apply H10; [congruence|done].
  - intros j Hj _. apply H11; [done|congruence].
Qed.
(** *** A switch *)

Definition is_running (th : rt_thread) : bool := status th =? RT_THREAD_RUNNING.

(** The processor goes from [c] to [n], or stays with [c = n]: a running thread
    that loses it goes to the end of its row. *)
Definition requeued (c n : nat) (k : kernel) (p : nat) : list nat :=
  if is_running (thread k c) && bool_decide (n <> c) &&
     bool_decide (p = Z.to_nat (current_priority (thread k c))) then [c] else [].
Definition after_switch (c n : nat) (th : rt_thread) : rt_thread :=
  if is_running th
  then set_status (if bool_decide (n = c) then RT_THREAD_RUNNING else RT_THREAD_READY) (clear_yield th)
  else th.

Record switched c n (k k' : kernel) : Prop := {
  sw_inv : sched_inv None (Some n) k';
  sw_current : rt_current_thread k' = Some n;
  sw_lock : rt_scheduler_lock_nest k' = rt_scheduler_lock_nest k;
  sw_nest : rt_interrupt_nest k' = rt_interrupt_nest k;
  sw_timers : timers k' = timers k;
  sw_other : forall t, t <> c -> t <> n -> thread k' t = thread k t;
  sw_to : n <> c -> thread k' n = set_status RT_THREAD_RUNNING (thread k n);
  sw_from : thread k' c = after_switch c n (thread k c);
  sw_ready : forall p, members (Ready p) k' = del n (members (Ready p) k ++ requeued c n k p);
  sw_waiting : forall a, (forall p, a <> Ready p) -> members a k' = members a k }.

Lemma thread_ok_clear_yield th : thread_ok th -> thread_ok (clear_yield th).
Proof.
  intros [H1 H2 H3 H4]. destruct (clear_yield_spec th H1) as (S1 & S2 & _).
  split; try done. unfold in_use. by rewrite S2.
Qed.

Lemma thread_ok_status st th :
  thread_ok th -> 0 <= st <= 4 -> in_use th \/ st = 0 \/ st = 4 -> thread_ok (set_status st th).
Proof.
  intros [H1 H2 H3 H4] Hst Hu. destruct (set_status_spec st th H1 Hst) as (S1 & S2 & _).
  split; try done. intros Hu'. destruct Hu as [Hu|Hu]; [by apply H3|].
  unfold in_use in Hu'. rewrite S2 in Hu'. by destruct Hu as [-> | ->], Hu' as [|[]].
Qed.

Lemma running_unlinked fl cur k c :
  sched_inv fl cur k -> is_running (thread k c) = true -> unlinked c k = true.
Proof.
  intros I Hr. apply unlinked_spec. intros a Ha. apply Z.eqb_eq in Hr.
  destruct (si_belongs _ _ _ I a c Ha) as [Hb _]. destruct a; cbn in Hb; [destruct Hb|..]; status_clash.
Qed.

Lemma del_unlinked c k a : unlinked c k = true -> del c (members a k) = members a k.
Proof. intros Hu. apply del_notin. by apply unlinked_spec. Qed.

Lemma set_current t k : sched_inv (Some t) None k -> sched_inv (Some t) (Some t) k.
Proof.
  intros I. pose proof I as [H1 H2 H3 H4 H5 H6 H7 H8 H9 H10 H11]. split; try done.
  intros j Hj Hs. by specialize (H10 j Hj Hs).
Qed.

(** The end of both branches: the thread [n] leaves the ready table and runs. *)
Lemma dispatch_spec n cur k :
  sched_inv None cur k -> cur = None \/ cur = Some n -> in_use (thread k n) ->
  exists k', rt_schedule_remove_thread n k = Ok k' /\
    let k' := with_thread (set_status RT_THREAD_RUNNING) n k' in
    sched_inv None (Some n) k' /\ same_but_lists (with_thread (set_status RT_THREAD_RUNNING) n k) k' /\
    (forall a, members a k' = del n (members a k)).
Proof.
  intros I Hc Hu. destruct (remove_spec n cur k I) as (k1 & E & I1 & [S1 S2 S3 S4 S5 S6] & Em & _).
  exists k1. split; [done|]. cbn zeta.
  pose proof (si_thread _ _ _ I n) as Hok. pose proof (tk_stat _ Hok) as Hst.
  destruct (set_status_spec RT_THREAD_RUNNING (thread k n) Hst ltac:(by vm_compute)) as (T1 & T2 & _).
  split_and!; [|split; cbn; congruence|done].
  apply settle with n.
  - apply change_float.
    + destruct Hc as [-> | ->]; [by apply set_current|done].
    + rewrite S1. apply thread_ok_status; [done|by vm_compute|by left].
  - rewrite thread_with_thread, decide_True, S1 by done. by rewrite T2.
  - done.
  - intros _. rewrite thread_with_thread, decide_True, S1 by done. by rewrite T2.
Qed.

Lemma schedule_keeps c hp t k :
  sched_inv None (Some c) k -> rt_current_thread k = Some c ->
  rt_scheduler_lock_nest k = 0 -> rt_thread_ready_priority_group k <> 0 ->
  _scheduler_get_highest_priority_thread k = Ok (hp, t) ->
  keeps_running (thread k c) hp = true ->
  exists k', rt_schedule k = Ok k' /\ switched c c k k'.
Proof.
  intros I Hc Hl Hg Hhp Hk.
  assert (is_running (thread k c) = true) as Hr by by apply andb_true_iff in Hk as [Hr _].
  pose proof (si_thread _ _ _ I c) as Hok. pose proof (tk_stat _ Hok) as Hst.
  destruct (clear_yield_spec _ Hst) as (C1 & C2 & C3).
  set (k1 := with_thread clear_yield c k).
  assert (sched_inv None (Some c) k1) as I1.
  { apply change_same; [done|by apply thread_ok_clear_yield|done|done]. }
  assert (thread k1 c = clear_yield (thread k c)) as E1 by (unfold k1; by rewrite thread_with_thread, decide_True).
  destruct (dispatch_spec c (Some c) k1 I1) as (k2 & E2 & I2 & [S1 S2 S3 S4 S5 S6] & Em).
  { by right. }
  { rewrite E1. right. right. rewrite C2. by apply Z.eqb_eq. }
  eexists. split.
  - unfold rt_schedule. rewrite Hl. cbn [negb Z.eqb]. replace (_ =? 0) with false by lia.
    rewrite Hhp. cbn [mbind result_bind]. unfold current. rewrite Hc. cbn [mbind result_bind].
    unfold is_running in Hr. rewrite Hk, Hr. rewrite bool_decide_false by (intros []; done).
    fold k1. rewrite E2. cbn [mbind result_bind]. reflexivity.
  - assert (forall a, members a k1 = members a k) as Em1 by done.
    split; try done.
    + by rewrite S2.
    + intros j Hj _. rewrite S1, thread_with_thread, decide_False by done.
      unfold k1. by rewrite thread_with_thread, decide_False.
    + rewrite S1, thread_with_thread, decide_True, E1 by done. unfold after_switch.
      rewrite Hr. by rewrite bool_decide_true.
    + intros p. unfold requeued. rewrite Hr, (bool_decide_false (c <> c)), andb_false_r by tauto.
      rewrite app_nil_r, Em. done.
    + intros a Ha. rewrite Em, Em1. apply del_unlinked. by eapply running_unlinked.
Qed.

(** The first half of a switch from [c] to [n]: a current thread that is still
    running goes back to the end of its row. *)
Record requeue_done (c n : nat) (k k3 : kernel) : Prop := {
  rq_inv : sched_inv None None k3;
  rq_current : rt_current_thread k3 = Some n;
  rq_lock : rt_scheduler_lock_nest k3 = rt_scheduler_lock_nest k;
  rq_nest : rt_interrupt_nest k3 = rt_interrupt_nest k;
  rq_timers : timers k3 = timers k;
  rq_other : forall j, j <> c -> thread k3 j = thread k j;
  rq_from : thread k3 c = after_switch c n (thread k c);
  rq_ready : forall p, members (Ready p) k3 = members (Ready p) k ++ requeued c n k p;
  rq_waiting : forall a, (forall p, a <> Ready p) -> members a k3 = members a k }.

Lemma requeue_spec c hp n k :
  sched_inv None (Some c) k -> n <> c ->
  let k1 := if is_running (thread k c) then with_thread clear_yield c k else k in
  let k2 := with_current (Some n) hp k1 in
  exists k3, (if is_running (thread k c) then rt_schedule_insert_thread c k2 else Ok k2) = Ok k3 /\
    requeue_done c n k k3.
Proof.
  intros I Hne k1 k2. pose proof (si_thread _ _ _ I c) as Hok.
  assert (forall j, j <> c -> thread k1 j = thread k j) as E1.
  { intros j Hj. unfold k1. destruct (is_running _); [|done]. by rewrite thread_with_thread, decide_False. }
  assert (sched_inv None (Some c) k1) as I1.
  { unfold k1. destruct (is_running _); [|done]. destruct (clear_yield_spec _ (tk_stat _ Hok)) as (C1 & C2 & C3).
    apply change_same; [done|by apply thread_ok_clear_yield|done|done]. }
  assert (sched_inv None (Some c) k2) as I2 by by apply (sched_inv_ext _ _ k1).
  destruct (is_running (thread k c)) eqn:Hr.
  - assert (thread k2 c = clear_yield (thread k c)) as Ec.
    { unfold k2, k1. cbn [thread with_current]. by rewrite thread_with_thread, decide_True. }
    assert (in_use (thread k c)) as Hu by (right; right; by apply Z.eqb_eq).
    destruct (insert_spec c None k2) as (k3 & E3 & I3 & [S1 S2 S3 S4 S5 S6] & Em & Eo).
    + apply drop_current. apply float; [done|]. change (unlinked c k = true).
      by eapply running_unlinked.
    + cbn. congruence.
    + done.
    + rewrite Ec. by apply (tk_mask _ Hok).
    + rewrite Ec in Em, Eo. cbn [current_priority clear_yield set_stat] in Em, Eo.
      exists k3. split; [done|]. split; try done; unfold after_switch, requeued;
        rewrite ?(bool_decide_true (n <> c)), ?(bool_decide_false (n = c)), ?Hr by done.
      * intros j Hj. rewrite S1, thread_with_thread, decide_False by done. by apply E1.
      * rewrite S1, thread_with_thread, decide_True by done. by rewrite Ec.
      * intros p. cbn [andb]. destruct (decide (p = Z.to_nat (current_priority (thread k c)))) as [->|Hp].
        -- rewrite bool_decide_true by done. exact Em.
        -- rewrite bool_decide_false, app_nil_r by done. rewrite Eo by congruence. done.
      * intros a Ha. rewrite Eo by apply Ha. done.
  - exists k2. split; [done|]. split; try done; unfold after_switch, requeued; rewrite ?Hr; try done.
    + assert (is_running (thread k2 c) = false) as Hr2 by exact Hr.
      pose proof I2 as [H1 H2 H3 H4 H5 H6 H7 H8 H9 H10 H11]. split; try done.
      intros j _ Hj. specialize (H10 j ltac:(done) Hj). injection H10 as <-.
      apply Z.eqb_eq in Hj. unfold is_running in Hr2. congruence.
    + intros p. cbn [andb]. by rewrite app_nil_r.
Qed.

Lemma schedule_switches c hp n k :
  sched_inv None (Some c) k -> rt_current_thread k = Some c ->
  rt_scheduler_lock_nest k = 0 -> rt_thread_ready_priority_group k <> 0 ->
  _scheduler_get_highest_priority_thread k = Ok (hp, n) ->
  status (thread k n) = RT_THREAD_READY -> keeps_running (thread k c) hp = false ->
  exists k', rt_schedule k = Ok k' /\ switched c n k k'.
Proof.
  intros I Hc Hl Hg Hhp Hn Hk.
  assert (n <> c) as Hne.
  { intros ->. by destruct (si_current _ _ _ I c eq_refl ltac:(done)). }
  destruct (requeue_spec c (u8 hp) n k I Hne) as (k3 & E3 & [I3 S2 S4 S5 S6 Sj Sc Em Ew]).
  destruct (dispatch_spec n None k3 I3) as (k4 & E4 & I4 & [R1 R2 R3 R4 R5 R6] & Em4).
  { by left. }
  { rewrite Sj by done. by left. }
  eexists. split.
  - unfold rt_schedule. rewrite Hl. cbn [negb Z.eqb]. replace (_ =? 0) with false by lia.
    rewrite Hhp. cbn [mbind result_bind]. unfold current. rewrite Hc. cbn [mbind result_bind].
    rewrite Hk. rewrite bool_decide_true by done. cbn [negb]. rewrite andb_true_r.
    fold (is_running (thread k c)). rewrite E3. cbn [mbind result_bind].
    rewrite E4. cbn [mbind result_bind]. reflexivity.
  - split; try done.
    + rewrite R2. exact S2.
    + rewrite R4. exact S4.
    + rewrite R5. exact S5.
    + rewrite R6. exact S6.
    + intros j Hjc Hjn. rewrite R1, thread_with_thread, decide_False by done. by apply Sj.
    + intros _. rewrite R1, thread_with_thread, decide_True by done. by rewrite Sj.
    + rewrite R1, thread_with_thread, decide_False by done. exact Sc.
    + intros p. rewrite Em4. by rewrite Em.
    + intros a Ha. rewrite Em4, Ew by done. apply del_notin. intros Hin.
      destruct (si_belongs _ _ _ I a n Hin) as [Hb _]. destruct a; cbn in Hb; [by destruct (Ha p)|status_clash..].
Qed.
(** *** The choice of [rt_schedule], without the bit map *)

(** The first thread of the first row that is not empty. *)
Fixpoint scan_rows (ps : list nat) k : option (nat * nat) :=
  match ps with
  | [] => None
  | p :: ps => match members (Ready p) k with t :: _ => Some (p, t) | [] => scan_rows ps k end
  end.
Definition first_ready k : option (nat * nat) := scan_rows (seq 0 32) k.
Definition choose c k : nat :=
  match first_ready k with
  | Some (p, t) => if keeps_running (thread k c) (Z.of_nat p) then c else t
  | None => c
  end.

Lemma scan_rows_spec s n k :
  match scan_rows (seq s n) k with
  | Some (p, t) => (s <= p < s + n)%nat /\ (exists l, members (Ready p) k = t :: l) /\
                   forall q, (s <= q < p)%nat -> members (Ready q) k = []
  | None => forall q, (s <= q < s + n)%nat -> members (Ready q) k = []
  end.
Proof.
  revert s. induction n as [|n IH]; intros s; cbn; [lia|].
  destruct (members (Ready s) k) as [|t l] eqn:E.
  - specialize (IH (S s)). destruct (scan_rows _ _) as [[p t]|].
    + destruct IH as (H1 & H2 & H3). split_and!; [lia|lia|done|].
      intros q Hq. destruct (decide (q = s)) as [->|]; [done|]. apply H3. lia.
    + intros q Hq. destruct (decide (q = s)) as [->|]; [done|]. apply IH. lia.
  - split_and!; [lia|lia|by exists l|lia].
Qed.

(** The row of the first set bit is the first row that is not empty. *)
Lemma first_ready_spec fl cur k :
  sched_inv fl cur k ->
  match first_ready k with
  | Some (p, t) => rt_thread_ready_priority_group k <> 0 /\
      _scheduler_get_highest_priority_thread k = Ok (Z.of_nat p, t) /\
      t ∈ members (Ready p) k /\
      forall j, fl <> Some j -> status (thread k j) = RT_THREAD_READY ->
                Z.of_nat p <= current_priority (thread k j)
  | None => rt_thread_ready_priority_group k = 0
  end.
Proof.
  intros I. pose proof (scan_rows_spec 0 32 k) as Hs. unfold first_ready.
  destruct (decide (rt_thread_ready_priority_group k = 0)) as [Hz|Hz].
  - destruct (scan_rows _ _) as [[p t]|]; [|done]. destruct Hs as (Hp & (l & E) & _).
    pose proof (proj2 (si_group _ _ _ I p ltac:(lia))) as Hb. rewrite Hz, Z.bits_0, E in Hb.
    by specialize (Hb ltac:(done)).
  - destruct (highest_spec _ _ _ I Hz) as (p & t & l & E & Hp & El & Hlow).
    destruct (scan_rows _ _) as [[p' t']|]; [|rewrite Hs in El; [done|lia]].
    destruct Hs as (Hp' & (l' & El') & Hlow').
    assert (p' = p) as ->.
    { destruct (Nat.lt_trichotomy p p') as [H|[H|H]]; [|done|].
      - rewrite Hlow' in El; [done|lia].
      - by rewrite Hlow in El'. }
    rewrite El in El'. injection El' as <- <-. split_and!; [done|done|rewrite El; by left|].
    intros j Hfl Hj. pose proof (si_ready _ _ _ I j Hfl Hj) as Hm.
    destruct (ready_priority _ _ _ _ _ I Hm) as (_ & Hjp & _).
    destruct (decide (Z.to_nat (current_priority (thread k j)) < p)%nat) as [Hlt|]; [|lia].
    rewrite Hlow in Hm by done. inversion Hm.
Qed.

Lemma rt_schedule_spec c k :
  sched_inv None (Some c) k -> rt_current_thread k = Some c ->
  exists k', rt_schedule k = Ok k' /\
    (k' = k /\ (rt_scheduler_lock_nest k <> 0 \/ first_ready k = None) \/
     rt_scheduler_lock_nest k = 0 /\ is_Some (first_ready k) /\ switched c (choose c k) k k').
Proof.
  intros I Hc. pose proof (first_ready_spec _ _ _ I) as Hf. unfold choose.
  destruct (decide (rt_scheduler_lock_nest k = 0)) as [Hl|Hl].
  2: { exists k. split; [|left; by split; [|left]]. unfold rt_schedule.
       replace (_ =? 0) with false by lia. done. }
  destruct (first_ready k) as [[p t]|].
  - destruct Hf as (Hz & Hh & Hm & _).
    destruct (keeps_running (thread k c) (Z.of_nat p)) eqn:Hk.
    + destruct (schedule_keeps c _ t k I Hc Hl Hz Hh Hk) as (k' & E & Hsw).
      exists k'. split; [done|]. right. done.
    + destruct (schedule_switches c _ t k I Hc Hl Hz Hh) as (k' & E & Hsw); [|done|].
      { by apply (ready_priority _ _ _ _ _ I Hm). }
      exists k'. split; [done|]. right. done.
  - exists k. split; [|left; by split; [|right]]. unfold rt_schedule. by rewrite Hl, Hf.
Qed.
(** *** What scheduling changes *)

Definition runnable (th : rt_thread) : Prop :=
  status th = RT_THREAD_READY \/ status th = RT_THREAD_RUNNING.

(** Threads move only between READY and RUNNING; nothing but statuses, the
    ready table and the current thread changes. *)
Record sched_frame (k k' : kernel) : Prop := {
  sf_timers : timers k' = timers k;
  sf_lock : rt_scheduler_lock_nest k' = rt_scheduler_lock_nest k;
  sf_nest : rt_interrupt_nest k' = rt_interrupt_nest k;
  sf_current : is_Some (rt_current_thread k) -> is_Some (rt_current_thread k');
  sf_waiting : forall a, (forall p, a <> Ready p) -> members a k' = members a k;
  sf_thread : forall t, thread k' t = set_stat (stat (thread k' t)) (thread k t);
  sf_status : forall t, status (thread k' t) = status (thread k t) \/
                        runnable (thread k t) /\ runnable (thread k' t) }.

Lemma set_stat_id th : set_stat (stat th) th = th.
Proof. by destruct th. Qed.

Lemma sched_frame_refl k : sched_frame k k.
Proof. split; try done; intros t; [by rewrite set_stat_id|by left]. Qed.

Lemma sched_frame_suspend k k' t :
  sched_frame k k' ->
  (status (thread k' t) = RT_THREAD_SUSPEND <-> status (thread k t) = RT_THREAD_SUSPEND).
Proof.
  intros F. destruct (sf_status _ _ F t) as [-> | [[H|H] [H'|H']]]; [done|rewrite H, H'..]; by split.
Qed.

Lemma sched_frame_runnable k k' t :
  sched_frame k k' -> runnable (thread k t) -> runnable (thread k' t).
Proof. intros F. destruct (sf_status _ _ F t) as [E|[]]; [unfold runnable; by rewrite E|done]. Qed.

Lemma sched_frame_error k k' t : sched_frame k k' -> error (thread k' t) = error (thread k t).
Proof. intros F. by rewrite (sf_thread _ _ F t). Qed.

Lemma switched_frame c n k k' :
  thread_ok (thread k c) -> thread_ok (thread k n) -> (n <> c -> status (thread k n) = RT_THREAD_READY) ->
  switched c n k k' -> sched_frame k k'.
Proof.
  intros Hc Hn Hr []. destruct (clear_yield_spec _ (tk_stat _ Hc)) as (C1 & C2 & _).
  assert (forall st, 0 <= st <= 4 -> status (set_status st (clear_yield (thread k c))) = st) as C3.
  { intros st Hst. by apply (set_status_spec st _ C1 Hst). }
  split; try done.
  - intros t. destruct (decide (t = c)) as [->|Htc].
    + rewrite sw_from0. unfold after_switch. by destruct (is_running _); [|rewrite set_stat_id].
    + destruct (decide (t = n)) as [->|Htn]; [by rewrite sw_to0|].
      by rewrite sw_other0, set_stat_id.
  - intros t. destruct (decide (t = c)) as [->|Htc].
    + rewrite sw_from0. unfold after_switch. destruct (is_running (thread k c)) eqn:Er; [|by left].
      right. apply Z.eqb_eq in Er. split; [by right|].
      unfold runnable. rewrite C3 by (case_bool_decide; by vm_compute). case_bool_decide; tauto.
    + destruct (decide (t = n)) as [->|Htn].
      * rewrite sw_to0 by done. right. split; [left; by apply Hr|right].
        by apply (set_status_spec _ _ (tk_stat _ Hn)).
      * rewrite sw_other0 by done. by left.
Qed.

Lemma choose_status c k :
  sched_inv None (Some c) k -> choose c k <> c -> status (thread k (choose c k)) = RT_THREAD_READY.
Proof.
  intros I. pose proof (first_ready_spec _ _ _ I) as Hf. unfold choose.
  destruct (first_ready k) as [[p t]|]; [|done]. destruct Hf as (_ & _ & Hm & _).
  destruct (keeps_running _ _); [done|]. intros _. by apply (ready_priority _ _ _ _ _ I Hm).
Qed.

(** [rt_schedule] keeps the invariant. *)
Lemma rt_schedule_inv k :
  is_Some (rt_current_thread k) -> sched_inv None (rt_current_thread k) k ->
  exists k', rt_schedule k = Ok k' /\ sched_inv None (rt_current_thread k') k' /\ sched_frame k k'.
Proof.
  intros [c Hc] I. rewrite Hc in I.
  destruct (rt_schedule_spec c k I Hc) as (k' & E & Hk'). exists k'.
  destruct Hk' as [[-> _]|(_ & _ & Hs)].
  - rewrite Hc. split_and!; [done|done|apply sched_frame_refl].
  - rewrite (sw_current _ _ _ _ Hs). split_and!; [done|apply Hs|].
    eapply switched_frame; [apply I..| |exact Hs]. by apply choose_status.
Qed.

(** *** Taking a suspended thread out of its list *)

Lemma unlink_spec t cur k :
  sched_inv None cur k -> status (thread k t) <> RT_THREAD_READY ->
  sched_inv (Some t) cur (rt_list_remove t k).
Proof.
  intros I Hs. pose proof I as [H1 H2 H3 H4 H5 H6 H7 H8 H9 H10 H11].
  assert (forall p, members (Ready p) (rt_list_remove t k) = members (Ready p) k) as Er.
  { intros p. rewrite members_remove. apply del_notin. intros Ht.
    by destruct (ready_priority _ _ _ _ _ I Ht). }
  split; try done.
  - intros p. rewrite head_remove. apply H2.
  - by rewrite head_remove.
  - intros a. rewrite members_remove. apply NoDup_filter, H4.
  - intros a j. rewrite members_remove. intros [Hj Hne]%elem_of_del. split; [|congruence].
    by apply H5.
  - intros a b j. rewrite !members_remove. intros [Ha _]%elem_of_del [Hb _]%elem_of_del. by eapply H6.
  - intros j Hj Hr. rewrite Er. by apply H7.
  - intros p Hp. rewrite Er. by apply H9.
  - intros j Hj Hr. by apply H10.
  - intros j Hj _. by apply H11.
Qed.

(** The status a woken thread gets. *)
Definition wake_status (t : nat) k : Z :=
  if bool_decide (rt_current_thread k = Some t) then RT_THREAD_RUNNING else RT_THREAD_READY.

Lemma wake_spec t k :
  sched_inv (Some t) (rt_current_thread k) k ->
  number_mask (thread k t) = 2 ^ current_priority (thread k t) ->
  exists k', rt_schedule_insert_thread t k = Ok k' /\ sched_inv None (rt_current_thread k) k' /\
    same_but_lists (with_thread (set_status (wake_status t k)) t k) k' /\
    (forall a, (forall p, a <> Ready p) -> members a k' = members a k).
Proof.
  intros I Hm. unfold wake_status. destruct (decide (rt_current_thread k = Some t)) as [Hc|Hc].
  - rewrite bool_decide_true by done. unfold rt_schedule_insert_thread.
    rewrite bool_decide_true by done. eexists. split_and!; [done| |done|done].
    pose proof (si_thread _ _ _ I t) as [Hst Hp Hm1 Hm0].
    destruct (set_status_spec RT_THREAD_RUNNING (thread k t) Hst) as (S1 & S2 & _); [by vm_compute|].
    apply settle with t.
    + apply change_float; [done|]. by split.
    + rewrite thread_with_thread, decide_True by done. by rewrite S2.
    + done.
    + intros _. rewrite thread_with_thread, decide_True by done. by rewrite S2.
  - rewrite bool_decide_false by done.
    destruct (insert_spec t (rt_current_thread k) k I Hc Hc Hm) as (k' & E & I' & S & _ & Ho).
    exists k'. split_and!; [done|done|done|]. intros a Ha. apply Ho, Ha.
Qed.
(** *** The thread timers *)

(** They are hard one-shot timers, and between two ticks none is due. *)
Record timers_ok (tm : Timer.timers nat) : Prop := {
  to_running : running tm;
  to_hard : forall t, 0 <= flag (timer tm t) <= 1 }.

Lemma hard_flag f x y : 0 <= f <= 1 <-> 0 <= f < 8 /\ periodic (mk_timer f x y) = false /\
                                        soft (mk_timer f x y) = false.
Proof.
  split.
  - intros Hf. assert (f = 0 \/ f = 1) as [-> | ->] by lia; done.
  - intros (Hf & Hp & Hs). revert Hp Hs. pattern f. apply flags_enum; [done|vm_compute; done..].
Qed.

Lemma hard_timer (tm : Timer.timers nat) t :
  0 <= flag (timer tm t) <= 1 <->
  0 <= flag (timer tm t) < 8 /\ periodic (timer tm t) = false /\ soft (timer tm t) = false.
Proof. destruct (timer tm t) as [f x y] eqn:E. cbn [flag]. apply (hard_flag f x y). Qed.

(** [tm'] is [tm] with the timer [t] changed. *)
Record timer_changed t (tm tm' : Timer.timers nat) : Prop := {
  tc_ok : timers_ok tm';
  tc_tick : rt_tick tm' = rt_tick tm;
  tc_other : forall j, j <> t -> timer tm' j = timer tm j }.

Lemma dropped_ok t tm tm' : timers_ok tm -> dropped t tm tm' -> timer_changed t tm tm' /\ act (timer tm' t) = false.
Proof.
  intros [[W Hd Hs Hp] Hh] D. pose proof (drop_flag _ _ _ D) as (D1 & D2 & D3 & D4).
  assert (forall j, 0 <= flag (timer tm' j) <= 1) as Hh'.
  { intros j. destruct (decide (j = t)) as [->|Hj]; [|by rewrite (drop_other _ _ _ D)].
    apply hard_timer. rewrite D3, D4. pose proof (proj1 (hard_timer tm t) (Hh t)). tauto. }
  split; [|done]. split; [split; [split|done]|apply D|apply D].
  - by eapply wf_dropped.
  - destruct (due tm') as [|j l] eqn:E; [done|].
    assert (j ∈ due tm') as [H0 Hj]%list_elem_of_filter by (rewrite E; by left).
    rewrite (drop_list _ _ _ D) in Hj. apply elem_of_del in Hj as [Hj Hne].
    assert (j ∈ due tm) as Hin.
    { apply list_elem_of_filter. split; [|done]. unfold left in *.
      by rewrite (drop_tick _ _ _ D), (drop_other _ _ _ D) in H0. }
    rewrite Hd in Hin. inversion Hin.
  - by rewrite (drop_soft _ _ _ D), Hs.
  - intros j Hj. pose proof (proj1 (hard_timer tm' j) (Hh' j)) as (_ & -> & _). done.
Qed.

Lemma detach_ok t tm :
  timers_ok tm -> timer_changed t tm (rt_timer_detach t tm) /\ act (timer (rt_timer_detach t tm) t) = false.
Proof. intros H. eapply dropped_ok; [done|]. apply dropped_deactivate, H. Qed.

Lemma stop_ok t tm :
  timers_ok tm ->
  timer_changed t tm (rt_timer_stop t tm).2 /\ act (timer (rt_timer_stop t tm).2 t) = false.
Proof.
  intros H. unfold rt_timer_stop. fold (act (timer tm t)). destruct (act (timer tm t)) eqn:Ha; cbn [snd].
  - by apply detach_ok.
  - by split.
Qed.

Lemma soft_empty tm : timers_ok tm -> forall t, soft (timer tm t) = false.
Proof. intros H t. by apply (proj1 (hard_timer tm t)), H. Qed.

Lemma start_ok t tm tm' :
  timers_ok tm -> 0 < Timer.init_tick (timer tm t) -> started t tm tm' ->
  timer_changed t tm tm' /\ t ∈ _timer_list tm' /\ left tm' t = Timer.init_tick (timer tm t).
Proof.
  intros Ht Hi St. pose proof Ht as [[W Hd Hs Hp] Hh].
  destruct (start_list _ _ _ St) as (l1 & l2 & Hl & _). rewrite (soft_empty tm Ht) in Hl.
  destruct Hl as (Esoft & E1 & E2).
  assert (t ∈ _timer_list tm') as Hin by (rewrite E2; set_solver).
  pose proof (start_wf _ _ _ St) as W'.
  assert (forall j, 0 <= flag (timer tm' j) <= 1) as Hh'.
  { intros j. destruct (decide (j = t)) as [->|Hj]; [|by rewrite (start_other _ _ _ St)].
    apply hard_timer. rewrite (start_per _ _ _ St), (start_sf _ _ _ St).
    pose proof (proj1 (hard_timer tm t) (Hh t)). pose proof (wf_timer _ W' t). tauto. }
  split; [|split; [done|apply St]]. split; [split; [split|done]|apply St|apply St].
  - done.
  - destruct (due tm') as [|j l] eqn:E; [done|].
    assert (j ∈ due tm') as [H0 Hj]%list_elem_of_filter by (rewrite E; by left).
    destruct (decide (j = t)) as [->|Hne]; [rewrite (start_left _ _ _ St) in H0; lia|].
    assert (j ∈ due tm) as Hin'.
    { apply list_elem_of_filter. split.
      - unfold left in *. by rewrite (start_tick _ _ _ St), (start_other _ _ _ St) in H0.
      - assert (j ∈ del t (_timer_list tm)) as [? _]%elem_of_del; [|done].
        rewrite E1. rewrite E2 in Hj. set_solver. }
    rewrite Hd in Hin'. inversion Hin'.
  - by rewrite Esoft, Hs.
  - intros j Hj. pose proof (proj1 (hard_timer tm' j) (Hh' j)) as (_ & -> & _). done.
Qed.

(** Setting the period of a timer. *)
Lemma set_time_ok t tick tm :
  timers_ok tm -> 0 <= tick < half ->
  timer_changed t tm (with_timer (fun x => mk_timer (flag x) tick (timeout_tick x)) t tm).
Proof.
  intros [[W Hd Hs Hp] Hh] Ht. set (tm' := with_timer _ t tm).
  assert (forall j, timer tm' j = if decide (j = t) then mk_timer (flag (timer tm t)) tick (timeout_tick (timer tm t))
                                  else timer tm j) as E.
  { intros j. unfold tm'. cbn. case_decide; [subst; by rewrite fn_lookup_insert|by rewrite fn_lookup_insert_ne]. }
  assert (forall j, flag (timer tm' j) = flag (timer tm j) /\ left tm' j = left tm j) as Ef.
  { intros j. unfold left. rewrite E. by case_decide; [subst|]. }
  assert (forall sf l, ok_list tm sf l -> ok_list tm' sf l) as Hok.
  { intros sf l [Hn Hso He]. split; [done| |].
    - clear -Hso Ef. induction Hso as [|x l Hso IH Hx]; constructor; [done|].
      eapply Forall_impl; [exact Hx|]. intros y. cbn. destruct (Ef x) as [_ ->], (Ef y) as [_ ->]. done.
    - eapply Forall_impl; [exact He|]. intros j. cbv beta. unfold act, soft, has_flag.
      by destruct (Ef j) as [-> ->]. }
  split; [split; [split|]|done|].
  - destruct W as [W1 W2 W3 W4 W5 W6]. split; [done| |by apply Hok|by apply Hok| |done].
    + intros j. rewrite E. case_decide; [|done]. subst. pose proof (W2 t). cbn. tauto.
    + intros j. specialize (W5 j). unfold act, soft, has_flag in *. by destruct (Ef j) as [-> _].
  - rewrite <- Hd. unfold due. apply filter_ext_in. intros j _. by destruct (Ef j) as [_ ->].
  - done.
  - intros j Hj. unfold periodic, has_flag. destruct (Ef j) as [-> _].
    pose proof (proj1 (hard_timer tm j) (Hh j)) as (_ & Hpj & _). unfold periodic, has_flag in Hpj.
    by rewrite Hpj.
  - intros j. destruct (Ef j) as [-> _]. apply Hh.
  - intros j Hj. by rewrite E, decide_False.
Qed.
(** ** The invariant of the kernel, and its operations *)

Record kernel_ok k : Prop := {
  ko_sched : sched_inv None (rt_current_thread k) k;
  ko_lock : 0 <= rt_scheduler_lock_nest k < 2 ^ 15;
  ko_timers : timers_ok (timers k);
  ko_act : forall t, act (timer (timers k) t) = true -> status (thread k t) = RT_THREAD_SUSPEND }.

Lemma schedule_ok k :
  kernel_ok k -> is_Some (rt_current_thread k) ->
  exists k', rt_schedule k = Ok k' /\ kernel_ok k' /\ sched_frame k k'.
Proof.
  intros [I Hl Ht Ha] Hc. destruct (rt_schedule_inv k Hc I) as (k' & E & I' & F).
  exists k'. split_and!; [done| |done]. split.
  - done.
  - by rewrite (sf_lock _ _ F).
  - by rewrite (sf_timers _ _ F).
  - intros t. rewrite (sf_timers _ _ F), (sched_frame_suspend _ _ t F). apply Ha.
Qed.

(** A change that neither the scheduler nor the timers look at. *)
Lemma change_ok t f k :
  kernel_ok k -> thread_ok (f (thread k t)) -> status (f (thread k t)) = status (thread k t) ->
  (status (thread k t) = RT_THREAD_READY ->
   current_priority (f (thread k t)) = current_priority (thread k t)) ->
  kernel_ok (with_thread f t k).
Proof.
  intros [I Hl Ht Ha] Hf Hs Hp. split; try done.
  - by apply change_same.
  - intros j Hj. rewrite thread_with_thread. case_decide; [subst; rewrite Hs|]; by apply Ha.
Qed.

Lemma thread_ok_same th th' :
  thread_ok th -> stat th' = stat th -> current_priority th' = current_priority th ->
  number_mask th' = number_mask th -> thread_ok th'.
Proof.
  intros [H1 H2 H3 H4] E1 E2 E3. split; unfold in_use, status; by rewrite ?E1, ?E2, ?E3.
Qed.

(** Such changes keep the status word. *)
Lemma change_plain_ok t f k :
  (forall th, stat (f th) = stat th /\ current_priority (f th) = current_priority th /\
              number_mask (f th) = number_mask th) ->
  kernel_ok k -> kernel_ok (with_thread f t k).
Proof.
  intros Hf H. destruct (Hf (thread k t)) as (E1 & E2 & E3).
  apply change_ok; [done| |by unfold status; rewrite E1|done].
  by eapply thread_ok_same; [apply H|..].
Qed.

Lemma thread_ok_set_yield th : thread_ok th -> thread_ok (set_yield th).
Proof.
  intros [H1 H2 H3 H4]. destruct (set_yield_spec th H1) as (S1 & S2 & _).
  split; try done. unfold in_use. by rewrite S2.
Qed.

Lemma set_yield_ok t k : kernel_ok k -> kernel_ok (with_thread set_yield t k).
Proof.
  intros H. pose proof (si_thread _ _ _ (ko_sched _ H) t) as Hok.
  apply change_ok; [done|by apply thread_ok_set_yield|by apply (set_yield_spec _ (tk_stat _ Hok))|done].
Qed.

Lemma with_timers_inv fl cur tm k : sched_inv fl cur k -> sched_inv fl cur (with_timers tm k).
Proof. by apply sched_inv_ext. Qed.

Lemma yield_ok k :
  kernel_ok k -> is_Some (rt_current_thread k) ->
  exists k', rt_thread_yield k = Ok k' /\ kernel_ok k' /\ is_Some (rt_current_thread k').
Proof.
  intros H [t Hc]. unfold rt_thread_yield, current. rewrite Hc. cbn [mbind result_bind].
  edestruct (schedule_ok (with_thread set_yield t (with_thread (fun th => set_remaining (init_tick th) th) t k)))
    as (k' & E & H' & F).
  - apply set_yield_ok. by apply change_plain_ok.
  - by exists t.
  - exists k'. split_and!; [done|done|]. apply (sf_current _ _ F). by exists t.
Qed.

(** The current thread suspends itself. *)
Lemma suspend_spec t k :
  kernel_ok k -> rt_current_thread k = Some t -> status (thread k t) = RT_THREAD_RUNNING ->
  exists k', rt_thread_suspend t k = Ok (RT_EOK, k') /\ kernel_ok k' /\
    rt_current_thread k' = Some t /\ rt_scheduler_lock_nest k' = rt_scheduler_lock_nest k /\
    rt_interrupt_nest k' = rt_interrupt_nest k /\
    (forall j, j <> t -> thread k' j = thread k j) /\
    thread k' t = set_status RT_THREAD_SUSPEND (thread k t) /\
    timer_changed t (timers k) (timers k') /\ act (timer (timers k') t) = false /\
    (forall a, members a k' = members a k) /\
    (forall a, is_Some (lists k' !! a) <-> is_Some (lists k !! a)) /\ unlinked t k' = true.
Proof.
  intros [I Hl Ht Ha] Hc Hs. rewrite Hc in I.
  assert (unlinked t k = true) as Hu by (eapply running_unlinked; [done|by apply Z.eqb_eq]).
  destruct (remove_spec t (Some t) k I) as (k1 & E1 & I1 & [S1 S2 S3 S4 S5 S6] & Em & Eh).
  destruct (stop_ok t (timers k) Ht) as [Htc Hta].
  unfold rt_thread_suspend, rt_thread_self. rewrite Hc, bool_decide_true by done. cbn [rt_assert mbind result_bind].
  rewrite Hs. cbn. rewrite E1. cbn [mbind result_bind].
  set (k2 := with_thread (set_status RT_THREAD_SUSPEND) t k1).
  assert (thread k2 t = set_status RT_THREAD_SUSPEND (thread k t)) as Et.
  { unfold k2. by rewrite thread_with_thread, decide_True, S1. }
  assert (forall j, j <> t -> thread k2 j = thread k j) as Ej.
  { intros j Hj. unfold k2. by rewrite thread_with_thread, decide_False, S1. }
  destruct (set_status_spec RT_THREAD_SUSPEND (thread k t) (tk_stat _ (si_thread _ _ _ I t)))
    as (T1 & T2 & _); [by vm_compute|].
  assert (forall a, members a k2 = members a k) as Em2.
  { intros a. change (members a k2) with (members a k1). rewrite Em. by apply del_unlinked. }
  assert (sched_inv None (Some t) k2) as I2.
  { apply settle with t; rewrite ?Et, ?T2; try done.
    apply change_float; [done|]. rewrite S1. apply thread_ok_status; [apply I|by vm_compute|].
    left. right. by right. }
  eexists. split; [done|]. cbn [timers on_timers with_timers].
  change (timers k2) with (timers k1). rewrite S6.
  split_and!; try done.
  - split; cbn [rt_current_thread rt_scheduler_lock_nest timers thread on_timers with_timers].
    + change (rt_current_thread k2) with (rt_current_thread k1). rewrite S2, Hc. by apply with_timers_inv.
    + change (rt_scheduler_lock_nest k2) with (rt_scheduler_lock_nest k1). by rewrite S4.
    + change (timers k2) with (timers k1). rewrite S6. apply Htc.
    + change (timers k2) with (timers k1). rewrite S6. intros j Hj.
      destruct (decide (j = t)) as [->|Hne]; [by rewrite Et|].
      rewrite Ej by done. apply Ha. by rewrite <- (tc_other _ _ _ Htc).
  - cbn. by rewrite S2.
  - apply unlinked_spec. intros a. change (t ∉ members a k2). rewrite Em2. by apply unlinked_spec.
Qed.

(** The timer of a suspended thread starts. *)
Lemma start_timer_spec t tick k :
  kernel_ok k -> status (thread k t) = RT_THREAD_SUSPEND -> 0 < tick < half ->
  exists tm', start_thread_timer t tick k = Ok (with_timers tm' k) /\ kernel_ok (with_timers tm' k) /\
    timer_changed t (timers k) tm' /\ t ∈ _timer_list tm' /\ left tm' t = tick.
Proof.
  intros [I Hl Ht Ha] Hs Htick.
  pose proof (set_time_ok t tick (timers k) Ht ltac:(lia)) as C1.
  set (tm1 := with_timer _ t (timers k)) in *.
  assert (Timer.init_tick (timer tm1 t) = tick) as Ei.
  { unfold tm1. cbn. by rewrite fn_lookup_insert. }
  pose proof (timer_arm_spec t tm1 (run_wf _ (to_running _ (tc_ok _ _ _ C1)))) as St.
  destruct (start_ok t tm1 _ (tc_ok _ _ _ C1) ltac:(by rewrite Ei; lia) St) as (C2 & Hin & Hleft).
  rewrite Ei in Hleft. exists (timer_arm t tm1).
  assert (timer_changed t (timers k) (timer_arm t tm1)) as C.
  { split; [apply C2|by rewrite (tc_tick _ _ _ C2), (tc_tick _ _ _ C1)|].
    intros j Hj. by rewrite (tc_other _ _ _ C2), (tc_other _ _ _ C1). }
  split_and!; [| |done|done|done].
  - unfold start_thread_timer, rt_timer_control. cbn. unfold rt_assert. change (RT_TICK_MAX / 2) with half.
    replace (tick <? half) with true by lia. cbn [mbind result_bind]. unfold rt_timer_start.
    cbn [timers_of set_timers upd kernel_host timers with_timers]. fold tm1.
    change (has_flag RT_TIMER_FLAG_SOFT_TIMER (timer (timer_arm t tm1) t)) with (soft (timer (timer_arm t tm1) t)).
    by rewrite (soft_empty _ (tc_ok _ _ _ C)).
  - split; [by apply with_timers_inv|done|apply C|]. intros j Hj. cbn [thread with_timers timers] in *.
    destruct (decide (j = t)) as [->|Hne]; [done|]. apply Ha. by rewrite <- (tc_other _ _ _ C).
Qed.
(** A sleep up to its [rt_schedule]: the thread is suspended, and its timer is in
    the list with the time of the sleep left. *)
Lemma sleep_block_spec t tick k :
  kernel_ok k -> rt_current_thread k = Some t -> status (thread k t) = RT_THREAD_RUNNING ->
  0 < tick < half ->
  exists k', sleep_block t tick k = Ok k' /\ kernel_ok k' /\ is_Some (rt_current_thread k') /\
    status (thread k' t) = RT_THREAD_SUSPEND /\ t ∈ _timer_list (timers k') /\
    left (timers k') t = tick /\ error (thread k' t) = error (thread k t).
Proof.
  intros H Hc Hs Htick. unfold sleep_block.
  destruct (suspend_spec t k H Hc Hs) as (k1 & E1 & H1 & C1 & L1 & N1 & Ej & Et & Htc & Hta & Em & Eh & Hu).
  rewrite E1. cbn [mbind result_bind].
  assert (status (thread k1 t) = RT_THREAD_SUSPEND) as Hs1.
  { rewrite Et. apply (set_status_spec _ _ (tk_stat _ (si_thread _ _ _ (ko_sched _ H) t))). by vm_compute. }
  destruct (start_timer_spec t tick k1 H1 Hs1 Htick) as (tm & E2 & H2 & Hc2 & Hin & Hleft).
  rewrite E2. cbn [mbind result_bind].
  destruct (schedule_ok _ H2) as (k3 & E3 & H3 & F); [by exists t|].
  exists k3. rewrite E3. split_and!; [done|done| | | | |].
  - apply (sf_current _ _ F). by exists t.
  - by apply (sched_frame_suspend _ _ t F).
  - by rewrite (sf_timers _ _ F).
  - by rewrite (sf_timers _ _ F).
  - rewrite (sched_frame_error _ _ t F). cbn. by rewrite Et.
Qed.

Lemma sleep_ok tick t k :
  kernel_ok k -> rt_current_thread k = Some t -> status (thread k t) = RT_THREAD_RUNNING ->
  0 < tick < half ->
  exists k', rt_thread_sleep tick k = Ok k' /\ kernel_ok k' /\ is_Some (rt_current_thread k') /\
    status (thread k' t) = RT_THREAD_SUSPEND /\ t ∈ _timer_list (timers k') /\
    left (timers k') t = tick /\ error (thread k' t) = RT_EOK.
Proof.
  intros H Hc Hs Htick. unfold rt_thread_sleep, current. rewrite Hc. cbn [mbind result_bind].
  set (k1 := with_thread (set_error RT_EOK) t k).
  assert (thread k1 t = set_error RT_EOK (thread k t)) as Et by (unfold k1; by rewrite thread_with_thread, decide_True).
  destruct (sleep_block_spec t tick k1) as (k' & E & H' & C' & S' & I' & L' & E'); [by apply change_plain_ok|done| |done|].
  - by rewrite Et.
  - exists k'. split_and!; try done. by rewrite E', Et.
Qed.

Lemma delay_until_ok tick inc t k :
  kernel_ok k -> rt_current_thread k = Some t -> status (thread k t) = RT_THREAD_RUNNING ->
  inc < half ->
  exists r k', rt_thread_delay_until tick inc k = Ok (r, k') /\ kernel_ok k' /\
    is_Some (rt_current_thread k').
Proof.
  intros H Hc Hs Hinc. unfold rt_thread_delay_until, current. rewrite Hc. cbn [mbind result_bind].
  set (k1 := with_thread (set_error RT_EOK) t k).
  assert (kernel_ok k1) as H1 by by apply change_plain_ok.
  change (rt_tick_get (timers k1)) with (rt_tick (timers k)). set (cur := rt_tick (timers k)).
  destruct (u32 (cur - tick) <? inc) eqn:Hlt.
  - destruct (sleep_block_spec t (u32 (u32 (tick + inc) - cur)) k1) as (k' & E & H' & C' & _); try done.
    + unfold k1. by rewrite thread_with_thread, decide_True.
    + revert Hlt. unfold u32, half in *. intros Hlt. zmod.
    + rewrite E. cbn [mbind result_bind]. by eexists _, k'.
  - eexists _, k1. split_and!; [done|done|by exists t].
Qed.

(** A suspended thread becomes runnable. *)
Lemma wake_ok t k :
  sched_inv None (rt_current_thread k) k -> status (thread k t) = RT_THREAD_SUSPEND ->
  exists k', rt_schedule_insert_thread t (rt_list_remove t k) = Ok k' /\
    sched_inv None (rt_current_thread k') k' /\
    same_but_lists (with_thread (set_status (wake_status t k)) t k) k' /\
    (forall a, (forall p, a <> Ready p) -> members a k' = del t (members a k)).
Proof.
  intros I Hs.
  destruct (wake_spec t (rt_list_remove t k)) as (k' & E & I' & [S1 S2 S3 S4 S5 S6] & Ho).
  - apply unlink_spec; [done|by rewrite Hs].
  - apply (tk_mask _ (si_thread _ _ _ I t)). right. by left.
  - exists k'. split_and!; [done| |done|].
    + rewrite S2. exact I'.
    + intros a Ha. rewrite Ho by done. by rewrite members_remove.
Qed.

Lemma wake_status_runnable t k : wake_status t k = RT_THREAD_READY \/ wake_status t k = RT_THREAD_RUNNING.
Proof. unfold wake_status. case_bool_decide; auto. Qed.

Lemma woken_runnable t k th :
  thread_ok th -> runnable (set_status (wake_status t k) th).
Proof.
  intros Hok. unfold runnable.
  destruct (wake_status_runnable t k) as [-> | ->]; [left|right];
    apply (set_status_spec _ _ (tk_stat _ Hok)); by vm_compute.
Qed.

Lemma resume_spec t k :
  kernel_ok k -> status (thread k t) = RT_THREAD_SUSPEND ->
  exists k', rt_thread_resume t k = Ok (RT_EOK, k') /\ kernel_ok k' /\
    rt_current_thread k' = rt_current_thread k /\
    rt_scheduler_lock_nest k' = rt_scheduler_lock_nest k /\
    rt_interrupt_nest k' = rt_interrupt_nest k /\
    (forall j, j <> t -> thread k' j = thread k j) /\
    thread k' t = set_status (wake_status t k) (thread k t) /\
    runnable (thread k' t) /\ timer_changed t (timers k) (timers k') /\
    (forall a, (forall p, a <> Ready p) -> members a k' = del t (members a k)).
Proof.
  intros [I Hl Ht Ha] Hs. unfold rt_thread_resume. rewrite Hs. cbn [Z.eqb negb].
  replace (RT_THREAD_SUSPEND =? RT_THREAD_SUSPEND) with true by done. cbn [negb].
  destruct (stop_ok t (timers k) Ht) as [Htc Hta].
  set (k0 := with_timers (rt_timer_stop t (timers k)).2 k).
  change (on_timers _ (rt_list_remove t k)) with (rt_list_remove t k0).
  destruct (wake_ok t k0) as (k' & E & I' & [S1 S2 S3 S4 S5 S6] & Ho).
  - by apply with_timers_inv.
  - done.
  - rewrite E. cbn [mbind result_bind]. exists k'.
    assert (forall j, j <> t -> thread k' j = thread k j) as Ej.
    { intros j Hj. by rewrite S1, thread_with_thread, decide_False. }
    assert (thread k' t = set_status (wake_status t k) (thread k t)) as Et.
    { by rewrite S1, thread_with_thread, decide_True. }
    assert (timers k' = (rt_timer_stop t (timers k)).2) as Etm by done.
    split_and!; try done.
    + split; [done|by rewrite S4|rewrite Etm; apply Htc|].
      intros j Hj. destruct (decide (j = t)) as [->|Hne].
      * rewrite Etm in Hj. congruence.
      * rewrite Ej by done. apply Ha. rewrite <- (tc_other _ _ _ Htc) by done. by rewrite <- Etm.
    + rewrite Et. by apply woken_runnable, I.
    + by rewrite Etm.
Qed.

Lemma resume_ok t k :
  kernel_ok k ->
  exists r k', rt_thread_resume t k = Ok (r, k') /\ kernel_ok k' /\
    rt_current_thread k' = rt_current_thread k.
Proof.
  intros H. destruct (decide (status (thread k t) = RT_THREAD_SUSPEND)) as [Hs|Hs].
  - destruct (resume_spec t k H Hs) as (k' & E & H' & C & _). by exists RT_EOK, k'.
  - exists (- RT_ERROR), k. split; [|done]. unfold rt_thread_resume.
    by destruct (Z.eqb_spec (status (thread k t)) RT_THREAD_SUSPEND).
Qed.
Lemma unlinked_status k fl cur t :
  sched_inv fl cur k -> status (thread k t) = RT_THREAD_INIT \/ status (thread k t) = RT_THREAD_RUNNING ->
  unlinked t k = true.
Proof.
  intros I Hs. apply unlinked_spec. intros a Hin.
  destruct (si_belongs _ _ _ I a t Hin) as [Hb _].
  destruct Hs as [Hs|Hs]; (destruct a; cbn in Hb; [destruct Hb as [Hb _]|..]; status_clash).
Qed.

Lemma startup_ok t k :
  kernel_ok k -> status (thread k t) = RT_THREAD_INIT ->
  exists k', rt_thread_startup t k = Ok k' /\ kernel_ok k' /\
    (is_Some (rt_current_thread k) -> is_Some (rt_current_thread k')).
Proof.
  intros H Hs. pose proof H as [I Hl Ht Ha]. unfold rt_thread_startup. rewrite Hs.
  cbn [rt_assert Z.eqb RT_THREAD_INIT mbind result_bind].
  pose proof (si_thread _ _ _ I t) as [T1 T2 T3 T4].
  set (f1 := fun th => set_mask _ th). set (k1 := with_thread f1 t k).
  set (k2 := with_thread (set_stat RT_THREAD_SUSPEND) t k1).
  assert (thread k2 t = set_stat RT_THREAD_SUSPEND (f1 (thread k t))) as Et.
  { unfold k2, k1. by rewrite !thread_with_thread, !decide_True. }
  assert (forall j, j <> t -> thread k2 j = thread k j) as Ej.
  { intros j Hj. unfold k2, k1. by rewrite !thread_with_thread, !decide_False. }
  assert (u32 (Z.shiftl 1 (current_priority (thread k t))) = 2 ^ current_priority (thread k t)) as Em.
  { unfold RT_THREAD_PRIORITY_MAX in T2. rewrite Z.shiftl_mul_pow2, Z.mul_1_l by lia. apply u32_small.
    split; [apply Z.pow_nonneg; lia|]. change 4294967296 with (2 ^ 32). apply Z.pow_lt_mono_r; lia. }
  assert (kernel_ok k2) as H2.
  { assert (unlinked t k = true) as Hu by (eapply unlinked_status; [done|by left]).
    assert (sched_inv (Some t) (rt_current_thread k) k) as I0 by by apply float.
    split; [|done|done|].
    - apply settle with t; rewrite ?Et; try done.
      change (rt_current_thread k2) with (rt_current_thread k).
      apply change_float; [apply change_float; [done|]|].
      + split; try done; cbn [f1 set_mask number_mask current_priority]; rewrite Em; (done || by left).
      + unfold k1. rewrite thread_with_thread, decide_True by done.
        split; cbn [set_stat f1 set_mask number_mask current_priority stat]; try done; rewrite ?Em; (done || by left).
    - intros j Hj. destruct (decide (j = t)) as [->|Hne]; [by rewrite Et|]. rewrite Ej by done. by apply Ha. }
  destruct (resume_spec t k2 H2) as (k3 & E3 & H3 & C3 & _); [by rewrite Et|].
  rewrite E3. cbn [mbind result_bind]. unfold rt_thread_self. rewrite C3.
  change (rt_current_thread k2) with (rt_current_thread k).
  destruct (rt_current_thread k) as [c|] eqn:Hc.
  - destruct (schedule_ok k3 H3) as (k4 & E4 & H4 & F); [rewrite C3; by exists c|].
    exists k4. split_and!; [done|done|]. intros _. apply (sf_current _ _ F). rewrite C3. by exists c.
  - exists k3. by split_and!.
Qed.

(** A thread that left its list is closed: its timer stops, and it waits for the
    idle thread to be given back. *)
Lemma close_spec t k k1 :
  kernel_ok k -> sched_inv (Some t) (rt_current_thread k) k1 -> same_but_lists k k1 ->
  exists k', rt_thread_defunct_enqueue t
      (with_thread (set_stat RT_THREAD_CLOSE) t (on_timers (rt_timer_detach t) k1)) = Ok k' /\
    kernel_ok k' /\ rt_current_thread k' = rt_current_thread k /\
    status (thread k' t) = RT_THREAD_CLOSE /\ members Defunct k' = t :: members Defunct k1.
Proof.
  intros [I Hl Ht Ha] I1 [S1 S2 S3 S4 S5 S6].
  destruct (detach_ok t (timers k) Ht) as [Htc Hta].
  set (k2 := on_timers _ k1). set (k3 := with_thread _ t k2).
  assert (sched_inv (Some t) (rt_current_thread k) k3) as I3.
  { unfold k3. apply change_float; [by apply with_timers_inv|].
    change (thread k2) with (thread k1). rewrite S1. destruct (si_thread _ _ _ I t).
    split; try done. by intros [|[]]. }
  assert (thread k3 t = set_stat RT_THREAD_CLOSE (thread k t)) as Et.
  { unfold k3. rewrite thread_with_thread, decide_True by done. cbn. by rewrite S1. }
  assert (forall j, j <> t -> thread k3 j = thread k j) as Ej.
  { intros j Hj. unfold k3. rewrite thread_with_thread, decide_False by done. cbn. by rewrite S1. }
  assert (sched_inv None (rt_current_thread k) k3) as I3'.
  { apply settle with t; by rewrite ?Et. }
  destruct (link_inv (cons t) Defunct t None _ k3 ltac:(done) (si_defunct _ _ _ I3)
    (float_unlinked _ _ _ I3) ltac:(done) ltac:(done) ltac:(unfold belongs; by rewrite Et) I3')
    as (k4 & E4 & I4 & [R1 R2 R3 R4 R5 R6] & Em4 & _).
  exists k4. unfold rt_thread_defunct_enqueue, rt_list_insert_after. split_and!; [exact E4| | | |].
  - split.
    + rewrite R2. cbn. by rewrite S2.
    + rewrite R4. cbn. by rewrite S4.
    + rewrite R6. cbn. rewrite S6. apply Htc.
    + rewrite R1, R6. cbn [timers k3 with_thread k2 on_timers with_timers]. rewrite S6.
      intros j Hj. destruct (decide (j = t)) as [->|Hne]; [congruence|].
      rewrite Ej by done. apply Ha. by rewrite <- (tc_other _ _ _ Htc).
  - rewrite R2. cbn. by rewrite S2.
  - by rewrite R1, Et.
  - rewrite Em4. done.
Qed.

Lemma exit_ok t k :
  kernel_ok k -> rt_current_thread k = Some t ->
  exists k', _thread_exit k = Ok k' /\ kernel_ok k' /\ is_Some (rt_current_thread k').
Proof.
  intros H Hc. unfold _thread_exit, current. rewrite Hc. cbn [mbind result_bind].
  destruct (remove_spec t _ k (ko_sched _ H)) as (k0 & E0 & I0 & S0 & _).
  rewrite E0. cbn [mbind result_bind].
  destruct (close_spec t k k0 H I0 S0) as (k1 & E1 & H1 & C1 & _).
  rewrite E1. cbn [mbind result_bind].
  destruct (schedule_ok k1 H1) as (k2 & E2 & H2 & F); [rewrite C1; by exists t|].
  exists k2. split_and!; [done|done|]. apply (sf_current _ _ F). rewrite C1. by exists t.
Qed.

Lemma detach_thread_ok t k :
  kernel_ok k ->
  exists k', rt_thread_detach t k = Ok k' /\ kernel_ok k' /\ rt_current_thread k' = rt_current_thread k.
Proof.
  intros H. unfold rt_thread_detach.
  destruct (Z.eqb_spec (status (thread k t)) RT_THREAD_CLOSE) as [Hs|Hs]; [by exists k|].
  destruct (Z.eqb_spec (status (thread k t)) RT_THREAD_INIT) as [Hi|Hi]; cbn [negb].
  - cbn [mbind result_bind]. destruct (close_spec t k k H) as (k1 & E1 & H1 & C1 & _).
    + apply float; [apply H|]. eapply unlinked_status; [apply H|by left].
    + done.
    + by exists k1.
  - destruct (remove_spec t _ k (ko_sched _ H)) as (k0 & E0 & I0 & S0 & _).
    rewrite E0. cbn [mbind result_bind].
    destruct (close_spec t k k0 H I0 S0) as (k1 & E1 & H1 & C1 & _). by exists k1.
Qed.

Lemma close_thread_ok t k :
  kernel_ok k -> is_Some (rt_current_thread k) ->
  exists k', close_thread t k = Ok k' /\ kernel_ok k' /\ is_Some (rt_current_thread k').
Proof.
  intros H Hc. unfold close_thread. destruct (detach_thread_ok t k H) as (k1 & E1 & H1 & C1).
  rewrite E1. cbn [mbind result_bind]. rewrite <- C1 in Hc.
  destruct (schedule_ok k1 H1 Hc) as (k2 & E2 & H2 & F). exists k2.
  split_and!; [done|done|]. by apply (sf_current _ _ F).
Qed.

Lemma priority_ok t p k :
  kernel_ok k -> 0 <= p < RT_THREAD_PRIORITY_MAX ->
  exists k', change_priority t p k = Ok k' /\ kernel_ok k' /\
    rt_current_thread k' = rt_current_thread k /\ timers k' = timers k /\
    rt_scheduler_lock_nest k' = rt_scheduler_lock_nest k /\
    rt_interrupt_nest k' = rt_interrupt_nest k /\
    (forall j, j <> t -> thread k' j = thread k j) /\
    status (thread k' t) = status (thread k t) /\ current_priority (thread k' t) = p /\
    (forall a, (forall q, a <> Ready q) -> members a k' = members a k).
Proof.
  intros H Hp. pose proof H as [I Hl Ht Ha]. unfold change_priority.
  set (f := fun th => set_mask _ (set_priority p th)).
  assert (u32 (Z.shiftl 1 p) = 2 ^ p) as Em.
  { unfold RT_THREAD_PRIORITY_MAX in Hp. rewrite Z.shiftl_mul_pow2, Z.mul_1_l by lia. apply u32_small.
    split; [apply Z.pow_nonneg; lia|]. change 4294967296 with (2 ^ 32). apply Z.pow_lt_mono_r; lia. }
  assert (thread_ok (f (thread k t))) as Hf.
  { destruct (si_thread _ _ _ I t). split; try done; cbn; rewrite Em; (done || by left). }
  destruct (Z.eqb_spec (status (thread k t)) RT_THREAD_READY) as [Hs|Hs].
  - destruct (remove_spec t _ k I) as (k1 & E1 & I1 & [S1 S2 S3 S4 S5 S6] & Em1 & _).
    rewrite E1. cbn [mbind result_bind]. set (k2 := with_thread f t k1).
    assert (thread k2 t = f (thread k t)) as Et.
    { unfold k2. by rewrite thread_with_thread, decide_True, S1. }
    assert (rt_current_thread k <> Some t) as Hc.
    { intros Hc. rewrite Hc in I. by destruct (si_current _ _ _ I t eq_refl ltac:(done)). }
    destruct (insert_spec t (rt_current_thread k) k2) as (k3 & E3 & I3 & [R1 R2 R3 R4 R5 R6] & _ & Ho).
    + apply change_float; [done|]. by rewrite S1.
    + change (rt_current_thread k1 <> Some t). by rewrite S2.
    + done.
    + rewrite Et. cbn. by rewrite Em.
    + assert (status (thread k3 t) = RT_THREAD_READY /\ current_priority (thread k3 t) = p) as [Hst Hcp].
      { rewrite R1, thread_with_thread, decide_True, Et by done. split; [|done].
        apply set_status_spec; [apply Hf|by vm_compute]. }
      assert (forall j, j <> t -> thread k3 j = thread k j) as Ej.
      { intros j Hj. rewrite R1. unfold k2. rewrite !thread_with_thread, !decide_False, S1 by done. done. }
      assert (rt_current_thread k3 = rt_current_thread k) as Ec by by rewrite R2.
      assert (timers k3 = timers k) as Etm by (rewrite R6; exact S6).
      assert (rt_scheduler_lock_nest k3 = rt_scheduler_lock_nest k) as Elk by (rewrite R4; exact S4).
      exists k3. split_and!; try done.
      * split; [by rewrite Ec|by rewrite Elk|by rewrite Etm|]. rewrite Etm. intros j Hj.
        destruct (decide (j = t)) as [->|Hne]; [|rewrite Ej by done; by apply Ha].
        apply Ha in Hj. status_clash.
      * rewrite R5. exact S5.
      * by rewrite Hst, Hs.
      * intros a Hnr. rewrite Ho by apply Hnr. change (members a k2) with (members a k1).
        rewrite Em1. apply del_notin. intros Hin.
        destruct (si_belongs _ _ _ I a t Hin) as [Hb _].
        destruct a; cbn in Hb; [by destruct (Hnr p0)|status_clash..].
  - exists (with_thread f t k). split_and!; try done.
    + by apply change_ok.
    + intros j Hj. by rewrite thread_with_thread, decide_False.
    + by rewrite thread_with_thread, decide_True.
    + by rewrite thread_with_thread, decide_True.
Qed.

Lemma enter_critical_ok k :
  kernel_ok k -> rt_scheduler_lock_nest k < 32767 -> kernel_ok (rt_enter_critical k).
Proof.
  intros [I Hl Ht Ha] Hn. unfold rt_enter_critical. cint. split; try done.
  - by apply (sched_inv_ext _ _ k).
  - cbn. lia.
Qed.

Lemma exit_critical_ok k :
  kernel_ok k -> is_Some (rt_current_thread k) ->
  exists k', rt_exit_critical k = Ok k' /\ kernel_ok k' /\ is_Some (rt_current_thread k').
Proof.
  intros [I Hl Ht Ha] Hc. unfold rt_exit_critical. cint.
  assert (forall n, 0 <= n < 2 ^ 15 -> kernel_ok (with_lock n k)) as Hlock.
  { intros n Hn. split; try done. by apply (sched_inv_ext _ _ k). }
  cbn [rt_scheduler_lock_nest with_lock]. destruct (Z.leb_spec (rt_scheduler_lock_nest k - 1) 0) as [Hle|Hgt].
  - cbn [rt_current_thread with_lock]. destruct Hc as [c Hc]. rewrite Hc.
    destruct (schedule_ok (with_lock 0 (with_lock (rt_scheduler_lock_nest k - 1) k))) as (k' & E & H' & F).
    + apply (Hlock 0). lia.
    + by exists c.
    + exists k'. split_and!; [done|done|]. apply (sf_current _ _ F). by exists c.
  - eexists. split_and!; [done| |done]. apply Hlock. lia.
Qed.

Lemma thread_init_ok t priority tick k :
  kernel_ok k -> status (thread k t) = RT_THREAD_INIT \/ status (thread k t) = RT_THREAD_CLOSE ->
  unlinked t k = true -> rt_current_thread k <> Some t -> 0 <= priority < RT_THREAD_PRIORITY_MAX ->
  exists k', _thread_init t priority tick k = Ok k' /\ kernel_ok k' /\
    rt_current_thread k' = rt_current_thread k /\ status (thread k' t) = RT_THREAD_INIT.
Proof.
  intros [I Hl Ht Ha] Hs Hu Hc Hp. unfold _thread_init. rewrite Hu. cbn [mbind result_bind rt_assert].
  replace (priority <? RT_THREAD_PRIORITY_MAX) with true by lia. cbn [mbind result_bind rt_assert].
  set (th := mk_thread _ _ _ _ _ _ _ _). set (k1 := with_thread (fun _ => th) t k).
  unfold rt_timer_init. cbn [rt_assert mbind result_bind Z.ltb Z.compare RT_TICK_MAX Z.div Z.div_eucl].
  replace (0 <? RT_TICK_MAX / 2) with true by done. cbn [rt_assert mbind result_bind].
  change (timers k1) with (timers k). set (tm := with_timer _ t (timers k)).
  assert (forall j, timer tm j = if decide (j = t) then mk_timer 0 0 0 else timer (timers k) j) as Etm.
  { intros j. unfold tm. cbn. case_decide; [subst; by rewrite fn_lookup_insert|by rewrite fn_lookup_insert_ne]. }
  assert (t ∉ _timer_list (timers k)) as Hnin.
  { intros Hin. pose proof (ok_each _ _ _ (wf_list _ (run_wf _ (to_running _ Ht)))) as He.
    destruct (proj1 (Forall_forall _ _) He t Hin) as (_ & Hact & _). apply Ha in Hact.
    destruct Hs as [Hs|Hs]; status_clash. }
  assert (thread k1 t = th) as Et by (unfold k1; by rewrite thread_with_thread, decide_True).
  eexists. split_and!; [done| |done|by cbn [thread with_timers]; rewrite Et].
  split; cbn [rt_current_thread with_timers timers rt_scheduler_lock_nest thread].
  - apply with_timers_inv. apply settle with t.
    + apply change_float; [by apply float|]. split; try done; [by intros [|[]]|by right].
    + by rewrite Et.
    + by rewrite Et.
    + intros Hc'. by destruct Hc.
  - done.
  - destruct Ht as [[W Hd Hso Hpe] Hh]. split; [split|].
    + destruct W as [W1 W2 W3 W4 W5 W6]. split; [done| | | | |done].
      * intros j. rewrite Etm. case_decide; [|done]. cbn. unfold half. lia.
      * apply (ok_list_ext (timers k)); [|done|exact W3]. intros j Hj. rewrite Etm, decide_False; [done|by intros ->].
      * change (_soft_timer_list tm) with (_soft_timer_list (timers k)). rewrite Hso. repeat constructor.
      * intros j. rewrite Etm. case_decide; [by vm_compute|]. apply W5.
    + rewrite <- Hd. unfold due. apply filter_ext_in. intros j Hj. unfold left.
      rewrite Etm, decide_False by (by intros ->). done.
    + done.
    + intros j Hj. rewrite Etm, decide_False by (by intros ->). by apply Hpe.
    + intros j. rewrite Etm. case_decide; [cbn; lia|apply Hh].
  - intros j. rewrite Etm. case_decide; [by vm_compute|]. unfold k1.
    rewrite thread_with_thread, decide_False by done. apply Ha.
Qed.
(** *** The clock *)

(** While the due timers [D] of [k1] fire, [l] are still to come. *)
Record waking (D : list nat) (k1 : kernel) (l : list nat) (k : kernel) : Prop := {
  wk_sched : sched_inv None (rt_current_thread k) k;
  wk_lock : rt_scheduler_lock_nest k = rt_scheduler_lock_nest k1;
  wk_current : is_Some (rt_current_thread k);
  wk_nodup : NoDup l;
  wk_left : forall t, t ∈ l -> t ∈ D /\ status (thread k t) = RT_THREAD_SUSPEND;
  wk_done : forall t, t ∈ D -> t ∉ l -> runnable (thread k t) /\ error (thread k t) = - RT_ETIMEOUT;
  wk_others : forall t, t ∉ D ->
    (status (thread k t) = RT_THREAD_SUSPEND <-> status (thread k1 t) = RT_THREAD_SUSPEND) /\
    error (thread k t) = error (thread k1 t) }.

Lemma waking_timers D k1 l tm k : waking D k1 l k -> waking D k1 l (with_timers tm k).
Proof. intros []. split; try done. by apply with_timers_inv. Qed.

Lemma thread_timeout_spec D k1 t l k :
  waking D k1 (t :: l) k ->
  exists k', _thread_timeout t k = Ok k' /\ timers k' = timers k /\ waking D k1 l k'.
Proof.
  intros [I Hl Hc Hn Hleft Hdone Hoth]. apply NoDup_cons in Hn as [Hnt Hn].
  destruct (Hleft t ltac:(by left)) as [HD Hs].
  unfold _thread_timeout. rewrite Hs. cbn [rt_assert Z.eqb mbind result_bind].
  replace (RT_THREAD_SUSPEND =? RT_THREAD_SUSPEND) with true by done. cbn [rt_assert mbind result_bind].
  set (k2 := with_thread (set_error (- RT_ETIMEOUT)) t k).
  assert (thread k2 t = set_error (- RT_ETIMEOUT) (thread k t)) as Et by (unfold k2; by rewrite thread_with_thread, decide_True).
  assert (sched_inv None (rt_current_thread k2) k2) as I2.
  { apply change_same; [done| |done|done]. eapply thread_ok_same; [apply I|done..]. }
  destruct (wake_ok t k2 I2) as (k3 & E3 & I3 & [S1 S2 S3 S4 S5 S6] & _); [by rewrite Et|].
  rewrite E3. cbn [mbind result_bind].
  destruct (rt_schedule_inv k3) as (k4 & E4 & I4 & F); [by rewrite S2|done|].
  exists k4. rewrite E4. split_and!; [done|by rewrite (sf_timers _ _ F), S6|].
  assert (forall j, j <> t -> thread k3 j = thread k j) as Ej.
  { intros j Hj. rewrite S1, thread_with_thread, decide_False by done. unfold k2.
    by rewrite thread_with_thread, decide_False. }
  split; [done| | |done| | |].
  - by rewrite (sf_lock _ _ F), S4.
  - apply (sf_current _ _ F). by rewrite S2.
  - intros j Hj. assert (j <> t) as Hne by (by intros ->).
    rewrite (sched_frame_suspend _ _ j F), Ej by done. apply Hleft. by right.
  - intros j HjD Hj. rewrite (sched_frame_error _ _ j F). destruct (decide (j = t)) as [->|Hne].
    + rewrite S1, thread_with_thread, decide_True, Et by done. split; [|done].
      apply (sched_frame_runnable _ _ t F). rewrite S1, thread_with_thread, decide_True, Et by done.
      apply woken_runnable. eapply thread_ok_same; [apply I|done..].
    + rewrite Ej by done. destruct (Hdone j HjD ltac:(set_solver)) as [Hr He]. split; [|done].
      apply (sched_frame_runnable _ _ j F). by rewrite Ej.
  - intros j Hj. assert (j <> t) as Hne by (by intros ->).
    rewrite (sched_frame_suspend _ _ j F), (sched_frame_error _ _ j F), Ej by done. by apply Hoth.
Qed.

(** The timers after the clock has advanced. *)
Definition next_tick (tm : Timer.timers nat) : Timer.timers nat := rt_tick_set (u32 (rt_tick tm + 1)) tm.

Lemma timer_check_ok k1 tm :
  timers_ok tm -> timers k1 = next_tick tm ->
  sched_inv None (rt_current_thread k1) k1 -> 0 <= rt_scheduler_lock_nest k1 < 2 ^ 15 ->
  is_Some (rt_current_thread k1) ->
  (forall t, act (timer tm t) = true -> status (thread k1 t) = RT_THREAD_SUSPEND) ->
  let D := due (next_tick tm) in
  exists k', rt_timer_check (S (length (_timer_list (timers k1)))) k1 = Ok k' /\ kernel_ok k' /\
    fired D (next_tick tm) (timers k') /\ waking D k1 [] k'.
Proof.
  intros Ht Etm I Hl Hc Ha D. pose proof Ht as [[W Hd Hs Hp] Hh].
  pose proof (wf_tick_next tm W Hd Hs) as W1. fold (next_tick tm) in W1.
  assert (forall t, t ∈ D -> status (thread k1 t) = RT_THREAD_SUSPEND) as HD.
  { intros t [_ Hin]%list_elem_of_filter. apply Ha.
    pose proof (ok_each _ _ _ (wf_list _ W1)) as He.
    by destruct (proj1 (Forall_forall _ _) He t Hin) as (_ & Hact & _). }
  assert (forall l (x : Timer.timers nat) (k : kernel),
    waking D k1 l k -> waking D k1 l (set_timers x k)) as Hset.
  { intros l x k. apply waking_timers. }
  assert (forall t l (k : kernel), waking D k1 (t :: l) k -> exists k' : kernel,
    timeout t k = Ok k' /\ timers_of k' = timers_of k /\ waking D k1 l k') as Hto.
  { intros t l k. apply thread_timeout_spec. }
  destruct (check_fires (waking D k1) Hset Hto (S (length (_timer_list (timers k1)))) k1)
    as (k' & E & _ & G & W' & Hd' & F).
  - cbn [timers_of kernel_host]. by rewrite Etm.
  - cbn [timers_of kernel_host]. rewrite Etm. exact Hp.
  - cbn [timers_of kernel_host]. rewrite Etm. fold D. split; try done.
    + apply NoDup_filter. apply (ok_nodup _ _ _ (wf_list _ W1)).
    + intros t Hin. split; [done|by apply HD].
  - cbn [timers_of kernel_host]. rewrite Etm. unfold D, due.
    pose proof (length_filter (fun i => left (next_tick tm) i = 0) (_timer_list (next_tick tm))). lia.
  - exists k'. cbn [timers_of kernel_host] in *. rewrite Etm in F. fold D in F.
    split_and!; [done| |done|done].
    destruct G as [I' Hl' Hc' _ _ Hdone Hoth].
    assert (forall t, 0 <= flag (timer (timers k') t) <= 1) as Hh'.
    { intros t. apply hard_timer. destruct (fired_same _ _ _ F t) as [_ ->]. rewrite (fired_kind _ _ _ F).
      pose proof (proj1 (hard_timer tm t) (Hh t)). pose proof (wf_timer _ W' t).
      change (timer (next_tick tm)) with (timer tm). tauto. }
    split; [done|by rewrite Hl'| |].
    + split; [split|done]; [done|done|by apply (fired_soft _ _ _ F)|].
      intros t _ Hper. pose proof (proj1 (hard_timer _ t) (Hh' t)) as (_ & Hpf & _). congruence.
    + intros t Hact. destruct (decide (t ∈ D)) as [Hin|Hnin].
      * pose proof (fired_members _ _ _ F t Hin) as Hm.
        change (timer (next_tick tm)) with (timer tm) in Hm.
        pose proof (proj1 (hard_timer tm t) (Hh t)) as (_ & Hpf & _). rewrite Hpf in Hm.
        destruct Hm as [_ Hm]. congruence.
      * apply (Hoth t Hnin). apply Ha. destruct (fired_others _ _ _ F t Hnin) as [Et _].
        rewrite Et in Hact. exact Hact.
Qed.

(** The count of a tick and the end of a time slice. *)
Lemma time_slice_spec (count : rt_thread -> rt_thread) c k1 :
  (forall th, stat (count th) = stat th /\ current_priority (count th) = current_priority th /\
              number_mask (count th) = number_mask th /\ error (count th) = error th) ->
  sched_inv None (Some c) k1 -> rt_current_thread k1 = Some c ->
  let k2 := with_thread count c k1 in
  exists k3, (if remaining_tick (thread k2 c) =? 0
     then rt_schedule (with_thread set_yield c (with_thread (fun th => set_remaining (init_tick th) th) c k2))
     else Ok k2) = Ok k3 /\ sched_inv None (rt_current_thread k3) k3 /\ is_Some (rt_current_thread k3) /\
     timers k3 = timers k1 /\ rt_scheduler_lock_nest k3 = rt_scheduler_lock_nest k1 /\
     (forall t, (status (thread k3 t) = RT_THREAD_SUSPEND <-> status (thread k1 t) = RT_THREAD_SUSPEND) /\
                error (thread k3 t) = error (thread k1 t)).
Proof.
  intros Hcount I1 Hc k2.
  assert (forall f kk, (forall th, stat (f th) = stat th /\ current_priority (f th) = current_priority th /\
              number_mask (f th) = number_mask th) ->
      sched_inv None (Some c) kk -> sched_inv None (Some c) (with_thread f c kk)) as Hplain.
  { intros f kk Hf Ikk. destruct (Hf (thread kk c)) as (F1 & F2 & F3). apply change_same; [done| | |done].
    - eapply thread_ok_same; [apply Ikk|done..].
    - unfold status. by rewrite F1. }
  assert (sched_inv None (Some c) k2) as I2 by (apply Hplain; [intros th; destruct (Hcount th) as (?&?&?&_); done|done]).
  assert (forall th, status (count th) = status th /\ error (count th) = error th) as Hst.
  { intros th. destruct (Hcount th) as (E & _ & _ & ?). unfold status. by rewrite E. }
  assert (forall f t, (forall th, status (f th) = status th /\ error (f th) = error th) ->
    forall kk, status (thread (with_thread f c kk) t) = status (thread kk t) /\
               error (thread (with_thread f c kk) t) = error (thread kk t)) as Hsame.
  { intros f t Hf kk. rewrite thread_with_thread. case_decide; [subst; apply Hf|done]. }
  destruct (remaining_tick (thread k2 c) =? 0).
  - set (k3 := with_thread (fun th => set_remaining (init_tick th) th) c k2).
    assert (sched_inv None (Some c) k3) as I3 by by apply Hplain.
    set (k4 := with_thread set_yield c k3).
    assert (rt_current_thread k4 = Some c) as C4 by exact Hc.
    pose proof (si_thread _ _ _ I3 c) as Hok.
    assert (sched_inv None (rt_current_thread k4) k4) as I4.
    { rewrite C4. apply change_same; [done|by apply thread_ok_set_yield| |done].
      by apply (set_yield_spec _ (tk_stat _ Hok)). }
    destruct (rt_schedule_inv k4 ltac:(by exists c) I4) as (k5 & E5 & I5 & F).
    exists k5. split_and!; [done|done|apply (sf_current _ _ F); by exists c| | |].
    + by rewrite (sf_timers _ _ F).
    + by rewrite (sf_lock _ _ F).
    + intros t. rewrite (sched_frame_suspend _ _ t F), (sched_frame_error _ _ t F).
      assert (status (thread k4 t) = status (thread k3 t) /\ error (thread k4 t) = error (thread k3 t)) as [-> ->].
      { unfold k4. rewrite thread_with_thread. case_decide; [subst|done].
        split; [by apply (set_yield_spec _ (tk_stat _ Hok))|done]. }
      unfold k3. destruct (Hsame (fun th => set_remaining (init_tick th) th) t ltac:(done) k2) as [-> ->].
      unfold k2. destruct (Hsame count t Hst k1) as [-> ->]. done.
  - exists k2. split_and!; try done.
    + change (rt_current_thread k2) with (rt_current_thread k1). by rewrite Hc.
    + intros t. unfold k2. destruct (Hsame count t Hst k1) as [-> ->]. done.
Qed.

(** One tick of the clock: exactly the threads whose time has come wake. *)
Lemma tick_increase_spec k :
  kernel_ok k -> is_Some (rt_current_thread k) ->
  let D := due (next_tick (timers k)) in
  exists k', rt_tick_increase k = Ok k' /\ kernel_ok k' /\ is_Some (rt_current_thread k') /\
    fired D (next_tick (timers k)) (timers k') /\ waking D k [] k'.
Proof.
  intros H [c Hc] D. pose proof H as [I Hl Ht Ha]. unfold rt_tick_increase.
  set (k1 := on_timers _ k).
  assert (current k1 = Ok c) as -> by (unfold current; cbn; by rewrite Hc). cbn [mbind result_bind].
  set (count := fun th => set_remaining (u32 _) th). set (k2 := with_thread count c k1).
  assert (sched_inv None (Some c) k1) as I1 by (rewrite <- Hc; by apply with_timers_inv).
  destruct (time_slice_spec count c k1 ltac:(done) I1 Hc) as (k3 & E3 & I3 & C3 & T3 & L3 & S3). fold k2 in E3.
  rewrite E3. cbn [mbind result_bind].
  destruct (timer_check_ok k3 (timers k) Ht T3 I3 ltac:(by rewrite L3) C3) as (k' & E & H' & F & W).
  { intros t Hact. apply S3. by apply Ha. }
  exists k'. split_and!; [done|done|apply W|done|]. destruct W. split; try done.
  - by rewrite wk_lock0.
  - intros t Hnin. destruct (wk_others0 t Hnin) as [-> ->]. apply S3.
Qed.
(** *** The closed threads are given back *)

Lemma dequeue_spec k t l :
  kernel_ok k -> members Defunct k = t :: l ->
  exists k', rt_thread_defunct_dequeue k = Ok (Some t, k') /\ kernel_ok k' /\
    rt_current_thread k' = rt_current_thread k /\ members Defunct k' = l.
Proof.
  intros [I Hl Ht Ha] E. unfold rt_thread_defunct_dequeue.
  rewrite get_list_members by apply I. rewrite E. cbn [mbind result_bind].
  destruct (si_belongs _ _ _ I Defunct t ltac:(rewrite E; by left)) as [Hs _]. cbn in Hs.
  eexists. split_and!; [done| |done|].
  - split; try done. apply settle with t; try by (cbn; rewrite Hs).
    apply unlink_spec; [done|by rewrite Hs].
  - pose proof (si_nodup _ _ _ I Defunct) as Hn. rewrite E in Hn. apply NoDup_cons in Hn as [Hnin _].
    rewrite members_remove, E. unfold del. rewrite filter_cons_False by tauto. by apply del_notin.
Qed.

Lemma defunct_execute_spec k l fuel :
  kernel_ok k -> members Defunct k = l -> (length l < fuel)%nat ->
  exists k', rt_defunct_execute fuel k = Ok (l, k') /\ kernel_ok k' /\
    rt_current_thread k' = rt_current_thread k /\ members Defunct k' = [].
Proof.
  revert k fuel. induction l as [|t l IH]; intros k fuel H E Hf; (destruct fuel as [|fuel]; [cbn in *; lia|]).
  - exists k. split_and!; try done. cbn. unfold rt_thread_defunct_dequeue.
    rewrite get_list_members by apply (ko_sched _ H). by rewrite E.
  - destruct (dequeue_spec k t l H E) as (k1 & E1 & H1 & C1 & M1).
    destruct (IH k1 fuel H1 M1) as (k2 & E2 & H2 & C2 & M2); [cbn in *; lia|].
    exists k2. split_and!; [|done|congruence|done].
    cbn. rewrite E1. cbn [mbind result_bind]. by rewrite E2.
Qed.

(** *** The start of the scheduler *)

Lemma scheduler_start_ok k :
  kernel_ok k -> rt_current_thread k = None -> is_Some (first_ready k) ->
  exists k', rt_system_scheduler_start k = Ok k' /\ kernel_ok k' /\ is_Some (rt_current_thread k').
Proof.
  intros [I Hl Ht Ha] Hc [[p t] Hf]. pose proof (first_ready_spec _ _ _ I) as Hs. rewrite Hf in Hs.
  destruct Hs as (_ & E & Hm & _). unfold rt_system_scheduler_start. rewrite E. cbn [mbind result_bind].
  set (k1 := with_current (Some t) _ k). rewrite Hc in I.
  assert (sched_inv None None k1) as I1 by by apply (sched_inv_ext _ _ k).
  destruct (ready_priority _ _ _ _ _ I Hm) as (Hst & _ & _).
  destruct (remove_spec t None k1 I1) as (k2 & E2 & I2 & [S1 S2 S3 S4 S5 S6] & _).
  rewrite E2. cbn [mbind result_bind].
  set (k3 := with_thread _ t k2). pose proof (si_thread _ _ _ I t) as [T1 T2 T3 T4].
  assert (thread k3 t = set_stat RT_THREAD_RUNNING (thread k t)) as Et.
  { unfold k3. by rewrite thread_with_thread, decide_True, S1. }
  exists k3. split_and!; [done| |cbn; by rewrite S2].
  split; [|cbn; rewrite S4; exact Hl|cbn; rewrite S6; exact Ht|].
  - cbn. rewrite S2. apply settle with t; rewrite ?Et; try done.
    apply change_float; [by apply set_current|]. rewrite S1. split; try done.
    intros _. apply T3. by left.
  - cbn [timers k3 with_thread]. rewrite S6. intros j Hj. apply Ha in Hj.
    destruct (decide (j = t)) as [->|Hne]; [status_clash|].
    unfold k3. by rewrite thread_with_thread, decide_False, S1.
Qed.
End Inv.

(** ** The steps of the kernel *)

(** What the threads and the clock do; the caller of a blocking call is the
    current thread. *)
Inductive event :=
| Startup (t : nat) | Yield | Sleep (tick : Z) | DelayUntil (tick inc_tick : Z) | SuspendSelf
| Resume (t : nat) | ChangePriority (t : nat) (p : Z) | Detach (t : nat) | Close (t : nat) | Exit
| EnterCritical | ExitCritical | Schedule | ClockTick | Init (t : nat) (priority tick : Z) | Reclaim.

Definition run (e : event) (k : kernel) : result kernel :=
  match e with
  | Startup t => rt_thread_startup t k
  | Yield => rt_thread_yield k
  | Sleep tick => rt_thread_sleep tick k
  | DelayUntil tick inc_tick => '(_, k) ← rt_thread_delay_until tick inc_tick k; Ok k
  | SuspendSelf => t ← current k; '(_, k) ← rt_thread_suspend t k; rt_schedule k
  | Resume t => '(_, k) ← rt_thread_resume t k; Ok k
  | ChangePriority t p => change_priority t p k
  | Detach t => rt_thread_detach t k
  | Close t => close_thread t k
  | Exit => _thread_exit k
  | EnterCritical => Ok (rt_enter_critical k)
  | ExitCritical => rt_exit_critical k
  | Schedule => rt_schedule k
  | ClockTick => SysTick k
  | Init t priority tick => _thread_init t priority tick k
  | Reclaim => '(_, k) ← rt_defunct_execute (S (length (members Defunct k))) k; Ok k
  end.

(** The caller's part of the contract. *)
Definition caller_runs (k : kernel) : Prop :=
  exists t, rt_current_thread k = Some t /\ status (thread k t) = RT_THREAD_RUNNING.
Definition enabled (e : event) (k : kernel) : Prop :=
  match e with
  | Startup t => status (thread k t) = RT_THREAD_INIT
  | Sleep tick => caller_runs k /\ 0 < tick < half
  | DelayUntil _ inc_tick => caller_runs k /\ inc_tick < half
  | SuspendSelf => caller_runs k
  | ChangePriority _ p => 0 <= p < RT_THREAD_PRIORITY_MAX
  | EnterCritical => rt_scheduler_lock_nest k < 32767
  | Init t priority _ =>
      (status (thread k t) = RT_THREAD_INIT \/ status (thread k t) = RT_THREAD_CLOSE) /\
      unlinked t k = true /\ rt_current_thread k <> Some t /\ 0 <= priority < RT_THREAD_PRIORITY_MAX
  | _ => True
  end.

Inductive reachable (k0 : kernel) : kernel -> Prop :=
| reach_start : reachable k0 k0
| reach_step e k k' : reachable k0 k -> enabled e k -> run e k = Ok k' -> reachable k0 k'.

Lemma nest_ok n k : kernel_ok k -> kernel_ok (with_nest n k).
Proof. intros [I Hl Ht Ha]. split; try done. by apply (sched_inv_ext _ _ k). Qed.

Lemma SysTick_spec k :
  kernel_ok k -> is_Some (rt_current_thread k) ->
  let D := due (next_tick (timers k)) in
  exists k', SysTick k = Ok k' /\ kernel_ok k' /\ is_Some (rt_current_thread k') /\
    fired D (next_tick (timers k)) (timers k') /\ waking D k [] k'.
Proof.
  intros H Hc D. unfold SysTick, rt_interrupt_enter.
  destruct (tick_increase_spec (with_nest (u8 (rt_interrupt_nest k + 1)) k) (nest_ok _ _ H) Hc)
    as (k' & E & H' & C' & F & W).
  rewrite E. cbn [mbind result_bind]. eexists. split_and!; [done|by apply nest_ok|done|done|].
  destruct W. split; try done. by apply (sched_inv_ext _ _ k').
Qed.

Lemma run_ok e k :
  kernel_ok k -> is_Some (rt_current_thread k) -> enabled e k ->
  exists k', run e k = Ok k' /\ kernel_ok k' /\ is_Some (rt_current_thread k').
Proof.
  intros H Hc He.
  destruct e as [t| |n|tk inc| |t|t p|t|t| | | | | |t pr tk|]; cbn [run enabled] in *.
  - destruct (startup_ok t k H He) as (k' & E & H' & C'). exists k'. auto.
  - by apply yield_ok.
  - destruct He as [(t & Ht & Hs) Htick].
    destruct (sleep_ok n t k H Ht Hs Htick) as (k' & E & H' & C' & _). by exists k'.
  - destruct He as [(t & Ht & Hs) Hi].
    destruct (delay_until_ok tk inc t k H Ht Hs Hi) as (r & k' & E & H' & C').
    exists k'. by rewrite E.
  - destruct He as (t & Ht & Hs). unfold current. rewrite Ht. cbn [mbind result_bind].
    destruct (suspend_spec t k H Ht Hs) as (k1 & E1 & H1 & C1 & _). rewrite E1. cbn [mbind result_bind].
    destruct (schedule_ok k1 H1) as (k' & E & H' & F); [by exists t|].
    exists k'. split_and!; [done|done|]. apply (sf_current _ _ F). by exists t.
  - destruct (resume_ok t k H) as (r & k' & E & H' & C'). exists k'. rewrite E, C'. done.
  - destruct (priority_ok t p k H He) as (k' & E & H' & C' & _). exists k'. by rewrite C'.
  - destruct (detach_thread_ok t k H) as (k' & E & H' & C'). exists k'. by rewrite C'.
  - by apply close_thread_ok.
  - destruct Hc as [t Ht]. by apply exit_ok with t.
  - eexists. split_and!; [done|by apply enter_critical_ok|done].
  - by apply exit_critical_ok.
  - destruct (schedule_ok k H Hc) as (k' & E & H' & F). exists k'.
    split_and!; [done|done|by apply (sf_current _ _ F)].
  - destruct (SysTick_spec k H Hc) as (k' & E & H' & C' & _). by exists k'.
  - destruct He as (Hs & Hu & Hcur & Hp).
    destruct (thread_init_ok t pr tk k H Hs Hu Hcur Hp) as (k' & E & H' & C' & _).
    exists k'. by rewrite C'.
  - destruct (defunct_execute_spec k _ (S (length (members Defunct k))) H eq_refl ltac:(lia))
      as (k' & E & H' & C' & _). exists k'. rewrite E, C'. done.
Qed.

(** ** Properties *)

(** C17: the kernel never goes wrong.  From a state that satisfies the invariant
    (each thread's node in the one list its status and priority name, the bit
    map marking exactly the rows that are not empty, a running thread only as
    the current one, a thread timer running only for a suspended thread), any
    sequence of calls and clock ticks keeps it, and every call that respects
    its contract returns: no assertion fails, no list is corrupted and no loop
    runs for ever. *)
Theorem kernel_safe (k0 k : kernel) (e : event) :
  kernel_ok k0 -> is_Some (rt_current_thread k0) -> reachable k0 k -> enabled e k ->
  exists k', run e k = Ok k' /\ kernel_ok k' /\ is_Some (rt_current_thread k').
Proof.
  intros H0 C0 Hr. revert e. enough (kernel_ok k /\ is_Some (rt_current_thread k)) as [H C].
  { intros e He. by apply run_ok. }
  induction Hr as [|e k k' Hr [H C] He E]; [done|].
  destruct (run_ok e k H C He) as (k2 & E2 & H2 & C2).
  rewrite E in E2. by injection E2 as <-.
Qed.

(** The thread that is chosen runs. *)
Lemma chosen_running c k k' :
  sched_inv None (Some c) k -> is_Some (first_ready k) -> switched c (choose c k) k k' ->
  status (thread k' (choose c k)) = RT_THREAD_RUNNING.
Proof.
  intros I Hf Sw. set (n := choose c k) in *.
  pose proof (si_thread _ _ _ I c) as Hok. destruct (clear_yield_spec _ (tk_stat _ Hok)) as (C1 & _).
  destruct (decide (n = c)) as [Hn|Hn].
  + rewrite Hn, (sw_from _ _ _ _ Sw). unfold after_switch. rewrite bool_decide_true by done.
    unfold n, choose in Hn. pose proof (first_ready_spec _ _ _ I) as Hs.
    destruct (first_ready k) as [[p t]|]; [|by destruct Hf]. destruct Hs as (_ & _ & Hm & _).
    destruct (keeps_running (thread k c) (Z.of_nat p)) eqn:Hk.
    * apply andb_true_iff in Hk as [Hk _]. unfold is_running. rewrite Hk.
      apply set_status_spec; [done|by vm_compute].
    * subst t. destruct (ready_priority _ _ _ _ _ I Hm) as (Hst & _).
      by destruct (si_current _ _ _ I c eq_refl ltac:(done)).
  + rewrite (sw_to _ _ _ _ Sw) by done.
    apply set_status_spec; [apply (tk_stat _ (si_thread _ _ _ I n))|by vm_compute].
Qed.

(** C18: [rt_schedule] gives the processor to a thread of the highest priority:
    to the first one of its row, as a search of the rows without the bit map
    finds it, unless the current thread runs, has a higher priority or the same
    and did not yield.  A running thread that loses the processor goes to the
    end of its row; nothing else in the ready table moves. *)
Theorem rt_schedule_highest (k : kernel) (c : nat) :
  kernel_ok k -> rt_current_thread k = Some c -> rt_scheduler_lock_nest k = 0 ->
  is_Some (first_ready k) ->
  let n := choose c k in
  exists k', rt_schedule k = Ok k' /\ kernel_ok k' /\ rt_current_thread k' = Some n /\
    status (thread k' n) = RT_THREAD_RUNNING /\
    (forall j, status (thread k' j) = RT_THREAD_READY ->
               current_priority (thread k' n) <= current_priority (thread k' j)) /\
    (forall p, members (Ready p) k' = del n (members (Ready p) k ++ requeued c n k p)).
Proof.
  intros H Hc Hl Hf n. pose proof (ko_sched _ H) as I. rewrite Hc in I.
  destruct (schedule_ok k H ltac:(by exists c)) as (k' & E & H' & F).
  destruct (rt_schedule_spec c k I Hc) as (k2 & E2 & Hk2).
  rewrite E in E2. injection E2 as <-. destruct Hk2 as [[_ [?|Hnone]]|(_ & _ & Sw)]; [done|by rewrite Hnone in Hf; destruct Hf|].
  fold n in Sw. exists k'. split_and!; [done|done|apply Sw| | |apply Sw].
  - by apply chosen_running.
  - intros j Hj. rewrite (sf_thread _ _ F n), (sf_thread _ _ F j). cbn [current_priority set_stat].
    pose proof (first_ready_spec _ _ _ I) as Hs. unfold n, choose.
    destruct (first_ready k) as [[p t]|] eqn:Efr; [|by destruct Hf]. destruct Hs as (_ & _ & Hm & Hmin).
    destruct (ready_priority _ _ _ _ _ I Hm) as (Hst & Hpt & _).
    assert (status (thread k j) = RT_THREAD_READY \/ j = c /\ status (thread k c) = RT_THREAD_RUNNING) as Hj'.
    { destruct (sf_status _ _ F j) as [Es|[[Hr|Hr] _]]; [left; congruence|by left|right].
      pose proof (si_running _ _ _ I j ltac:(done) Hr) as [= <-]. done. }
    destruct (keeps_running (thread k c) (Z.of_nat p)) eqn:Hk.
    + unfold keeps_running in Hk. destruct Hj' as [Hj'|[-> _]]; [|lia].
      pose proof (Hmin j ltac:(done) Hj'). lia.
    + destruct Hj' as [Hj'|[-> Hr]]; [pose proof (Hmin j ltac:(done) Hj'); lia|].
      unfold keeps_running in Hk. rewrite Hr in Hk. replace (RT_THREAD_RUNNING =? RT_THREAD_RUNNING) with true in Hk by done.
      cbn [andb] in Hk. lia.
Qed.

(** *** Time *)

Fixpoint clock_ticks (n : nat) (k : kernel) : result kernel :=
  match n with O => Ok k | S n => k ← SysTick k; clock_ticks n k end.

(** A sleeping thread with [n] ticks left. *)
Lemma ticks_wake n t k :
  kernel_ok k -> is_Some (rt_current_thread k) -> t ∈ _timer_list (timers k) ->
  left (timers k) t = Z.of_nat n ->
  (forall m, (m < n)%nat -> exists k', clock_ticks m k = Ok k' /\ kernel_ok k' /\
     status (thread k' t) = RT_THREAD_SUSPEND) /\
  exists k', clock_ticks n k = Ok k' /\ kernel_ok k' /\ runnable (thread k' t) /\
    error (thread k' t) = - RT_ETIMEOUT.
Proof.
  revert k. induction n as [|n IH]; intros k H Hc Hin Hl.
  { pose proof (no_due _ _ (run_wf _ (to_running _ (ko_timers _ H))) (run_due _ (to_running _ (ko_timers _ H))) Hin). lia. }
  assert (status (thread k t) = RT_THREAD_SUSPEND) as Hs.
  { apply (ko_act _ H). pose proof (ok_each _ _ _ (wf_list _ (run_wf _ (to_running _ (ko_timers _ H))))) as He.
    by destruct (proj1 (Forall_forall _ _) He t Hin) as (_ & ? & _). }
  destruct (SysTick_spec k H Hc) as (k1 & E & H1 & C1 & F & W).
  set (D := due (next_tick (timers k))) in *.
  pose proof (left_tick (timers k) t ltac:(lia)) as Hl1. fold (next_tick (timers k)) in Hl1.
  destruct (decide (n = 0)%nat) as [->|Hn].
  - split.
    + intros m Hm. replace m with 0%nat by lia. by exists k.
    + exists k1. cbn [clock_ticks]. rewrite E. split_and!; [done|done|..];
        apply (wk_done _ _ _ _ W); try (apply list_elem_of_filter; split; [lia|done]); apply not_elem_of_nil.
  - assert (t ∉ D) as Hnd by (intros [H0 _]%list_elem_of_filter; lia).
    destruct (fired_others _ _ _ F t Hnd) as [Et Hin1].
    destruct (IH k1 H1 C1) as [IH1 IH2].
    + by apply Hin1.
    + unfold left in *. rewrite Et, (fired_tick _ _ _ F). lia.
    + split.
      * intros [|m] Hm; [by exists k|]. cbn [clock_ticks]. rewrite E. apply IH1. lia.
      * cbn [clock_ticks]. by rewrite E.
Qed.

(** C19: a thread sleeps for as long as it asked.  After [rt_thread_sleep] the
    thread is suspended at each of the first [n - 1] ticks, whatever the timers
    of the other threads do at them, and at the [n]-th it is ready or runs, and
    its call returns [RT_EOK]. *)
Theorem sleep_on_time (n : nat) (t : nat) (k : kernel) :
  kernel_ok k -> rt_current_thread k = Some t -> status (thread k t) = RT_THREAD_RUNNING ->
  0 < Z.of_nat n < half ->
  exists k1, rt_thread_sleep (Z.of_nat n) k = Ok k1 /\
    (forall m, (m < n)%nat -> exists k2, clock_ticks m k1 = Ok k2 /\
       status (thread k2 t) = RT_THREAD_SUSPEND) /\
    exists k2, clock_ticks n k1 = Ok k2 /\ runnable (thread k2 t) /\
      (rt_thread_sleep_end t k2).1 = RT_EOK.
Proof.
  intros H Hc Hs Hn.
  destruct (sleep_ok (Z.of_nat n) t k H Hc Hs Hn) as (k1 & E1 & H1 & C1 & S1 & I1 & L1 & _).
  destruct (ticks_wake n t k1 H1 C1 I1 L1) as [Hbefore (k2 & E2 & _ & R2 & Er)].
  exists k1. split_and!; [done| |].
  - intros m Hm. destruct (Hbefore m Hm) as (k' & E' & _ & S'). by exists k'.
  - exists k2. split_and!; [done|done|]. unfold rt_thread_sleep_end. rewrite Er.
    change (error (thread (with_thread (set_error RT_EOK) t k2) t) = RT_EOK).
    by rewrite thread_with_thread, decide_True.
Qed.

(** *** Turns *)

Fixpoint yields (n : nat) (k : kernel) : result kernel :=
  match n with O => Ok k | S n => k ← rt_thread_yield k; yields n k end.

(** The threads of one priority that wait for the processor, the current one
    first, with no ready thread of a higher priority. *)
Record turn (c : nat) (l : list nat) (k : kernel) : Prop := {
  tn_ok : kernel_ok k;
  tn_current : rt_current_thread k = Some c;
  tn_running : status (thread k c) = RT_THREAD_RUNNING;
  tn_lock : rt_scheduler_lock_nest k = 0;
  tn_row : members (Ready (Z.to_nat (current_priority (thread k c)))) k = l;
  tn_highest : forall j, status (thread k j) = RT_THREAD_READY ->
    current_priority (thread k c) <= current_priority (thread k j) }.

Record yielding (c : nat) (k k1 k' : kernel) : Prop := {
  yd_run : rt_schedule k1 = Ok k';
  yd_ok : kernel_ok k';
  yd_switch : k' = k1 /\ first_ready k1 = None \/ switched c (choose c k1) k1 k';
  yd_marked : kernel_ok k1;
  yd_current : rt_current_thread k1 = Some c;
  yd_members : forall a, members a k1 = members a k;
  yd_thread : forall j, status (thread k1 j) = status (thread k j) /\
                        current_priority (thread k1 j) = current_priority (thread k j);
  yd_yielded : yielded (thread k1 c) = true;
  yd_lock : rt_scheduler_lock_nest k1 = rt_scheduler_lock_nest k }.

Lemma yield_switch c k :
  kernel_ok k -> rt_current_thread k = Some c -> rt_scheduler_lock_nest k = 0 ->
  exists k1 k', rt_thread_yield k = rt_schedule k1 /\ yielding c k k1 k'.
Proof.
  intros H Hc Hl. set (f := fun th : rt_thread => set_remaining (init_tick th) th).
  set (k0 := with_thread f c k). set (k1 := with_thread set_yield c k0).
  assert (kernel_ok k0) as H0 by by apply change_plain_ok.
  assert (kernel_ok k1) as H1 by by apply set_yield_ok.
  pose proof (tk_stat _ (si_thread _ _ _ (ko_sched _ H0) c)) as Hst.
  destruct (set_yield_spec _ Hst) as (_ & Y2 & Y3).
  assert (thread k1 c = set_yield (thread k0 c)) as Ec by (unfold k1; by rewrite thread_with_thread, decide_True).
  assert (thread k0 c = f (thread k c)) as Ec0 by (unfold k0; by rewrite thread_with_thread, decide_True).
  assert (sched_inv None (Some c) k1) as I1.
  { pose proof (ko_sched _ H1) as I1. change (rt_current_thread k1) with (rt_current_thread k) in I1. by rewrite Hc in I1. }
  destruct (schedule_ok k1 H1 ltac:(by exists c)) as (k' & E & H' & _).
  destruct (rt_schedule_spec c k1 I1 Hc) as (k2 & E2 & Hk2). rewrite E in E2. injection E2 as <-.
  exists k1, k'. split; [unfold rt_thread_yield, current; by rewrite Hc|]. split; try done.
  - destruct Hk2 as [[-> [?|?]]|(_ & _ & Hsw)]; [done|by left|by right].
  - intros j. destruct (decide (j = c)) as [->|Hj]; [by rewrite Ec, Y2, Ec0|].
    unfold k1, k0. by rewrite !thread_with_thread, !decide_False.
  - by rewrite Ec.
Qed.

Section Yield.
Context (c : nat) (l : list nat) (k k1 k' : kernel) (T : turn c l k) (Y : yielding c k k1 k').
Let p := Z.to_nat (current_priority (thread k c)).

Lemma yield_inv : sched_inv None (Some c) k /\ sched_inv None (Some c) k1.
Proof.
  pose proof (ko_sched _ (tn_ok _ _ _ T)) as I. rewrite (tn_current _ _ _ T) in I.
  pose proof (ko_sched _ (yd_marked _ _ _ _ Y)) as I1. by rewrite (yd_current _ _ _ _ Y) in I1.
Qed.

Lemma yield_frame :
  rt_scheduler_lock_nest k' = 0 /\ (forall j, current_priority (thread k' j) = current_priority (thread k j)) /\
  (forall j, status (thread k' j) = RT_THREAD_READY ->
             current_priority (thread k c) <= current_priority (thread k' j)).
Proof.
  destruct yield_inv as [I I1]. pose proof (yd_thread _ _ _ _ Y) as T1.
  destruct (schedule_ok k1 (yd_marked _ _ _ _ Y) ltac:(exists c; exact (yd_current _ _ _ _ Y))) as (k'' & E'' & _ & F).
  rewrite (yd_run _ _ _ _ Y) in E''. injection E'' as <-.
  assert (forall j, current_priority (thread k' j) = current_priority (thread k j)) as Ep.
  { intros j. rewrite (sf_thread _ _ F j). cbn. apply T1. }
  split_and!; [by rewrite (sf_lock _ _ F), (yd_lock _ _ _ _ Y), (tn_lock _ _ _ T)|done|].
  intros j Hj. rewrite Ep. assert (j = c \/ status (thread k j) = RT_THREAD_READY) as [->|Hj']; [|lia|by apply (tn_highest _ _ _ T)].
  destruct (T1 j) as [Ts _]. destruct (sf_status _ _ F j) as [Es|[[Hj'|Hj'] _]].
  - right. congruence.
  - right. congruence.
  - left. rewrite Ts in Hj'. by pose proof (si_running _ _ _ I j ltac:(done) Hj') as [= ->].
Qed.

Lemma yield_alone : first_ready k1 = None -> k' = k1 /\ l = [].
Proof.
  intros Efr. destruct yield_inv as [I I1]. pose proof (first_ready_spec _ _ _ I1) as Hs. rewrite Efr in Hs. split.
  - pose proof (yd_run _ _ _ _ Y) as E. unfold rt_schedule in E.
    rewrite (yd_lock _ _ _ _ Y), (tn_lock _ _ _ T), Hs in E. cbn in E. congruence.
  - rewrite <- (tn_row _ _ _ T), <- (yd_members _ _ _ _ Y). pose proof (scan_rows_spec 0 32 k1) as Hsc.
    unfold first_ready in Efr. rewrite Efr in Hsc. apply Hsc.
    pose proof (tk_priority _ (si_thread _ _ _ I c)) as Hp. unfold RT_THREAD_PRIORITY_MAX in Hp. lia.
Qed.

(** The first ready thread is the next of the row, or of a lower row when nobody
    else is in the row of the current thread. *)
Lemma yield_chosen q t :
  first_ready k1 = Some (q, t) ->
  t <> c /\ current_priority (thread k t) = Z.of_nat q /\
  choose c k1 = (if decide (q = p) then t else c) /\
  (if decide (q = p) then exists l', l = t :: l' else l = []).
Proof.
  intros Efr. destruct yield_inv as [I I1]. pose proof (first_ready_spec _ _ _ I1) as Hs. rewrite Efr in Hs.
  destruct Hs as (_ & _ & Hm & Hmin). destruct (ready_priority _ _ _ _ _ I1 Hm) as (Hst & Hpt & Hq).
  pose proof (yd_thread _ _ _ _ Y) as T1. destruct (T1 c) as [Ts Tp]. destruct (T1 t) as [Tst Tpt].
  pose proof (tn_running _ _ _ T) as Hr. pose proof (tn_highest _ _ _ T t ltac:(congruence)) as Hhi.
  pose proof (scan_rows_spec 0 32 k1) as Hsc. pose proof Efr as Efr'. unfold first_ready in Efr'. rewrite Efr' in Hsc.
  destruct Hsc as (_ & (l' & El) & _).
  assert (Z.of_nat p = current_priority (thread k c)) as Hp.
  { pose proof (tk_priority _ (si_thread _ _ _ I c)). unfold p. lia. }
  assert (members (Ready p) k1 = l) as Hrow by (rewrite (yd_members _ _ _ _ Y); exact (tn_row _ _ _ T)).
  split_and!; [intros ->; rewrite Ts, Hr in Hst; discriminate|congruence| |].
  - unfold choose. rewrite Efr. unfold keeps_running. rewrite Ts, Hr, Tp, (yd_yielded _ _ _ _ Y).
    replace (RT_THREAD_RUNNING =? RT_THREAD_RUNNING) with true by done. cbn [andb negb].
    rewrite andb_false_r, orb_false_r.
    case_decide; destruct (Z.ltb_spec (current_priority (thread k c)) (Z.of_nat q)); lia || done.
  - case_decide as Hqp; [subst q; rewrite Hrow in El; by exists l'|].
    destruct l as [|j r]; [done|]. exfalso.
    assert (j ∈ members (Ready p) k1) as Hj by (rewrite Hrow; by left).
    destruct (ready_priority _ _ _ _ _ I1 Hj) as (Hjs & Hjp & _). specialize (Hmin j ltac:(done) Hjs). lia.
Qed.

(** The row of the thread that yields, after the switch. *)
Lemma yield_row q t :
  first_ready k1 = Some (q, t) -> switched c (choose c k1) k1 k' ->
  members (Ready p) k' = del (choose c k1) (l ++ if decide (q = p) then [c] else []).
Proof.
  intros Efr Sw. destruct (yield_chosen q t Efr) as (Htc & _ & Ech & _). destruct (yd_thread _ _ _ _ Y c) as [Ts Tp].
  rewrite (sw_ready _ _ _ _ Sw), (yd_members _ _ _ _ Y). f_equal.
  replace (members (Ready p) k) with l by (symmetry; exact (tn_row _ _ _ T)). f_equal.
  unfold requeued, is_running. rewrite Ts, (tn_running _ _ _ T), Tp.
  replace (RT_THREAD_RUNNING =? RT_THREAD_RUNNING) with true by done. cbn [andb]. fold p.
  rewrite (bool_decide_true (p = p)), andb_true_r, Ech by done.
  case_decide; [by rewrite bool_decide_true|by rewrite bool_decide_false by tauto].
Qed.
End Yield.

Lemma yield_turn c l k :
  turn c l k ->
  exists k', rt_thread_yield k = Ok k' /\
    match l with [] => turn c [] k' | n :: l => turn n (l ++ [c]) k' end.
Proof.
  intros T. destruct (yield_switch c k) as (k1 & k' & Ey & Y);
    [exact (tn_ok _ _ _ T)|exact (tn_current _ _ _ T)|exact (tn_lock _ _ _ T)|]. exists k'.
  split; [rewrite Ey; exact (yd_run _ _ _ _ Y)|]. destruct (yield_inv c l k k1 k' T Y) as [I I1].
  destruct (yield_frame c l k k1 k' T Y) as (L' & Ep & Hhi). pose proof (yd_ok _ _ _ _ Y) as H'.
  destruct (first_ready k1) as [[q t]|] eqn:Efr.
  2: { destruct (yield_alone c l k k1 k' T Y Efr) as [-> ->]. destruct (yd_thread _ _ _ _ Y c) as [Ts Tp].
       split; try done; [exact (yd_current _ _ _ _ Y)|rewrite Ts; exact (tn_running _ _ _ T)|
         rewrite Tp, (yd_members _ _ _ _ Y); exact (tn_row _ _ _ T)|by rewrite Tp]. }
  destruct (yd_switch _ _ _ _ Y) as [[_ ?]|Sw]; [congruence|].
  destruct (yield_chosen c l k k1 k' T Y q t Efr) as (Htc & Hpt & Ech & Hl).
  pose proof (yield_row c l k k1 k' T Y q t Efr Sw) as Mp.
  assert (status (thread k' (choose c k1)) = RT_THREAD_RUNNING) as Hrun by (apply chosen_running; [done|by rewrite Efr|done]).
  rewrite Ech in *. pose proof (sw_current _ _ _ _ Sw) as Hcur. set (p := Z.to_nat (current_priority (thread k c))) in *.
  assert (forall j, j ∈ l -> j <> c) as Hcl.
  { intros j Hin ->. rewrite <- (tn_row _ _ _ T) in Hin. destruct (ready_priority _ _ _ _ _ I Hin).
    pose proof (tn_running _ _ _ T). status_clash. }
  destruct (decide (q = p)) as [->|Hqp].
  - destruct Hl as [l' ->]. pose proof (si_nodup _ _ _ I (Ready p)) as Hn. rewrite (tn_row _ _ _ T : members (Ready p) k = _) in Hn.
    apply NoDup_cons in Hn as [Hn _]. split; try done.
    + rewrite Ep, Hpt, Nat2Z.id, Mp. cbn [app]. unfold del. rewrite filter_cons_False by tauto.
      apply del_notin. intros [?| ->%list_elem_of_singleton]%elem_of_app; done.
    + intros j Hj. rewrite (Ep t), Hpt. specialize (Hhi j Hj). pose proof (tk_priority _ (si_thread _ _ _ I c)). lia.
  - subst l. split; try done.
    + rewrite Ep. fold p. by rewrite Mp.
    + intros j Hj. rewrite (Ep c). by apply Hhi.
Qed.

(** C20: threads of one priority take turns.  While no thread of a higher
    priority is ready, the thread at place [i] of the queue (the current thread
    at place 0) has the processor after [i] yields. *)
Theorem round_robin (c : nat) (l : list nat) (k : kernel) (i t : nat) :
  turn c l k -> (c :: l) !! i = Some t ->
  exists k', yields i k = Ok k' /\ rt_current_thread k' = Some t /\
    status (thread k' t) = RT_THREAD_RUNNING.
Proof.
  revert c l k. induction i as [|i IH]; intros c l k T Hi.
  - injection Hi as <-. exists k. split_and!; [done|apply (tn_current _ _ _ T)|apply (tn_running _ _ _ T)].
  - destruct (yield_turn c l k T) as (k1 & E1 & T1). cbn [yields]. rewrite E1. cbn [mbind result_bind].
    destruct l as [|n l]; [done|]. apply (IH n (l ++ [c]) k1 T1).
    cbn in Hi. rewrite app_comm_cons. by rewrite lookup_app_l by (apply lookup_lt_is_Some; eauto).
Qed.

(** *** Boot, and witnesses *)

Lemma lookup_rows ps (m : gmap head (list nat)) (a : head) :
  foldr (fun p => <[Ready p := []]>) m ps !! a =
    (match a with
     | Ready p => if decide (p ∈ ps) then Some [] else m !! a
     | _ => m !! a
     end : option (list nat)).
Proof.
  induction ps as [|p ps IH]; cbn [foldr].
  - by destruct a.
  - rewrite lookup_insert. case_decide as Hd.
    + subst. by rewrite decide_True by by left.
    + rewrite IH. destruct a as [q| |]; [|done|done]. repeat case_decide; set_solver.
Qed.

(** The memory before the kernel starts, with a given set of suspend lists. *)
Definition reset (qs : list nat) : kernel :=
  mk_kernel (fun _ => mk_thread 0 0 0 0 0 0 0 0)
    (foldr (fun q => <[Waiting q := []]>) {[Defunct := []]} qs) 0 None 0 0 0
    (mk_timers 0 (fun _ => mk_timer 0 0 0) [] [] [] [] false).

Lemma lookup_waiting qs a :
  (foldr (fun q => <[Waiting q := []]>) {[Defunct := []]} qs : gmap head (list nat)) !! a =
    match a with
    | Waiting q => if decide (q ∈ qs) then Some [] else None
    | Defunct => Some []
    | Ready _ => None
    end.
Proof.
  induction qs as [|q qs IH]; cbn [foldr].
  - destruct a; [by rewrite lookup_singleton_ne by done|by rewrite lookup_singleton_ne by done|].
    by rewrite lookup_singleton_eq.
  - rewrite lookup_insert. case_decide as Hd.
    + subst. by rewrite decide_True by by left.
    + rewrite IH. destruct a as [|q'|]; [done| |done]. repeat case_decide; set_solver.
Qed.

Lemma init_ok qs : kernel_ok (rt_system_scheduler_init (reset qs)).
Proof.
  set (k := rt_system_scheduler_init _).
  assert (forall a, lists k !! a = match a with
    | Ready p => if decide (p < 32)%nat then Some [] else None
    | Waiting q => if decide (q ∈ qs) then Some [] else None
    | Defunct => Some [] end) as E.
  { intros a. unfold k, rt_system_scheduler_init. cbn [lists with_group with_lists with_lock].
    rewrite lookup_rows. unfold reset. cbn [lists]. rewrite lookup_waiting.
    change (Z.to_nat RT_THREAD_PRIORITY_MAX) with 32%nat. destruct a as [p| |]; [|done|done].
    repeat case_decide; rewrite elem_of_seq in *; lia || done. }
  assert (forall a, members a k = []) as Em.
  { intros a. unfold members. rewrite E. destruct a; repeat case_decide; done. }
  assert (0 <= half) as Hh by (unfold half; lia).
  split; [split|cbn; lia|split; [split; [split|done..]|]|]; try done.
  - intros t. split; cbn; [lia|unfold RT_THREAD_PRIORITY_MAX; lia|by intros [|[]]|by right].
  - intros p. rewrite E. case_decide; split; by try intros [? [=]].
  - rewrite E. by eexists.
  - intros a. rewrite Em. constructor.
  - intros a t. rewrite Em. by intros ?%not_elem_of_nil.
  - intros a b t. rewrite Em. by intros ?%not_elem_of_nil.
  - intros p Hp. rewrite Em. by cbn; rewrite Z.bits_0.
  - repeat constructor.
  - repeat constructor.
Qed.

(** The state a run ends in. *)
Definition the (m : result kernel) : kernel :=
  match m with Ok k => k | Fault _ => reset [] end.
Lemma the_ok (m : result kernel) (P : kernel -> Prop) :
  (exists k, m = Ok k /\ P k) -> m = Ok (the m) /\ P (the m).
Proof. by intros (k & -> & H). Qed.

(** Idle thread 1 (priority 31), threads 2 and 3 (priority 10), suspend lists. *)
Definition spawn (t : nat) (p : Z) (k : kernel) : result kernel :=
  k ← _thread_init t p 20 k; rt_thread_startup t k.

Lemma spawn_ok t p k :
  kernel_ok k -> status (thread k t) = RT_THREAD_INIT -> rt_current_thread k <> Some t ->
  0 <= p < RT_THREAD_PRIORITY_MAX ->
  exists k', spawn t p k = Ok k' /\ kernel_ok k' /\ (is_Some (rt_current_thread k) -> is_Some (rt_current_thread k')).
Proof.
  intros H Hs Hc Hp. unfold spawn.
  assert (unlinked t k = true) as Hu by (eapply unlinked_status; [apply H|by left]).
  destruct (thread_init_ok t p 20 k H (or_introl Hs) Hu Hc Hp) as (k1 & E1 & H1 & C1 & S1).
  rewrite E1. cbn [mbind result_bind]. rewrite <- C1. by apply startup_ok.
Qed.

Definition boot1 (qs : list nat) : kernel := the (spawn 1 31 (rt_system_scheduler_init (reset qs))).
Definition boot2 (qs : list nat) : kernel := the (spawn 2 10 (boot1 qs)).
Definition boot3 (qs : list nat) : kernel := the (spawn 3 10 (boot2 qs)).
Definition booted (qs : list nat) : kernel := the (rt_system_scheduler_start (boot3 qs)).

Lemma boot_step t p k :
  kernel_ok k -> status (thread k t) = RT_THREAD_INIT -> rt_current_thread k <> Some t ->
  0 <= p < RT_THREAD_PRIORITY_MAX -> kernel_ok (the (spawn t p k)).
Proof.
  intros H Hs Hc Hp. destruct (spawn_ok t p k H Hs Hc Hp) as (k' & E & H' & _). by rewrite E.
Qed.

Lemma booted_ok : kernel_ok (booted [7%nat; 8%nat]) /\ rt_current_thread (booted [7%nat; 8%nat]) = Some 2%nat.
Proof.
  split; [|by vm_compute].
  assert (kernel_ok (boot3 [7%nat; 8%nat])) as H.
  { do 3 (apply boot_step; [|by vm_compute|by vm_compute|by vm_compute]). apply init_ok. }
  destruct (scheduler_start_ok _ H) as (k' & E & H' & _); [by vm_compute|by vm_compute; eexists|].
  unfold booted. by rewrite E.
Qed.

Definition car : kernel := booted [7%nat; 8%nat].
Definition car_yielded : kernel := with_thread set_yield 2 car.

Lemma kernel_safe_witness :
  exists k', run (Sleep 5) car = Ok k' /\ kernel_ok k' /\ is_Some (rt_current_thread k').
Proof.
  apply (kernel_safe car car).
  - apply booted_ok.
  - exists 2%nat. apply booted_ok.
  - apply reach_start.
  - split; [|by unfold half]. exists 2%nat. by vm_compute.
Defined.

Lemma rt_schedule_highest_witness :
  exists k', rt_schedule car_yielded = Ok k' /\ kernel_ok k' /\ rt_current_thread k' = Some 3%nat /\
    status (thread k' 3) = RT_THREAD_RUNNING /\
    (forall j, status (thread k' j) = RT_THREAD_READY ->
               current_priority (thread k' 3) <= current_priority (thread k' j)) /\
    (forall p, members (Ready p) k' = del 3%nat (members (Ready p) car_yielded ++ requeued 2 3 car_yielded p)).
Proof.
  apply (rt_schedule_highest car_yielded 2).
  - apply set_yield_ok. apply booted_ok.
  - by vm_compute.
  - by vm_compute.
  - by vm_compute; eexists.
Defined.

Lemma sleep_on_time_witness :
  exists k1, rt_thread_sleep 3 car = Ok k1 /\
    (forall m, (m < 3)%nat -> exists k2, clock_ticks m k1 = Ok k2 /\
       status (thread k2 2) = RT_THREAD_SUSPEND) /\
    exists k2, clock_ticks 3 k1 = Ok k2 /\ runnable (thread k2 2) /\
      (rt_thread_sleep_end 2 k2).1 = RT_EOK.
Proof.
  apply (sleep_on_time 3 2 car).
  - apply booted_ok.
  - apply booted_ok.
  - by vm_compute.
  - by unfold half.
Defined.

Lemma car_turn : turn 2 [3%nat] car.
Proof.
  split; [apply booted_ok|apply booted_ok|by vm_compute|by vm_compute|by vm_compute|].
  intros j. by destruct j as [|[|[|[|j]]]]; vm_compute.
Qed.

Lemma round_robin_witness :
  exists k', yields 1 car = Ok k' /\ rt_current_thread k' = Some 3%nat /\
    status (thread k' 3) = RT_THREAD_RUNNING.
Proof.
  apply (round_robin 2 [3%nat] car 1 3).
  - exact car_turn.
  - reflexivity.
Defined.

(** A new priority is not checked: with 32 or more the next insertion writes
    outside the ready table. *)
Lemma priority_out_of_bounds : change_priority 3 32 car = Fault OutOfBounds.
Proof. vm_compute. reflexivity. Qed.

(** [rt_tick_from_millisecond] is the identity at 1000 ticks per second. *)
Lemma tick_from_millisecond_id ms : 0 <= ms < 2 ^ 31 -> rt_tick_from_millisecond ms = ms.
Proof.
  intros H. unfold rt_tick_from_millisecond, RT_TICK_PER_SECOND.
  replace (ms <? 0) with false by lia. rewrite Z.quot_div_nonneg, Z.rem_mod_nonneg by lia.
  pose proof (Z.div_mod ms 1000 ltac:(lia)). pose proof (Z.mod_pos_bound ms 1000 ltac:(lia)).
  rewrite Z.quot_div_nonneg by lia.
  replace ((1000 * (ms mod 1000) + 999) / 1000) with (ms mod 1000) by zmod.
  cint. lia.
Qed.

End Thread.
