(* ===== verification/KList.v ===== *)
(** * The linked lists of the kernel (rt-thread/include/rtservice.h)

    [rt_list_t], a node of a doubly linked ring, on a store of nodes with their
    two pointers, one assignment at a time; the other components use lists as the
    sequences of their members.

    [KList], the doubly linked lists.  The theorem: as long as an object is linked
    into one list at a time, the pointers do for every sequence of calls what the
    sequences do.  [SList], the singly linked lists, which no compiled part of the
    kernel uses. *)

From S2P Require Import Prelude Timer Thread.

Module KList.

Section Store.
Context {P : Type} `{EqDecision P, !Countable P}.

Record rt_list_node := mk_node { next : P; prev : P }.
(** The objects of type [rt_list_t], by their addresses. *)
Notation store := (gmap P rt_list_node).
Implicit Types (s : store) (p n : P).

Definition deref p s : result rt_list_node :=
  match s !! p with Some x => Ok x | None => Fault OutOfBounds end.
(** [p->next = v], [p->prev = v] *)
Definition set_next p v s : result store := x ← deref p s; Ok (<[p := mk_node v (prev x)]> s).
Definition set_prev p v s : result store := x ← deref p s; Ok (<[p := mk_node (next x) v]> s).

Definition rt_list_init l s : result store :=
  s ← set_prev l l s;
  x ← deref l s; set_next l (prev x) s.

Definition rt_list_insert_after l n s : result store :=
  x ← deref l s; s ← set_prev (next x) n s;
  x ← deref l s; s ← set_next n (next x) s;
  s ← set_next l n s;
  set_prev n l s.

Definition rt_list_insert_before l n s : result store :=
  x ← deref l s; s ← set_next (prev x) n s;
  x ← deref l s; s ← set_prev n (prev x) s;
  s ← set_prev l n s;
  set_next n l s.

Definition rt_list_remove n s : result store :=
  x ← deref n s; s ← set_prev (next x) (prev x) s;
  x ← deref n s; s ← set_next (prev x) (next x) s;
  s ← set_prev n n s;
  x ← deref n s; set_next n (prev x) s.

Definition rt_list_isempty l s : result bool := x ← deref l s; Ok (bool_decide (next x = l)).

(** [while (p->next != l)]; a walk visits each object at most once. *)
Fixpoint len_loop (fuel : nat) (len : Z) p l s : result Z :=
  match fuel with
  | O => Fault OutOfFuel
  | S fuel =>
      x ← deref p s;
      if bool_decide (next x = l) then Ok len else len_loop fuel (u32 (len + 1)) (next x) l s
  end.
Definition rt_list_len l s : result Z := len_loop (S (size s)) 0 l l s.

(** The nodes that [rt_list_for_each] visits. *)
Fixpoint for_each_loop (fuel : nat) pos head s : result (list P) :=
  match fuel with
  | O => Fault OutOfFuel
  | S fuel =>
      if bool_decide (pos = head) then Ok []
      else x ← deref pos s; r ← for_each_loop fuel (next x) head s; Ok (pos :: r)
  end.
Definition rt_list_for_each head s : result (list P) :=
  x ← deref head s; for_each_loop (S (size s)) (next x) head s.

(** The node of [rt_list_first_entry]. *)
Definition rt_list_first l s : result P := x ← deref l s; Ok (next x).

(** ** Rings *)

Definition nx s p : option P := next <$> s !! p.
Definition pv s p : option P := prev <$> s !! p.

(** [b] comes after [a]. *)
Definition linked s (a b : P) : Prop := nx s a = Some b /\ pv s b = Some a.

Fixpoint path s (l : list P) : Prop :=
  match l with
  | a :: (b :: _) as l' => linked s a b /\ path s l'
  | _ => True
  end.

(** The head [h] and the members [l] in a ring. *)
Definition ring s (h : P) (l : list P) : Prop := NoDup (h :: l) /\ path s (h :: l ++ [h]).

(** The effect of one or more assignments on the pointers. *)
Definition effect s s' (fn fp : P -> option P) : Prop :=
  dom s' = dom s /\ (forall q, nx s' q = fn q) /\ (forall q, pv s' q = fp q).

Lemma deref_nx p q s : nx s p = Some q -> exists x, deref p s = Ok x /\ next x = q.
Proof. unfold nx, deref. destruct (s !! p) as [x|]; [|done]. intros [= <-]. by exists x. Qed.
Lemma deref_pv p q s : pv s p = Some q -> exists x, deref p s = Ok x /\ prev x = q.
Proof. unfold pv, deref. destruct (s !! p) as [x|]; [|done]. intros [= <-]. by exists x. Qed.

Lemma nx_dom s p : is_Some (nx s p) <-> p ∈ dom s.
Proof. unfold nx. by rewrite fmap_is_Some, elem_of_dom. Qed.
Lemma pv_dom s p : is_Some (pv s p) <-> p ∈ dom s.
Proof. unfold pv. by rewrite fmap_is_Some, elem_of_dom. Qed.

Lemma set_next_ok p v s :
  p ∈ dom s -> exists s', set_next p v s = Ok s' /\ effect s s' (fun q => if decide (q = p) then Some v else nx s q) (pv s).
Proof.
  intros [x E]%elem_of_dom. unfold set_next, deref. rewrite E. eexists. split; [done|].
  unfold effect, nx, pv. split; [apply dom_insert_lookup_L; by eexists|].
  split; intros q; destruct (decide (q = p)) as [->|Hq].
  - by rewrite lookup_insert_eq.
  - by rewrite lookup_insert_ne by done.
  - by rewrite lookup_insert_eq, E.
  - by rewrite lookup_insert_ne by done.
Qed.
Lemma set_prev_ok p v s :
  p ∈ dom s -> exists s', set_prev p v s = Ok s' /\ effect s s' (nx s) (fun q => if decide (q = p) then Some v else pv s q).
Proof.
  intros [x E]%elem_of_dom. unfold set_prev, deref. rewrite E. eexists. split; [done|].
  unfold effect, nx, pv. split; [apply dom_insert_lookup_L; by eexists|].
  split; intros q; destruct (decide (q = p)) as [->|Hq].
  - by rewrite lookup_insert_eq, E.
  - by rewrite lookup_insert_ne by done.
  - by rewrite lookup_insert_eq.
  - by rewrite lookup_insert_ne by done.
Qed.

Definition spliced (a n b : P) s s' : Prop :=
  effect s s' (fun q => if decide (q = n) then Some b else if decide (q = a) then Some n else nx s q)
              (fun q => if decide (q = n) then Some a else if decide (q = b) then Some n else pv s q).
Definition removed (a n b : P) s s' : Prop :=
  effect s s' (fun q => if decide (q = n) then Some n else if decide (q = a) then Some b else nx s q)
              (fun q => if decide (q = n) then Some n else if decide (q = b) then Some a else pv s q).

Ltac indom := first [done | congruence | solve [apply nx_dom; eexists; eassumption] | solve [apply pv_dom; eexists; eassumption]].
(** Reads a pointer whose value follows from the effects so far. *)
Ltac follow := repeat match goal with
  | H : forall q, nx ?s q = _ |- context [nx ?s _] => rewrite H
  | H : forall q, pv ?s q = _ |- context [pv ?s _] => rewrite H
  end; repeat case_decide; first [congruence | done].
Lemma rt_list_init_ok l s :
  l ∈ dom s -> exists s', rt_list_init l s = Ok s' /\
    effect s s' (fun q => if decide (q = l) then Some l else nx s q) (fun q => if decide (q = l) then Some l else pv s q).
Proof.
  intros Hl. unfold rt_list_init.
  destruct (set_prev_ok l l s) as (s1 & -> & D1 & N1 & V1); [done|]. cbn [mbind result_bind].
  destruct (deref_pv l l s1) as (x & -> & Ex); [follow|]. cbn [mbind result_bind]. rewrite Ex.
  destruct (set_next_ok l l s1) as (s2 & -> & D2 & N2 & V2); [congruence|].
  exists s2. split; [done|]. split; [congruence|]. split; intros q; follow.
Qed.

Lemma rt_list_insert_after_ok a n b s :
  linked s a b -> n ∈ dom s -> n <> a -> n <> b ->
  exists s', rt_list_insert_after a n s = Ok s' /\ spliced a n b s s'.
Proof.
  intros [Ha Hb] Hn Hna Hnb. unfold rt_list_insert_after.
  assert (a ∈ dom s) by indom. assert (b ∈ dom s) by indom.
  destruct (deref_nx a b s Ha) as (x & -> & Ex). cbn [mbind result_bind]. rewrite Ex.
  destruct (set_prev_ok b n s) as (s1 & -> & D1 & N1 & V1); [done|]. cbn [mbind result_bind].
  destruct (deref_nx a b s1) as (y & -> & Ey); [follow|]. cbn [mbind result_bind]. rewrite Ey.
  destruct (set_next_ok n b s1) as (s2 & -> & D2 & N2 & V2); [congruence|]. cbn [mbind result_bind].
  destruct (set_next_ok a n s2) as (s3 & -> & D3 & N3 & V3); [congruence|]. cbn [mbind result_bind].
  destruct (set_prev_ok n a s3) as (s4 & -> & D4 & N4 & V4); [congruence|].
  exists s4. split; [done|]. split; [congruence|]. split; intros q; follow.
Qed.

Lemma rt_list_insert_before_ok a n b s :
  linked s a b -> n ∈ dom s -> n <> a -> n <> b ->
  exists s', rt_list_insert_before b n s = Ok s' /\ spliced a n b s s'.
Proof.
  intros [Ha Hb] Hn Hna Hnb. unfold rt_list_insert_before.
  assert (a ∈ dom s) by indom. assert (b ∈ dom s) by indom.
  destruct (deref_pv b a s Hb) as (x & -> & Ex). cbn [mbind result_bind]. rewrite Ex.
  destruct (set_next_ok a n s) as (s1 & -> & D1 & N1 & V1); [done|]. cbn [mbind result_bind].
  destruct (deref_pv b a s1) as (y & -> & Ey); [follow|]. cbn [mbind result_bind]. rewrite Ey.
  destruct (set_prev_ok n a s1) as (s2 & -> & D2 & N2 & V2); [congruence|]. cbn [mbind result_bind].
  destruct (set_prev_ok b n s2) as (s3 & -> & D3 & N3 & V3); [congruence|]. cbn [mbind result_bind].
  destruct (set_next_ok n b s3) as (s4 & -> & D4 & N4 & V4); [congruence|].
  exists s4. split; [done|]. split; [congruence|]. split; intros q; follow.
Qed.

Lemma rt_list_remove_ok a n b s :
  linked s a n -> linked s n b -> (a = n <-> b = n) ->
  exists s', rt_list_remove n s = Ok s' /\ removed a n b s s'.
Proof.
  intros [Ha Hn] [Hn' Hb] Hs. unfold rt_list_remove.
  assert (a ∈ dom s) by indom. assert (b ∈ dom s) by indom. assert (n ∈ dom s) by indom.
  destruct (deref_nx n b s Hn') as (x & Ex & Ex'). rewrite Ex. cbn [mbind result_bind].
  assert (prev x = a) as Ea.
  { unfold deref in Ex. unfold pv in Hn. destruct (s !! n); [|done]. injection Ex as ->. by injection Hn. }
  rewrite Ex', Ea. destruct (set_prev_ok b a s) as (s1 & -> & D1 & N1 & V1); [done|]. cbn [mbind result_bind].
  destruct (deref_nx n b s1) as (y & Ey & Ey'); [follow|]. rewrite Ey. cbn [mbind result_bind].
  assert (prev y = a) as Ea'.
  { unfold deref in Ey. assert (pv s1 n = Some a) as Hp by follow. unfold pv in Hp.
    destruct (s1 !! n); [|done]. injection Ey as ->. by injection Hp. }
  rewrite Ey', Ea'. destruct (set_next_ok a b s1) as (s2 & -> & D2 & N2 & V2); [congruence|]. cbn [mbind result_bind].
  destruct (set_prev_ok n n s2) as (s3 & -> & D3 & N3 & V3); [congruence|]. cbn [mbind result_bind].
  destruct (deref_pv n n s3) as (z & -> & Ez); [follow|]. cbn [mbind result_bind]. rewrite Ez.
  destruct (set_next_ok n n s3) as (s4 & -> & D4 & N4 & V4); [congruence|].
  exists s4. split; [done|]. split; [congruence|]. split; intros q; follow.
Qed.

(** *** Changes of a ring *)

Lemma path_app s l1 x l2 : path s (l1 ++ x :: l2) <-> path s (l1 ++ [x]) /\ path s (x :: l2).
Proof.
  induction l1 as [|a l1 IH]; [cbn; tauto|].
  destruct l1 as [|b l1]; cbn [app path] in *; tauto.
Qed.

(** A path depends on the [next] of all objects but the last and on the [prev]
    of all but the first. *)
Lemma path_change s s' l :
  (forall p, p ∈ removelast l -> nx s' p = nx s p) -> (forall p, p ∈ tail l -> pv s' p = pv s p) ->
  path s l -> path s' l.
Proof.
  induction l as [|a [|b l] IH]; [done|done|]. intros Hn Hp [[H1 H2] H3].
  change (removelast (a :: b :: l)) with (a :: removelast (b :: l)) in Hn. cbn [tail] in Hp.
  split; [split; [rewrite Hn by left|rewrite Hp by left]; done|].
  apply IH; [..|done]; intros p Hin; [apply Hn; by right|apply Hp; right; exact Hin].
Qed.

Lemma ring_frame s s' h l :
  (forall p, p ∈ h :: l -> nx s' p = nx s p /\ pv s' p = pv s p) -> ring s h l -> ring s' h l.
Proof.
  intros Hf [Hn Hp]. split; [done|]. revert Hp. change (h :: l ++ [h]) with ((h :: l) ++ [h]).
  apply path_change; intros p Hin; apply Hf.
  - by rewrite removelast_last in Hin.
  - cbn [app tail] in Hin. apply elem_of_app in Hin as [?| ->%list_elem_of_singleton]; [by right|by left].
Qed.

(** The place between [l1] and [l2] in a ring. *)
Definition between (h : P) (l1 l2 : list P) (a b : P) : Prop := last (h :: l1) = Some a /\ head (l2 ++ [h]) = Some b.

Lemma between_split h l1 l2 a b :
  between h l1 l2 a b -> exists k1 k2, h :: l1 = k1 ++ [a] /\ l2 ++ [h] = b :: k2.
Proof.
  intros [Ha Hb]. apply last_Some in Ha as [k1 E1]. destruct (l2 ++ [h]) as [|x k2]; [done|]. injection Hb as ->. by exists k1, k2.
Qed.
Lemma between_ex h l1 l2 : exists a b, between h l1 l2 a b.
Proof.
  destruct (last (h :: l1)) as [a|] eqn:Ea; [|by apply last_None in Ea].
  destruct (head (l2 ++ [h])) as [b|] eqn:Eb; [by exists a, b|]. apply head_None in Eb. by destruct l2.
Qed.

(** The two halves of a ring at a place: where the ends are, and which objects
    lie in them. *)
Record cut (h : P) (l1 l2 : list P) (a b : P) (k1 k2 : list P) : Prop := mk_cut {
  cut_l : h :: l1 = k1 ++ [a];
  cut_r : l2 ++ [h] = b :: k2;
  cut_a : a ∈ h :: l1;
  cut_b : b ∈ h :: l2;
  cut_k1 : forall p, p ∈ k1 -> p <> a /\ p ∈ h :: l1;
  cut_l1 : forall p, p ∈ l1 -> p <> b;
  cut_l2 : forall p, p ∈ l2 -> p <> a;
  cut_k2 : forall p, p ∈ k2 -> p <> b /\ p ∈ h :: l2 }.

Lemma cut_ok h l1 l2 a b :
  NoDup (h :: l1 ++ l2) -> between h l1 l2 a b -> exists k1 k2, cut h l1 l2 a b k1 k2.
Proof.
  intros Hn B. destruct (between_split _ _ _ _ _ B) as (k1 & k2 & E1 & E2). exists k1, k2.
  assert (NoDup (k1 ++ [a]) /\ (forall p, p ∈ h :: l1 -> p ∉ l2)) as [N1 D1].
  { rewrite <- E1. change (h :: l1 ++ l2) with ((h :: l1) ++ l2) in Hn. apply NoDup_app in Hn as (? & ? & _). done. }
  assert (NoDup (b :: k2) /\ (forall p, p ∈ h :: l2 -> p ∉ l1)) as [N2 D2].
  { rewrite <- E2. assert (NoDup (l1 ++ l2 ++ [h])) as Hn' by by rewrite app_assoc, <- Permutation_cons_append.
    apply NoDup_app in Hn' as (_ & Hd & ?). split; [done|]. intros p Hp Hp1. apply (Hd p Hp1). rewrite <- Permutation_cons_append. done. }
  apply NoDup_app in N1 as (_ & N1 & _). apply NoDup_cons in N2 as [N2 _].
  assert (forall p, p ∈ b :: k2 <-> p ∈ h :: l2) as M2 by (intros p; by rewrite <- E2, <- Permutation_cons_append).
  split; try done.
  - rewrite E1. apply elem_of_app. right. by left.
  - apply M2. by left.
  - intros p Hp. split; [intros ->; apply (N1 a Hp); by left|rewrite E1; apply elem_of_app; by left].
  - intros p Hp ->. apply (D2 b); [|done]. apply M2. by left.
  - intros p Hp ->. apply (D1 a); [|done]. rewrite E1. apply elem_of_app. right. by left.
  - intros p Hp. split; [by intros ->|apply M2; by right].
Qed.

Lemma ring_cut s h l1 l2 a b k1 k2 :
  cut h l1 l2 a b k1 k2 -> ring s h (l1 ++ l2) <-> NoDup (h :: l1 ++ l2) /\ path s (k1 ++ [a]) /\ linked s a b /\ path s (b :: k2).
Proof.
  intros C. unfold ring. replace (h :: (l1 ++ l2) ++ [h]) with (k1 ++ a :: b :: k2).
  - rewrite path_app. cbn [path]. tauto.
  - rewrite app_comm_cons, app_comm_cons, (cut_l _ _ _ _ _ _ _ C), <- !app_assoc, (cut_r _ _ _ _ _ _ _ C). done.
Qed.

Lemma ring_between s h l1 l2 a b :
  ring s h (l1 ++ l2) -> between h l1 l2 a b -> linked s a b /\ a ∈ h :: l1 ++ l2 /\ b ∈ h :: l1 ++ l2.
Proof.
  intros R B. destruct (cut_ok h l1 l2 a b (proj1 R) B) as (k1 & k2 & C).
  pose proof (cut_a _ _ _ _ _ _ _ C). pose proof (cut_b _ _ _ _ _ _ _ C).
  apply (ring_cut _ _ _ _ _ _ _ _ C) in R as (_ & _ & L & _). split; [done|]. set_solver.
Qed.

(** The two halves are as before when only the pointers at the place, and those of
    an object outside, are changed. *)
Lemma cut_change s s' h l1 l2 a b k1 k2 n :
  cut h l1 l2 a b k1 k2 -> n ∉ h :: l1 ++ l2 ->
  (forall q, q <> n -> q <> a -> nx s' q = nx s q) -> (forall q, q <> n -> q <> b -> pv s' q = pv s q) ->
  path s (k1 ++ [a]) -> path s (b :: k2) -> path s' (k1 ++ [a]) /\ path s' (b :: k2).
Proof.
  intros C Hn Hx Hp H1 H2.
  assert (forall p, p ∈ h :: l1 \/ p ∈ h :: l2 -> p <> n) as Hne by (intros p Hp1 ->; set_solver).
  assert (tail (k1 ++ [a]) = l1) as T1 by by rewrite <- (cut_l _ _ _ _ _ _ _ C).
  assert (removelast (b :: k2) = l2) as T2 by by rewrite <- (cut_r _ _ _ _ _ _ _ C), removelast_last.
  split; [revert H1|revert H2]; apply path_change; rewrite ?T1, ?T2, ?removelast_last; intros p Hin.
  - apply (cut_k1 _ _ _ _ _ _ _ C) in Hin as [Ha Hin]. apply Hx; [apply Hne; by left|done].
  - apply Hp; [apply Hne; left; by right|]. by apply (cut_l1 _ _ _ _ _ _ _ C).
  - apply Hx; [apply Hne; right; by right|]. by apply (cut_l2 _ _ _ _ _ _ _ C).
  - cbn [tail] in Hin. apply (cut_k2 _ _ _ _ _ _ _ C) in Hin as [Hb Hin]. apply Hp; [apply Hne; by right|done].
Qed.

Lemma ring_splice s s' h l1 l2 a b n :
  ring s h (l1 ++ l2) -> between h l1 l2 a b -> n ∉ h :: l1 ++ l2 -> spliced a n b s s' ->
  ring s' h (l1 ++ n :: l2).
Proof.
  intros R B Hn (_ & Hx & Hp). destruct (cut_ok h l1 l2 a b (proj1 R) B) as (k1 & k2 & C).
  apply (ring_cut _ _ _ _ _ _ _ _ C) in R as (Nd & P1 & L & P2).
  destruct (cut_change s s' h l1 l2 a b k1 k2 n C Hn) as [P1' P2']; try done.
  { intros q ??. rewrite Hx. by rewrite !decide_False by done. }
  { intros q ??. rewrite Hp. by rewrite !decide_False by done. }
  split; [by rewrite <- Permutation_middle, Permutation_swap, NoDup_cons|].
  replace (h :: (l1 ++ n :: l2) ++ [h]) with (k1 ++ a :: n :: b :: k2).
  2: { rewrite app_comm_cons, app_comm_cons, (cut_l _ _ _ _ _ _ _ C), <- !app_assoc. cbn [app]. by rewrite (cut_r _ _ _ _ _ _ _ C). }
  pose proof (cut_a _ _ _ _ _ _ _ C). pose proof (cut_b _ _ _ _ _ _ _ C).
  assert (a <> n) by (intros ->; set_solver). assert (b <> n) by (intros ->; set_solver).
  apply path_app. split; [done|]. split; [|split; [|exact P2']];
    unfold linked; rewrite Hx, Hp; split; repeat case_decide; congruence.
Qed.

Lemma ring_unsplice s s' h l1 l2 a b n :
  ring s h (l1 ++ n :: l2) -> between h l1 l2 a b -> removed a n b s s' ->
  ring s' h (l1 ++ l2) /\ ring s' n [].
Proof.
  intros R B (_ & Hx & Hp). destruct R as [Nd R].
  rewrite <- Permutation_middle, Permutation_swap, NoDup_cons in Nd. destruct Nd as [Hn Nd].
  destruct (cut_ok h l1 l2 a b Nd B) as (k1 & k2 & C).
  replace (h :: (l1 ++ n :: l2) ++ [h]) with (k1 ++ a :: n :: b :: k2) in R.
  2: { rewrite app_comm_cons, app_comm_cons, (cut_l _ _ _ _ _ _ _ C), <- !app_assoc. cbn [app]. by rewrite (cut_r _ _ _ _ _ _ _ C). }
  apply path_app in R as [P1 (_ & _ & P2)].
  destruct (cut_change s s' h l1 l2 a b k1 k2 n C Hn) as [P1' P2']; try done.
  { intros q ??. rewrite Hx. by rewrite !decide_False by done. }
  { intros q ??. rewrite Hp. by rewrite !decide_False by done. }
  pose proof (cut_a _ _ _ _ _ _ _ C). pose proof (cut_b _ _ _ _ _ _ _ C).
  assert (a <> n) by (intros ->; set_solver). assert (b <> n) by (intros ->; set_solver). split.
  - apply (ring_cut _ _ _ _ _ _ _ _ C). split_and!; try done. unfold linked. rewrite Hx, Hp.
    split; repeat case_decide; congruence.
  - split; [apply NoDup_singleton|]. cbn [app path]. unfold linked. rewrite Hx, Hp. by rewrite !decide_True.
Qed.

(** *** Walks along a ring *)

Lemma path_dom s a b (l : list P) : path s (a :: b :: l) -> a ∈ dom s.
Proof. intros [[H _] _]. apply nx_dom. by eexists. Qed.
Lemma ring_dom s h l p : ring s h l -> p ∈ h :: l -> p ∈ dom s.
Proof.
  intros [_ R] Hp. apply list_elem_of_split in Hp as (l1 & l2 & E).
  change (h :: l ++ [h]) with ((h :: l) ++ [h]) in R. rewrite E, <- app_assoc in R. cbn [app] in R.
  apply path_app in R as [_ R]. destruct l2 as [|b l2]; by apply path_dom in R.
Qed.
Lemma ring_size s h l : ring s h l -> (length l < size s)%nat.
Proof.
  intros R. rewrite <- (size_dom (D := gset P)). change (length l < size (dom s))%nat with (length (h :: l) <= size (dom s))%nat.
  rewrite <- (size_list_to_set (C := gset P)) by apply R. apply subseteq_size. intros p Hp%elem_of_list_to_set.
  by eapply ring_dom.
Qed.

Lemma rt_list_isempty_ring s h l : ring s h l -> rt_list_isempty h s = Ok (bool_decide (l = [])).
Proof.
  intros [Nd R]. unfold rt_list_isempty. destruct l as [|b l]; destruct R as [[Hx _] _];
    apply deref_nx in Hx as (x & -> & Ex); cbn [mbind result_bind]; rewrite Ex; f_equal; apply bool_decide_ext; [done|].
  apply NoDup_cons in Nd as [Nd _]. split; [intros ->|done]. exfalso. apply Nd. by left.
Qed.
Lemma rt_list_isempty_linked s h l p : ring s h l -> p ∈ l -> rt_list_isempty p s = Ok false.
Proof.
  intros [Nd R] Hp. unfold rt_list_isempty. apply list_elem_of_split in Hp as (l1 & l2 & ->).
  replace (h :: (l1 ++ p :: l2) ++ [h]) with ((h :: l1) ++ p :: l2 ++ [h]) in R by (by rewrite <- !app_assoc).
  apply path_app in R as [_ R]. apply NoDup_cons in Nd as [Hh Nd]. apply NoDup_app in Nd as (_ & _ & Nd). apply NoDup_cons in Nd as [Nd _].
  destruct l2 as [|b l2]; destruct R as [[Hx _] _]; apply deref_nx in Hx as (x & -> & Ex); cbn [mbind result_bind]; rewrite Ex;
    f_equal; apply bool_decide_eq_false; intros ->.
  - apply Hh. apply elem_of_app. right. by left.
  - apply Nd. by left.
Qed.

Lemma len_loop_ok fuel len p h s l :
  path s (p :: l ++ [h]) -> h ∉ l -> (length l < fuel)%nat ->
  len_loop fuel (u32 len) p h s = Ok (u32 (len + Z.of_nat (length l))).
Proof.
  revert len p l. induction fuel as [|fuel IH]; intros len p l R Hh Hf; [lia|]. cbn [len_loop].
  destruct l as [|b l]; destruct R as [[Hx _] R]; apply deref_nx in Hx as (x & -> & Ex); cbn [mbind result_bind]; rewrite Ex.
  - rewrite bool_decide_true by done. cbn [length]. do 2 f_equal. lia.
  - apply not_elem_of_cons in Hh as [Hb Hh]. rewrite bool_decide_false by done. cbn [length] in *.
    replace (u32 (u32 len + 1)) with (u32 (len + 1)) by (unfold u32; by rewrite Zplus_mod_idemp_l).
    rewrite (IH _ _ l) by (done || lia). do 2 f_equal. lia.
Qed.
Lemma rt_list_len_ring s h l : ring s h l -> rt_list_len h s = Ok (u32 (Z.of_nat (length l))).
Proof.
  intros R. pose proof (ring_size s h l R). destruct R as [Nd R]. apply NoDup_cons in Nd as [Nd _].
  unfold rt_list_len. change 0 with (u32 0) at 1. by rewrite (len_loop_ok _ _ _ _ _ l) by (done || lia).
Qed.

Lemma for_each_loop_ok fuel h s (l : list P) pos k :
  path s (l ++ [h]) -> l ++ [h] = pos :: k -> h ∉ l -> (length l < fuel)%nat -> for_each_loop fuel pos h s = Ok l.
Proof.
  revert l pos k. induction fuel as [|fuel IH]; intros l pos k R E Hh Hf; [lia|]. cbn [for_each_loop].
  destruct l as [|b l]; injection E as -> E.
  - by rewrite bool_decide_true.
  - apply not_elem_of_cons in Hh as [Hb Hh]. rewrite bool_decide_false by done. cbn [length] in Hf.
    destruct k as [|c k]; [by destruct l|]. cbn [app] in R. rewrite E in R. destruct R as [[Hx _] R].
    apply deref_nx in Hx as (x & -> & Ex). cbn [mbind result_bind]. rewrite Ex.
    rewrite (IH l c k) by (rewrite ?E; done || lia). done.
Qed.
Lemma rt_list_for_each_ring s h l : ring s h l -> rt_list_for_each h s = Ok l.
Proof.
  intros R. pose proof (ring_size s h l R). destruct R as [Nd R]. apply NoDup_cons in Nd as [Nd _].
  unfold rt_list_for_each. destruct (l ++ [h]) as [|b k] eqn:E; [by destruct l|]. destruct R as [[Hx _] R].
  apply deref_nx in Hx as (x & -> & Ex). cbn [mbind result_bind]. rewrite Ex. rewrite <- E in R.
  by apply (for_each_loop_ok _ h s l b k); try (done || lia).
Qed.
Lemma rt_list_first_ring s h l : ring s h l -> rt_list_first h s = Ok (default h (head l)).
Proof.
  intros [_ R]. unfold rt_list_first. destruct l as [|b l]; destruct R as [[Hx _] _];
    apply deref_nx in Hx as (x & -> & Ex); cbn [mbind result_bind]; by rewrite Ex.
Qed.
End Store.
#[global] Arguments rt_list_node : clear implicits.
#[global] Arguments mk_node {P}.

(** ** Lists as sequences

    An object is a list head or the node of something that can be a member of a
    list. *)
Section Lists.
Context {H N : Type} `{EqDecision H, !Countable H, EqDecision N, !Countable N}.
Notation object := (H + N)%type.
Notation store := (gmap object (rt_list_node object)).
Implicit Types (s : store) (a : H) (t u : N) (l : list N).

Inductive call :=
| Init (x : object) | InsertAfter (x : object) (t : N) | InsertBefore (x : object) (t : N)
| Remove (t : N) | IsEmpty (x : object) | Len (a : H) | First (a : H) | ForEach (a : H).
Inductive answer := Done | Bool (b : bool) | Num (z : Z) | Ptr (x : object) | Ptrs (l : list object).

(** The calls on the pointers. *)
Definition call_list (c : call) s : result (answer * store) :=
  match c with
  | Init x => s ← rt_list_init x s; Ok (Done, s)
  | InsertAfter x t => s ← rt_list_insert_after x (inr t) s; Ok (Done, s)
  | InsertBefore x t => s ← rt_list_insert_before x (inr t) s; Ok (Done, s)
  | Remove t => s ← rt_list_remove (inr t) s; Ok (Done, s)
  | IsEmpty x => b ← rt_list_isempty x s; Ok (Bool b, s)
  | Len a => z ← rt_list_len (inl a) s; Ok (Num z, s)
  | First a => x ← rt_list_first (inl a) s; Ok (Ptr x, s)
  | ForEach a => l ← rt_list_for_each (inl a) s; Ok (Ptrs l, s)
  end.
Fixpoint call_lists (cs : list call) s : result (list answer * store) :=
  match cs with
  | [] => Ok ([], s)
  | c :: cs => '(r, s) ← call_list c s; '(rs, s) ← call_lists cs s; Ok (r :: rs, s)
  end.

(** The specification: the lists by their heads, and the nodes that can be linked. *)
Record lists := mk_lists { heads : gmap H (list N); nodes : gset N }.
Implicit Types m : gmap H (list N).

Definition unlinked t m : bool := bool_decide (map_Forall (fun _ l => t ∉ l) m).
Definition put_after u t l : list N := l ≫= (fun y => if decide (y = u) then [y; t] else [y]).
Definition put_before u t l : list N := l ≫= (fun y => if decide (y = u) then [t; y] else [y]).
Definition members a m : result (list N) := match m !! a with Some l => Ok l | None => Fault OutOfBounds end.

(** A node that is to be linked is initialised and in no list; the node it is put
    next to is in one. *)
Definition spec_insert (f : list N -> list N) (g : N -> list N -> list N) (x : object) t (ls : lists)
    : result (answer * lists) :=
  if bool_decide (t ∈ nodes ls) && unlinked t (heads ls) then
    match x with
    | inl a => l ← members a (heads ls); Ok (Done, mk_lists (<[a := f l]> (heads ls)) (nodes ls))
    | inr u => if unlinked u (heads ls) then Fault ListCorrupted else Ok (Done, mk_lists (g u <$> heads ls) (nodes ls))
    end
  else Fault ListCorrupted.

(** [objects] are the objects there are. *)
Definition spec_call (objects : gset object) (c : call) (ls : lists) : result (answer * lists) :=
  match c with
  | Init x =>
      if bool_decide (x ∈ objects) then
        match x with
        | inl a => if default true (l ← heads ls !! a; Some (bool_decide (l = [])))
                   then Ok (Done, mk_lists (<[a := []]> (heads ls)) (nodes ls)) else Fault ListCorrupted
        | inr t => if unlinked t (heads ls) then Ok (Done, mk_lists (heads ls) ({[t]} ∪ nodes ls)) else Fault ListCorrupted
        end
      else Fault OutOfBounds
  | InsertAfter x t => spec_insert (cons t) (fun u => put_after u t) x t ls
  | InsertBefore x t => spec_insert (fun l => l ++ [t]) (fun u => put_before u t) x t ls
  | Remove t =>
      if bool_decide (t ∈ nodes ls) then Ok (Done, mk_lists (filter (fun u => u <> t) <$> heads ls) (nodes ls))
      else Fault OutOfBounds
  | IsEmpty (inl a) => l ← members a (heads ls); Ok (Bool (bool_decide (l = [])), ls)
  | IsEmpty (inr t) => if bool_decide (t ∈ nodes ls) then Ok (Bool (unlinked t (heads ls)), ls) else Fault OutOfBounds
  | Len a => l ← members a (heads ls); Ok (Num (u32 (Z.of_nat (length l))), ls)
  | First a => l ← members a (heads ls); Ok (Ptr (default (inl a) (inr <$> head l)), ls)
  | ForEach a => l ← members a (heads ls); Ok (Ptrs (inr <$> l), ls)
  end.
Fixpoint spec_calls (objects : gset object) (cs : list call) (ls : lists) : result (list answer * lists) :=
  match cs with
  | [] => Ok ([], ls)
  | c :: cs => '(r, ls) ← spec_call objects c ls; '(rs, ls) ← spec_calls objects cs ls; Ok (r :: rs, ls)
  end.

(** The pointers represent the lists. *)
Record represents s (objects : gset object) (ls : lists) : Prop := mk_represents {
  rp_dom : dom s = objects;
  rp_ring : forall a l, heads ls !! a = Some l -> ring s (inl a) (inr <$> l);
  rp_nodes : forall a l t, heads ls !! a = Some l -> t ∈ l -> t ∈ nodes ls;
  rp_once : forall a b l k t, heads ls !! a = Some l -> heads ls !! b = Some k -> t ∈ l -> t ∈ k -> a = b;
  rp_free : forall t, t ∈ nodes ls -> unlinked t (heads ls) = true -> ring s (inr t) [] }.

Lemma unlinked_iff t m : unlinked t m = true <-> forall a l, m !! a = Some l -> t ∉ l.
Proof. unfold unlinked. rewrite bool_decide_eq_true. done. Qed.
Lemma linked_iff t m : unlinked t m = false <-> exists a l, m !! a = Some l /\ t ∈ l.
Proof.
  unfold unlinked. rewrite bool_decide_eq_false. split.
  - intros Hn. apply map_not_Forall in Hn as (a & l & E & Ht); [|solve_decision].
    exists a, l. split; [done|]. by apply dec_stable.
  - intros (a & l & E & Ht) Hf. by apply (Hf a l E).
Qed.

Lemma put_after_out u t l : u ∉ l -> put_after u t l = l.
Proof.
  unfold put_after. induction l as [|y l IH]; [done|]. intros [Hy Hl]%not_elem_of_cons. cbn.
  rewrite decide_False by done. cbn. f_equal. by apply IH.
Qed.
Lemma put_before_out u t l : u ∉ l -> put_before u t l = l.
Proof.
  unfold put_before. induction l as [|y l IH]; [done|]. intros [Hy Hl]%not_elem_of_cons. cbn.
  rewrite decide_False by done. cbn. f_equal. by apply IH.
Qed.
Lemma put_after_at u t l1 l2 : u ∉ l1 -> u ∉ l2 -> put_after u t (l1 ++ u :: l2) = l1 ++ u :: t :: l2.
Proof.
  intros ??. unfold put_after. rewrite bind_app, bind_cons, decide_True by done. fold (put_after u t l1) (put_after u t l2).
  by rewrite !put_after_out.
Qed.
Lemma put_before_at u t l1 l2 : u ∉ l1 -> u ∉ l2 -> put_before u t (l1 ++ u :: l2) = l1 ++ t :: u :: l2.
Proof.
  intros ??. unfold put_before. rewrite bind_app, bind_cons, decide_True by done. fold (put_before u t l1) (put_before u t l2).
  by rewrite !put_before_out.
Qed.

Lemma elem_of_ring a l t : inr t ∈ inl a :: (inr <$> l : list object) <-> t ∈ l.
Proof. rewrite elem_of_cons, list_elem_of_fmap. naive_solver. Qed.

(** Nothing is in two lists. *)
Lemma rp_apart s objects ls a b l k x :
  represents s objects ls -> heads ls !! a = Some l -> heads ls !! b = Some k -> a <> b ->
  x ∈ inl a :: (inr <$> l : list object) -> x ∉ inl b :: (inr <$> k : list object).
Proof.
  intros R Ea Eb Hn Hx Hx'. destruct x as [c|t].
  - apply elem_of_cons in Hx as [[= ->]|Hx%list_elem_of_fmap]; [|naive_solver].
    apply elem_of_cons in Hx' as [[= ->]|Hx'%list_elem_of_fmap]; [done|naive_solver].
  - apply elem_of_ring in Hx, Hx'. by apply Hn, (rp_once _ _ _ R a b l k t).
Qed.

(** A change of one list by one node. *)
Lemma rp_change s s' objects ls c l l' t :
  represents s objects ls -> heads ls !! c = Some l -> t ∈ nodes ls ->
  (unlinked t (heads ls) = true \/ t ∈ l) ->
  (forall u, u ∈ l' -> u = t \/ u ∈ l) -> (forall u, u ∈ l -> u = t \/ u ∈ l') -> dom s' = dom s ->
  (forall x, x ∉ inl c :: (inr <$> l : list object) -> x <> inr t -> nx s' x = nx s x /\ pv s' x = pv s x) ->
  ring s' (inl c) (inr <$> l') -> (t ∉ l' -> ring s' (inr t) []) ->
  represents s' objects (mk_lists (<[c := l']> (heads ls)) (nodes ls)).
Proof.
  intros R Ec Ht Htl H1 H2 Hd Hf Hr Hfree.
  assert (forall a k, a <> c -> heads ls !! a = Some k -> t ∉ k) as Hout.
  { intros a k Ha Ek Hk. destruct Htl as [Hu|Hl]; [by eapply unlinked_iff|]. by apply Ha, (rp_once _ _ _ R a c k l t). }
  assert (forall a k, <[c := l']> (heads ls) !! a = Some k -> (a = c /\ k = l') \/ (a <> c /\ heads ls !! a = Some k)) as Hl.
  { intros a k. destruct (decide (a = c)) as [->|Ha]; [rewrite lookup_insert_eq; naive_solver|rewrite lookup_insert_ne by done; by right]. }
  split; cbn [heads nodes].
  - rewrite Hd. apply R.
  - intros a k [[-> ->]|[Ha Ek]]%Hl; [done|]. apply (ring_frame s); [|by apply R]. intros x Hx. apply Hf.
    + by eapply rp_apart.
    + intros ->. apply elem_of_ring in Hx. by apply (Hout a k).
  - intros a k u [[-> ->]|[Ha Ek]]%Hl Hu; [|by eapply rp_nodes]. destruct (H1 u Hu) as [->|]; [done|by eapply rp_nodes].
  - intros a b k k' u [[-> ->]|[Ha Ek]]%Hl [[-> ->]|[Hb Ek']]%Hl Hu Hu'; [done| | |by eapply rp_once].
    + destruct (H1 u Hu) as [->|]; [by destruct (Hout b k')|by apply (rp_once _ _ _ R c b l k' u)].
    + destruct (H1 u Hu') as [->|]; [by destruct (Hout a k)|by apply (rp_once _ _ _ R a c k l u)].
  - intros u Hu Hun. rewrite unlinked_iff in Hun. pose proof (Hun c l' (lookup_insert_eq _ _ _)) as Hul.
    destruct (decide (u = t)) as [->|Hut]; [by apply Hfree|].
    assert (unlinked u (heads ls) = true) as Hun'.
    { apply unlinked_iff. intros a k Ek Huk. destruct (decide (a = c)) as [->|Ha].
      - rewrite Ec in Ek. injection Ek as <-. by destruct (H2 u Huk).
      - apply (Hun a k); [by rewrite lookup_insert_ne|done]. }
    apply (ring_frame s); [|by apply R]. intros x ->%list_elem_of_singleton. apply Hf; [|congruence].
    rewrite elem_of_ring. by eapply unlinked_iff.
Qed.

Lemma rp_insert s objects ls c l1 l2 t (a b : object) s' :
  represents s objects ls -> heads ls !! c = Some (l1 ++ l2) -> t ∈ nodes ls -> unlinked t (heads ls) = true ->
  between (inl c) (inr <$> l1) (inr <$> l2) a b -> spliced a (inr t) b s s' ->
  represents s' objects (mk_lists (<[c := l1 ++ t :: l2]> (heads ls)) (nodes ls)).
Proof.
  intros R Ec Ht Hu B S. pose proof (rp_ring _ _ _ R c _ Ec) as Rg. rewrite fmap_app in Rg.
  destruct (ring_between _ _ _ _ _ _ Rg B) as (_ & Ha & Hb).
  apply (rp_change s s' objects ls c (l1 ++ l2) _ t); try done; [by left|set_solver..| | | |].
  - apply S.
  - intros x Hx Hxt. rewrite fmap_app in Hx. destruct S as (_ & -> & ->).
    by rewrite !decide_False by (done || intros ->; done).
  - rewrite fmap_app, fmap_cons. eapply ring_splice; try done.
    rewrite <- fmap_app, elem_of_ring. by eapply unlinked_iff.
  - intros Hn. set_solver.
Qed.

(** Where a node is inserted: the pointers next to it can be followed. *)
Lemma insert_place s objects ls c l1 l2 t :
  represents s objects ls -> heads ls !! c = Some (l1 ++ l2) -> t ∈ nodes ls -> unlinked t (heads ls) = true ->
  exists a b : object, between (inl c) (inr <$> l1) (inr <$> l2) a b /\ linked s a b /\ inr t ∈ dom s /\ inr t <> a /\ inr t <> b.
Proof.
  intros R Ec Ht Hu. pose proof (rp_ring _ _ _ R c _ Ec) as Rg. rewrite fmap_app in Rg.
  destruct (between_ex (inl c) (inr <$> l1) (inr <$> l2 : list object)) as (a & b & B). exists a, b.
  destruct (ring_between _ _ _ _ _ _ Rg B) as (L & Ha & Hb). rewrite <- fmap_app in Ha, Hb.
  assert (inr t ∉ inl c :: (inr <$> l1 ++ l2 : list object)) as Hn by (rewrite elem_of_ring; by eapply unlinked_iff).
  split_and!; [done|done| |intros E; by rewrite <- E in Ha|intros E; by rewrite <- E in Hb].
  eapply ring_dom; [by apply (rp_free _ _ _ R t)|by left].
Qed.

Lemma rp_remove s objects ls c l1 l2 t (a b : object) s' :
  represents s objects ls -> heads ls !! c = Some (l1 ++ t :: l2) ->
  between (inl c) (inr <$> l1) (inr <$> l2) a b -> removed a (inr t) b s s' ->
  represents s' objects (mk_lists (<[c := l1 ++ l2]> (heads ls)) (nodes ls)).
Proof.
  intros R Ec B S. pose proof (rp_ring _ _ _ R c _ Ec) as Rg. rewrite fmap_app, fmap_cons in Rg.
  destruct (ring_unsplice _ _ _ _ _ _ _ _ Rg B S) as [R1 R2].
  assert (t ∈ l1 ++ t :: l2) as Ht by (apply elem_of_app; right; by left).
  apply (rp_change s s' objects ls c (l1 ++ t :: l2) _ t); try done; [by eapply rp_nodes|by right|set_solver..| | |].
  - apply S.
  - intros x Hx Hxt. destruct S as (_ & -> & ->). destruct B as [Ba Bb].
    assert (x <> a /\ x <> b) as [??].
    { split; intros ->; apply Hx; rewrite fmap_app, fmap_cons.
      - apply last_Some_elem_of in Ba. set_solver.
      - apply head_Some_elem_of in Bb. set_solver. }
    by rewrite !decide_False.
  - by rewrite fmap_app.
Qed.

Lemma fmap_one (f : list N -> list N) m c l :
  m !! c = Some l -> (forall a k, a <> c -> m !! a = Some k -> f k = k) -> f <$> m = <[c := f l]> m.
Proof.
  intros Ec Hf. apply map_eq. intros a. rewrite lookup_fmap. destruct (decide (a = c)) as [->|Ha].
  - by rewrite lookup_insert_eq, Ec.
  - rewrite lookup_insert_ne by done. destruct (m !! a) as [k|] eqn:Ek; [|done]. cbn. by rewrite (Hf a k).
Qed.

(** A linked node lies in one list, once. *)
Lemma linked_place s objects ls u :
  represents s objects ls -> unlinked u (heads ls) = false ->
  exists c l1 l2, heads ls !! c = Some (l1 ++ u :: l2) /\ u ∉ l1 /\ u ∉ l2 /\
    forall a k, a <> c -> heads ls !! a = Some k -> u ∉ k.
Proof.
  intros R (c & l & Ec & Hu)%linked_iff. apply list_elem_of_split in Hu as (l1 & l2 & ->). exists c, l1, l2.
  destruct (rp_ring _ _ _ R c _ Ec) as [[_ Nd]%NoDup_cons _]. apply NoDup_fmap in Nd; [|apply _].
  apply NoDup_app in Nd as (_ & N1 & N2). apply NoDup_cons in N2 as [N2 _]. split_and!; try done.
  - intros Hin. apply (N1 u Hin). by left.
  - intros a k Ha Ek Hk. apply Ha, (rp_once _ _ _ R a c k (l1 ++ u :: l2) u); try done. apply elem_of_app. right. by left.
Qed.

Lemma insert_after_ok s objects ls x t r ls' :
  represents s objects ls -> spec_insert (cons t) (fun u => put_after u t) x t ls = Ok (r, ls') ->
  exists s', call_list (InsertAfter x t) s = Ok (r, s') /\ represents s' objects ls'.
Proof.
  intros R. unfold spec_insert. destruct (bool_decide _ && _) eqn:Hc; [|done].
  apply andb_prop in Hc as [Ht%bool_decide_eq_true Hu]. cbn [call_list]. destruct x as [c|u].
  - unfold members. destruct (heads ls !! c) as [l|] eqn:Ec; [|done]. intros [= <- <-].
    destruct (insert_place s objects ls c [] l t R Ec Ht Hu) as (a & b & B & L & Hd & Ha & Hb).
    destruct (rt_list_insert_after_ok _ _ _ _ L Hd Ha Hb) as (s' & E & S). destruct B as [Ba Bb]. injection Ba as <-.
    exists s'. rewrite E. split; [done|]. by eapply (rp_insert _ _ _ c [] l).
  - destruct (unlinked u (heads ls)) eqn:Hl; [done|]. intros [= <- <-].
    destruct (linked_place _ _ _ _ R Hl) as (c & l1 & l2 & Ec & N1 & N2 & Ho).
    rewrite (fmap_one _ _ c _ Ec) by (intros a k ??; by eapply put_after_out, Ho). rewrite put_after_at by done.
    rewrite cons_middle in Ec. rewrite (cons_middle u), app_assoc.
    rewrite app_assoc in Ec. destruct (insert_place s objects ls c (l1 ++ [u]) l2 t R Ec Ht Hu) as (a & b & B & L & Hd & Ha & Hb).
    destruct (rt_list_insert_after_ok _ _ _ _ L Hd Ha Hb) as (s' & E & S).
    assert (a = inr u) as ->. { destruct B as [Ba _]. rewrite fmap_app, app_comm_cons in Ba. change (inr <$> [u]) with [@inr H N u] in Ba.
      rewrite last_snoc in Ba. by injection Ba. }
    exists s'. rewrite E. split; [done|]. by eapply rp_insert.
Qed.

Lemma insert_before_ok s objects ls x t r ls' :
  represents s objects ls -> spec_insert (fun l => l ++ [t]) (fun u => put_before u t) x t ls = Ok (r, ls') ->
  exists s', call_list (InsertBefore x t) s = Ok (r, s') /\ represents s' objects ls'.
Proof.
  intros R. unfold spec_insert. destruct (bool_decide _ && _) eqn:Hc; [|done].
  apply andb_prop in Hc as [Ht%bool_decide_eq_true Hu]. cbn [call_list]. destruct x as [c|u].
  - unfold members. destruct (heads ls !! c) as [l|] eqn:Ec; [|done]. intros [= <- <-].
    rewrite <- (app_nil_r l) in Ec. destruct (insert_place s objects ls c l [] t R Ec Ht Hu) as (a & b & B & L & Hd & Ha & Hb).
    destruct (rt_list_insert_before_ok _ _ _ _ L Hd Ha Hb) as (s' & E & S). pose proof B as [_ Bb]. injection Bb as <-.
    exists s'. rewrite E. split; [done|]. by eapply (rp_insert _ _ _ c l []).
  - destruct (unlinked u (heads ls)) eqn:Hl; [done|]. intros [= <- <-].
    destruct (linked_place _ _ _ _ R Hl) as (c & l1 & l2 & Ec & N1 & N2 & Ho).
    rewrite (fmap_one _ _ c _ Ec) by (intros a k ??; by eapply put_before_out, Ho). rewrite put_before_at by done.
    destruct (insert_place s objects ls c l1 (u :: l2) t R Ec Ht Hu) as (a & b & B & L & Hd & Ha & Hb).
    destruct (rt_list_insert_before_ok _ _ _ _ L Hd Ha Hb) as (s' & E & S). pose proof B as [_ Bb]. injection Bb as <-.
    exists s'. rewrite E. split; [done|]. by eapply rp_insert.
Qed.

Lemma del_out t l : t ∉ l -> filter (fun u => u <> t) l = l.
Proof.
  induction l as [|u l IH]; [done|]. intros [Hu Hl]%not_elem_of_cons. rewrite filter_cons_True by done. by rewrite IH.
Qed.

Lemma remove_ok s objects ls t :
  represents s objects ls -> t ∈ nodes ls ->
  exists s', rt_list_remove (inr t) s = Ok s' /\
    represents s' objects (mk_lists (filter (fun u => u <> t) <$> heads ls) (nodes ls)).
Proof.
  intros R Ht. destruct (unlinked t (heads ls)) eqn:Hu.
  - destruct (rp_free _ _ _ R t Ht Hu) as [_ [L _]].
    destruct (rt_list_remove_ok _ _ _ _ L L) as (s' & E & D & Hx & Hp); [done|]. exists s'. split; [done|].
    assert (filter (fun u => u <> t) <$> heads ls = heads ls) as ->.
    { apply map_eq. intros a. rewrite lookup_fmap. destruct (heads ls !! a) as [k|] eqn:Ek; [|done]. cbn.
      rewrite del_out; [done|]. by eapply unlinked_iff. }
    assert (forall x, nx s' x = nx s x /\ pv s' x = pv s x) as Hsame.
    { intros x. rewrite Hx, Hp. destruct L as [L1 L2]. split; repeat case_decide; congruence. }
    destruct R as [R1 R2 R3 R4 R5]. split; try done; [congruence|..].
    + intros a l Ea. apply (ring_frame s); [by intros|by apply R2].
    + intros u ??. apply (ring_frame s); [by intros|by apply R5].
  - destruct (linked_place _ _ _ _ R Hu) as (c & l1 & l2 & Ec & N1 & N2 & Ho).
    rewrite (fmap_one _ _ c _ Ec) by (intros a k ??; by eapply del_out, Ho).
    rewrite filter_app, filter_cons_False, !del_out by (done || tauto).
    destruct (between_ex (inl c) (inr <$> l1) (inr <$> l2 : list object)) as (a & b & B).
    assert (linked s a (inr t) /\ linked s (inr t) b /\ a <> inr t /\ b <> inr t) as (La & Lb & Ha & Hb).
    { pose proof (rp_ring _ _ _ R c _ Ec) as Rg. pose proof (proj1 Rg) as Nd. rewrite fmap_app, fmap_cons in Rg, Nd.
      destruct (ring_between s (inl c) (inr <$> l1) (inr t :: (inr <$> l2)) a (inr t) Rg) as (L1 & _); [by split; [apply B|]|].
      rewrite cons_middle, app_assoc in Rg.
      destruct (ring_between s (inl c) ((inr <$> l1) ++ [inr t]) (inr <$> l2) (inr t) b Rg) as (L2 & _).
      { split; [|apply B]. by rewrite app_comm_cons, last_snoc. }
      split_and!; try done; intros ->; destruct B as [Ba Bb].
      - apply last_Some_elem_of in Ba. by rewrite elem_of_ring in Ba.
      - apply head_Some_elem_of, elem_of_app in Bb as [Bb|Bb%list_elem_of_singleton]; [|done].
        apply list_elem_of_fmap in Bb as (y & [= <-] & ?). done. }
    destruct (rt_list_remove_ok _ _ _ _ La Lb) as (s' & E & S); [done|]. exists s'. split; [done|]. by eapply rp_remove.
Qed.

Lemma list_init_ok s objects ls x r ls' :
  represents s objects ls -> spec_call objects (Init x) ls = Ok (r, ls') ->
  exists s', call_list (Init x) s = Ok (r, s') /\ represents s' objects ls'.
Proof.
  intros R. cbn [spec_call call_list]. case_bool_decide as Hx; [|done].
  destruct (rt_list_init_ok x s) as (s' & E & D & Hn & Hp); [by rewrite (rp_dom _ _ _ R)|]. rewrite E. cbn [mbind result_bind].
  assert (ring s' x []) as Rx by (split; [apply NoDup_singleton|]; split; [split; by rewrite ?Hn, ?Hp, decide_True|done]).
  assert (forall (h : object) (l : list object), x ∉ h :: l -> ring s h l -> ring s' h l) as Hf.
  { intros h l Ho. apply ring_frame. intros p Hin. rewrite Hn, Hp. by rewrite !decide_False by (intros ->; done). }
  destruct R as [R1 R2 R3 R4 R5]. destruct x as [a|t].
  - destruct (default _ _) eqn:Ha; [|done]. intros [= <- <-]. exists s'. split; [done|].
    assert (forall b l, <[a := []]> (heads ls) !! b = Some l -> (b = a /\ l = []) \/ (b <> a /\ heads ls !! b = Some l)) as Hl.
    { intros b l. destruct (decide (b = a)) as [->|Hb]; [rewrite lookup_insert_eq; naive_solver|rewrite lookup_insert_ne by done; by right]. }
    assert (forall l, heads ls !! a = Some l -> l = []) as Hempty.
    { intros l El. rewrite El in Ha. by apply bool_decide_eq_true in Ha. }
    split; cbn [heads nodes]; [congruence|..].
    + intros b l [[-> ->]|[Hb El]]%Hl; [done|]. apply Hf; [|by apply R2]. intros [[= ->]|Hin%list_elem_of_fmap]%elem_of_cons; naive_solver.
    + intros b l u [[-> ->]|[Hb El]]%Hl Hu; [by apply elem_of_nil in Hu|by eapply R3].
    + intros b c l k u [[-> ->]|[Hb El]]%Hl [[-> ->]|[Hc Ek]]%Hl Hu Hu'; try (by apply elem_of_nil in Hu || by apply elem_of_nil in Hu').
      by eapply R4.
    + intros u Hu Hun. apply Hf; [by intros Hin%list_elem_of_singleton|]. apply R5; [done|]. apply unlinked_iff. intros b l El Hin.
      rewrite unlinked_iff in Hun. destruct (decide (b = a)) as [->|Hb].
      * by rewrite (Hempty l El), elem_of_nil in Hin.
      * apply (Hun b l); [by rewrite lookup_insert_ne|done].
  - destruct (unlinked t (heads ls)) eqn:Hu; [|done]. intros [= <- <-]. exists s'. split; [done|].
    split; cbn [heads nodes]; [congruence| | |done|].
    + intros a l El. apply Hf; [|by apply R2]. rewrite elem_of_ring. by eapply unlinked_iff.
    + intros a l u El Hin. apply elem_of_union_r. by eapply R3.
    + intros u [->%elem_of_singleton|Hin]%elem_of_union Hun; [done|]. destruct (decide (u = t)) as [->|Hn']; [done|].
      apply Hf; [by intros [= ->]%list_elem_of_singleton|by apply R5].
Qed.

(** One call. *)
Lemma call_refines s objects ls c r ls' :
  represents s objects ls -> spec_call objects c ls = Ok (r, ls') ->
  exists s', call_list c s = Ok (r, s') /\ represents s' objects ls'.
Proof.
  intros R. destruct c as [x|x t|x t|t|x|a|a|a]; [by apply list_init_ok|by apply insert_after_ok|by apply insert_before_ok|..];
    cbn [spec_call call_list].
  - case_bool_decide as Ht; [|done]. intros [= <- <-]. destruct (remove_ok _ _ _ _ R Ht) as (s' & -> & R'). by exists s'.
  - destruct x as [a|t].
    + unfold members. destruct (heads ls !! a) as [l|] eqn:El; [|done]. intros [= <- <-]. exists s. split; [|done].
      rewrite (rt_list_isempty_ring _ _ _ (rp_ring _ _ _ R a l El)). cbn. do 3 f_equal. apply bool_decide_ext. by destruct l.
    + case_bool_decide as Ht; [|done]. intros [= <- <-]. exists s. split; [|done]. destruct (unlinked t (heads ls)) eqn:Hu.
      * by rewrite (rt_list_isempty_ring _ _ _ (rp_free _ _ _ R t Ht Hu)).
      * apply linked_iff in Hu as (a & l & El & Hin).
        rewrite (rt_list_isempty_linked _ _ _ (inr t) (rp_ring _ _ _ R a l El)) by (apply list_elem_of_fmap; by exists t). done.
  - unfold members. destruct (heads ls !! a) as [l|] eqn:El; [|done]. intros [= <- <-]. exists s. split; [|done].
    by rewrite (rt_list_len_ring _ _ _ (rp_ring _ _ _ R a l El)), length_fmap.
  - unfold members. destruct (heads ls !! a) as [l|] eqn:El; [|done]. intros [= <- <-]. exists s. split; [|done].
    rewrite (rt_list_first_ring _ _ _ (rp_ring _ _ _ R a l El)). by destruct l.
  - unfold members. destruct (heads ls !! a) as [l|] eqn:El; [|done]. intros [= <- <-]. exists s. split; [|done].
    by rewrite (rt_list_for_each_ring _ _ _ (rp_ring _ _ _ R a l El)).
Qed.

Lemma calls_refine cs s objects ls rs ls' :
  represents s objects ls -> spec_calls objects cs ls = Ok (rs, ls') ->
  exists s', call_lists cs s = Ok (rs, s') /\ represents s' objects ls'.
Proof.
  revert s ls rs. induction cs as [|c cs IH]; intros s ls rs R; cbn [spec_calls call_lists].
  - intros [= <- <-]. by exists s.
  - intros ([r ls1] & E1 & ([rs1 ls2] & E2 & [= <- <-])%bind_Ok)%bind_Ok.
    destruct (call_refines _ _ _ _ _ _ R E1) as (s1 & -> & R1). cbn [mbind result_bind].
    destruct (IH _ _ _ R1 E2) as (s2 & -> & R2). by exists s2.
Qed.

Lemma represents_nothing s : represents s (dom s) (mk_lists ∅ ∅).
Proof.
  split; cbn; [done|by intros ??; rewrite lookup_empty|by intros ???; rewrite lookup_empty|
  by intros ?????; rewrite lookup_empty|set_solver].
Qed.

(** C34: On a memory with any contents, every sequence of calls that keeps to the
    rules of the specification (an object is initialised before it is used, a node
    is linked into one list at a time, a head is not initialised again while its
    list has members) runs on the pointers without a fault and without an endless
    walk, gives the answers of the sequences, and leaves rings that represent
    them: the members in order, each with the right neighbours, nothing in two
    lists, every removed node pointing to itself. *)
Theorem list_calls_refine (s : store) (cs : list call) (rs : list answer) (ls : lists) :
  spec_calls (dom s) cs (mk_lists ∅ ∅) = Ok (rs, ls) ->
  exists s', call_lists cs s = Ok (rs, s') /\ represents s' (dom s) ls.
Proof. apply calls_refine, represents_nothing. Qed.
End Lists.

(** A run with two lists and all calls, from pointers that all go to one object. *)
Definition example_store : gmap (nat + nat) (rt_list_node (nat + nat)) :=
  gset_to_gmap (mk_node (inl 0%nat) (inl 0%nat)) (list_to_set (map inl (seq 0 2) ++ map inr (seq 0 4))).
Definition example_calls : list (call (H := nat) (N := nat)) :=
  map (fun i => Init (inl i)) (seq 0 2) ++ map (fun i => Init (inr i)) (seq 0 4) ++
  [InsertBefore (inl 0) 0; InsertAfter (inl 0) 1; InsertBefore (inr 0) 2; InsertAfter (inr 0) 3; ForEach 0; Len 0;
   Remove 2; IsEmpty (inr 2); InsertBefore (inl 1) 2; Remove 1; First 0; IsEmpty (inl 0); ForEach 0; ForEach 1]%nat.

Lemma list_calls_refine_witness :
  exists s' ls, call_lists example_calls example_store =
    Ok (replicate 10 Done ++ [Ptrs (map inr [1; 2; 0; 3]%nat); Num 4; Done; Bool true; Done; Done; Ptr (inr 0%nat);
        Bool false; Ptrs (map inr [0; 3]%nat); Ptrs [inr 2%nat]], s') /\ represents s' (dom example_store) ls.
Proof.
  destruct (spec_calls (dom example_store) example_calls (mk_lists ∅ ∅)) as [[rs ls]|] eqn:E; [|vm_compute in E; discriminate].
  destruct (list_calls_refine example_store example_calls rs ls E) as (s' & Es & R). exists s', ls. split; [|done].
  rewrite Es. vm_compute in E. injection E as <- _. reflexivity.
Defined.

(** ** The lists of the scheduler

    Thread works on the sequences: its operations are those of the specification,
    for threads whose nodes are initialised. *)
Section Kernel.
Import Thread.
Implicit Types (k : kernel) (ns : gset nat) (objects : gset (Thread.head + nat)).

Definition of_kernel ns k : KList.lists := mk_lists (Thread.lists k) ns.

Lemma kernel_link (f : list nat -> list nat) (g : nat -> list nat -> list nat) a t k k' ns :
  link f a t k = Ok k' -> t ∈ ns ->
  spec_insert f g (inl a) t (of_kernel ns k) = Ok (Done, of_kernel ns k').
Proof.
  unfold link, get_list, spec_insert, of_kernel, KList.members. cbn [heads nodes]. intros E Ht.
  rewrite bool_decide_true by done. destruct (Thread.lists k !! a) as [l|]; [|done]. cbn [mbind result_bind] in *.
  change (KList.unlinked t (Thread.lists k)) with (Thread.unlinked t k). destruct (Thread.unlinked t k); [|done]. by injection E as <-.
Qed.
Lemma kernel_insert_before objects a t k k' ns :
  Thread.rt_list_insert_before a t k = Ok k' -> t ∈ ns ->
  spec_call objects (InsertBefore (inl a) t) (of_kernel ns k) = Ok (Done, of_kernel ns k').
Proof. apply kernel_link. Qed.
Lemma kernel_insert_after objects a t k k' ns :
  Thread.rt_list_insert_after a t k = Ok k' -> t ∈ ns ->
  spec_call objects (InsertAfter (inl a) t) (of_kernel ns k) = Ok (Done, of_kernel ns k').
Proof. apply kernel_link. Qed.
Lemma kernel_remove objects t k ns :
  t ∈ ns -> spec_call objects (Remove t) (of_kernel ns k) = Ok (Done, of_kernel ns (Thread.rt_list_remove t k)).
Proof. intros Ht. cbn [spec_call of_kernel nodes]. by rewrite bool_decide_true. Qed.
Lemma kernel_isempty objects a k b ns :
  Thread.rt_list_isempty a k = Ok b -> spec_call objects (IsEmpty (inl a)) (of_kernel ns k) = Ok (Bool b, of_kernel ns k).
Proof.
  unfold Thread.rt_list_isempty, get_list. cbn [spec_call of_kernel heads]. unfold KList.members.
  destruct (Thread.lists k !! a); [|done]. by intros [= <-].
Qed.
End Kernel.
End KList.

(** * Singly linked lists *)
Module SList.
Section Store.
Context {P : Type} `{EqDecision P, !Countable P}.

(** The [next] pointers; [None] is [RT_NULL]. *)
Notation store := (gmap P (option P)).
Implicit Types (s : store) (h n x : P) (l : list P).

Definition next x s : result (option P) := match s !! x with Some v => Ok v | None => Fault OutOfBounds end.
Definition set_next x v s : result store := _ ← next x s; Ok (<[x := v]> s).

Definition rt_slist_init h s : result store := set_next h None s.

(** [while (node->next) node = node->next;] *)
Fixpoint tail_loop (fuel : nat) node s : result P :=
  match fuel with
  | O => Fault OutOfFuel
  | S fuel => v ← next node s; match v with Some x => tail_loop fuel x s | None => Ok node end
  end.
Definition rt_slist_tail h s : result P := tail_loop (S (size s)) h s.
Definition rt_slist_append h n s : result store :=
  node ← tail_loop (S (size s)) h s;
  s ← set_next node (Some n) s;
  set_next n None s.

Definition rt_slist_insert h n s : result store :=
  v ← next h s; s ← set_next n v s;
  set_next h (Some n) s.

Fixpoint slen_loop (fuel : nat) (len : Z) (v : option P) s : result Z :=
  match fuel with
  | O => Fault OutOfFuel
  | S fuel => match v with None => Ok len | Some x => v ← next x s; slen_loop fuel (u32 (len + 1)) v s end
  end.
Definition rt_slist_len h s : result Z := v ← next h s; slen_loop (S (size s)) 0 v s.

(** [while (node->next && node->next != n) node = node->next;] *)
Fixpoint find_loop (fuel : nat) node n s : result P :=
  match fuel with
  | O => Fault OutOfFuel
  | S fuel =>
      v ← next node s;
      match v with Some x => if bool_decide (x = n) then Ok node else find_loop fuel x n s | None => Ok node end
  end.
Definition rt_slist_remove h n s : result store :=
  node ← find_loop (S (size s)) h n s;
  v ← next node s;
  match v with Some x => w ← next x s; set_next node w s | None => Ok s end.

Definition rt_slist_first h s : result (option P) := next h s.
Definition rt_slist_next n s : result (option P) := next n s.
Definition rt_slist_isempty h s : result bool := v ← next h s; Ok (bool_decide (v = None)).

(** The objects [l] after [h], and nothing after them. *)
Fixpoint chain s h l : Prop :=
  match l with [] => s !! h = Some None | x :: l => s !! h = Some (Some x) /\ chain s x l end.
Definition slist s h l : Prop := NoDup (h :: l) /\ chain s h l.

Lemma next_ok x s v : s !! x = Some v -> next x s = Ok v.
Proof. unfold next. by intros ->. Qed.
Lemma sset_next_ok x s v : x ∈ dom s -> set_next x v s = Ok (<[x := v]> s).
Proof. intros [w E]%elem_of_dom. unfold set_next. by rewrite (next_ok _ _ _ E). Qed.

Lemma chain_head s h l : chain s h l -> s !! h = Some (head l).
Proof. destruct l; [done|]. by intros [? _]. Qed.
Lemma chain_next s h l : chain s h l -> next h s = Ok (head l).
Proof. intros C. by apply next_ok, chain_head. Qed.
Lemma chain_set s h l x v : chain s h l -> x ∉ h :: l -> chain (<[x := v]> s) h l.
Proof.
  revert h. induction l as [|y l IH]; intros h C Hx; cbn [chain] in *.
  - rewrite lookup_insert_ne; [done|]. intros ->. apply Hx. by left.
  - destruct C as [E C]. apply not_elem_of_cons in Hx as [Hh Hx]. by rewrite lookup_insert_ne; [split; [|apply IH]|].
Qed.
Lemma chain_dom s h l x : chain s h l -> x ∈ h :: l -> x ∈ dom s.
Proof.
  revert h. induction l as [|y l IH]; intros h C Hx; apply elem_of_cons in Hx as [->|Hx].
  - apply elem_of_dom. by eexists.
  - by apply elem_of_nil in Hx.
  - apply elem_of_dom. destruct C. by eexists.
  - by apply (IH y); [apply C|].
Qed.
Lemma slist_size s h l : slist s h l -> (length l < size s)%nat.
Proof.
  intros [Nd C]. rewrite <- (size_dom (D := gset P)). change (length (h :: l) <= size (dom s))%nat.
  rewrite <- (size_list_to_set (C := gset P)) by done. apply subseteq_size. intros x Hx%elem_of_list_to_set. by eapply chain_dom.
Qed.

Lemma tail_loop_ok fuel h s l :
  chain s h l -> (length l < fuel)%nat -> exists k t, tail_loop fuel h s = Ok t /\ h :: l = k ++ [t].
Proof.
  revert h l. induction fuel as [|fuel IH]; intros h l C Hf; [lia|]. cbn [tail_loop].
  rewrite (chain_next _ _ _ C). cbn [mbind result_bind]. destruct l as [|x l]; cbn [head length] in *.
  - by exists [], h.
  - destruct (IH x l) as (k & t & E & El); [apply C|lia|]. exists (h :: k), t. split; [done|]. cbn. by rewrite El.
Qed.

Lemma slist_init h s : h ∈ dom s -> exists s', rt_slist_init h s = Ok s' /\ slist s' h [].
Proof.
  intros Hh. unfold rt_slist_init. rewrite sset_next_ok by done. eexists. split; [done|].
  split; [apply NoDup_singleton|]. by apply lookup_insert_eq.
Qed.

Lemma chain_snoc s h l k t n :
  chain s h l -> NoDup (h :: l) -> h :: l = k ++ [t] -> n ∉ h :: l ->
  chain (<[n := None]> (<[t := Some n]> s)) h (l ++ [n]).
Proof.
  revert h k. induction l as [|x l IH]; intros h k C Nd E Hn; apply not_elem_of_cons in Hn as [Hh Hn].
  - destruct k as [|? [|]]; cbn in E; simplify_eq. split; [|apply lookup_insert_eq]. rewrite lookup_insert_ne by done. apply lookup_insert_eq.
  - destruct k as [|y k]; [done|]. injection E as -> E. apply NoDup_cons in Nd as [Hy Nd]. destruct C as [Ey C].
    split; [|by eapply IH]. rewrite lookup_insert_ne by done. rewrite lookup_insert_ne; [done|].
    intros ->. apply Hy. rewrite E. apply elem_of_app. right. by left.
Qed.
Lemma slist_append h n s l :
  slist s h l -> n ∈ dom s -> n ∉ h :: l -> exists s', rt_slist_append h n s = Ok s' /\ slist s' h (l ++ [n]).
Proof.
  intros L Hd Hn. pose proof (slist_size s h l L). destruct L as [Nd C].
  destruct (tail_loop_ok (S (size s)) h s l C) as (k & t & E & El); [lia|]. unfold rt_slist_append. rewrite E. cbn [mbind result_bind].
  assert (t ∈ h :: l) as Ht by (rewrite El; apply elem_of_app; right; by left).
  rewrite sset_next_ok by by eapply chain_dom. cbn [mbind result_bind].
  rewrite sset_next_ok by (rewrite dom_insert; apply elem_of_union_r; done). eexists. split; [done|]. split.
  - rewrite app_comm_cons, <- Permutation_cons_append. by apply NoDup_cons.
  - by eapply chain_snoc.
Qed.

Lemma slist_insert h n s l :
  slist s h l -> n ∈ dom s -> n ∉ h :: l -> exists s', rt_slist_insert h n s = Ok s' /\ slist s' h (n :: l).
Proof.
  intros [Nd C] Hd Hn. unfold rt_slist_insert. rewrite (chain_next _ _ _ C). cbn [mbind result_bind].
  rewrite sset_next_ok by done. cbn [mbind result_bind].
  assert (h ∈ dom s) as Hh by (eapply chain_dom; [done|by left]).
  rewrite sset_next_ok by (rewrite dom_insert; apply elem_of_union_r; done). eexists. split; [done|].
  apply NoDup_cons in Nd as [Hhl Nd]. apply not_elem_of_cons in Hn as [Hnh Hnl]. split.
  - apply NoDup_cons. split; [|by apply NoDup_cons]. by apply not_elem_of_cons.
  - split; [apply lookup_insert_eq|]. apply chain_set; [|by apply not_elem_of_cons].
    destruct l as [|x l]; cbn [chain head] in *; [apply lookup_insert_eq|].
    split; [apply lookup_insert_eq|]. by apply chain_set; [apply C|].
Qed.

Lemma slen_loop_ok fuel len h s l :
  chain s h l -> (length l < fuel)%nat -> slen_loop fuel (u32 len) (head l) s = Ok (u32 (len + Z.of_nat (length l))).
Proof.
  revert len h l. induction fuel as [|fuel IH]; intros len h l C Hf; [lia|]. cbn [slen_loop].
  destruct l as [|x l]; cbn [head length] in *; [by rewrite Z.add_0_r|]. destruct C as [_ C].
  rewrite (chain_next _ _ _ C). cbn [mbind result_bind].
  replace (u32 (u32 len + 1)) with (u32 (len + 1)) by (unfold u32; by rewrite Zplus_mod_idemp_l).
  rewrite (IH _ x) by (done || lia). do 2 f_equal. lia.
Qed.
Lemma slist_len h s l : slist s h l -> rt_slist_len h s = Ok (u32 (Z.of_nat (length l))).
Proof.
  intros L. pose proof (slist_size s h l L). destruct L as [_ C]. unfold rt_slist_len. rewrite (chain_next _ _ _ C).
  cbn [mbind result_bind]. change 0 with (u32 0) at 1. by rewrite (slen_loop_ok _ _ h) by (done || lia).
Qed.

Lemma find_loop_ok fuel h n s l :
  chain s h l -> (length l < fuel)%nat ->
  exists node, find_loop fuel h n s = Ok node /\
    ((n ∉ l /\ s !! node = Some None) \/ exists k l2, h :: l = k ++ node :: n :: l2).
Proof.
  revert h l. induction fuel as [|fuel IH]; intros h l C Hf; [lia|]. cbn [find_loop].
  rewrite (chain_next _ _ _ C). cbn [mbind result_bind]. destruct l as [|x l]; cbn [head length] in *.
  - exists h. split; [done|]. left. split; [by apply not_elem_of_nil|done].
  - case_bool_decide as Hx; [subst; exists h; split; [done|]; right; by exists [], l|].
    destruct (IH x l) as (node & E & H); [apply C|lia|]. exists node. split; [done|].
    destruct H as [[Hn El]|(k & l2 & El)]; [left|right].
    + by rewrite not_elem_of_cons.
    + exists (h :: k), l2. cbn. by rewrite El.
Qed.

Lemma chain_cut s h l k node n l2 :
  chain s h l -> NoDup (h :: l) -> h :: l = k ++ node :: n :: l2 ->
  s !! node = Some (Some n) /\ chain s n l2 /\ chain (<[node := head l2]> s) h (tail (k ++ node :: l2)).
Proof.
  revert h l. induction k as [|y k IH]; intros h l C Nd E; injection E as -> E; subst l.
  - destruct C as [E1 C2]. split_and!; [done|done|]. cbn [app tail].
    apply NoDup_cons in Nd as [Hn Nd]. destruct l2 as [|x l2]; cbn [head chain] in *; [apply lookup_insert_eq|].
    split; [apply lookup_insert_eq|]. apply chain_set; [apply C2|]. intros Hin. apply Hn. by right.
  - apply NoDup_cons in Nd as [Hy Nd]. cbn [app tail].
    assert (exists z r, k ++ node :: n :: l2 = z :: r /\ k ++ node :: l2 = z :: tail (k ++ node :: l2)) as (z & r & Ez & Ez')
      by (destruct k; do 2 eexists; done).
    rewrite Ez in C, Nd, Hy. destruct C as [Ey C]. destruct (IH z r C Nd (eq_sym Ez)) as (H1 & H2 & H3).
    split_and!; [done|done|]. rewrite Ez'. split; [|done]. rewrite lookup_insert_ne; [done|].
    intros ->. apply Hy. rewrite <- Ez. apply elem_of_app. right. by left.
Qed.
(** Removing an object that is not in the list changes nothing. *)
Lemma slist_remove h n s l :
  slist s h l -> exists s', rt_slist_remove h n s = Ok s' /\ slist s' h (filter (fun x => x <> n) l).
Proof.
  intros L. pose proof (slist_size s h l L). destruct L as [Nd C]. unfold rt_slist_remove.
  destruct (find_loop_ok (S (size s)) h n s l C) as (node & E & Hcase); [lia|]. rewrite E. cbn [mbind result_bind].
  destruct Hcase as [[Hn En]|(k & l2 & El)].
  - rewrite (next_ok _ _ _ En). cbn [mbind result_bind]. exists s. split; [done|].
    replace (filter _ l) with l; [done|]. clear -Hn. induction l as [|x l IH]; [done|].
    apply not_elem_of_cons in Hn as [Hx Hl]. rewrite filter_cons_True by done. by rewrite <- IH.
  - destruct (chain_cut s h l k node n l2 C Nd El) as (E1 & C2 & C3). rewrite (next_ok _ _ _ E1). cbn [mbind result_bind].
    rewrite (chain_next _ _ _ C2). cbn [mbind result_bind].
    rewrite sset_next_ok by (apply elem_of_dom; by eexists). eexists. split; [done|].
    assert (h :: filter (fun x => x <> n) l = k ++ node :: l2) as Ef.
    { assert (forall r : list P, n ∉ r -> filter (fun x => x <> n) r = r) as Hid.
      { induction r as [|x r IH]; [done|]. intros [Hx Hr]%not_elem_of_cons. rewrite filter_cons_True by done. by rewrite IH. }
      assert (NoDup ((k ++ [node]) ++ n :: l2)) as N' by (rewrite <- app_assoc; cbn [app]; by rewrite <- El).
      apply NoDup_app in N' as (_ & N1 & N2). apply NoDup_cons in N2 as [N2 _].
      assert (n ∉ k ++ [node]) as N3 by (intros Hin; apply (N1 n Hin); by left).
      destruct k as [|y k]; injection El as -> ->; cbn [app] in *.
      - rewrite filter_cons_False by tauto. by rewrite Hid.
      - f_equal. apply not_elem_of_cons in N3 as [_ N3].
        replace (k ++ node :: n :: l2) with ((k ++ [node]) ++ n :: l2) by by rewrite <- app_assoc.
        rewrite filter_app, filter_cons_False, !Hid by (done || tauto). by rewrite <- app_assoc. }
    split.
    + rewrite Ef. rewrite El in Nd. replace (k ++ node :: n :: l2) with ((k ++ [node]) ++ n :: l2) in Nd by by rewrite <- app_assoc.
      rewrite <- Permutation_middle, <- app_assoc in Nd. by apply NoDup_cons in Nd as [_ ?].
    + replace (filter _ l) with (tail (k ++ node :: l2)) by (by rewrite <- Ef). done.
Qed.
End Store.
End SList.
