(* ===== verification/Evolve.v ===== *)
(** * What the steps of the kernel leave alone

    Facts about every step at once: no step of the kernel adds a thread to a
    suspend list, and a thread that was woken stays runnable and keeps its
    error code.  Both are relations that each primitive change of the kernel
    respects; [Evolution] states the primitives, and the lemmas go through the
    operations once, for any such relation. *)

From stdpp Require Import functions fin_maps.
From S2P Require Import Prelude Timer Thread.

Module Evolve.
Import Timer Thread.

(** ** The relations *)

(** The suspend lists lose members, and their heads stay. *)
Definition shrinks (k k' : kernel) : Prop :=
  forall q, members (Waiting q) k' ⊆ members (Waiting q) k /\
            (is_Some (lists k !! Waiting q) -> is_Some (lists k' !! Waiting q)).

(** A change of a thread that takes neither its turn nor its answer. *)
Definition runs_on (th th' : rt_thread) : Prop :=
  (error th = RT_EOK -> error th' = RT_EOK) /\ (runnable th -> runnable th').

(** A thread without error, other than those of [X], stays without error and
    runnable, unless it was suspended and is on no suspend list any more. *)
Definition fair (X : nat -> Prop) (k k' : kernel) : Prop :=
  forall t, ~ X t -> error (thread k t) = RT_EOK ->
    runs_on (thread k t) (thread k' t) \/
    ~ runnable (thread k t) /\ forall q, t ∉ members (Waiting q) k'.
Definition evolves (X : nat -> Prop) (k k' : kernel) : Prop := shrinks k k' /\ fair X k k'.

Class Evolution (X : nat -> Prop) (R : kernel -> kernel -> Prop) := {
  ev_preorder :: PreOrder R;
  ev_rest k k' : thread k' = thread k -> lists k' = lists k -> R k k';
  ev_thread f t k : X t \/ runs_on (thread k t) (f (thread k t)) -> R k (with_thread f t k);
  ev_remove t k : R k (rt_list_remove t k);
  ev_link f a t k k' : (forall q, a <> Waiting q) -> link f a t k = Ok k' -> R k k';
  ev_timeout t k : status (thread k t) = RT_THREAD_SUSPEND ->
    R k (rt_list_remove t (with_thread (set_error (- RT_ETIMEOUT)) t k)) }.

Lemma shrinks_lists k k' : lists k' = lists k -> shrinks k k'.
Proof. intros E q. unfold members. by rewrite E. Qed.

#[export] Instance shrinks_preorder : PreOrder shrinks.
Proof.
  split; [done|]. intros k1 k2 k3 H1 H2 q. destruct (H1 q) as [A1 B1], (H2 q) as [A2 B2].
  split; [by etrans|auto].
Qed.

Lemma remove_shrinks t k : shrinks k (rt_list_remove t k).
Proof.
  intros q. rewrite members_remove. split; [|by intros; apply head_remove].
  intros j [Hj _]%elem_of_del. done.
Qed.

Lemma link_shrinks f a t k k' :
  (forall q, a <> Waiting q) -> link f a t k = Ok k' -> shrinks k k'.
Proof.
  intros Ha. unfold link. intros (l & _ & H)%bind_Ok. destruct (unlinked t k); [|done].
  injection H as <-. intros q. unfold members. cbn. by rewrite lookup_insert_ne by apply Ha.
Qed.

#[export] Instance shrinks_evolution : Evolution (fun _ => True) shrinks.
Proof.
  split; [apply _|..|by intros; eapply link_shrinks|].
  - intros k k' _ E. by apply shrinks_lists.
  - intros f t k _. by apply shrinks_lists.
  - apply remove_shrinks.
  - intros t k _. etrans; [|apply remove_shrinks]. by apply shrinks_lists.
Qed.

Lemma shrinks_not_in k k' t :
  shrinks k k' -> (forall q, t ∉ members (Waiting q) k) -> forall q, t ∉ members (Waiting q) k'.
Proof. intros S H q Hin. apply (H q). by apply S. Qed.

#[export] Instance runs_on_preorder : PreOrder runs_on.
Proof. split; [done|]. intros a b c [] []. split; auto. Qed.

#[export] Instance evolves_preorder X : PreOrder (evolves X).
Proof.
  split; [by split; [|left]|]. intros k1 k2 k3 [S1 F1] [S2 F2]. split; [by etrans|].
  intros t Hx He. destruct (F1 t Hx He) as [R1|[N1 L1]].
  - destruct (F2 t Hx) as [R2|[N2 L2]]; [by apply R1|left; by etrans|right]. split; [|done].
    intros Hr. by apply N2, R1.
  - right. split; [done|by apply (shrinks_not_in k2)].
Qed.

#[export] Instance evolves_evolution X : Evolution X (evolves X).
Proof.
  split; [apply _|..].
  - intros k k' E1 E2. split; [by apply shrinks_lists|]. intros t _ _. left. by rewrite E1.
  - intros f t k H. split; [by apply shrinks_lists|]. intros j Hj _. left. rewrite thread_with_thread.
    case_decide; [subst; by destruct H|done].
  - intros t k. split; [by apply remove_shrinks|by left].
  - intros f a t k k' Ha E. split; [by eapply link_shrinks|]. unfold link in E.
    apply bind_Ok in E as (l & _ & E). destruct (unlinked t k); [|done]. injection E as <-. by left.
  - intros t k Hs. split; [etrans; [|apply remove_shrinks]; by apply shrinks_lists|].
    intros j Hj He. destruct (decide (j = t)) as [->|Hne].
    + right. split; [intros [E|E]; status_clash|]. intros q. rewrite members_remove.
      by intros [_ ?]%elem_of_del.
    + left. cbn. by rewrite fn_lookup_insert_ne.
Qed.

(** ** Changes of one thread *)

Lemma status_set_status st th : 0 <= st < 8 -> status (set_status st th) = st.
Proof.
  intros Hst. unfold status, set_status, clear_bits. cbn [stat set_stat].
  rewrite Z.land_lor_distr_l, <- Z.land_assoc.
  change (Z.land (u8 _) _) with 0. rewrite Z.land_0_r, Z.lor_0_r.
  change RT_THREAD_STAT_MASK with (Z.ones 3). rewrite Z.land_ones by done. by apply Z.mod_small.
Qed.
Lemma status_clear_yield th : status (clear_yield th) = status th.
Proof. unfold status, clear_yield, clear_bits. cbn [stat set_stat]. by rewrite <- Z.land_assoc. Qed.
Lemma status_set_yield th : status (set_yield th) = status th.
Proof.
  unfold status, set_yield. cbn [stat set_stat]. by rewrite Z.land_lor_distr_l, Z.lor_0_r.
Qed.

Lemma runs_on_same th th' : error th' = error th -> status th' = status th -> runs_on th th'.
Proof. intros E1 E2. unfold runs_on, runnable. by rewrite E1, E2. Qed.
Lemma runs_on_status st th :
  st = RT_THREAD_READY \/ st = RT_THREAD_RUNNING -> runs_on th (set_status st th).
Proof. intros [-> | ->]; (split; [done|]); intros _; unfold runnable; rewrite status_set_status; auto; done. Qed.
Lemma runs_on_error th : runs_on th (set_error RT_EOK th).
Proof. by split. Qed.
Lemma runs_on_stopped th th' : error th' = error th -> ~ runnable th -> runs_on th th'.
Proof. intros E H. unfold runs_on. rewrite E. tauto. Qed.

Create HintDb evolve discriminated.
#[export] Hint Resolve runs_on_error : evolve.
#[export] Hint Extern 1 (runs_on _ (set_status _ _)) => apply runs_on_status; by auto : evolve.
#[export] Hint Extern 1 (runs_on _ (clear_yield _)) =>
  apply runs_on_same; [done|apply status_clear_yield] : evolve.
#[export] Hint Extern 1 (runs_on _ (set_yield _)) =>
  apply runs_on_same; [done|apply status_set_yield] : evolve.
#[export] Hint Extern 3 (runs_on _ _) => by apply runs_on_same : evolve.

(** Splits a run into its steps. *)
Ltac steps :=
  repeat match goal with
  | H : (_ ≫= _) = Ok _ |- _ => apply bind_Ok in H; destruct H as (? & ? & H)
  | H : Ok _ = Ok _ |- _ => injection H as H
  | H : Fault _ = Ok _ |- _ => discriminate H
  | H : (let '(_, _) := ?x in _) = Ok _ |- _ => destruct x
  | x : prod _ _ |- _ => destruct x
  | H : (_, _) = (_, _) |- _ => injection H as ? ?
  end.

(** Goes back along the steps of a run; [tac] knows the operations. *)
Ltac back tac :=
  repeat match goal with
  | |- ?R ?k ?k => reflexivity
  | |- ?R _ (with_thread _ _ ?x) =>
      transitivity x; [|apply ev_thread; first [left; by eauto|right; by eauto with evolve]]
  | |- ?R _ (with_group _ ?x) => transitivity x; [|by apply ev_rest]
  | |- ?R _ (with_current _ _ ?x) => transitivity x; [|by apply ev_rest]
  | |- ?R _ (with_lock _ ?x) => transitivity x; [|by apply ev_rest]
  | |- ?R _ (with_nest _ ?x) => transitivity x; [|by apply ev_rest]
  | |- ?R _ (with_timers _ ?x) => transitivity x; [|by apply ev_rest]
  | |- ?R _ (on_timers _ ?x) => transitivity x; [|by apply ev_rest]
  | |- ?R _ (rt_list_remove _ ?x) => transitivity x; [|by apply ev_remove]
  | _ => tac tt
  end.
Ltac back0 := back ltac:(fun _ => fail).

(** ** The operations *)

Section Operations.
Context {X : nat -> Prop} {R : kernel -> kernel -> Prop} `{!Evolution X R}.
Implicit Types (k : kernel) (t : nat).

Lemma schedule_insert_evolves t k k' : rt_schedule_insert_thread t k = Ok k' -> R k k'.
Proof.
  unfold rt_schedule_insert_thread. case_bool_decide; intros H'; steps; subst; back ltac:(fun _ =>
    match goal with H : rt_list_insert_before _ _ ?y = Ok ?x |- R _ ?x =>
      transitivity y; [|by eapply ev_link; [|exact H]] end).
Qed.

Lemma schedule_remove_evolves t k k' : rt_schedule_remove_thread t k = Ok k' -> R k k'.
Proof.
  unfold rt_schedule_remove_thread. intros H. steps. subst. by destruct x; back0.
Qed.

Ltac back_sched _ :=
  match goal with
  | H : rt_schedule_insert_thread _ ?y = Ok ?x |- _ _ ?x =>
      transitivity y; [|by eapply schedule_insert_evolves]
  | H : rt_schedule_remove_thread _ ?y = Ok ?x |- _ _ ?x =>
      transitivity y; [|by eapply schedule_remove_evolves]
  end.

Lemma schedule_evolves k k' : rt_schedule k = Ok k' -> R k k'.
Proof.
  unfold rt_schedule. destruct (negb _); [by intros [= ->]|].
  destruct (rt_thread_ready_priority_group k =? 0); [by intros [= ->]|].
  intros H. steps. destruct (status _ =? RT_THREAD_RUNNING), (keeps_running _ _);
    case_bool_decide; cbn [andb negb] in *; steps; subst; back back_sched.
Qed.

Ltac back_schedule _ :=
  match goal with
  | H : rt_schedule ?y = Ok ?x |- _ _ ?x => transitivity y; [|by apply schedule_evolves]
  | _ => back_sched tt
  end.

Lemma suspend_evolves t k e k' : X t -> rt_thread_suspend t k = Ok (e, k') -> R k k'.
Proof.
  unfold rt_thread_suspend. intros HX H. steps. destruct (_ && _); steps; subst; back back_schedule.
Qed.

Lemma resume_evolves t k e k' : rt_thread_resume t k = Ok (e, k') -> R k k'.
Proof.
  unfold rt_thread_resume. intros H. destruct (negb _); steps; subst; back back_schedule.
Qed.

Ltac back_thread _ :=
  match goal with
  | H : rt_thread_suspend _ ?y = Ok (_, ?x) |- _ _ ?x =>
      transitivity y; [|by eapply suspend_evolves; [|exact H]; eauto]
  | H : rt_thread_resume _ ?y = Ok (_, ?x) |- _ _ ?x => transitivity y; [|by eapply resume_evolves]
  | _ => back_schedule tt
  end.

Lemma soft_started_evolves k k' : soft_started k = Ok k' -> R k k'.
Proof. cbn. destruct (_ && _); intros H; steps; subst; back back_thread. Qed.

Lemma timer_start_evolves t k k' : rt_timer_start t k = Ok k' -> R k k'.
Proof.
  unfold rt_timer_start. case_match; intros H'; [apply soft_started_evolves in H'|injection H' as <-];
    (etrans; [|exact H'] || idtac); by apply ev_rest.
Qed.

Lemma start_thread_timer_evolves t n k k' : start_thread_timer t n k = Ok k' -> R k k'.
Proof.
  unfold start_thread_timer. intros H. steps. apply timer_start_evolves in H.
  etrans; [|exact H]. by apply ev_rest.
Qed.

Lemma timeout_evolves t k k' : _thread_timeout t k = Ok k' -> R k k'.
Proof.
  unfold _thread_timeout, rt_assert. destruct (Z.eqb_spec (status (thread k t)) RT_THREAD_SUSPEND);
    [|done]. intros H. steps. etrans; [by apply ev_timeout|].
  etrans; [by eapply schedule_insert_evolves|by apply schedule_evolves].
Qed.

Lemma finish_expired_evolves t k k' : finish_expired t k = Ok k' -> R k k'.
Proof.
  unfold finish_expired. destruct (_ && _); intros H; [apply timer_start_evolves in H|injection H as <-];
    (etrans; [|exact H] || idtac); by apply ev_rest.
Qed.

Lemma check_loop_evolves fuel tk k k' : check_loop fuel tk k = Ok k' -> R k k'.
Proof.
  revert tk k. induction fuel as [|fuel IH]; intros tk k; cbn; [done|].
  destruct (_timer_list (timers k)) as [|t l]; [by intros [= ->]|].
  destruct (_ <? _); [|by intros [= ->]]. intros H. steps.
  apply IH in H. etrans; [|exact H]. match goal with H : _thread_timeout _ _ = Ok ?x |- _ =>
    apply timeout_evolves in H; transitivity x; [etrans; [|exact H]; by apply ev_rest|] end.
  case_match; [by simplify_eq|]. by eapply finish_expired_evolves.
Qed.

Lemma defunct_evolves fuel k ts k' : rt_defunct_execute fuel k = Ok (ts, k') -> R k k'.
Proof.
  revert k ts. induction fuel as [|fuel IH]; intros k ts; cbn; [done|]. unfold rt_thread_defunct_dequeue.
  intros ([o k1] & (l & _ & H1)%bind_Ok & H)%bind_Ok.
  destruct l as [|t l]; injection H1 as <- <-; [by injection H as <- <-|]. steps. subst.
  etrans; [|by eapply IH]. apply ev_remove.
Qed.

Lemma detach_evolves t k k' : X t -> rt_thread_detach t k = Ok k' -> R k k'.
Proof.
  unfold rt_thread_detach. destruct (_ =? _); [by intros _ [= ->]|]. intros HX H. steps.
  eapply (ev_link (R := R)) in H; [|done]. etrans; [|exact H].
  destruct (negb _); steps; subst; back back_thread.
Qed.

Ltac back_all _ :=
  match goal with
  | H : start_thread_timer _ _ ?y = Ok ?x |- _ _ ?x =>
      transitivity y; [|by eapply start_thread_timer_evolves]
  | H : rt_thread_detach _ ?y = Ok ?x |- _ _ ?x =>
      transitivity y; [|by eapply detach_evolves; [|exact H]; eauto]
  | H : rt_thread_defunct_enqueue _ ?y = Ok ?x |- _ _ ?x =>
      transitivity y; [|by eapply ev_link; [|exact H]]
  | H : rt_defunct_execute _ ?y = Ok (_, ?x) |- _ _ ?x =>
      transitivity y; [|by eapply defunct_evolves]
  | _ => back_thread tt
  end.

Lemma tick_evolves k k' : SysTick k = Ok k' -> R k k'.
Proof.
  unfold SysTick, rt_tick_increase, rt_interrupt_enter, rt_interrupt_leave. intros H. steps. subst.
  match goal with H : rt_timer_check _ _ = Ok _ |- _ => apply check_loop_evolves in H end.
  transitivity x; [|by apply ev_rest]. etrans; [|eassumption].
  cbn [upd set_timers kernel_host]. destruct (_ =? 0); steps; subst; back back_all.
Qed.

(** The thread that a step suspends, closes or makes anew. *)
Definition touched (e : event) k : option nat :=
  match e with
  | Sleep _ | DelayUntil _ _ | SuspendSelf | Exit => rt_current_thread k
  | Detach t | Close t | Init t _ _ => Some t
  | _ => None
  end.

Lemma current_Ok k t : current k = Ok t -> rt_current_thread k = Some t.
Proof. unfold current. destruct (rt_current_thread k); [by intros [= ->]|done]. Qed.

Ltac caller HX :=
  match goal with H : current _ = Ok ?c |- _ => assert (X c) by by apply HX, current_Ok end.

Lemma run_evolves e k k' : (forall t, touched e k = Some t -> X t) -> run e k = Ok k' -> R k k'.
Proof.
  intros HX. destruct e; cbn [run touched] in *; intros H.
  - unfold rt_thread_startup, rt_assert in H.
    destruct (Z.eqb_spec (status (thread k t)) RT_THREAD_INIT) as [Hs|]; [|done].
    assert (R k (with_thread (set_stat RT_THREAD_SUSPEND) t
      (with_thread (fun th => set_mask (u32 (Z.shiftl 1 (current_priority th))) th) t k))).
    { transitivity (with_thread (fun th => set_mask (u32 (Z.shiftl 1 (current_priority th))) th) t k); [back0|].
      apply ev_thread. right. apply runs_on_stopped; [done|]. rewrite thread_with_thread, decide_True by done.
      intros [E|E]; unfold status in *; cbn in E; by rewrite Hs in E. }
    steps. destruct (rt_thread_self _); steps; subst; back back_all; assumption.
  - unfold rt_thread_yield in H. steps. back back_all.
  - unfold rt_thread_sleep, sleep_block in H. steps.
    caller HX. back back_all.
  - unfold rt_thread_delay_until, sleep_block in H. steps.
    caller HX. destruct (_ <? _); steps; subst; back back_all.
  - steps. caller HX. back back_all.
  - steps. subst. back back_all.
  - unfold change_priority in H. destruct (_ =? _); steps; subst; back back_all.
  - specialize (HX t eq_refl). back back_all.
  - specialize (HX t eq_refl). unfold close_thread in H. steps. back back_all.
  - unfold _thread_exit in H. steps. caller HX. back back_all.
  - unfold rt_enter_critical in H. steps. subst. back back_all.
  - unfold rt_exit_critical in H. destruct (_ <=? 0); [|steps; subst; back back_all].
    destruct (rt_current_thread _); steps; subst; back back_all.
  - back back_all.
  - by apply tick_evolves.
  - specialize (HX t eq_refl). unfold _thread_init in H. steps. subst. back back_all.
  - steps. subst. back back_all.
Qed.
End Operations.

(** The whole kernel, for [back]. *)
Ltac back_all _ :=
  match goal with
  | H : rt_schedule_insert_thread _ ?y = Ok ?x |- _ _ ?x =>
      transitivity y; [|by eapply schedule_insert_evolves]
  | H : rt_schedule_remove_thread _ ?y = Ok ?x |- _ _ ?x =>
      transitivity y; [|by eapply schedule_remove_evolves]
  | H : rt_schedule ?y = Ok ?x |- _ _ ?x => transitivity y; [|by apply schedule_evolves]
  | H : rt_thread_suspend _ ?y = Ok (_, ?x) |- _ _ ?x =>
      transitivity y; [|by eapply suspend_evolves; [|exact H]; eauto]
  | H : rt_thread_resume _ ?y = Ok (_, ?x) |- _ _ ?x => transitivity y; [|by eapply resume_evolves]
  | H : start_thread_timer _ _ ?y = Ok ?x |- _ _ ?x =>
      transitivity y; [|by eapply start_thread_timer_evolves]
  end.

(** No kernel call and no tick adds a thread to a suspend list. *)
Lemma run_shrinks e k k' : run e k = Ok k' -> shrinks k k'.
Proof. by apply run_evolves. Qed.
End Evolve.
