(* ===== verification/Ipc.v ===== *)
(** * Semaphores, mutexes, events (rt-thread/src/ipc.c)

    An object names its suspend list by the address of the head.  A call that
    blocks is two functions: the first one ends with [Block] after its
    [rt_schedule] switched to another thread, the second one is the rest, once
    the thread runs again.

    The theorems: a semaphore hands each release to the first waiter or counts
    it, and nobody waits while it has a value; a mutex has one owner, and an
    owner that a thread waits for inherits its priority; after an event is sent
    no thread is left waiting for what the event holds. *)

From stdpp Require Import functions fin_maps.
From S2P Require Import Prelude Timer Thread Evolve.

Module Ipc.
Import Timer Thread Evolve.

Definition RT_EFULL : Z := 3.
Definition RT_EINVAL : Z := 10.
Definition RT_IPC_FLAG_FIFO : Z := 0x00.
Definition RT_IPC_FLAG_PRIO : Z := 0x01.
Definition RT_IPC_CMD_RESET : Z := 0x01.
Definition RT_WAITING_NO : Z := 0.
Definition RT_SEM_VALUE_MAX : Z := 0xffff.
Definition RT_MUTEX_VALUE_MAX : Z := 0xffff.
Definition RT_MUTEX_HOLD_MAX : Z := 0xff.
Definition RT_EVENT_FLAG_AND : Z := 0x01.
Definition RT_EVENT_FLAG_OR : Z := 0x02.
Definition RT_EVENT_FLAG_CLEAR : Z := 0x04.

(** ** Debug checks (rtdebug.h) *)

Definition RT_DEBUG_NOT_IN_INTERRUPT (k : kernel) : result unit :=
  rt_assert (rt_interrupt_get_nest k =? 0).
Definition RT_DEBUG_IN_THREAD_CONTEXT (k : kernel) : result unit :=
  _ ← rt_assert (bool_decide (rt_thread_self k <> None));
  RT_DEBUG_NOT_IN_INTERRUPT k.
Definition RT_DEBUG_SCHEDULER_AVAILABLE (need_check : bool) (k : kernel) : result unit :=
  if need_check then
    _ ← rt_assert (rt_critical_level k =? 0);
    RT_DEBUG_IN_THREAD_CONTEXT k
  else Ok tt.

(** ** Suspend lists *)

(** [struct rt_ipc_object]: the address of the list head, and the flag. *)
Record rt_ipc_object := mk_ipc { suspend_thread : nat; ipc_flag : Z }.

(** The place by priority: before the first thread of a lower one. *)
Fixpoint insert_priority (th : nat -> rt_thread) (t : nat) (l : list nat) : list nat :=
  match l with
  | [] => [t]
  | s :: l' =>
      if current_priority (th t) <? current_priority (th s) then t :: l
      else s :: insert_priority th t l'
  end.

Definition _ipc_list_suspend (q t : nat) (flag : Z) (k : kernel) : result kernel :=
  '(_, k) ← rt_thread_suspend t k;
  if flag =? RT_IPC_FLAG_FIFO then rt_list_insert_before (Waiting q) t k
  else if flag =? RT_IPC_FLAG_PRIO then link (insert_priority (thread k) t) (Waiting q) t k
  else Fault AssertFail.

Definition _ipc_list_resume (q : nat) (k : kernel) : result kernel :=
  l ← get_list (Waiting q) k;
  match l with
  | t :: _ => '(_, k) ← rt_thread_resume t k; Ok k
  | [] => Fault OutOfBounds
  end.

(** The loop of [_ipc_list_resume_all]. *)
Fixpoint resume_all_loop (fuel q : nat) (k : kernel) : result kernel :=
  match fuel with
  | O => Fault OutOfFuel
  | S fuel =>
      l ← get_list (Waiting q) k;
      match l with
      | [] => Ok k
      | t :: _ =>
          let k := with_thread (set_error (- RT_ERROR)) t k in
          '(_, k) ← rt_thread_resume t k;
          resume_all_loop fuel q k
      end
  end.
Definition _ipc_list_resume_all (q : nat) (k : kernel) : result kernel :=
  resume_all_loop (S (length (members (Waiting q) k))) q k.

(** What the blocking calls share: the thread goes to the suspend list, with a
    timer when the time is limited, and the scheduler runs. *)
Definition block_on (q : nat) (flag : Z) (t : nat) (time : Z) (k : kernel) : result kernel :=
  k ← _ipc_list_suspend q t flag k;
  k ← (if 0 <? time then start_thread_timer t time k else Ok k);
  rt_schedule k.

Inductive outcome := Return (err : Z) | Block.

(** ** Semaphores *)

Record rt_semaphore := mk_sem { sem_parent : rt_ipc_object; value : Z }.
Definition set_value (v : Z) (s : rt_semaphore) : rt_semaphore := mk_sem (sem_parent s) (u16 v).
Definition sem_queue (s : rt_semaphore) : nat := suspend_thread (sem_parent s).

(** [q] is the address of the list head in the object. *)
Definition rt_sem_init (q : nat) (v flag : Z) (k : kernel) : result (rt_semaphore * kernel) :=
  _ ← rt_assert (v <? 0x10000);
  _ ← rt_assert ((flag =? RT_IPC_FLAG_FIFO) || (flag =? RT_IPC_FLAG_PRIO));
  Ok (mk_sem (mk_ipc q flag) (u16 v), with_lists <[Waiting q := []]> k).

Definition rt_sem_detach (s : rt_semaphore) (k : kernel) : result kernel :=
  _ipc_list_resume_all (sem_queue s) k.

Definition rt_sem_take (time : Z) (s : rt_semaphore) (k : kernel)
  : result (outcome * rt_semaphore * kernel) :=
  if 0 <? value s then Ok (Return RT_EOK, set_value (value s - 1) s, k)
  else if time =? 0 then Ok (Return (- RT_ETIMEOUT), s, k)
  else
    _ ← RT_DEBUG_SCHEDULER_AVAILABLE true k;
    t ← current k;
    let k := with_thread (set_error RT_EOK) t k in
    k ← block_on (sem_queue s) (ipc_flag (sem_parent s)) t time k;
    Ok (Block, s, k).
(** The return value once thread [t] runs again. *)
Definition rt_sem_take_end (t : nat) (k : kernel) : Z :=
  if negb (error (thread k t) =? RT_EOK) then error (thread k t) else RT_EOK.
Definition rt_sem_trytake : rt_semaphore -> kernel -> result (outcome * rt_semaphore * kernel) :=
  rt_sem_take RT_WAITING_NO.

Definition rt_sem_release (s : rt_semaphore) (k : kernel) : result (Z * rt_semaphore * kernel) :=
  e ← rt_list_isempty (Waiting (sem_queue s)) k;
  if negb e then
    k ← _ipc_list_resume (sem_queue s) k;
    k ← rt_schedule k;
    Ok (RT_EOK, s, k)
  else if value s <? RT_SEM_VALUE_MAX then Ok (RT_EOK, set_value (value s + 1) s, k)
  else Ok (- RT_EFULL, s, k).

Definition rt_sem_control (cmd arg : Z) (s : rt_semaphore) (k : kernel)
  : result (Z * rt_semaphore * kernel) :=
  if cmd =? RT_IPC_CMD_RESET then
    k ← _ipc_list_resume_all (sem_queue s) k;
    let s := set_value arg s in
    k ← rt_schedule k;
    Ok (RT_EOK, s, k)
  else Ok (- RT_ERROR, s, k).

(** ** Mutexes *)

Record rt_mutex := mk_mutex {
  mutex_parent : rt_ipc_object; mutex_value : Z; original_priority : Z; hold : Z;
  owner : option nat }.
Definition mutex_queue (m : rt_mutex) : nat := suspend_thread (mutex_parent m).

Definition rt_mutex_init (q : nat) (k : kernel) : rt_mutex * kernel :=
  (mk_mutex (mk_ipc q RT_IPC_FLAG_PRIO) 1 0xFF 0 None, with_lists <[Waiting q := []]> k).
Definition rt_mutex_detach (m : rt_mutex) (k : kernel) : result kernel :=
  _ipc_list_resume_all (mutex_queue m) k.

Definition rt_mutex_take (time : Z) (m : rt_mutex) (k : kernel)
  : result (outcome * rt_mutex * kernel) :=
  _ ← RT_DEBUG_SCHEDULER_AVAILABLE true k;
  t ← current k;
  let k := with_thread (set_error RT_EOK) t k in
  if bool_decide (owner m = Some t) then
    if hold m <? RT_MUTEX_HOLD_MAX
    then Ok (Return RT_EOK, mk_mutex (mutex_parent m) (mutex_value m) (original_priority m)
                              (u8 (hold m + 1)) (owner m), k)
    else Ok (Return (- RT_EFULL), m, k)
  else if 0 <? mutex_value m then
    let m := mk_mutex (mutex_parent m) (u16 (mutex_value m - 1))
               (current_priority (thread k t)) (hold m) (Some t) in
    if hold m <? RT_MUTEX_HOLD_MAX
    then Ok (Return RT_EOK, mk_mutex (mutex_parent m) (mutex_value m) (original_priority m)
                              (u8 (hold m + 1)) (owner m), k)
    else Ok (Return (- RT_EFULL), m, k)
  else if time =? 0 then
    Ok (Return (- RT_ETIMEOUT), m, with_thread (set_error (- RT_ETIMEOUT)) t k)
  else
    match owner m with
    | None => Fault OutOfBounds
    | Some o =>
        k ← (if current_priority (thread k t) <? current_priority (thread k o)
             then change_priority o (current_priority (thread k t)) k else Ok k);
        k ← block_on (mutex_queue m) (ipc_flag (mutex_parent m)) t time k;
        Ok (Block, m, k)
    end.
Definition rt_mutex_take_end (t : nat) (k : kernel) : Z :=
  if negb (error (thread k t) =? RT_EOK) then error (thread k t) else RT_EOK.
Definition rt_mutex_trytake : rt_mutex -> kernel -> result (outcome * rt_mutex * kernel) :=
  rt_mutex_take RT_WAITING_NO.

Definition rt_mutex_release (m : rt_mutex) (k : kernel) : result (Z * rt_mutex * kernel) :=
  _ ← RT_DEBUG_IN_THREAD_CONTEXT k;
  t ← current k;
  if negb (bool_decide (owner m = Some t)) then
    Ok (- RT_ERROR, m, with_thread (set_error (- RT_ERROR)) t k)
  else
    let m := mk_mutex (mutex_parent m) (mutex_value m) (original_priority m)
               (u8 (hold m - 1)) (owner m) in
    if negb (hold m =? 0) then Ok (RT_EOK, m, k)
    else
      k ← (if negb (original_priority m =? current_priority (thread k t))
           then change_priority t (original_priority m) k else Ok k);
      l ← get_list (Waiting (mutex_queue m)) k;
      match l with
      | first :: _ =>
          let m := mk_mutex (mutex_parent m) (mutex_value m)
                     (current_priority (thread k first)) (hold m) (Some first) in
          if hold m <? RT_MUTEX_HOLD_MAX then
            let m := mk_mutex (mutex_parent m) (mutex_value m) (original_priority m)
                       (u8 (hold m + 1)) (owner m) in
            k ← _ipc_list_resume (mutex_queue m) k;
            k ← rt_schedule k;
            Ok (RT_EOK, m, k)
          else Ok (- RT_EFULL, m, k)
      | [] =>
          if mutex_value m <? RT_MUTEX_VALUE_MAX
          then Ok (RT_EOK, mk_mutex (mutex_parent m) (u16 (mutex_value m + 1)) 0xff (hold m) None, k)
          else Ok (- RT_EFULL, m, k)
      end.

Definition rt_mutex_control (cmd arg : Z) (m : rt_mutex) (k : kernel) : Z := - RT_ERROR.

(** ** Events *)

Record rt_event := mk_event { event_parent : rt_ipc_object; set : Z }.
Definition event_queue (e : rt_event) : nat := suspend_thread (event_parent e).
Definition set_set (v : Z) (e : rt_event) : rt_event := mk_event (event_parent e) v.

Definition rt_event_init (q : nat) (flag : Z) (k : kernel) : result (rt_event * kernel) :=
  _ ← rt_assert ((flag =? RT_IPC_FLAG_FIFO) || (flag =? RT_IPC_FLAG_PRIO));
  Ok (mk_event (mk_ipc q flag) 0, with_lists <[Waiting q := []]> k).
Definition rt_event_detach (e : rt_event) (k : kernel) : result kernel :=
  _ipc_list_resume_all (event_queue e) k.

Definition has_bit (b v : Z) : bool := negb (Z.land v b =? 0).

(** The loop over the suspend list; the link to the next thread is read before
    the thread is resumed.  The result says whether the scheduler is needed. *)
Fixpoint send_loop (ts : list nat) (need_schedule : bool) (e : rt_event) (k : kernel)
  : result (Z * bool * rt_event * kernel) :=
  match ts with
  | [] => Ok (RT_EOK, need_schedule, e, k)
  | t :: ts =>
      let th := thread k t in
      if has_bit RT_EVENT_FLAG_AND (event_info th) || has_bit RT_EVENT_FLAG_OR (event_info th) then
        let '(status, k) :=
          if has_bit RT_EVENT_FLAG_AND (event_info th)
          then ((Z.land (event_set th) (set e) =? event_set th), k)
          else if negb (Z.land (event_set th) (set e) =? 0)
          then (true, with_thread (set_event (Z.land (event_set th) (set e)) (event_info th)) t k)
          else (false, k) in
        if status : bool then
          let e := if has_bit RT_EVENT_FLAG_CLEAR (event_info (thread k t))
                   then set_set (Z.land (set e) (u32 (Z.lnot (event_set (thread k t))))) e else e in
          '(_, k) ← rt_thread_resume t k;
          send_loop ts true e k
        else send_loop ts need_schedule e k
      else Ok (- RT_EINVAL, need_schedule, e, k)
  end.

Definition rt_event_send (v : Z) (e : rt_event) (k : kernel) : result (Z * rt_event * kernel) :=
  if v =? 0 then Ok (- RT_ERROR, e, k)
  else
    let e := set_set (Z.lor (set e) v) e in
    l ← get_list (Waiting (event_queue e)) k;
    '(err, need_schedule, e, k) ← send_loop l false e k;
    if negb (err =? RT_EOK) then Ok (err, e, k)
    else
      k ← (if need_schedule : bool then rt_schedule k else Ok k);
      Ok (RT_EOK, e, k).

(** The value is what is written to [*recved], when something is. *)
Definition rt_event_recv (v option timeout : Z) (e : rt_event) (k : kernel)
  : result (outcome * Datatypes.option Z * rt_event * kernel) :=
  _ ← RT_DEBUG_SCHEDULER_AVAILABLE true k;
  if v =? 0 then Ok (Return (- RT_ERROR), None, e, k)
  else
    t ← current k;
    let k := with_thread (set_error RT_EOK) t k in
    _ ← rt_assert (has_bit RT_EVENT_FLAG_AND option || has_bit RT_EVENT_FLAG_OR option);
    let status :=
      if has_bit RT_EVENT_FLAG_AND option then Z.land (set e) v =? v
      else negb (Z.land (set e) v =? 0) in
    if status : bool then
      let k := with_thread (set_event (Z.land (set e) v) option) t k in
      Ok (Return RT_EOK, Some (Z.land (set e) v),
          (if has_bit RT_EVENT_FLAG_CLEAR option
           then set_set (Z.land (set e) (u32 (Z.lnot v))) e else e), k)
    else if timeout =? 0 then
      Ok (Return (- RT_ETIMEOUT), None, e, with_thread (set_error (- RT_ETIMEOUT)) t k)
    else
      let k := with_thread (set_event v option) t k in
      k ← block_on (event_queue e) (ipc_flag (event_parent e)) t timeout k;
      Ok (Block, None, e, k).
Definition rt_event_recv_end (t : nat) (k : kernel) : Z * Datatypes.option Z :=
  if negb (error (thread k t) =? RT_EOK) then (error (thread k t), None)
  else (error (thread k t), Some (event_set (thread k t))).

Definition rt_event_control (cmd : Z) (e : rt_event) (k : kernel) : result (Z * rt_event * kernel) :=
  if cmd =? RT_IPC_CMD_RESET then
    k ← _ipc_list_resume_all (event_queue e) k;
    k ← rt_schedule k;
    Ok (RT_EOK, set_set 0 e, k)
  else Ok (- RT_ERROR, e, k).

(** ** The shared operations *)

Section Shared.
Implicit Types (k : kernel) (t q : nat) (l : list nat).

Lemma insert_priority_perm th t l : insert_priority th t l ≡ₚ t :: l.
Proof.
  induction l as [|s l IH]; cbn; [done|]. destruct (_ <? _); [done|].
  rewrite IH. constructor.
Qed.

Lemma insert_priority_ext_in th th' t l :
  (forall j, j = t \/ j ∈ l -> current_priority (th' j) = current_priority (th j)) ->
  insert_priority th' t l = insert_priority th t l.
Proof.
  induction l as [|s l IH]; cbn; [done|]. intros E. rewrite (E t), (E s), IH; [done| |set_solver..].
  intros j Hj. apply E. set_solver.
Qed.
Lemma insert_priority_ext th th' t l :
  (forall j, current_priority (th' j) = current_priority (th j)) ->
  insert_priority th' t l = insert_priority th t l.
Proof. intros E. apply insert_priority_ext_in. auto. Qed.

(** What a thread keeps when only its status changes. *)
Definition data (th : rt_thread) : rt_thread := set_stat 0 th.

Lemma data_frame k k' t : sched_frame k k' -> data (thread k' t) = data (thread k t).
Proof. intros F. by rewrite (sf_thread _ _ F t). Qed.

Lemma data_eq th th' : data th = data th' ->
  error th = error th' /\ current_priority th = current_priority th' /\
  event_set th = event_set th' /\ event_info th = event_info th'.
Proof. unfold data, set_stat. by intros [= -> -> _ -> -> _ _]. Qed.

(** The order of the waiters. *)
Definition enqueue (flag : Z) k t l : list nat :=
  if flag =? RT_IPC_FLAG_FIFO then l ++ [t] else insert_priority (thread k) t l.
Definition flag_ok (flag : Z) : Prop := flag = RT_IPC_FLAG_FIFO \/ flag = RT_IPC_FLAG_PRIO.

Lemma enqueue_perm flag k t l : enqueue flag k t l ≡ₚ t :: l.
Proof.
  unfold enqueue. destruct (_ =? _); [by rewrite Permutation_app_comm|apply insert_priority_perm].
Qed.

(** A thread goes from the processor to a suspend list, at the place [f]. *)
Lemma suspend_link_spec (f : list nat -> list nat) q t k :
  kernel_ok k -> rt_current_thread k = Some t -> status (thread k t) = RT_THREAD_RUNNING ->
  (forall l, f l ≡ₚ t :: l) -> is_Some (lists k !! Waiting q) ->
  exists k1 k', rt_thread_suspend t k = Ok (RT_EOK, k1) /\ link f (Waiting q) t k1 = Ok k' /\ kernel_ok k' /\
    rt_current_thread k' = Some t /\ status (thread k' t) = RT_THREAD_SUSPEND /\
    (forall j, data (thread k1 j) = data (thread k j)) /\
    (forall j, data (thread k' j) = data (thread k j)) /\
    (forall j, j <> t -> thread k' j = thread k j) /\
    members (Waiting q) k' = f (members (Waiting q) k) /\
    (forall a, a <> Waiting q -> members a k' = members a k).
Proof.
  intros H Hc Hs Hf Hq.
  destruct (suspend_spec t k H Hc Hs) as (k1 & E1 & H1 & C1 & L1 & N1 & Ej & Et & Htc & Hta & Em & Eh & Hu).
  assert (status (thread k1 t) = RT_THREAD_SUSPEND) as Hs1.
  { rewrite Et. apply (set_status_spec _ _ (tk_stat _ (si_thread _ _ _ (ko_sched _ H) t))). by vm_compute. }
  assert (forall j, data (thread k1 j) = data (thread k j)) as Ed.
  { intros j. destruct (decide (j = t)) as [->|Hj]; [by rewrite Et|by rewrite Ej]. }
  assert (exists k', link f (Waiting q) t k1 = Ok k' /\ sched_inv None (rt_current_thread k1) k' /\
    same_but_lists k1 k' /\ members (Waiting q) k' = f (members (Waiting q) k1) /\
    (forall b, b <> Waiting q -> members b k' = members b k1)) as (k' & E & I' & [S1 S2 S3 S4 S5 S6] & M1 & M2).
  { apply link_inv; try done.
    - by apply Eh.
    - apply H1. }
  exists k1, k'. split_and!; try done.
  - split; [by rewrite S2|by rewrite S4; apply H1|by rewrite S6; apply H1|]. rewrite S1, S6. apply H1.
  - by rewrite S2.
  - by rewrite S1.
  - intros j. by rewrite S1.
  - intros j Hj. rewrite S1. by apply Ej.
  - by rewrite M1, Em.
  - intros a Ha. by rewrite M2.
Qed.

Lemma ipc_suspend_spec q t flag k :
  kernel_ok k -> rt_current_thread k = Some t -> status (thread k t) = RT_THREAD_RUNNING ->
  flag_ok flag -> is_Some (lists k !! Waiting q) ->
  exists k', _ipc_list_suspend q t flag k = Ok k' /\ kernel_ok k' /\
    rt_current_thread k' = Some t /\ status (thread k' t) = RT_THREAD_SUSPEND /\
    (forall j, data (thread k' j) = data (thread k j)) /\
    (forall j, j <> t -> thread k' j = thread k j) /\
    members (Waiting q) k' = enqueue flag k t (members (Waiting q) k) /\
    (forall a, a <> Waiting q -> members a k' = members a k).
Proof.
  intros H Hc Hs Hf Hq. unfold _ipc_list_suspend. set (f := fun l => enqueue flag k t l).
  destruct (suspend_link_spec f q t k H Hc Hs (enqueue_perm flag k t) Hq) as (k1 & k' & E1 & E & H' & C' & S' & Ed & R).
  rewrite E1. cbn [mbind result_bind]. exists k'. split; [|done].
  unfold f, enqueue in E. destruct Hf as [-> | ->]; cbn in E |- *; [exact E|].
  unfold link in *. destruct (get_list _ k1); [|done]. cbn in *.
  destruct (unlinked t k1); [|done]. rewrite <- E. f_equal. f_equal. f_equal.
  apply insert_priority_ext. intros j. by destruct (data_eq _ _ (Ed j)) as (_ & -> & _).
Qed.

(** A suspended thread leaves the processor, with a timer when [time] is limited. *)
Lemma sleep_spec t time k :
  kernel_ok k -> rt_current_thread k = Some t -> status (thread k t) = RT_THREAD_SUSPEND -> time < half ->
  exists k', (k ← (if 0 <? time then start_thread_timer t time k else Ok k); rt_schedule k) = Ok k' /\
    kernel_ok k' /\ is_Some (rt_current_thread k') /\ status (thread k' t) = RT_THREAD_SUSPEND /\
    (forall j, data (thread k' j) = data (thread k j)) /\
    (forall q', members (Waiting q') k' = members (Waiting q') k) /\
    (forall j, runnable (thread k j) -> runnable (thread k' j)) /\
    (0 < time -> t ∈ _timer_list (timers k') /\ left (timers k') t = time).
Proof.
  intros H Hc Hs Ht.
  assert (exists tm, (if 0 <? time then start_thread_timer t time k else Ok k) = Ok (with_timers tm k) /\
    kernel_ok (with_timers tm k) /\ (0 < time -> t ∈ _timer_list tm /\ left tm t = time))
    as (tm & E2 & H2 & T2).
  { destruct (Z.ltb_spec 0 time) as [Hpos|Hneg].
    - destruct (start_timer_spec t time k H Hs ltac:(lia)) as (tm & E2 & H2 & _ & Hin & Hl). by exists tm.
    - exists (timers k). split_and!; [by destruct k|by destruct k|lia]. }
  rewrite E2. cbn [mbind result_bind].
  destruct (schedule_ok _ H2) as (k3 & E3 & H3 & F); [by exists t|].
  exists k3. rewrite E3. split_and!; [done|done| | | | | |].
  - apply (sf_current _ _ F). by exists t.
  - by apply (sched_frame_suspend _ _ t F).
  - intros j. by rewrite (data_frame _ _ j F).
  - intros q'. by rewrite (sf_waiting _ _ F).
  - intros j. by apply (sched_frame_runnable _ _ j F).
  - rewrite (sf_timers _ _ F). exact T2.
Qed.

(** A blocking call up to its [rt_schedule]. *)
Lemma block_on_spec q flag t time k :
  kernel_ok k -> rt_current_thread k = Some t -> status (thread k t) = RT_THREAD_RUNNING ->
  flag_ok flag -> is_Some (lists k !! Waiting q) -> time < half ->
  exists k', block_on q flag t time k = Ok k' /\ kernel_ok k' /\ is_Some (rt_current_thread k') /\
    status (thread k' t) = RT_THREAD_SUSPEND /\
    (forall j, data (thread k' j) = data (thread k j)) /\
    members (Waiting q) k' = enqueue flag k t (members (Waiting q) k) /\
    (forall q', q' <> q -> members (Waiting q') k' = members (Waiting q') k) /\
    (forall j, j <> t -> runnable (thread k j) -> runnable (thread k' j)) /\
    (0 < time -> t ∈ _timer_list (timers k') /\ left (timers k') t = time).
Proof.
  intros H Hc Hs Hf Hq Ht. unfold block_on.
  destruct (ipc_suspend_spec q t flag k H Hc Hs Hf Hq) as (k1 & E1 & H1 & C1 & S1 & D1 & J1 & M1 & O1).
  rewrite E1. cbn [mbind result_bind].
  destruct (sleep_spec t time k1 H1 C1 S1 Ht) as (k' & E & H' & C' & S' & D & M & J & T).
  exists k'. split_and!; try done.
  - intros j. by rewrite D.
  - by rewrite M.
  - intros q' Hq'. rewrite M. apply O1. congruence.
  - intros j Hj Hr. apply J. by rewrite J1.
Qed.

(** The first waiter becomes runnable. *)
Lemma ipc_resume_spec q t l k :
  kernel_ok k -> members (Waiting q) k = t :: l ->
  exists k', _ipc_list_resume q k = Ok k' /\ kernel_ok k' /\
    rt_current_thread k' = rt_current_thread k /\ runnable (thread k' t) /\
    (forall j, data (thread k' j) = data (thread k j)) /\
    (forall j, j <> t -> thread k' j = thread k j) /\
    members (Waiting q) k' = l /\
    (forall q', q' <> q -> members (Waiting q') k' = members (Waiting q') k).
Proof.
  intros H E. unfold _ipc_list_resume, get_list. unfold members in E.
  destruct (lists k !! Waiting q) as [l0|] eqn:El; [|done]. cbn in E. subst l0. cbn [mbind result_bind].
  assert (members (Waiting q) k = t :: l) as Em by (unfold members; by rewrite El).
  assert (t ∈ members (Waiting q) k) as Hin by (rewrite Em; by left).
  destruct (si_belongs _ _ _ (ko_sched _ H) _ _ Hin) as [Hs _]. cbn in Hs.
  destruct (resume_spec t k H Hs) as (k' & E' & H' & C' & _ & _ & Ej & Et & R & _ & M').
  rewrite E'. cbn [mbind result_bind]. exists k'. split_and!; try done.
  - intros j. destruct (decide (j = t)) as [->|Hj]; [by rewrite Et|by rewrite Ej].
  - rewrite M' by done. rewrite Em. pose proof (si_nodup _ _ _ (ko_sched _ H) (Waiting q)) as Hn.
    rewrite Em in Hn. apply NoDup_cons in Hn as [Hn _]. unfold del. rewrite filter_cons_False by tauto.
    by apply del_notin.
  - intros q' Hq'. rewrite M' by done. apply del_notin. intros Hin'.
    by pose proof (si_once _ _ _ (ko_sched _ H) _ _ _ Hin Hin') as [= ->].
Qed.

Lemma resume_all_spec q l fuel k :
  kernel_ok k -> is_Some (lists k !! Waiting q) -> members (Waiting q) k = l -> (length l < fuel)%nat ->
  exists k', resume_all_loop fuel q k = Ok k' /\ kernel_ok k' /\
    rt_current_thread k' = rt_current_thread k /\ members (Waiting q) k' = [] /\
    (forall q', q' <> q -> members (Waiting q') k' = members (Waiting q') k) /\
    (forall t, t ∈ l -> runnable (thread k' t) /\ error (thread k' t) = - RT_ERROR) /\
    (forall j, j ∉ l -> thread k' j = thread k j).
Proof.
  revert k fuel. induction l as [|t l IH]; intros k fuel H Hq E Hf; (destruct fuel as [|fuel]; [cbn in *; lia|]).
  - exists k. cbn [resume_all_loop]. rewrite get_list_members, E by done. cbn [mbind result_bind].
    split_and!; try done. by intros t ?%not_elem_of_nil.
  - cbn [resume_all_loop]. rewrite get_list_members, E by done. cbn [mbind result_bind].
    set (k1 := with_thread (set_error (- RT_ERROR)) t k).
    assert (kernel_ok k1) as H1 by by apply change_plain_ok.
    assert (members (Waiting q) k1 = t :: l) as M1 by exact E.
    destruct (ipc_resume_spec q t l k1 H1 M1) as (k2 & E2 & H2 & C2 & R2 & D2 & J2 & M2 & O2).
    unfold _ipc_list_resume in E2. rewrite get_list_members, M1 in E2 by done. cbn [mbind result_bind] in E2.
    destruct (rt_thread_resume t k1) as [[r k2']|] eqn:Er; [|done]. cbn [mbind result_bind] in E2 |- *.
    injection E2 as ->.
    destruct (IH k2 fuel H2) as (k3 & E3 & H3 & C3 & M3 & O3 & R3 & J3).
    { apply (resume_evolves (R := shrinks) _ _ _ _ Er). exact Hq. }
    { exact M2. }
    { cbn in *. lia. }
    pose proof (si_nodup _ _ _ (ko_sched _ H) (Waiting q)) as Hn. rewrite E in Hn.
    apply NoDup_cons in Hn as [Hn _].
    exists k3. split_and!; [done|done|by rewrite C3, C2|done| | |].
    + intros q' Hq'. rewrite O3, O2 by done. done.
    + intros j [->|Hj]%elem_of_cons; [|by apply R3]. rewrite J3 by done. split; [done|].
      destruct (data_eq _ _ (D2 t)) as (-> & _). unfold k1. by rewrite thread_with_thread, decide_True.
    + intros j [Hj1 Hj2]%not_elem_of_cons. rewrite J3, J2 by done. unfold k1.
      by rewrite thread_with_thread, decide_False.
Qed.

Lemma resume_all_shrinks fuel q k k' : resume_all_loop fuel q k = Ok k' -> shrinks k k'.
Proof.
  revert k. induction fuel as [|fuel IH]; intros k; cbn; [done|]. intros (l & _ & H)%bind_Ok.
  destruct l as [|t l]; [by injection H as ->|]. steps. etrans; [|by eapply IH]. back back_all.
Qed.

Lemma ipc_resume_evolves {X R} `{!Evolution X R} q k k' : _ipc_list_resume q k = Ok k' -> R k k'.
Proof.
  unfold _ipc_list_resume. intros (l & _ & H)%bind_Ok. destruct l; [done|]. steps. subst. back back_all.
Qed.

Lemma link_heads f a b t k k' : link f a t k = Ok k' -> is_Some (lists k !! b) -> is_Some (lists k' !! b).
Proof.
  unfold link. intros (l & _ & H)%bind_Ok Hb. destruct (unlinked t k); [|done]. injection H as <-. cbn.
  apply lookup_insert_is_Some. destruct (decide (a = b)); auto.
Qed.

Lemma block_on_heads q q' flag t time k k' :
  block_on q flag t time k = Ok k' -> is_Some (lists k !! Waiting q') -> is_Some (lists k' !! Waiting q').
Proof.
  unfold block_on, _ipc_list_suspend. intros H Hq. steps. apply (schedule_evolves (R := shrinks) _ _ H).
  match goal with E : (if 0 <? time then _ else _) = Ok _ |- _ =>
    destruct (0 <? time); [eapply (start_thread_timer_evolves (R := shrinks)); [exact E|]|injection E as <-] end;
  match goal with E : rt_thread_suspend _ _ = Ok _ |- _ => apply (suspend_evolves (R := shrinks)) in E; [|done]; apply (E q') in Hq end;
  repeat match goal with E : (if _ then _ else _) = Ok _ |- _ => destruct (_ =? _) end;
  steps; try (by eapply link_heads).
Qed.

(** The debug checks of a thread that may block. *)
Definition may_block k : Prop :=
  rt_scheduler_lock_nest k = 0 /\ rt_interrupt_nest k = 0 /\ caller_runs k.

Lemma debug_available k : may_block k -> RT_DEBUG_SCHEDULER_AVAILABLE true k = Ok tt.
Proof.
  intros (Hl & Hn & t & Hc & _). unfold RT_DEBUG_SCHEDULER_AVAILABLE, rt_critical_level. rewrite Hl.
  cbn. unfold RT_DEBUG_IN_THREAD_CONTEXT, rt_thread_self. rewrite Hc, bool_decide_true by done. cbn.
  unfold RT_DEBUG_NOT_IN_INTERRUPT, rt_interrupt_get_nest. by rewrite Hn.
Qed.
End Shared.

(** ** Semaphores *)

Section Sem.
Implicit Types (k : kernel) (t : nat) (s : rt_semaphore).

(** Nobody waits while the semaphore has a value. *)
Record sem_ok s k : Prop := {
  sem_range : 0 <= value s <= RT_SEM_VALUE_MAX;
  sem_flag : flag_ok (ipc_flag (sem_parent s));
  sem_head : is_Some (lists k !! Waiting (sem_queue s));
  sem_waiters : members (Waiting (sem_queue s)) k <> [] -> value s = 0 }.

Lemma subseteq_nil (l1 l2 : list nat) : l1 ⊆ l2 -> l1 <> [] -> l2 <> [].
Proof. intros Hs Hn ->. destruct l1 as [|x l1]; [done|]. specialize (Hs x ltac:(by left)). inversion Hs. Qed.

Lemma sem_ok_shrinks s k k' : sem_ok s k -> shrinks k k' -> sem_ok s k'.
Proof.
  intros [H1 H2 H3 H4] Hs. destruct (Hs (sem_queue s)) as [Hsub Hh]. split; [done|done|auto|].
  intros Hn. apply H4. by eapply subseteq_nil.
Qed.

(** What a semaphore is: a counter and a queue. *)
Definition sem_abs s k : Z * list nat := (value s, members (Waiting (sem_queue s)) k).
(** The answer, the new state, and the thread that is woken. *)
Definition spec_release (a : Z * list nat) : Z * (Z * list nat) * option nat :=
  match a with
  | (v, t :: ws) => (RT_EOK, (v, ws), Some t)
  | (v, []) => if v <? RT_SEM_VALUE_MAX then (RT_EOK, (v + 1, []), None) else (- RT_EFULL, (v, []), None)
  end.
Definition spec_take (put : list nat -> list nat) (time : Z) (a : Z * list nat) : outcome * (Z * list nat) :=
  let '(v, ws) := a in
  if 0 <? v then (Return RT_EOK, (v - 1, ws))
  else if time =? 0 then (Return (- RT_ETIMEOUT), (v, ws))
  else (Block, (v, put ws)).

Lemma u16_value v : 0 <= v <= RT_SEM_VALUE_MAX -> u16 v = v.
Proof. unfold RT_SEM_VALUE_MAX. intros. apply u16_small. lia. Qed.

Lemma release_spec s k :
  kernel_ok k -> is_Some (rt_current_thread k) -> sem_ok s k ->
  exists r s' k', rt_sem_release s k = Ok (r, s', k') /\ kernel_ok k' /\ is_Some (rt_current_thread k') /\
    sem_parent s' = sem_parent s /\ shrinks k k' /\
    (r, sem_abs s' k', match members (Waiting (sem_queue s)) k with t :: _ => Some t | [] => None end) =
      spec_release (sem_abs s k) /\
    (forall t l, members (Waiting (sem_queue s)) k = t :: l -> runnable (thread k' t)) /\
    (forall j, data (thread k' j) = data (thread k j)).
Proof.
  intros H Hc [R F Hh W]. unfold rt_sem_release, rt_list_isempty, sem_abs.
  rewrite get_list_members by done. cbn [mbind result_bind].
  destruct (members (Waiting (sem_queue s)) k) as [|t l] eqn:E.
  - rewrite bool_decide_true by done. cbn [negb spec_release].
    destruct (Z.ltb_spec (value s) RT_SEM_VALUE_MAX) as [Hlt|Hge].
    + exists RT_EOK, (set_value (value s + 1) s), k. split_and!; try done.
      cbn. rewrite u16_value by lia. unfold sem_queue in *. cbn. by rewrite E.
    + exists (- RT_EFULL), s, k. split_and!; try done. by rewrite E.
  - rewrite bool_decide_false by done. cbn [negb spec_release].
    destruct (ipc_resume_spec (sem_queue s) t l k H E) as (k1 & E1 & H1 & C1 & R1 & D1 & _ & M1 & _).
    assert (shrinks k k1) as S1.
    { unfold _ipc_list_resume in E1. steps. destruct x; steps; subst; back back_all. }
    rewrite E1. cbn [mbind result_bind].
    destruct (schedule_ok k1 H1) as (k2 & E2 & H2 & F2); [by rewrite C1|].
    rewrite E2. cbn [mbind result_bind]. exists RT_EOK, s, k2. split_and!; try done.
    + apply (sf_current _ _ F2). by rewrite C1.
    + etrans; [exact S1|]. by apply schedule_evolves.
    + rewrite (sf_waiting _ _ F2) by done. by rewrite M1.
    + intros t' l' [= <- <-]. by apply (sched_frame_runnable _ _ t F2).
    + intros j. rewrite (data_frame _ _ j F2). apply D1.
Qed.

Lemma take_spec t time s k :
  kernel_ok k -> may_block k -> rt_current_thread k = Some t -> sem_ok s k -> time < half ->
  exists o s' k', rt_sem_take time s k = Ok (o, s', k') /\ kernel_ok k' /\ is_Some (rt_current_thread k') /\
    sem_parent s' = sem_parent s /\ is_Some (lists k' !! Waiting (sem_queue s)) /\
    (o, sem_abs s' k') = spec_take (enqueue (ipc_flag (sem_parent s)) k t) time (sem_abs s k) /\
    (o = Block -> status (thread k' t) = RT_THREAD_SUSPEND /\ error (thread k' t) = RT_EOK /\
       (0 < time -> t ∈ _timer_list (timers k') /\ left (timers k') t = time)).
Proof.
  intros H Hm Hc [R F Hh W] Ht. unfold rt_sem_take, sem_abs, spec_take.
  destruct (Z.ltb_spec 0 (value s)) as [Hpos|Hneg].
  - exists (Return RT_EOK), (set_value (value s - 1) s), k. split_and!; try done.
    cbn. by rewrite u16_value by lia.
  - destruct (Z.eqb_spec time 0) as [->|Hne].
    + by exists (Return (- RT_ETIMEOUT)), s, k.
    + rewrite debug_available by done. cbn [mbind result_bind]. unfold current. rewrite Hc. cbn [mbind result_bind].
      set (k1 := with_thread (set_error RT_EOK) t k).
      assert (thread k1 t = set_error RT_EOK (thread k t)) as Et by (unfold k1; by rewrite thread_with_thread, decide_True).
      assert (forall j, current_priority (thread k1 j) = current_priority (thread k j)) as Ep.
      { intros j. unfold k1. rewrite thread_with_thread. by case_decide; [subst|]. }
      destruct Hm as (_ & _ & t' & Hc' & Hr). rewrite Hc in Hc'. injection Hc' as <-.
      destruct (block_on_spec (sem_queue s) (ipc_flag (sem_parent s)) t time k1)
        as (k2 & E2 & H2 & C2 & S2 & D2 & M2 & O2 & _ & T2); try done.
      * by apply change_plain_ok.
      * by rewrite Et.
      * rewrite E2. cbn [mbind result_bind]. exists Block, s, k2. split_and!; try done.
        -- by eapply block_on_heads.
        -- rewrite M2. do 2 f_equal. unfold enqueue. destruct (_ =? _); [done|]. by apply insert_priority_ext.
        -- intros _. split_and!; [done| |done]. destruct (data_eq _ _ (D2 t)) as (-> & _). by rewrite Et.
Qed.

(** What happens to a semaphore: calls on it, and anything else in the kernel. *)
Inductive sem_event := TakeSem (time : Z) | ReleaseSem | ResetSem (v : Z) | Other (e : event).

Definition sem_run (e : sem_event) s k : result (rt_semaphore * kernel) :=
  match e with
  | TakeSem time => '(_, s, k) ← rt_sem_take time s k; Ok (s, k)
  | ReleaseSem => '(_, s, k) ← rt_sem_release s k; Ok (s, k)
  | ResetSem v => '(_, s, k) ← rt_sem_control RT_IPC_CMD_RESET v s k; Ok (s, k)
  | Other e => k ← run e k; Ok (s, k)
  end.
Definition sem_enabled (e : sem_event) k : Prop :=
  match e with
  | TakeSem time => may_block k /\ time < half
  | ReleaseSem | ResetSem _ => True
  | Other e => enabled e k
  end.
Inductive sem_reachable s0 (k0 : kernel) : rt_semaphore -> kernel -> Prop :=
| sem_start : sem_reachable s0 k0 s0 k0
| sem_step e s k s' k' : sem_reachable s0 k0 s k -> sem_enabled e k -> sem_run e s k = Ok (s', k') ->
                         sem_reachable s0 k0 s' k'.

Lemma sem_run_ok e s k :
  kernel_ok k -> is_Some (rt_current_thread k) -> sem_ok s k -> sem_enabled e k ->
  exists s' k', sem_run e s k = Ok (s', k') /\ kernel_ok k' /\ is_Some (rt_current_thread k') /\ sem_ok s' k'.
Proof.
  intros H Hc S He. destruct e as [time| |v|e]; cbn [sem_run sem_enabled] in *.
  - destruct He as [Hm Ht]. destruct Hc as [t Hc].
    destruct (take_spec t time s k H Hm Hc S Ht) as (o & s' & k' & E & H' & C' & P & Hh & A & _).
    rewrite E. exists s', k'. split_and!; try done. destruct S as [R F Hd W].
    unfold sem_abs, spec_take in A. unfold sem_queue in *. rewrite P in A.
    split; unfold sem_queue; rewrite ?P; try done;
      (destruct (Z.ltb_spec 0 (value s)) as [Hp|Hn]; [injection A as _ A1 A2|
        destruct (time =? 0); injection A as _ A1 A2]); rewrite ?A1, ?A2; try lia; intros Hnil;
        try (apply W in Hnil; lia); lia.
  - destruct (release_spec s k H Hc S) as (r & s' & k' & E & H' & C' & P & Sh & A & _ & _).
    rewrite E. exists s', k'. split_and!; try done. destruct S as [R F Hd W].
    unfold sem_abs, spec_release in A. unfold sem_queue in *. rewrite P in A.
    destruct (members (Waiting (suspend_thread (sem_parent s))) k) as [|t l] eqn:El.
    + destruct (Z.ltb_spec (value s) RT_SEM_VALUE_MAX) as [Hp|Hn]; injection A as _ A1 A2;
        split; unfold sem_queue; rewrite ?P, ?A1, ?A2; try done; try lia; by apply Sh.
    + injection A as _ A1 A2. specialize (W ltac:(done)).
      split; unfold sem_queue; rewrite ?P, ?A1, ?A2; try done. by apply Sh.
  - unfold rt_sem_control, _ipc_list_resume_all. rewrite Z.eqb_refl. pose proof S as [R F Hd W].
    destruct (resume_all_spec (sem_queue s) _ (Datatypes.S (length (members (Waiting (sem_queue s)) k))) k H Hd eq_refl ltac:(lia))
      as (k1 & E1 & H1 & C1 & M1 & _). rewrite E1. cbn [mbind result_bind].
    destruct (schedule_ok k1 H1) as (k2 & E2 & H2 & F2); [by rewrite C1|].
    rewrite E2. cbn [mbind result_bind]. exists (set_value v s), k2. split_and!; try done.
    + apply (sf_current _ _ F2). by rewrite C1.
    + assert (members (Waiting (sem_queue s)) k2 = []) as M2 by (rewrite (sf_waiting _ _ F2); done).
      split; try done.
      * cbn. unfold RT_SEM_VALUE_MAX. pose proof (u16_range v). lia.
      * change (is_Some (lists k2 !! Waiting (sem_queue s))).
        apply (schedule_evolves (R := shrinks) _ _ E2). by apply (resume_all_shrinks _ _ _ _ E1).
  - destruct (run_ok e k H Hc He) as (k' & E & H' & C'). rewrite E. exists s, k'.
    split_and!; try done. eapply sem_ok_shrinks; [done|]. by eapply run_shrinks.
Qed.
End Sem.

(** ** Mutexes *)

Section Mutex.
Implicit Types (k : kernel) (t o : nat) (m : rt_mutex).

Record mutex_ok m k : Prop := {
  mx_flag : ipc_flag (mutex_parent m) = RT_IPC_FLAG_PRIO;
  mx_head : is_Some (lists k !! Waiting (mutex_queue m));
  mx_owner : match owner m with
    | None => mutex_value m = 1 /\ hold m = 0 /\ members (Waiting (mutex_queue m)) k = []
    | Some o => mutex_value m = 0 /\ 1 <= hold m <= RT_MUTEX_HOLD_MAX /\
        o ∉ members (Waiting (mutex_queue m)) k /\ 0 <= original_priority m < RT_THREAD_PRIORITY_MAX
    end }.

Lemma mutex_ok_shrinks m k k' : mutex_ok m k -> shrinks k k' -> mutex_ok m k'.
Proof.
  intros [F Hd O] Hs. destruct (Hs (mutex_queue m)) as [Hsub Hh]. split; [done|auto|].
  destruct (owner m) as [o|].
  - destruct O as (V & Ho & Hn & P). split_and!; try done; try lia. intros Hin. by apply Hn, Hsub.
  - destruct O as (V & Ho & Hn). split_and!; [done|done|]. rewrite Hn in Hsub.
    destruct (members (Waiting (mutex_queue m)) k') as [|x l]; [done|].
    specialize (Hsub x ltac:(by left)). inversion Hsub.
Qed.

(** What a mutex is: an owner, how often it holds the mutex and the priority it
    had before, and a queue. *)
Record lock := mk_lock { l_owner : option nat; l_hold : Z; l_priority : Z; l_queue : list nat }.
Definition mutex_abs m k : lock :=
  mk_lock (owner m) (hold m) (original_priority m) (members (Waiting (mutex_queue m)) k).

Definition spec_lock (t : nat) (prio : nat -> Z) (put : list nat -> list nat) (time : Z) (a : lock)
  : outcome * lock :=
  match l_owner a with
  | None => (Return RT_EOK, mk_lock (Some t) 1 (prio t) (l_queue a))
  | Some o =>
      if bool_decide (o = t) then
        if l_hold a <? RT_MUTEX_HOLD_MAX
        then (Return RT_EOK, mk_lock (Some t) (l_hold a + 1) (l_priority a) (l_queue a))
        else (Return (- RT_EFULL), a)
      else if time =? 0 then (Return (- RT_ETIMEOUT), a)
      else (Block, mk_lock (Some o) (l_hold a) (l_priority a) (put (l_queue a)))
  end.

(** The answer, the new state, and the thread that gets the mutex. *)
Definition spec_unlock (t : nat) (prio : nat -> Z) (a : lock) : Z * lock * option nat :=
  if bool_decide (l_owner a = Some t) then
    if 1 <? l_hold a
    then (RT_EOK, mk_lock (Some t) (l_hold a - 1) (l_priority a) (l_queue a), None)
    else match l_queue a with
         | f :: ws => (RT_EOK, mk_lock (Some f) 1 (prio f) ws, Some f)
         | [] => (RT_EOK, mk_lock None 0 0xff [], None)
         end
  else (- RT_ERROR, a, None).

Definition priority k (t : nat) : Z := current_priority (thread k t).

Lemma priority_data k k' : (forall j, data (thread k' j) = data (thread k j)) ->
  forall j, priority k' j = priority k j.
Proof. intros D j. by destruct (data_eq _ _ (D j)) as (_ & ? & _). Qed.

Lemma set_error_ok e t k : kernel_ok k -> kernel_ok (with_thread (set_error e) t k).
Proof. by apply change_plain_ok. Qed.

Lemma priority_set_error e t k j : priority (with_thread (set_error e) t k) j = priority k j.
Proof. unfold priority. rewrite thread_with_thread. by case_decide; [subst|]. Qed.

(** The owner runs with at least the priority of the thread that waits. *)
Lemma inherit_spec t o k :
  kernel_ok k -> t <> o ->
  exists k', (if current_priority (thread k t) <? current_priority (thread k o)
              then change_priority o (current_priority (thread k t)) k else Ok k) = Ok k' /\
    kernel_ok k' /\ rt_current_thread k' = rt_current_thread k /\
    rt_scheduler_lock_nest k' = rt_scheduler_lock_nest k /\
    thread k' t = thread k t /\ priority k' o = Z.min (priority k t) (priority k o) /\
    (forall j, j <> o -> priority k' j = priority k j) /\ shrinks k k' /\
    (forall a, (forall p, a <> Ready p) -> members a k' = members a k).
Proof.
  intros H Hne. destruct (Z.ltb_spec (current_priority (thread k t)) (current_priority (thread k o))) as [Hlt|Hge].
  - destruct (priority_ok o (current_priority (thread k t)) k H) as (k' & E & H' & C' & _ & L' & _ & Ej & _ & Ep & M').
    { apply (si_thread _ _ _ (ko_sched _ H)). }
    exists k'. split_and!; try done.
    + by apply Ej.
    + unfold priority. rewrite Ep. lia.
    + intros j Hj. unfold priority. by rewrite Ej.
    + by apply (run_shrinks (ChangePriority o (current_priority (thread k t)))).
  - exists k. split_and!; try done. unfold priority. lia.
Qed.

Lemma mutex_take_spec t time m k :
  kernel_ok k -> may_block k -> rt_current_thread k = Some t -> mutex_ok m k ->
  t ∉ members (Waiting (mutex_queue m)) k -> time < half ->
  exists r m' k', rt_mutex_take time m k = Ok (r, m', k') /\ kernel_ok k' /\
    is_Some (rt_current_thread k') /\ mutex_ok m' k' /\ mutex_parent m' = mutex_parent m /\
    (r, mutex_abs m' k') =
      spec_lock t (priority k) (insert_priority (thread k) t) time (mutex_abs m k) /\
    (r = Block -> exists o, owner m = Some o /\ o <> t /\ status (thread k' t) = RT_THREAD_SUSPEND /\
       priority k' o = Z.min (priority k t) (priority k o) /\
       (forall j, j <> o -> priority k' j = priority k j) /\
       (0 < time -> t ∈ _timer_list (timers k') /\ left (timers k') t = time)).
Proof.
  intros H Hm Hc M Hq Ht. pose proof M as [F Hd O]. unfold rt_mutex_take, mutex_abs, spec_lock.
  rewrite debug_available by done. cbn [mbind result_bind]. unfold current. rewrite Hc. cbn [mbind result_bind].
  set (k1 := with_thread (set_error RT_EOK) t k). cbn [l_owner l_hold l_priority l_queue].
  assert (kernel_ok k1) as H1 by by apply set_error_ok.
  assert (forall j, priority k1 j = priority k j) as Ep by (intros j; apply priority_set_error).
  assert (shrinks k k1) as Sh1 by by apply shrinks_lists.
  pose proof (tk_priority _ (si_thread _ _ _ (ko_sched _ H) t)) as Hpt.
  destruct (owner m) as [o|] eqn:Eo.
  - destruct O as (V & Ho & Hno & Po). destruct (decide (o = t)) as [->|Hne].
    + rewrite !bool_decide_true by done. destruct (Z.ltb_spec (hold m) RT_MUTEX_HOLD_MAX) as [Hlt|Hge].
      * assert (u8 (hold m + 1) = hold m + 1) as Eu by (unfold RT_MUTEX_HOLD_MAX in *; cint; lia).
        eexists _, _, k1. split_and!; try done.
        -- split; [done|exact Hd|]. cbn [owner mutex_value hold original_priority]. rewrite Eu.
           split_and!; try done; lia.
        -- cbn. by rewrite Eu.
      * exists (Return (- RT_EFULL)), m, k1. split_and!; try done.
        -- by eapply mutex_ok_shrinks.
        -- by rewrite Eo.
    + rewrite (bool_decide_false (Some o = Some t)), (bool_decide_false (o = t)) by congruence.
      rewrite V. cbn [Z.ltb Z.compare]. destruct (Z.eqb_spec time 0) as [->|Hnz].
      * eexists _, m, (with_thread (set_error (- RT_ETIMEOUT)) t k1). split_and!; try done.
        -- by apply set_error_ok.
        -- by apply (mutex_ok_shrinks m k); [|by apply shrinks_lists].
        -- by rewrite Eo.
      * destruct (inherit_spec t o k1 H1 ltac:(done)) as (k2 & E2 & H2 & C2 & L2 & T2 & P2 & Pj2 & Sh2 & M2).
        rewrite E2. cbn [mbind result_bind].
        destruct Hm as (_ & _ & t' & Hc' & Hr). rewrite Hc in Hc'. injection Hc' as <-.
        destruct (block_on_spec (mutex_queue m) (ipc_flag (mutex_parent m)) t time k2)
          as (k3 & E3 & H3 & C3 & S3 & D3 & M3 & O3 & _ & T3); try done.
        -- by rewrite C2.
        -- rewrite T2. unfold k1. by rewrite thread_with_thread, decide_True.
        -- right. exact F.
        -- by apply Sh2.
        -- rewrite E3. cbn [mbind result_bind].
           assert (members (Waiting (mutex_queue m)) k3 =
                   enqueue RT_IPC_FLAG_PRIO k2 t (members (Waiting (mutex_queue m)) k)) as M3'.
           { rewrite M3, F, M2 by done. done. }
           exists Block, m, k3. split_and!; try done.
           ++ split; [done|eapply block_on_heads; [done|by apply Sh2]|]. rewrite Eo.
              split_and!; try done; try lia. rewrite M3', enqueue_perm. intros [->|?]%elem_of_cons; done.
           ++ rewrite Eo, M3'. cbn. do 2 f_equal. apply insert_priority_ext_in.
              intros j Hj. fold (priority k2 j) (priority k j). rewrite Pj2, Ep; [done|].
              destruct Hj as [->|Hj]; [done|]. by intros ->.
           ++ intros _. exists o. split_and!; try done.
              ** rewrite (priority_data _ _ D3), P2. by rewrite !Ep.
              ** intros j Hj. rewrite (priority_data _ _ D3), Pj2 by done. apply Ep.
  - destruct O as (V & Ho & Hn). rewrite bool_decide_false by done. rewrite V, Ho, Hn. cbn.
    eexists _, _, k1. split_and!; try done.
    + split; [done|exact Hd|]. cbn. split_and!; try done.
      all: rewrite fn_lookup_insert; apply Hpt.
    + cbn. rewrite fn_lookup_insert. unfold mutex_queue. cbn. do 2 f_equal. exact Hn.
Qed.

(** The owner gets back the priority it had. *)
Lemma restore_priority_spec t p k :
  kernel_ok k -> 0 <= p < RT_THREAD_PRIORITY_MAX ->
  exists k1, (if negb (p =? current_priority (thread k t)) then change_priority t p k else Ok k) = Ok k1 /\
    kernel_ok k1 /\ rt_current_thread k1 = rt_current_thread k /\ priority k1 t = p /\ shrinks k k1 /\
    (forall j, j <> t -> priority k1 j = priority k j) /\
    (forall a, (forall q, a <> Ready q) -> members a k1 = members a k).
Proof.
  intros H Hp. destruct (Z.eqb_spec p (current_priority (thread k t))) as [Heq|Hneq]; cbn [negb].
  - exists k. split_and!; done.
  - destruct (priority_ok t p k H Hp) as (k1 & E1 & H1 & C1 & _ & _ & _ & Ej & _ & Ep & M1).
    exists k1. split_and!; try done.
    + by apply (run_shrinks (ChangePriority t p)).
    + intros j Hj. unfold priority. by rewrite Ej.
Qed.

(** The first waiter is woken and the processor given to who should have it. *)
Lemma handover_spec q f l k :
  kernel_ok k -> is_Some (rt_current_thread k) -> members (Waiting q) k = f :: l ->
  exists k2 k3, _ipc_list_resume q k = Ok k2 /\ rt_schedule k2 = Ok k3 /\ kernel_ok k3 /\
    is_Some (rt_current_thread k3) /\ (forall j, priority k3 j = priority k j) /\
    members (Waiting q) k3 = l /\ shrinks k k3 /\ runnable (thread k3 f).
Proof.
  intros H Hc El. destruct (ipc_resume_spec q f l k H El) as (k2 & E2 & H2 & C2 & R2 & D2 & _ & M2 & O2).
  destruct (schedule_ok k2 H2) as (k3 & E3 & H3 & F3); [by rewrite C2|].
  exists k2, k3. split_and!; try done.
  - apply (sf_current _ _ F3). by rewrite C2.
  - intros j. unfold priority. destruct (data_eq _ _ (data_frame _ _ j F3)) as (_ & -> & _).
    by destruct (data_eq _ _ (D2 j)) as (_ & -> & _).
  - rewrite (sf_waiting _ _ F3); done.
  - etrans; [by eapply ipc_resume_evolves|]. by apply schedule_evolves.
  - by apply (sched_frame_runnable _ _ f F3).
Qed.

Lemma mutex_release_spec t m k :
  kernel_ok k -> rt_interrupt_nest k = 0 -> rt_current_thread k = Some t -> mutex_ok m k ->
  exists r m' k', rt_mutex_release m k = Ok (r, m', k') /\ kernel_ok k' /\
    is_Some (rt_current_thread k') /\ mutex_ok m' k' /\ mutex_parent m' = mutex_parent m /\ shrinks k k' /\
    (r, mutex_abs m' k', if bool_decide (owner m = Some t) && (hold m =? 1) then owner m' else None) =
      spec_unlock t (priority k) (mutex_abs m k) /\
    (owner m = Some t -> hold m = 1 ->
       priority k' t = original_priority m /\ (forall j, j <> t -> priority k' j = priority k j) /\
       (forall f, owner m' = Some f -> runnable (thread k' f))).
Proof.
  intros H Hn Hc M. pose proof M as [F Hd O]. unfold rt_mutex_release, mutex_abs, spec_unlock.
  assert (RT_DEBUG_IN_THREAD_CONTEXT k = Ok tt) as ->.
  { unfold RT_DEBUG_IN_THREAD_CONTEXT, rt_thread_self, RT_DEBUG_NOT_IN_INTERRUPT, rt_interrupt_get_nest.
    rewrite Hc, Hn. by rewrite bool_decide_true. }
  cbn [mbind result_bind]. unfold current. rewrite Hc. cbn [mbind result_bind l_owner l_hold l_priority l_queue].
  destruct (decide (owner m = Some t)) as [Eo|Eo].
  2: { rewrite !bool_decide_false by done. cbn [negb andb].
       exists (- RT_ERROR), m, (with_thread (set_error (- RT_ERROR)) t k). split_and!; try done.
       by apply set_error_ok. }
  rewrite !bool_decide_true by done. cbn [negb andb]. rewrite Eo in O. destruct O as (V & Ho & Hno & Po).
  unfold RT_MUTEX_HOLD_MAX in Ho. assert (u8 (hold m - 1) = hold m - 1) as Eu by (cint; lia).
  cbn [hold original_priority owner mutex_value mutex_parent]. rewrite Eu.
  destruct (Z.ltb_spec 1 (hold m)) as [Hgt|Hle].
  - replace (hold m - 1 =? 0) with false by lia. replace (hold m =? 1) with false by lia. cbn [negb].
    eexists _, _, k. split_and!; try done; [|by rewrite <- Eo|lia..].
    split; [done|exact Hd|]. cbn [owner mutex_value hold original_priority]. rewrite Eo.
    split_and!; try done; unfold RT_MUTEX_HOLD_MAX; lia.
  - replace (hold m - 1 =? 0) with true by lia. replace (hold m =? 1) with true by lia. cbn [negb].
    destruct (restore_priority_spec t (original_priority m) k H Po) as (k1 & E1 & H1 & C1 & P1 & Sh1 & Pj1 & M1).
    rewrite Hc in C1.
    rewrite E1. cbn [mbind result_bind]. unfold mutex_queue. cbn [mutex_parent]. fold (mutex_queue m).
    assert (is_Some (lists k1 !! Waiting (mutex_queue m))) as Hd1 by by apply Sh1.
    rewrite get_list_members by done. rewrite M1 by done. cbn [mbind result_bind].
    destruct (members (Waiting (mutex_queue m)) k) as [|f l] eqn:El.
    + rewrite V. cbn [Z.ltb Z.compare RT_MUTEX_VALUE_MAX]. eexists _, _, k1. split_and!; try done.
      * split; [done|exact Hd1|]. cbn. split_and!; [done|lia|]. rewrite M1 by done. exact El.
      * cbn. replace (hold m - 1) with 0 by lia. unfold mutex_queue. cbn. fold (mutex_queue m).
        do 3 f_equal. rewrite M1 by done. exact El.
    + cbn [hold]. replace (hold m - 1 <? RT_MUTEX_HOLD_MAX) with true by (unfold RT_MUTEX_HOLD_MAX; lia).
      cbn [owner mutex_value mutex_parent original_priority hold].
      replace (u8 (hold m - 1 + 1)) with 1 by (cint; lia).
      assert (f <> t) as Hft by (intros ->; apply Hno; by left).
      destruct (handover_spec (mutex_queue m) f l k1 H1) as (k2 & k3 & E2 & E3 & H3 & C3 & Ep3 & M3 & Sh3 & R3);
        [by exists t|by rewrite M1|].
      rewrite E2. cbn [mbind result_bind]. rewrite E3. cbn [mbind result_bind].
      pose proof (si_nodup _ _ _ (ko_sched _ H) (Waiting (mutex_queue m))) as Hnd. rewrite El in Hnd.
      apply NoDup_cons in Hnd as [Hnf _].
      eexists _, _, k3. split_and!; try done.
      * split; [done|by apply Sh3, Sh1|]. unfold mutex_queue. cbn. fold (mutex_queue m). rewrite M3. split_and!; try done.
        all: apply (si_thread _ _ _ (ko_sched _ H1)).
      * by etrans.
      * cbn. unfold mutex_queue. cbn. fold (mutex_queue m). rewrite M3. by rewrite <- (Pj1 f Hft).
      * intros _ _. split_and!.
        -- by rewrite Ep3.
        -- intros j Hj. rewrite Ep3. by apply Pj1.
        -- by intros f' [= <-].
Qed.
Inductive mutex_event := TakeMutex (time : Z) | ReleaseMutex | OtherEvent (e : event).
Definition mutex_run (e : mutex_event) m k : result (rt_mutex * kernel) :=
  match e with
  | TakeMutex time => '(_, m, k) ← rt_mutex_take time m k; Ok (m, k)
  | ReleaseMutex => '(_, m, k) ← rt_mutex_release m k; Ok (m, k)
  | OtherEvent e => k ← run e k; Ok (m, k)
  end.
Definition mutex_enabled (e : mutex_event) k : Prop :=
  match e with
  | TakeMutex time => may_block k /\ time < half
  | ReleaseMutex => rt_interrupt_nest k = 0
  | OtherEvent e => enabled e k
  end.
Inductive mutex_reachable m0 (k0 : kernel) : rt_mutex -> kernel -> Prop :=
| mutex_start : mutex_reachable m0 k0 m0 k0
| mutex_step e m k m' k' : mutex_reachable m0 k0 m k -> mutex_enabled e k ->
    mutex_run e m k = Ok (m', k') -> mutex_reachable m0 k0 m' k'.

Lemma running_waits q t k :
  kernel_ok k -> status (thread k t) = RT_THREAD_RUNNING -> t ∉ members (Waiting q) k.
Proof.
  intros H Hs. apply unlinked_spec. eapply unlinked_status; [apply H|by right].
Qed.

Lemma may_block_current t k : may_block k -> rt_current_thread k = Some t -> status (thread k t) = RT_THREAD_RUNNING.
Proof. intros (_ & _ & t' & Hc & Hs) Hc'. congruence. Qed.

Lemma mutex_run_ok e m k :
  kernel_ok k -> is_Some (rt_current_thread k) -> mutex_ok m k -> mutex_enabled e k ->
  exists m' k', mutex_run e m k = Ok (m', k') /\ kernel_ok k' /\ is_Some (rt_current_thread k') /\ mutex_ok m' k'.
Proof.
  intros H Hc M He. destruct e as [time| |e]; cbn [mutex_run mutex_enabled] in *.
  - destruct He as [Hm Ht]. destruct Hc as [t Hc]. pose proof (may_block_current t k Hm Hc) as Hs.
    destruct (mutex_take_spec t time m k H Hm Hc M (running_waits _ _ _ H Hs) Ht) as (r & m' & k' & E & H' & C' & M' & _).
    rewrite E. by exists m', k'.
  - destruct Hc as [t Hc].
    destruct (mutex_release_spec t m k H He Hc M) as (r & m' & k' & E & H' & C' & M' & _).
    rewrite E. by exists m', k'.
  - destruct (run_ok e k H Hc He) as (k' & E & H' & C'). rewrite E. exists m, k'.
    split_and!; try done. eapply mutex_ok_shrinks; [done|]. by eapply run_shrinks.
Qed.

Lemma mutex_reachable_ok m0 k0 m k :
  kernel_ok k0 -> is_Some (rt_current_thread k0) -> mutex_ok m0 k0 -> mutex_reachable m0 k0 m k ->
  kernel_ok k /\ is_Some (rt_current_thread k) /\ mutex_ok m k.
Proof.
  intros H0 C0 M0. induction 1 as [|e m k m' k' Hr (H & C & M) He E]; [done|].
  destruct (mutex_run_ok e m k H C M He) as (m2 & k2 & E2 & H2 & C2 & M2).
  rewrite E in E2. by injection E2 as <- <-.
Qed.
End Mutex.

(** ** Events *)

Section Event.
Implicit Types (k : kernel) (t : nat) (e : rt_event) (v : Z).

(** The condition of a waiter, and what it gets. *)
Definition wants (th : rt_thread) v : bool :=
  if has_bit RT_EVENT_FLAG_AND (event_info th) then Z.land (event_set th) v =? event_set th
  else negb (Z.land (event_set th) v =? 0).
Definition received (th : rt_thread) v : Z :=
  if has_bit RT_EVENT_FLAG_AND (event_info th) then event_set th else Z.land (event_set th) v.
Definition taken (th : rt_thread) v : Z :=
  if has_bit RT_EVENT_FLAG_CLEAR (event_info th) then Z.land v (u32 (Z.lnot (received th v))) else v.

(** Who is woken with what, who stays, and the set that is left. *)
Fixpoint deliver (th : nat -> rt_thread) (ts : list nat) v : list (nat * Z) * list nat * Z :=
  match ts with
  | [] => ([], [], v)
  | t :: ts =>
      if wants (th t) v then
        let '(w, l, v') := deliver th ts (taken (th t) v) in ((t, received (th t) v) :: w, l, v')
      else let '(w, l, v') := deliver th ts v in (w, t :: l, v')
  end.

Definition waits_for_event (th : rt_thread) : Prop :=
  has_bit RT_EVENT_FLAG_AND (event_info th) || has_bit RT_EVENT_FLAG_OR (event_info th) = true.

Record event_ok e k : Prop := {
  ev_flag : flag_ok (ipc_flag (event_parent e));
  ev_head : is_Some (lists k !! Waiting (event_queue e));
  ev_waiters : forall t, t ∈ members (Waiting (event_queue e)) k -> waits_for_event (thread k t) }.

(** [v'] has no bit that [v] has not. *)
Definition sub v' v : Prop := Z.land v' v = v'.
Lemma sub_taken th v : sub (taken th v) v.
Proof.
  unfold sub, taken. destruct (has_bit _ _); [|apply Z.land_diag].
  rewrite (Z.land_comm v), <- Z.land_assoc. by rewrite Z.land_diag.
Qed.
Lemma sub_trans v1 v2 v3 : sub v1 v2 -> sub v2 v3 -> sub v1 v3.
Proof. unfold sub. intros H1 H2. by rewrite <- H1, <- Z.land_assoc, H2. Qed.

Lemma deliver_sub th ts v : sub (deliver th ts v).2 v.
Proof.
  revert v. induction ts as [|t ts IH]; intros v; cbn; [apply Z.land_diag|]. destruct (wants (th t) v).
  - specialize (IH (taken (th t) v)). destruct (deliver th ts _) as [[w l] v']. cbn in *.
    eapply sub_trans; [exact IH|apply sub_taken].
  - specialize (IH v). by destruct (deliver th ts v) as [[w l] v'].
Qed.

Lemma wants_sub th v' v : sub v' v -> wants th v' = true -> wants th v = true.
Proof.
  unfold sub, wants. intros Hs. destruct (has_bit _ _).
  - rewrite !Z.eqb_eq. intros E. rewrite <- E at 1. rewrite <- Z.land_assoc, Hs. exact E.
  - destruct (Z.eqb_spec (Z.land (event_set th) v) 0) as [E|E]; [|done].
    rewrite <- Hs, (Z.land_comm v'), Z.land_assoc, E. done.
Qed.

(** Nobody who stays has its condition fulfilled by what is left. *)
Lemma deliver_left th ts v t : t ∈ (deliver th ts v).1.2 -> t ∈ ts /\ wants (th t) (deliver th ts v).2 = false.
Proof.
  revert v. induction ts as [|j ts IH]; intros v; cbn; [by intros ?%not_elem_of_nil|].
  destruct (wants (th j) v) eqn:Hw.
  - specialize (IH (taken (th j) v)). destruct (deliver th ts _) as [[w l] v']. cbn in *.
    intros [H1 H2]%IH. split; [by right|done].
  - pose proof (deliver_sub th ts v) as Hsub. specialize (IH v).
    destruct (deliver th ts v) as [[w l] v']. cbn in *.
    intros [->|Hin]%elem_of_cons; [|by destruct (IH Hin); split; [right|]].
    split; [by left|]. destruct (wants (th j) v') eqn:Hw'; [|done].
    by rewrite (wants_sub _ _ _ Hsub Hw') in Hw.
Qed.

Lemma deliver_woken th ts v t g : (t, g) ∈ (deliver th ts v).1.1 -> t ∈ ts.
Proof.
  revert v. induction ts as [|j ts IH]; intros v; cbn; [by intros ?%not_elem_of_nil|].
  destruct (wants (th j) v).
  - specialize (IH (taken (th j) v)). destruct (deliver th ts _) as [[w l] v']. cbn in *.
    intros [[= -> ->]|Hin]%elem_of_cons; [by left|right; by apply IH].
  - specialize (IH v). destruct (deliver th ts v) as [[w l] v']. cbn in *. intros Hin. right. by apply IH.
Qed.

Lemma deliver_disjoint th ts v t :
  NoDup ts -> t ∈ (deliver th ts v).1.2 -> t ∉ (deliver th ts v).1.1.*1.
Proof.
  intros Hn. revert v. induction Hn as [|j ts Hj Hn IH]; intros v; cbn; [by intros ?%not_elem_of_nil|].
  destruct (wants (th j) v).
  - pose proof (deliver_left th ts (taken (th j) v) t) as Hl. specialize (IH (taken (th j) v)).
    destruct (deliver th ts _) as [[w l] v']. cbn in *. intros Hin.
    apply not_elem_of_cons. split; [|by apply IH]. intros ->. by destruct (Hl Hin).
  - pose proof (fun g => deliver_woken th ts v j g) as Hw. specialize (IH v).
    destruct (deliver th ts v) as [[w l] v']. cbn in *.
    intros [->|Hin]%elem_of_cons; [|by apply IH].
    intros ([j' g] & -> & Hin)%list_elem_of_fmap. by apply (Hw g) in Hin.
Qed.

Lemma deliver_ext th th' ts v :
  (forall t, t ∈ ts -> th' t = th t) -> deliver th' ts v = deliver th ts v.
Proof.
  revert v. induction ts as [|t ts IH]; intros v E; cbn; [done|].
  rewrite (E t) by by left. by rewrite !IH by (intros j Hj; apply E; by right).
Qed.

(** One step of the loop for a thread whose condition holds. *)
Definition marked (t : nat) (e : rt_event) (k : kernel) : kernel :=
  if has_bit RT_EVENT_FLAG_AND (event_info (thread k t)) then k
  else with_thread (set_event (Z.land (event_set (thread k t)) (set e)) (event_info (thread k t))) t k.

Lemma send_wakes_spec q t pre ts e k :
  kernel_ok k -> members (Waiting q) k = pre ++ t :: ts ->
  event_info (thread (marked t e k) t) = event_info (thread k t) /\
  event_set (thread (marked t e k) t) = received (thread k t) (set e) /\
  exists k2, rt_thread_resume t (marked t e k) = Ok (RT_EOK, k2) /\ kernel_ok k2 /\
    rt_current_thread k2 = rt_current_thread k /\ members (Waiting q) k2 = pre ++ ts /\
    (forall j, j <> t -> thread k2 j = thread k j) /\ runnable (thread k2 t) /\
    event_set (thread k2 t) = received (thread k t) (set e) /\ error (thread k2 t) = error (thread k t) /\
    shrinks k k2.
Proof.
  intros H Em. set (th := thread k t). set (k1 := marked t e k).
  pose proof (si_nodup _ _ _ (ko_sched _ H) (Waiting q)) as Hn. rewrite Em in Hn.
  apply NoDup_app in Hn as (Hnp & Hdis & Hnt). apply NoDup_cons in Hnt as [Hnt Hnts].
  assert (t ∈ members (Waiting q) k) as Hin by (rewrite Em; set_solver).
  destruct (si_belongs _ _ _ (ko_sched _ H) _ _ Hin) as [Hs _]. cbn in Hs. fold th in Hs.
  assert (kernel_ok k1) as H1.
  { unfold k1, marked. destruct (has_bit _ _); [done|]. by apply change_plain_ok. }
  assert (event_set (thread k1 t) = received th (set e) /\ event_info (thread k1 t) = event_info th /\
          error (thread k1 t) = error th /\ status (thread k1 t) = RT_THREAD_SUSPEND) as (R1 & R2 & R3 & R4).
  { unfold k1, marked, received. fold th. destruct (has_bit RT_EVENT_FLAG_AND _); [done|].
    by rewrite thread_with_thread, decide_True. }
  assert (forall j, j <> t -> thread k1 j = thread k j) as J1.
  { intros j Hj. unfold k1, marked. destruct (has_bit _ _); [done|]. by rewrite thread_with_thread, decide_False. }
  assert (members (Waiting q) k1 = members (Waiting q) k /\ rt_current_thread k1 = rt_current_thread k) as [Em1 C1]
    by (unfold k1, marked; by destruct (has_bit _ _)).
  assert (shrinks k k1) as Sh1.
  { apply shrinks_lists. unfold k1, marked. by destruct (has_bit RT_EVENT_FLAG_AND _). }
  destruct (resume_spec t k1 H1 R4) as (k2 & E2 & H2 & C2 & _ & _ & J2 & T2 & Rn2 & _ & M2).
  split_and!; [done|done|]. exists k2. split_and!; [done|done|congruence| | |done|by rewrite T2|by rewrite T2|].
  - rewrite M2, Em1, Em by done. unfold del. rewrite filter_app, filter_cons_False by tauto.
    fold (del t pre) (del t ts). rewrite !del_notin; [done|done|]. intros Hp. apply (Hdis t Hp). by left.
  - intros j Hj. by rewrite J2, J1.
  - etrans; [exact Sh1|]. by eapply (resume_evolves (R := shrinks)).
Qed.

Lemma send_loop_spec q ts pre need e k :
  kernel_ok k -> event_queue e = q -> members (Waiting q) k = pre ++ ts ->
  (forall t, t ∈ ts -> waits_for_event (thread k t)) ->
  let '(w, l, v') := deliver (thread k) ts (set e) in
  exists k', send_loop ts need e k = Ok (RT_EOK, need || negb (bool_decide (w = [])), set_set v' e, k') /\
    kernel_ok k' /\ rt_current_thread k' = rt_current_thread k /\
    members (Waiting q) k' = pre ++ l /\
    (forall t g, (t, g) ∈ w -> t ∈ ts /\ runnable (thread k' t) /\ event_set (thread k' t) = g /\
                               error (thread k' t) = error (thread k t)) /\
    (forall j, j ∉ w.*1 -> thread k' j = thread k j) /\ shrinks k k'.
Proof.
  revert pre need e k. induction ts as [|t ts IH]; intros pre need e k H Eq Em Hw.
  - cbn. exists k. split_and!; try done; [by rewrite orb_false_r; destruct e|].
    by intros t g ?%not_elem_of_nil.
  - cbn [send_loop deliver]. set (th := thread k t).
    assert (waits_for_event th) as Hth by (apply Hw; by left). unfold waits_for_event in Hth. rewrite Hth.
    assert (t ∉ ts) as Hnt.
    { pose proof (si_nodup _ _ _ (ko_sched _ H) (Waiting q)) as Hn. rewrite Em in Hn.
      apply NoDup_app in Hn as (_ & _ & Hn). by apply NoDup_cons in Hn as [Hn _]. }
    set (st := if has_bit RT_EVENT_FLAG_AND (event_info th) then _ else _).
    assert (st = (wants th (set e), if wants th (set e) then marked t e k else k)) as ->.
    { unfold st, wants, marked. fold th. destruct (has_bit RT_EVENT_FLAG_AND _); [by destruct (_ =? _)|by destruct (_ =? _)]. }
    destruct (wants th (set e)) eqn:Ew.
    + destruct (send_wakes_spec q t pre ts e k H Em) as (R2 & R1 & k2 & E2 & H2 & C2 & Em2 & J2 & Rn2 & V2 & X2 & Sh2).
      fold th in R1, R2, V2, X2.
      rewrite R2, R1, E2. cbn [mbind result_bind].
      set (e2 := if has_bit RT_EVENT_FLAG_CLEAR (event_info th) then _ else e).
      assert (set e2 = taken th (set e) /\ event_parent e2 = event_parent e) as [Es2 Ep2].
      { unfold e2, taken. by destruct (has_bit RT_EVENT_FLAG_CLEAR _). }
      assert (forall j, j ∈ ts -> thread k2 j = thread k j) as J.
      { intros j Hj. assert (j <> t) by (by intros ->). by rewrite J2. }
      specialize (IH pre true e2 k2 H2). rewrite Es2 in IH.
      rewrite (deliver_ext (thread k) (thread k2) ts _ J) in IH.
      destruct (deliver (thread k) ts (taken th (set e))) as [[w l] v'].
      destruct IH as (k3 & E3 & H3 & C3 & M3 & W3 & J3 & Sh3); [unfold event_queue; by rewrite Ep2|done| |].
      { intros j Hj. rewrite J by done. apply Hw. by right. }
      exists k3. split_and!; [|done|by rewrite C3|done| | |by etrans].
      * rewrite E3. cbn [orb]. rewrite bool_decide_false by done. rewrite orb_true_r. do 3 f_equal.
        unfold set_set. by rewrite Ep2.
      * intros j g [[= -> ->]|Hj]%elem_of_cons.
        -- rewrite J3. 2: { intros ([j' g'] & -> & Hw')%list_elem_of_fmap. by destruct (W3 j' g' Hw') as [? _]. }
           split_and!; [by left|done..].
        -- destruct (W3 j g Hj) as (Hjts & ? & ? & Herr). split_and!; [by right|done|done|].
           rewrite Herr. by rewrite J.
      * intros j [Hj1 Hj2]%not_elem_of_cons. by rewrite J3, J2.
    + specialize (IH (pre ++ [t]) need e k H Eq). rewrite <- app_assoc in IH.
      destruct (deliver (thread k) ts (set e)) as [[w l] v'].
      destruct IH as (k3 & E3 & H3 & C3 & M3 & W3 & J3 & Sh3); [done| |].
      { intros j Hj. apply Hw. by right. }
      exists k3. split_and!; try done.
      * by rewrite M3, <- app_assoc.
      * intros j g Hj. destruct (W3 j g Hj) as (? & ?). split; [by right|done].
Qed.
End Event.

(** ** Properties *)

(** C21: no release is lost.  Whatever calls are made on a semaphore and
    whatever threads, scheduler, timers and clock do in between (other threads,
    timeouts, threads that are closed while they wait), nobody waits while the semaphore
    has a value, and every call on it returns. *)
Theorem sem_no_lost_wakeup (s0 s : rt_semaphore) (k0 k : kernel) (e : sem_event) :
  kernel_ok k0 -> is_Some (rt_current_thread k0) -> sem_ok s0 k0 ->
  sem_reachable s0 k0 s k -> sem_enabled e k ->
  (value s > 0 -> members (Waiting (sem_queue s)) k = []) /\
  exists s' k', sem_run e s k = Ok (s', k').
Proof.
  intros H0 C0 S0 Hr He.
  assert (kernel_ok k /\ is_Some (rt_current_thread k) /\ sem_ok s k) as (H & C & S).
  { clear He. induction Hr as [|e' s k s' k' Hr (H & C & S) He' E]; [done|].
    destruct (sem_run_ok e' s k H C S He') as (s2 & k2 & E2 & H2 & C2 & S2).
    rewrite E in E2. by injection E2 as <- <-. }
  split.
  - intros Hv. destruct (members (Waiting (sem_queue s)) k) eqn:E; [done|].
    pose proof (sem_waiters _ _ S) as Hw. rewrite E in Hw. specialize (Hw ltac:(done)). lia.
  - destruct (sem_run_ok e s k H C S He) as (s' & k' & E & _). by exists s', k'.
Qed.

(** C22: a semaphore is a counter with a queue.  A take decrements the counter,
    fails, or puts the thread at its place in the queue (with a timer when the
    time is limited); a release wakes the first thread of the queue or
    increments the counter up to its maximum. *)
Theorem sem_refines_counter (s : rt_semaphore) (k : kernel) (t : nat) (time : Z) :
  kernel_ok k -> may_block k -> rt_current_thread k = Some t -> sem_ok s k -> time < half ->
  (exists o s' k', rt_sem_take time s k = Ok (o, s', k') /\
     (o, sem_abs s' k') = spec_take (enqueue (ipc_flag (sem_parent s)) k t) time (sem_abs s k) /\
     (o = Block -> status (thread k' t) = RT_THREAD_SUSPEND /\ rt_sem_take_end t k' = RT_EOK /\
        (0 < time -> left (timers k') t = time))) /\
  (exists r s' k' w, rt_sem_release s k = Ok (r, s', k') /\
     (r, sem_abs s' k', w) = spec_release (sem_abs s k) /\
     (forall j, w = Some j -> runnable (thread k' j) /\ error (thread k' j) = error (thread k j))).
Proof.
  intros H Hm Hc S Ht. split.
  - destruct (take_spec t time s k H Hm Hc S Ht) as (o & s' & k' & E & _ & _ & _ & _ & A & B).
    exists o, s', k'. split_and!; [done|done|]. intros Ho. destruct (B Ho) as (B1 & B2 & B3).
    split_and!; [done| |by apply B3]. unfold rt_sem_take_end. by rewrite B2.
  - destruct (release_spec s k H ltac:(by exists t) S) as (r & s' & k' & E & _ & _ & _ & _ & A & R & D).
    eexists r, s', k', _. split_and!; [done|exact A|]. intros j Hj.
    destruct (members (Waiting (sem_queue s)) k) as [|f l] eqn:El; [done|]. injection Hj as ->.
    split; [by apply (R j l)|]. by destruct (data_eq _ _ (D j)) as (-> & _).
Qed.

(** C23: a mutex excludes.  In every state that calls on the mutex and anything
    else in the kernel lead to, a call is the step of a recursive lock: only
    when nobody owns the mutex, or the caller itself, does a take return
    [RT_EOK] at once; another caller fails or queues by priority; only the owner
    can release, and its last release makes the first thread of the queue the
    owner. *)
Theorem mutex_mutual_exclusion (m0 m : rt_mutex) (k0 k : kernel) (t : nat) (time : Z) :
  kernel_ok k0 -> is_Some (rt_current_thread k0) -> mutex_ok m0 k0 -> mutex_reachable m0 k0 m k ->
  may_block k -> rt_current_thread k = Some t -> time < half ->
  (exists r m' k', rt_mutex_take time m k = Ok (r, m', k') /\
     (r, mutex_abs m' k') = spec_lock t (priority k) (insert_priority (thread k) t) time (mutex_abs m k)) /\
  (exists r m' k' w, rt_mutex_release m k = Ok (r, m', k') /\
     (r, mutex_abs m' k', w) = spec_unlock t (priority k) (mutex_abs m k) /\
     (forall j, w = Some j -> runnable (thread k' j))).
Proof.
  intros H0 C0 M0 Hr Hm Hc Ht. destruct (mutex_reachable_ok m0 k0 m k H0 C0 M0 Hr) as (H & C & M).
  pose proof (may_block_current t k Hm Hc) as Hs. split.
  - destruct (mutex_take_spec t time m k H Hm Hc M (running_waits _ _ _ H Hs) Ht)
      as (r & m' & k' & E & _ & _ & _ & _ & A & _). by exists r, m', k'.
  - destruct (mutex_release_spec t m k H (proj1 (proj2 Hm)) Hc M)
      as (r & m' & k' & E & _ & _ & _ & _ & _ & A & B).
    eexists r, m', k', _. split_and!; [done|exact A|]. intros j Hj.
    destruct (bool_decide (owner m = Some t)) eqn:Eo; [|done]. apply bool_decide_eq_true in Eo.
    cbn [andb] in Hj. destruct (Z.eqb_spec (hold m) 1) as [E1|E1]; [|done].
    destruct (B Eo E1) as (_ & _ & B3). by apply B3.
Qed.

(** C24: priority inheritance.  A thread that blocks on a mutex lends its
    priority to the owner if it is higher, and changes no other priority; the
    owner's last release gives it back the priority it had when it took the
    mutex, and changes no other priority. *)
Theorem mutex_inherits_priority (m : rt_mutex) (k : kernel) (t : nat) (time : Z) :
  kernel_ok k -> may_block k -> rt_current_thread k = Some t -> mutex_ok m k -> time < half ->
  (forall m' k', rt_mutex_take time m k = Ok (Block, m', k') ->
     exists o, owner m = Some o /\ o <> t /\
       priority k' o = Z.min (priority k t) (priority k o) /\
       (forall j, j <> o -> priority k' j = priority k j) /\
       original_priority m' = original_priority m) /\
  (forall m' k', rt_mutex_take time m k = Ok (Return RT_EOK, m', k') -> owner m = None ->
     original_priority m' = priority k t) /\
  (forall r m' k', rt_mutex_release m k = Ok (r, m', k') -> owner m = Some t -> hold m = 1 ->
     priority k' t = original_priority m /\ (forall j, j <> t -> priority k' j = priority k j)).
Proof.
  intros H Hm Hc M Ht. pose proof (may_block_current t k Hm Hc) as Hs.
  destruct (mutex_take_spec t time m k H Hm Hc M (running_waits _ _ _ H Hs) Ht)
    as (r0 & m0 & k0 & E & _ & _ & _ & _ & A & B).
  split_and!.
  - intros m' k' E'. rewrite E in E'. injection E' as -> -> ->.
    destruct (B eq_refl) as (o & Eo & Hne & _ & P & Pj & _). exists o. split_and!; try done.
    unfold spec_lock, mutex_abs in A. rewrite Eo in A. cbn in A. rewrite bool_decide_false in A by done.
    by destruct (time =? 0); [|injection A as ? ? ? ?].
  - intros m' k' E' Eo. rewrite E in E'. injection E' as -> -> ->.
    unfold spec_lock, mutex_abs in A. rewrite Eo in A. by injection A as ? ? ? ?.
  - intros r m' k' E' Eo Eh.
    destruct (mutex_release_spec t m k H (proj1 (proj2 Hm)) Hc M)
      as (r1 & m1 & k1 & E1 & _ & _ & _ & _ & _ & _ & B1).
    rewrite E1 in E'. injection E' as <- <- <-. by destruct (B1 Eo Eh) as (? & ? & _).
Qed.

(** C25: sending an event wakes, in the order of the queue, each thread whose
    condition holds, with the bits it waited for, and takes from the event what
    the thread clears; afterwards the condition of no thread that still waits
    holds. *)
Theorem event_send_delivers (e : rt_event) (k : kernel) (v : Z) :
  kernel_ok k -> is_Some (rt_current_thread k) -> event_ok e k -> v <> 0 ->
  let q := event_queue e in
  let '(w, l, rest) := deliver (thread k) (members (Waiting q) k) (Z.lor (set e) v) in
  exists e' k', rt_event_send v e k = Ok (RT_EOK, e', k') /\ kernel_ok k' /\ event_ok e' k' /\
    set e' = rest /\ members (Waiting q) k' = l /\
    (forall t g, (t, g) ∈ w -> runnable (thread k' t) /\ event_set (thread k' t) = g /\
                               error (thread k' t) = error (thread k t)) /\
    (forall t, t ∈ l -> wants (thread k t) rest = false).
Proof.
  intros H C [Fl Hd W] Hv q.
  pose proof (deliver_left (thread k) (members (Waiting q) k) (Z.lor (set e) v)) as Hleft.
  pose proof (fun t => deliver_disjoint (thread k) (members (Waiting q) k) (Z.lor (set e) v) t
    (si_nodup _ _ _ (ko_sched _ H) (Waiting q))) as Hdis.
  pose proof (send_loop_spec q (members (Waiting q) k) [] false (set_set (Z.lor (set e) v) e) k
    H eq_refl eq_refl W) as L. cbn [set set_set] in L.
  destruct (deliver (thread k) (members (Waiting q) k) (Z.lor (set e) v)) as [[w l] rest]. cbn in Hleft.
  destruct L as (k1 & E1 & H1 & C1 & M1 & W1 & J1 & Sh1).
  unfold rt_event_send. destruct (Z.eqb_spec v 0) as [|_]; [done|].
  change (event_queue (set_set (Z.lor (set e) v) e)) with q.
  rewrite get_list_members by done. cbn [mbind result_bind]. rewrite E1. cbn [mbind result_bind negb].
  rewrite Z.eqb_refl. cbn [negb].
  assert (exists k2, (if false || negb (bool_decide (w = [])) then rt_schedule k1 else Ok k1) = Ok k2 /\
    kernel_ok k2 /\ sched_frame k1 k2 /\ shrinks k1 k2) as (k2 & E2 & H2 & F2 & Sh2).
  { destruct (_ || _).
    - destruct (schedule_ok k1 H1 ltac:(by rewrite C1)) as (k2 & E2 & H2 & F2).
      exists k2. split_and!; [done|done|done|by apply schedule_evolves].
    - exists k1. split_and!; [done|done|apply sched_frame_refl|done]. }
  rewrite E2. cbn [mbind result_bind]. exists (set_set rest (set_set (Z.lor (set e) v) e)), k2.
  assert (members (Waiting q) k2 = l) as M2 by by rewrite (sf_waiting _ _ F2), M1.
  split_and!; try done.
  - split; [done|by apply Sh2, Sh1|]. change (event_queue _) with q. rewrite M2. intros t Ht.
    pose proof (data_frame _ _ t F2) as Hd2. rewrite J1 in Hd2 by by apply Hdis.
    destruct (data_eq _ _ Hd2) as (_ & _ & _ & Ei). unfold waits_for_event. rewrite Ei. by apply W, Hleft.
  - intros t g Ht. destruct (W1 t g Ht) as (_ & R & Es & Er).
    destruct (data_eq _ _ (data_frame _ _ t F2)) as (-> & _ & -> & _).
    split_and!; [by apply (sched_frame_runnable _ _ t F2)|done|done].
  - intros t Ht. by apply Hleft.
Qed.

(** *** Witnesses *)

Lemma car_ok : kernel_ok car /\ is_Some (rt_current_thread car) /\ may_block car.
Proof.
  destruct booted_ok as [H C]. split_and!; [exact H|by exists 2%nat|]. split_and!; [by vm_compute..|].
  exists 2%nat. split; [exact C|by vm_compute].
Qed.

Definition sem0 : rt_semaphore := mk_sem (mk_ipc 7 RT_IPC_FLAG_FIFO) 0.
Lemma sem0_ok : sem_ok sem0 car.
Proof. split; [by vm_compute|by left|by vm_compute; eexists|by vm_compute]. Qed.

Lemma sem_no_lost_wakeup_witness :
  (value sem0 > 0 -> members (Waiting (sem_queue sem0)) car = []) /\
  exists s' k', sem_run (TakeSem 5) sem0 car = Ok (s', k').
Proof.
  apply (sem_no_lost_wakeup sem0 sem0 car car (TakeSem 5)).
  - apply car_ok.
  - apply car_ok.
  - exact sem0_ok.
  - apply sem_start.
  - split; [apply car_ok|by unfold half].
Defined.

Lemma sem_refines_counter_witness :
  (exists o s' k', rt_sem_take 5 sem0 car = Ok (o, s', k') /\
     (o, sem_abs s' k') = (Block, (0, [2%nat])) /\
     (o = Block -> status (thread k' 2%nat) = RT_THREAD_SUSPEND /\ rt_sem_take_end 2%nat k' = RT_EOK /\
        (0 < 5 -> left (timers k') 2%nat = 5))) /\
  (exists r s' k' w, rt_sem_release sem0 car = Ok (r, s', k') /\
     (r, sem_abs s' k', w) = (RT_EOK, (1, []), None) /\
     (forall j, w = Some j -> runnable (thread k' j) /\ error (thread k' j) = error (thread car j))).
Proof.
  apply (sem_refines_counter sem0 car 2 5).
  - apply car_ok.
  - apply car_ok.
  - by vm_compute.
  - exact sem0_ok.
  - by unfold half.
Defined.

Definition mutex0 : rt_mutex := mk_mutex (mk_ipc 8 RT_IPC_FLAG_PRIO) 1 0xff 0 None.
Lemma mutex0_ok : mutex_ok mutex0 car.
Proof. split; [done|by vm_compute; eexists|by vm_compute]. Qed.

Lemma mutex_mutual_exclusion_witness :
  (exists r m' k', rt_mutex_take 5 mutex0 car = Ok (r, m', k') /\
     (r, mutex_abs m' k') = (Return RT_EOK, mk_lock (Some 2%nat) 1 10 [])) /\
  (exists r m' k' w, rt_mutex_release mutex0 car = Ok (r, m', k') /\
     (r, mutex_abs m' k', w) = (- RT_ERROR, mk_lock None 0 0xff [], None) /\
     (forall j, w = Some j -> runnable (thread k' j))).
Proof.
  apply (mutex_mutual_exclusion mutex0 mutex0 car car 2 5).
  - apply car_ok.
  - apply car_ok.
  - exact mutex0_ok.
  - apply mutex_start.
  - apply car_ok.
  - by vm_compute.
  - by unfold half.
Defined.

(** The idle thread (priority 31) owns the mutex. *)
Definition mutex1 : rt_mutex := mk_mutex (mk_ipc 8 RT_IPC_FLAG_PRIO) 0 31 1 (Some 1%nat).
Lemma mutex1_ok : mutex_ok mutex1 car.
Proof.
  split; [done|by vm_compute; eexists|]. split_and!; try by vm_compute.
  apply not_elem_of_nil.
Qed.

Definition blocks (r : result (outcome * rt_mutex * kernel)) : bool :=
  match r with Ok (Block, _, _) => true | _ => false end.

Lemma mutex_inherits_priority_witness :
  blocks (rt_mutex_take 5 mutex1 car) = true /\
  (forall m' k', rt_mutex_take 5 mutex1 car = Ok (Block, m', k') ->
     exists o, owner mutex1 = Some o /\ o <> 2%nat /\
       priority k' o = Z.min (priority car 2%nat) (priority car o) /\
       (forall j, j <> o -> priority k' j = priority car j) /\
       original_priority m' = original_priority mutex1).
Proof.
  split; [by vm_compute|]. apply (mutex_inherits_priority mutex1 car 2 5).
  - apply car_ok.
  - apply car_ok.
  - by vm_compute.
  - exact mutex1_ok.
  - by unfold half.
Defined.

(** Thread 2 waits for bits 0 and 1 and will clear them. *)
Definition event0 : rt_event := mk_event (mk_ipc 7 RT_IPC_FLAG_FIFO) 0.
Definition car_waits : kernel := the (block_on 7 RT_IPC_FLAG_FIFO 2 5 (with_thread (set_event 3 5) 2 car)).

Lemma car_waits_ok : kernel_ok car_waits /\ is_Some (rt_current_thread car_waits).
Proof.
  destruct car_ok as (H & C & M).
  destruct (block_on_spec 7 RT_IPC_FLAG_FIFO 2 5 (with_thread (set_event 3 5) 2 car))
    as (k' & E & H' & C' & _).
  - by apply change_plain_ok.
  - by vm_compute.
  - by vm_compute.
  - by left.
  - by vm_compute; eexists.
  - by unfold half.
  - unfold car_waits. rewrite E. exact (conj H' C').
Qed.

Lemma car_waits_event : event_ok event0 car_waits.
Proof.
  split; [by left|by vm_compute; eexists|]. intros t Ht.
  assert (members (Waiting (event_queue event0)) car_waits = [2%nat]) as E by by vm_compute.
  rewrite E in Ht. apply list_elem_of_singleton in Ht as ->. by vm_compute.
Qed.

Lemma event_send_delivers_witness :
  exists e' k', rt_event_send 7 event0 car_waits = Ok (RT_EOK, e', k') /\ kernel_ok k' /\
    event_ok e' k' /\ set e' = 4 /\ members (Waiting 7) k' = [] /\
    (forall t g, (t, g) ∈ [(2%nat, 3)] -> runnable (thread k' t) /\ event_set (thread k' t) = g /\
       error (thread k' t) = error (thread car_waits t)) /\
    (forall t, t ∈ [] -> wants (thread car_waits t) 4 = false).
Proof.
  apply (event_send_delivers event0 car_waits 7).
  - apply car_waits_ok.
  - apply car_waits_ok.
  - exact car_waits_event.
  - done.
Defined.

(** *** What a timeout leaves behind *)

(** Thread 2 owns the mutex; thread 4 with priority 5 waits for it for 3 ticks
    and gives up: thread 2 keeps priority 5 though nobody waits any more. *)
Definition boost_survives : option (Z * Z * list nat) :=
  match (
    '(_, m, k) ← rt_mutex_take RT_WAITING_FOREVER mutex0 car;
    k ← spawn 4 5 k;
    '(_, m, k) ← rt_mutex_take 3 m k;
    k ← clock_ticks 3 k;
    Ok (rt_mutex_take_end 4 k, priority k 2%nat, members (Waiting 8) k)) with
  | Ok r => Some r
  | Fault _ => None
  end.
Lemma timeout_keeps_boost : boost_survives = Some (- RT_ETIMEOUT, 5, []).
Proof. vm_compute. reflexivity. Qed.

End Ipc.
