(* ===== verification/Channel.v ===== *)
(** * Waiting for a message or for room (rt-thread/src/ipc.c)

    What mailboxes and message queues share: a thread that finds the queue full
    or empty waits on a suspend list, with the time that is left, and tries
    again when it runs.  A thread inside such a call is recorded with what it
    waits for; [room] is the accounting that loses no wake-up: while a thread
    waits, at least as many threads that were woken are still to run as there
    are messages (or free places) for them. *)

From stdpp Require Import functions fin_maps.
From S2P Require Import Prelude Timer Thread Evolve Ipc.

Module Channel.
Import Timer Thread Evolve Ipc.

(** [timeout] and [tick_delta], the variables of a call that live across the
    switch to another thread. *)
Record wait := mk_wait { w_timeout : Z; w_tick_delta : Z }.

(** From "suspend current thread" to the [rt_schedule] (the tick does not change
    in between). *)
Definition wait_on (q : nat) (flag : Z) (t : nat) (w : wait) (k : kernel) : result (wait * kernel) :=
  let w := if 0 <? w_timeout w then mk_wait (w_timeout w) (rt_tick_get (timers k)) else w in
  k ← block_on q flag t (w_timeout w) k;
  Ok (w, k).

(** "if it's not waiting forever and then re-calculate timeout tick" *)
Definition time_left (w : wait) (k : kernel) : wait :=
  if 0 <? w_timeout w then
    let tick_delta := u32 (rt_tick_get (timers k) - w_tick_delta w) in
    let timeout := i32 (w_timeout w - tick_delta) in
    mk_wait (if timeout <? 0 then 0 else timeout) tick_delta
  else w.

(** "resume suspended thread", where there is one. *)
Definition wake_first (q : nat) (k : kernel) : result kernel :=
  e ← rt_list_isempty (Waiting q) k;
  if negb e then k ← _ipc_list_resume q k; rt_schedule k else Ok k.

(** How a call ends, or that it waits. *)
Inductive outcome := Return (err : Z) | Wait (w : wait).

(** [thread->...] *)
Definition the_thread (thread : option nat) : result nat :=
  match thread with Some t => Ok t | None => Fault OutOfBounds end.

(** ** Threads inside a call *)

(** Woken and not yet run. *)
Definition awake (k : kernel) (t : nat) : Prop := error (thread k t) = RT_EOK /\ runnable (thread k t).
#[export] Instance awake_dec k t : Decision (awake k t).
Proof. unfold awake, runnable. apply _. Defined.

Section Rooms.
Context {C : Type} (P : C -> Prop) {Pd : forall c, Decision (P c)}.
Implicit Types (k : kernel) (t q : nat) (calls : gmap nat C) (avail : Z).

Definition woken calls k : gmap nat C := filter (fun tc => P tc.2 /\ awake k tc.1) calls.

Lemma lookup_woken calls k t c : woken calls k !! t = Some c <-> calls !! t = Some c /\ P c /\ awake k t.
Proof. unfold woken. by rewrite map_lookup_filter_Some. Qed.

(** [avail] messages or places, and the threads that wait on [q] for one. *)
Record room q avail calls k : Prop := {
  rm_head : is_Some (lists k !! Waiting q);
  rm_waits t : t ∈ members (Waiting q) k ->
               error (thread k t) = RT_EOK /\ exists c, calls !! t = Some c /\ P c;
  rm_wakeup : members (Waiting q) k <> [] -> avail <= Z.of_nat (size (woken calls k)) }.

Lemma woken_size calls calls' k k' :
  (forall t c, woken calls k !! t = Some c -> woken calls' k' !! t = Some c) ->
  Z.of_nat (size (woken calls k)) <= Z.of_nat (size (woken calls' k')).
Proof. intros H. apply Nat2Z.inj_le, map_subseteq_size, map_subseteq_spec, H. Qed.

(** The members that stay, and their calls. *)
Definition stay q calls calls' k k' : Prop :=
  is_Some (lists k' !! Waiting q) /\ members (Waiting q) k' ⊆ members (Waiting q) k /\
  forall t, t ∈ members (Waiting q) k' -> error (thread k' t) = RT_EOK /\ calls' !! t = calls !! t.

Lemma stay_waits q avail calls calls' k k' t :
  room q avail calls k -> stay q calls calls' k k' -> t ∈ members (Waiting q) k' ->
  error (thread k' t) = RT_EOK /\ exists c, calls' !! t = Some c /\ P c.
Proof.
  intros [_ W _] (_ & Hs & E) Hin. destruct (E t Hin) as [E1 ->]. split; [done|].
  by apply W, Hs.
Qed.

Lemma stay_nonempty q calls calls' k k' :
  stay q calls calls' k k' -> members (Waiting q) k' <> [] -> members (Waiting q) k <> [].
Proof. intros (_ & Hs & _) Hn. by eapply subseteq_nil. Qed.

Lemma room_keep q avail avail' calls calls' k k' :
  room q avail calls k -> stay q calls calls' k k' -> avail' <= avail ->
  (forall t c, woken calls k !! t = Some c -> woken calls' k' !! t = Some c) ->
  room q avail' calls' k'.
Proof.
  intros R S Ha Hw. split; [apply S|intros t; by eapply stay_waits|]. intros Hn.
  etrans; [exact Ha|]. etrans; [|by apply woken_size].
  eapply rm_wakeup, stay_nonempty; done.
Qed.

(** A woken thread takes what is there. *)
Lemma room_consume q avail avail' calls calls' k k' t c :
  room q avail calls k -> stay q calls calls' k k' -> avail' <= avail - 1 ->
  woken calls k !! t = Some c ->
  (forall j c, j <> t -> woken calls k !! j = Some c -> woken calls' k' !! j = Some c) ->
  room q avail' calls' k'.
Proof.
  intros R S Ha Ht Hw. split; [apply S|intros j; by eapply stay_waits|]. intros Hn.
  assert (avail <= Z.of_nat (size (woken calls k))) as Hr by (eapply rm_wakeup, stay_nonempty; done).
  assert (size (delete t (woken calls k)) <= size (woken calls' k'))%nat as Hsz.
  { apply map_subseteq_size, map_subseteq_spec. intros j c' [Hj Hl]%lookup_delete_Some. by apply Hw. }
  rewrite map_size_delete, Ht in Hsz. lia.
Qed.

(** The first of them wakes, for one thing more. *)
Lemma room_wake q avail avail' calls calls' k k' t l :
  room q avail calls k -> stay q calls calls' k k' -> avail' <= avail + 1 ->
  members (Waiting q) k = t :: l -> ~ awake k t -> awake k' t -> calls' !! t = calls !! t ->
  (forall j c, woken calls k !! j = Some c -> woken calls' k' !! j = Some c) ->
  room q avail' calls' k'.
Proof.
  intros R S Ha E Hna Haw Hc Hw. split; [apply S|intros j; by eapply stay_waits|]. intros Hn.
  assert (avail <= Z.of_nat (size (woken calls k))) as Hr by (eapply rm_wakeup, stay_nonempty; done).
  destruct (rm_waits _ _ _ _ R t) as [_ (c & Hl & Hp)]; [rewrite E; by left|].
  assert (size (<[t := c]> (woken calls k)) <= size (woken calls' k'))%nat as Hsz.
  { apply map_subseteq_size, map_subseteq_spec.
    intros j c' [[<- <-]|[Hj Hin]]%lookup_insert_Some; [|by apply Hw].
    apply lookup_woken. by rewrite Hc. }
  rewrite map_size_insert_None in Hsz; [lia|].
  destruct (woken calls k !! t) eqn:El; [|done]. by apply lookup_woken in El as (_ & _ & ?).
Qed.

Lemma room_none q avail calls calls' k k' :
  (exists a, room q a calls k) -> stay q calls calls' k k' -> avail <= 0 -> room q avail calls' k'.
Proof.
  intros [a R] S Ha. split; [apply S|intros j; by eapply stay_waits|]. intros _. lia.
Qed.

Lemma room_empty q avail calls k :
  is_Some (lists k !! Waiting q) -> members (Waiting q) k = [] -> room q avail calls k.
Proof. intros Hh E. split; rewrite ?E; [done| |done]. by intros t ?%not_elem_of_nil. Qed.
End Rooms.

(** ** The steps *)

Definition nobody : nat -> Prop := fun _ => False.

Lemma evolves_awake X k k' t : evolves X k k' -> ~ X t -> awake k t -> awake k' t.
Proof. intros [_ F] Hx [He Hr]. destruct (F t Hx He) as [[]|[]]; [split; auto|done]. Qed.

Lemma evolves_stay {C} (P : C -> Prop) {Pd : forall c, Decision (P c)} X q avail calls calls' k k' :
  evolves X k k' -> room P q avail calls k ->
  (forall t, t ∈ members (Waiting q) k' -> ~ X t /\ calls' !! t = calls !! t) ->
  stay q calls calls' k k'.
Proof.
  intros [S F] R H. destruct (S q) as [Hs Hh]. split_and!; [by apply Hh, R|done|].
  intros t Hin. destruct (H t Hin) as [Hx E]. split; [|done].
  destruct (rm_waits _ _ _ _ _ R t (Hs _ Hin)) as [He _].
  destruct (F t Hx He) as [[H1 _]|[_ H1]]; [by apply H1|by apply H1 in Hin].
Qed.

Lemma evolves_woken {C} (P : C -> Prop) {Pd : forall c, Decision (P c)} X calls calls' k k' t c :
  evolves X k k' -> ~ X t -> calls' !! t = calls !! t ->
  woken P calls k !! t = Some c -> woken P calls' k' !! t = Some c.
Proof. intros H Hx E. rewrite !lookup_woken, E. intros (? & ? & ?). by eauto using evolves_awake. Qed.

Lemma runnable_waits k t q : kernel_ok k -> runnable (thread k t) -> t ∉ members (Waiting q) k.
Proof.
  intros H Hr Hin. destruct (si_belongs _ _ _ (ko_sched _ H) _ _ Hin) as [Hs _]. cbn in Hs.
  destruct Hr; status_clash.
Qed.

(** [wake_first] *)
Lemma wake_first_spec q k :
  kernel_ok k -> is_Some (rt_current_thread k) -> is_Some (lists k !! Waiting q) ->
  exists k', wake_first q k = Ok k' /\ kernel_ok k' /\ is_Some (rt_current_thread k') /\
    evolves nobody k k' /\ (forall q', q' <> q -> members (Waiting q') k' = members (Waiting q') k) /\
    match members (Waiting q) k with
    | [] => k' = k
    | t :: l => members (Waiting q) k' = l /\ runnable (thread k' t) /\ error (thread k' t) = error (thread k t)
    end.
Proof.
  intros H Hc Hq. unfold wake_first, rt_list_isempty. rewrite get_list_members by done.
  cbn [mbind result_bind]. destruct (members (Waiting q) k) as [|t l] eqn:E.
  - rewrite bool_decide_true by done. exists k. by split_and!.
  - rewrite bool_decide_false by done. cbn [negb].
    destruct (ipc_resume_spec q t l k H E) as (k1 & E1 & H1 & C1 & R1 & D1 & _ & M1 & O1).
    rewrite E1. cbn [mbind result_bind].
    destruct (schedule_ok k1 H1) as (k2 & E2 & H2 & F2); [by rewrite C1|].
    exists k2. split_and!; [done|done| | | | | |].
    + apply (sf_current _ _ F2). by rewrite C1.
    + etrans; [by eapply ipc_resume_evolves|by apply schedule_evolves].
    + intros q' Hq'. by rewrite (sf_waiting _ _ F2), O1.
    + by rewrite (sf_waiting _ _ F2), M1.
    + by apply (sched_frame_runnable _ _ t F2).
    + destruct (data_eq _ _ (data_frame _ _ t F2)) as (-> & _). by destruct (data_eq _ _ (D1 t)) as (-> & _).
Qed.

(** The time limit stays in range, when a thread that waits with a time limit runs
    before the clock has gone half way round. *)
Lemma time_left_bound w k :
  w_timeout w < half -> (0 < w_timeout w -> u32 (rt_tick (timers k) - w_tick_delta w) < half) ->
  w_timeout (time_left w k) < half.
Proof.
  intros Hw Hd. unfold time_left, rt_tick_get. destruct (Z.ltb_spec 0 (w_timeout w)) as [Hp|]; [|done]. cbn.
  specialize (Hd Hp).
  unfold half in *. pose proof (u32_range (rt_tick (timers k) - w_tick_delta w)).
  rewrite i32_small by lia. destruct (_ <? _); lia.
Qed.

Lemma resume_all_ok q k :
  kernel_ok k -> is_Some (rt_current_thread k) -> is_Some (lists k !! Waiting q) ->
  exists k', _ipc_list_resume_all q k = Ok k' /\ kernel_ok k' /\ is_Some (rt_current_thread k') /\
    members (Waiting q) k' = [] /\ shrinks k k'.
Proof.
  intros H C Hq. unfold _ipc_list_resume_all.
  destruct (resume_all_spec q _ (S (length (members (Waiting q) k))) k H Hq eq_refl ltac:(lia))
    as (k' & E & H' & C' & M & _).
  exists k'. rewrite C'. split_and!; try done. by eapply resume_all_shrinks.
Qed.

(** The thread [t] has gone from the processor to the list [q]. *)
Record parked q t k k' : Prop := {
  pk_ok : kernel_ok k';
  pk_current : is_Some (rt_current_thread k');
  pk_members : members (Waiting q) k' ≡ₚ t :: members (Waiting q) k;
  pk_heads q' : is_Some (lists k !! Waiting q') -> is_Some (lists k' !! Waiting q');
  pk_others q' : q' <> q -> members (Waiting q') k' = members (Waiting q') k;
  pk_error j : error (thread k' j) = error (thread k j);
  pk_runnable j : j <> t -> runnable (thread k j) -> runnable (thread k' j) }.

(** The suspension of the current thread. *)
Lemma block_parked q flag t time k :
  kernel_ok k -> rt_current_thread k = Some t -> status (thread k t) = RT_THREAD_RUNNING ->
  flag_ok flag -> is_Some (lists k !! Waiting q) -> time < half ->
  exists k', block_on q flag t time k = Ok k' /\ parked q t k k'.
Proof.
  intros H Hc Hs Hf Hq Ht.
  destruct (block_on_spec q flag t time k) as (k' & E & H' & C' & _ & D & M & O & J & _); try done.
  exists k'. split; [done|]. split; try done.
  - rewrite M. apply enqueue_perm.
  - intros q'. by eapply block_on_heads.
  - intros j. by destruct (data_eq _ _ (D j)) as (-> & _).
Qed.

Lemma wait_on_spec q flag t w k :
  kernel_ok k -> rt_current_thread k = Some t -> status (thread k t) = RT_THREAD_RUNNING ->
  flag_ok flag -> is_Some (lists k !! Waiting q) -> w_timeout w < half ->
  exists w' k', wait_on q flag t w k = Ok (w', k') /\ w_timeout w' = w_timeout w /\ parked q t k k'.
Proof.
  intros H Hc Hs Hf Hq Ht. unfold wait_on. cbv zeta. set (w' := if 0 <? w_timeout w then _ else w).
  assert (w_timeout w' = w_timeout w) as Ew by (unfold w'; by destruct (0 <? w_timeout w)).
  rewrite Ew. destruct (block_parked q flag t (w_timeout w) k) as (k' & E & Pk); try done.
  rewrite E. by exists w', k'.
Qed.

(** A new, empty suspend list. *)
Definition new_head (q : nat) (k : kernel) : kernel := with_lists <[Waiting q := []]> k.

Lemma new_head_members q k a :
  members (Waiting q) k = [] -> members a (new_head q k) = members a k.
Proof.
  intros E. unfold members in *. cbn. destruct (decide (a = Waiting q)) as [->|Hne].
  - by rewrite lookup_insert_eq, E.
  - by rewrite lookup_insert_ne by done.
Qed.

Lemma new_head_ok q k : kernel_ok k -> members (Waiting q) k = [] -> kernel_ok (new_head q k).
Proof.
  intros [[] Hl Ht Ha] E. split; try done.
  pose proof (fun a => new_head_members q k a E) as M.
  split; try done.
  - intros p. cbn. rewrite lookup_insert_ne by done. apply si_heads0.
  - cbn. by rewrite lookup_insert_ne by done.
  - intros a. by rewrite M.
  - intros a t. rewrite M. apply si_belongs0.
  - intros a b t. rewrite !M. apply si_once0.
  - intros t. rewrite M. apply si_ready0.
  - intros p. rewrite M. apply si_group0.
Qed.

(** ** One gate *)

(** The same calls wait at the gate. *)
Definition same_calls {C} (P : C -> Prop) (calls calls' : gmap nat C) : Prop :=
  forall t c, P c -> (calls !! t = Some c <-> calls' !! t = Some c).

Section Gate.
Context {C : Type} (P : C -> Prop) {Pd : forall c, Decision (P c)}.
Implicit Types (k : kernel) (t q : nat) (calls : gmap nat C) (avail : Z).

Lemma same_woken calls calls' k k' t c :
  same_calls P calls calls' -> evolves nobody k k' ->
  woken P calls k !! t = Some c -> woken P calls' k' !! t = Some c.
Proof.
  intros Hs V. rewrite !lookup_woken. intros (E & Hp & Ha). split_and!; [by apply Hs|done|].
  by eapply evolves_awake; [exact V|intros []|].
Qed.

Lemma same_stay q avail calls calls' k k' :
  same_calls P calls calls' -> evolves nobody k k' -> room P q avail calls k -> stay q calls calls' k k'.
Proof.
  intros Hs V R. eapply evolves_stay; [exact V|exact R|]. intros j Hj. split; [by intros []|].
  apply V in Hj. destruct (rm_waits _ _ _ _ _ R j Hj) as [_ (c & E & Hp)]. rewrite E. by apply Hs.
Qed.

(** Other calls come and go, things are taken away. *)
Lemma room_update q avail avail' calls calls' k k' :
  room P q avail calls k -> evolves nobody k k' -> same_calls P calls calls' -> avail' <= avail ->
  room P q avail' calls' k'.
Proof.
  intros R V Hs Ha. apply (room_keep P q avail _ calls _ k k' R); [by eapply same_stay|done|].
  intros j c. by apply same_woken.
Qed.

(** A woken thread takes one thing and is past the gate. *)
Lemma room_taken q avail calls calls' k t c :
  kernel_ok k -> room P q avail calls k -> calls !! t = Some c -> P c -> awake k t ->
  (forall j, j <> t -> calls' !! j = calls !! j) -> room P q (avail - 1) calls' k.
Proof.
  intros H R Ec Hp Ha Hj. apply (room_consume P q avail _ calls _ k k t c R); [|done|by apply lookup_woken|].
  - split_and!; [apply R|done|]. intros j Hin. split; [by eapply rm_waits in Hin as []|]. apply Hj.
    intros ->. destruct Ha as [_ Hr]. by apply (runnable_waits k t q).
  - intros j c' Hne. rewrite !lookup_woken. by rewrite Hj.
Qed.

(** One thing more: the first thread that waits is woken. *)
Lemma room_given q avail calls calls' k :
  kernel_ok k -> is_Some (rt_current_thread k) -> room P q avail calls k -> same_calls P calls calls' ->
  exists k', wake_first q k = Ok k' /\ kernel_ok k' /\ is_Some (rt_current_thread k') /\
    evolves nobody k k' /\ room P q (avail + 1) calls' k'.
Proof.
  intros H Hc R Hs. destruct (wake_first_spec q k H Hc (rm_head _ _ _ _ _ R)) as (k' & E & H' & C' & V & O & M).
  exists k'. split_and!; try done. assert (stay q calls calls' k k') as S by by eapply same_stay.
  destruct (members (Waiting q) k) as [|t l] eqn:El.
  - subst k'. split; [apply R|intros j; rewrite El; by intros ?%not_elem_of_nil|by rewrite El].
  - destruct M as (M & Hr & He). assert (t ∈ members (Waiting q) k) as Hin by (rewrite El; by left).
    destruct (rm_waits _ _ _ _ _ R t Hin) as [Het (c & Ec & Hp)].
    apply (room_wake P q avail _ calls _ k k' t l R S); try done.
    + intros [_ Hr']. by apply (runnable_waits k t q).
    + split; [by rewrite He|done].
    + rewrite Ec. by apply Hs.
    + intros j c'. by apply same_woken.
Qed.
(** A thread that finds nothing waits at the gate. *)
Lemma parked_here q avail calls k k' t c :
  kernel_ok k -> status (thread k t) = RT_THREAD_RUNNING -> error (thread k t) = RT_EOK ->
  room P q avail calls k -> avail <= 0 -> parked q t k k' -> P c -> room P q avail (<[t := c]> calls) k'.
Proof.
  intros H Hs He R Ha [_ _ M Hh _ Er _] Hp. split; [by apply Hh, R| |lia]. intros j Hj. rewrite M in Hj. rewrite Er.
  apply elem_of_cons in Hj as [->|Hj]; [rewrite lookup_insert_eq; eauto|].
  destruct (rm_waits _ _ _ _ _ R j Hj) as [Hj1 Hj2]. split; [done|].
  rewrite lookup_insert_ne; [done|]. intros ->. apply (runnable_waits k j q); [done|by right|done].
Qed.

(** The other gate does not notice. *)
Lemma parked_elsewhere q q' avail calls k k' t c :
  kernel_ok k -> status (thread k t) = RT_THREAD_RUNNING -> q' <> q ->
  room P q' avail calls k -> parked q t k k' -> (forall c', calls !! t = Some c' -> ~ P c') ->
  room P q' avail (<[t := c]> calls) k'.
Proof.
  intros H Hs Hq R [_ _ _ Hh O Er J] Ht. apply (room_keep P q' avail _ calls _ k k' R); [split_and!|done|].
  - by apply Hh, R.
  - by rewrite O.
  - intros j Hj. rewrite O in Hj by done. rewrite Er. split; [by eapply rm_waits in Hj as []|].
    apply lookup_insert_ne. intros ->. apply (runnable_waits k j q'); [done|by right|done].
  - intros j c'. rewrite !lookup_woken. intros (E1 & E2 & E3 & E4).
    assert (j <> t) as Hj by (intros ->; by apply (Ht c')).
    rewrite lookup_insert_ne by done. split_and!; try done. split; [by rewrite Er|auto].
Qed.

(** A call ends without taking anything; only its own thread changes. *)
Lemma room_left q avail calls k k' t :
  kernel_ok k -> runnable (thread k t) -> lists k' = lists k ->
  (forall j, j <> t -> thread k' j = thread k j) ->
  (forall c, calls !! t = Some c -> P c -> awake k t -> avail <= 0) ->
  room P q avail calls k -> room P q avail (delete t calls) k'.
Proof.
  intros H Hr El Ej Ha R.
  assert (members (Waiting q) k' = members (Waiting q) k) as Em by (unfold members; by rewrite El).
  assert (stay q calls (delete t calls) k k') as S.
  { split_and!; [rewrite El; apply R|by rewrite Em|]. rewrite Em. intros j Hj.
    assert (j <> t) as Hne by (intros ->; by apply (runnable_waits k t q)).
    rewrite Ej by done. split; [by eapply rm_waits in Hj as []|by apply lookup_delete_ne]. }
  destruct (woken P calls k !! t) as [c|] eqn:E.
  - apply lookup_woken in E as (E & Hp & Haw). apply (room_none P q _ calls _ k); [by exists avail|done|by apply (Ha c)].
  - apply (room_keep P q avail _ calls _ k k' R S); [done|]. intros j c Hj.
    assert (j <> t) as Hne by (intros ->; congruence).
    revert Hj. rewrite !lookup_woken, lookup_delete_ne by done. unfold awake. by rewrite Ej.
Qed.
End Gate.

(** ** Two gates *)

(** A call waits at one of two gates; [P] are the calls at the first. *)
Section Gates.
Context {C : Type} (P Q : C -> Prop) {Pd : forall c, Decision (P c)} {Qd : forall c, Decision (Q c)}.
Context (PQ : forall c, P c -> ~ Q c).
Implicit Types (k : kernel) (t q : nat) (calls : gmap nat C) (avail : Z).

(** The call of a thread that is served, or of one outside a call. *)
Definition drop_call (o : option nat) calls : gmap nat C :=
  match o with Some t => delete t calls | None => calls end.

Lemma drop_same (Q' : C -> Prop) o calls :
  (forall t c, o = Some t -> calls !! t = Some c -> ~ Q' c) -> same_calls Q' calls (drop_call o calls).
Proof.
  intros Ho t c Hq. destruct o as [t'|]; [|done]. cbn. destruct (decide (t = t')) as [->|Hne].
  - rewrite lookup_delete_eq. split; [|done]. intros E. by destruct (Ho t' c eq_refl E).
  - by rewrite lookup_delete_ne.
Qed.

(** A call is served: the next thread at the other gate is woken. *)
Lemma served q q' avail avail' calls k o :
  kernel_ok k -> is_Some (rt_current_thread k) -> q <> q' ->
  room P q avail calls k -> room Q q' avail' calls k ->
  (forall t, o = Some t -> exists c, calls !! t = Some c /\ P c /\ awake k t) ->
  exists k', wake_first q' k = Ok k' /\ kernel_ok k' /\ is_Some (rt_current_thread k') /\
    room P q (avail - 1) (drop_call o calls) k' /\ room Q q' (avail' + 1) (drop_call o calls) k'.
Proof.
  intros H Hc Hq R R' Ho.
  destruct (room_given Q q' avail' calls (drop_call o calls) k H Hc R') as (k' & E & H' & C' & V & R2).
  { apply drop_same. intros t c Et Ec. destruct (Ho t Et) as (c' & Ec' & Hp & _).
    rewrite Ec in Ec'. injection Ec' as ->. by apply PQ. }
  exists k'. split_and!; try done.
  assert (room P q (avail - 1) (drop_call o calls) k) as R1.
  { destruct o as [t|].
    - destruct (Ho t eq_refl) as (c & Ec & Hp & Ha). apply (room_taken P q avail calls _ k t c); try done.
      intros j Hj. by apply lookup_delete_ne.
    - apply (room_update P q avail _ calls _ k k); try done. lia. }
  by apply (room_update P q (avail - 1) _ (drop_call o calls) _ k k').
Qed.

(** The current thread finds nothing, and waits. *)
Lemma parked_rooms q q' avail avail' calls k k' t c :
  kernel_ok k -> status (thread k t) = RT_THREAD_RUNNING -> error (thread k t) = RT_EOK -> q <> q' ->
  room P q avail calls k -> room Q q' avail' calls k -> avail <= 0 ->
  (forall c, calls !! t = Some c -> P c) -> parked q t k k' -> P c ->
  room P q avail (<[t := c]> calls) k' /\ room Q q' avail' (<[t := c]> calls) k'.
Proof.
  intros H Hs He Hq R R' Ha Ht Pk Hp. split.
  - by apply (parked_here P q avail calls k k' t c).
  - apply (parked_elsewhere Q q q' avail' calls k k' t c); auto.
Qed.

Lemma blocked q q' avail avail' calls k t flag w :
  kernel_ok k -> rt_current_thread k = Some t -> status (thread k t) = RT_THREAD_RUNNING ->
  error (thread k t) = RT_EOK -> flag_ok flag -> w_timeout w < half -> q <> q' ->
  room P q avail calls k -> room Q q' avail' calls k -> avail <= 0 ->
  (forall c, calls !! t = Some c -> P c) ->
  exists w' k', wait_on q flag t w k = Ok (w', k') /\ w_timeout w' = w_timeout w /\
    kernel_ok k' /\ is_Some (rt_current_thread k') /\
    forall c, P c -> room P q avail (<[t := c]> calls) k' /\ room Q q' avail' (<[t := c]> calls) k'.
Proof.
  intros H Hc Hs He Hf Hw Hq R R' Ha Ht.
  destruct (wait_on_spec q flag t w k H Hc Hs Hf (rm_head _ _ _ _ _ R) Hw) as (w' & k' & E & Ew & Pk).
  exists w', k'. split_and!; [done|done|apply Pk|apply Pk|]. intros c. by apply (parked_rooms q q' avail avail' calls k k' t c).
Qed.

(** A call ends without being served. *)
Lemma leaves q q' avail avail' calls k k' t :
  kernel_ok k -> runnable (thread k t) -> lists k' = lists k ->
  (forall j, j <> t -> thread k' j = thread k j) ->
  (forall c, calls !! t = Some c -> P c) -> (awake k t -> avail <= 0) ->
  room P q avail calls k -> room Q q' avail' calls k ->
  room P q avail (delete t calls) k' /\ room Q q' avail' (delete t calls) k'.
Proof.
  intros H Hr El Ej Ht Ha R R'. split.
  - apply (room_left P q avail calls k k' t); auto.
  - apply (room_left Q q' avail' calls k k' t); auto. intros c E Hq. by destruct (PQ c (Ht c E)).
Qed.

(** The rest of the kernel leaves the threads in a call alone. *)
Lemma elsewhere X q avail calls k k' :
  evolves X k k' -> (forall t, X t -> calls !! t = None) -> room P q avail calls k ->
  room P q avail calls k'.
Proof.
  intros V Hx R. apply (room_keep P q avail _ calls _ k k' R); [|done|].
  - eapply evolves_stay; [exact V|exact R|]. intros j Hj. split; [|done]. intros Hxj.
    apply V in Hj. destruct (rm_waits _ _ _ _ _ R j Hj) as [_ (c & E & _)]. by rewrite Hx in E.
  - intros j c Hj. apply (evolves_woken P X calls calls k k'); try done.
    intros Hxj. apply lookup_woken in Hj as (E & _). by rewrite Hx in E.
Qed.
End Gates.

(** ** Rings *)

Section Rings.
Context {A : Type} `{!Inhabited A}.
Implicit Types (pool : list A) (v : A) (sz out n : Z).

(** The [n] entries from the index [out] on, in a ring of [sz]. *)
Definition slots pool sz out n : list A :=
  (fun i => pool !!! Z.to_nat ((out + i) mod sz)) <$> seqZ 0 n.

Lemma length_slots pool sz out n : length (slots pool sz out n) = Z.to_nat n.
Proof. unfold slots. by rewrite length_fmap, length_seqZ. Qed.

(** The index after [i], as the code computes it. *)
Lemma mod_succ i sz : 0 <= i < sz -> (i + 1) mod sz = if sz <=? i + 1 then 0 else i + 1.
Proof.
  intros H. destruct (Z.leb_spec sz (i + 1)).
  - replace (i + 1) with sz by lia. apply Z.mod_same. lia.
  - apply Z.mod_small. lia.
Qed.
Lemma mod_inj out i j sz : 0 <= i < sz -> 0 <= j < sz -> (out + i) mod sz = (out + j) mod sz -> i = j.
Proof.
  intros Hi Hj E. assert ((i - j) mod sz = 0) as H.
  { replace (i - j) with ((out + i) - (out + j)) by lia.
    rewrite Zminus_mod, E, Z.sub_diag. by apply Z.mod_0_l; lia. }
  apply Z.mod_divide in H as [d Hd]; [|lia]. assert (d = 0) by nia. lia.
Qed.

Lemma slots_insert pool sz out n i v :
  0 <= n -> (forall j, 0 <= j < n -> (out + j) mod sz <> i) -> 0 < sz -> 0 <= i ->
  slots (<[Z.to_nat i := v]> pool) sz out n = slots pool sz out n.
Proof.
  intros Hn Hj Hs Hi. unfold slots. apply list_fmap_ext. intros k j Hk.
  apply lookup_seqZ in Hk as [-> Hk]. apply list_lookup_total_insert_ne.
  specialize (Hj (0 + Z.of_nat k) ltac:(lia)). pose proof (Z.mod_pos_bound (out + (0 + Z.of_nat k)) sz Hs). lia.
Qed.

Lemma slots_put pool sz out n v :
  0 <= n < sz -> 0 <= out < sz -> sz <= Z.of_nat (length pool) ->
  slots (<[Z.to_nat ((out + n) mod sz) := v]> pool) sz out (n + 1) = slots pool sz out n ++ [v].
Proof.
  intros Hn Ho Hl. pose proof (Z.mod_pos_bound (out + n) sz ltac:(lia)) as Hm.
  rewrite <- (slots_insert pool sz out n ((out + n) mod sz) v); try lia.
  - unfold slots. rewrite (seqZ_app 0 n 1), fmap_app by lia. f_equal.
    change (seqZ (0 + n) 1) with [n]. cbn [fmap list_fmap].
    by rewrite list_lookup_total_insert_eq by lia.
  - intros j Hj E. apply mod_inj in E; lia.
Qed.

Lemma slots_get pool sz out n :
  0 < n <= sz -> 0 <= out < sz ->
  slots pool sz out n = pool !!! Z.to_nat out :: slots pool sz ((out + 1) mod sz) (n - 1).
Proof.
  intros Hn Ho. unfold slots. rewrite seqZ_cons by lia. cbn [fmap list_fmap].
  rewrite Z.add_0_r, (Z.mod_small out) by lia. f_equal.
  change (Z.succ 0) with (1 + 0). rewrite <- Z.sub_1_r, <- (fmap_add_seqZ 1 0), <- list_fmap_compose.
  apply list_fmap_ext. intros k j Hk. cbn. f_equal. f_equal.
  rewrite Zplus_mod_idemp_l. f_equal. lia.
Qed.

Lemma slots_urgent pool sz out n v :
  0 <= n < sz -> 0 <= out < sz -> sz <= Z.of_nat (length pool) ->
  slots (<[Z.to_nat ((out - 1) mod sz) := v]> pool) sz ((out - 1) mod sz) (n + 1) = v :: slots pool sz out n.
Proof.
  intros Hn Ho Hl. pose proof (Z.mod_pos_bound (out - 1) sz ltac:(lia)) as Hm.
  assert (((out - 1) mod sz + 1) mod sz = out) as E.
  { rewrite Zplus_mod_idemp_l. replace (out - 1 + 1) with out by lia. apply Z.mod_small. lia. }
  rewrite slots_get by lia. rewrite list_lookup_total_insert_eq by lia. f_equal.
  rewrite E. replace (n + 1 - 1) with n by lia. apply slots_insert; try lia.
  intros j Hj E'. replace (out + j) with ((out - 1) + (j + 1)) in E' by lia.
  rewrite <- (Z.add_0_r (out - 1)) in E' at 2. apply mod_inj in E'; lia.
Qed.
End Rings.

(** ** Concrete runs *)

Definition answer_of {A B} (x : result (A * B)) : option A :=
  match x with Ok (a, _) => Some a | Fault _ => None end.
Definition state_of {A B} (d : B) (x : result (A * B)) : B :=
  match x with Ok (_, b) => b | Fault _ => d end.
Lemma ran {A B} (x : result (A * B)) a d : answer_of x = Some a -> x = Ok (a, state_of d x).
Proof. destruct x as [[a' b]|]; cbn; [by intros [= ->]|done]. Qed.

(** The threads of the car, and the list heads of a queue at 7 and 8. *)
Definition car_post : kernel := new_head 8 (new_head 7 car).
End Channel.
