(* ===== verification/Mailbox.v ===== *)
(** * Mailboxes (rt-thread/src/ipc.c)

    A mailbox is a ring of words with two suspend lists.  A call that may wait is
    the part up to the [rt_schedule] and the part after it, which tries again.

    The theorems are about every interleaving of calls by any threads with
    anything else the kernel does: each call returns, what it answers is what a
    bounded queue answers, and no wake-up is lost. *)

From stdpp Require Import functions fin_maps.
From S2P Require Import Prelude Timer Thread Evolve Ipc Channel.

Module Mailbox.
Import Timer Thread Evolve Ipc Channel.

Definition RT_MB_ENTRY_MAX : Z := 0xffff.

(** [struct rt_mailbox]; a suspend list is the address of its head. *)
Record rt_mailbox := mk_mb {
  mb_parent : rt_ipc_object; msg_pool : list Z; size : Z; entry : Z;
  in_offset : Z; out_offset : Z; suspend_sender_thread : nat }.
Definition mb_queue (mb : rt_mailbox) : nat := suspend_thread (mb_parent mb).
Definition mb_flag (mb : rt_mailbox) : Z := ipc_flag (mb_parent mb).

Definition set_in (pool : list Z) (off : Z) (mb : rt_mailbox) : rt_mailbox :=
  mk_mb (mb_parent mb) pool (size mb) (entry mb) (u16 off) (out_offset mb) (suspend_sender_thread mb).
Definition set_out (pool : list Z) (off : Z) (mb : rt_mailbox) : rt_mailbox :=
  mk_mb (mb_parent mb) pool (size mb) (entry mb) (in_offset mb) (u16 off) (suspend_sender_thread mb).
Definition set_entry (n : Z) (mb : rt_mailbox) : rt_mailbox :=
  mk_mb (mb_parent mb) (msg_pool mb) (size mb) (u16 n) (in_offset mb) (out_offset mb)
    (suspend_sender_thread mb).

(** [q] and [qs] are the addresses of the list heads in the object. *)
Definition rt_mb_init (q qs : nat) (msgpool : list Z) (sz flag : Z) (k : kernel)
  : result (rt_mailbox * kernel) :=
  _ ← rt_assert ((flag =? RT_IPC_FLAG_FIFO) || (flag =? RT_IPC_FLAG_PRIO));
  Ok (mk_mb (mk_ipc q flag) msgpool (u16 sz) 0 0 0 qs,
      new_head qs (new_head q k)).

Definition rt_mb_detach (mb : rt_mailbox) (k : kernel) : result kernel :=
  k ← _ipc_list_resume_all (mb_queue mb) k;
  _ipc_list_resume_all (suspend_sender_thread mb) k.

(** From "set ptr" to the end of [rt_mb_send_wait]. *)
Definition mb_store (value : Z) (mb : rt_mailbox) : result rt_mailbox :=
  pool ← aset (msg_pool mb) (in_offset mb) value;
  let mb := set_in pool (in_offset mb + 1) mb in
  Ok (if size mb <=? in_offset mb then set_in pool 0 mb else mb).
Definition mb_put (value : Z) (mb : rt_mailbox) (k : kernel) : result (outcome * rt_mailbox * kernel) :=
  mb ← mb_store value mb;
  if entry mb <? RT_MB_ENTRY_MAX then
    let mb := set_entry (entry mb + 1) mb in
    k ← wake_first (mb_queue mb) k;
    Ok (Return RT_EOK, mb, k)
  else Ok (Return (- RT_EFULL), mb, k).

(** The loop of [rt_mb_send_wait], from its head to the next switch or to the
    end of the call. *)
Definition send_wait_loop (thread : option nat) (value : Z) (w : wait) (mb : rt_mailbox) (k : kernel)
  : result (outcome * rt_mailbox * kernel) :=
  if entry mb =? size mb then
    t ← the_thread thread;
    let k := with_thread (set_error RT_EOK) t k in
    if w_timeout w =? 0 then Ok (Return (- RT_EFULL), mb, k)
    else
      '(w, k) ← wait_on (suspend_sender_thread mb) (mb_flag mb) t w k;
      Ok (Wait w, mb, k)
  else mb_put value mb k.

Definition rt_mb_send_wait (value timeout : Z) (mb : rt_mailbox) (k : kernel)
  : result (outcome * rt_mailbox * kernel) :=
  _ ← RT_DEBUG_SCHEDULER_AVAILABLE (negb (timeout =? 0)) k;
  let thread := rt_thread_self k in
  if (entry mb =? size mb) && (timeout =? 0) then Ok (Return (- RT_EFULL), mb, k)
  else send_wait_loop thread value (mk_wait timeout 0) mb k.
(** The thread [t] of the call runs again. *)
Definition rt_mb_send_wait_rest (t : nat) (value : Z) (w : wait) (mb : rt_mailbox) (k : kernel)
  : result (outcome * rt_mailbox * kernel) :=
  if negb (error (thread k t) =? RT_EOK) then Ok (Return (error (thread k t)), mb, k)
  else send_wait_loop (Some t) value (time_left w k) mb k.

Definition rt_mb_send (value : Z) : rt_mailbox -> kernel -> result (outcome * rt_mailbox * kernel) :=
  rt_mb_send_wait value 0.

Definition rt_mb_urgent (value : Z) (mb : rt_mailbox) (k : kernel)
  : result (Z * rt_mailbox * kernel) :=
  if entry mb =? size mb then Ok (- RT_EFULL, mb, k)
  else
    let mb := if 0 <? out_offset mb then set_out (msg_pool mb) (out_offset mb - 1) mb
              else set_out (msg_pool mb) (size mb - 1) mb in
    pool ← aset (msg_pool mb) (out_offset mb) value;
    let mb := set_entry (entry mb + 1) (set_out pool (out_offset mb) mb) in
    k ← wake_first (mb_queue mb) k;
    Ok (RT_EOK, mb, k).

(** From "fill ptr" to the end of [rt_mb_recv]; the value is [*value]. *)
Definition mb_load (mb : rt_mailbox) : result (Z * rt_mailbox) :=
  value ← aget (msg_pool mb) (out_offset mb);
  let mb := set_out (msg_pool mb) (out_offset mb + 1) mb in
  let mb := if size mb <=? out_offset mb then set_out (msg_pool mb) 0 mb else mb in
  Ok (value, if 0 <? entry mb then set_entry (entry mb - 1) mb else mb).
Definition mb_get (mb : rt_mailbox) (k : kernel)
  : result (outcome * option Z * rt_mailbox * kernel) :=
  '(value, mb) ← mb_load mb;
  k ← wake_first (suspend_sender_thread mb) k;
  Ok (Return RT_EOK, Some value, mb, k).

(** The loop of [rt_mb_recv]. *)
Definition recv_loop (thread : option nat) (w : wait) (mb : rt_mailbox) (k : kernel)
  : result (outcome * option Z * rt_mailbox * kernel) :=
  if entry mb =? 0 then
    t ← the_thread thread;
    let k := with_thread (set_error RT_EOK) t k in
    if w_timeout w =? 0 then
      Ok (Return (- RT_ETIMEOUT), None, mb, with_thread (set_error (- RT_ETIMEOUT)) t k)
    else
      '(w, k) ← wait_on (mb_queue mb) (mb_flag mb) t w k;
      Ok (Wait w, None, mb, k)
  else mb_get mb k.

Definition rt_mb_recv (timeout : Z) (mb : rt_mailbox) (k : kernel)
  : result (outcome * option Z * rt_mailbox * kernel) :=
  _ ← RT_DEBUG_SCHEDULER_AVAILABLE (negb (timeout =? 0)) k;
  let thread := rt_thread_self k in
  if (entry mb =? 0) && (timeout =? 0) then Ok (Return (- RT_ETIMEOUT), None, mb, k)
  else recv_loop thread (mk_wait timeout 0) mb k.
Definition rt_mb_recv_rest (t : nat) (w : wait) (mb : rt_mailbox) (k : kernel)
  : result (outcome * option Z * rt_mailbox * kernel) :=
  if negb (error (thread k t) =? RT_EOK) then Ok (Return (error (thread k t)), None, mb, k)
  else recv_loop (Some t) (time_left w k) mb k.

Definition rt_mb_control (cmd : Z) (mb : rt_mailbox) (k : kernel) : result (Z * rt_mailbox * kernel) :=
  if cmd =? RT_IPC_CMD_RESET then
    k ← _ipc_list_resume_all (mb_queue mb) k;
    k ← _ipc_list_resume_all (suspend_sender_thread mb) k;
    let mb := set_out (msg_pool mb) 0 (set_in (msg_pool mb) 0 (set_entry 0 mb)) in
    k ← rt_schedule k;
    Ok (RT_EOK, mb, k)
  else Ok (- RT_ERROR, mb, k).

(** ** The mailbox among threads *)

(** A thread inside a call that may wait. *)
Inductive mb_call := Sending (value : Z) (w : wait) | Receiving (w : wait).
Definition sends (c : mb_call) : Prop := match c with Sending _ _ => True | Receiving _ => False end.
Definition receives (c : mb_call) : Prop := match c with Sending _ _ => False | Receiving _ => True end.
Definition call_wait (c : mb_call) : wait := match c with Sending _ w | Receiving w => w end.
#[export] Instance sends_dec c : Decision (sends c).
Proof. destruct c; apply _. Defined.
#[export] Instance receives_dec c : Decision (receives c).
Proof. destruct c; apply _. Defined.

Record world := mk_world { box : rt_mailbox; kern : kernel; calls : gmap nat mb_call }.

(** A call, the continuation of the call of the current thread, or anything else
    in the kernel. *)
Inductive mb_event :=
| SendWait (value timeout : Z) | Urgent (value : Z) | Recv (timeout : Z) | Reset | Continue | Other (e : event).
Inductive reply := Answer (err : Z) (got : option Z) | Blocked.

(** The end of a call by thread [self]; [o] when it was waiting before. *)
Definition settle (o self : option nat) (r : outcome) (got : option Z) (c : wait -> mb_call)
    (mb : rt_mailbox) (k : kernel) (cs : gmap nat mb_call) : reply * world :=
  match r, self with
  | Return err, _ => (Answer err got, mk_world mb k (drop_call o cs))
  | Wait w, Some t => (Blocked, mk_world mb k (<[t := c w]> cs))
  | Wait w, None => (Blocked, mk_world mb k cs)
  end.

Definition mb_run (e : mb_event) (wd : world) : result (reply * world) :=
  let mb := box wd in let k := kern wd in let cs := calls wd in
  match e with
  | SendWait v timeout =>
      '(r, mb, k') ← rt_mb_send_wait v timeout mb k;
      Ok (settle None (rt_thread_self k) r None (Sending v) mb k' cs)
  | Urgent v => '(err, mb, k) ← rt_mb_urgent v mb k; Ok (Answer err None, mk_world mb k cs)
  | Recv timeout =>
      '(r, got, mb, k') ← rt_mb_recv timeout mb k;
      Ok (settle None (rt_thread_self k) r got Receiving mb k' cs)
  | Reset => '(err, mb, k) ← rt_mb_control RT_IPC_CMD_RESET mb k; Ok (Answer err None, mk_world mb k cs)
  | Continue =>
      t ← current k;
      match cs !! t with
      | Some (Sending v w) =>
          '(r, mb, k') ← rt_mb_send_wait_rest t v w mb k;
          Ok (settle (Some t) (Some t) r None (Sending v) mb k' cs)
      | Some (Receiving w) =>
          '(r, got, mb, k') ← rt_mb_recv_rest t w mb k;
          Ok (settle (Some t) (Some t) r got Receiving mb k' cs)
      | None => Fault OutOfBounds
      end
  | Other e => k ← run e k; Ok (Answer RT_EOK None, mk_world mb k cs)
  end.

(** Who may do what: a call that may wait comes from a thread that is in no call;
    a thread in a call does nothing else, and nobody closes it; when it waits with a
    time limit it runs again before the clock has gone half way round. *)
Definition may_wait (timeout : Z) (wd : world) : Prop :=
  timeout = 0 \/ (may_block (kern wd) /\ timeout < half /\
                  forall t, rt_current_thread (kern wd) = Some t -> calls wd !! t = None).
Definition mb_enabled (e : mb_event) (wd : world) : Prop :=
  match e with
  | SendWait _ timeout | Recv timeout => may_wait timeout wd
  | Urgent _ | Reset => True
  | Continue => exists t c, rt_current_thread (kern wd) = Some t /\ calls wd !! t = Some c /\
      status (thread (kern wd) t) = RT_THREAD_RUNNING /\
      (0 < w_timeout (call_wait c) -> u32 (rt_tick (timers (kern wd)) - w_tick_delta (call_wait c)) < half)
  | Other e => enabled e (kern wd) /\ forall t, touched e (kern wd) = Some t -> calls wd !! t = None
  end.

(** ** A bounded queue *)

Inductive op := Put (v : Z) | PutFront (v : Z) | Get | GiveUp | Clear | Silent.

(** What an event asks of the queue; a wait that ended with an error asks nothing. *)
Definition op_of (e : mb_event) (wd : world) : op :=
  match e with
  | SendWait v _ => Put v
  | Urgent v => PutFront v
  | Recv _ => Get
  | Reset => Clear
  | Continue =>
      match rt_current_thread (kern wd) with
      | Some t =>
          if error (thread (kern wd) t) =? RT_EOK then
            match calls wd !! t with Some (Sending v _) => Put v | Some (Receiving _) => Get | None => Silent end
          else GiveUp
      | None => Silent
      end
  | Other _ => Silent
  end.

(** The queue [l] of capacity [cap] after an operation with a given answer;
    [None] when a bounded queue does not answer so. *)
Definition replay (cap : Z) (l : list Z) (o : op) (r : reply) : option (list Z) :=
  let full := cap <=? Z.of_nat (length l) in
  match o, r with
  | Put v, Answer err None =>
      if full then (if err =? - RT_EFULL then Some l else None)
      else if err =? RT_EOK then Some (l ++ [v]) else None
  | PutFront v, Answer err None =>
      if full then (if err =? - RT_EFULL then Some l else None)
      else if err =? RT_EOK then Some (v :: l) else None
  | Put _, Blocked => if full then Some l else None
  | Get, Answer err (Some x) =>
      match l with
      | y :: l' => if (err =? RT_EOK) && (x =? y) then Some l' else None
      | [] => None
      end
  | Get, Answer err None =>
      if (err =? - RT_ETIMEOUT) && bool_decide (l = []) then Some l else None
  | Get, Blocked => if bool_decide (l = []) then Some l else None
  | GiveUp, Answer err None => if err =? RT_EOK then None else Some l
  | Clear, Answer err None => if err =? RT_EOK then Some [] else None
  | Silent, Answer _ None => Some l
  | _, _ => None
  end.

(** Runs, with what was asked and answered, the first first. *)
Inductive mb_reachable (w0 : world) : list (op * reply) -> world -> Prop :=
| mb_start : mb_reachable w0 [] w0
| mb_step tr e w r w' : mb_reachable w0 tr w -> mb_enabled e w -> mb_run e w = Ok (r, w') ->
                        mb_reachable w0 (tr ++ [(op_of e w, r)]) w'.
Fixpoint replay_all (cap : Z) (l : list Z) (tr : list (op * reply)) : option (list Z) :=
  match tr with
  | [] => Some l
  | (o, r) :: tr => l ← replay cap l o r; replay_all cap l tr
  end.

(** ** The ring *)

(** The messages, oldest first. *)
Definition queued (mb : rt_mailbox) : list Z := slots (msg_pool mb) (size mb) (out_offset mb) (entry mb).

Record box_ok (mb : rt_mailbox) : Prop := {
  bx_size : 0 <= size mb < 65536;
  bx_pool : size mb <= Z.of_nat (length (msg_pool mb));
  bx_entry : 0 <= entry mb <= size mb;
  bx_out : 0 <= out_offset mb /\ (0 < size mb -> out_offset mb < size mb);
  bx_in : 0 < size mb -> in_offset mb = (out_offset mb + entry mb) mod size mb }.

Lemma length_queued mb : length (queued mb) = Z.to_nat (entry mb).
Proof. apply length_slots. Qed.

(** The two mailboxes are one object. *)
Definition same_box (mb mb' : rt_mailbox) : Prop :=
  mb_parent mb' = mb_parent mb /\ size mb' = size mb /\
  suspend_sender_thread mb' = suspend_sender_thread mb.

Lemma mb_store_spec v mb :
  box_ok mb -> entry mb < size mb ->
  exists mb', mb_store v mb = Ok mb' /\ entry mb' = entry mb /\ same_box mb mb' /\
    box_ok (set_entry (entry mb + 1) mb') /\ queued (set_entry (entry mb + 1) mb') = queued mb ++ [v].
Proof.
  intros [S P N O I] Hlt. specialize (I ltac:(lia)). unfold mb_store.
  pose proof (Z.mod_pos_bound (out_offset mb + entry mb) (size mb) ltac:(lia)) as Hin.
  rewrite aset_Ok by lia. cbn [mbind result_bind]. cbv zeta.
  set (pool := <[_ := v]> (msg_pool mb)).
  assert (length pool = length (msg_pool mb)) as El by apply length_insert.
  assert ((out_offset mb + (entry mb + 1)) mod size mb =
          if size mb <=? in_offset mb + 1 then 0 else in_offset mb + 1) as Ei.
  { rewrite <- mod_succ by lia. rewrite I, Zplus_mod_idemp_l. f_equal. lia. }
  assert (slots pool (size mb) (out_offset mb) (entry mb + 1) = queued mb ++ [v]) as Eq.
  { unfold pool. rewrite I. apply slots_put; lia. }
  cbn [size set_in in_offset]. rewrite u16_small by lia. eexists. split; [done|].
  destruct (Z.leb_spec (size mb) (in_offset mb + 1)); (split_and!; [done|done| |]);
    try (split; cbn; rewrite ?El, ?Ei, ?u16_small; lia); unfold queued; cbn; by rewrite u16_small by lia.
Qed.

Lemma mb_load_spec mb x l :
  box_ok mb -> queued mb = x :: l ->
  exists mb', mb_load mb = Ok (x, mb') /\ entry mb' = entry mb - 1 /\ same_box mb mb' /\
    box_ok mb' /\ queued mb' = l.
Proof.
  intros [S P N O I] Hq. pose proof (length_queued mb) as Hl. rewrite Hq in Hl. cbn in Hl.
  specialize (I ltac:(lia)). unfold mb_load, queued in *. rewrite slots_get in Hq by lia.
  injection Hq as Hx Hr.
  rewrite (aget_Ok _ _ x); [|lia|rewrite <- Hx; apply list_lookup_lookup_total_lt; lia].
  cbn [mbind result_bind]. cbv zeta. rewrite (mod_succ (out_offset mb)) in Hr by lia.
  assert (forall o, o = (if size mb <=? out_offset mb + 1 then 0 else out_offset mb + 1) ->
            in_offset mb = (o + (entry mb - 1)) mod size mb) as Ei.
  { intros o ->. rewrite <- mod_succ, Zplus_mod_idemp_l, I by lia. f_equal. lia. }
  cbn [size set_out out_offset]. rewrite u16_small by lia. eexists. split; [done|].
  destruct (Z.leb_spec (size mb) (out_offset mb + 1)); cbn [entry set_out];
    replace (0 <? entry mb) with true by lia; (split_and!; [cbn; cint; lia|done| |]);
    try (split; cbn; rewrite ?u16_small by lia; try lia; intros _; by apply Ei); unfold queued; cbn; by cint.
Qed.

(** The new head of [rt_mb_urgent]. *)
Lemma urgent_ring v mb :
  box_ok mb -> entry mb < size mb ->
  let mb1 := if 0 <? out_offset mb then set_out (msg_pool mb) (out_offset mb - 1) mb
             else set_out (msg_pool mb) (size mb - 1) mb in
  exists pool, aset (msg_pool mb1) (out_offset mb1) v = Ok pool /\ entry mb1 = entry mb /\
    let mb' := set_entry (entry mb + 1) (set_out pool (out_offset mb1) mb1) in
    same_box mb mb' /\ box_ok mb' /\ queued mb' = v :: queued mb.
Proof.
  intros [S P N O I] Hlt mb1. specialize (I ltac:(lia)).
  assert (out_offset mb1 = (out_offset mb - 1) mod size mb /\ msg_pool mb1 = msg_pool mb /\
          size mb1 = size mb /\ in_offset mb1 = in_offset mb /\ same_box mb mb1 /\ entry mb1 = entry mb)
    as (E1 & E2 & E3 & E4 & (E5 & _ & E6) & E7).
  { unfold mb1. destruct (Z.ltb_spec 0 (out_offset mb)); cbn; cint; split_and!; try done.
    - symmetry. apply Z.mod_small. lia.
    - replace (out_offset mb - 1) with (size mb - 1 + (-1) * size mb) by lia.
      rewrite Z.mod_add by lia. symmetry. apply Z.mod_small. lia. }
  pose proof (Z.mod_pos_bound (out_offset mb - 1) (size mb) ltac:(lia)) as Hm.
  rewrite E1, E2, aset_Ok by lia. eexists. split; [done|]. split; [exact E7|]. cbv zeta.
  split; [done|]. split.
  - split; cbn; rewrite ?E3, ?E4, ?length_insert; cint; try lia. intros _.
    rewrite I, Zplus_mod_idemp_l. f_equal. lia.
  - unfold queued. cbn. cint. rewrite E3. apply slots_urgent; lia.
Qed.

(** ** The invariant *)

Record mb_ok (wd : world) : Prop := {
  mk_kernel_ok : kernel_ok (kern wd);
  mk_current : is_Some (rt_current_thread (kern wd));
  mk_box : box_ok (box wd);
  mk_flag : flag_ok (mb_flag (box wd));
  mk_queues : mb_queue (box wd) <> suspend_sender_thread (box wd);
  mk_senders : room sends (suspend_sender_thread (box wd)) (size (box wd) - entry (box wd)) (calls wd) (kern wd);
  mk_receivers : room receives (mb_queue (box wd)) (entry (box wd)) (calls wd) (kern wd);
  mk_times t c : calls wd !! t = Some c -> w_timeout (call_wait c) < half }.

Lemma sends_receives c : sends c -> ~ receives c.
Proof. destruct c; cbn; tauto. Qed.
Lemma receives_sends c : receives c -> ~ sends c.
Proof. destruct c; cbn; tauto. Qed.

Lemma same_queue mb mb' : same_box mb mb' -> mb_queue mb' = mb_queue mb /\ mb_flag mb' = mb_flag mb.
Proof. intros (E & _). unfold mb_queue, mb_flag. by rewrite E. Qed.

(** The state after a step that keeps the object. *)
Lemma mb_ok_intro mb mb' k' cs cs' wd :
  mb_ok wd -> mb = box wd -> cs = calls wd -> same_box mb mb' -> box_ok mb' ->
  kernel_ok k' -> is_Some (rt_current_thread k') ->
  room sends (suspend_sender_thread mb) (size mb - entry mb') cs' k' ->
  room receives (mb_queue mb) (entry mb') cs' k' ->
  (forall t c, cs' !! t = Some c -> w_timeout (call_wait c) < half) ->
  mb_ok (mk_world mb' k' cs').
Proof.
  intros W -> -> S B H C Rs Rr T. destruct (same_queue _ _ S) as [Eq Ef]. destruct S as (_ & Es & Et).
  split; cbn; rewrite ?Eq, ?Ef, ?Es, ?Et; try done; apply W.
Qed.

Lemma drop_call_times o (cs : gmap nat mb_call) t c :
  (forall t c, cs !! t = Some c -> w_timeout (call_wait c) < half) ->
  drop_call o cs !! t = Some c -> w_timeout (call_wait c) < half.
Proof.
  intros H. destruct o as [t'|]; cbn; [|apply H]. intros [_ E]%lookup_delete_Some. by apply (H t).
Qed.

Lemma full_queued mb : box_ok mb -> (size mb <=? Z.of_nat (length (queued mb))) = (entry mb =? size mb).
Proof. intros [S P N O I]. rewrite length_queued. lia. Qed.
Lemma empty_queued mb : box_ok mb -> bool_decide (queued mb = []) = (entry mb =? 0).
Proof.
  intros [S P N O I]. pose proof (length_queued mb). case_bool_decide as E.
  - rewrite E in *. cbn in *. lia.
  - symmetry. apply Z.eqb_neq. intros E0. apply E. apply length_zero_iff_nil. lia.
Qed.

(** The one who asks: no thread in a call, or the thread that continues. *)
Definition asks (P : mb_call -> Prop) (o : option nat) (wd : world) : Prop :=
  forall t, o = Some t -> exists c, calls wd !! t = Some c /\ P c /\ awake (kern wd) t.

Lemma put_ok o self v wd :
  mb_ok wd -> asks sends o wd -> entry (box wd) <> size (box wd) ->
  exists r mb' k', mb_put v (box wd) (kern wd) = Ok (r, mb', k') /\
    let '(rep, wd') := settle o self r None (Sending v) mb' k' (calls wd) in
    mb_ok wd' /\ size (box wd') = size (box wd) /\
    replay (size (box wd)) (queued (box wd)) (Put v) rep = Some (queued (box wd')).
Proof.
  intros W Ho Hne. pose proof W as [H C B F Q Rs Rr T]. pose proof (bx_entry _ B). pose proof (bx_size _ B).
  destruct (mb_store_spec v (box wd) B ltac:(lia)) as (mb & E & En & S & B' & Eq).
  destruct (same_queue _ _ S) as [Eq1 _]. unfold mb_put. rewrite E. cbn [mbind result_bind].
  replace (entry mb <? RT_MB_ENTRY_MAX) with true by (unfold RT_MB_ENTRY_MAX; lia). rewrite En.
  set (mb' := set_entry (entry (box wd) + 1) mb) in *.
  destruct (served sends receives sends_receives (suspend_sender_thread (box wd)) (mb_queue (box wd))
    _ _ (calls wd) (kern wd) o H C (not_eq_sym Q) Rs Rr Ho) as (k' & Ek & H' & C' & Rs' & Rr').
  assert (mb_queue mb' = mb_queue (box wd)) as -> by exact Eq1. rewrite Ek. cbn [mbind result_bind].
  exists (Return RT_EOK), mb', k'. split; [done|]. cbn. split_and!.
  - assert (entry mb' = entry (box wd) + 1) as En' by (cbn; cint; lia).
    eapply mb_ok_intro; try done; rewrite ?En'; try done.
    + by replace (size (box wd) - (entry (box wd) + 1)) with (size (box wd) - entry (box wd) - 1) by lia.
    + intros t c. by apply drop_call_times.
  - apply S.
  - rewrite full_queued by done. replace (entry (box wd) =? size (box wd)) with false by lia. cbn. by rewrite Eq.
Qed.

Lemma get_ok o self wd :
  mb_ok wd -> asks receives o wd -> entry (box wd) <> 0 ->
  exists r got mb' k', mb_get (box wd) (kern wd) = Ok (r, got, mb', k') /\
    let '(rep, wd') := settle o self r got Receiving mb' k' (calls wd) in
    mb_ok wd' /\ size (box wd') = size (box wd) /\
    replay (size (box wd)) (queued (box wd)) Get rep = Some (queued (box wd')).
Proof.
  intros W Ho Hne. pose proof W as [H C B F Q Rs Rr T]. pose proof (length_queued (box wd)) as Hl.
  pose proof (bx_entry _ B). destruct (queued (box wd)) as [|x l] eqn:Eq; [cbn in *; lia|].
  destruct (mb_load_spec (box wd) x l B Eq) as (mb' & E & En & S & B' & Eq').
  unfold mb_get. rewrite E. cbn [mbind result_bind].
  destruct (served receives sends receives_sends (mb_queue (box wd)) (suspend_sender_thread (box wd))
    _ _ (calls wd) (kern wd) o H C Q Rr Rs Ho) as (k' & Ek & H' & C' & Rr' & Rs').
  pose proof S as (_ & Es & Et). rewrite Et, Ek. cbn [mbind result_bind].
  exists (Return RT_EOK), (Some x), mb', k'. split; [done|]. cbn [settle]. split_and!; [|done|].
  - eapply mb_ok_intro; try done; rewrite ?En; try done.
    + by replace (size (box wd) - (entry (box wd) - 1)) with (size (box wd) - entry (box wd) + 1) by lia.
    + intros t c. by apply drop_call_times.
  - cbn. rewrite Z.eqb_refl. by rewrite Eq'.
Qed.

(** The current thread [t], which may wait at one gate; [o] when it continues. *)
Record turn (P : mb_call -> Prop) (o : option nat) (w : wait) (wd : world) (t : nat) : Prop := {
  tn_current : rt_current_thread (kern wd) = Some t;
  tn_running : status (thread (kern wd) t) = RT_THREAD_RUNNING;
  tn_call c : calls wd !! t = Some c -> P c;
  tn_who : match o with Some t' => t' = t | None => w_timeout w <> 0 end;
  tn_time : w_timeout w < half }.

(** The error code is cleared before a wait. *)
Lemma clear_error_ok t wd :
  mb_ok wd -> mb_ok (mk_world (box wd) (with_thread (set_error RT_EOK) t (kern wd)) (calls wd)).
Proof.
  intros [H C B F Q Rs Rr T].
  assert (evolves nobody (kern wd) (with_thread (set_error RT_EOK) t (kern wd))) as V.
  { apply ev_thread. by right. }
  split; try done; cbn; [by apply change_plain_ok|..].
  - by apply (elsewhere sends nobody _ _ _ (kern wd)); [|intros ? []|].
  - by apply (elsewhere receives nobody _ _ _ (kern wd)); [|intros ? []|].
Qed.

Lemma send_loop_ok th o v w wd :
  mb_ok wd -> asks sends o wd ->
  (entry (box wd) = size (box wd) -> exists t, th = Some t /\ turn sends o w wd t) ->
  exists r mb' k', send_wait_loop th v w (box wd) (kern wd) = Ok (r, mb', k') /\
    let '(rep, wd') := settle o (rt_current_thread (kern wd)) r None (Sending v) mb' k' (calls wd) in
    mb_ok wd' /\ size (box wd') = size (box wd) /\
    replay (size (box wd)) (queued (box wd)) (Put v) rep = Some (queued (box wd')).
Proof.
  intros W Ho Ht. unfold send_wait_loop. destruct (Z.eqb_spec (entry (box wd)) (size (box wd))) as [Ef|Ef];
    [|by apply put_ok].
  destruct (Ht Ef) as (t & -> & [Hc Hs Hp Hw Hh]). cbn [the_thread mbind result_bind].
  pose proof (clear_error_ok t _ W) as W1. pose proof W as [H C B F Q Rs Rr T].
  set (k1 := with_thread (set_error RT_EOK) t (kern wd)) in *. destruct W1 as [H1 _ _ _ _ Rs1 Rr1 _]. cbn in *.
  assert (replay (size (box wd)) (queued (box wd)) (Put v) Blocked = Some (queued (box wd)) /\
          replay (size (box wd)) (queued (box wd)) (Put v) (Answer (- RT_EFULL) None) = Some (queued (box wd))) as [Eb Ea].
  { cbn. by rewrite full_queued, Ef, Z.eqb_refl. }
  destruct (Z.eqb_spec (w_timeout w) 0) as [E0|E0].
  - destruct o as [t'|]; [subst t'|done]. exists (Return (- RT_EFULL)), (box wd), k1. split; [done|].
    cbn [settle]. split_and!; [|done|done].
    destruct (leaves sends receives sends_receives (suspend_sender_thread (box wd)) (mb_queue (box wd))
      (size (box wd) - entry (box wd)) (entry (box wd))
      (calls wd) (kern wd) k1 t H) as [Rs' Rr']; try done.
    + by right.
    + intros j Hj. unfold k1. by rewrite thread_with_thread, decide_False.
    + lia.
    + eapply mb_ok_intro; try done. intros j c. by apply (drop_call_times (Some t)).
  - destruct (blocked sends receives sends_receives (suspend_sender_thread (box wd)) (mb_queue (box wd))
      (size (box wd) - entry (box wd)) (entry (box wd))
      (calls wd) k1 t (mb_flag (box wd)) w) as (w' & k' & E & Ew & H' & C' & R'); try done.
    + unfold k1. by rewrite thread_with_thread, decide_True.
    + unfold k1. by rewrite thread_with_thread, decide_True.
    + lia.
    + rewrite E. cbn [mbind result_bind]. exists (Wait w'), (box wd), k'. split; [done|].
      rewrite Hc. cbn [settle]. destruct (R' (Sending v w') I) as [Rs' Rr']. split_and!; [|done|done].
      eapply mb_ok_intro; try done. intros j c [[<- <-]|[_ Hj]]%lookup_insert_Some; [cbn; lia|by eapply T].
Qed.

Lemma recv_loop_ok th o w wd :
  mb_ok wd -> asks receives o wd ->
  (entry (box wd) = 0 -> exists t, th = Some t /\ turn receives o w wd t) ->
  exists r got mb' k', recv_loop th w (box wd) (kern wd) = Ok (r, got, mb', k') /\
    let '(rep, wd') := settle o (rt_current_thread (kern wd)) r got Receiving mb' k' (calls wd) in
    mb_ok wd' /\ size (box wd') = size (box wd) /\
    replay (size (box wd)) (queued (box wd)) Get rep = Some (queued (box wd')).
Proof.
  intros W Ho Ht. unfold recv_loop. destruct (Z.eqb_spec (entry (box wd)) 0) as [Ef|Ef]; [|by apply get_ok].
  destruct (Ht Ef) as (t & -> & [Hc Hs Hp Hw Hh]). cbn [the_thread mbind result_bind].
  pose proof (clear_error_ok t _ W) as W1. pose proof W as [H C B F Q Rs Rr T].
  set (k1 := with_thread (set_error RT_EOK) t (kern wd)) in *. destruct W1 as [H1 _ _ _ _ Rs1 Rr1 _]. cbn in *.
  assert (queued (box wd) = []) as Eq.
  { apply length_zero_iff_nil. rewrite length_queued. lia. }
  destruct (Z.eqb_spec (w_timeout w) 0) as [E0|E0].
  - destruct o as [t'|]; [subst t'|done]. set (k2 := with_thread (set_error (- RT_ETIMEOUT)) t k1).
    exists (Return (- RT_ETIMEOUT)), None, (box wd), k2. split; [done|].
    cbn [settle]. split_and!; [|done|by cbn [box]; rewrite Eq].
    destruct (leaves receives sends receives_sends (mb_queue (box wd)) (suspend_sender_thread (box wd))
      (entry (box wd)) (size (box wd) - entry (box wd))
      (calls wd) (kern wd) k2 t H) as [Rr' Rs']; try done.
    + by right.
    + intros j Hj. unfold k2, k1. by rewrite !thread_with_thread, !decide_False.
    + lia.
    + eapply mb_ok_intro; try done; [by apply change_plain_ok|]. intros j c. by apply (drop_call_times (Some t)).
  - destruct (blocked receives sends receives_sends (mb_queue (box wd)) (suspend_sender_thread (box wd))
      (entry (box wd)) (size (box wd) - entry (box wd))
      (calls wd) k1 t (mb_flag (box wd)) w) as (w' & k' & E & Ew & H' & C' & R'); try done.
    + unfold k1. by rewrite thread_with_thread, decide_True.
    + unfold k1. by rewrite thread_with_thread, decide_True.
    + lia.
    + rewrite E. cbn [mbind result_bind]. exists (Wait w'), None, (box wd), k'. split; [done|].
      rewrite Hc. cbn [settle]. destruct (R' (Receiving w') I) as [Rr' Rs']. split_and!; [|done|by cbn [box]; rewrite Eq].
      eapply mb_ok_intro; try done. intros j c [[<- <-]|[_ Hj]]%lookup_insert_Some; [cbn; lia|by eapply T].
Qed.

(** ** Every step *)

(** The first check of a call that may wait. *)
Lemma may_wait_debug timeout wd :
  may_wait timeout wd -> RT_DEBUG_SCHEDULER_AVAILABLE (negb (timeout =? 0)) (kern wd) = Ok tt.
Proof.
  intros [->|(Hm & _)]; [done|]. destruct (timeout =? 0); [done|]. by apply debug_available.
Qed.

Lemma may_wait_turn P timeout wd :
  may_wait timeout wd -> timeout <> 0 ->
  exists t, rt_current_thread (kern wd) = Some t /\ turn P None (mk_wait timeout 0) wd t.
Proof.
  intros [->|((_ & _ & t & Hc & Hs) & Ht & Hn)] Hne; [done|]. exists t. split; [done|].
  split; try done. intros c Hcall. by rewrite Hn in Hcall.
Qed.

Lemma asks_none P wd : asks P None wd.
Proof. done. Qed.

Definition step_ok (o : op) (wd : world) (x : result (reply * world)) : Prop :=
  exists r wd', x = Ok (r, wd') /\ mb_ok wd' /\ size (box wd') = size (box wd) /\
    replay (size (box wd)) (queued (box wd)) o r = Some (queued (box wd')).

Lemma send_ok v timeout wd :
  mb_ok wd -> may_wait timeout wd -> step_ok (Put v) wd (mb_run (SendWait v timeout) wd).
Proof.
  intros W Hw. unfold mb_run, step_ok, rt_mb_send_wait. rewrite may_wait_debug by done. cbn [mbind result_bind].
  destruct ((entry (box wd) =? size (box wd)) && (timeout =? 0)) eqn:Ec.
  - cbn [mbind result_bind settle]. eexists _, _. split; [done|]. split_and!; [by destruct W|done|].
    cbn. rewrite full_queued by apply W. by apply andb_true_iff in Ec as [-> _].
  - destruct (send_loop_ok (rt_thread_self (kern wd)) None v (mk_wait timeout 0) wd W (asks_none _ _))
      as (r & mb' & k' & E & R).
    { intros Ef. apply may_wait_turn; [done|]. intros ->. by rewrite Ef, !Z.eqb_refl in Ec. }
    rewrite E. cbn [mbind result_bind]. unfold rt_thread_self in *.
    destruct (settle _ _ _ _ _ _ _ _) as [rep wd']. by exists rep, wd'.
Qed.

Lemma recv_ok timeout wd :
  mb_ok wd -> may_wait timeout wd -> step_ok Get wd (mb_run (Recv timeout) wd).
Proof.
  intros W Hw. unfold mb_run, step_ok, rt_mb_recv. rewrite may_wait_debug by done. cbn [mbind result_bind].
  destruct ((entry (box wd) =? 0) && (timeout =? 0)) eqn:Ec.
  - cbn [mbind result_bind settle]. eexists _, _. split; [done|]. split_and!; [by destruct W|done|].
    cbn. rewrite empty_queued by apply W. by apply andb_true_iff in Ec as [-> _].
  - destruct (recv_loop_ok (rt_thread_self (kern wd)) None (mk_wait timeout 0) wd W (asks_none _ _))
      as (r & got & mb' & k' & E & R).
    { intros Ef. apply may_wait_turn; [done|]. intros ->. by rewrite Ef, !Z.eqb_refl in Ec. }
    rewrite E. cbn [mbind result_bind]. unfold rt_thread_self in *.
    destruct (settle _ _ _ _ _ _ _ _) as [rep wd']. by exists rep, wd'.
Qed.

Lemma urgent_ok v wd : mb_ok wd -> step_ok (PutFront v) wd (mb_run (Urgent v) wd).
Proof.
  intros W. pose proof W as [H C B F Q Rs Rr T]. pose proof (bx_entry _ B). pose proof (bx_size _ B).
  unfold mb_run, step_ok, rt_mb_urgent. destruct (Z.eqb_spec (entry (box wd)) (size (box wd))) as [Ef|Ef].
  - cbn [mbind result_bind]. eexists _, _. split; [done|]. split_and!; [by destruct W|done|].
    cbn. by rewrite full_queued, Ef, Z.eqb_refl by done.
  - destruct (urgent_ring v (box wd) B ltac:(lia)) as (pool & E & En & S & B' & Eq). cbv zeta in *.
    rewrite E. cbn [mbind result_bind]. rewrite En. set (mb' := set_entry _ _) in *.
    destruct (served sends receives sends_receives (suspend_sender_thread (box wd)) (mb_queue (box wd))
      _ _ (calls wd) (kern wd) None H C (not_eq_sym Q) Rs Rr (asks_none _ _)) as (k' & Ek & H' & C' & Rs' & Rr').
    destruct (same_queue _ _ S) as [-> _]. rewrite Ek. cbn [mbind result_bind].
    eexists _, _. split; [done|]. split_and!.
    + assert (entry mb' = entry (box wd) + 1) as En' by (cbn; cint; lia).
      eapply mb_ok_intro; try done; rewrite ?En'; try done.
      by replace (size (box wd) - (entry (box wd) + 1)) with (size (box wd) - entry (box wd) - 1) by lia.
    + apply S.
    + cbn [replay box]. rewrite full_queued by done.
      replace (entry (box wd) =? size (box wd)) with false by lia. by rewrite Eq.
Qed.

Lemma reset_ok wd : mb_ok wd -> step_ok Clear wd (mb_run Reset wd).
Proof.
  intros W. pose proof W as [H C B F Q Rs Rr T]. unfold mb_run, step_ok, rt_mb_control. rewrite Z.eqb_refl.
  destruct (resume_all_ok (mb_queue (box wd)) _ H C (rm_head _ _ _ _ _ Rr)) as (k1 & E1 & H1 & C1 & M1 & S1).
  rewrite E1. cbn [mbind result_bind].
  destruct (resume_all_ok (suspend_sender_thread (box wd)) k1 H1 C1) as (k2 & E2 & H2 & C2 & M2 & S2).
  { apply S1, Rs. }
  rewrite E2. cbn [mbind result_bind]. destruct (schedule_ok k2 H2 C2) as (k3 & E3 & H3 & F3).
  rewrite E3. cbn [mbind result_bind]. eexists _, _. split; [done|].
  assert (shrinks k1 k3) as S3 by (etrans; [exact S2|by apply (schedule_evolves (R := shrinks))]).
  split_and!; [|done|done]. split; cbn; try done.
  - by apply (sf_current _ _ F3).
  - destruct B. split; cbn; change (u16 0) with 0; try done; lia.
  - apply room_empty; [apply S3, S1, Rs|]. by rewrite (sf_waiting _ _ F3).
  - apply room_empty; [apply S3, S1, Rr|].
    destruct (S3 (mb_queue (box wd))) as [Hs _]. fold (mb_queue (box wd)). change (suspend_thread _) with (mb_queue (box wd)).
    rewrite M1 in Hs. by apply list_nil_subseteq in Hs.
Qed.

(** What the thread that continues has. *)
Lemma continue_turn P (t : nat) (c : mb_call) wd :
  mb_ok wd -> rt_current_thread (kern wd) = Some t -> calls wd !! t = Some c -> P c ->
  status (thread (kern wd) t) = RT_THREAD_RUNNING ->
  (0 < w_timeout (call_wait c) -> u32 (rt_tick (timers (kern wd)) - w_tick_delta (call_wait c)) < half) ->
  error (thread (kern wd) t) = RT_EOK ->
  asks P (Some t) wd /\ turn P (Some t) (time_left (call_wait c) (kern wd)) wd t.
Proof.
  intros W Hc Hl Hp Hs Hd He. split.
  - intros t' [= <-]. exists c. split; [done|]. split; [done|]. split; [done|by right].
  - split; try done; [intros c' Hc'; by simplify_eq|]. apply time_left_bound; [|done].
    by eapply mk_times.
Qed.

(** The wait ended with an error. *)
Lemma give_up_ok t c mb wd :
  mb_ok wd -> calls wd !! t = Some c -> mb = box wd -> status (thread (kern wd) t) = RT_THREAD_RUNNING ->
  error (thread (kern wd) t) <> RT_EOK ->
  mb_ok (mk_world mb (kern wd) (delete t (calls wd))).
Proof.
  intros W Hl -> Hs He. pose proof W as [H C B F Q Rs Rr T].
  assert (runnable (thread (kern wd) t)) as Hr by by right.
  assert (awake (kern wd) t -> False) as Ha by (by intros []).
  assert (room sends (suspend_sender_thread (box wd)) (size (box wd) - entry (box wd)) (delete t (calls wd)) (kern wd) /\
          room receives (mb_queue (box wd)) (entry (box wd)) (delete t (calls wd)) (kern wd)) as [Rs' Rr'].
  { destruct c as [v w|w].
    - eapply (leaves sends receives sends_receives); try done; by intros c Hc; simplify_eq.
    - apply and_comm. eapply (leaves receives sends receives_sends); try done; by intros c Hc; simplify_eq. }
  eapply mb_ok_intro; try done. intros j c'. by apply (drop_call_times (Some t)).
Qed.

Lemma continue_ok wd :
  mb_ok wd -> mb_enabled Continue wd -> step_ok (op_of Continue wd) wd (mb_run Continue wd).
Proof.
  intros W (t & c & Hc & Hl & Hs & Hd). unfold mb_run, op_of, current, step_ok. rewrite Hc. cbn [mbind result_bind].
  rewrite Hl. destruct (Z.eqb_spec (error (thread (kern wd) t)) RT_EOK) as [He|He].
  - destruct c as [v w|w].
    + destruct (continue_turn sends t _ wd W Hc Hl I Hs Hd He) as [Ha Ht]. unfold rt_mb_send_wait_rest.
      rewrite He, Z.eqb_refl. cbn [negb].
      destruct (send_loop_ok (Some t) (Some t) v (time_left w (kern wd)) wd W Ha) as (r & mb' & k' & E & R); [by eauto|].
      rewrite E. rewrite Hc in R. cbn [mbind result_bind].
      destruct (settle _ _ _ _ _ _ _ _) as [rep wd']. by exists rep, wd'.
    + destruct (continue_turn receives t _ wd W Hc Hl I Hs Hd He) as [Ha Ht]. unfold rt_mb_recv_rest.
      rewrite He, Z.eqb_refl. cbn [negb].
      destruct (recv_loop_ok (Some t) (Some t) (time_left w (kern wd)) wd W Ha) as (r & got & mb' & k' & E & R); [by eauto|].
      rewrite E. rewrite Hc in R. cbn [mbind result_bind].
      destruct (settle _ _ _ _ _ _ _ _) as [rep wd']. by exists rep, wd'.
  - apply Z.eqb_neq in He as Heb. unfold rt_mb_send_wait_rest, rt_mb_recv_rest. rewrite Heb. cbn [negb].
    destruct c; (eexists _, _; split; [done|]; cbn [settle drop_call];
      split_and!; [by eapply give_up_ok|done|by cbn; rewrite Heb]).
Qed.

Lemma other_ok e wd :
  mb_ok wd -> mb_enabled (Other e) wd -> step_ok Silent wd (mb_run (Other e) wd).
Proof.
  intros W [He Ht]. pose proof W as [H C B F Q Rs Rr T]. unfold mb_run, step_ok.
  destruct (run_ok e (kern wd) H C He) as (k' & E & H' & C'). rewrite E. cbn [mbind result_bind].
  set (X := fun t => touched e (kern wd) = Some t).
  assert (evolves X (kern wd) k') as V by by eapply run_evolves; [|exact E].
  eexists _, _. split; [done|]. split_and!; [|done|done].
  eapply mb_ok_intro; try done; by apply (elsewhere _ X _ _ _ (kern wd)).
Qed.

Lemma mb_run_ok e wd : mb_ok wd -> mb_enabled e wd -> step_ok (op_of e wd) wd (mb_run e wd).
Proof.
  intros W He. destruct e as [v timeout|v|timeout| | |e]; cbn [mb_enabled op_of] in *.
  - by apply send_ok.
  - by apply urgent_ok.
  - by apply recv_ok.
  - by apply reset_ok.
  - by apply continue_ok.
  - by apply other_ok.
Qed.

Lemma replay_all_app cap l tr1 tr2 :
  replay_all cap l (tr1 ++ tr2) = l ← replay_all cap l tr1; replay_all cap l tr2.
Proof.
  revert l. induction tr1 as [|[o r] tr1 IH]; intros l; cbn; [done|].
  destruct (replay cap l o r); cbn; [apply IH|done].
Qed.

Lemma mb_reachable_ok w0 tr wd :
  mb_ok w0 -> mb_reachable w0 tr wd ->
  mb_ok wd /\ size (box wd) = size (box w0) /\
  replay_all (size (box w0)) (queued (box w0)) tr = Some (queued (box wd)).
Proof.
  intros W0. induction 1 as [|tr e wd r wd' Hr (W & S & R) He E]; [done|].
  destruct (mb_run_ok e wd W He) as (r1 & wd1 & E1 & W1 & S1 & R1).
  rewrite E in E1. injection E1 as <- <-. split_and!; [done|congruence|].
  rewrite replay_all_app, R. cbn. rewrite <- S, R1. done.
Qed.

Lemma mb_init_ok q qs pool sz flag k mb k' :
  kernel_ok k -> is_Some (rt_current_thread k) -> members (Waiting q) k = [] -> members (Waiting qs) k = [] ->
  q <> qs -> 0 <= sz < 65536 -> sz <= Z.of_nat (length pool) ->
  rt_mb_init q qs pool sz flag k = Ok (mb, k') ->
  mb_ok (mk_world mb k' ∅) /\ size mb = sz /\ queued mb = [].
Proof.
  intros H C M1 M2 Hq Hs Hp E. unfold rt_mb_init in E. apply bind_Ok in E as ([] & Ef & [= <- <-]).
  unfold rt_assert in Ef. destruct (_ || _) eqn:Eo; [|done].
  assert (members (Waiting qs) (new_head q k) = []) as M3 by (by rewrite new_head_members).
  split_and!; [|cbn; cint; lia|done].
  assert (kernel_ok (new_head qs (new_head q k))) as H' by (by apply new_head_ok; [apply new_head_ok|]).
  split; cbn; try done.
  - split; cbn; cint; try done; lia.
  - unfold flag_ok, mb_flag. cbn. lia.
  - apply room_empty; [cbn; rewrite lookup_insert_eq; eauto|]. by rewrite new_head_members.
  - apply room_empty; [cbn; rewrite lookup_insert_ne, lookup_insert_eq by congruence; eauto|].
    by rewrite !new_head_members.
Qed.

(** C26: a mailbox is a bounded queue.  After [rt_mb_init], whatever calls any
    threads make on it with any time limits, whenever they are woken, time out or
    are preempted, and whatever else the kernel does in between: every call
    returns or waits, without a fault, and every answer is the one that a bounded
    queue of that capacity gives at that point of the run; the queue then holds
    what the ring of the mailbox holds. *)
Theorem mailbox_refines_queue (q qs : nat) (pool : list Z) (sz flag : Z) (k k0 : kernel)
    (mb : rt_mailbox) (tr : list (op * reply)) (wd : world) (e : mb_event) :
  kernel_ok k -> is_Some (rt_current_thread k) ->
  members (Waiting q) k = [] -> members (Waiting qs) k = [] -> q <> qs ->
  0 <= sz < 65536 -> sz <= Z.of_nat (length pool) ->
  rt_mb_init q qs pool sz flag k = Ok (mb, k0) ->
  mb_reachable (mk_world mb k0 ∅) tr wd -> mb_enabled e wd ->
  replay_all sz [] tr = Some (queued (box wd)) /\
  exists r wd', mb_run e wd = Ok (r, wd') /\
    replay sz (queued (box wd)) (op_of e wd) r = Some (queued (box wd')).
Proof.
  intros H C M1 M2 Hq Hs Hp E Hr He.
  destruct (mb_init_ok q qs pool sz flag k mb k0 H C M1 M2 Hq Hs Hp E) as (W0 & S0 & Q0).
  destruct (mb_reachable_ok _ tr wd W0 Hr) as (W & S & R). cbn in *. rewrite S0, Q0 in R. split; [done|].
  destruct (mb_run_ok e wd W He) as (r & wd' & E' & _ & _ & R'). rewrite S, S0 in R'. eauto.
Qed.

(** C27: a mailbox loses no wake-up.  At any point of such a run, when a thread
    waits for a message, at least as many woken receivers are still to run as
    there are messages; when a thread waits for room, at least as many woken
    senders as there are free places.  So nobody waits for what nobody else is
    about to take. *)
Theorem mailbox_no_lost_wakeup (q qs : nat) (pool : list Z) (sz flag : Z) (k k0 : kernel)
    (mb : rt_mailbox) (tr : list (op * reply)) (wd : world) :
  kernel_ok k -> is_Some (rt_current_thread k) ->
  members (Waiting q) k = [] -> members (Waiting qs) k = [] -> q <> qs ->
  0 <= sz < 65536 -> sz <= Z.of_nat (length pool) ->
  rt_mb_init q qs pool sz flag k = Ok (mb, k0) ->
  mb_reachable (mk_world mb k0 ∅) tr wd ->
  (members (Waiting (mb_queue (box wd))) (kern wd) <> [] ->
   entry (box wd) <= Z.of_nat (base.size (woken receives (calls wd) (kern wd)))) /\
  (members (Waiting (suspend_sender_thread (box wd))) (kern wd) <> [] ->
   sz - entry (box wd) <= Z.of_nat (base.size (woken sends (calls wd) (kern wd)))).
Proof.
  intros H C M1 M2 Hq Hs Hp E Hr.
  destruct (mb_init_ok q qs pool sz flag k mb k0 H C M1 M2 Hq Hs Hp E) as (W0 & S0 & Q0).
  destruct (mb_reachable_ok _ tr wd W0 Hr) as (W & S & _). cbn in S. rewrite S0 in S.
  destruct W as [_ _ _ _ _ Rs Rr _]. rewrite S in Rs. split; [apply Rr|apply Rs].
Qed.

(** ** Concrete runs *)

Definition box0 : rt_mailbox := mk_mb (mk_ipc 7 RT_IPC_FLAG_FIFO) [0; 0] 2 0 0 0 8.
Definition post0 : world := mk_world box0 car_post ∅.
(** Thread 2 waits for a message; thread 3 runs. *)
Definition post1 : world := state_of post0 (mb_run (Recv 5) post0).

Lemma post1_reached : mb_reachable post0 [(Get, Blocked)] post1.
Proof.
  apply (mb_step post0 [] (Recv 5) post0 Blocked post1).
  - apply mb_start.
  - right. split; [|split; [by unfold half|by intros t _]].
    split; [by vm_compute|]. split; [by vm_compute|]. exists 2%nat. by vm_compute.
  - apply ran. by vm_compute.
Qed.

Lemma mailbox_refines_queue_witness :
  replay_all 2 [] [(Get, Blocked)] = Some (queued (box post1)) /\
  exists r wd', mb_run (SendWait 11 0) post1 = Ok (r, wd') /\
    replay 2 (queued (box post1)) (Put 11) r = Some (queued (box wd')).
Proof.
  apply (mailbox_refines_queue 7 8 [0; 0] 2 RT_IPC_FLAG_FIFO car car_post box0 [(Get, Blocked)] post1 (SendWait 11 0));
    [apply car_ok|apply car_ok|by vm_compute|by vm_compute|done|done|done|reflexivity|exact post1_reached|by left].
Defined.

Lemma mailbox_no_lost_wakeup_witness :
  members (Waiting (mb_queue (box post1))) (kern post1) = [2%nat] /\
  (members (Waiting (mb_queue (box post1))) (kern post1) <> [] ->
   entry (box post1) <= Z.of_nat (base.size (woken receives (calls post1) (kern post1)))) /\
  (members (Waiting (suspend_sender_thread (box post1))) (kern post1) <> [] ->
   2 - entry (box post1) <= Z.of_nat (base.size (woken sends (calls post1) (kern post1)))).
Proof.
  split; [by vm_compute|].
  apply (mailbox_no_lost_wakeup 7 8 [0; 0] 2 RT_IPC_FLAG_FIFO car car_post box0 [(Get, Blocked)] post1);
    [apply car_ok|apply car_ok|by vm_compute|by vm_compute|done|done|done|reflexivity|exact post1_reached].
Defined.
End Mailbox.
