(* ===== verification/MsgQueue.v ===== *)
(** * Message queues (rt-thread/src/ipc.c)

    A message queue is a pool of equal blocks on two linked lists, the queue and
    the free blocks.  A call is several sections that run with the interrupts
    off; between them (while a message is copied) other threads run.  A section
    is one function here, and a thread inside a call holds a block.

    The theorems are about every interleaving of the sections of all threads
    with the rest of the kernel: each block is in one place, the messages come
    out whole and in order, and no wake-up is lost. *)

From stdpp Require Import functions fin_maps.
From S2P Require Import Prelude Timer Thread Evolve Ipc Channel.

Module MsgQueue.
Import Timer Thread Evolve Ipc Channel.

Definition RT_MQ_ENTRY_MAX : Z := 0xffff.

(** A block of the pool: [struct rt_mq_message] and the message behind it.  A
    pointer to a block is the number of the block in the pool. *)
Record rt_mq_message := mk_msg { next : option nat; payload : list Z }.
Definition SIZEOF_MQ_MESSAGE : Z := 4.

Record rt_messagequeue := mk_mq {
  mq_parent : rt_ipc_object; msg_pool : list rt_mq_message; msg_size : Z; max_msgs : Z; entry : Z;
  msg_queue_head : option nat; msg_queue_tail : option nat; msg_queue_free : option nat;
  suspend_sender_thread : nat }.
Definition mq_queue (mq : rt_messagequeue) : nat := suspend_thread (mq_parent mq).
Definition mq_flag (mq : rt_messagequeue) : Z := ipc_flag (mq_parent mq).

Definition with_pool (p : list rt_mq_message) (mq : rt_messagequeue) : rt_messagequeue :=
  mk_mq (mq_parent mq) p (msg_size mq) (max_msgs mq) (entry mq) (msg_queue_head mq) (msg_queue_tail mq)
    (msg_queue_free mq) (suspend_sender_thread mq).
Definition with_entry (n : Z) (mq : rt_messagequeue) : rt_messagequeue :=
  mk_mq (mq_parent mq) (msg_pool mq) (msg_size mq) (max_msgs mq) (u16 n) (msg_queue_head mq)
    (msg_queue_tail mq) (msg_queue_free mq) (suspend_sender_thread mq).
Definition with_head (p : option nat) (mq : rt_messagequeue) : rt_messagequeue :=
  mk_mq (mq_parent mq) (msg_pool mq) (msg_size mq) (max_msgs mq) (entry mq) p
    (msg_queue_tail mq) (msg_queue_free mq) (suspend_sender_thread mq).
Definition with_tail (p : option nat) (mq : rt_messagequeue) : rt_messagequeue :=
  mk_mq (mq_parent mq) (msg_pool mq) (msg_size mq) (max_msgs mq) (entry mq) (msg_queue_head mq)
    p (msg_queue_free mq) (suspend_sender_thread mq).
Definition with_free (p : option nat) (mq : rt_messagequeue) : rt_messagequeue :=
  mk_mq (mq_parent mq) (msg_pool mq) (msg_size mq) (max_msgs mq) (entry mq) (msg_queue_head mq)
    (msg_queue_tail mq) p (suspend_sender_thread mq).

(** [msg->next], read and written; the copy into the block behind it. *)
Definition get_next (mq : rt_messagequeue) (i : nat) : result (option nat) :=
  m ← aget (msg_pool mq) (Z.of_nat i); Ok (next m).
Definition set_next (i : nat) (p : option nat) (mq : rt_messagequeue) : result rt_messagequeue :=
  m ← aget (msg_pool mq) (Z.of_nat i);
  pool ← aset (msg_pool mq) (Z.of_nat i) (mk_msg p (payload m));
  Ok (with_pool pool mq).
Definition set_payload (i : nat) (buffer : list Z) (mq : rt_messagequeue) : result rt_messagequeue :=
  m ← aget (msg_pool mq) (Z.of_nat i);
  d ← acopy (payload m) 0 buffer 0 (Z.of_nat (length buffer));
  pool ← aset (msg_pool mq) (Z.of_nat i) (mk_msg (next m) d);
  Ok (with_pool pool mq).

(** [msg] leaves the queue at its head. *)
Definition pop_head (msg : nat) (mq : rt_messagequeue) : result rt_messagequeue :=
  p ← get_next mq msg;
  let mq := with_head p mq in
  Ok (if bool_decide (msg_queue_tail mq = Some msg) then with_tail None mq else mq).
(** "put message to free list" *)
Definition push_free (msg : nat) (mq : rt_messagequeue) : result rt_messagequeue :=
  mq ← set_next msg (msg_queue_free mq) mq; Ok (with_free (Some msg) mq).

(** The loop of [rt_mq_init] over the blocks. *)
Fixpoint init_free (n temp : nat) (mq : rt_messagequeue) : result rt_messagequeue :=
  match n with
  | O => Ok mq
  | S n =>
      mq ← push_free temp mq;
      init_free n (S temp) mq
  end.

(** [pool] is the memory of the pool, cut into its blocks; [q] and [qs] are the
    addresses of the list heads in the object. *)
Definition rt_mq_init (q qs : nat) (pool : list rt_mq_message) (msize pool_size flag : Z) (k : kernel)
  : result (rt_messagequeue * kernel) :=
  _ ← rt_assert ((flag =? RT_IPC_FLAG_FIFO) || (flag =? RT_IPC_FLAG_PRIO));
  let msg_size := u16 (RT_ALIGN msize RT_ALIGN_SIZE) in
  let max_msgs := u16 (pool_size / (msg_size + SIZEOF_MQ_MESSAGE)) in
  mq ← init_free (Z.to_nat max_msgs) 0
         (mk_mq (mk_ipc q flag) pool msg_size max_msgs 0 None None None qs);
  Ok (mq, new_head qs (new_head q k)).

Definition rt_mq_detach (mq : rt_messagequeue) (k : kernel) : result kernel :=
  k ← _ipc_list_resume_all (mq_queue mq) k;
  _ipc_list_resume_all (suspend_sender_thread mq) k.

(** Where a section of a call leaves it: finished, waiting, or with a block. *)
Inductive progress := Done (err : Z) | Waits (w : wait) | Holds (msg : nat).

(** ** Sending *)

(** The loop of [rt_mq_send_wait] up to the switch, or to "the msg is the new
    tailer of list". *)
Definition send_loop (thread : option nat) (w : wait) (mq : rt_messagequeue) (k : kernel)
  : result (progress * rt_messagequeue * kernel) :=
  match msg_queue_free mq with
  | None =>
      t ← the_thread thread;
      let k := with_thread (set_error RT_EOK) t k in
      if w_timeout w =? 0 then Ok (Done (- RT_EFULL), mq, k)
      else
        '(w, k) ← wait_on (suspend_sender_thread mq) (mq_flag mq) t w k;
        Ok (Waits w, mq, k)
  | Some msg =>
      p ← get_next mq msg;
      Ok (Holds msg, with_free p mq, k)
  end.

Definition send_begin (buffer : list Z) (timeout : Z) (mq : rt_messagequeue) (k : kernel)
  : result (progress * rt_messagequeue * kernel) :=
  _ ← rt_assert (negb (Z.of_nat (length buffer) =? 0));
  _ ← RT_DEBUG_SCHEDULER_AVAILABLE (negb (timeout =? 0)) k;
  if msg_size mq <? Z.of_nat (length buffer) then Ok (Done (- RT_ERROR), mq, k)
  else
    let thread := rt_thread_self k in
    match msg_queue_free mq, timeout =? 0 with
    | None, true => Ok (Done (- RT_EFULL), mq, k)
    | _, _ => send_loop thread (mk_wait timeout 0) mq k
    end.
(** The thread [t] of the call runs again. *)
Definition send_again (t : nat) (w : wait) (mq : rt_messagequeue) (k : kernel)
  : result (progress * rt_messagequeue * kernel) :=
  if negb (error (thread k t) =? RT_EOK) then Ok (Done (error (thread k t)), mq, k)
  else send_loop (Some t) (time_left w k) mq k.

(** The message is copied with the interrupts on. *)
Definition send_fill (buffer : list Z) (msg : nat) (mq : rt_messagequeue) : result rt_messagequeue :=
  mq ← set_next msg None mq;
  set_payload msg buffer mq.

Definition count_in (mq : rt_messagequeue) (k : kernel) : result (Z * rt_messagequeue * kernel) :=
  if entry mq <? RT_MQ_ENTRY_MAX then
    let mq := with_entry (entry mq + 1) mq in
    k ← wake_first (mq_queue mq) k;
    Ok (RT_EOK, mq, k)
  else Ok (- RT_EFULL, mq, k).

(** "link msg to message queue" *)
Definition send_link (msg : nat) (mq : rt_messagequeue) (k : kernel)
  : result (Z * rt_messagequeue * kernel) :=
  mq ← match msg_queue_tail mq with Some t => set_next t (Some msg) mq | None => Ok mq end;
  let mq := with_tail (Some msg) mq in
  let mq := match msg_queue_head mq with None => with_head (Some msg) mq | Some _ => mq end in
  count_in mq k.

(** The call as a whole, without a time limit or with room for the message. *)
Definition rt_mq_send_wait (buffer : list Z) (timeout : Z) (mq : rt_messagequeue) (k : kernel)
  : result (progress * rt_messagequeue * kernel) :=
  '(p, mq, k) ← send_begin buffer timeout mq k;
  match p with
  | Holds msg =>
      mq ← send_fill buffer msg mq;
      '(err, mq, k) ← send_link msg mq k;
      Ok (Done err, mq, k)
  | _ => Ok (p, mq, k)
  end.
Definition rt_mq_send (buffer : list Z) : rt_messagequeue -> kernel -> result (progress * rt_messagequeue * kernel) :=
  rt_mq_send_wait buffer 0.

(** [rt_mq_urgent] *)
Definition urgent_begin (buffer : list Z) (mq : rt_messagequeue) : result (progress * rt_messagequeue) :=
  _ ← rt_assert (negb (Z.of_nat (length buffer) =? 0));
  if msg_size mq <? Z.of_nat (length buffer) then Ok (Done (- RT_ERROR), mq)
  else
    match msg_queue_free mq with
    | None => Ok (Done (- RT_EFULL), mq)
    | Some msg => p ← get_next mq msg; Ok (Holds msg, with_free p mq)
    end.
Definition urgent_link (msg : nat) (mq : rt_messagequeue) (k : kernel)
  : result (Z * rt_messagequeue * kernel) :=
  mq ← set_next msg (msg_queue_head mq) mq;
  let mq := with_head (Some msg) mq in
  let mq := match msg_queue_tail mq with None => with_tail (Some msg) mq | Some _ => mq end in
  count_in mq k.
Definition rt_mq_urgent (buffer : list Z) (mq : rt_messagequeue) (k : kernel)
  : result (progress * rt_messagequeue * kernel) :=
  '(p, mq) ← urgent_begin buffer mq;
  match p with
  | Holds msg =>
      mq ← set_payload msg buffer mq;
      '(err, mq, k) ← urgent_link msg mq k;
      Ok (Done err, mq, k)
  | _ => Ok (p, mq, k)
  end.

(** ** Receiving *)

(** The loop of [rt_mq_recv] up to the switch, or to "get message from queue". *)
Definition recv_loop (thread : option nat) (w : wait) (mq : rt_messagequeue) (k : kernel)
  : result (progress * rt_messagequeue * kernel) :=
  if entry mq =? 0 then
    t ← the_thread thread;
    let k := with_thread (set_error RT_EOK) t k in
    if w_timeout w =? 0 then
      Ok (Done (- RT_ETIMEOUT), mq, with_thread (set_error (- RT_ETIMEOUT)) t k)
    else
      '(w, k) ← wait_on (mq_queue mq) (mq_flag mq) t w k;
      Ok (Waits w, mq, k)
  else
    match msg_queue_head mq with
    | None => Fault OutOfBounds
    | Some msg =>
        mq ← pop_head msg mq;
        let mq := if 0 <? entry mq then with_entry (entry mq - 1) mq else mq in
        Ok (Holds msg, mq, k)
    end.

Definition recv_begin (size timeout : Z) (mq : rt_messagequeue) (k : kernel)
  : result (progress * rt_messagequeue * kernel) :=
  _ ← rt_assert (negb (size =? 0));
  _ ← RT_DEBUG_SCHEDULER_AVAILABLE (negb (timeout =? 0)) k;
  let thread := rt_thread_self k in
  if (entry mq =? 0) && (timeout =? 0) then Ok (Done (- RT_ETIMEOUT), mq, k)
  else recv_loop thread (mk_wait timeout 0) mq k.
Definition recv_again (t : nat) (w : wait) (mq : rt_messagequeue) (k : kernel)
  : result (progress * rt_messagequeue * kernel) :=
  if negb (error (thread k t) =? RT_EOK) then Ok (Done (error (thread k t)), mq, k)
  else recv_loop (Some t) (time_left w k) mq k.

(** The bytes that are copied to [buffer]. *)
Definition recv_copy (size : Z) (msg : nat) (mq : rt_messagequeue) : result (list Z) :=
  m ← aget (msg_pool mq) (Z.of_nat msg);
  let n := if msg_size mq <? size then msg_size mq else size in
  acopy (replicate (Z.to_nat n) 0) 0 (payload m) 0 n.

Definition recv_free (msg : nat) (mq : rt_messagequeue) (k : kernel)
  : result (Z * rt_messagequeue * kernel) :=
  mq ← push_free msg mq;
  k ← wake_first (suspend_sender_thread mq) k;
  Ok (RT_EOK, mq, k).

Definition rt_mq_recv (size timeout : Z) (mq : rt_messagequeue) (k : kernel)
  : result (progress * option (list Z) * rt_messagequeue * kernel) :=
  '(p, mq, k) ← recv_begin size timeout mq k;
  match p with
  | Holds msg =>
      b ← recv_copy size msg mq;
      '(err, mq, k) ← recv_free msg mq k;
      Ok (Done err, Some b, mq, k)
  | _ => Ok (p, None, mq, k)
  end.

(** ** Reset *)

(** The loop that moves the messages to the free list. *)
Fixpoint drain (fuel : nat) (mq : rt_messagequeue) : result rt_messagequeue :=
  match fuel with
  | O => Fault OutOfFuel
  | S fuel =>
      match msg_queue_head mq with
      | None => Ok mq
      | Some msg =>
          mq ← pop_head msg mq;
          mq ← push_free msg mq;
          drain fuel mq
      end
  end.

Definition rt_mq_control (cmd : Z) (mq : rt_messagequeue) (k : kernel)
  : result (Z * rt_messagequeue * kernel) :=
  if cmd =? RT_IPC_CMD_RESET then
    k ← _ipc_list_resume_all (mq_queue mq) k;
    k ← _ipc_list_resume_all (suspend_sender_thread mq) k;
    mq ← drain (S (Z.to_nat (max_msgs mq))) mq;
    let mq := with_entry 0 mq in
    k ← rt_schedule k;
    Ok (RT_EOK, mq, k)
  else Ok (- RT_ERROR, mq, k).

(** ** The message queue among threads *)

(** Where a thread is inside a call: waiting, or between two sections, with a
    block in its hands. *)
Inductive mq_call :=
| Sending (buffer : list Z) (w : wait)
| Filling (urgent : bool) (buffer : list Z) (msg : nat)
| Linking (urgent : bool) (buffer : list Z) (msg : nat)
| Receiving (size : Z) (w : wait)
| Copying (size : Z) (msg : nat)
| Freeing (msg : nat).
Definition sends (c : mq_call) : Prop := match c with Sending _ _ => True | _ => False end.
Definition receives (c : mq_call) : Prop := match c with Receiving _ _ => True | _ => False end.
Definition block_of (c : mq_call) : list nat :=
  match c with
  | Filling _ _ msg | Linking _ _ msg | Copying _ msg | Freeing msg => [msg]
  | Sending _ _ | Receiving _ _ => []
  end.
Definition wait_of (c : mq_call) : option wait :=
  match c with Sending _ w | Receiving _ w => Some w | _ => None end.
#[export] Instance sends_dec c : Decision (sends c).
Proof. destruct c; apply _. Defined.
#[export] Instance receives_dec c : Decision (receives c).
Proof. destruct c; apply _. Defined.

Record world := mk_world { mq : rt_messagequeue; kern : kernel; calls : gmap nat mq_call }.

(** The begin of a call, the next section of the call of the current thread, a
    call that runs through at once (from an interrupt handler, say), a reset, or
    anything else in the kernel. *)
Inductive mq_event :=
| Send (buffer : list Z) (timeout : Z) | Urgent (buffer : list Z) | Recv (size timeout : Z) | Continue
| SendNow (buffer : list Z) | UrgentNow (buffer : list Z) | RecvNow (size : Z) | Reset | Other (e : event).
Inductive reply := Answer (err : Z) | Blocked | Working | Copied (bytes : list Z) | Got (err : Z) (bytes : list Z).

#[export] Instance reply_eq_dec : EqDecision reply.
Proof. solve_decision. Defined.

Definition settle (t : nat) (p : progress) (waiting : wait -> mq_call) (holding : nat -> mq_call)
    (m : rt_messagequeue) (k : kernel) (cs : gmap nat mq_call) : reply * world :=
  match p with
  | Done err => (Answer err, mk_world m k (delete t cs))
  | Waits w => (Blocked, mk_world m k (<[t := waiting w]> cs))
  | Holds msg => (Working, mk_world m k (<[t := holding msg]> cs))
  end.

(** The next section of the call [c] of thread [t]. *)
Definition continue (t : nat) (c : mq_call) (m : rt_messagequeue) (k : kernel) (cs : gmap nat mq_call)
  : result (reply * world) :=
  match c with
  | Sending buffer w =>
      '(p, m, k) ← send_again t w m k; Ok (settle t p (Sending buffer) (Filling false buffer) m k cs)
  | Filling urgent buffer msg =>
      m ← (if urgent : bool then set_payload msg buffer m else send_fill buffer msg m);
      Ok (Working, mk_world m k (<[t := Linking urgent buffer msg]> cs))
  | Linking urgent buffer msg =>
      '(err, m, k) ← (if urgent : bool then urgent_link msg m k else send_link msg m k);
      Ok (Answer err, mk_world m k (delete t cs))
  | Receiving size w =>
      '(p, m, k) ← recv_again t w m k; Ok (settle t p (Receiving size) (Copying size) m k cs)
  | Copying size msg =>
      b ← recv_copy size msg m; Ok (Copied b, mk_world m k (<[t := Freeing msg]> cs))
  | Freeing msg =>
      '(err, m, k) ← recv_free msg m k; Ok (Answer err, mk_world m k (delete t cs))
  end.

Definition mq_run (e : mq_event) (wd : world) : result (reply * world) :=
  let m := mq wd in let k := kern wd in let cs := calls wd in
  match e with
  | Send buffer timeout =>
      t ← current k;
      '(p, m, k) ← send_begin buffer timeout m k; Ok (settle t p (Sending buffer) (Filling false buffer) m k cs)
  | Urgent buffer =>
      t ← current k;
      '(p, m) ← urgent_begin buffer m; Ok (settle t p (Sending buffer) (Filling true buffer) m k cs)
  | Recv size timeout =>
      t ← current k;
      '(p, m, k) ← recv_begin size timeout m k; Ok (settle t p (Receiving size) (Copying size) m k cs)
  | Continue =>
      t ← current k;
      match cs !! t with Some c => continue t c m k cs | None => Fault OutOfBounds end
  | SendNow buffer =>
      '(p, m, k) ← rt_mq_send buffer m k;
      match p with Done err => Ok (Answer err, mk_world m k cs) | _ => Fault OutOfBounds end
  | UrgentNow buffer =>
      '(p, m, k) ← rt_mq_urgent buffer m k;
      match p with Done err => Ok (Answer err, mk_world m k cs) | _ => Fault OutOfBounds end
  | RecvNow size =>
      '(p, b, m, k) ← rt_mq_recv size 0 m k;
      match p, b with
      | Done err, Some b => Ok (Got err b, mk_world m k cs)
      | Done err, None => Ok (Answer err, mk_world m k cs)
      | _, _ => Fault OutOfBounds
      end
  | Reset => '(err, m, k) ← rt_mq_control RT_IPC_CMD_RESET m k; Ok (Answer err, mk_world m k cs)
  | Other e => k ← run e k; Ok (Answer RT_EOK, mk_world m k cs)
  end.

(** Who may do what: calls by threads that are in no call, messages that are not
    empty; a thread in a call does nothing else, nobody closes it, and when it waits
    with a time limit it runs again before the clock has gone half way round. *)
Definition begins (timeout : Z) (wd : world) : Prop :=
  (timeout = 0 \/ may_block (kern wd) /\ timeout < half) /\
  exists t, rt_current_thread (kern wd) = Some t /\ status (thread (kern wd) t) = RT_THREAD_RUNNING /\
            calls wd !! t = None.
Definition mq_enabled (e : mq_event) (wd : world) : Prop :=
  match e with
  | Send buffer timeout => 0 < Z.of_nat (length buffer) /\ begins timeout wd
  | Urgent buffer => 0 < Z.of_nat (length buffer) /\ begins 0 wd
  | Recv size timeout => 0 < size /\ begins timeout wd
  | Continue => exists t c, rt_current_thread (kern wd) = Some t /\ calls wd !! t = Some c /\
      status (thread (kern wd) t) = RT_THREAD_RUNNING /\
      forall w, wait_of c = Some w -> 0 < w_timeout w -> u32 (rt_tick (timers (kern wd)) - w_tick_delta w) < half
  | SendNow buffer | UrgentNow buffer => 0 < Z.of_nat (length buffer)
  | RecvNow size => 0 < size
  | Reset => True
  | Other e => enabled e (kern wd) /\ forall t, touched e (kern wd) = Some t -> calls wd !! t = None
  end.

(** ** A queue of messages *)

(** What the callers see: the messages as they were sent, those in the hands of
    receivers, and how many blocks are in use by calls. *)
Record queue_state := mk_state { sent : list (list Z); busy : Z; hand : gmap (option nat) (list Z) }.

Inductive action :=
| Reserve | Enqueue (front : bool) (buffer : list Z) | Full
| Dequeue (who : option nat) | Deliver (who : option nat) (bytes : list Z) (size : Z)
| Release (who : option nat) | Empty | TooLong (buffer : list Z) | GivesUp | Clear | Wrong.

(** The bytes [b] are the message [m], as far as both go. *)
Definition agrees (m b : list Z) : bool := bool_decide (take (length b) m = take (length m) b).

(** The state after an action, if a queue of [cap] messages of at most [size]
    bytes can do it. *)
Definition act (cap msize : Z) (s : queue_state) (a : action) : option queue_state :=
  let blocks := Z.of_nat (length (sent s)) + busy s in
  match a with
  | Reserve => if blocks <? cap then Some (mk_state (sent s) (busy s + 1) (hand s)) else None
  | Enqueue front b =>
      if 0 <? busy s
      then Some (mk_state (if front : bool then b :: sent s else sent s ++ [b]) (busy s - 1) (hand s)) else None
  | Full => if blocks =? cap then Some s else None
  | Dequeue who =>
      match sent s with m :: l => Some (mk_state l (busy s + 1) (<[who := m]> (hand s))) | [] => None end
  | Deliver who b size =>
      match hand s !! who with
      | Some m => if agrees m b && (Z.of_nat (length b) =? Z.min size msize) then Some s else None
      | None => None
      end
  | Release who => if 0 <? busy s then Some (mk_state (sent s) (busy s - 1) (delete who (hand s))) else None
  | Empty => match sent s with [] => Some s | _ => None end
  | TooLong b => if msize <? Z.of_nat (length b) then Some s else None
  | GivesUp => Some s
  | Clear => Some (mk_state [] (busy s) (hand s))
  | Wrong => None
  end.
Fixpoint act_all (cap msize : Z) (s : queue_state) (l : list action) : option queue_state :=
  match l with [] => Some s | a :: l => s ← act cap msize s a; act_all cap msize s l end.

(** What an event did, as its answer tells. *)
Definition send_actions (buffer : list Z) (r : reply) : list action :=
  match r with
  | Answer err => if err =? - RT_ERROR then [TooLong buffer] else if err =? - RT_EFULL then [Full] else [Wrong]
  | Blocked => [Full]
  | Working => [Reserve]
  | _ => [Wrong]
  end.
Definition send_now_actions (front : bool) (buffer : list Z) (r : reply) : list action :=
  match r with
  | Answer err => if err =? RT_EOK then [Reserve; Enqueue front buffer] else send_actions buffer r
  | _ => [Wrong]
  end.
Definition recv_actions (t : nat) (r : reply) : list action :=
  match r with
  | Answer err => if err =? - RT_ETIMEOUT then [Empty] else [Wrong]
  | Blocked => [Empty]
  | Working => [Dequeue (Some t)]
  | _ => [Wrong]
  end.
Definition actions (e : mq_event) (wd : world) (r : reply) : list action :=
  let t := default 0%nat (rt_current_thread (kern wd)) in
  match e with
  | Send buffer _ | Urgent buffer => send_actions buffer r
  | Recv size _ => recv_actions t r
  | Continue =>
      let err := error (thread (kern wd) t) in
      match calls wd !! t, r with
      | Some (Sending buffer _), _ =>
          if err =? RT_EOK then send_actions buffer r
          else if bool_decide (r = Answer err) then [GivesUp] else [Wrong]
      | Some (Filling _ _ _), Working => []
      | Some (Linking urgent buffer _), Answer err => if err =? RT_EOK then [Enqueue urgent buffer] else [Wrong]
      | Some (Receiving _ _), _ =>
          if err =? RT_EOK then recv_actions t r
          else if bool_decide (r = Answer err) then [GivesUp] else [Wrong]
      | Some (Copying size _), Copied b => [Deliver (Some t) b size]
      | Some (Freeing _), Answer err => if err =? RT_EOK then [Release (Some t)] else [Wrong]
      | _, _ => [Wrong]
      end
  | SendNow buffer => send_now_actions false buffer r
  | UrgentNow buffer => send_now_actions true buffer r
  | RecvNow size =>
      match r with
      | Got err b => if err =? RT_EOK then [Dequeue None; Deliver None b size; Release None] else [Wrong]
      | Answer err => if err =? - RT_ETIMEOUT then [Empty] else [Wrong]
      | _ => [Wrong]
      end
  | Reset => match r with Answer err => if err =? RT_EOK then [Clear] else [Wrong] | _ => [Wrong] end
  | Other _ => []
  end.

(** Runs, with what they did. *)
Inductive mq_reachable (w0 : world) : list action -> world -> Prop :=
| mq_start : mq_reachable w0 [] w0
| mq_step tr e w r w' : mq_reachable w0 tr w -> mq_enabled e w -> mq_run e w = Ok (r, w') ->
                        mq_reachable w0 (tr ++ actions e w r) w'.

(** ** The lists of blocks *)

(** [p] points to the first block of the linked list [l]. *)
Fixpoint chain (pool : list rt_mq_message) (p : option nat) (l : list nat) : Prop :=
  match l with
  | [] => p = None
  | i :: l => p = Some i /\ exists m, pool !! i = Some m /\ chain pool (next m) l
  end.

Lemma chain_insert pool p l i m : i ∉ l -> chain (<[i := m]> pool) p l <-> chain pool p l.
Proof.
  revert p. induction l as [|j l IH]; intros p Hi; [done|]. cbn. apply not_elem_of_cons in Hi as [Hj Hi].
  rewrite list_lookup_insert_ne by done. by setoid_rewrite IH.
Qed.

Lemma chain_last pool p l i m d :
  chain pool p (l ++ [i]) -> NoDup (l ++ [i]) -> pool !! i = Some m ->
  forall j m', j ∉ l ++ [i] -> pool !! j = Some m' -> next m' = None ->
  chain (<[i := mk_msg (Some j) d]> pool) p (l ++ [i; j]).
Proof.
  intros Hc Hn Hi j m' Hj Hm Hx. revert p Hc Hn Hj. induction l as [|a l IH]; intros p Hc Hn Hj; cbn in *.
  - destruct Hc as [-> (m0 & E & _)]. split; [done|]. exists (mk_msg (Some j) d).
    split; [apply list_lookup_insert_eq; by eapply lookup_lt_Some|]. split; [done|].
    exists m'. rewrite list_lookup_insert_ne; [done|]. by intros ->; apply Hj; left.
  - destruct Hc as [-> (m0 & E & Hc)]. split; [done|]. apply NoDup_cons in Hn as [Ha Hn].
    apply not_elem_of_cons in Hj as [_ Hj]. exists m0.
    rewrite list_lookup_insert_ne; [|intros ->; apply Ha; apply elem_of_app; right; by left].
    split; [done|]. by apply IH.
Qed.

(** Every block is free, queued, or in the hands of a call. *)
Record mq_wf (mq : rt_messagequeue) (free queue held : list nat) : Prop := {
  wf_free : chain (msg_pool mq) (msg_queue_free mq) free;
  wf_queue : chain (msg_pool mq) (msg_queue_head mq) queue;
  wf_tail : msg_queue_tail mq = last queue;
  wf_max : 0 <= max_msgs mq < 65536;
  wf_blocks : free ++ queue ++ held ≡ₚ seq 0 (Z.to_nat (max_msgs mq));
  wf_size : 0 <= msg_size mq < 65536;
  wf_pool i : (i < Z.to_nat (max_msgs mq))%nat ->
              exists m, msg_pool mq !! i = Some m /\ Z.of_nat (length (payload m)) = msg_size mq }.

(** The two queues differ in blocks only. *)
Definition same_mq (mq mq' : rt_messagequeue) : Prop :=
  mq_parent mq' = mq_parent mq /\ msg_size mq' = msg_size mq /\ max_msgs mq' = max_msgs mq /\
  suspend_sender_thread mq' = suspend_sender_thread mq.
#[export] Instance same_mq_preorder : PreOrder same_mq.
Proof. split; [done|]. intros a b c (? & ? & ? & ?) (? & ? & ? & ?). unfold same_mq. by split_and!; etrans. Qed.

Section Blocks.
Implicit Types (mq : rt_messagequeue) (i j : nat) (free queue held l : list nat).

Lemma wf_nodup mq free queue held : mq_wf mq free queue held -> NoDup (free ++ queue ++ held).
Proof. intros W. rewrite (wf_blocks _ _ _ _ W). apply NoDup_seq. Qed.

Lemma wf_block mq free queue held i :
  mq_wf mq free queue held -> i ∈ free ++ queue ++ held ->
  exists m, msg_pool mq !! i = Some m /\ Z.of_nat (length (payload m)) = msg_size mq.
Proof.
  intros W Hi. apply (wf_pool _ _ _ _ W). rewrite (wf_blocks _ _ _ _ W) in Hi.
  apply elem_of_seq in Hi. lia.
Qed.

Lemma wf_perm mq free queue held held' :
  held' ≡ₚ held -> mq_wf mq free queue held -> mq_wf mq free queue held'.
Proof. intros E []. split; try done. by rewrite E. Qed.

Lemma wf_count mq free queue held :
  mq_wf mq free queue held -> Z.of_nat (length free + length queue + length held) = max_msgs mq.
Proof.
  intros W. pose proof (Permutation_length (wf_blocks _ _ _ _ W)) as H. pose proof (wf_max _ _ _ _ W).
  rewrite !length_app, length_seq in H. lia.
Qed.

Lemma get_next_Ok mq i m : msg_pool mq !! i = Some m -> get_next mq i = Ok (next m).
Proof. intros E. unfold get_next. rewrite (aget_Ok _ _ m); [done|lia|by rewrite Nat2Z.id]. Qed.

Lemma set_next_Ok mq i m p :
  msg_pool mq !! i = Some m ->
  set_next i p mq = Ok (with_pool (<[i := mk_msg p (payload m)]> (msg_pool mq)) mq).
Proof.
  intros E. unfold set_next. rewrite (aget_Ok _ _ m); [|lia|by rewrite Nat2Z.id]. cbn [mbind result_bind].
  pose proof (lookup_lt_Some _ _ _ E). rewrite aset_Ok by lia. cbn. by rewrite Nat2Z.id.
Qed.

(** A block in the hands of a call is written. *)
Lemma wf_write mq free queue held i m m' :
  mq_wf mq free queue held -> i ∈ held -> msg_pool mq !! i = Some m ->
  length (payload m') = length (payload m) ->
  mq_wf (with_pool (<[i := m']> (msg_pool mq)) mq) free queue held.
Proof.
  intros W Hi E El. pose proof (wf_nodup _ _ _ _ W) as Hn.
  apply NoDup_app in Hn as (_ & Hf & (_ & Hq & _)%NoDup_app).
  assert (i ∉ free) as Hnf by (intros Hin; apply (Hf i Hin), elem_of_app; by right).
  assert (i ∉ queue) as Hnq by (intros Hin; by apply (Hq i Hin)).
  destruct W as [F Q T M B S P]. split; try done; cbn.
  - by apply chain_insert.
  - by apply chain_insert.
  - intros j Hj. destruct (decide (i = j)) as [->|Hne].
    + exists m'. rewrite list_lookup_insert_eq by by eapply lookup_lt_Some.
      split; [done|]. rewrite El. destruct (P j Hj) as (m1 & E1 & E2). by simplify_eq.
    + rewrite list_lookup_insert_ne by done. by apply P.
Qed.

(** A free block is taken. *)
Lemma wf_take mq free queue held i :
  mq_wf mq (i :: free) queue held ->
  msg_queue_free mq = Some i /\ exists p, get_next mq i = Ok p /\ mq_wf (with_free p mq) free queue (i :: held).
Proof.
  intros [F Q T M B S P]. cbn in F. destruct F as [Ef (m & E & F)]. split; [done|].
  exists (next m). split; [by apply get_next_Ok|]. split; try done. cbn. rewrite <- B. solve_Permutation.
Qed.

(** The block [i] goes to the end of the queue. *)
Lemma wf_link mq free queue held i m :
  mq_wf mq free queue (i :: held) -> msg_pool mq !! i = Some m -> next m = None ->
  exists mq1, match msg_queue_tail mq with Some t => set_next t (Some i) mq | None => Ok mq end = Ok mq1 /\
    let mq2 := with_tail (Some i) mq1 in
    let mq3 := match msg_queue_head mq2 with None => with_head (Some i) mq2 | Some _ => mq2 end in
    same_mq mq mq3 /\ entry mq3 = entry mq /\ mq_wf mq3 free (queue ++ [i]) held /\
    (forall j, j ∉ queue -> msg_pool mq3 !! j = msg_pool mq !! j) /\
    (forall j, payload <$> msg_pool mq3 !! j = payload <$> msg_pool mq !! j).
Proof.
  intros W Ei Hm. pose proof (wf_nodup _ _ _ _ W) as Hn.
  destruct W as [F Q T M B S P]. rewrite T.
  assert (free ++ (queue ++ [i]) ++ held ≡ₚ seq 0 (Z.to_nat (max_msgs mq))) as B'.
  { by rewrite <- B, <- (assoc_L _ queue). }
  apply NoDup_app in Hn as (_ & Hfq & Hnq). apply NoDup_app in Hnq as (Hnq & Hqh & _).
  assert (i ∉ queue) as Hiq by (intros Hin; apply (Hqh i Hin); by left).
  destruct queue as [|a queue _] using rev_ind.
  - exists mq. split; [done|]. cbn in Q. cbv zeta. cbn [msg_queue_head with_tail]. rewrite Q.
    split_and!; try done. split; try done; cbn. split; [done|]. by exists m.
  - rewrite last_snoc. assert (exists ma, msg_pool mq !! a = Some ma) as (ma & Ea).
    { destruct (P a) as (ma & Ea & _); [|by exists ma]. assert (a ∈ seq 0 (Z.to_nat (max_msgs mq))) as Hin.
      { rewrite <- B. set_solver. } apply elem_of_seq in Hin. lia. }
    eexists. split; [by apply set_next_Ok|]. cbv zeta. cbn [msg_queue_head with_tail with_pool].
    assert (is_Some (msg_queue_head mq)) as [h Eh].
    { destruct queue; cbn in Q; destruct Q as [-> _]; eauto. }
    rewrite Eh. split_and!; [done|done| | |].
    + split; cbn; try done.
      * apply chain_insert; [|done]. intros Hin. apply (Hfq a Hin). set_solver.
      * rewrite <- (assoc_L _ queue). cbn. by eapply chain_last.
      * by rewrite last_snoc.
      * intros j Hj. destruct (decide (a = j)) as [->|Hne].
        -- eexists. rewrite list_lookup_insert_eq by by eapply lookup_lt_Some. split; [done|]. cbn.
           destruct (P j Hj) as (m1 & E1 & E2). by simplify_eq.
        -- rewrite list_lookup_insert_ne by done. by apply P.
    + intros j Hj. cbn. apply list_lookup_insert_ne. set_solver.
    + intros j. cbn. destruct (decide (a = j)) as [->|Hne].
      * rewrite list_lookup_insert_eq by by eapply lookup_lt_Some. by rewrite Ea.
      * by rewrite list_lookup_insert_ne.
Qed.

(** The block [i] goes to the front of the queue. *)
Lemma wf_urgent mq free queue held i m :
  mq_wf mq free queue (i :: held) -> msg_pool mq !! i = Some m ->
  exists mq1, set_next i (msg_queue_head mq) mq = Ok mq1 /\
    let mq2 := with_head (Some i) mq1 in
    let mq3 := match msg_queue_tail mq2 with None => with_tail (Some i) mq2 | Some _ => mq2 end in
    same_mq mq mq3 /\ entry mq3 = entry mq /\ mq_wf mq3 free (i :: queue) held /\
    (forall j, j <> i -> msg_pool mq3 !! j = msg_pool mq !! j) /\
    (forall j, payload <$> msg_pool mq3 !! j = payload <$> msg_pool mq !! j).
Proof.
  intros W Ei. eexists. split; [by apply set_next_Ok|]. cbv zeta.
  set (m' := mk_msg (msg_queue_head mq) (payload m)).
  pose proof (wf_nodup _ _ _ _ W) as Hn.
  apply NoDup_app in Hn as (_ & Hf & (_ & Hq & _)%NoDup_app).
  assert (i ∉ free) as Hif by (intros Hin; apply (Hf i Hin); set_solver).
  assert (i ∉ queue) as Hiq by (intros Hin; apply (Hq i Hin); set_solver).
  assert (forall j, j <> i -> <[i := m']> (msg_pool mq) !! j = msg_pool mq !! j) as Hne
    by (intros j Hj; by apply list_lookup_insert_ne).
  assert (<[i := m']> (msg_pool mq) !! i = Some m') as Heq by (apply list_lookup_insert_eq; by eapply lookup_lt_Some).
  apply (wf_write mq free queue (i :: held) i m m') in W; [|by left|done|done].
  destruct W as [F Q T M B S P]. cbn in *.
  assert (chain (<[i := m']> (msg_pool mq)) (Some i) (i :: queue)) as Q'.
  { cbn. split; [done|]. exists m'. by split. }
  assert (free ++ (i :: queue) ++ held ≡ₚ seq 0 (Z.to_nat (max_msgs mq))) as B' by (rewrite <- B; solve_Permutation).
  assert (forall j, payload <$> <[i := m']> (msg_pool mq) !! j = payload <$> msg_pool mq !! j) as Hp.
  { intros j. destruct (decide (j = i)) as [->|Hj]; [by rewrite Heq, Ei|by rewrite Hne]. }
  rewrite T. destruct (last queue) as [z|] eqn:El; split_and!; try done; (split; try done; cbn [msg_queue_tail with_tail with_head with_pool]).
  - rewrite T, last_cons, El. done.
  - by rewrite last_cons, El.
Qed.

(** The first message is taken out. *)
Lemma wf_pop mq free queue held i :
  mq_wf mq free (i :: queue) held ->
  msg_queue_head mq = Some i /\
  exists mq', pop_head i mq = Ok mq' /\ same_mq mq mq' /\ entry mq' = entry mq /\
    msg_pool mq' = msg_pool mq /\ mq_wf mq' free queue (i :: held).
Proof.
  intros W. pose proof (wf_nodup _ _ _ _ W) as Hn. destruct W as [F Q T M B S P].
  destruct Q as [Eh (m & E & Q)]. split; [done|]. unfold pop_head. rewrite (get_next_Ok _ _ m) by done.
  cbn [mbind result_bind]. eexists. split; [done|]. cbn [msg_queue_tail with_head]. rewrite T.
  apply NoDup_app in Hn as (_ & _ & ([Hi _]%NoDup_cons & _ & _)%NoDup_app).
  assert (free ++ queue ++ i :: held ≡ₚ seq 0 (Z.to_nat (max_msgs mq))) as B' by (rewrite <- B; solve_Permutation).
  destruct queue as [|j queue].
  - rewrite bool_decide_true by done. split_and!; try done; try by split.
  - rewrite last_cons_cons in T |- *. rewrite bool_decide_false.
    + split_and!; try done; try by split.
    + intros El. apply Hi. by apply last_Some_elem_of.
Qed.

(** A block becomes free again. *)
Lemma wf_push mq free queue held i :
  mq_wf mq free queue (i :: held) ->
  exists mq', push_free i mq = Ok mq' /\ same_mq mq mq' /\ entry mq' = entry mq /\
    (forall j, j <> i -> msg_pool mq' !! j = msg_pool mq !! j) /\ mq_wf mq' (i :: free) queue held.
Proof.
  intros W. destruct (wf_block _ _ _ _ i W) as (m & E & El); [set_solver|].
  unfold push_free. rewrite (set_next_Ok _ _ m) by done. cbn [mbind result_bind]. eexists. split; [done|].
  set (m' := mk_msg _ _). apply (wf_write mq free queue (i :: held) i m m') in W; [|by left|done|done].
  split_and!; try done; [intros j Hj; by apply list_lookup_insert_ne|].
  destruct W as [F Q T M B S P]. cbn in *. split; try done; cbn.
  - split; [done|]. exists m'. split; [|done]. apply list_lookup_insert_eq. by eapply lookup_lt_Some.
  - rewrite <- B. solve_Permutation.
Qed.

(** The reset empties the queue into the free list. *)
Lemma wf_drain mq free queue held fuel :
  mq_wf mq free queue held -> (length queue < fuel)%nat ->
  exists mq', drain fuel mq = Ok mq' /\ same_mq mq mq' /\
    (forall j, j ∉ queue -> msg_pool mq' !! j = msg_pool mq !! j) /\ mq_wf mq' (rev queue ++ free) [] held.
Proof.
  revert mq free fuel. induction queue as [|i queue IH]; intros mq free fuel W Hf;
    (destruct fuel as [|fuel]; [cbn in *; lia|]); cbn [drain].
  - rewrite (wf_queue _ _ _ _ W : msg_queue_head mq = None). exists mq. by split_and!.
  - destruct (wf_pop _ _ _ _ _ W) as (Eh & mq1 & E1 & S1 & _ & P1 & W1). rewrite Eh, E1. cbn [mbind result_bind].
    destruct (wf_push _ _ _ _ _ W1) as (mq2 & E2 & S2 & _ & P2 & W2). rewrite E2. cbn [mbind result_bind].
    destruct (IH mq2 (i :: free) fuel W2) as (mq' & E' & S' & P' & W'); [cbn in *; lia|].
    exists mq'. split_and!; [done|by do 2 (etrans; [eassumption|])| |].
    + intros j [Hj1 Hj2]%not_elem_of_cons. by rewrite P', P2, P1.
    + cbn. by rewrite <- (assoc_L app).
Qed.

Lemma wf_init n temp free mq :
  (forall i, (i < temp + n)%nat -> exists m, msg_pool mq !! i = Some m /\ Z.of_nat (length (payload m)) = msg_size mq) ->
  (forall i, i ∈ free -> (i < temp)%nat) ->
  chain (msg_pool mq) (msg_queue_free mq) free ->
  exists mq' free', init_free n temp mq = Ok mq' /\ same_mq mq mq' /\ entry mq' = entry mq /\
    msg_queue_head mq' = msg_queue_head mq /\ msg_queue_tail mq' = msg_queue_tail mq /\
    (forall i, (i < temp + n)%nat -> exists m, msg_pool mq' !! i = Some m /\ Z.of_nat (length (payload m)) = msg_size mq) /\
    chain (msg_pool mq') (msg_queue_free mq') free' /\ free' ≡ₚ free ++ seq temp n.
Proof.
  revert temp free mq. induction n as [|n IH]; intros temp free mq P F C; cbn [init_free].
  - exists mq, free. rewrite app_nil_r. split_and!; done.
  - destruct (P temp ltac:(lia)) as (m & E & El). unfold push_free. rewrite (set_next_Ok _ _ m) by done.
    cbn [mbind result_bind]. set (mq1 := with_free _ _).
    assert (forall i, (i < S temp + n)%nat -> exists m, msg_pool mq1 !! i = Some m /\ Z.of_nat (length (payload m)) = msg_size mq1) as P1.
    { intros i Hi. cbn. destruct (decide (i = temp)) as [->|Hne].
      - eexists. rewrite list_lookup_insert_eq by by eapply lookup_lt_Some. by split.
      - rewrite list_lookup_insert_ne by done. apply P. lia. }
    destruct (IH (S temp) (temp :: free) mq1 P1) as (mq' & free' & E' & S' & N' & H' & T' & P' & C' & B').
    + intros i [->|Hi]%elem_of_cons; [lia|]. specialize (F i Hi). lia.
    + cbn. split; [done|]. eexists. split; [apply list_lookup_insert_eq; by eapply lookup_lt_Some|]. cbn.
      apply chain_insert; [|done]. intros Hin. specialize (F _ Hin). lia.
    + exists mq', free'. split_and!; try done.
      * intros i Hi. apply P'. lia.
      * rewrite B'. cbn. solve_Permutation.
Qed.
End Blocks.

(** ** The invariant *)

(** The blocks in the hands of calls. *)
Definition held (cs : gmap nat mq_call) : list nat := map_to_list cs ≫= fun tc => block_of tc.2.

Lemma held_insert cs t c : cs !! t = None -> held (<[t := c]> cs) ≡ₚ block_of c ++ held cs.
Proof. intros E. unfold held. by rewrite map_to_list_insert. Qed.
Lemma held_delete cs t c : cs !! t = Some c -> held cs ≡ₚ block_of c ++ held (delete t cs).
Proof.
  intros E. rewrite <- (insert_delete_id cs t c E) at 1. apply held_insert, lookup_delete_eq.
Qed.
Lemma held_drop cs t : (forall c, cs !! t = Some c -> block_of c = []) -> held (delete t cs) ≡ₚ held cs.
Proof.
  intros H. destruct (cs !! t) as [c|] eqn:E; [|by rewrite delete_id].
  by rewrite (held_delete cs t c E), (H c).
Qed.
Lemma in_held cs t c i : cs !! t = Some c -> i ∈ block_of c -> i ∈ held cs.
Proof. intros E Hi. rewrite (held_delete cs t c E). set_solver. Qed.

(** The message behind a block. *)
Definition text (m : rt_messagequeue) (i : nat) : list Z := from_option payload [] (msg_pool m !! i).

Definition call_ok (m : rt_messagequeue) (hd : gmap (option nat) (list Z)) (t : nat) (c : mq_call) : Prop :=
  (forall w, wait_of c = Some w -> w_timeout w < half) /\
  match c with
  | Sending b _ | Filling _ b _ => Z.of_nat (length b) <= msg_size m
  | Linking u b i => b `prefix_of` text m i /\ (u = false -> next <$> msg_pool m !! i = Some None)
  | Receiving size _ => 0 < size
  | Copying size i => 0 < size /\ exists b, hd !! Some t = Some b /\ b `prefix_of` text m i
  | Freeing _ => True
  end.

Lemma call_ok_keep m m' hd hd' t c :
  msg_size m' = msg_size m -> (forall i, i ∈ block_of c -> msg_pool m' !! i = msg_pool m !! i) ->
  hd' !! Some t = hd !! Some t -> call_ok m hd t c -> call_ok m' hd' t c.
Proof.
  intros Es Ep Eh [Hw H]. split; [done|]. unfold text in *.
  destruct c as [b w|u b i|u b i|size w|size i|i]; rewrite ?Es, ?Eh; try done; by rewrite Ep by by left.
Qed.

(** The queued blocks hold what was sent. *)
Definition holds (m : rt_messagequeue) (i : nat) (b : list Z) : Prop := b `prefix_of` text m i.
Lemma holds_ext m m' queue l :
  (forall j, j ∈ queue -> text m' j = text m j) -> Forall2 (holds m) queue l -> Forall2 (holds m') queue l.
Proof.
  intros H F. induction F as [|i b queue l Hb F IH]; constructor.
  - unfold holds. rewrite H; [done|by left].
  - apply IH. intros j Hj. apply H. by right.
Qed.

(** [extra] are the blocks that a call of the current step has taken. *)
Record mq_inv (s : queue_state) (m : rt_messagequeue) (k : kernel) (cs : gmap nat mq_call)
    (extra free queue : list nat) : Prop := {
  iv_kernel : kernel_ok k;
  iv_current : is_Some (rt_current_thread k);
  iv_flag : flag_ok (mq_flag m);
  iv_queues : mq_queue m <> suspend_sender_thread m;
  iv_wf : mq_wf m free queue (extra ++ held cs);
  iv_entry : entry m = Z.of_nat (length queue);
  iv_senders : room sends (suspend_sender_thread m) (Z.of_nat (length free)) cs k;
  iv_receivers : room receives (mq_queue m) (Z.of_nat (length queue)) cs k;
  iv_sent : Forall2 (holds m) queue (sent s);
  iv_busy : busy s = Z.of_nat (length (extra ++ held cs));
  iv_calls t c : cs !! t = Some c -> call_ok m (hand s) t c }.

Lemma mq_sends_receives c : sends c -> ~ receives c.
Proof. destruct c; cbn; tauto. Qed.
Lemma mq_receives_sends c : receives c -> ~ sends c.
Proof. destruct c; cbn; tauto. Qed.

(** A call that neither sends nor receives: it is past the gates. *)
Definition inside (c : mq_call) : Prop := ~ sends c /\ ~ receives c.

Lemma same_delete P (cs : gmap nat mq_call) t :
  (forall c, cs !! t = Some c -> ~ P c) -> same_calls P cs (delete t cs).
Proof.
  intros H j c Hp. destruct (decide (j = t)) as [->|Hne].
  - rewrite lookup_delete_eq. split; [|done]. intros E. by destruct (H c E).
  - by rewrite lookup_delete_ne.
Qed.
Lemma same_insert P (cs : gmap nat mq_call) t c :
  cs !! t = None -> ~ P c -> same_calls P cs (<[t := c]> cs).
Proof.
  intros E H j c' Hp. destruct (decide (j = t)) as [->|Hne].
  - rewrite lookup_insert_eq, E. split; [done|]. by intros [= ->].
  - by rewrite lookup_insert_ne.
Qed.

Section Steps.
Implicit Types (s : queue_state) (m : rt_messagequeue) (k : kernel) (cs : gmap nat mq_call)
  (i t : nat) (extra free queue : list nat).

Lemma inv_nodup s m k cs extra free queue :
  mq_inv s m k cs extra free queue -> NoDup (free ++ queue ++ extra ++ held cs).
Proof. intros I. apply (wf_nodup m), I. Qed.

(** A block that a call holds is not one of the others. *)
Lemma held_apart s m k cs extra free queue t c i :
  mq_inv s m k cs extra free queue -> cs !! t = Some c -> i ∈ block_of c -> i ∉ queue /\ i ∉ extra.
Proof.
  intros I E Hi. pose proof (in_held cs t c i E Hi) as Hh. pose proof (inv_nodup _ _ _ _ _ _ _ I) as Hn.
  apply NoDup_app in Hn as (_ & _ & (_ & Hq & (_ & He & _)%NoDup_app)%NoDup_app).
  split; intros Hin; [apply (Hq i Hin)|by apply (He i Hin)]. set_solver.
Qed.

(** The call of a thread past the gates gives its block to the current step. *)
Lemma inv_open s m k cs extra free queue t c i :
  mq_inv s m k cs extra free queue -> cs !! t = Some c -> block_of c = [i] ->
  mq_inv s m k (delete t cs) (i :: extra) free queue.
Proof.
  intros I E Eb. assert (inside c) as [Hs Hr] by (destruct c; cbn in *; try done; split; by intros []).
  pose proof (held_delete cs t c E) as Eh. rewrite Eb in Eh. destruct I as [H C F Q W N Rs Rr S B Cs].
  assert (i :: extra ++ held (delete t cs) ≡ₚ extra ++ held cs) as Ep by (rewrite Eh; solve_Permutation).
  split; try done.
  - by eapply wf_perm.
  - apply (room_update sends _ _ _ cs _ k k Rs); [done| |done]. apply same_delete. intros c' ?; by simplify_eq.
  - apply (room_update receives _ _ _ cs _ k k Rr); [done| |done]. apply same_delete. intros c' ?; by simplify_eq.
  - cbn. by rewrite B, <- Ep.
  - intros j c' [Hne Hj]%lookup_delete_Some. by apply Cs.
Qed.

(** And the other way round. *)
Lemma inv_close s m k cs extra free queue t c i :
  mq_inv s m k cs (i :: extra) free queue -> cs !! t = None -> block_of c = [i] -> call_ok m (hand s) t c ->
  mq_inv s m k (<[t := c]> cs) extra free queue.
Proof.
  intros I E Eb Hc. assert (inside c) as [Hs Hr] by (destruct c; cbn in *; try done; split; by intros []).
  pose proof (held_insert cs t c E) as Eh. rewrite Eb in Eh. destruct I as [H C F Q W N Rs Rr S B Cs].
  assert (extra ++ held (<[t := c]> cs) ≡ₚ (i :: extra) ++ held cs) as Ep by (rewrite Eh; solve_Permutation).
  split; try done.
  - by eapply wf_perm.
  - apply (room_update sends _ _ _ cs _ k k Rs); [done| |done]. by apply same_insert.
  - apply (room_update receives _ _ _ cs _ k k Rr); [done| |done]. by apply same_insert.
  - by rewrite B, Ep.
  - intros j c' [[<- <-]|[Hne Hj]]%lookup_insert_Some; [done|by apply Cs].
Qed.

(** A call past a gate: nobody's, or that of a woken thread, which is dropped. *)
Definition comes (P : mq_call -> Prop) (o : option nat) k cs : Prop :=
  forall t, o = Some t -> exists c, cs !! t = Some c /\ P c /\ awake k t /\ block_of c = [].

Lemma held_drop_call P o k cs : comes P o k cs -> held (drop_call o cs) ≡ₚ held cs.
Proof.
  intros Ho. destruct o as [t|]; [|done]. destruct (Ho t eq_refl) as (c & E & _ & _ & Eb).
  cbn. apply held_drop. intros c' E'. by simplify_eq.
Qed.
Lemma drop_call_some o cs t c : drop_call o cs !! t = Some c -> cs !! t = Some c.
Proof. destruct o as [t'|]; [|done]. cbn. by intros [_ ?]%lookup_delete_Some. Qed.

(** Past the gate [P] one thing is gone; the gate [P'] does not notice. *)
Lemma room_comes P P' {Pd : forall c, Decision (P c)} {P'd : forall c, Decision (P' c)} o k cs q q' a a' :
  (forall c, P c -> ~ P' c) -> comes P o k cs -> kernel_ok k ->
  room P q a cs k -> room P' q' a' cs k ->
  room P q (a - 1) (drop_call o cs) k /\ room P' q' a' (drop_call o cs) k.
Proof.
  intros Hpp Ho H R R'. destruct o as [t|]; cbn.
  - destruct (Ho t eq_refl) as (c & E & Hp & Ha & _). split.
    + apply (room_taken P q a cs _ k t c); try done. intros j Hj. by apply lookup_delete_ne.
    + apply (room_update P' q' a' _ cs _ k k R'); try done. apply same_delete. intros c' E'. simplify_eq. by apply Hpp.
  - split; [|done]. apply (room_update P q a _ cs _ k k R); try done. lia.
Qed.

Lemma inv_reserve s m k cs extra free queue i o :
  mq_inv s m k cs extra (i :: free) queue -> comes sends o k cs ->
  msg_queue_free m = Some i /\ exists p, get_next m i = Ok p /\
    mq_inv (mk_state (sent s) (busy s + 1) (hand s)) (with_free p m) k (drop_call o cs) (i :: extra) free queue.
Proof.
  intros [H C F Q W N Rs Rr S B Cs] Ho. destruct (wf_take _ _ _ _ _ W) as (Ef & p & Ep & W').
  split; [done|]. exists p. split; [done|]. pose proof (held_drop_call _ _ _ _ Ho) as Eh.
  destruct (room_comes sends receives o k cs _ _ _ _ mq_sends_receives Ho H Rs Rr) as [Rs' Rr'].
  split; try done.
  - eapply wf_perm; [|exact W']. by rewrite Eh.
  - cbn [length] in Rs'. by replace (Z.of_nat (length free)) with (Z.of_nat (Datatypes.S (length free)) - 1) by lia.
  - cbn. rewrite B, !length_app. rewrite (Permutation_length Eh). lia.
  - intros t c E. by apply (call_ok_keep m _ (hand s)); [..|apply Cs, (drop_call_some o)].
Qed.

Lemma inv_dequeue s m k cs extra free queue i o who b l :
  mq_inv s m k cs extra free (i :: queue) -> comes receives o k cs -> sent s = b :: l ->
  (forall t, who = Some t -> drop_call o cs !! t = None) ->
  msg_queue_head m = Some i /\ exists m', pop_head i m = Ok m' /\ entry m' = entry m /\
    mq_inv (mk_state l (busy s + 1) (<[who := b]> (hand s))) (with_entry (entry m' - 1) m') k
      (drop_call o cs) (i :: extra) free queue /\
    b `prefix_of` text m' i.
Proof.
  intros [H C F Q W N Rs Rr S B Cs] Ho Es Hw. destruct (wf_pop _ _ _ _ _ W) as (Eh & m' & E & Sm & En & Ep & W').
  split; [done|]. exists m'. split; [done|]. split; [done|]. pose proof (held_drop_call _ _ _ _ Ho) as Ed.
  destruct (room_comes receives sends o k cs _ _ _ _ mq_receives_sends Ho H Rr Rs) as [Rr' Rs'].
  pose proof Sm as (Em1 & Em2 & Em3 & Em4). pose proof (wf_count _ _ _ _ W) as Hct. pose proof (wf_max _ _ _ _ W).
  rewrite Es in S. apply Forall2_cons in S as [Sb S]. cbn [length] in *.
  assert (forall j, text m' j = text m j) as Et by (intros j; unfold text; by rewrite Ep).
  split; [|by rewrite Et]. split; try done; cbn.
  - unfold mq_flag. cbn. by rewrite Em1.
  - unfold mq_queue. cbn. by rewrite Em1, Em4.
  - eapply wf_perm with (held := i :: extra ++ held cs); [by rewrite Ed|]. by destruct W'.
  - rewrite En, N. cint. lia.
  - by rewrite Em4.
  - unfold mq_queue. cbn. rewrite Em1.
    by replace (Z.of_nat (length queue)) with (Z.of_nat (Datatypes.S (length queue)) - 1) by lia.
  - eapply holds_ext; [|exact S]. intros j _. apply Et.
  - rewrite B, !length_app. rewrite (Permutation_length Ed). lia.
  - intros t c E'. apply (call_ok_keep m _ (hand s)); [done|by intros; cbn; rewrite Ep| |by apply Cs, (drop_call_some o)].
    cbn. apply lookup_insert_ne. intros ->. rewrite (Hw t) in E'; done.
Qed.

(** The block of the step is written. *)
Lemma inv_write s m k cs extra free queue i mm mm' :
  mq_inv s m k cs (i :: extra) free queue -> msg_pool m !! i = Some mm ->
  length (payload mm') = length (payload mm) ->
  mq_inv s (with_pool (<[i := mm']> (msg_pool m)) m) k cs (i :: extra) free queue.
Proof.
  intros I E El. pose proof (inv_nodup _ _ _ _ _ _ _ I) as Hn. pose proof (fun t c => held_apart _ _ _ _ _ _ _ t c i I) as Ha.
  destruct I as [H C F Q W N Rs Rr S B Cs]. split; try done.
  - by apply (wf_write _ _ _ _ _ mm); [|by left|..].
  - apply NoDup_app in Hn as (_ & _ & (_ & Hq & _)%NoDup_app).
    eapply holds_ext; [|exact S]. intros j Hj. unfold text. cbn. rewrite list_lookup_insert_ne; [done|].
    intros ->. apply (Hq j Hj). by left.
  - intros t c Et. apply (call_ok_keep m _ (hand s)); [done| |done|by apply Cs].
    intros j Hj. cbn. apply list_lookup_insert_ne. intros ->. destruct (Ha t c Et Hj) as [_ Hne]. apply Hne. by left.
Qed.

Lemma inv_block s m k cs extra free queue i :
  mq_inv s m k cs (i :: extra) free queue ->
  exists mm, msg_pool m !! i = Some mm /\ Z.of_nat (length (payload mm)) = msg_size m.
Proof. intros I. eapply (wf_block m free queue); [apply I|]. set_solver. Qed.

Lemma inv_payload s m k cs extra free queue i b :
  mq_inv s m k cs (i :: extra) free queue -> Z.of_nat (length b) <= msg_size m ->
  exists m', set_payload i b m = Ok m' /\ mq_inv s m' k cs (i :: extra) free queue /\
    b `prefix_of` text m' i /\ next <$> msg_pool m' !! i = next <$> msg_pool m !! i.
Proof.
  intros I Hb. destruct (inv_block _ _ _ _ _ _ _ _ I) as (mm & E & El). unfold set_payload.
  rewrite (aget_Ok _ _ mm); [|lia|by rewrite Nat2Z.id]. cbn [mbind result_bind].
  rewrite acopy_Ok by lia. cbn [mbind result_bind]. pose proof (lookup_lt_Some _ _ _ E).
  rewrite aset_Ok by lia. cbn [mbind result_bind]. rewrite Nat2Z.id. eexists. split; [done|]. split_and!.
  - apply (inv_write _ _ _ _ _ _ _ _ mm); [done|done|]. cbn.
    rewrite ?length_app, ?length_take, ?length_drop. lia.
  - unfold text. cbn. rewrite list_lookup_insert_eq by done. cbn. rewrite Nat2Z.id, firstn_all. by eexists.
  - cbn. rewrite list_lookup_insert_eq by done. by rewrite E.
Qed.

Lemma inv_fill s m k cs extra free queue i b :
  mq_inv s m k cs (i :: extra) free queue -> Z.of_nat (length b) <= msg_size m ->
  exists m', send_fill b i m = Ok m' /\ mq_inv s m' k cs (i :: extra) free queue /\
    b `prefix_of` text m' i /\ next <$> msg_pool m' !! i = Some None.
Proof.
  intros I Hb. destruct (inv_block _ _ _ _ _ _ _ _ I) as (mm & E & El). unfold send_fill.
  rewrite (set_next_Ok _ _ mm) by done. cbn [mbind result_bind].
  apply (inv_write _ _ _ _ _ _ _ _ mm (mk_msg None (payload mm))) in I; [|done|done].
  destruct (inv_payload _ _ _ _ _ _ _ _ b I Hb) as (m' & E' & I' & Hp & Hx). exists m'. split_and!; try done.
  rewrite Hx. cbn. by rewrite list_lookup_insert_eq by by eapply lookup_lt_Some.
Qed.

(** A message is queued, and a receiver is woken for it. *)
Lemma inv_count s m m1 k cs i extra free queue queue' sent' :
  mq_inv s m k cs (i :: extra) free queue -> same_mq m m1 -> entry m1 = entry m ->
  mq_wf m1 free queue' (extra ++ held cs) -> length queue' = Datatypes.S (length queue) ->
  (forall j, text m1 j = text m j) ->
  (forall t c j, cs !! t = Some c -> j ∈ block_of c -> msg_pool m1 !! j = msg_pool m !! j) ->
  Forall2 (holds m) queue' sent' ->
  exists m' k', count_in m1 k = Ok (RT_EOK, m', k') /\
    mq_inv (mk_state sent' (busy s - 1) (hand s)) m' k' cs extra free queue'.
Proof.
  intros [H C F Q W N Rs Rr S B Cs] Sm En W1 Hl Et Ep S'. pose proof (wf_count _ _ _ _ W) as Hct.
  pose proof (wf_max _ _ _ _ W). pose proof Sm as (Em1 & Em2 & Em3 & Em4). rewrite !length_app in Hct. cbn in Hct.
  unfold count_in. replace (entry m1 <? RT_MQ_ENTRY_MAX) with true by (unfold RT_MQ_ENTRY_MAX; lia).
  destruct (room_given receives (mq_queue m) _ cs cs k H C Rr) as (k' & E & H' & C' & V & Rr'); [done|].
  assert (mq_queue (with_entry (entry m1 + 1) m1) = mq_queue m) as Eq by (unfold mq_queue; cbn; by rewrite Em1).
  rewrite Eq, E. cbn [mbind result_bind]. eexists _, _. split; [done|].
  split; cbn; rewrite ?Eq, ?Em4; try done.
  - unfold mq_flag in *. cbn. by rewrite Em1.
  - by destruct W1.
  - rewrite En, N, Hl. cint. lia.
  - by apply (room_update sends _ _ _ cs _ k k' Rs).
  - by replace (Z.of_nat (length queue')) with (Z.of_nat (length queue) + 1) by lia.
  - apply (holds_ext m); [|done]. intros j _. apply Et.
  - rewrite B. cbn. lia.
  - intros t c Ec. apply (call_ok_keep m _ (hand s)); [done|by intros j; apply (Ep t c)|done|by apply Cs].
Qed.

Lemma payload_text m m' :
  (forall j, payload <$> msg_pool m' !! j = payload <$> msg_pool m !! j) -> forall j, text m' j = text m j.
Proof. intros H j. specialize (H j). unfold text. destruct (msg_pool m' !! j), (msg_pool m !! j); by simplify_eq/=. Qed.

Lemma inv_send_link s m k cs extra free queue i b :
  mq_inv s m k cs (i :: extra) free queue -> b `prefix_of` text m i -> next <$> msg_pool m !! i = Some None ->
  exists m' k', send_link i m k = Ok (RT_EOK, m', k') /\
    mq_inv (mk_state (sent s ++ [b]) (busy s - 1) (hand s)) m' k' cs extra free (queue ++ [i]).
Proof.
  intros I Hb Hx. destruct (msg_pool m !! i) as [mm|] eqn:Em; [|done]. injection Hx as Hx.
  destruct (wf_link m free queue (extra ++ held cs) i mm (iv_wf _ _ _ _ _ _ _ I) Em Hx)
    as (m1 & E & Sm & En & W & Hp & Ht).
  unfold send_link. rewrite E. cbn [mbind result_bind]. cbv zeta in *.
  apply (inv_count s m _ k cs i extra free queue); try done.
  - rewrite length_app. cbn. lia.
  - by apply payload_text.
  - intros t c j Ec Hj. apply Hp. by apply (held_apart _ _ _ _ _ _ _ t c j I).
  - apply Forall2_app; [apply I|]. by repeat constructor.
Qed.

Lemma inv_urgent_link s m k cs extra free queue i b :
  mq_inv s m k cs (i :: extra) free queue -> b `prefix_of` text m i ->
  exists m' k', urgent_link i m k = Ok (RT_EOK, m', k') /\
    mq_inv (mk_state (b :: sent s) (busy s - 1) (hand s)) m' k' cs extra free (i :: queue).
Proof.
  intros I Hb. destruct (inv_block _ _ _ _ _ _ _ _ I) as (mm & Em & _).
  destruct (wf_urgent m free queue (extra ++ held cs) i mm (iv_wf _ _ _ _ _ _ _ I) Em)
    as (m1 & E & Sm & En & W & Hp & Ht).
  unfold urgent_link. rewrite E. cbn [mbind result_bind]. cbv zeta in *.
  apply (inv_count s m _ k cs i extra free queue); try done.
  - by apply payload_text.
  - intros t c j Ec Hj. apply Hp. intros ->.
    destruct (held_apart _ _ _ _ _ _ _ t c i I Ec Hj) as [_ Hne]. apply Hne. by left.
  - constructor; [done|apply I].
Qed.

(** The receiver gives its block back, and a sender is woken for it. *)
Lemma inv_release s m k cs extra free queue i who :
  mq_inv s m k cs (i :: extra) free queue -> (forall t, who = Some t -> cs !! t = None) ->
  exists m' k', recv_free i m k = Ok (RT_EOK, m', k') /\
    mq_inv (mk_state (sent s) (busy s - 1) (delete who (hand s))) m' k' cs extra (i :: free) queue.
Proof.
  intros I Hw. pose proof (inv_nodup _ _ _ _ _ _ _ I) as Hn.
  pose proof (fun t c => held_apart _ _ _ _ _ _ _ t c i I) as Ha.
  destruct I as [H C F Q W N Rs Rr S B Cs].
  destruct (wf_push _ _ _ _ _ W) as (m1 & E & Sm & En & Hp & W1). unfold recv_free. rewrite E. cbn [mbind result_bind].
  pose proof Sm as (Em1 & Em2 & Em3 & Em4).
  destruct (room_given sends (suspend_sender_thread m) _ cs cs k H C Rs) as (k' & Ek & H' & C' & V & Rs'); [done|].
  rewrite Em4, Ek. cbn [mbind result_bind]. eexists _, _. split; [done|].
  assert (mq_queue m1 = mq_queue m) as Eq by (unfold mq_queue; by rewrite Em1).
  split; cbn; rewrite ?Eq, ?Em4; try done.
  - unfold mq_flag in *. by rewrite Em1.
  - by rewrite En.
  - cbn [length]. by replace (Z.of_nat (Datatypes.S (length free))) with (Z.of_nat (length free) + 1) by lia.
  - by apply (room_update receives _ _ _ cs _ k k' Rr).
  - apply NoDup_app in Hn as (_ & _ & (_ & Hq & _)%NoDup_app).
    eapply holds_ext; [|exact S]. intros j Hj. unfold text. rewrite Hp; [done|].
    intros ->. apply (Hq i Hj). by left.
  - rewrite B. cbn. lia.
  - intros t c Ec. apply (call_ok_keep m _ (hand s)); [done| | |by apply Cs].
    + intros j Hj. apply Hp. intros ->. destruct (Ha t c Ec Hj) as [_ Hne]. apply Hne. by left.
    + apply lookup_delete_ne. intros ->. by rewrite (Hw t) in Ec.
Qed.

(** The bytes of the message in the hands of a receiver. *)
Lemma inv_copy m cs extra free queue i b size :
  mq_wf m free queue (extra ++ held cs) -> i ∈ extra ++ held cs -> b `prefix_of` text m i -> 0 < size ->
  exists bytes, recv_copy size i m = Ok bytes /\ agrees b bytes = true /\
    Z.of_nat (length bytes) = Z.min size (msg_size m).
Proof.
  intros W Hi Hb Hs. destruct (wf_block _ _ _ _ i W) as (mm & E & El); [set_solver|].
  unfold recv_copy. rewrite (aget_Ok _ _ mm); [|lia|by rewrite Nat2Z.id]. cbn [mbind result_bind].
  set (n := if msg_size m <? size then msg_size m else size).
  assert (n = Z.min size (msg_size m)) as En by (unfold n; destruct (Z.ltb_spec (msg_size m) size); lia).
  rewrite acopy_Ok by (rewrite ?length_replicate; lia). eexists. split; [done|].
  rewrite (drop_ge (replicate _ _)) by (rewrite length_replicate; lia). rewrite app_nil_r.
  change (Z.to_nat 0) with 0%nat. rewrite take_0, drop_0, app_nil_l.
  unfold text in Hb. rewrite E in Hb. cbn in Hb. destruct Hb as [x Hb].
  pose proof (wf_size _ _ _ _ W). rewrite length_take. split; [|lia]. unfold agrees. apply bool_decide_eq_true.
  rewrite length_take, take_take, Hb. rewrite Hb, length_app in El. rewrite length_app.
  replace (Z.to_nat n `min` (length b + length x))%nat with (Z.to_nat n) by lia.
  rewrite take_app_le by lia. rewrite Nat.min_comm, <- take_take. by rewrite firstn_all.
Qed.
(** Only the kernel and the calls at the gates change. *)
Lemma inv_gates s m k k' cs cs' free queue :
  mq_inv s m k cs [] free queue -> kernel_ok k' -> is_Some (rt_current_thread k') ->
  room sends (suspend_sender_thread m) (Z.of_nat (length free)) cs' k' ->
  room receives (mq_queue m) (Z.of_nat (length queue)) cs' k' ->
  held cs' ≡ₚ held cs -> (forall t c, cs' !! t = Some c -> call_ok m (hand s) t c) ->
  mq_inv s m k' cs' [] free queue.
Proof.
  intros [H C F Q W N Rs Rr S B Cs] H' C' Rs' Rr' Eh Cs'. split; try done.
  - by eapply wf_perm.
  - cbn in *. by rewrite Eh.
Qed.

Lemma held_wait cs t c :
  block_of c = [] -> (forall c', cs !! t = Some c' -> block_of c' = []) -> held (<[t := c]> cs) ≡ₚ held cs.
Proof.
  intros Hc Ho. rewrite <- insert_delete_eq, held_insert by apply lookup_delete_eq.
  rewrite Hc. by apply held_drop.
Qed.

Lemma sends_block c : sends c -> block_of c = [].
Proof. by destruct c. Qed.
Lemma receives_block c : receives c -> block_of c = [].
Proof. by destruct c. Qed.

Lemma inv_blocks s m k cs extra free queue :
  mq_inv s m k cs extra free queue ->
  Z.of_nat (length (sent s)) + busy s = max_msgs m - Z.of_nat (length free).
Proof.
  intros I. pose proof (wf_count _ _ _ _ (iv_wf _ _ _ _ _ _ _ I)).
  rewrite (iv_busy _ _ _ _ _ _ _ I). rewrite <- (Forall2_length _ _ _ (iv_sent _ _ _ _ _ _ _ I)). lia.
Qed.

Lemma clear_error_inv s m k cs free queue t :
  mq_inv s m k cs [] free queue -> mq_inv s m (with_thread (set_error RT_EOK) t k) cs [] free queue.
Proof.
  intros I. pose proof I as [H C F Q W N Rs Rr S B Cs].
  assert (evolves nobody k (with_thread (set_error RT_EOK) t k)) as V by (apply ev_thread; by right).
  apply (inv_gates s m k _ cs); try done; [by apply change_plain_ok|..].
  - by apply (room_update sends _ _ _ _ _ _ _ Rs V).
  - by apply (room_update receives _ _ _ _ _ _ _ Rr V).
Qed.
End Steps.

Definition mq_ok (s : queue_state) (wd : world) : Prop :=
  exists free queue, mq_inv s (mq wd) (kern wd) (calls wd) [] free queue.

(** A step, and what it did to the queue of messages. *)
Definition good (s : queue_state) (wd : world) (l : list action) (wd' : world) : Prop :=
  same_mq (mq wd) (mq wd') /\ exists s', act_all (max_msgs (mq wd)) (msg_size (mq wd)) s l = Some s' /\ mq_ok s' wd'.

(** The current thread [t] at a gate: in no call, or woken in its call. *)
Record at_gate (P : mq_call -> Prop) (o : option nat) (t : nat) (wd : world) : Prop := {
  ag_current : rt_current_thread (kern wd) = Some t;
  ag_running : status (thread (kern wd) t) = RT_THREAD_RUNNING;
  ag_call : match o with
            | None => calls wd !! t = None
            | Some t' => t' = t /\ error (thread (kern wd) t) = RT_EOK /\ exists c, calls wd !! t = Some c /\ P c
            end }.

Lemma at_gate_call P o t wd c : at_gate P o t wd -> calls wd !! t = Some c -> P c.
Proof. intros [_ _ A] E. destruct o; [|congruence]. destruct A as (_ & _ & c' & E' & Hp). congruence. Qed.
Lemma at_gate_comes P o t wd :
  (forall c, P c -> block_of c = []) -> at_gate P o t wd ->
  comes P o (kern wd) (calls wd) /\ drop_call o (calls wd) !! t = None /\
  forall c, <[t := c]> (drop_call o (calls wd)) = <[t := c]> (calls wd).
Proof.
  intros Hb [Hc Hs A]. destruct o as [t'|]; [|by split_and!].
  destruct A as (-> & He & c & E & Hp). split_and!; [|apply lookup_delete_eq|intros; apply insert_delete_eq].
  intros j [= <-]. exists c. split_and!; auto. split; [done|by right].
Qed.

Lemma mq_send_loop_ok s o t w b wd :
  mq_ok s wd -> at_gate sends o t wd -> w_timeout w < half -> (o = None -> msg_queue_free (mq wd) = None -> w_timeout w <> 0) ->
  Z.of_nat (length b) <= msg_size (mq wd) ->
  exists p m' k', send_loop (Some t) w (mq wd) (kern wd) = Ok (p, m', k') /\
    let '(r, wd') := settle t p (Sending b) (Filling false b) m' k' (calls wd) in
    good s wd (send_actions b r) wd'.
Proof.
  intros (free & queue & I) A Hw Ho Hb. destruct (at_gate_comes _ _ _ _ sends_block A) as (Hcm & Hn & Hins).
  pose proof (inv_blocks _ _ _ _ _ _ _ I) as Hbl. unfold send_loop.
  destruct free as [|i free].
  - pose proof I as [H C F Q W N Rs Rr S B Cs]. pose proof (wf_free _ _ _ _ W) as Ef. cbn in Ef. rewrite Ef. cbn [the_thread mbind result_bind].
    pose proof (clear_error_inv _ _ _ _ _ _ t I) as I1. set (k1 := with_thread _ t _) in *.
    pose proof I1 as [H1 _ _ _ _ _ Rs1 Rr1 _ _ _].
    assert (thread k1 t = set_error RT_EOK (thread (kern wd) t)) as Et by (unfold k1; by rewrite thread_with_thread, decide_True).
    assert (act_all (max_msgs (mq wd)) (msg_size (mq wd)) s [Full] = Some s) as Hfull.
    { cbn [length] in Hbl. cbn. replace (_ =? _) with true by lia. done. }
    destruct (Z.eqb_spec (w_timeout w) 0) as [E0|E0].
    + destruct o as [t'|]; [|by destruct (Ho eq_refl Ef)]. destruct (ag_call _ _ _ _ A) as (-> & He & c & Ec & Hc).
      exists (Done (- RT_EFULL)), (mq wd), k1. split; [done|]. cbn [settle]. split; [done|].
      exists s. split; [done|]. exists [], queue. cbn.
      destruct (leaves sends receives mq_sends_receives (suspend_sender_thread (mq wd)) (mq_queue (mq wd))
        (Z.of_nat (length (@nil nat))) (Z.of_nat (length queue)) (calls wd) (kern wd) k1 t H) as [Rs' Rr']; try done.
      * right. apply A.
      * intros j Hj. unfold k1. by rewrite thread_with_thread, decide_False.
      * intros c' E'. by simplify_eq.
      * apply (inv_gates s _ k1 k1 (calls wd)); try done; [apply held_drop|].
        -- intros c' E'. simplify_eq. by apply sends_block.
        -- intros j c' [_ E']%lookup_delete_Some. by apply Cs.
    + destruct (blocked sends receives mq_sends_receives (suspend_sender_thread (mq wd)) (mq_queue (mq wd))
        (Z.of_nat (length (@nil nat))) (Z.of_nat (length queue)) (calls wd) k1 t (mq_flag (mq wd)) w)
        as (w' & k' & E & Ew & H' & C' & R'); try done.
      * exact (ag_current _ _ _ _ A).
      * rewrite Et. exact (ag_running _ _ _ _ A).
      * by rewrite Et.
      * intros c Ec. by apply (at_gate_call _ _ _ _ c A).
      * rewrite E. cbn [mbind result_bind]. exists (Waits w'), (mq wd), k'. split; [done|]. cbn [settle].
        split; [done|]. exists s. split; [done|]. exists [], queue. cbn. destruct (R' (Sending b w') Logic.I) as [Rs' Rr'].
        apply (inv_gates s _ k1 k' (calls wd)); try done.
        -- apply held_wait; [done|]. intros c Ec. apply sends_block. by apply (at_gate_call _ _ _ _ c A).
        -- intros j c [[<- <-]|[_ Ec]]%lookup_insert_Some; [|by apply Cs]. split; [|done]. intros w0 [= <-]. by rewrite Ew.
  - destruct (inv_reserve _ _ _ _ _ _ _ _ o I Hcm) as (Ef & p & Ep & I'). rewrite Ef, Ep. cbn [mbind result_bind].
    exists (Holds i), (with_free p (mq wd)), (kern wd). split; [done|]. cbn [settle]. split; [done|].
    eexists. split.
    + cbn. cbn [length] in Hbl. replace (_ <? _) with true by lia. done.
    + exists free, queue. cbn. rewrite <- Hins. apply (inv_close _ _ _ _ _ _ _ t _ i I'); [done|done|].
      split; [by intros w0|done].
Qed.

Lemma mq_recv_loop_ok s o t w size wd :
  mq_ok s wd -> at_gate receives o t wd -> w_timeout w < half ->
  (o = None -> entry (mq wd) = 0 -> w_timeout w <> 0) -> 0 < size ->
  exists p m' k', recv_loop (Some t) w (mq wd) (kern wd) = Ok (p, m', k') /\
    let '(r, wd') := settle t p (Receiving size) (Copying size) m' k' (calls wd) in
    good s wd (recv_actions t r) wd'.
Proof.
  intros (free & queue & I) A Hw Ho Hb. destruct (at_gate_comes _ _ _ _ receives_block A) as (Hcm & Hn & Hins).
  pose proof I as [H C F Q W N Rs Rr S B Cs]. unfold recv_loop. destruct queue as [|i queue].
  - cbn in N. rewrite N. cbn [Z.eqb the_thread mbind result_bind].
    pose proof (clear_error_inv _ _ _ _ _ _ t I) as I1. set (k1 := with_thread _ t _) in *.
    pose proof I1 as [H1 _ _ _ _ _ Rs1 Rr1 _ _ _].
    assert (thread k1 t = set_error RT_EOK (thread (kern wd) t)) as Et by (unfold k1; by rewrite thread_with_thread, decide_True).
    assert (act_all (max_msgs (mq wd)) (msg_size (mq wd)) s [Empty] = Some s) as Hemp.
    { cbn. apply Forall2_nil_inv_l in S as ->. done. }
    destruct (Z.eqb_spec (w_timeout w) 0) as [E0|E0].
    + destruct o as [t'|]; [|by destruct (Ho eq_refl N)]. destruct (ag_call _ _ _ _ A) as (-> & He & c & Ec & Hc).
      set (k2 := with_thread (set_error (- RT_ETIMEOUT)) t k1).
      exists (Done (- RT_ETIMEOUT)), (mq wd), k2. split; [done|]. cbn [settle]. split; [done|].
      exists s. split; [done|]. exists free, []. cbn.
      destruct (leaves receives sends mq_receives_sends (mq_queue (mq wd)) (suspend_sender_thread (mq wd))
        (Z.of_nat (length (@nil nat))) (Z.of_nat (length free)) (calls wd) (kern wd) k2 t H) as [Rr' Rs']; try done.
      * right. apply A.
      * intros j Hj. unfold k2, k1. by rewrite !thread_with_thread, !decide_False.
      * intros c' E'. by simplify_eq.
      * apply (inv_gates s _ k1 k2 (calls wd)); try done; [by apply change_plain_ok|apply held_drop|].
        -- intros c' E'. simplify_eq. by apply receives_block.
        -- intros j c' [_ E']%lookup_delete_Some. by apply Cs.
    + destruct (blocked receives sends mq_receives_sends (mq_queue (mq wd)) (suspend_sender_thread (mq wd))
        (Z.of_nat (length (@nil nat))) (Z.of_nat (length free)) (calls wd) k1 t (mq_flag (mq wd)) w)
        as (w' & k' & E & Ew & H' & C' & R'); try done.
      * exact (ag_current _ _ _ _ A).
      * rewrite Et. exact (ag_running _ _ _ _ A).
      * by rewrite Et.
      * intros c Ec. by apply (at_gate_call _ _ _ _ c A).
      * rewrite E. cbn [mbind result_bind]. exists (Waits w'), (mq wd), k'. split; [done|]. cbn [settle].
        split; [done|]. exists s. split; [done|]. exists free, []. cbn. destruct (R' (Receiving size w') Logic.I) as [Rr' Rs'].
        apply (inv_gates s _ k1 k' (calls wd)); try done.
        -- apply held_wait; [done|]. intros c Ec. apply receives_block. by apply (at_gate_call _ _ _ _ c A).
        -- intros j c [[<- <-]|[_ Ec]]%lookup_insert_Some; [|by apply Cs]. split; [|done]. intros w0 [= <-]. by rewrite Ew.
  - destruct (sent s) as [|b l] eqn:Es; [by apply Forall2_nil_inv_r in S|].
    destruct (inv_dequeue _ _ _ _ _ _ _ _ o (Some t) b l I Hcm Es) as (Eh & m' & E & En & I' & Hp).
    { by intros t' [= <-]. }
    rewrite N. cbn [length]. replace (Z.of_nat (Datatypes.S (length queue)) =? 0) with false by lia.
    rewrite Eh, E. cbn [mbind result_bind]. rewrite En, N. cbn [length].
    replace (0 <? Z.of_nat (Datatypes.S (length queue))) with true by lia. rewrite En, N in I'. cbn [length] in I'.
    eexists _, _, _. split; [done|]. cbn [settle]. destruct (wf_pop _ _ _ _ _ W) as (_ & m1 & E1 & Sm & _).
    rewrite E in E1. injection E1 as <-. split; [done|]. eexists. split.
    + cbn. by rewrite Es.
    + exists free, queue. cbn. rewrite <- Hins. apply (inv_close _ _ _ _ _ _ _ t _ i I'); [done|done|].
      split; [by intros w0|]. split; [done|]. exists b. split; [apply lookup_insert_eq|done].
Qed.

(** ** Every step *)

Definition step_ok (s : queue_state) (wd : world) (acts : reply -> list action) (x : result (reply * world)) : Prop :=
  exists r wd', x = Ok (r, wd') /\ good s wd (acts r) wd'.

Lemma good_settle s wd acts t p wt hd m k cs :
  (let '(r, wd') := settle t p wt hd m k cs in good s wd (acts r) wd') ->
  step_ok s wd acts (Ok (settle t p wt hd m k cs)).
Proof. intros H. unfold step_ok. destruct (settle _ _ _ _ _ _ _) as [r wd']. by exists r, wd'. Qed.

(** A begin that changes nothing. *)
Lemma good_refused s wd t l :
  mq_ok s wd -> calls wd !! t = None -> act_all (max_msgs (mq wd)) (msg_size (mq wd)) s l = Some s ->
  good s wd l (mk_world (mq wd) (kern wd) (delete t (calls wd))).
Proof. intros Hok Hc Ha. rewrite delete_id by done. split; [done|]. exists s. split; [done|]. by destruct wd. Qed.

Lemma full_act s wd : mq_ok s wd -> msg_queue_free (mq wd) = None ->
  act_all (max_msgs (mq wd)) (msg_size (mq wd)) s [Full] = Some s.
Proof.
  intros (free & queue & I) Ef. pose proof (inv_blocks _ _ _ _ _ _ _ I) as Hb.
  pose proof (wf_free _ _ _ _ (iv_wf _ _ _ _ _ _ _ I)) as C. rewrite Ef in C. destruct free; [|by destruct C].
  cbn in *. by replace (_ =? _) with true by lia.
Qed.
Lemma empty_act s wd : mq_ok s wd -> entry (mq wd) = 0 ->
  act_all (max_msgs (mq wd)) (msg_size (mq wd)) s [Empty] = Some s.
Proof.
  intros (free & queue & I) E. rewrite (iv_entry _ _ _ _ _ _ _ I) in E. destruct queue; [|cbn in E; lia].
  cbn. by rewrite (Forall2_nil_inv_l _ _ (iv_sent _ _ _ _ _ _ _ I)).
Qed.

Lemma toolong_act cap s wd b : msg_size (mq wd) < Z.of_nat (length b) ->
  act_all cap (msg_size (mq wd)) s (send_actions b (Answer (- RT_ERROR))) = Some s.
Proof. intros H. apply Z.ltb_lt in H. cbn. rewrite Z.eqb_refl. cbn. by rewrite H. Qed.

Lemma begins_gate P timeout wd : begins timeout wd ->
  exists t, rt_current_thread (kern wd) = Some t /\ calls wd !! t = None /\ at_gate P None t wd /\
    timeout < half /\ RT_DEBUG_SCHEDULER_AVAILABLE (negb (timeout =? 0)) (kern wd) = Ok tt.
Proof.
  intros [Ht (t & Hc & Hs & Hn)]. exists t. split_and!; try done.
  - destruct Ht as [->|[_ ?]]; [done|done].
  - destruct Ht as [->|[Hm _]]; [done|]. destruct (timeout =? 0); [done|]. by apply debug_available.
Qed.

Lemma mq_send_ok s buffer timeout wd :
  mq_ok s wd -> 0 < Z.of_nat (length buffer) -> begins timeout wd ->
  step_ok s wd (send_actions buffer) (mq_run (Send buffer timeout) wd).
Proof.
  intros Hok Hl Hb. destruct (begins_gate sends timeout wd Hb) as (t & Hc & Hn & A & Ht & Hd).
  unfold mq_run, current, send_begin. rewrite Hc. cbn [mbind result_bind].
  replace (Z.of_nat (length buffer) =? 0) with false by lia. cbn [negb rt_assert mbind result_bind].
  rewrite Hd. cbn [mbind result_bind]. destruct (Z.ltb_spec (msg_size (mq wd)) (Z.of_nat (length buffer))) as [Hlt|Hge].
  - cbn [mbind result_bind]. apply good_settle. cbn [settle]. apply good_refused; [done|done|by apply toolong_act].
  - unfold rt_thread_self. rewrite Hc.
    destruct (msg_queue_free (mq wd)) as [i|] eqn:Ef; [|destruct (Z.eqb_spec timeout 0) as [E0|E0]].
    + destruct (mq_send_loop_ok s None t (mk_wait timeout 0) buffer wd Hok A Ht) as (p & m' & k' & E & G); [by rewrite Ef|done|].
      rewrite E. cbn [mbind result_bind]. by apply good_settle.
    + cbn [mbind result_bind]. apply good_settle. cbn [settle]. apply good_refused; [done|done|by apply full_act].
    + destruct (mq_send_loop_ok s None t (mk_wait timeout 0) buffer wd Hok A Ht) as (p & m' & k' & E & G); [done|done|].
      rewrite E. cbn [mbind result_bind]. by apply good_settle.
Qed.

Lemma mq_recv_ok s size timeout wd :
  mq_ok s wd -> 0 < size -> begins timeout wd ->
  step_ok s wd (recv_actions (default 0%nat (rt_current_thread (kern wd)))) (mq_run (Recv size timeout) wd).
Proof.
  intros Hok Hl Hb. destruct (begins_gate receives timeout wd Hb) as (t & Hc & Hn & A & Ht & Hd).
  unfold mq_run, current, recv_begin. rewrite Hc. cbn [mbind result_bind default].
  replace (size =? 0) with false by lia. cbn [negb rt_assert mbind result_bind].
  rewrite Hd. cbn [mbind result_bind]. unfold rt_thread_self. rewrite Hc.
  destruct ((entry (mq wd) =? 0) && (timeout =? 0)) eqn:Ec.
  - cbn [mbind result_bind]. apply good_settle. cbn [settle]. apply good_refused; [done|done|apply empty_act; [done|lia]].
  - destruct (mq_recv_loop_ok s None t (mk_wait timeout 0) size wd Hok A Ht) as (p & m' & k' & E & G); [cbn; lia|done|].
    rewrite E. cbn [mbind result_bind]. by apply good_settle.
Qed.

(** The operations keep the object. *)
Section Same.
Implicit Types (m : rt_messagequeue) (k : kernel) (i : nat).

Lemma set_next_same i p m m' : set_next i p m = Ok m' -> same_mq m m'.
Proof. unfold set_next. intros (? & _ & (? & _ & [= <-])%bind_Ok)%bind_Ok. done. Qed.
Lemma set_payload_same i b m m' : set_payload i b m = Ok m' -> same_mq m m'.
Proof. unfold set_payload. intros (? & _ & (? & _ & (? & _ & [= <-])%bind_Ok)%bind_Ok)%bind_Ok. done. Qed.
Lemma count_in_same m k r m' k' : count_in m k = Ok (r, m', k') -> same_mq m m'.
Proof.
  unfold count_in. destruct (_ <? _); [|by intros [= _ <- _]]. by intros (? & _ & [= _ <- _])%bind_Ok.
Qed.
Lemma recv_free_same i m k r m' k' : recv_free i m k = Ok (r, m', k') -> same_mq m m'.
Proof.
  unfold recv_free, push_free. intros (m1 & (m2 & E & [= <-])%bind_Ok & (? & _ & [= _ <- _])%bind_Ok)%bind_Ok.
  by apply set_next_same in E.
Qed.
Lemma send_link_same i m k r m' k' : send_link i m k = Ok (r, m', k') -> same_mq m m'.
Proof.
  unfold send_link. intros (m1 & E & E')%bind_Ok. apply count_in_same in E'.
  assert (same_mq m m1) as S by (destruct (msg_queue_tail m); [by apply set_next_same in E|by injection E as <-]).
  etrans; [exact S|]. etrans; [|exact E']. by destruct (msg_queue_head _).
Qed.
Lemma urgent_link_same i m k r m' k' : urgent_link i m k = Ok (r, m', k') -> same_mq m m'.
Proof.
  unfold urgent_link. intros (m1 & E & E')%bind_Ok. apply count_in_same in E'. apply set_next_same in E.
  etrans; [exact E|]. etrans; [|exact E']. by destruct (msg_queue_tail _).
Qed.

(** The two ways to fill a block and to link it. *)
Definition fill (u : bool) (b : list Z) i m : result rt_messagequeue :=
  if u then set_payload i b m else send_fill b i m.
Definition link (u : bool) i m k : result (Z * rt_messagequeue * kernel) :=
  if u then urgent_link i m k else send_link i m k.

Lemma inv_fill_any u s m k cs extra free queue i b :
  mq_inv s m k cs (i :: extra) free queue -> Z.of_nat (length b) <= msg_size m ->
  exists m', fill u b i m = Ok m' /\ same_mq m m' /\ mq_inv s m' k cs (i :: extra) free queue /\
    b `prefix_of` text m' i /\ (u = false -> next <$> msg_pool m' !! i = Some None).
Proof.
  intros I Hb. destruct u; cbn [fill].
  - destruct (inv_payload _ _ _ _ _ _ _ _ b I Hb) as (m' & E & I' & Hp & _). exists m'. split_and!; try done.
    by apply set_payload_same in E.
  - destruct (inv_fill _ _ _ _ _ _ _ _ b I Hb) as (m' & E & I' & Hp & Hx). exists m'. split_and!; try done.
    unfold send_fill in E. apply bind_Ok in E as (m1 & E1%set_next_same & E2%set_payload_same). by etrans.
Qed.

Lemma inv_link_any u s m k cs extra free queue i b :
  mq_inv s m k cs (i :: extra) free queue -> b `prefix_of` text m i ->
  (u = false -> next <$> msg_pool m !! i = Some None) ->
  exists m' k' queue', link u i m k = Ok (RT_EOK, m', k') /\ same_mq m m' /\
    mq_inv (mk_state (if u then b :: sent s else sent s ++ [b]) (busy s - 1) (hand s)) m' k' cs extra free queue'.
Proof.
  intros I Hb Hx. destruct u; cbn [link].
  - destruct (inv_urgent_link _ _ _ _ _ _ _ _ b I Hb) as (m' & k' & E & I'). exists m', k', (i :: queue).
    split_and!; try done. by apply urgent_link_same in E.
  - destruct (inv_send_link _ _ _ _ _ _ _ _ b I Hb (Hx eq_refl)) as (m' & k' & E & I'). exists m', k', (queue ++ [i]).
    split_and!; try done. by apply send_link_same in E.
Qed.
End Same.

(** A call that does not wait: a begin without a time limit is that of [rt_mq_urgent]. *)
Lemma send_begin_now b m k :
  send_begin b 0 m k = '(p, m) ← urgent_begin b m; Ok (p, m, k).
Proof.
  unfold send_begin, urgent_begin. destruct (rt_assert _); cbn [mbind result_bind]; [|done].
  destruct (_ <? _); [done|]. unfold send_loop. destruct (msg_queue_free m) as [i|]; [|done].
  by destruct (get_next m i).
Qed.
Definition send_now (u : bool) (b : list Z) (m : rt_messagequeue) (k : kernel)
  : result (progress * rt_messagequeue * kernel) :=
  '(p, m) ← urgent_begin b m;
  match p with
  | Holds i => m ← fill u b i m; '(err, m, k) ← link u i m k; Ok (Done err, m, k)
  | _ => Ok (p, m, k)
  end.
Lemma rt_mq_send_now b m k : rt_mq_send b m k = send_now false b m k.
Proof.
  unfold rt_mq_send, rt_mq_send_wait, send_now. rewrite send_begin_now.
  by destruct (urgent_begin b m) as [[[] ]|].
Qed.

Lemma urgent_begin_ok s wd b :
  mq_ok s wd -> 0 < Z.of_nat (length b) ->
  (exists err, urgent_begin b (mq wd) = Ok (Done err, mq wd) /\ err <> RT_EOK /\
     act_all (max_msgs (mq wd)) (msg_size (mq wd)) s (send_actions b (Answer err)) = Some s) \/
  (exists i m' free queue, urgent_begin b (mq wd) = Ok (Holds i, m') /\ same_mq (mq wd) m' /\
     Z.of_nat (length b) <= msg_size (mq wd) /\
     act (max_msgs (mq wd)) (msg_size (mq wd)) s Reserve = Some (mk_state (sent s) (busy s + 1) (hand s)) /\
     mq_inv (mk_state (sent s) (busy s + 1) (hand s)) m' (kern wd) (calls wd) [i] free queue).
Proof.
  intros Hok Hl. unfold urgent_begin. replace (Z.of_nat (length b) =? 0) with false by lia.
  cbn [negb rt_assert mbind result_bind]. destruct (Z.ltb_spec (msg_size (mq wd)) (Z.of_nat (length b))) as [Hlt|Hge].
  - left. eexists. split_and!; [done|done|]. by apply toolong_act.
  - destruct (msg_queue_free (mq wd)) as [i|] eqn:Ef.
    + right. destruct Hok as (free & queue & I). pose proof (inv_blocks _ _ _ _ _ _ _ I) as Hb.
      pose proof (wf_free _ _ _ _ (iv_wf _ _ _ _ _ _ _ I)) as C. rewrite Ef in C. destruct free as [|j free]; [done|].
      destruct C as [[= <-] _]. destruct (inv_reserve _ _ _ _ _ _ _ _ None I) as (_ & p & Ep & I'); [by intros ?|].
      rewrite Ep. cbn [mbind result_bind]. exists i, (with_free p (mq wd)), free, queue. split_and!; try done.
      cbn in *. by replace (_ <? _) with true by lia.
    + left. eexists. split_and!; [done|done|by apply full_act].
Qed.

Lemma mq_urgent_ok s b wd :
  mq_ok s wd -> 0 < Z.of_nat (length b) -> begins 0 wd ->
  step_ok s wd (send_actions b) (mq_run (Urgent b) wd).
Proof.
  intros Hok Hl Hb. destruct (begins_gate sends 0 wd Hb) as (t & Hc & Hn & _).
  unfold mq_run, current. rewrite Hc. cbn [mbind result_bind].
  destruct (urgent_begin_ok s wd b Hok Hl) as [(err & E & _ & Ha)|(i & m' & free & queue & E & Sm & Hs & Ha & I)];
    rewrite E; cbn [mbind result_bind]; apply good_settle; cbn [settle].
  - by apply good_refused.
  - split; [done|]. eexists. split; [cbn [send_actions act_all]; rewrite Ha; done|].
    exists free, queue. cbn. apply (inv_close _ _ _ _ _ _ _ t _ i I); [done|done|]. split; [by intros w|].
    destruct Sm as (_ & -> & _). done.
Qed.

Lemma send_now_ok u s b wd :
  mq_ok s wd -> 0 < Z.of_nat (length b) ->
  exists err m' k', send_now u b (mq wd) (kern wd) = Ok (Done err, m', k') /\
    good s wd (send_now_actions u b (Answer err)) (mk_world m' k' (calls wd)).
Proof.
  intros Hok Hl. unfold send_now.
  destruct (urgent_begin_ok s wd b Hok Hl) as [(err & E & He & Ha)|(i & m' & free & queue & E & Sm & Hs & Ha & I)];
    rewrite E; cbn [mbind result_bind].
  - eexists _, _, _. split; [done|]. split; [done|]. exists s. split; [|by destruct wd].
    unfold send_now_actions. by apply Z.eqb_neq in He as ->.
  - destruct (inv_fill_any u _ _ _ _ _ _ _ _ b I) as (m2 & E2 & S2 & I2 & Hp & Hx); [by destruct Sm as (_ & -> & _)|].
    rewrite E2. cbn [mbind result_bind]. destruct (inv_link_any u _ _ _ _ _ _ _ _ b I2 Hp Hx) as (m3 & k3 & q3 & E3 & S3 & I3).
    rewrite E3. cbn [mbind result_bind]. eexists _, _, _. split; [done|].
    split; [cbn; etrans; [exact Sm|]; by etrans|]. eexists. split; [|by exists free, q3].
    cbn [send_now_actions]. rewrite Z.eqb_refl. cbn [act_all]. rewrite Ha. cbn.
    pose proof (iv_busy _ _ _ _ _ _ _ I) as Hbz. cbn in Hbz. by replace (0 <? _) with true by lia.
Qed.

(** ** The next section of a call *)

(** The wait ended with an error. *)
Lemma mq_give_up_ok s wd t c :
  mq_ok s wd -> calls wd !! t = Some c -> sends c \/ receives c ->
  status (thread (kern wd) t) = RT_THREAD_RUNNING -> error (thread (kern wd) t) <> RT_EOK ->
  good s wd [GivesUp] (mk_world (mq wd) (kern wd) (delete t (calls wd))).
Proof.
  intros (free & queue & I) Hl Hsr Hs He. pose proof I as [H C F Q W N Rs Rr S B Cs].
  assert (awake (kern wd) t -> False) as Ha by (by intros []).
  assert (runnable (thread (kern wd) t)) as Hr by by right.
  split; [done|]. exists s. split; [done|]. exists free, queue. cbn.
  assert (block_of c = []) as Eb by (destruct Hsr; [by apply sends_block|by apply receives_block]).
  assert (room sends (suspend_sender_thread (mq wd)) (Z.of_nat (length free)) (delete t (calls wd)) (kern wd) /\
          room receives (mq_queue (mq wd)) (Z.of_nat (length queue)) (delete t (calls wd)) (kern wd)) as [Rs' Rr'].
  { destruct Hsr.
    - eapply (leaves sends receives mq_sends_receives); try done; by intros c' Hc'; simplify_eq.
    - apply and_comm. eapply (leaves receives sends mq_receives_sends); try done; by intros c' Hc'; simplify_eq. }
  apply (inv_gates s _ (kern wd) (kern wd) (calls wd)); try done.
  - apply held_drop. by intros c' Hc'; simplify_eq.
  - intros j c' [_ E]%lookup_delete_Some. by apply Cs.
Qed.

(** The thread [t] in the call [c] runs. *)
Record continues (t : nat) (c : mq_call) (wd : world) : Prop := {
  ct_current : rt_current_thread (kern wd) = Some t;
  ct_call : calls wd !! t = Some c;
  ct_running : status (thread (kern wd) t) = RT_THREAD_RUNNING;
  ct_time w : wait_of c = Some w -> 0 < w_timeout w -> u32 (rt_tick (timers (kern wd)) - w_tick_delta w) < half }.

Lemma continues_gate P t c w s wd :
  mq_ok s wd -> continues t c wd -> P c -> wait_of c = Some w -> error (thread (kern wd) t) = RT_EOK ->
  at_gate P (Some t) t wd /\ w_timeout (time_left w (kern wd)) < half.
Proof.
  intros (free & queue & I) [Hc Hl Hs Hd] Hp Hw He. split.
  - split; [done|done|]. by split_and!; [..|exists c].
  - apply time_left_bound; [|by apply Hd]. destruct (iv_calls _ _ _ _ _ _ _ I t c Hl) as [Ht _]. by apply Ht.
Qed.

Lemma continue_send_ok s b w t wd :
  mq_ok s wd -> continues t (Sending b w) wd -> error (thread (kern wd) t) = RT_EOK ->
  step_ok s wd (send_actions b) (continue t (Sending b w) (mq wd) (kern wd) (calls wd)).
Proof.
  intros Hok Hc He. destruct (continues_gate sends _ _ w s wd Hok Hc Logic.I eq_refl He) as [A Ht].
  assert (Z.of_nat (length b) <= msg_size (mq wd)) as Hb.
  { destruct Hok as (free & queue & I). by destruct (iv_calls _ _ _ _ _ _ _ I t _ (ct_call _ _ _ Hc)). }
  cbn [continue]. unfold send_again. rewrite He, Z.eqb_refl. cbn [negb].
  destruct (mq_send_loop_ok s (Some t) t _ b wd Hok A Ht) as (p & m' & k' & E & G); [done|done|].
  rewrite E. cbn [mbind result_bind]. by apply good_settle.
Qed.

Lemma continue_recv_ok s size w t wd :
  mq_ok s wd -> continues t (Receiving size w) wd -> error (thread (kern wd) t) = RT_EOK ->
  step_ok s wd (recv_actions t) (continue t (Receiving size w) (mq wd) (kern wd) (calls wd)).
Proof.
  intros Hok Hc He. destruct (continues_gate receives _ _ w s wd Hok Hc Logic.I eq_refl He) as [A Ht].
  assert (0 < size) as Hb.
  { destruct Hok as (free & queue & I). by destruct (iv_calls _ _ _ _ _ _ _ I t _ (ct_call _ _ _ Hc)). }
  cbn [continue]. unfold recv_again. rewrite He, Z.eqb_refl. cbn [negb].
  destruct (mq_recv_loop_ok s (Some t) t _ size wd Hok A Ht) as (p & m' & k' & E & G); [done|done|].
  rewrite E. cbn [mbind result_bind]. by apply good_settle.
Qed.

(** A call that holds a block: its invariant without it. *)
Lemma continues_open s t c i wd :
  mq_ok s wd -> continues t c wd -> block_of c = [i] ->
  call_ok (mq wd) (hand s) t c /\ delete t (calls wd) !! t = None /\
  exists free queue, mq_inv s (mq wd) (kern wd) (delete t (calls wd)) [i] free queue.
Proof.
  intros (free & queue & I) Hc Eb. split_and!.
  - apply (iv_calls _ _ _ _ _ _ _ I), Hc.
  - apply lookup_delete_eq.
  - exists free, queue. by apply (inv_open _ _ _ _ _ _ _ t c i I); [apply Hc|].
Qed.

Lemma continue_fill_ok s u b i t wd :
  mq_ok s wd -> continues t (Filling u b i) wd ->
  step_ok s wd (fun r => match r with Working => [] | _ => [Wrong] end)
    (continue t (Filling u b i) (mq wd) (kern wd) (calls wd)).
Proof.
  intros Hok Hc. destruct (continues_open s _ _ i wd Hok Hc eq_refl) as ([_ Hb] & Hn & free & queue & I).
  destruct (inv_fill_any u _ _ _ _ _ _ _ _ b I Hb) as (m' & E & Sm & I' & Hp & Hx). unfold fill in E.
  cbn [continue]. rewrite E. cbn [mbind result_bind]. eexists _, _. split; [done|]. split; [done|].
  exists s. split; [done|]. exists free, queue. cbn. rewrite <- insert_delete_eq.
  apply (inv_close _ _ _ _ _ _ _ t _ i I'); [done|done|]. by split; [intros w|].
Qed.

Lemma continue_link_ok s u b i t wd :
  mq_ok s wd -> continues t (Linking u b i) wd ->
  step_ok s wd (fun r => match r with Answer err => if err =? RT_EOK then [Enqueue u b] else [Wrong] | _ => [Wrong] end)
    (continue t (Linking u b i) (mq wd) (kern wd) (calls wd)).
Proof.
  intros Hok Hc. destruct (continues_open s _ _ i wd Hok Hc eq_refl) as ([_ [Hp Hx]] & Hn & free & queue & I).
  destruct (inv_link_any u _ _ _ _ _ _ _ _ b I Hp Hx) as (m' & k' & queue' & E & Sm & I'). unfold link in E.
  cbn [continue]. rewrite E. cbn [mbind result_bind]. eexists _, _. split; [done|]. split; [done|].
  eexists. split; [|by exists free, queue'].
  rewrite Z.eqb_refl. cbn. pose proof (iv_busy _ _ _ _ _ _ _ I) as Hbz. cbn in Hbz.
  by replace (0 <? _) with true by lia.
Qed.

Lemma deliver_act cap msize s who m b size :
  hand s !! who = Some m -> agrees m b = true -> Z.of_nat (length b) = Z.min size msize ->
  act cap msize s (Deliver who b size) = Some s.
Proof. intros E Ha El. cbn. rewrite E, Ha, El, Z.eqb_refl. done. Qed.

Lemma continue_copy_ok s size i t wd :
  mq_ok s wd -> continues t (Copying size i) wd ->
  step_ok s wd (fun r => match r with Copied b => [Deliver (Some t) b size] | _ => [Wrong] end)
    (continue t (Copying size i) (mq wd) (kern wd) (calls wd)).
Proof.
  intros Hok Hc. destruct (continues_open s _ _ i wd Hok Hc eq_refl) as ([_ (Hs & m & Eh & Hp)] & Hn & free & queue & I).
  destruct (inv_copy _ _ _ _ _ i m size (iv_wf _ _ _ _ _ _ _ I)) as (b & E & Ha & El); [by left|done|done|].
  cbn [continue]. rewrite E. cbn [mbind result_bind]. eexists _, _. split; [done|]. split; [done|].
  exists s. split; [cbn [act_all]; by rewrite (deliver_act _ _ _ _ m)|]. exists free, queue. cbn. rewrite <- insert_delete_eq.
  apply (inv_close _ _ _ _ _ _ _ t _ i I); [done|done|]. by split; [intros w|].
Qed.

Lemma act_all_cons cap msize s s' a l :
  act cap msize s a = Some s' -> act_all cap msize s (a :: l) = act_all cap msize s' l.
Proof. intros E. cbn [act_all]. by rewrite E. Qed.

Lemma release_act cap msize s who : 0 < busy s ->
  act_all cap msize s [Release who] = Some (mk_state (sent s) (busy s - 1) (delete who (hand s))).
Proof. intros H. cbn. by replace (0 <? _) with true by lia. Qed.

Lemma continue_free_ok s i t wd :
  mq_ok s wd -> continues t (Freeing i) wd ->
  step_ok s wd (fun r => match r with Answer err => if err =? RT_EOK then [Release (Some t)] else [Wrong] | _ => [Wrong] end)
    (continue t (Freeing i) (mq wd) (kern wd) (calls wd)).
Proof.
  intros Hok Hc. destruct (continues_open s _ _ i wd Hok Hc eq_refl) as (_ & Hn & free & queue & I).
  destruct (inv_release _ _ _ _ _ _ _ i (Some t) I) as (m' & k' & E & I'); [by intros ? [= <-]|].
  cbn [continue]. rewrite E. cbn [mbind result_bind]. eexists _, _. split; [done|].
  split; [by apply recv_free_same in E|]. eexists. split; [|by exists (i :: free), queue].
  rewrite Z.eqb_refl. apply release_act. pose proof (iv_busy _ _ _ _ _ _ _ I) as Hbz. cbn in Hbz. lia.
Qed.

Lemma step_ok_ext s wd acts acts' x :
  (forall r wd', x = Ok (r, wd') -> acts' r = acts r) -> step_ok s wd acts x -> step_ok s wd acts' x.
Proof. intros H (r & wd' & E & G). exists r, wd'. split; [done|]. by rewrite (H r wd'). Qed.

Lemma mq_continue_ok s wd :
  mq_ok s wd -> mq_enabled Continue wd -> step_ok s wd (actions Continue wd) (mq_run Continue wd).
Proof.
  intros Hok (t & c & Hc & Hl & Hs & Hd). unfold mq_run, current, actions. rewrite Hc. cbn [mbind result_bind].
  rewrite Hl. assert (continues t c wd) as Ct by by split. cbn [default]. change (id t) with t.
  destruct (Z.eqb_spec (error (thread (kern wd) t)) RT_EOK) as [He|He].
  - destruct c; eapply step_ok_ext; try (intros r wd' _; by rewrite Hl).
    + by apply continue_send_ok.
    + by apply continue_fill_ok.
    + by apply continue_link_ok.
    + by apply continue_recv_ok.
    + by apply continue_copy_ok.
    + by apply continue_free_ok.
  - apply Z.eqb_neq in He as Eb. destruct c; cbn [continue]; unfold send_again, recv_again; rewrite ?Eb; cbn [negb].
    + eexists _, _. split; [done|]. rewrite Hl, bool_decide_true by done.
      apply (mq_give_up_ok s wd t _ Hok Hl); [by left|done|done].
    + eapply step_ok_ext; [|by apply continue_fill_ok]. intros r wd' _. by rewrite Hl.
    + eapply step_ok_ext; [|by apply continue_link_ok]. intros r wd' _. by rewrite Hl.
    + eexists _, _. split; [done|]. rewrite Hl, bool_decide_true by done.
      apply (mq_give_up_ok s wd t _ Hok Hl); [by right|done|done].
    + eapply step_ok_ext; [|by apply continue_copy_ok]. intros r wd' _. by rewrite Hl.
    + eapply step_ok_ext; [|by apply continue_free_ok]. intros r wd' _. by rewrite Hl.
Qed.

(** ** Calls that run through, the reset, and the rest of the kernel *)

Lemma recv_now_ok s size wd :
  mq_ok s wd -> 0 < size ->
  step_ok s wd (actions (RecvNow size) wd) (mq_run (RecvNow size) wd).
Proof.
  intros Hok Hl. unfold mq_run, rt_mq_recv, recv_begin.
  replace (size =? 0) with false by lia. cbn [negb rt_assert mbind result_bind Z.eqb RT_DEBUG_SCHEDULER_AVAILABLE andb].
  destruct (Z.eqb_spec (entry (mq wd)) 0) as [E0|E0]; cbn [andb mbind result_bind].
  - eexists _, _. split; [done|]. split; [done|]. exists s. split; [by apply empty_act|]. by destruct wd.
  - destruct Hok as (free & queue & I). pose proof (iv_entry _ _ _ _ _ _ _ I) as En.
    pose proof (iv_sent _ _ _ _ _ _ _ I) as S. destruct queue as [|i queue]; [done|].
    destruct (sent s) as [|b l] eqn:Es; [by apply Forall2_nil_inv_r in S|].
    destruct (inv_dequeue _ _ _ _ _ _ _ _ None None b l I) as (Eh & m1 & E1 & En1 & I1 & Hp); [by intros ?|done|by intros ?|].
    destruct (wf_pop _ _ _ _ _ (iv_wf _ _ _ _ _ _ _ I)) as (_ & m1' & E1' & Sm & _).
    rewrite E1 in E1'. injection E1' as <-. unfold recv_loop. apply Z.eqb_neq in E0 as ->. rewrite Eh, E1.
    cbn [mbind result_bind]. replace (0 <? entry m1) with true by (rewrite En1, En; cbn; lia).
    set (m2 := with_entry _ m1) in *.
    destruct (inv_copy _ _ _ _ _ i b size (iv_wf _ _ _ _ _ _ _ I1)) as (bytes & E2 & Ha & El); [by left|done|done|].
    rewrite E2. cbn [mbind result_bind].
    destruct (inv_release _ _ _ _ _ _ _ i None I1) as (m3 & k3 & E3 & I3); [by intros ?|].
    rewrite E3. cbn [mbind result_bind]. eexists _, _. split; [done|]. cbn [actions]. rewrite Z.eqb_refl. split.
    { apply recv_free_same in E3. etrans; [exact Sm|exact E3]. }
    change (msg_size m2) with (msg_size m1) in El. pose proof Sm as (_ & Es1 & _). rewrite Es1 in El.
    eexists. split; [|by exists (i :: free), queue].
    rewrite (act_all_cons _ _ _ (mk_state l (busy s + 1) (<[None := b]> (hand s)))) by (cbn; by rewrite Es).
    rewrite (act_all_cons _ _ _ _ _ _ (deliver_act _ _ _ _ b bytes size (lookup_insert_eq _ _ _) Ha El)).
    apply release_act. cbn. pose proof (iv_busy _ _ _ _ _ _ _ I). lia.
Qed.

Lemma mq_reset_ok s wd : mq_ok s wd -> step_ok s wd (actions Reset wd) (mq_run Reset wd).
Proof.
  intros (free & queue & I). pose proof I as [H C F Q W N Rs Rr S B Cs]. unfold mq_run, rt_mq_control. rewrite Z.eqb_refl.
  destruct (resume_all_ok (mq_queue (mq wd)) _ H C (rm_head _ _ _ _ _ Rr)) as (k1 & E1 & H1 & C1 & M1 & S1).
  rewrite E1. cbn [mbind result_bind].
  destruct (resume_all_ok (suspend_sender_thread (mq wd)) k1 H1 C1) as (k2 & E2 & H2 & C2 & M2 & S2); [apply S1, Rs|].
  rewrite E2. cbn [mbind result_bind]. pose proof (wf_count _ _ _ _ W) as Hct.
  destruct (wf_drain _ _ _ _ (Datatypes.S (Z.to_nat (max_msgs (mq wd)))) W ltac:(lia)) as (m' & E3 & Sm & Hp & W').
  rewrite E3. cbn [mbind result_bind]. destruct (schedule_ok k2 H2 C2) as (k3 & E4 & H4 & F4).
  rewrite E4. cbn [mbind result_bind]. eexists _, _. split; [done|]. cbn [actions]. rewrite Z.eqb_refl.
  split; [exact Sm|]. eexists. split; [done|]. pose proof Sm as (Em1 & Em2 & Em3 & Em4).
  assert (shrinks k1 k3) as S3 by (etrans; [exact S2|by apply (schedule_evolves (R := shrinks))]).
  exists (rev queue ++ free), []. cbn.
  assert (mq_queue (with_entry 0 m') = mq_queue (mq wd)) as Eq by (unfold mq_queue; cbn; by rewrite Em1).
  split; cbn; rewrite ?Eq, ?Em4; try done.
  - by apply (sf_current _ _ F4).
  - unfold mq_flag in *. cbn. by rewrite Em1.
  - by destruct W'.
  - apply room_empty; [apply S3, S1, Rs|]. by rewrite (sf_waiting _ _ F4).
  - apply room_empty; [apply S3, S1, Rr|].
    destruct (S3 (mq_queue (mq wd))) as [Hs _]. rewrite M1 in Hs. by apply list_nil_subseteq in Hs.
  - intros t c Ec. apply (call_ok_keep (mq wd) _ (hand s)); [done| |done|by apply Cs].
    intros j Hj. cbn. apply Hp. by apply (held_apart _ _ _ _ _ _ _ t c j I).
Qed.

Lemma mq_other_ok s e wd :
  mq_ok s wd -> mq_enabled (Other e) wd -> step_ok s wd (fun _ => []) (mq_run (Other e) wd).
Proof.
  intros (free & queue & I) [He Ht]. pose proof I as [H C F Q W N Rs Rr S B Cs]. unfold mq_run.
  destruct (run_ok e (kern wd) H C He) as (k' & E & H' & C'). rewrite E. cbn [mbind result_bind].
  set (X := fun t => touched e (kern wd) = Some t).
  assert (evolves X (kern wd) k') as V by by eapply run_evolves; [|exact E].
  eexists _, _. split; [done|]. split; [done|]. exists s. split; [done|]. exists free, queue. cbn.
  apply (inv_gates s _ (kern wd) k' (calls wd)); try done; by apply (elsewhere _ X _ _ _ (kern wd)).
Qed.

Lemma mq_run_ok s e wd : mq_ok s wd -> mq_enabled e wd -> step_ok s wd (actions e wd) (mq_run e wd).
Proof.
  intros W He. destruct e as [b timeout|b|size timeout| |b|b|size| |e]; cbn [mq_enabled] in *.
  - destruct He. by apply mq_send_ok.
  - destruct He. by apply mq_urgent_ok.
  - destruct He. by apply (mq_recv_ok s size timeout wd).
  - by apply mq_continue_ok.
  - destruct (send_now_ok false s b wd W He) as (err & m' & k' & E & G). cbn [mq_run]. rewrite rt_mq_send_now, E.
    by eexists _, _.
  - destruct (send_now_ok true s b wd W He) as (err & m' & k' & E & G). cbn [mq_run].
    change (rt_mq_urgent b (mq wd) (kern wd)) with (send_now true b (mq wd) (kern wd)). rewrite E. by eexists _, _.
  - by apply recv_now_ok.
  - by apply mq_reset_ok.
  - by apply mq_other_ok.
Qed.

Lemma act_all_app cap msize s l1 l2 :
  act_all cap msize s (l1 ++ l2) = s ← act_all cap msize s l1; act_all cap msize s l2.
Proof.
  revert s. induction l1 as [|a l1 IH]; intros s; cbn [app act_all]; [done|].
  destruct (act cap msize s a); cbn [mbind option_bind]; [apply IH|done].
Qed.

Lemma mq_reachable_ok s0 w0 tr wd :
  mq_ok s0 w0 -> mq_reachable w0 tr wd -> good s0 w0 tr wd.
Proof.
  intros W0. induction 1 as [|tr e wd r wd' Hr IH He E].
  - split; [done|]. by exists s0.
  - destruct IH as (Sm & s & Ha & W). destruct (mq_run_ok s e wd W He) as (r1 & wd1 & E1 & S1 & s1 & Ha1 & W1).
    rewrite E in E1. injection E1 as <- <-. split; [by etrans|]. exists s1. split; [|done].
    rewrite act_all_app, Ha. cbn [mbind option_bind]. by destruct Sm as (_ & <- & <- & _).
Qed.

(** ** A new queue *)

(** The memory given to [rt_mq_init], as blocks: as many as the queue counts, each
    with room for a message. *)
Definition pool_ok (pool : list rt_mq_message) (m : rt_messagequeue) : Prop :=
  max_msgs m <= Z.of_nat (length pool) /\ Forall (fun b => Z.of_nat (length (payload b)) = msg_size m) pool.

Lemma init_free_same n t m m' : init_free n t m = Ok m' -> same_mq m m'.
Proof.
  revert t m. induction n as [|n IH]; intros t m; cbn [init_free]; [by intros [= <-]|].
  unfold push_free. intros (c & (d & Ed%set_next_same & [= <-])%bind_Ok & Eb%IH)%bind_Ok. by etrans.
Qed.

Lemma mq_init_ok q qs pool msize pool_size flag k m k' :
  kernel_ok k -> is_Some (rt_current_thread k) -> members (Waiting q) k = [] -> members (Waiting qs) k = [] ->
  q <> qs -> rt_mq_init q qs pool msize pool_size flag k = Ok (m, k') -> pool_ok pool m ->
  mq_ok (mk_state [] 0 ∅) (mk_world m k' ∅).
Proof.
  intros H C M1 M2 Hq E [Hl Hp]. unfold rt_mq_init in E. apply bind_Ok in E as ([] & Ef & E).
  unfold rt_assert in Ef. destruct (_ || _) eqn:Eo; [|done]. cbv zeta in E. apply bind_Ok in E as (m1 & E1 & [= -> <-]).
  set (sz := u16 (RT_ALIGN msize RT_ALIGN_SIZE)) in *. set (n := u16 (pool_size / _)) in *.
  pose proof (u16_range (RT_ALIGN msize RT_ALIGN_SIZE)). pose proof (u16_range (pool_size / (sz + SIZEOF_MQ_MESSAGE))).
  set (m0 := mk_mq _ pool sz _ _ _ _ _ _) in E1.
  assert (max_msgs m = n /\ msg_size m = sz) as [En Es].
  { by destruct (init_free_same _ _ _ _ E1) as (_ & -> & -> & _). }
  rewrite En in Hl. rewrite Es in Hp.
  destruct (wf_init (Z.to_nat n) 0 [] m0) as (m' & free & E' & (Em1 & Em2 & Em3 & Em4) & N & Hh & Ht & P & F & B); [|by intros ? ?%not_elem_of_nil|done|].
  { intros i Hi. destruct (lookup_lt_is_Some_2 pool i) as [b Eb]; [lia|]. exists b. split; [done|].
    rewrite Forall_lookup in Hp. by apply (Hp i). }
  rewrite E1 in E'. injection E' as <-.
  assert (members (Waiting qs) (new_head q k) = []) as M3 by (by rewrite new_head_members).
  exists free, []. split; cbn; try done; rewrite ?Em1, ?Em4; cbn.
  - by apply new_head_ok; [apply new_head_ok|].
  - unfold flag_ok, mq_flag. rewrite Em1. cbn. lia.
  - unfold mq_queue. rewrite Em1. cbn. congruence.
  - split; try done; rewrite ?Em2, ?Em3; cbn; try lia; try done.
    rewrite !app_nil_r. by rewrite B.
  - apply room_empty; [cbn; rewrite lookup_insert_eq; eauto|]. by rewrite new_head_members.
  - unfold mq_queue. rewrite Em1. cbn.
    apply room_empty; [cbn; rewrite lookup_insert_ne, lookup_insert_eq by congruence; eauto|].
    by rewrite !new_head_members.
Qed.

(** C28: a message queue is a bounded queue of whole messages.  After
    [rt_mq_init], however the sections of all calls by all threads are
    interleaved, with whatever time limits, wake-ups and other work of the kernel
    in between: every section ends without a fault, and every answer, and every
    copied message, is the one that a queue of that capacity gives when a message
    is queued as it is linked, and taken as it is unlinked.  At every point each
    block of the pool is in one place: free, queued (in order, with its message in
    it), or in the hands of one call. *)
Theorem msgqueue_refines_queue (q qs : nat) (pool : list rt_mq_message) (msize pool_size flag : Z)
    (k k0 : kernel) (m : rt_messagequeue) (tr : list action) (wd : world) (e : mq_event) :
  kernel_ok k -> is_Some (rt_current_thread k) ->
  members (Waiting q) k = [] -> members (Waiting qs) k = [] -> q <> qs ->
  rt_mq_init q qs pool msize pool_size flag k = Ok (m, k0) -> pool_ok pool m ->
  mq_reachable (mk_world m k0 ∅) tr wd -> mq_enabled e wd ->
  exists s, act_all (max_msgs m) (msg_size m) (mk_state [] 0 ∅) tr = Some s /\
    (exists free queue, chain (msg_pool (mq wd)) (msg_queue_free (mq wd)) free /\
       chain (msg_pool (mq wd)) (msg_queue_head (mq wd)) queue /\ Forall2 (holds (mq wd)) queue (sent s) /\
       free ++ queue ++ held (calls wd) ≡ₚ seq 0 (Z.to_nat (max_msgs m))) /\
    exists r wd' s', mq_run e wd = Ok (r, wd') /\
      act_all (max_msgs m) (msg_size m) s (actions e wd r) = Some s'.
Proof.
  intros H C M1 M2 Hq E Hp Hr He.
  pose proof (mq_init_ok q qs pool msize pool_size flag k m k0 H C M1 M2 Hq E Hp) as W0.
  destruct (mq_reachable_ok _ _ tr wd W0 Hr) as ((_ & S2 & S3 & _) & s & Ha & W). cbn in S2, S3, Ha.
  exists s. split; [done|]. split.
  - destruct W as (free & queue & [_ _ _ _ [F Q _ _ B _ _] _ _ _ S _ _]). rewrite S3 in B. by exists free, queue.
  - destruct (mq_run_ok s e wd W He) as (r & wd' & E' & _ & s' & Ha' & _). rewrite S2, S3 in Ha'. by exists r, wd', s'.
Qed.

(** C29: a message queue loses no wake-up.  At any point of such a run, when a
    thread waits for a message, at least as many woken receivers are still to run
    as there are messages; when a thread waits for room, at least as many woken
    senders as there are free blocks (those that are neither queued nor in the
    hands of a call). *)
Theorem msgqueue_no_lost_wakeup (q qs : nat) (pool : list rt_mq_message) (msize pool_size flag : Z)
    (k k0 : kernel) (m : rt_messagequeue) (tr : list action) (wd : world) :
  kernel_ok k -> is_Some (rt_current_thread k) ->
  members (Waiting q) k = [] -> members (Waiting qs) k = [] -> q <> qs ->
  rt_mq_init q qs pool msize pool_size flag k = Ok (m, k0) -> pool_ok pool m ->
  mq_reachable (mk_world m k0 ∅) tr wd ->
  (members (Waiting (mq_queue (mq wd))) (kern wd) <> [] ->
   entry (mq wd) <= Z.of_nat (size (woken receives (calls wd) (kern wd)))) /\
  (members (Waiting (suspend_sender_thread (mq wd))) (kern wd) <> [] ->
   max_msgs m - entry (mq wd) - Z.of_nat (length (held (calls wd)))
     <= Z.of_nat (size (woken sends (calls wd) (kern wd)))).
Proof.
  intros H C M1 M2 Hq E Hp Hr.
  pose proof (mq_init_ok q qs pool msize pool_size flag k m k0 H C M1 M2 Hq E Hp) as W0.
  destruct (mq_reachable_ok _ _ tr wd W0 Hr) as ((_ & _ & S3 & _) & s & _ & free & queue & I). cbn in S3.
  pose proof (wf_count _ _ _ _ (iv_wf _ _ _ _ _ _ _ I)) as Hct. rewrite <- S3.
  destruct I as [_ _ _ _ _ N Rs Rr _ _ _]. rewrite N. split; intros Hne.
  - by apply (rm_wakeup _ _ _ _ _ Rr).
  - pose proof (rm_wakeup _ _ _ _ _ Rs Hne). cbn in Hct. lia.
Qed.

(** ** Concrete runs *)

Lemma mq_next w0 tr w e r l :
  mq_reachable w0 tr w -> mq_enabled e w -> answer_of (mq_run e w) = Some r -> actions e w r = l ->
  mq_reachable w0 (tr ++ l) (state_of w (mq_run e w)).
Proof. intros Hr He Ha <-. apply (mq_step w0 tr e w r); [done|done|by apply ran]. Qed.

(** Two blocks of four bytes.  Thread 2 waits for a message; thread 3 takes a
    block and fills it. *)
Definition queue_pool : list rt_mq_message := replicate 2 (mk_msg None [0; 0; 0; 0]).
Definition queue0 : rt_messagequeue :=
  mk_mq (mk_ipc 7 RT_IPC_FLAG_FIFO) [mk_msg None [0; 0; 0; 0]; mk_msg (Some 0%nat) [0; 0; 0; 0]]
    4 2 0 None None (Some 1%nat) 8.
Definition sends0 : world := mk_world queue0 car_post ∅.
Definition sends1 : world := state_of sends0 (mq_run (Recv 4 5) sends0).
Definition sends2 : world := state_of sends1 (mq_run (Send [11; 12; 13] 0) sends1).
Definition sends3 : world := state_of sends2 (mq_run Continue sends2).

Lemma sends1_reached : mq_reachable sends0 [Empty] sends1.
Proof.
  apply (mq_next sends0 [] sends0 (Recv 4 5) Blocked [Empty]); [apply mq_start| |by vm_compute|by vm_compute].
  split; [done|]. split; [right; split; [|by unfold half]|exists 2%nat; by vm_compute].
  split; [by vm_compute|]. split; [by vm_compute|]. exists 2%nat. by vm_compute.
Qed.
Lemma sends2_reached : mq_reachable sends0 [Empty; Reserve] sends2.
Proof.
  apply (mq_next sends0 [Empty] sends1 (Send [11; 12; 13] 0) Working [Reserve]);
    [apply sends1_reached| |by vm_compute|by vm_compute].
  split; [done|]. split; [by left|]. exists 3%nat. by vm_compute.
Qed.
Lemma sends3_reached : mq_reachable sends0 [Empty; Reserve] sends3.
Proof.
  apply (mq_next sends0 [Empty; Reserve] sends2 Continue Working []);
    [apply sends2_reached| |by vm_compute|by vm_compute].
  exists 3%nat, (Filling false [11; 12; 13] 1). split; [by vm_compute|]. split; [by vm_compute|].
  split; [by vm_compute|]. by intros w.
Qed.
Lemma queue_pool_ok : pool_ok queue_pool queue0.
Proof. split; [done|]. by repeat constructor. Qed.

(** The message is linked; the thread that waits is woken. *)
Lemma msgqueue_refines_queue_witness :
  exists s, act_all 2 4 (mk_state [] 0 ∅) [Empty; Reserve] = Some s /\
    (exists free queue, chain (msg_pool (mq sends3)) (msg_queue_free (mq sends3)) free /\
       chain (msg_pool (mq sends3)) (msg_queue_head (mq sends3)) queue /\ Forall2 (holds (mq sends3)) queue (sent s) /\
       free ++ queue ++ held (calls sends3) ≡ₚ seq 0 2) /\
    exists r wd' s', mq_run Continue sends3 = Ok (r, wd') /\ act_all 2 4 s (actions Continue sends3 r) = Some s'.
Proof.
  apply (msgqueue_refines_queue 7 8 queue_pool 4 16 RT_IPC_FLAG_FIFO car car_post queue0 [Empty; Reserve] sends3 Continue);
    [apply car_ok|apply car_ok|by vm_compute|by vm_compute|done|by vm_compute|apply queue_pool_ok|exact sends3_reached|].
  exists 3%nat, (Linking false [11; 12; 13] 1). split; [by vm_compute|]. split; [by vm_compute|].
  split; [by vm_compute|]. by intros w.
Defined.

Lemma msgqueue_no_lost_wakeup_witness :
  members (Waiting (mq_queue (mq sends3))) (kern sends3) = [2%nat] /\
  (members (Waiting (mq_queue (mq sends3))) (kern sends3) <> [] ->
   entry (mq sends3) <= Z.of_nat (size (woken receives (calls sends3) (kern sends3)))) /\
  (members (Waiting (suspend_sender_thread (mq sends3))) (kern sends3) <> [] ->
   2 - entry (mq sends3) - Z.of_nat (length (held (calls sends3)))
     <= Z.of_nat (size (woken sends (calls sends3) (kern sends3)))).
Proof.
  split; [by vm_compute|].
  apply (msgqueue_no_lost_wakeup 7 8 queue_pool 4 16 RT_IPC_FLAG_FIFO car car_post queue0 [Empty; Reserve] sends3);
    [apply car_ok|apply car_ok|by vm_compute|by vm_compute|done|by vm_compute|apply queue_pool_ok|exact sends3_reached].
Defined.
End MsgQueue.
