(* ===== verification/MemPool.v ===== *)
(** * Memory pools (rt-thread/src/mempool.c)

    A pool is an array of equal blocks; the first word of a block links it in the
    list of free blocks, or points back to its pool while a caller has it.  A
    thread that finds no block waits, the one that came last first in line.

    The theorems are about every interleaving of allocations and releases, from
    threads and from interrupt handlers, with anything else the kernel does. *)

From stdpp Require Import functions fin_maps gmap sets.
From S2P Require Import Prelude Timer Thread Evolve Ipc Channel.

Module MemPool.
Import Timer Thread Evolve Ipc Channel.

(** ** The error number (kservice.c) *)

(** The error number of the current thread, or the global one; the state is the
    global one and the kernel. *)
Definition rt_get_errno (g : Z) (k : kernel) : Z :=
  if negb (rt_interrupt_get_nest k =? 0) then g
  else match rt_thread_self k with None => g | Some tid => error (thread k tid) end.
Definition rt_set_errno (err g : Z) (k : kernel) : Z * kernel :=
  if negb (rt_interrupt_get_nest k =? 0) then (err, k)
  else match rt_thread_self k with
       | None => (err, k)
       | Some tid => (g, with_thread (set_error err) tid k)
       end.

(** ** The pool *)

(** The first word of a block: a pointer to a block, that is its number, or to
    the pool. *)
Inductive word := Next (p : option nat) | Pool.
Definition SIZEOF_POINTER : Z := 4.

(** [struct rt_mempool], with the memory at [start_address] as blocks; a suspend
    list is the address of its head. *)
Record rt_mempool := mk_mp {
  blocks : list word; mp_size : Z; block_size : Z; block_list : option nat;
  block_total_count : Z; block_free_count : Z; suspend_thread : nat }.
Definition set_blocks (l : list word) (mp : rt_mempool) : rt_mempool :=
  mk_mp l (mp_size mp) (block_size mp) (block_list mp) (block_total_count mp) (block_free_count mp) (suspend_thread mp).
Definition set_list (p : option nat) (mp : rt_mempool) : rt_mempool :=
  mk_mp (blocks mp) (mp_size mp) (block_size mp) p (block_total_count mp) (block_free_count mp) (suspend_thread mp).
Definition set_free (n : Z) (mp : rt_mempool) : rt_mempool :=
  mk_mp (blocks mp) (mp_size mp) (block_size mp) (block_list mp) (block_total_count mp) (u32 n) (suspend_thread mp).

(** The loop of [rt_mp_init], [n] blocks from [offset] on. *)
Fixpoint link_blocks (n : nat) (offset : Z) (mem : list word) : result (list word) :=
  match n with
  | O => Ok mem
  | S n =>
      mem ← aset mem offset (Next (Some (Z.to_nat (offset + 1))));
      link_blocks n (offset + 1) mem
  end.

(** [q] is the address of the list head in the object, [mem] the memory at
    [start], as far as it holds whole blocks.  C leaves a division by zero
    undefined. *)
Definition rt_mp_init (q : nat) (mem : list word) (size bsize : Z) (k : kernel)
  : result (rt_mempool * kernel) :=
  _ ← rt_assert ((0 <? size) && (0 <? bsize));
  let size := RT_ALIGN_DOWN size RT_ALIGN_SIZE in
  let bsize := RT_ALIGN bsize RT_ALIGN_SIZE in
  let step := u32 (bsize + SIZEOF_POINTER) in
  if step =? 0 then Fault Overflow
  else
    let total := size / step in
    mem ← link_blocks (Z.to_nat total) 0 mem;
    mem ← aset mem (total - 1) (Next None);
    Ok (mk_mp mem size bsize (Some 0%nat) total total q, new_head q k).

(** The loop is that of [_ipc_list_resume_all]. *)
Definition rt_mp_detach (mp : rt_mempool) (k : kernel) : result kernel :=
  _ipc_list_resume_all (suspend_thread mp) k.

(** From "memory block is available" to the end of [rt_mp_alloc]. *)
Definition take_block (mp : rt_mempool) : result (nat * rt_mempool) :=
  let mp := set_free (block_free_count mp - 1) mp in
  match block_list mp with
  | None => Fault AssertFail
  | Some i =>
      w ← aget (blocks mp) (Z.of_nat i);
      match w with
      | Pool => Fault OutOfBounds
      | Next p =>
          mem ← aset (blocks mp) (Z.of_nat i) Pool;
          Ok (i, set_blocks mem (set_list p mp))
      end
  end.

(** "need suspend thread", up to the [rt_schedule]. *)
Definition mp_wait (q t : nat) (w : wait) (k : kernel) : result (wait * kernel) :=
  '(_, k) ← rt_thread_suspend t k;
  k ← rt_list_insert_after (Waiting q) t k;
  let w := if 0 <? w_timeout w then mk_wait (w_timeout w) (rt_tick_get (timers k)) else w in
  k ← (if 0 <? w_timeout w then start_thread_timer t (w_timeout w) k else Ok k);
  k ← rt_schedule k;
  Ok (w, k).

(** A block or [RT_NULL]; or the call waits. *)
Inductive outcome := Return (block : option nat) | Wait (w : wait).

(** The loop of [rt_mp_alloc], from its head to the next switch or to the end. *)
Definition alloc_loop (thread : option nat) (w : wait) (mp : rt_mempool) (g : Z) (k : kernel)
  : result (outcome * rt_mempool * Z * kernel) :=
  if block_free_count mp =? 0 then
    if w_timeout w =? 0 then
      let '(g, k) := rt_set_errno (- RT_ETIMEOUT) g k in
      Ok (Return None, mp, g, k)
    else
      _ ← RT_DEBUG_NOT_IN_INTERRUPT k;
      t ← the_thread thread;
      let k := with_thread (set_error RT_EOK) t k in
      '(w, k) ← mp_wait (suspend_thread mp) t w k;
      Ok (Wait w, mp, g, k)
  else
    '(i, mp) ← take_block mp;
    Ok (Return (Some i), mp, g, k).

Definition rt_mp_alloc (time : Z) (mp : rt_mempool) (g : Z) (k : kernel)
  : result (outcome * rt_mempool * Z * kernel) :=
  alloc_loop (rt_thread_self k) (mk_wait time 0) mp g k.
(** The thread [t] of the call runs again. *)
Definition rt_mp_alloc_rest (t : nat) (w : wait) (mp : rt_mempool) (g : Z) (k : kernel)
  : result (outcome * rt_mempool * Z * kernel) :=
  if negb (error (thread k t) =? RT_EOK) then Ok (Return None, mp, g, k)
  else alloc_loop (Some t) (time_left w k) mp g k.

(** A block whose first word is not a pointer to a pool was not allocated: what
    the code takes for the pool is a block. *)
Definition rt_mp_free (block : option nat) (mp : rt_mempool) (k : kernel) : result (rt_mempool * kernel) :=
  match block with
  | None => Ok (mp, k)
  | Some i =>
      w ← aget (blocks mp) (Z.of_nat i);
      match w with
      | Next _ => Fault OutOfBounds
      | Pool =>
          let mp := set_free (block_free_count mp + 1) mp in
          mem ← aset (blocks mp) (Z.of_nat i) (Next (block_list mp));
          let mp := set_list (Some i) (set_blocks mem mp) in
          e ← rt_list_isempty (Waiting (suspend_thread mp)) k;
          if negb e then
            l ← get_list (Waiting (suspend_thread mp)) k;
            match l with
            | [] => Fault OutOfBounds
            | t :: _ =>
                let k := with_thread (set_error RT_EOK) t k in
                '(_, k) ← rt_thread_resume t k;
                k ← rt_schedule k;
                Ok (mp, k)
            end
          else Ok (mp, k)
      end
  end.

(** ** The pool among threads *)

(** The threads inside [rt_mp_alloc], and the blocks that callers have. *)
Record world := mk_world {
  mp : rt_mempool; errno : Z; kern : kernel; calls : gmap nat wait; taken : gset nat }.

(** An allocation by the current thread, the rest of its call, an allocation in
    an interrupt handler, a release, the begin and the end of an interrupt, or
    anything else in the kernel. *)
Inductive mp_event :=
| Alloc (time : Z) | Continue | AllocIrq | Free (i : nat) | Enter | Leave | Other (e : event).
Inductive reply := Got (i : nat) | Null | Blocked | Done.

Definition settle (o self : option nat) (r : outcome) (mp : rt_mempool) (g : Z) (k : kernel)
    (cs : gmap nat wait) (b : gset nat) : reply * world :=
  match r, self with
  | Return (Some i), _ => (Got i, mk_world mp g k (drop_call o cs) ({[i]} ∪ b))
  | Return None, _ => (Null, mk_world mp g k (drop_call o cs) b)
  | Wait w, Some t => (Blocked, mk_world mp g k (<[t := w]> cs) b)
  | Wait w, None => (Blocked, mk_world mp g k cs b)
  end.

Definition mp_run (e : mp_event) (wd : world) : result (reply * world) :=
  let m := mp wd in let g := errno wd in let k := kern wd in let cs := calls wd in let b := taken wd in
  match e with
  | Alloc time =>
      '(r, m, g, k') ← rt_mp_alloc time m g k; Ok (settle None (rt_thread_self k) r m g k' cs b)
  | AllocIrq =>
      '(r, m, g, k') ← rt_mp_alloc 0 m g k; Ok (settle None (rt_thread_self k) r m g k' cs b)
  | Continue =>
      t ← current k;
      match cs !! t with
      | Some w => '(r, m, g, k') ← rt_mp_alloc_rest t w m g k; Ok (settle (Some t) (Some t) r m g k' cs b)
      | None => Fault OutOfBounds
      end
  | Free i => '(m, k) ← rt_mp_free (Some i) m k; Ok (Done, mk_world m g k cs (b ∖ {[i]}))
  | Enter => Ok (Done, mk_world m g (rt_interrupt_enter k) cs b)
  | Leave => Ok (Done, mk_world m g (rt_interrupt_leave k) cs b)
  | Other e => k ← run e k; Ok (Done, mk_world m g k cs b)
  end.

(** Who may do what: a block is released by one who has it; a thread in a call
    does nothing else, nobody closes it, and when it waits with a time limit it
    runs again before the clock has gone half way round. *)
Definition mp_enabled (e : mp_event) (wd : world) : Prop :=
  match e with
  | Alloc time =>
      rt_interrupt_nest (kern wd) = 0 /\ time < half /\ (time = 0 \/ rt_scheduler_lock_nest (kern wd) = 0) /\
      exists t, rt_current_thread (kern wd) = Some t /\ status (thread (kern wd) t) = RT_THREAD_RUNNING /\
                calls wd !! t = None
  | Continue =>
      rt_interrupt_nest (kern wd) = 0 /\
      exists t w, rt_current_thread (kern wd) = Some t /\ status (thread (kern wd) t) = RT_THREAD_RUNNING /\
                  calls wd !! t = Some w /\
                  (0 < w_timeout w -> u32 (rt_tick (timers (kern wd)) - w_tick_delta w) < half)
  | AllocIrq => rt_interrupt_nest (kern wd) <> 0
  | Free i => i ∈ taken wd
  | Enter | Leave => True
  | Other e => enabled e (kern wd) /\ forall t, touched e (kern wd) = Some t -> calls wd !! t = None
  end.

Inductive mp_reachable (w0 : world) : world -> Prop :=
| mp_start : mp_reachable w0 w0
| mp_step e w r w' : mp_reachable w0 w -> mp_enabled e w -> mp_run e w = Ok (r, w') -> mp_reachable w0 w'.

(** What the answers mean: a block that nobody has, or none when all blocks are
    taken (or the wait ended with an error), and then the error number says so. *)
Definition answers (e : mp_event) (wd : world) (r : reply) (wd' : world) : Prop :=
  let total := block_total_count (mp wd) in
  let all_taken := Z.of_nat (size (taken wd)) = total in
  let woken_with_error := exists t, rt_current_thread (kern wd) = Some t /\ e = Continue /\ error (thread (kern wd) t) <> RT_EOK in
  match r with
  | Got i => i ∉ taken wd /\ Z.of_nat i < total /\ taken wd' = {[i]} ∪ taken wd
  | Null => (all_taken \/ woken_with_error) /\ taken wd' = taken wd /\ rt_get_errno (errno wd') (kern wd') <> RT_EOK
  | Blocked => all_taken /\ taken wd' = taken wd
  | Done => taken wd' = match e with Free i => taken wd ∖ {[i]} | _ => taken wd end
  end.

(** ** The invariant *)

(** [p] points to the first block of the linked list [l]. *)
Fixpoint chain (mem : list word) (p : option nat) (l : list nat) : Prop :=
  match l with
  | [] => p = None
  | i :: l => p = Some i /\ exists q, mem !! i = Some (Next q) /\ chain mem q l
  end.

Lemma mp_chain_insert mem p l i w : i ∉ l -> chain (<[i := w]> mem) p l <-> chain mem p l.
Proof.
  revert p. induction l as [|j l IH]; intros p Hi; [done|]. cbn. apply not_elem_of_cons in Hi as [Hj Hi].
  rewrite list_lookup_insert_ne by done. by setoid_rewrite IH.
Qed.

(** Every block is free, or a caller has it. *)
Record pool_wf (mp : rt_mempool) (free : list nat) (b : gset nat) : Prop := {
  pw_free : chain (blocks mp) (block_list mp) free;
  pw_count : block_free_count mp = Z.of_nat (length free);
  pw_total : 0 <= block_total_count mp < 2 ^ 32;
  pw_memory : block_total_count mp <= Z.of_nat (length (blocks mp));
  pw_blocks : free ++ elements b ≡ₚ seq 0 (Z.to_nat (block_total_count mp));
  pw_taken i : i ∈ b -> blocks mp !! i = Some Pool }.

Definition same_pool (mp mp' : rt_mempool) : Prop :=
  block_total_count mp' = block_total_count mp /\ suspend_thread mp' = suspend_thread mp.

Section Pool.
Implicit Types (mp : rt_mempool) (i : nat) (free : list nat) (b : gset nat).

Lemma pw_all mp free b :
  pool_wf mp free b -> Z.of_nat (length free) + Z.of_nat (size b) = block_total_count mp.
Proof.
  intros W. pose proof (Permutation_length (pw_blocks _ _ _ W)) as H. pose proof (pw_total _ _ _ W).
  rewrite length_app, length_seq in H. change (size b) with (length (elements b)). lia.
Qed.

Lemma pw_block mp free b i :
  pool_wf mp free b -> i ∈ free ++ elements b -> Z.of_nat i < block_total_count mp /\ (i < length (blocks mp))%nat.
Proof.
  intros W Hi. rewrite (pw_blocks _ _ _ W), elem_of_seq in Hi.
  pose proof (pw_memory _ _ _ W). lia.
Qed.

Lemma pw_apart mp free b i : pool_wf mp free b -> i ∈ free -> i ∉ b.
Proof.
  intros W Hf Hb. pose proof (NoDup_seq 0 (Z.to_nat (block_total_count mp))) as Hn.
  rewrite <- (pw_blocks _ _ _ W) in Hn. apply NoDup_app in Hn as (_ & Hd & _).
  by apply (Hd i Hf), elem_of_elements.
Qed.

Lemma take_block_ok mp free b i :
  pool_wf mp (i :: free) b ->
  exists mp', take_block mp = Ok (i, mp') /\ same_pool mp mp' /\ pool_wf mp' free ({[i]} ∪ b) /\
    i ∉ b /\ Z.of_nat i < block_total_count mp.
Proof.
  intros W. pose proof (pw_apart _ _ _ i W ltac:(by left)) as Hi.
  destruct (pw_block _ _ _ i W ltac:(by left)) as [Ht Hl].
  pose proof (pw_all _ _ _ W) as Ha. pose proof (NoDup_seq 0 (Z.to_nat (block_total_count mp))) as Hn.
  rewrite <- (pw_blocks _ _ _ W) in Hn. cbn in Hn. apply NoDup_cons in Hn as [Hn _].
  destruct W as [F C T M B P]. cbn in F. destruct F as [El (p & Ew & F)].
  unfold take_block. cbn [block_list set_free blocks]. rewrite El, (aget_Ok _ _ (Next p)) by (rewrite ?Nat2Z.id; done || lia).
  cbn [mbind result_bind]. rewrite aset_Ok by lia. cbn [mbind result_bind]. rewrite Nat2Z.id. eexists. split; [done|].
  split; [done|]. split; [|done]. split; cbn; try done.
  - apply mp_chain_insert; [|done]. intros Hin. apply Hn, elem_of_app. by left.
  - rewrite C. cbn [length] in *. rewrite u32_small; lia.
  - by rewrite length_insert.
  - rewrite elements_union_singleton, <- B by done. by rewrite <- Permutation_middle.
  - intros j [->%elem_of_singleton|Hj]%elem_of_union; [by apply list_lookup_insert_eq|].
    rewrite list_lookup_insert_ne by set_solver. by apply P.
Qed.

(** The block of [rt_mp_free]. *)
Lemma give_block_ok mp free b i :
  pool_wf mp free b -> i ∈ b ->
  aget (blocks mp) (Z.of_nat i) = Ok Pool /\
  exists mem, aset (blocks mp) (Z.of_nat i) (Next (block_list mp)) = Ok mem /\
    let mp1 := set_free (block_free_count mp + 1) mp in
    let mp' := set_list (Some i) (set_blocks mem mp1) in
    same_pool mp mp' /\ pool_wf mp' (i :: free) (b ∖ {[i]}).
Proof.
  intros W Hi. assert (i ∉ free) as Hf by (intros Hin; by apply (pw_apart _ _ _ i W)).
  destruct (pw_block _ _ _ i W) as [Ht Hl]; [apply elem_of_app; right; by apply elem_of_elements|].
  pose proof (pw_all _ _ _ W) as Ha. destruct W as [F C T M B P]. split.
  { apply aget_Ok; [lia|]. rewrite Nat2Z.id. by apply P. }
  rewrite aset_Ok by lia. rewrite Nat2Z.id. eexists. split; [done|]. cbv zeta. split; [done|].
  assert (b = {[i]} ∪ b ∖ {[i]}) as Eb by (apply union_difference_singleton_L, Hi).
  assert (1 <= size b)%nat by (rewrite Eb, size_union, size_singleton by set_solver; lia).
  split; cbn; try done.
  - split; [done|]. eexists. split; [by apply list_lookup_insert_eq|]. by apply mp_chain_insert.
  - rewrite C, u32_small; lia.
  - by rewrite length_insert.
  - rewrite <- B, Permutation_middle. apply Permutation_app; [done|].
    rewrite Eb at 2. by rewrite elements_union_singleton by set_solver.
  - intros j [Hj Hne]%elem_of_difference. rewrite list_lookup_insert_ne by set_solver. by apply P.
Qed.
End Pool.

(** Every call in [calls] waits. *)
Definition waits (_ : wait) : Prop := True.
#[export] Instance waits_dec w : Decision (waits w).
Proof. by left. Defined.

Record mp_inv (wd : world) (free : list nat) : Prop := {
  iv_kernel : kernel_ok (kern wd);
  iv_current : is_Some (rt_current_thread (kern wd));
  iv_pool : pool_wf (mp wd) free (taken wd);
  iv_room : room waits (suspend_thread (mp wd)) (Z.of_nat (length free)) (calls wd) (kern wd);
  iv_times t w : calls wd !! t = Some w -> w_timeout w < half }.
Definition mp_ok (wd : world) : Prop := exists free, mp_inv wd free.

(** What a step leaves. *)
Definition good (e : mp_event) (wd : world) (r : reply) (wd' : world) : Prop :=
  mp_ok wd' /\ same_pool (mp wd) (mp wd') /\ answers e wd r wd'.
Definition step_ok (e : mp_event) (wd : world) : Prop :=
  exists r wd', mp_run e wd = Ok (r, wd') /\ good e wd r wd'.

(** The one who asks: no thread in a call, or the thread that runs again. *)
Definition asks (o : option nat) (wd : world) : Prop :=
  forall t, o = Some t -> awake (kern wd) t /\ exists w, calls wd !! t = Some w.

Lemma mp_drop_call_times o (cs : gmap nat wait) t w :
  (forall t w, cs !! t = Some w -> w_timeout w < half) -> drop_call o cs !! t = Some w -> w_timeout w < half.
Proof. intros H. destruct o as [t'|]; cbn; [|apply H]. intros [_ E]%lookup_delete_Some. by apply (H t). Qed.

Lemma mp_good_settle e wd o self r m g k cs b :
  (let '(rep, wd') := settle o self r m g k cs b in good e wd rep wd') ->
  exists rep wd', Ok (settle o self r m g k cs b) = Ok (rep, wd') /\ good e wd rep wd'.
Proof. destruct (settle _ _ _ _ _ _ _ _) as [rep wd']. intros G. by exists rep, wd'. Qed.

Section Steps.
Context (wd : world) (free : list nat) (I : mp_inv wd free).
Implicit Types (e : mp_event) (w : wait) (o : option nat).

Lemma no_block : block_free_count (mp wd) = 0 <-> free = [].
Proof. rewrite (pw_count _ _ _ (iv_pool _ _ I)). destruct free; cbn; split; try done; lia. Qed.

Lemma all_taken : free = [] -> Z.of_nat (size (taken wd)) = block_total_count (mp wd).
Proof. intros E. pose proof (pw_all _ _ _ (iv_pool _ _ I)) as H. rewrite E in H. cbn in H. lia. Qed.

(** A block is there. *)
Lemma alloc_take_ok e o self th w :
  asks o wd -> free <> [] ->
  exists i m, alloc_loop th w (mp wd) (errno wd) (kern wd) = Ok (Return (Some i), m, errno wd, kern wd) /\
    let '(rep, wd') := settle o self (Return (Some i)) m (errno wd) (kern wd) (calls wd) (taken wd) in good e wd rep wd'.
Proof.
  intros Ho Hf. unfold alloc_loop. destruct (Z.eqb_spec (block_free_count (mp wd)) 0) as [E|_]; [by apply no_block in E|].
  destruct I as [H C W R T]. destruct free as [|i free']; [done|].
  destruct (take_block_ok _ _ _ _ W) as (m & E & Sm & W' & Hn & Ht). rewrite E. cbn [mbind result_bind].
  exists i, m. split; [done|]. cbn [settle]. split; [|done]. exists free'. split; cbn; try done.
  - destruct Sm as [_ ->]. replace (Z.of_nat (length free')) with (Z.of_nat (length (i :: free')) - 1) by (cbn; lia).
    destruct o as [t|]; cbn [drop_call].
    + destruct (Ho t eq_refl) as (Ha & w' & Ec). apply (room_taken waits _ _ (calls wd) _ _ t w'); try done.
      intros j Hj. by apply lookup_delete_ne.
    + apply (room_update waits _ (Z.of_nat (length (i :: free'))) _ (calls wd) _ (kern wd) (kern wd)); try done. lia.
  - intros t w'. by apply mp_drop_call_times.
Qed.

(** The call of thread [t], or of no thread in a call, ends without a block. *)
Lemma null_ok e o self t g k' :
  (free = [] \/ e = Continue /\ error (thread (kern wd) t) <> RT_EOK) ->
  rt_current_thread (kern wd) = Some t -> runnable (thread (kern wd) t) ->
  drop_call o (calls wd) = delete t (calls wd) ->
  kernel_ok k' -> rt_current_thread k' = Some t -> lists k' = lists (kern wd) ->
  (forall j, j <> t -> thread k' j = thread (kern wd) j) -> rt_get_errno g k' <> RT_EOK ->
  let '(rep, wd') := settle o self (Return None) (mp wd) g k' (calls wd) (taken wd) in good e wd rep wd'.
Proof.
  intros Hw Hc Hr Ho H' C' L' J' Hg. destruct I as [H C W R T]. cbn [settle]. split_and!.
  - exists free. split; cbn; [done|by rewrite C'|done| |intros j w; by apply mp_drop_call_times].
    rewrite Ho. apply (room_left waits _ _ (calls wd) (kern wd) k' t); try done.
    intros c _ _ [He _]. destruct Hw as [->|[_ Hw]]; [done|by destruct (Hw He)].
  - done.
  - cbn. split; [|done]. destruct Hw as [Hf|[-> He]]; [left; by apply all_taken|right; by exists t].
Qed.

(** No block is free, and the caller does not wait. *)
Lemma errno_thread_ok e o self t :
  free = [] -> rt_interrupt_nest (kern wd) = 0 -> rt_current_thread (kern wd) = Some t -> runnable (thread (kern wd) t) ->
  drop_call o (calls wd) = delete t (calls wd) ->
  let '(g, k') := rt_set_errno (- RT_ETIMEOUT) (errno wd) (kern wd) in
  let '(rep, wd') := settle o self (Return None) (mp wd) g k' (calls wd) (taken wd) in good e wd rep wd'.
Proof.
  intros Hf Hn Hc Hr Ho. unfold rt_set_errno, rt_interrupt_get_nest, rt_thread_self. rewrite Hn, Hc. cbn [Z.eqb negb].
  apply (null_ok e o self t); try done; [by left|apply change_plain_ok; [done|apply I]| |].
  - intros j Hj. by rewrite thread_with_thread, decide_False.
  - unfold rt_get_errno, rt_interrupt_get_nest, rt_thread_self. set (k' := with_thread _ t _).
    rewrite (Hn : rt_interrupt_nest k' = 0), (Hc : rt_current_thread k' = Some t). cbn [Z.eqb negb].
    unfold k'. by rewrite thread_with_thread, decide_True.
Qed.

Lemma mp_errno_irq_ok e self :
  free = [] -> rt_interrupt_nest (kern wd) <> 0 ->
  let '(g, k') := rt_set_errno (- RT_ETIMEOUT) (errno wd) (kern wd) in
  let '(rep, wd') := settle None self (Return None) (mp wd) g k' (calls wd) (taken wd) in good e wd rep wd'.
Proof.
  intros Hf Hn. unfold rt_set_errno, rt_interrupt_get_nest. apply Z.eqb_neq in Hn as E. rewrite E. cbn [negb settle].
  split_and!; [|done|].
  - exists free. by destruct I.
  - cbn. split; [left; by apply all_taken|]. split; [done|]. unfold rt_get_errno, rt_interrupt_get_nest. by rewrite E.
Qed.

(** The thread goes to the head of the suspend list. *)
Lemma mp_wait_ok t w k :
  kernel_ok k -> rt_current_thread k = Some t -> status (thread k t) = RT_THREAD_RUNNING ->
  is_Some (lists k !! Waiting (suspend_thread (mp wd))) -> w_timeout w < half ->
  exists w' k', mp_wait (suspend_thread (mp wd)) t w k = Ok (w', k') /\ w_timeout w' = w_timeout w /\
    parked (suspend_thread (mp wd)) t k k'.
Proof.
  intros H Hc Hs Hq Ht. set (q := suspend_thread (mp wd)) in *. unfold mp_wait.
  destruct (suspend_link_spec (cons t) q t k H Hc Hs (fun l => reflexivity _) Hq)
    as (k1 & k2 & E1 & E2 & H2 & C2 & S2 & _ & D2 & J2 & M2 & O2).
  rewrite E1. cbn [mbind result_bind]. unfold rt_list_insert_after. rewrite E2. cbn [mbind result_bind].
  cbv zeta. set (w' := if 0 <? w_timeout w then _ else w).
  assert (w_timeout w' = w_timeout w) as Ew by (unfold w'; by destruct (0 <? w_timeout w)). rewrite Ew.
  destruct (sleep_spec t (w_timeout w) k2 H2 C2 S2 Ht) as (k' & E & H' & C' & S' & D & M & J & _).
  destruct (if 0 <? w_timeout w then start_thread_timer t (w_timeout w) k2 else Ok k2) as [k3|] eqn:E3; [|done].
  cbn [mbind result_bind] in E |- *. rewrite E. cbn [mbind result_bind]. exists w', k'. split; [done|]. split; [done|].
  split; try done.
  - by rewrite M, M2.
  - intros q' Hq'. apply (schedule_evolves (R := shrinks) _ _ E).
    assert (is_Some (lists k2 !! Waiting q')) as Hk2.
    { apply (link_heads _ _ _ _ _ _ E2). by apply (suspend_evolves (R := shrinks) _ _ _ _ Logic.I E1). }
    destruct (0 <? w_timeout w); [by apply (start_thread_timer_evolves (R := shrinks) _ _ _ _ E3)|by injection E3 as <-].
  - intros q' Hq'. rewrite M, O2; [done|congruence].
  - intros j. destruct (data_eq _ _ (D j)) as (-> & _). by destruct (data_eq _ _ (D2 j)) as (-> & _).
  - intros j Hj Hr. apply J. by rewrite J2.
Qed.

(** The caller finds no block and waits. *)
Lemma alloc_wait_ok e o w t :
  free = [] -> rt_interrupt_nest (kern wd) = 0 -> rt_current_thread (kern wd) = Some t ->
  status (thread (kern wd) t) = RT_THREAD_RUNNING -> w_timeout w <> 0 -> w_timeout w < half ->
  exists w' k', alloc_loop (Some t) w (mp wd) (errno wd) (kern wd) = Ok (Wait w', mp wd, errno wd, k') /\
    let '(rep, wd') := settle o (Some t) (Wait w') (mp wd) (errno wd) k' (calls wd) (taken wd) in good e wd rep wd'.
Proof.
  intros Hf Hn Hc Hs Hw Ht. unfold alloc_loop. apply no_block in Hf as E0. rewrite E0. cbn [Z.eqb].
  apply Z.eqb_neq in Hw as ->. unfold RT_DEBUG_NOT_IN_INTERRUPT, rt_interrupt_get_nest. rewrite Hn. cbn [Z.eqb rt_assert mbind result_bind the_thread].
  pose proof (all_taken Hf) as Hall. destruct I as [H C W R T]. set (k1 := with_thread (set_error RT_EOK) t (kern wd)).
  assert (thread k1 t = set_error RT_EOK (thread (kern wd) t)) as Et by (unfold k1; by rewrite thread_with_thread, decide_True).
  assert (kernel_ok k1) as H1 by by apply change_plain_ok.
  assert (room waits (suspend_thread (mp wd)) (Z.of_nat (length free)) (calls wd) k1) as R1.
  { apply (room_update waits _ _ _ _ _ _ k1 R); [|done|done]. apply ev_thread. by right. }
  destruct (mp_wait_ok t w k1 H1 Hc) as (w' & k' & E & Ew & Pk); [by rewrite Et|apply R1|done|].
  rewrite E. cbn [mbind result_bind]. exists w', k'. split; [done|]. cbn [settle]. split_and!; [|done|by split].
  exists free. split; cbn; [apply Pk|apply Pk|done| |].
  - apply (parked_here waits _ _ _ k1); try done; by rewrite ?Et, ?Hf.
  - intros j c [[<- <-]|[_ Ec]]%lookup_insert_Some; [by rewrite Ew|by apply (T j)].
Qed.

(** An allocation of thread [t], at the head of the loop. *)
Lemma mp_alloc_loop_ok e o w t :
  rt_interrupt_nest (kern wd) = 0 -> rt_current_thread (kern wd) = Some t ->
  status (thread (kern wd) t) = RT_THREAD_RUNNING -> w_timeout w < half ->
  (o = None -> calls wd !! t = None) -> (forall t', o = Some t' -> t' = t /\ error (thread (kern wd) t) = RT_EOK /\ exists w, calls wd !! t = Some w) ->
  exists r m g k', alloc_loop (Some t) w (mp wd) (errno wd) (kern wd) = Ok (r, m, g, k') /\
    let '(rep, wd') := settle o (Some t) r m g k' (calls wd) (taken wd) in good e wd rep wd'.
Proof.
  intros Hn Hc Hs Ht Ho1 Ho2. assert (runnable (thread (kern wd) t)) as Hr by by right.
  destruct (decide (free = [])) as [Hf|Hf].
  - destruct (Z.eq_dec (w_timeout w) 0) as [E0|E0].
    + unfold alloc_loop. rewrite (proj2 no_block Hf). rewrite E0. cbn [Z.eqb].
      assert (drop_call o (calls wd) = delete t (calls wd)) as Ed.
      { destruct o as [t'|]; [by destruct (Ho2 t' eq_refl) as [-> _]|]. cbn. by rewrite delete_id by auto. }
      pose proof (errno_thread_ok e o (Some t) t Hf Hn Hc Hr Ed) as G.
      destruct (rt_set_errno _ _ _) as [g k']. by eexists _, _, _, _.
    + destruct (alloc_wait_ok e o w t Hf Hn Hc Hs E0 Ht) as (w' & k' & E & G). by eexists _, _, _, _.
  - destruct (alloc_take_ok e o (Some t) (Some t) w) as (i & m & E & G); [|done|by eexists _, _, _, _].
    intros t' Et. destruct (Ho2 t' Et) as (-> & He & Hw). by split; [split|].
Qed.

Lemma mp_alloc_ok time : mp_enabled (Alloc time) wd -> step_ok (Alloc time) wd.
Proof.
  intros (Hn & Ht & _ & t & Hc & Hs & Hl). unfold step_ok, mp_run, rt_mp_alloc, rt_thread_self. rewrite Hc.
  destruct (mp_alloc_loop_ok (Alloc time) None (mk_wait time 0) t Hn Hc Hs Ht) as (r & m & g & k' & E & G); [done|done|].
  rewrite E. cbn [mbind result_bind]. by apply mp_good_settle.
Qed.

Lemma mp_alloc_irq_ok : mp_enabled AllocIrq wd -> step_ok AllocIrq wd.
Proof.
  intros Hn. unfold step_ok, mp_run, rt_mp_alloc. destruct (decide (free = [])) as [Hf|Hf].
  - unfold alloc_loop. rewrite (proj2 no_block Hf). cbn [Z.eqb w_timeout].
    pose proof (mp_errno_irq_ok AllocIrq (rt_thread_self (kern wd)) Hf Hn) as G.
    destruct (rt_set_errno _ _ _) as [g k']. cbn [mbind result_bind]. by apply mp_good_settle.
  - destruct (alloc_take_ok AllocIrq None (rt_thread_self (kern wd)) (rt_thread_self (kern wd)) (mk_wait 0 0)) as (i & m & E & G);
      [by intros t|done|]. rewrite E. cbn [mbind result_bind]. by apply mp_good_settle.
Qed.

Lemma mp_continue_ok : mp_enabled Continue wd -> step_ok Continue wd.
Proof.
  intros (Hn & t & w & Hc & Hs & Hl & Hd). unfold step_ok, mp_run, current. rewrite Hc. cbn [mbind result_bind]. rewrite Hl.
  unfold rt_mp_alloc_rest. destruct (Z.eqb_spec (error (thread (kern wd) t)) RT_EOK) as [He|He]; cbn [negb].
  - destruct (mp_alloc_loop_ok Continue (Some t) (time_left w (kern wd)) t Hn Hc Hs) as (r & m & g & k' & E & G); try done.
    + apply time_left_bound; [by apply (iv_times _ _ I t)|done].
    + intros t' [= <-]. by split_and!; [..|exists w].
    + rewrite E. cbn [mbind result_bind]. by apply mp_good_settle.
  - cbn [mbind result_bind]. apply mp_good_settle. apply (null_ok Continue (Some t) (Some t) t); try done; [by right|by right|apply I|].
    unfold rt_get_errno, rt_interrupt_get_nest, rt_thread_self. rewrite Hn, Hc. done.
Qed.

Lemma mp_free_ok i : mp_enabled (Free i) wd -> step_ok (Free i) wd.
Proof.
  intros Hi. destruct I as [H C W R T]. unfold step_ok, mp_run, rt_mp_free.
  destruct (give_block_ok _ _ _ _ W Hi) as (E1 & mem & E2 & Sm & W'). rewrite E1. cbn [mbind result_bind].
  cbn [blocks block_list set_free]. rewrite E2. cbn [mbind result_bind]. cbv zeta in *. set (m := set_list _ _) in *.
  destruct Sm as [S1 S2]. rewrite S2. unfold rt_list_isempty. rewrite get_list_members by apply R. cbn [mbind result_bind].
  set (q := suspend_thread (mp wd)) in *.
  assert (forall k1 k', kernel_ok k1 -> is_Some (rt_current_thread k1) -> room waits q (Z.of_nat (length free)) (calls wd) k1 ->
    wake_first q k1 = Ok k' -> good (Free i) wd Done (mk_world m (errno wd) k' (calls wd) (taken wd ∖ {[i]}))) as G.
  { intros k1 k' H1 C1 R1 E.
    destruct (room_given waits q _ (calls wd) (calls wd) k1 H1 C1 R1) as (k2 & E' & H2 & C2 & _ & R2); [done|].
    rewrite E in E'. injection E' as <-. split_and!; [|by split|done]. exists (i :: free). split; cbn; try done.
    by replace (Z.of_nat (Datatypes.S (length free))) with (Z.of_nat (length free) + 1) by lia. }
  unfold wake_first, rt_list_isempty in G. destruct (members (Waiting q) (kern wd)) as [|t l] eqn:El.
  - rewrite bool_decide_true by done. cbn [negb]. eexists _, _. split; [done|]. apply (G (kern wd)); try done.
    rewrite get_list_members, El by apply R. cbn [mbind result_bind]. by rewrite bool_decide_true.
  - rewrite bool_decide_false by done. cbn [negb].
    set (k1 := with_thread (set_error RT_EOK) t (kern wd)).
    assert (kernel_ok k1) as H1 by by apply change_plain_ok.
    assert (room waits q (Z.of_nat (length free)) (calls wd) k1) as R1.
    { apply (room_update waits _ _ _ _ _ _ k1 R); [|done|done]. apply ev_thread. by right. }
    assert (get_list (Waiting q) k1 = Ok (t :: l)) as El1 by (rewrite get_list_members by apply R1; by rewrite <- El).
    destruct (room_given waits q _ (calls wd) (calls wd) k1 H1 C R1) as (k' & Ek & _); [done|].
    specialize (G k1 k' H1 C R1). unfold wake_first, rt_list_isempty, _ipc_list_resume in Ek, G. rewrite El1 in Ek, G.
    cbn [mbind result_bind] in Ek, G. rewrite bool_decide_false in Ek, G by done. cbn [negb] in Ek, G.
    destruct (rt_thread_resume t k1) as [[r k2]|]; [|done]. cbn [mbind result_bind] in Ek, G |- *.
    rewrite Ek in G |- *. cbn [mbind result_bind]. eexists _, _. split; [done|]. by apply G.
Qed.

Lemma mp_irq_ok f e :
  (e = Enter /\ f = rt_interrupt_enter \/ e = Leave /\ f = rt_interrupt_leave) -> step_ok e wd.
Proof.
  intros He. destruct I as [H C W R T].
  assert (forall n, good e wd Done (mk_world (mp wd) (errno wd) (with_nest n (kern wd)) (calls wd) (taken wd))) as G.
  { intros n. split_and!; [|done|by destruct He as [[-> _]|[-> _]]]. exists free. split; try done; cbn; [by apply nest_ok|].
    apply (room_update waits _ _ _ _ _ _ _ R); [by apply ev_rest|done|done]. }
  destruct He as [[-> _]|[-> _]]; (eexists _, _; split; [done|]); apply G.
Qed.

Lemma mp_other_ok (e : event) : mp_enabled (Other e) wd -> step_ok (Other e) wd.
Proof.
  intros [He Ht]. destruct I as [H C W R T]. unfold step_ok, mp_run.
  destruct (run_ok e (kern wd) H C He) as (k' & E & H' & C'). rewrite E. cbn [mbind result_bind].
  set (X := fun t => touched e (kern wd) = Some t).
  assert (evolves X (kern wd) k') as V by by eapply run_evolves; [|exact E].
  eexists _, _. split; [done|]. split_and!; [|done|done].
  exists free. split; cbn; try done. by apply (elsewhere _ X _ _ _ (kern wd)).
Qed.
End Steps.

Lemma mp_run_ok e wd : mp_ok wd -> mp_enabled e wd -> step_ok e wd.
Proof.
  intros [free I]. destruct e.
  - by eapply mp_alloc_ok.
  - by eapply mp_continue_ok.
  - by eapply mp_alloc_irq_ok.
  - by eapply mp_free_ok.
  - intros _. by eapply mp_irq_ok; [exact I|left].
  - intros _. by eapply mp_irq_ok; [exact I|right].
  - by eapply mp_other_ok.
Qed.

Lemma mp_reachable_ok w0 wd :
  mp_ok w0 -> mp_reachable w0 wd -> mp_ok wd /\ same_pool (mp w0) (mp wd).
Proof.
  intros W0. induction 1 as [|e w r w' Hr (W & S1 & S2) He E]; [by split|].
  destruct (mp_run_ok e w W He) as (r1 & w1 & E1 & W1 & (S3 & S4) & _). rewrite E in E1. injection E1 as <- <-.
  split; [done|]. split; congruence.
Qed.

(** ** A new pool *)

Lemma link_blocks_spec n a mem :
  (a + n <= length mem)%nat ->
  exists mem', link_blocks n (Z.of_nat a) mem = Ok mem' /\ length mem' = length mem /\
    (forall i, (i < a)%nat -> mem' !! i = mem !! i) /\
    (forall i, (a <= i < a + n)%nat -> mem' !! i = Some (Next (Some (S i)))).
Proof.
  revert a mem. induction n as [|n IH]; intros a mem Hl; cbn [link_blocks].
  - exists mem. split_and!; [done|done|done|lia].
  - rewrite aset_Ok by lia. cbn [mbind result_bind]. rewrite Nat2Z.id.
    replace (Z.to_nat (Z.of_nat a + 1)) with (S a) by lia. replace (Z.of_nat a + 1) with (Z.of_nat (S a)) by lia.
    destruct (IH (S a) (<[a := Next (Some (S a))]> mem)) as (mem' & E & L & B & A); [rewrite length_insert; lia|].
    exists mem'. split_and!; [done|by rewrite L, length_insert| |].
    + intros i Hi. rewrite B by lia. by apply list_lookup_insert_ne; lia.
    + intros i Hi. destruct (decide (i = a)) as [->|Hne]; [|apply A; lia].
      rewrite B by lia. apply list_lookup_insert_eq. lia.
Qed.

Lemma chain_seq n a mem :
  (forall i, (a <= i < a + n)%nat -> mem !! i = Some (Next (Some (S i)))) -> mem !! (a + n)%nat = Some (Next None) ->
  chain mem (Some a) (seq a (S n)).
Proof.
  revert a. induction n as [|n IH]; intros a H Hl; cbn.
  - split; [done|]. exists None. by rewrite Nat.add_0_r in Hl.
  - split; [done|]. exists (Some (S a)). split; [apply H; lia|]. apply IH; [intros i Hi; apply H; lia|].
    by replace (S a + n)%nat with (a + S n)%nat by lia.
Qed.

(** A pool of at least one block, in memory that holds its blocks. *)
Lemma mp_init_spec q mem sz bsize k :
  0 < sz -> 0 < bsize ->
  let step := u32 (RT_ALIGN bsize RT_ALIGN_SIZE + SIZEOF_POINTER) in
  let total := RT_ALIGN_DOWN sz RT_ALIGN_SIZE / step in
  step <> 0 -> 1 <= total < 2 ^ 32 -> total <= Z.of_nat (length mem) ->
  exists m, rt_mp_init q mem sz bsize k = Ok (m, new_head q k) /\ block_total_count m = total /\
    suspend_thread m = q /\ pool_wf m (seq 0 (Z.to_nat total)) ∅.
Proof.
  intros Hs Hb step total Hst Ht Hm. unfold rt_mp_init.
  replace ((0 <? sz) && (0 <? bsize)) with true by lia. cbn [rt_assert mbind result_bind]. cbv zeta.
  fold step. fold total. apply Z.eqb_neq in Hst as ->.
  destruct (link_blocks_spec (Z.to_nat total) 0 mem ltac:(lia)) as (mem1 & E & L & _ & A). change (Z.of_nat 0) with 0 in E.
  rewrite E. cbn [mbind result_bind]. rewrite aset_Ok by lia. cbn [mbind result_bind].
  eexists. split; [done|]. split; [done|]. split; [done|].
  replace (Z.to_nat total) with (S (Z.to_nat (total - 1))) by lia. split; cbn [blocks block_list block_free_count block_total_count].
  - apply chain_seq.
    + intros i Hi. rewrite list_lookup_insert_ne by lia. apply A. lia.
    + apply list_lookup_insert_eq. lia.
  - rewrite length_seq. lia.
  - lia.
  - rewrite length_insert. lia.
  - rewrite elements_empty, app_nil_r. by replace (S (Z.to_nat (total - 1))) with (Z.to_nat total) by lia.
  - set_solver.
Qed.

(** The code does not check that there is a block: without one it writes before
    the start of the memory. *)
Lemma mp_init_no_block q mem sz bsize k :
  0 < sz -> 0 < bsize -> 0 <= RT_ALIGN_DOWN sz RT_ALIGN_SIZE < u32 (RT_ALIGN bsize RT_ALIGN_SIZE + SIZEOF_POINTER) ->
  rt_mp_init q mem sz bsize k = Fault OutOfBounds.
Proof.
  intros Hs Hb Ht. unfold rt_mp_init. replace ((0 <? sz) && (0 <? bsize)) with true by lia.
  cbn [rt_assert mbind result_bind]. cbv zeta. rewrite Z.div_small by done.
  replace (u32 _ =? 0) with false by lia. done.
Qed.

Lemma link_blocks_length n a mem mem' : link_blocks n a mem = Ok mem' -> length mem' = length mem.
Proof.
  revert a mem. induction n as [|n IH]; intros a mem; cbn [link_blocks]; [by intros [= <-]|].
  intros (mem1 & E1 & E2)%bind_Ok. apply IH in E2 as ->. unfold aset in E1. destruct (decide _); [|done].
  injection E1 as <-. by rewrite length_insert.
Qed.

(** So whenever [rt_mp_init] returns, there is a block. *)
Lemma mp_init_ok q mem sz bsize g k k0 m :
  kernel_ok k -> is_Some (rt_current_thread k) -> members (Waiting q) k = [] -> 0 < sz < 2 ^ 32 ->
  rt_mp_init q mem sz bsize k = Ok (m, k0) -> mp_ok (mk_world m g k0 ∅ ∅) /\ suspend_thread m = q.
Proof.
  intros H C M Hs E. set (step := u32 (RT_ALIGN bsize RT_ALIGN_SIZE + SIZEOF_POINTER)).
  set (total := RT_ALIGN_DOWN sz RT_ALIGN_SIZE / step).
  assert (0 < sz /\ 0 < bsize /\ step <> 0 /\ 1 <= total < 2 ^ 32 /\ total <= Z.of_nat (length mem)) as (H1 & H2 & H3 & H4 & H5).
  { unfold rt_mp_init in E. destruct ((0 <? sz) && (0 <? bsize)) eqn:Ea; [|done]. cbn [rt_assert mbind result_bind] in E.
    cbv zeta in E. fold step in E. destruct (Z.eqb_spec step 0) as [|Hst]; [done|]. fold total in E.
    apply bind_Ok in E as (mem1 & E1%link_blocks_length & (mem2 & E2 & _)%bind_Ok).
    unfold aset in E2. destruct (decide _) as [Hr|]; [|done]. rewrite E1 in Hr.
    assert (0 <= step < 4294967296) as Hsr by apply u32_range.
    assert (RT_ALIGN_DOWN sz RT_ALIGN_SIZE <= sz) as Hd by (rewrite RT_ALIGN_DOWN_4; pose proof (Z.mod_pos_bound sz 4); lia).
    assert (0 <= RT_ALIGN_DOWN sz RT_ALIGN_SIZE) as Hd0 by (rewrite RT_ALIGN_DOWN_4; pose proof (Z.mod_le sz 4); lia).
    assert (total <= sz) as Hts by (apply Z.div_le_upper_bound; [lia|nia]).
    split_and!; lia. }
  destruct (mp_init_spec q mem sz bsize k H1 H2 H3 H4 H5) as (m' & E' & _ & Eq & W).
  rewrite E in E'. injection E' as <- ->. split; [|done]. eexists. split; cbn; [by apply new_head_ok|done|exact W| |done].
  rewrite Eq. apply room_empty; [cbn; rewrite lookup_insert_eq; eauto|]. by rewrite new_head_members.
Qed.

(** C30: every answer of a memory pool is right, and says so.  After
    [rt_mp_init], whatever allocations and releases threads and interrupt handlers
    make, whenever threads wake, time out or are preempted: every call ends
    without a fault or waits; an allocation gets a block of the pool that nobody
    has; it gets none, or waits, only when every block is taken (or its wait ended
    with an error), and then [rt_get_errno] is not [RT_EOK]. *)
Theorem mempool_answers (q : nat) (mem : list word) (sz bsize g : Z) (k k0 : kernel) (m : rt_mempool)
    (wd : world) (e : mp_event) :
  kernel_ok k -> is_Some (rt_current_thread k) -> members (Waiting q) k = [] -> 0 < sz < 2 ^ 32 ->
  rt_mp_init q mem sz bsize k = Ok (m, k0) ->
  mp_reachable (mk_world m g k0 ∅ ∅) wd -> mp_enabled e wd ->
  exists r wd', mp_run e wd = Ok (r, wd') /\ answers e wd r wd'.
Proof.
  intros H C M Hs E Hr He. destruct (mp_init_ok q mem sz bsize g k k0 m H C M Hs E) as [W0 _].
  destruct (mp_reachable_ok _ wd W0 Hr) as [W _]. destruct (mp_run_ok e wd W He) as (r & wd' & E' & _ & _ & A). eauto.
Qed.

(** C31: a memory pool is well formed in every reachable state.  The list of
    free blocks is linked through their first words and does not run in a circle;
    it and the blocks that callers have are together the blocks of the pool, each
    once; the counter counts the free blocks; a block in use points to its pool.
    And no wake-up is lost: while a thread waits, at least as many woken threads
    are still to run as there are free blocks. *)
Theorem mempool_well_formed (q : nat) (mem : list word) (sz bsize g : Z) (k k0 : kernel) (m : rt_mempool)
    (wd : world) :
  kernel_ok k -> is_Some (rt_current_thread k) -> members (Waiting q) k = [] -> 0 < sz < 2 ^ 32 ->
  rt_mp_init q mem sz bsize k = Ok (m, k0) -> mp_reachable (mk_world m g k0 ∅ ∅) wd ->
  exists free, chain (blocks (mp wd)) (block_list (mp wd)) free /\
    free ++ elements (taken wd) ≡ₚ seq 0 (Z.to_nat (block_total_count m)) /\
    block_free_count (mp wd) = Z.of_nat (length free) /\
    (forall i, i ∈ taken wd -> blocks (mp wd) !! i = Some Pool) /\
    (members (Waiting q) (kern wd) <> [] ->
     block_free_count (mp wd) <= Z.of_nat (size (woken waits (calls wd) (kern wd)))).
Proof.
  intros H C M Hs E Hr. destruct (mp_init_ok q mem sz bsize g k k0 m H C M Hs E) as [W0 Eq].
  destruct (mp_reachable_ok _ wd W0 Hr) as ((free & I) & S1 & S2). cbn in S1, S2. rewrite Eq in S2.
  destruct I as [_ _ [F N _ _ B P] R _]. rewrite S1 in B. rewrite S2 in R. exists free. split_and!; try done.
  intros Hne. rewrite N. by apply (rm_wakeup _ _ _ _ _ R).
Qed.

(** ** Concrete runs *)

(** A pool of two blocks of 8 bytes in 24 bytes. *)
Definition pool_mem : list word := [Next None; Next None].
Definition pool_two : rt_mempool := mk_mp [Next (Some 1%nat); Next None] 24 8 (Some 0%nat) 2 2 7.
Definition pool0 : world := mk_world pool_two 0 (new_head 7 car) ∅ ∅.
(** Thread 2 takes both blocks, and waits for a third; thread 3 runs. *)
Definition pool1 : world := state_of pool0 (mp_run (Alloc 0) pool0).
Definition pool2 : world := state_of pool1 (mp_run (Alloc 5) pool1).
Definition pool3 : world := state_of pool2 (mp_run (Alloc 5) pool2).

Lemma mp_next w0 w e r :
  mp_reachable w0 w -> mp_enabled e w -> answer_of (mp_run e w) = Some r ->
  mp_reachable w0 (state_of w (mp_run e w)).
Proof. intros Hr He Ha. apply (mp_step w0 e w r); [done|done|by apply ran]. Qed.

Lemma pool3_reached : mp_reachable pool0 pool3.
Proof.
  apply (mp_next _ pool2 (Alloc 5) Blocked).
  - apply (mp_next _ pool1 (Alloc 5) (Got 1)).
    + apply (mp_next _ pool0 (Alloc 0) (Got 0)); [apply mp_start| |by vm_compute].
      split; [by vm_compute|]. split; [by unfold half|]. split; [by left|]. exists 2%nat. by vm_compute.
    + split; [by vm_compute|]. split; [by unfold half|]. split; [by right; vm_compute|]. exists 2%nat. by vm_compute.
    + by vm_compute.
  - split; [by vm_compute|]. split; [by unfold half|]. split; [by right; vm_compute|]. exists 2%nat. by vm_compute.
  - by vm_compute.
Qed.

(** Thread 3 finds the pool empty, and does not wait. *)
Lemma mempool_answers_witness :
  answer_of (mp_run (Alloc 0) pool3) = Some Null /\
  exists r wd', mp_run (Alloc 0) pool3 = Ok (r, wd') /\ answers (Alloc 0) pool3 r wd'.
Proof.
  split; [by vm_compute|].
  apply (mempool_answers 7 pool_mem 24 8 0 car (new_head 7 car) pool_two pool3 (Alloc 0));
    [apply car_ok|apply car_ok|by vm_compute|done|by vm_compute|exact pool3_reached|].
  split; [by vm_compute|]. split; [by unfold half|]. split; [by left|]. exists 3%nat. by vm_compute.
Defined.

Lemma mempool_well_formed_witness :
  members (Waiting 7) (kern pool3) = [2%nat] /\
  exists free, chain (blocks (mp pool3)) (block_list (mp pool3)) free /\
    free ++ elements (taken pool3) ≡ₚ seq 0 2 /\
    block_free_count (mp pool3) = Z.of_nat (length free) /\
    (forall i, i ∈ taken pool3 -> blocks (mp pool3) !! i = Some Pool) /\
    (members (Waiting 7) (kern pool3) <> [] ->
     block_free_count (mp pool3) <= Z.of_nat (size (woken waits (calls pool3) (kern pool3)))).
Proof.
  split; [by vm_compute|].
  apply (mempool_well_formed 7 pool_mem 24 8 0 car (new_head 7 car) pool_two pool3);
    [apply car_ok|apply car_ok|by vm_compute|done|by vm_compute|exact pool3_reached].
Defined.

(** A thread that waits while the scheduler is locked is not switched away: it
    goes through the loop again and enters the suspend list twice. *)
Definition locked : kernel := with_lock 1 (new_head 7 car).
Definition pool_none : rt_mempool := mk_mp [Pool; Pool] 24 8 None 2 0 7.
Lemma alloc_while_locked :
  match rt_mp_alloc 5 pool_none 0 locked with
  | Ok (Wait w, m, g, k) =>
      rt_current_thread k = Some 2%nat /\ error (thread k 2) = RT_EOK /\
      rt_mp_alloc_rest 2 w m g k = Fault ListCorrupted
  | _ => False
  end.
Proof. by vm_compute. Qed.
End MemPool.
