(* ===== verification/Kprintf.v ===== *)
(** * Formatted output (rt-thread/src/kservice.c)

    [rt_vsnprintf] and what prints with it, as the firmware is configured
    ([RT_PRINTF_PRECISION] only).  The output routines write character by
    character while there is room and count all characters.

    The theorems: a format is a list of pieces whose text is defined after the C
    standard; the code reads its characters back and the buffer gets the longest
    prefix of the text that fits, always with a NUL inside it, and the length of the
    whole text is returned; a printed number is read back. *)

From Stdlib Require Import Ascii String.
From S2P Require Import Prelude.

Module Kprintf.

Definition ch (a : ascii) : Z := Z.of_N (N_of_ascii a).
Definition NUL : Z := 0.
Definition _ISDIGIT (c : Z) : bool := (ch "0" <=? c) && (c <=? ch "9").

(** ** Output *)

(** The object at [buf], and [str - buf].  C gives a pointer outside its object
    no meaning: [str] is counted without wrap-around. *)
Record sink := mk_sink { out : list Z; str : Z }.

(** [if (str < end) *str = c; ++ str;] with [e] for [end - buf]. *)
Definition put (e c : Z) (s : sink) : result sink :=
  o ← (if str s <? e then aset (out s) (str s) c else Ok (out s));
  Ok (mk_sink o (str s + 1)).

(** [while (n < w--) put(c);] and [w] after it. *)
Fixpoint put_while (fuel : nat) (e n c w : Z) (s : sink) : result (Z * sink) :=
  match fuel with
  | O => Fault OutOfFuel
  | S fuel =>
      w' ← chk32 (w - 1);
      if n <? w then s ← put e c s; put_while fuel e n c w' s else Ok (w', s)
  end.
Definition pad (e n c w : Z) : sink -> result (Z * sink) := put_while (S (Z.to_nat (w - n))) e n c w.

(** [while (--w > 0) put(c);] and [w] after it. *)
Fixpoint put_before (fuel : nat) (e c w : Z) (s : sink) : result (Z * sink) :=
  match fuel with
  | O => Fault OutOfFuel
  | S fuel =>
      w ← chk32 (w - 1);
      if 0 <? w then s ← put e c s; put_before fuel e c w s else Ok (w, s)
  end.
Definition pad_before (e c w : Z) : sink -> result (Z * sink) := put_before (S (Z.to_nat w)) e c w.

(** ** Numbers *)

Definition ZEROPAD : Z := Z.shiftl 1 0.
Definition SIGN : Z := Z.shiftl 1 1.
Definition PLUS : Z := Z.shiftl 1 2.
Definition SPACE : Z := Z.shiftl 1 3.
Definition LEFT : Z := Z.shiftl 1 4.
Definition SPECIAL : Z := Z.shiftl 1 5.
Definition LARGE : Z := Z.shiftl 1 6.
Definition has (f flags : Z) : bool := negb (Z.land flags f =? 0).

(** The remainder, and the new [*n]. *)
Definition divide (n base : Z) : Z * Z :=
  if base =? 10 then (u32 n mod 10, i32 (u32 n / 10)) else (u32 n mod 16, i32 (u32 n / 16)).

Definition small_digits : list Z := map ch ["0"; "1"; "2"; "3"; "4"; "5"; "6"; "7"; "8"; "9"; "a"; "b"; "c"; "d"; "e"; "f"]%char.
Definition large_digits : list Z := map ch ["0"; "1"; "2"; "3"; "4"; "5"; "6"; "7"; "8"; "9"; "A"; "B"; "C"; "D"; "E"; "F"]%char.

(** [while (num != 0) tmp[i++] = digits[divide(&num, base)];] *)
Fixpoint store_digits (fuel : nat) (digits : list Z) (base num : Z) (tmp : list Z) (i : Z) : result (list Z * Z) :=
  match fuel with
  | O => Fault OutOfFuel
  | S fuel =>
      if num =? 0 then Ok (tmp, i)
      else
        let '(res, num) := divide num base in
        d ← aget digits res;
        tmp ← aset tmp i d;
        store_digits fuel digits base num tmp (i + 1)
  end.

(** [while (i-- > 0 && (precision_bak != 0)) put(tmp[i]);] *)
Fixpoint put_digits (e precision_bak : Z) (tmp : list Z) (i : nat) (s : sink) : result sink :=
  match i with
  | O => Ok s
  | S i =>
      if precision_bak =? 0 then Ok s
      else
        d ← aget tmp (Z.of_nat i);
        s ← put e d s;
        put_digits e precision_bak tmp i s
  end.

(** "get sign": the sign, 0 for none, and the number. *)
Definition get_sign (type num : Z) : result (Z * Z) :=
  if has SIGN type then
    if num <? 0 then n ← chk32 (- num); Ok (ch "-", n)
    else if has PLUS type then Ok (ch "+", num)
    else if has SPACE type then Ok (ch " ", num)
    else Ok (0, num)
  else Ok (0, num).

(** The digits in [tmp], the least first, and [i]. *)
Definition number_digits (base type num : Z) : result (list Z * Z) :=
  let digits := if has LARGE type then large_digits else small_digits in
  let tmp := replicate 16 0 in
  if num =? 0 then tmp ← aset tmp 0 (ch "0"); Ok (tmp, 1)
  else store_digits 16 digits base num tmp 0.

(** From the blanks in front to "no align to the left"; the new [size]. *)
Definition number_front (e type sign size : Z) (sk : sink) : result (Z * sink) :=
  let c := if has ZEROPAD type then ch "0" else ch " " in
  '(size, sk) ← (if negb (has (Z.lor ZEROPAD LEFT) type) then
                   let size := if negb (sign =? 0) && (0 <? size) then size - 1 else size in
                   pad e 0 (ch " ") size sk
                 else Ok (size, sk));
  '(size, sk) ← (if negb (sign =? 0) then
                   sk ← put e sign sk;
                   size ← chk32 (size - 1);
                   Ok (size, sk)
                 else Ok (size, sk));
  if negb (has LEFT type) then pad e 0 c size sk else Ok (size, sk).

Definition print_number (e num base s precision type : Z) (sk : sink) : result sink :=
  let precision_bak := precision in
  let size := s in
  let type := if has LEFT type then Z.land type (Z.lnot ZEROPAD) else type in
  '(sign, num) ← get_sign type num;
  '(tmp, i) ← number_digits base type num;
  let precision := if precision <? i then i else precision in
  size ← chk32 (size - precision);
  '(size, sk) ← number_front e type sign size sk;
  '(_, sk) ← pad e i (ch "0") precision sk;
  sk ← put_digits e precision_bak tmp (Z.to_nat i) sk;
  '(_, sk) ← pad e 0 (ch " ") size sk;
  Ok sk.

(** ** Directives *)

(** A string is the list of its characters from the pointer on, with its NUL. *)
Definition peek (fmt : list Z) : result Z :=
  match fmt with c :: _ => Ok c | [] => Fault OutOfBounds end.

(** An argument: a word (an [int], a [long] or a pointer), or a string. *)
Inductive arg := Word (v : Z) | Str (p : option (list Z)).
(** [va_arg]: C leaves an argument of another type, or none, undefined. *)
Definition va_word (args : list arg) : result (Z * list arg) :=
  match args with Word v :: args => Ok (v, args) | _ => Fault OutOfBounds end.
Definition va_str (args : list arg) : result (option (list Z) * list arg) :=
  match args with Str p :: args => Ok (p, args) | _ => Fault OutOfBounds end.

Fixpoint skip_atoi_loop (i : Z) (s : list Z) : result (Z * list Z) :=
  match s with
  | [] => Fault OutOfBounds
  | c :: s' =>
      if _ISDIGIT c then
        i ← chk32 (i * 10);
        i ← chk32 (i + c);
        i ← chk32 (i - ch "0");
        skip_atoi_loop i s'
      else Ok (i, s)
  end.
Definition skip_atoi (s : list Z) : result (Z * list Z) := skip_atoi_loop 0 s.

(** "process flags", after the [++ fmt]. *)
Fixpoint skip_flags (flags : Z) (fmt : list Z) : result (Z * list Z) :=
  match fmt with
  | [] => Fault OutOfBounds
  | c :: fmt' =>
      if c =? ch "-" then skip_flags (Z.lor flags LEFT) fmt'
      else if c =? ch "+" then skip_flags (Z.lor flags PLUS) fmt'
      else if c =? ch " " then skip_flags (Z.lor flags SPACE) fmt'
      else if c =? ch "#" then skip_flags (Z.lor flags SPECIAL) fmt'
      else if c =? ch "0" then skip_flags (Z.lor flags ZEROPAD) fmt'
      else Ok (flags, fmt)
  end.

(** "get field width" *)
Definition get_width (flags : Z) (fmt : list Z) (args : list arg)
  : result (Z * Z * list Z * list arg) :=
  c ← peek fmt;
  if _ISDIGIT c then '(w, fmt) ← skip_atoi fmt; Ok (w, flags, fmt, args)
  else if c =? ch "*" then
    '(w, args) ← va_word args;
    let w := i32 w in
    if w <? 0 then w ← chk32 (- w); Ok (w, Z.lor flags LEFT, tail fmt, args)
    else Ok (w, flags, tail fmt, args)
  else Ok (-1, flags, fmt, args).

(** "get the precision" *)
Definition get_precision (fmt : list Z) (args : list arg) : result (Z * list Z * list arg) :=
  c ← peek fmt;
  if c =? ch "." then
    let fmt := tail fmt in
    c ← peek fmt;
    '(p, fmt, args) ← (if _ISDIGIT c then '(p, fmt) ← skip_atoi fmt; Ok (p, fmt, args)
                       else if c =? ch "*" then '(p, args) ← va_word args; Ok (i32 p, tail fmt, args)
                       else Ok (-1, fmt, args));
    Ok (if p <? 0 then 0 else p, fmt, args)
  else Ok (-1, fmt, args).

(** "get the conversion qualifier" *)
Definition get_qualifier (fmt : list Z) : result (Z * list Z) :=
  c ← peek fmt;
  if (c =? ch "h") || (c =? ch "l") then Ok (c, tail fmt) else Ok (0, fmt).

(** ** [rt_vsnprintf] *)

Definition conv_c (e flags w : Z) (args : list arg) (s : sink) : result (list arg * sink) :=
  '(w, s) ← (if negb (has LEFT flags) then pad_before e (ch " ") w s else Ok (w, s));
  '(v, args) ← va_word args;
  s ← put e (u8 v) s;
  '(_, s) ← pad_before e (ch " ") w s;
  Ok (args, s).

(** [for (len = 0; (len != field_width) && (s[len] != '\0'); len++);] *)
Fixpoint str_len (len w : Z) (s : list Z) : result Z :=
  if len =? w then Ok len
  else match s with
       | [] => Fault OutOfBounds
       | c :: s => if c =? NUL then Ok len else str_len (len + 1) w s
       end.
(** [for (i = 0; i < len; ++i)] *)
Fixpoint put_str (e : Z) (len : nat) (s : list Z) (sk : sink) : result sink :=
  match len, s with
  | O, _ => Ok sk
  | S _, [] => Fault OutOfBounds
  | S len, c :: s => sk ← put e c sk; put_str e len s sk
  end.
Definition null_text : list Z := map ch ["("; "N"; "U"; "L"; "L"; ")"]%char ++ [NUL].

Definition conv_s (e flags w precision : Z) (args : list arg) (sk : sink) : result (list arg * sink) :=
  '(p, args) ← va_str args;
  let s := default null_text p in
  len ← str_len 0 w s;
  let len := if (0 <? precision) && (precision <? len) then precision else len in
  '(w, sk) ← (if negb (has LEFT flags) then pad e len (ch " ") w sk else Ok (w, sk));
  sk ← put_str e (Z.to_nat len) s sk;
  '(_, sk) ← pad e len (ch " ") w sk;
  Ok (args, sk).

Definition conv_p (e flags w precision : Z) (args : list arg) (sk : sink) : result (list arg * sink) :=
  let '(w, flags) := if w =? -1 then (Z.shiftl 4 1, Z.lor flags ZEROPAD) else (w, flags) in
  '(v, args) ← va_word args;
  sk ← print_number e (i32 v) 16 w precision flags sk;
  Ok (args, sk).

(** The number of an integer conversion, as a [rt_uint32_t]. *)
Definition int_arg (flags qualifier v : Z) : Z :=
  if qualifier =? ch "h" then
    let num := u16 v in if has SIGN flags then u32 (i16 num) else num
  else u32 v.
Definition conv_int (e base flags w precision qualifier : Z) (args : list arg) (sk : sink)
  : result (list arg * sink) :=
  '(v, args) ← va_word args;
  sk ← print_number e (i32 (int_arg flags qualifier v)) base w precision flags sk;
  Ok (args, sk).

(** The [switch]. *)
Definition convert (e c flags w precision qualifier : Z) (args : list arg) (sk : sink)
  : result (list arg * sink) :=
  if c =? ch "c" then conv_c e flags w args sk
  else if c =? ch "s" then conv_s e flags w precision args sk
  else if c =? ch "p" then conv_p e flags w precision args sk
  else if c =? ch "%" then sk ← put e (ch "%") sk; Ok (args, sk)
  else if c =? ch "o" then conv_int e 8 flags w precision qualifier args sk
  else if c =? ch "X" then conv_int e 16 (Z.lor flags LARGE) w precision qualifier args sk
  else if c =? ch "x" then conv_int e 16 flags w precision qualifier args sk
  else if (c =? ch "d") || (c =? ch "i") then conv_int e 10 (Z.lor flags SIGN) w precision qualifier args sk
  else if c =? ch "u" then conv_int e 10 flags w precision qualifier args sk
  else
    sk ← put e (ch "%") sk;
    if negb (c =? NUL) then sk ← put e c sk; Ok (args, sk) else Ok (args, sk).

(** A directive, [fmt] behind its '%': flags, width, precision, qualifier, and
    the format at its conversion character. *)
Definition directive (fmt : list Z) (args : list arg)
  : result (Z * Z * Z * Z * list Z * list arg) :=
  '(flags, fmt) ← skip_flags 0 fmt;
  '(w, flags, fmt, args) ← get_width flags fmt args;
  '(precision, fmt, args) ← get_precision fmt args;
  '(qualifier, fmt) ← get_qualifier fmt;
  Ok (flags, w, precision, qualifier, fmt, args).

(** The loop over the format.  At a NUL in place of the conversion the code
    steps back, so that the loop meets the NUL. *)
Fixpoint vsnprintf_loop (fuel : nat) (e : Z) (fmt : list Z) (args : list arg) (s : sink) : result sink :=
  match fuel with
  | O => Fault OutOfFuel
  | S fuel =>
      c ← peek fmt;
      if c =? NUL then Ok s
      else if negb (c =? ch "%") then s ← put e c s; vsnprintf_loop fuel e (tail fmt) args s
      else
        '(flags, w, precision, qualifier, fmt, args) ← directive (tail fmt) args;
        c ← peek fmt;
        '(args, s) ← convert e c flags w precision qualifier args s;
        vsnprintf_loop fuel e (if c =? NUL then fmt else tail fmt) args s
  end.

(** [buf] is the address, [o] the object there; the result is the value returned
    and the object. *)
Definition rt_vsnprintf (buf size : Z) (fmt : list Z) (args : list arg) (o : list Z) : result (Z * list Z) :=
  let fin := u32 (buf + size) in
  let '(fin, size) := if fin <? buf then (u32 (-1), u32 (-1) - buf) else (fin, size) in
  let e := fin - buf in
  s ← vsnprintf_loop (S (length fmt)) e fmt args (mk_sink o 0);
  o ← (if 0 <? size then
         if str s <? e then aset (out s) (str s) NUL else aset (out s) (e - 1) NUL
       else Ok (out s));
  Ok (i32 (str s), o).

Definition rt_snprintf (buf size : Z) (fmt : list Z) (args : list arg) (o : list Z) : result (Z * list Z) :=
  rt_vsnprintf buf size fmt args o.
Definition rt_vsprintf (buf : Z) (fmt : list Z) (args : list arg) (o : list Z) : result (Z * list Z) :=
  rt_vsnprintf buf (u32 (-1)) fmt args o.
Definition rt_sprintf (buf : Z) (fmt : list Z) (args : list arg) (o : list Z) : result (Z * list Z) :=
  rt_vsprintf buf fmt args o.

(** [rt_kprintf] with [rt_log_buf] at [buf]: the length, the bytes that go to
    the console device, and the buffer. *)
Definition RT_CONSOLEBUF_SIZE : Z := 256.
Definition rt_kprintf (buf : Z) (fmt : list Z) (args : list arg) (rt_log_buf : list Z)
  : result (Z * list Z * list Z) :=
  '(n, o) ← rt_vsnprintf buf (RT_CONSOLEBUF_SIZE - 1) fmt args rt_log_buf;
  let length := u32 n in
  let length := if RT_CONSOLEBUF_SIZE - 1 <? length then RT_CONSOLEBUF_SIZE - 1 else length in
  Ok (length, take (Z.to_nat length) o, o).

(** A string literal. *)
Definition text (s : string) : list Z := map ch (list_ascii_of_string s) ++ [NUL].

(** ** The text of a directive *)

Definition spaces (n : Z) : list Z := replicate (Z.to_nat n) (ch " ").
Definition zeros (n : Z) : list Z := replicate (Z.to_nat n) (ch "0").

(** The numeral of [n], least digit first. *)
Fixpoint digits_of (fuel : nat) (b n : Z) : list Z :=
  match fuel with
  | O => []
  | S fuel => if n =? 0 then [] else n mod b :: digits_of fuel b (n / b)
  end.
Definition digit_char (up : bool) (d : Z) : Z :=
  if d <? 10 then ch "0" + d else (if up then ch "A" else ch "a") + d - 10.
Definition numeral (up : bool) (b n : Z) : list Z :=
  if n =? 0 then [ch "0"] else map (digit_char up) (rev (digits_of 15 b n)).
(** The radix of the code: every base but 10 counts as 16. *)
Definition radix (base : Z) : Z := if base =? 10 then 10 else 16.

(** A number: sign, zeros up to the precision, digits; blanks in front or behind,
    or zeros behind the sign.  With precision 0 there are no digits, though they
    count for the width. *)
Definition sign_text (flags num : Z) : list Z :=
  if has SIGN flags then
    if num <? 0 then [ch "-"] else if has PLUS flags then [ch "+"] else if has SPACE flags then [ch " "] else []
  else [].
Definition magnitude (flags num : Z) : Z := if has SIGN flags then Z.abs num else u32 num.
Definition number_text (num base w precision flags : Z) : list Z :=
  let sign := sign_text flags num in
  let ds := numeral (has LARGE flags) (radix base) (magnitude flags num) in
  let len := Z.of_nat (length ds) in
  let body := zeros (precision - len) ++ (if precision =? 0 then [] else ds) in
  let n := w - Z.max len precision - Z.of_nat (length sign) in
  if has LEFT flags then sign ++ body ++ spaces n
  else if has ZEROPAD flags then sign ++ zeros n ++ body
  else spaces n ++ sign ++ body.

(** A character; a string, cut at the width as well as at the precision. *)
Definition char_text (flags w v : Z) : list Z :=
  if has LEFT flags then [u8 v] ++ spaces (w - 1) else spaces (w - 1) ++ [u8 v].
Fixpoint until_nul (s : list Z) : option (list Z) :=
  match s with
  | [] => None
  | c :: s => if c =? NUL then Some [] else cons c <$> until_nul s
  end.
Definition str_text (flags w precision : Z) (t : list Z) : list Z :=
  let t := if w <? 0 then t else take (Z.to_nat w) t in
  let t := if 0 <? precision then take (Z.to_nat precision) t else t in
  let n := w - Z.of_nat (length t) in
  if has LEFT flags then t ++ spaces n else spaces n ++ t.

(** What a conversion prints, and the arguments that are left: for arguments of
    the right kind, strings that end, widths and precisions below 2^30 - 16, and
    any number but the least [long], which has no negative. *)
Definition wide (w : Z) : bool := (-1 <=? w) && (w <=? 2 ^ 30 - 16).
Definition int_text (num base w precision flags : Z) : option (list Z) :=
  if wide w && wide precision && negb (has SIGN flags && (num =? -2147483648))
  then Some (number_text num base w precision flags) else None.
Definition conv_text (c flags w precision qualifier : Z) (args : list arg) : option (list Z * list arg) :=
  let int base flags :=
    match args with
    | Word v :: args => t ← int_text (i32 (int_arg flags qualifier v)) base w precision flags; Some (t, args)
    | _ => None
    end in
  if c =? ch "c" then
    match args with Word v :: args => if wide w then Some (char_text flags w v, args) else None | _ => None end
  else if c =? ch "s" then
    match args with
    | Str p :: args =>
        t ← until_nul (default null_text p);
        if wide w then Some (str_text flags w precision t, args) else None
    | _ => None
    end
  else if c =? ch "p" then
    match args with
    | Word v :: args =>
        t ← (if w =? -1 then int_text (i32 v) 16 8 precision (Z.lor flags ZEROPAD) else int_text (i32 v) 16 w precision flags);
        Some (t, args)
    | _ => None
    end
  else if c =? ch "%" then Some ([ch "%"], args)
  else if c =? ch "o" then int 8 flags
  else if c =? ch "X" then int 16 (Z.lor flags LARGE)
  else if c =? ch "x" then int 16 flags
  else if (c =? ch "d") || (c =? ch "i") then int 10 (Z.lor flags SIGN)
  else if c =? ch "u" then int 10 flags
  else Some (ch "%" :: (if c =? NUL then [] else [c]), args).

(** The text of a format. *)
Inductive formats : list Z -> list arg -> list Z -> Prop :=
| formats_end fmt args : formats (NUL :: fmt) args []
| formats_char c fmt args t :
    c <> NUL -> c <> ch "%" -> formats fmt args t -> formats (c :: fmt) args (c :: t)
| formats_conv fmt args flags w precision qualifier c fmt' args' u args'' t :
    directive fmt args = Ok (flags, w, precision, qualifier, c :: fmt', args') ->
    conv_text c flags w precision qualifier args' = Some (u, args'') ->
    formats (if c =? NUL then c :: fmt' else fmt') args'' t ->
    formats (ch "%" :: fmt) args (u ++ t).

(** ** The C standard's text of a format

    A format as pieces: characters, and directives with their flags, width,
    precision, qualifier and conversion.  Their text is the one the C standard
    gives; [plain_use] leaves out what [formats] prints otherwise (a precision
    below 1, zeros together with a precision, a string wider than its field), and
    there are no pieces for %o, %p, and the flag #. *)

Inductive flag := Minus | Plus | Blank | Zero.
#[export] Instance flag_eq_dec : EqDecision flag.
Proof. solve_decision. Defined.
Inductive field_width := NoWidth | Width (n : Z) | StarWidth.
Inductive field_precision := NoPrecision | Precision (n : Z) | StarPrecision.
Inductive length_of := Default | Short | Long.
Inductive conversion := Decimal | Integer | Unsigned | Hex (upper : bool) | Character | Text.
Record field := mk_field {
  flags_of : list flag; width_of : field_width; precision_of : field_precision;
  qualifier_of : length_of; conversion_of : conversion }.
Inductive piece := Literal (c : Z) | Percent | Directive (d : field).

(** *** Its characters *)

Definition flag_char (f : flag) : Z :=
  match f with Minus => ch "-" | Plus => ch "+" | Blank => ch " " | Zero => ch "0" end.
Definition render_width (w : field_width) : list Z :=
  match w with NoWidth => [] | Width n => numeral false 10 n | StarWidth => [ch "*"] end.
Definition render_precision (p : field_precision) : list Z :=
  match p with NoPrecision => [] | Precision n => ch "." :: numeral false 10 n | StarPrecision => [ch "."; ch "*"] end.
Definition render_qualifier (q : length_of) : list Z :=
  match q with Default => [] | Short => [ch "h"] | Long => [ch "l"] end.
Definition conversion_char (k : conversion) : Z :=
  match k with
  | Decimal => ch "d" | Integer => ch "i" | Unsigned => ch "u" | Hex false => ch "x" | Hex true => ch "X"
  | Character => ch "c" | Text => ch "s"
  end.
Definition render_field (d : field) : list Z :=
  map flag_char (flags_of d) ++ render_width (width_of d) ++ render_precision (precision_of d) ++
  render_qualifier (qualifier_of d) ++ [conversion_char (conversion_of d)].
Definition render_piece (p : piece) : list Z :=
  match p with Literal c => [c] | Percent => [ch "%"; ch "%"] | Directive d => ch "%" :: render_field d end.
Definition render (ps : list piece) : list Z := mjoin (render_piece <$> ps) ++ [NUL].

(** *** Its text *)

(** Width and precision; a star takes the next argument, and a negative width is
    the flag - and a width. *)
Definition resolve_width (d : field) (args : list arg) : option (list flag * option Z * list arg) :=
  match width_of d, args with
  | NoWidth, _ => Some (flags_of d, None, args)
  | Width n, _ => Some (flags_of d, Some n, args)
  | StarWidth, Word v :: args =>
      if i32 v <? 0 then Some (flags_of d ++ [Minus], Some (- i32 v), args) else Some (flags_of d, Some (i32 v), args)
  | StarWidth, _ => None
  end.
Definition resolve_precision (d : field) (args : list arg) : option (option Z * list arg) :=
  match precision_of d, args with
  | NoPrecision, _ => Some (None, args)
  | Precision n, _ => Some (Some n, args)
  | StarPrecision, Word v :: args => Some (Some (i32 v), args)
  | StarPrecision, _ => None
  end.

(** The text [sign] and [body] in the field: blanks behind it, zeros between, or
    blanks in front. *)
Definition in_field (fl : list flag) (zero : bool) (w : option Z) (sign body : list Z) : list Z :=
  let n := default 0 w - Z.of_nat (length (sign ++ body)) in
  if decide (Minus ∈ fl) then sign ++ body ++ spaces n
  else if zero then sign ++ zeros n ++ body
  else spaces n ++ sign ++ body.
(** At least as many digits as the precision says. *)
Definition with_digits (p : option Z) (ds : list Z) : list Z :=
  match p with None => ds | Some p => zeros (p - Z.of_nat (length ds)) ++ ds end.
Definition zero_flag (fl : list flag) (p : option Z) : bool :=
  bool_decide (Zero ∈ fl) && bool_decide (p = None).
Definition signed_text (fl : list flag) (w p : option Z) (n : Z) : list Z :=
  let sign := if n <? 0 then [ch "-"] else if decide (Plus ∈ fl) then [ch "+"]
              else if decide (Blank ∈ fl) then [ch " "] else [] in
  in_field fl (zero_flag fl p) w sign (with_digits p (numeral false 10 (Z.abs n))).
Definition unsigned_text (fl : list flag) (w p : option Z) (ds : list Z) : list Z :=
  in_field fl (zero_flag fl p) w [] (with_digits p ds).
Definition cut_text (p : option Z) (t : list Z) : list Z :=
  match p with None => t | Some p => take (Z.to_nat p) t end.

(** The number of an argument. *)
Definition signed_of (q : length_of) (v : Z) : Z := match q with Short => i16 v | _ => i32 v end.
Definition unsigned_of (q : length_of) (v : Z) : Z := match q with Short => u16 v | _ => u32 v end.

Definition value_text (d : field) (fl : list flag) (w p : option Z) (a : arg) : option (list Z) :=
  match conversion_of d, a with
  | (Decimal | Integer), Word v => Some (signed_text fl w p (signed_of (qualifier_of d) v))
  | Unsigned, Word v => Some (unsigned_text fl w p (numeral false 10 (unsigned_of (qualifier_of d) v)))
  | Hex up, Word v => Some (unsigned_text fl w p (numeral up 16 (unsigned_of (qualifier_of d) v)))
  | Character, Word v => Some (in_field fl false w [] [u8 v])
  | Text, Str (Some s) => t ← until_nul s; Some (in_field fl false w [] (cut_text p t))
  | _, _ => None
  end.

(** Where the code prints the standard's text. *)
Definition plain_use (d : field) (fl : list flag) (w p : option Z) (a : arg) : Prop :=
  match w with None => True | Some w => 0 <= w <= 2 ^ 30 - 16 end /\
  match p with None => True | Some p => 1 <= p <= 2 ^ 30 - 16 end /\
  match conversion_of d, a with
  | (Decimal | Integer), Word v => signed_of (qualifier_of d) v <> -2147483648 /\ (Zero ∈ fl -> p = None \/ Minus ∈ fl)
  | (Unsigned | Hex _), Word v => Zero ∈ fl -> p = None \/ Minus ∈ fl
  | Character, _ => p = None
  | Text, Str (Some s) => forall t w', until_nul s = Some t -> w = Some w' -> Z.of_nat (length (cut_text p t)) <= w'
  | _, _ => True
  end.
(** A width in the format is 1 or more: a 0 is a flag. *)
Definition written (d : field) : Prop :=
  match width_of d with Width n => 1 <= n | _ => True end.

Inductive formatted : list piece -> list arg -> list Z -> Prop :=
| formatted_nil args : formatted [] args []
| formatted_literal c ps args t :
    c <> NUL -> c <> ch "%" -> formatted ps args t -> formatted (Literal c :: ps) args (c :: t)
| formatted_percent ps args t : formatted ps args t -> formatted (Percent :: ps) args (ch "%" :: t)
| formatted_directive d ps args args1 args2 a fl w p u t :
    written d -> resolve_width d args = Some (fl, w, args1) -> resolve_precision d args1 = Some (p, a :: args2) ->
    plain_use d fl w p a -> value_text d fl w p a = Some u ->
    formatted ps args2 t -> formatted (Directive d :: ps) args (u ++ t).

(** *** The format is read as it was written *)

Lemma digits_range fuel b n d : 0 < b -> d ∈ digits_of fuel b n -> 0 <= d < b.
Proof.
  intros Hb. revert n. induction fuel as [|fuel IH]; intros n; cbn; [by intros ?%not_elem_of_nil|].
  destruct (n =? 0); [by intros ?%not_elem_of_nil|]. intros [->|Hd]%elem_of_cons; [by apply Z.mod_pos_bound|by apply (IH (n / b))].
Qed.

(** The digits are those of the number. *)
Lemma digits_value fuel b n :
  1 < b -> 0 <= n < b ^ Z.of_nat fuel -> foldr (fun d a => d + b * a) 0 (digits_of fuel b n) = n.
Proof.
  intros Hb. revert n. induction fuel as [|fuel IH]; intros n Hn; [cbn in *; lia|]. cbn [digits_of].
  destruct (Z.eqb_spec n 0) as [->|Hn0]; [done|]. cbn [foldr]. rewrite IH; [pose proof (Z.div_mod n b); lia|].
  replace (Z.of_nat (S fuel)) with (Z.succ (Z.of_nat fuel)) in Hn by lia. rewrite Z.pow_succ_r in Hn by lia.
  split; [apply Z.div_pos; lia|apply Z.div_lt_upper_bound; lia].
Qed.
Lemma digits_last fuel n :
  0 < n < 10 ^ Z.of_nat fuel -> exists l d, digits_of fuel 10 n = l ++ [d] /\ 0 < d < 10.
Proof.
  revert n. induction fuel as [|fuel IH]; intros n Hn; [cbn in Hn; lia|]. cbn [digits_of]. replace (n =? 0) with false by lia.
  replace (Z.of_nat (S fuel)) with (Z.succ (Z.of_nat fuel)) in Hn by lia. rewrite Z.pow_succ_r in Hn by lia.
  destruct (decide (n < 10)) as [H|H].
  - exists [], n. rewrite Z.div_small, Z.mod_small by lia. split; [by destruct fuel|lia].
  - destruct (IH (n / 10)) as (l & d & -> & Hd).
    { split; [apply Z.div_str_pos; lia|apply Z.div_lt_upper_bound; lia]. }
    by exists (n mod 10 :: l), d.
Qed.
Lemma numeral_head n :
  0 < n < 10 ^ 15 -> exists c l, numeral false 10 n = c :: l /\ ch "1" <= c <= ch "9".
Proof.
  intros Hn. unfold numeral. replace (n =? 0) with false by lia. destruct (digits_last 15 n) as (l & d & -> & Hd); [lia|].
  rewrite rev_app_distr. exists (digit_char false d), (map (digit_char false) (rev l)). split; [done|].
  unfold digit_char. replace (d <? 10) with true by lia. unfold ch. cbn. lia.
Qed.
Lemma skip_atoi_digits fuel n i rest :
  0 <= i -> 0 <= n < 10 ^ Z.of_nat fuel -> let ds := digits_of fuel 10 n in
  i * 10 ^ Z.of_nat (length ds) + n < 2147483600 ->
  skip_atoi_loop i (map (digit_char false) (rev ds) ++ rest) = skip_atoi_loop (i * 10 ^ Z.of_nat (length ds) + n) rest.
Proof.
  revert n i rest. induction fuel as [|fuel IH]; intros n i rest Hi Hn; cbv zeta.
  - intros _. assert (n = 0) as -> by (cbn in Hn; lia). cbn. f_equal. lia.
  - cbn [digits_of]. destruct (Z.eqb_spec n 0) as [->|Hn0]; [intros _; cbn; f_equal; lia|].
    replace (Z.of_nat (S fuel)) with (Z.succ (Z.of_nat fuel)) in Hn by lia. rewrite Z.pow_succ_r in Hn by lia.
    set (ds := digits_of fuel 10 (n / 10)). cbn [length rev]. replace (Z.of_nat (S (length ds))) with (Z.succ (Z.of_nat (length ds))) by lia.
    rewrite Z.pow_succ_r by lia. intros Hb. pose proof (Z.div_mod n 10 ltac:(lia)) as Hd. pose proof (Z.mod_pos_bound n 10 ltac:(lia)) as Hm.
    set (p := 10 ^ Z.of_nat (length ds)) in *. assert (0 < p) by (apply Z.pow_pos_nonneg; lia).
    rewrite map_app, <- (assoc_L app). pose proof (IH (n / 10) i (map (digit_char false) [n mod 10] ++ rest) Hi ltac:(lia)) as E.
    cbv zeta in E. fold ds in E. fold p in E. rewrite E by nia. clear E IH. cbn [map app skip_atoi_loop].
    set (j := i * p + n / 10). assert (0 <= j /\ j * 10 + n mod 10 < 2147483600) as [Hj Hj2] by (unfold j; nia).
    unfold digit_char. replace (n mod 10 <? 10) with true by lia. change (ch "0") with 48.
    unfold _ISDIGIT. change (ch "0") with 48. change (ch "9") with 57.
    replace ((48 <=? 48 + n mod 10) && (48 + n mod 10 <=? 57)) with true by lia.
    do 3 (rewrite chk32_Ok by lia; cbn [mbind result_bind]). f_equal. unfold j. nia.
Qed.

Lemma skip_atoi_numeral n c rest :
  0 <= n < 2147483600 -> _ISDIGIT c = false -> skip_atoi (numeral false 10 n ++ c :: rest) = Ok (n, c :: rest).
Proof.
  intros Hn Hc. unfold skip_atoi, numeral. destruct (Z.eqb_spec n 0) as [->|Hn0].
  - cbn. by rewrite Hc.
  - rewrite (skip_atoi_digits 15); [|lia|change (Z.of_nat 15) with 15; lia|lia]. cbn [skip_atoi_loop]. rewrite Hc. do 2 f_equal.
Qed.


Lemma has_bit k f : has (Z.shiftl 1 k) f = Z.testbit f k.
Proof.
  unfold has. rewrite Z.shiftl_1_l. destruct (decide (0 <= k)) as [Hk|Hk].
  - destruct (Z.testbit f k) eqn:E.
    + apply negb_true_iff, Z.eqb_neq. intros H. apply (f_equal (fun z => Z.testbit z k)) in H.
      rewrite Z.land_spec, Z.pow2_bits_true, E, Z.bits_0 in H by done. done.
    + apply negb_false_iff, Z.eqb_eq, Z.bits_inj'. intros n Hn. rewrite Z.land_spec, Z.pow2_bits_eqb, Z.bits_0 by done.
      destruct (Z.eqb_spec k n) as [->|]; [by rewrite E|apply andb_false_r].
  - rewrite Z.testbit_neg_r by lia. rewrite Z.pow_neg_r by lia. by rewrite Z.land_0_r.
Qed.

Definition bit (f : flag) : Z := match f with Minus => LEFT | Plus => PLUS | Blank => SPACE | Zero => ZEROPAD end.
Definition bits (fl : list flag) : Z := foldl (fun a f => Z.lor a (bit f)) 0 fl.
Definition qualifier_char (q : length_of) : Z := match q with Default => 0 | Short => ch "h" | Long => ch "l" end.

Lemma has_lor a b k : has (Z.shiftl 1 k) (Z.lor a b) = has (Z.shiftl 1 k) a || has (Z.shiftl 1 k) b.
Proof. rewrite !has_bit. apply Z.lor_spec. Qed.
Lemma has_bits f fl : has (bit f) (bits fl) = bool_decide (f ∈ fl).
Proof.
  unfold bits. induction fl as [|g fl IH] using rev_ind; [by destruct f|]. rewrite foldl_app. cbn [foldl].
  assert (has (bit f) (Z.lor (foldl (fun a f => Z.lor a (bit f)) 0 fl) (bit g)) =
          has (bit f) (foldl (fun a f => Z.lor a (bit f)) 0 fl) || has (bit f) (bit g)) as -> by (destruct f; apply has_lor).
  rewrite IH. assert (has (bit f) (bit g) = bool_decide (f = g)) as -> by (by destruct f, g).
  rewrite <- bool_decide_or. apply bool_decide_ext. rewrite elem_of_app, list_elem_of_singleton. done.
Qed.
Lemma has_sign fl : has SIGN (bits fl) = false /\ has LARGE (bits fl) = false.
Proof.
  unfold bits. induction fl as [|g fl [IH IH']] using rev_ind; [done|]. rewrite foldl_app. cbn [foldl]. unfold SIGN, LARGE in *.
  rewrite !has_lor, IH, IH'. by destruct g.
Qed.

(** A character that is no flag; one that ends a number. *)
Definition no_flag (c : Z) : Prop := c <> ch "-" /\ c <> ch "+" /\ c <> ch " " /\ c <> ch "#" /\ c <> ch "0".
Lemma skip_flags_render fl fs c r :
  no_flag c -> skip_flags fs (map flag_char fl ++ c :: r) = Ok (foldl (fun a f => Z.lor a (bit f)) fs fl, c :: r).
Proof.
  intros (H1 & H2 & H3 & H4 & H5). revert fs. induction fl as [|f fl IH]; intros fs.
  - cbn [map app skip_flags foldl]. by rewrite !(proj2 (Z.eqb_neq c _)).
  - specialize (IH (Z.lor fs (bit f))). destruct f; exact IH.
Qed.

(** What follows the width, and what follows the precision. *)
Definition tail_chars : list Z := map ch ["d"; "i"; "u"; "x"; "X"; "c"; "s"]%char.
Lemma conversion_tail k : conversion_char k ∈ tail_chars.
Proof. destruct k as [| | |[]| |]; by apply (bool_decide_unpack _). Qed.
Lemma after_precision q k r : exists c l,
  render_qualifier q ++ conversion_char k :: r = c :: l /\ (c = ch "h" \/ c = ch "l" \/ c ∈ tail_chars).
Proof. destruct q; eexists _, _; (split; [done|]); auto using conversion_tail. Qed.
Lemma after_width p q k r : exists c l,
  render_precision p ++ render_qualifier q ++ conversion_char k :: r = c :: l /\
  (c = ch "." \/ c = ch "h" \/ c = ch "l" \/ c ∈ tail_chars).
Proof. destruct p; cbn [render_precision app]; [|eexists _, _; eauto..]. destruct (after_precision q k r) as (c & l & -> & H). eauto. Qed.
Lemma tail_is c (P : Z -> bool) :
  forallb P (map ch ["."; "h"; "l"]%char ++ tail_chars) = true ->
  (c = ch "." \/ c = ch "h" \/ c = ch "l" \/ c ∈ tail_chars) -> P c = true.
Proof.
  rewrite forallb_forall. intros H Hc. apply H, list_elem_of_In, elem_of_app.
  destruct Hc as [->|[->|[->|Hc]]]; [left; by apply (bool_decide_unpack _)..|by right].
Qed.

Lemma get_width_render d fl w args args1 c r :
  written d -> resolve_width d args = Some (fl, w, args1) -> default 0 w <= 2 ^ 30 - 16 ->
  (c = ch "." \/ c = ch "h" \/ c = ch "l" \/ c ∈ tail_chars) ->
  get_width (bits (flags_of d)) (render_width (width_of d) ++ c :: r) args = Ok (default (-1) w, bits fl, c :: r, args1).
Proof.
  unfold written, resolve_width. intros Hw E Hb Hc. unfold get_width. destruct (width_of d) as [|n|] eqn:Ew; cbn [render_width app].
  - injection E as <- <- <-. cbn [peek mbind result_bind].
    pose proof (tail_is c (fun c => negb (_ISDIGIT c) && negb (c =? ch "*")) ltac:(by vm_compute) Hc) as H.
    apply andb_true_iff in H as [->%negb_true_iff ->%negb_true_iff]. done.
  - injection E as <- <- <-. cbn in Hb. pose proof (tail_is c (fun c => negb (_ISDIGIT c)) ltac:(by vm_compute) Hc) as H%negb_true_iff.
    destruct (numeral_head n) as (x & l & En & Hx); [lia|]. rewrite En. cbn [app peek mbind result_bind].
    assert (_ISDIGIT x = true) as -> by (unfold _ISDIGIT, ch in *; cbn in *; lia).
    change (x :: l ++ c :: r) with ((x :: l) ++ c :: r). rewrite <- En, skip_atoi_numeral by (done || lia). done.
  - destruct args as [|[v|] args]; [done| |done]. cbn [peek mbind result_bind]. change (_ISDIGIT (ch "*")) with false.
    change (ch "*" =? ch "*") with true. cbn [va_word mbind result_bind tail].
    assert (i32 (i32 v) = i32 v) as Hi by (apply i32_small; pose proof (i32_range v); lia).
    destruct (Z.ltb_spec (i32 v) 0) as [Hn|Hn]; injection E as <- <- <-; [|done]. cbn in Hb.
    rewrite chk32_Ok by lia. cbn [mbind result_bind from_option id]. unfold bits at 2. rewrite foldl_app. done.
Qed.

Lemma get_precision_render d p args args1 c r :
  resolve_precision d args = Some (p, args1) -> match p with None => True | Some p => 1 <= p <= 2 ^ 30 - 16 end ->
  (c = ch "h" \/ c = ch "l" \/ c ∈ tail_chars) ->
  get_precision (render_precision (precision_of d) ++ c :: r) args = Ok (default (-1) p, c :: r, args1).
Proof.
  unfold resolve_precision. intros E Hb Hc. unfold get_precision. destruct (precision_of d) as [|n|] eqn:Ep; cbn [render_precision app].
  - injection E as <- <-. cbn [peek mbind result_bind]. destruct (Z.eqb_spec c (ch ".")) as [->|]; [|done].
    exfalso. destruct Hc as [Hc|[Hc|Hc]]; [done|done|]. by apply (bool_decide_pack _) in Hc.
  - injection E as <- <-. pose proof (tail_is c (fun c => negb (_ISDIGIT c)) ltac:(by vm_compute) (or_intror Hc)) as H%negb_true_iff.
    destruct (numeral_head n) as (x & l & En & Hx); [lia|]. rewrite En. cbn [app peek mbind result_bind tail].
    change (ch "." =? ch ".") with true. assert (_ISDIGIT x = true) as -> by (unfold _ISDIGIT, ch in *; cbn in *; lia).
    change (x :: l ++ c :: r) with ((x :: l) ++ c :: r). rewrite <- En, skip_atoi_numeral by (done || lia).
    cbn [mbind result_bind]. by replace (n <? 0) with false by lia.
  - destruct args as [|[v|] args]; [done| |done]. injection E as <- <-. cbn [peek mbind result_bind tail].
    change (ch "." =? ch ".") with true. cbn [tail peek mbind result_bind]. change (_ISDIGIT (ch "*")) with false.
    change (ch "*" =? ch "*") with true. cbn [va_word mbind result_bind tail]. by replace (i32 v <? 0) with false by lia.
Qed.

Lemma get_qualifier_render q k r :
  get_qualifier (render_qualifier q ++ conversion_char k :: r) = Ok (qualifier_char q, conversion_char k :: r).
Proof. destruct q, k as [| | |[]| |]; done. Qed.

Lemma render_no_flag d r : written d -> default 0 (match width_of d with Width n => Some n | _ => None end) <= 2 ^ 30 - 16 ->
  exists c l, render_width (width_of d) ++ render_precision (precision_of d) ++ render_qualifier (qualifier_of d) ++
    conversion_char (conversion_of d) :: r = c :: l /\ no_flag c.
Proof.
  unfold written. intros Hw Hb. destruct (width_of d) as [|n|]; cbn [render_width app].
  - destruct (after_width (precision_of d) (qualifier_of d) (conversion_of d) r) as (c & l & -> & Hc). exists c, l. split; [done|].
    pose proof (tail_is c (fun c => negb (c =? ch "-") && (negb (c =? ch "+") && (negb (c =? ch " ") && (negb (c =? ch "#") && negb (c =? ch "0")))))
      ltac:(by vm_compute) Hc) as H.
    rewrite !andb_true_iff, !negb_true_iff, !Z.eqb_neq in H. exact H.
  - cbn in Hb. destruct (numeral_head n) as (x & l & -> & Hx); [lia|]. eexists x, _. split; [done|]. unfold no_flag, ch in *. cbn in *. lia.
  - by eexists _, _.
Qed.

Lemma directive_render d fl w p args args1 args2 r :
  written d -> resolve_width d args = Some (fl, w, args1) -> resolve_precision d args1 = Some (p, args2) ->
  default 0 w <= 2 ^ 30 - 16 -> match p with None => True | Some p => 1 <= p <= 2 ^ 30 - 16 end ->
  directive (render_field d ++ r) args =
    Ok (bits fl, default (-1) w, default (-1) p, qualifier_char (qualifier_of d), conversion_char (conversion_of d) :: r, args2).
Proof.
  intros Hd Ew Ep Hw Hp. unfold directive, render_field. rewrite <- !(assoc_L app). cbn [app].
  destruct (render_no_flag d r) as (c & l & E & Hc); [done| |].
  { unfold resolve_width in Ew. destruct (width_of d); [cbn; lia| |cbn; lia]. by injection Ew as <- <- <-. }
  rewrite E, skip_flags_render by done. cbn [mbind result_bind]. rewrite <- E. clear c l E Hc.
  destruct (after_width (precision_of d) (qualifier_of d) (conversion_of d) r) as (c & l & E & Hc).
  rewrite E. fold (bits (flags_of d)). rewrite (get_width_render d fl w args args1) by done. cbn [mbind result_bind]. rewrite <- E. clear c l E Hc.
  destruct (after_precision (qualifier_of d) (conversion_of d) r) as (c & l & E & Hc).
  rewrite E, (get_precision_render d p args1 args2) by done. cbn [mbind result_bind]. rewrite <- E, get_qualifier_render. done.
Qed.

(** *** The code's text is the standard's *)

Lemma spaces_none n : n <= 0 -> spaces n = [].
Proof. intros H. unfold spaces. by replace (Z.to_nat n) with 0%nat by lia. Qed.
Lemma zeros_none n : n <= 0 -> zeros n = [].
Proof. intros H. unfold zeros. by replace (Z.to_nat n) with 0%nat by lia. Qed.

(** Both in terms of the flags that count. *)
Lemma number_in_field fl (w p : option Z) (sign ds : list Z) :
  match w with None => True | Some w => 0 <= w end -> match p with None => True | Some p => 1 <= p end ->
  (Zero ∈ fl -> p = None \/ Minus ∈ fl) ->
  (let len := Z.of_nat (length ds) in
   let body := zeros (default (-1) p - len) ++ (if default (-1) p =? 0 then [] else ds) in
   let n := default (-1) w - Z.max len (default (-1) p) - Z.of_nat (length sign) in
   if bool_decide (Minus ∈ fl) then sign ++ body ++ spaces n
   else if bool_decide (Zero ∈ fl) then sign ++ zeros n ++ body
   else spaces n ++ sign ++ body) =
  in_field fl (zero_flag fl p) w sign (with_digits p ds).
Proof.
  intros Hw Hp Hz. cbv zeta. set (body := zeros _ ++ (if (_ : bool) then _ else ds)).
  assert (body = with_digits p ds) as Eb.
  { unfold body, with_digits. destruct p as [p|]; cbn [from_option id]; [by replace (p =? 0) with false by lia|]. by rewrite zeros_none by (cbn; lia). }
  assert (Z.of_nat (length body) = Z.max (Z.of_nat (length ds)) (default (-1) p)) as Lb.
  { rewrite Eb. unfold with_digits, zeros. destruct p as [p|]; cbn [from_option id]; [|lia]. rewrite length_app, length_replicate. lia. }
  rewrite Eb in Lb |- *. clearbody body. subst body. unfold in_field. rewrite length_app, Nat2Z.inj_add, Lb.
  assert (forall f : Z -> list Z, (forall n, n <= 0 -> f n = []) ->
    f (default (-1) w - Z.max (Z.of_nat (length ds)) (default (-1) p) - Z.of_nat (length sign)) =
    f (default 0 w - (Z.of_nat (length sign) + Z.max (Z.of_nat (length ds)) (default (-1) p)))) as Hf.
  { intros f Hf. destruct w as [w|]; cbn [from_option id]; [f_equal; lia|]. by rewrite !Hf by lia. }
  rewrite !(Hf spaces spaces_none), !(Hf zeros zeros_none). unfold zero_flag.
  destruct (decide (Minus ∈ fl)) as [Hm|Hm]; [by rewrite bool_decide_true|]. rewrite bool_decide_false by done.
  destruct (decide (Zero ∈ fl)) as [Hz'|Hz']; [|by rewrite (bool_decide_false (Zero ∈ fl))]. rewrite !(bool_decide_true (Zero ∈ fl)) by done.
  by destruct (Hz Hz') as [->|?].
Qed.

Lemma has_extra k j fl : k <> j -> 0 <= j -> 0 <= k -> has (Z.shiftl 1 k) (Z.lor fl (Z.shiftl 1 j)) = has (Z.shiftl 1 k) fl.
Proof.
  intros Hk Hj Hk'. rewrite has_lor. rewrite (has_bit k (Z.shiftl 1 j)), (Z.shiftl_1_l j), Z.pow2_bits_eqb by done.
  replace (j =? k) with false by lia. apply orb_false_r.
Qed.

Lemma wide_default w : match w with None => True | Some w => 0 <= w <= 2 ^ 30 - 16 end -> wide (default (-1) w) = true.
Proof. unfold wide. destruct w; cbn [from_option id]; lia. Qed.
Lemma wide_precision p : match p with None => True | Some p => 1 <= p <= 2 ^ 30 - 16 end -> wide (default (-1) p) = true.
Proof. unfold wide. destruct p; cbn [from_option id]; lia. Qed.

Lemma int_text_in_field f base fl w p num :
  match w with None => True | Some w => 0 <= w <= 2 ^ 30 - 16 end ->
  match p with None => True | Some p => 1 <= p <= 2 ^ 30 - 16 end -> (Zero ∈ fl -> p = None \/ Minus ∈ fl) ->
  has LEFT f = bool_decide (Minus ∈ fl) -> has ZEROPAD f = bool_decide (Zero ∈ fl) ->
  (has SIGN f = true -> num <> -2147483648) ->
  int_text num base (default (-1) w) (default (-1) p) f =
    Some (in_field fl (zero_flag fl p) w (sign_text f num) (with_digits p (numeral (has LARGE f) (radix base) (magnitude f num)))).
Proof.
  intros Hw Hp Hz Hl Hzp Hn. unfold int_text. rewrite wide_default, wide_precision by done.
  assert (negb (has SIGN f && (num =? -2147483648)) = true) as ->.
  { destruct (has SIGN f); [|done]. cbn. specialize (Hn eq_refl). lia. }
  cbn [andb]. f_equal. rewrite <- number_in_field by (done || (destruct w, p; lia)). unfold number_text. rewrite Hl, Hzp. done.
Qed.

Lemma signed_value f q v : has SIGN f = true -> i32 (int_arg f (qualifier_char q) v) = signed_of q v.
Proof.
  intros Hs. unfold int_arg, signed_of. rewrite Hs. destruct q.
  - change (qualifier_char Default =? ch "h") with false. unfold i32, u32. Z.to_euclidean_division_equations; lia.
  - change (qualifier_char Short =? ch "h") with true. cbv zeta match. assert (i16 (u16 v) = i16 v) as ->.
    { unfold i16, u16. Z.to_euclidean_division_equations; lia. }
    assert (-32768 <= i16 v < 32768) by (unfold i16; Z.to_euclidean_division_equations; lia). unfold i32, u32. Z.to_euclidean_division_equations; lia.
  - change (qualifier_char Long =? ch "h") with false. unfold i32, u32. Z.to_euclidean_division_equations; lia.
Qed.
Lemma unsigned_value f q v : has SIGN f = false -> u32 (i32 (int_arg f (qualifier_char q) v)) = unsigned_of q v.
Proof.
  intros Hs. unfold int_arg, unsigned_of. rewrite Hs. destruct q.
  - change (qualifier_char Default =? ch "h") with false. unfold i32, u32. Z.to_euclidean_division_equations; lia.
  - change (qualifier_char Short =? ch "h") with true. cbv zeta match. pose proof (u16_range v).
    unfold i32, u32. Z.to_euclidean_division_equations; lia.
  - change (qualifier_char Long =? ch "h") with false. unfold i32, u32. Z.to_euclidean_division_equations; lia.
Qed.

(** The flags of a signed conversion, and of one with large digits. *)
Lemma signed_flags fl :
  let f := Z.lor (bits fl) SIGN in
  has SIGN f = true /\ has LARGE f = false /\ has LEFT f = bool_decide (Minus ∈ fl) /\ has ZEROPAD f = bool_decide (Zero ∈ fl) /\
  has PLUS f = bool_decide (Plus ∈ fl) /\ has SPACE f = bool_decide (Blank ∈ fl).
Proof.
  cbv zeta. destruct (has_sign fl) as [_ L]. rewrite <- !has_bits. unfold bit, SIGN, LARGE, LEFT, ZEROPAD, PLUS, SPACE in *.
  split; [rewrite has_lor; apply orb_true_r|]. by rewrite !has_extra by lia.
Qed.
Lemma unsigned_flags fl up :
  let f := if (up : bool) then Z.lor (bits fl) LARGE else bits fl in
  has SIGN f = false /\ has LARGE f = up /\ has LEFT f = bool_decide (Minus ∈ fl) /\ has ZEROPAD f = bool_decide (Zero ∈ fl).
Proof.
  cbv zeta. destruct (has_sign fl) as [S L]. rewrite <- !has_bits. unfold bit, SIGN, LARGE, LEFT, ZEROPAD in *.
  destruct up; [|done]. rewrite (has_extra 1), (has_extra 4), (has_extra 0) by lia. split_and!; try done.
  rewrite has_lor. apply orb_true_r.
Qed.

Lemma signed_text_ok d fl w p v q :
  plain_use d fl w p (Word v) -> (conversion_of d = Decimal \/ conversion_of d = Integer) -> q = qualifier_of d ->
  int_text (i32 (int_arg (Z.lor (bits fl) SIGN) (qualifier_char q) v)) 10 (default (-1) w) (default (-1) p) (Z.lor (bits fl) SIGN) =
  Some (signed_text fl w p (signed_of q v)).
Proof.
  intros (Hw & Hp & H) Hd ->. destruct (signed_flags fl) as (Es & El & Em & Ez & Eplus & Eb). rewrite signed_value by done.
  assert (signed_of (qualifier_of d) v <> -2147483648 /\ (Zero ∈ fl -> p = None \/ Minus ∈ fl)) as [Hn Hz] by (by destruct Hd as [E|E]; rewrite E in H).
  rewrite (int_text_in_field _ _ fl) by done. unfold signed_text, sign_text, magnitude. rewrite Es, El, Eplus, Eb.
  change (radix 10) with 10. do 2 f_equal. destruct (_ <? 0); [done|].
  destruct (decide (Plus ∈ fl)); [by rewrite bool_decide_true|]. rewrite bool_decide_false by done.
  destruct (decide (Blank ∈ fl)); [by rewrite bool_decide_true|by rewrite bool_decide_false].
Qed.
Lemma unsigned_text_ok d fl w p v q up base :
  plain_use d fl w p (Word v) -> (conversion_of d = Unsigned \/ exists b, conversion_of d = Hex b) -> q = qualifier_of d ->
  let f := if (up : bool) then Z.lor (bits fl) LARGE else bits fl in
  int_text (i32 (int_arg f (qualifier_char q) v)) base (default (-1) w) (default (-1) p) f =
  Some (unsigned_text fl w p (numeral up (radix base) (unsigned_of q v))).
Proof.
  intros (Hw & Hp & H) Hd ->. cbv zeta. destruct (unsigned_flags fl up) as (Es & El & Em & Ez). set (f := if up then _ else _) in *.
  assert (Zero ∈ fl -> p = None \/ Minus ∈ fl) as Hz by (by destruct Hd as [E|[b E]]; rewrite E in H).
  rewrite (int_text_in_field _ _ fl) by (done || (intros; congruence)). unfold unsigned_text, sign_text, magnitude.
  by rewrite Es, El, unsigned_value.
Qed.

Lemma char_text_ok fl w v : match w with None => True | Some w => 0 <= w <= 2 ^ 30 - 16 end ->
  char_text (bits fl) (default (-1) w) v = in_field fl false w [] [u8 v].
Proof.
  intros Hw. unfold char_text, in_field. pose proof (has_bits Minus fl) as E. cbn [bit] in E. rewrite E.
  assert (spaces (default (-1) w - 1) = spaces (default 0 w - Z.of_nat (length ([] ++ [u8 v])))) as ->.
  { destruct w; cbn [from_option id]; [f_equal; cbn; lia|]. by rewrite !spaces_none by (cbn; lia). }
  destruct (decide (Minus ∈ fl)); [by rewrite bool_decide_true|by rewrite bool_decide_false].
Qed.
Lemma str_text_ok fl w p t :
  match w with None => True | Some w => 0 <= w <= 2 ^ 30 - 16 end ->
  match p with None => True | Some p => 1 <= p <= 2 ^ 30 - 16 end ->
  (forall w', w = Some w' -> Z.of_nat (length (cut_text p t)) <= w') ->
  str_text (bits fl) (default (-1) w) (default (-1) p) t = in_field fl false w [] (cut_text p t).
Proof.
  intros Hw Hp Hc. unfold str_text.
  assert ((if 0 <? default (-1) p then take (Z.to_nat (default (-1) p)) (if default (-1) w <? 0 then t else take (Z.to_nat (default (-1) w)) t)
           else (if default (-1) w <? 0 then t else take (Z.to_nat (default (-1) w)) t)) = cut_text p t) as ->.
  { destruct p as [p|]; cbn [from_option id cut_text] in *.
    - replace (0 <? p) with true by lia. destruct w as [w|]; cbn [from_option id]; [|done]. specialize (Hc w eq_refl).
      replace (w <? 0) with false by lia. rewrite take_take. rewrite length_take in Hc.
      destruct (decide (Z.to_nat p <= Z.to_nat w)%nat); [f_equal; lia|]. by rewrite !take_ge by lia.
    - change (0 <? -1) with false. destruct w as [w|]; cbn [from_option id]; [|done]. specialize (Hc w eq_refl).
      replace (w <? 0) with false by lia. rewrite take_ge; [done|lia]. }
  unfold in_field. pose proof (has_bits Minus fl) as E. cbn [bit] in E. rewrite E. cbn [app].
  assert (spaces (default (-1) w - Z.of_nat (length (cut_text p t))) = spaces (default 0 w - Z.of_nat (length (cut_text p t)))) as ->.
  { destruct w; [done|]. by rewrite !spaces_none by (cbn; lia). }
  destruct (decide (Minus ∈ fl)); [by rewrite bool_decide_true|by rewrite bool_decide_false].
Qed.

(** A test of two given characters. *)
Ltac chars := repeat match goal with |- context [ch ?a =? ch ?b] => let v := eval vm_compute in (ch a =? ch b) in change (ch a =? ch b) with v end; cbn [orb].

Lemma conv_text_piece d fl w p a args u :
  plain_use d fl w p a -> value_text d fl w p a = Some u ->
  conv_text (conversion_char (conversion_of d)) (bits fl) (default (-1) w) (default (-1) p) (qualifier_char (qualifier_of d)) (a :: args) =
    Some (u, args).
Proof.
  intros H E. pose proof H as (Hw & Hp & Hk). unfold value_text in E. unfold conv_text.
  destruct (conversion_of d) as [| | |up| |] eqn:Ed; cbn [conversion_char].
  - destruct a as [v|]; [|done]. injection E as <-. chars. rewrite (signed_text_ok d) by (done || by left). done.
  - destruct a as [v|]; [|done]. injection E as <-. chars. rewrite (signed_text_ok d) by (done || by right). done.
  - destruct a as [v|]; [|done]. injection E as <-. chars.
    by rewrite (unsigned_text_ok d fl w p v _ false 10 H (or_introl Ed) eq_refl).
  - destruct a as [v|]; [|done]. injection E as <-. assert (exists b, conversion_of d = Hex b) as He by eauto.
    destruct up; cbn [conversion_char]; chars; [by rewrite (unsigned_text_ok d fl w p v _ true 16 H (or_intror He) eq_refl)|
      by rewrite (unsigned_text_ok d fl w p v _ false 16 H (or_intror He) eq_refl)].
  - destruct a as [v|]; [|done]. injection E as <-. chars. rewrite wide_default by done. by rewrite char_text_ok.
  - destruct a as [|[s|]]; [done| |done]. chars. cbn [from_option id]. destruct (until_nul s) as [t|] eqn:Es; [|done].
    injection E as <-. cbn [mbind option_bind]. rewrite wide_default by done. rewrite str_text_ok; [done..|].
    intros w' Hw'. by apply Hk.
Qed.

Lemma formatted_formats ps args t : formatted ps args t -> formats (render ps) args t.
Proof.
  unfold render. induction 1 as [args|c ps args t Hc Hc' _ IH|ps args t _ IH|d ps args args1 args2 a fl w p u t Hd Ew Ep Hu Eu _ IH].
  - apply formats_end.
  - cbn. by apply formats_char.
  - cbn. apply (formats_conv _ args 0 (-1) (-1) 0 (ch "%") (mjoin (render_piece <$> ps) ++ [NUL]) args [ch "%"] args); [done|done|exact IH].
  - cbn [fmap list_fmap mjoin list_join render_piece app]. rewrite <- (assoc_L app).
    pose proof Hu as (Hw & Hp & _). eapply formats_conv.
    + apply (directive_render d fl w p args args1 (a :: args2)); try done. destruct w; cbn; lia.
    + by apply conv_text_piece.
    + destruct (Z.eqb_spec (conversion_char (conversion_of d)) NUL) as [E|_]; [|exact IH].
      by destruct (conversion_of d) as [| | |[]| |].
Qed.

(** ** The buffer holds the first part of the text *)

(** [o] with the text [t] written to it, as far as it fits below [e]. *)
Definition holds (e : Z) (o t : list Z) : sink :=
  mk_sink (take (Z.to_nat e) t ++ drop (Z.to_nat e `min` length t) o) (Z.of_nat (length t)).

Section Emits.
Context (e : Z) (o : list Z) (limit : Z).
Context (He : 0 <= e) (Hfit : Z.min e limit <= Z.of_nat (length o)).
Implicit Types (t u : list Z) (c w n : Z).

(** [f] appends [u] to the text, and returns [r]. *)
Definition emits {A} (u : list Z) (r : A) (f : sink -> result (A * sink)) : Prop :=
  forall t, Z.of_nat (length (t ++ u)) <= limit -> f (holds e o t) = Ok (r, holds e o (t ++ u)).
Definition writes (u : list Z) (f : sink -> result sink) : Prop :=
  forall t, Z.of_nat (length (t ++ u)) <= limit -> f (holds e o t) = Ok (holds e o (t ++ u)).

Lemma put_writes c : writes [c] (put e c).
Proof using He Hfit.
  intros t Hl. rewrite length_app in Hl. cbn in Hl. unfold put, holds. cbn [out str].
  destruct (Z.ltb_spec (Z.of_nat (length t)) e) as [Hlt|Hge].
  - rewrite (take_ge t) by lia. rewrite Nat.min_r by lia.
    rewrite aset_Ok by (rewrite length_app, length_drop; lia). cbn [mbind result_bind]. f_equal.
    f_equal; [|rewrite length_app; cbn; lia]. rewrite Nat2Z.id, take_ge by (rewrite length_app; cbn; lia).
    rewrite insert_app_r_alt by lia. rewrite Nat.sub_diag, <- (assoc_L app). f_equal.
    rewrite length_app. cbn. rewrite Nat.min_r by lia.
    rewrite (drop_S o (o !!! length t) (length t)); [|apply list_lookup_lookup_total_lt; lia]. cbn. by rewrite Nat.add_comm.
  - cbn [mbind result_bind]. f_equal. f_equal; [|rewrite length_app; cbn; lia].
    rewrite take_app_le by lia. rewrite length_app. f_equal. f_equal. cbn. lia.
Qed.

Lemma writes_nil : writes [] (fun s => Ok s).
Proof. intros t _. by rewrite app_nil_r. Qed.

Lemma pad_emits n c w :
  0 <= n -> -2147483647 <= w <= 2147483647 ->
  emits (replicate (Z.to_nat (w - n)) c) (Z.min n w - 1) (pad e n c w).
Proof using He Hfit.
  intros Hn Hw. unfold pad.
  assert (forall k w, -2147483647 <= w <= 2147483647 -> Z.to_nat (w - n) = k -> forall fuel, (k < fuel)%nat ->
    emits (replicate k c) (Z.min n w - 1) (put_while fuel e n c w)) as H.
  { clear w Hw. induction k as [|k IH]; intros w Hw Ek fuel Hf t Hl; (destruct fuel as [|fuel]; [lia|]); cbn [put_while];
      rewrite chk32_Ok by lia; cbn [mbind result_bind].
    - replace (n <? w) with false by lia. cbn [replicate]. by replace (Z.min n w) with w by lia; rewrite app_nil_r.
    - replace (n <? w) with true by lia. cbn [replicate] in Hl |- *. rewrite length_app in Hl. cbn in Hl.
      rewrite put_writes by (rewrite length_app; cbn; lia). cbn [mbind result_bind].
      rewrite (IH (w - 1)); [|lia|lia|lia|rewrite !length_app; cbn; lia]. rewrite <- (assoc_L app). cbn.
      by replace (Z.min n (w - 1)) with (Z.min n w) by lia. }
  intros t. apply H; lia.
Qed.

Lemma pad_before_emits c w :
  -2147483647 <= w <= 2147483647 ->
  emits (replicate (Z.to_nat (w - 1)) c) (Z.min 0 (w - 1)) (pad_before e c w).
Proof using He Hfit.
  intros Hw. unfold pad_before.
  assert (forall k w, -2147483647 <= w <= 2147483647 -> Z.to_nat (w - 1) = k -> forall fuel, (k < fuel)%nat ->
    emits (replicate k c) (Z.min 0 (w - 1)) (put_before fuel e c w)) as H.
  { clear w Hw. induction k as [|k IH]; intros w Hw Ek fuel Hf t Hl; (destruct fuel as [|fuel]; [lia|]); cbn [put_before].
    - rewrite chk32_Ok by lia. cbn [mbind result_bind]. replace (0 <? w - 1) with false by lia.
      cbn [replicate]. by replace (Z.min 0 (w - 1)) with (w - 1) by lia; rewrite app_nil_r.
    - rewrite chk32_Ok by lia. cbn [mbind result_bind]. replace (0 <? w - 1) with true by lia.
      cbn [replicate] in Hl |- *. rewrite length_app in Hl. cbn in Hl.
      rewrite put_writes by (rewrite length_app; cbn; lia). cbn [mbind result_bind].
      rewrite (IH (w - 1)); [|lia|lia|lia|rewrite !length_app; cbn; lia]. rewrite <- (assoc_L app). cbn.
      by replace (Z.min 0 (w - 1 - 1)) with (Z.min 0 (w - 1)) by lia. }
  intros t. apply H; lia.
Qed.

(** The numeral in [tmp], written from its end. *)
Lemma put_digits_writes pb tmp k :
  (k <= length tmp)%nat ->
  writes (if pb =? 0 then [] else rev (take k tmp)) (put_digits e pb tmp k).
Proof using He Hfit.
  destruct (Z.eqb_spec pb 0) as [->|Hp].
  - intros _. destruct k; cbn [put_digits]; apply writes_nil.
  - induction k as [|k IH]; intros Hk t Hl; cbn [put_digits].
    + cbn. by rewrite app_nil_r.
    + apply Z.eqb_neq in Hp as ->. destruct (lookup_lt_is_Some_2 tmp k ltac:(lia)) as [d Ed].
      rewrite (aget_Ok _ _ d) by (rewrite ?Nat2Z.id; done || lia). cbn [mbind result_bind].
      rewrite (take_S_r _ _ d Ed), rev_app_distr in Hl |- *. cbn [rev app] in Hl |- *.
      rewrite length_app in Hl. cbn in Hl.
      rewrite put_writes by (rewrite length_app; cbn; lia). cbn [mbind result_bind].
      rewrite IH; [by rewrite <- (assoc_L app)|lia|rewrite !length_app; cbn; lia].
Qed.
End Emits.

(** ** Flags *)

Definition clear_pad (flags : Z) : Z := if has LEFT flags then Z.land flags (Z.lnot ZEROPAD) else flags.
Lemma clear_pad_has k flags : 0 < k -> has (Z.shiftl 1 k) (clear_pad flags) = has (Z.shiftl 1 k) flags.
Proof.
  intros Hk. unfold clear_pad. destruct (has LEFT flags); [|done]. rewrite !has_bit, Z.land_spec, Z.lnot_spec by lia.
  unfold ZEROPAD. rewrite Z.shiftl_1_l, Z.pow2_bits_false by lia. apply andb_true_r.
Qed.
Lemma clear_pad_zero flags : has ZEROPAD (clear_pad flags) = has ZEROPAD flags && negb (has LEFT flags).
Proof.
  unfold clear_pad. destruct (has LEFT flags); [|by rewrite andb_true_r]. rewrite andb_false_r.
  unfold ZEROPAD. rewrite has_bit, Z.land_spec, Z.lnot_spec by lia. cbn. apply andb_false_r.
Qed.
Lemma has_either flags : has (Z.lor ZEROPAD LEFT) flags = has ZEROPAD flags || has LEFT flags.
Proof.
  unfold has. rewrite Z.land_lor_distr_r. rewrite <- negb_andb. f_equal. apply eq_iff_eq_true.
  rewrite andb_true_iff, !Z.eqb_eq. apply Z.lor_eq_0_iff.
Qed.

(** ** Digits *)

Lemma digit_table up d : 0 <= d < 16 -> aget (if up : bool then large_digits else small_digits) d = Ok (digit_char up d).
Proof.
  intros H. assert (d ∈ seqZ 0 16) as Hd by (apply elem_of_seqZ; lia).
  clear H. revert d Hd. apply Forall_forall. destruct up; vm_compute; by repeat constructor.
Qed.

Lemma radix_pos base : radix base = 10 \/ radix base = 16.
Proof. unfold radix. destruct (_ =? _); lia. Qed.

Lemma divide_radix m base : 0 <= m < 2 ^ 32 -> divide (i32 m) base = (m mod radix base, i32 (m / radix base)).
Proof.
  intros Hm. assert (u32 (i32 m) = m) as E by (unfold u32, i32; Z.to_euclidean_division_equations; lia).
  unfold divide, radix. rewrite E. by destruct (base =? 10).
Qed.

Lemma digits_length fuel b n : (length (digits_of fuel b n) <= fuel)%nat.
Proof. revert n. induction fuel as [|fuel IH]; intros n; cbn; [lia|]. destruct (n =? 0); cbn; [lia|]. specialize (IH (n / b)). lia. Qed.

Lemma store_digits_ok fuel up base m tmp i :
  0 <= m < 2 ^ 32 -> m < radix base ^ Z.of_nat fuel -> (i + fuel <= length tmp)%nat ->
  let ds := digits_of fuel (radix base) m in
  exists tmp', store_digits (S fuel) (if up : bool then large_digits else small_digits) base (i32 m) tmp (Z.of_nat i)
      = Ok (tmp', Z.of_nat (i + length ds)) /\ length tmp' = length tmp /\
    take (i + length ds) tmp' = take i tmp ++ map (digit_char up) ds.
Proof.
  pose proof (radix_pos base) as Hr. revert m tmp i. induction fuel as [|fuel IH]; intros m tmp i Hm Hp Hi; cbv zeta.
  - assert (m = 0) as -> by (cbn in Hp; lia). exists tmp. cbn. rewrite !Nat.add_0_r, app_nil_r. done.
  - cbn [digits_of]. destruct (Z.eqb_spec m 0) as [->|Hm0].
    { exists tmp. cbn [store_digits]. change (i32 0 =? 0) with true. cbn. by rewrite !Nat.add_0_r, app_nil_r. }
    cbn [store_digits]. fold (store_digits (S fuel)). replace (i32 m =? 0) with false
      by (unfold i32; Z.to_euclidean_division_equations; lia).
    rewrite divide_radix by done. rewrite digit_table by (pose proof (Z.mod_pos_bound m (radix base)); lia).
    cbn [mbind result_bind]. rewrite aset_Ok by lia. cbn [mbind result_bind]. rewrite Nat2Z.id.
    set (tmp1 := <[i := _]> tmp). replace (Z.of_nat i + 1) with (Z.of_nat (S i)) by lia.
    destruct (IH (m / radix base) tmp1 (S i)) as (tmp' & E & L & T).
    + split; [apply Z.div_pos; lia|]. apply Z.div_lt_upper_bound; nia.
    + apply Z.div_lt_upper_bound; [lia|]. replace (Z.of_nat (S fuel)) with (Z.succ (Z.of_nat fuel)) in Hp by lia.
      rewrite Z.pow_succ_r in Hp by lia. lia.
    + unfold tmp1. rewrite length_insert. lia.
    + exists tmp'. cbn [length map]. rewrite Nat.add_succ_r. split; [exact E|].
      split; [rewrite L; apply length_insert|]. rewrite <- Nat.add_succ_l, T. unfold tmp1.
      rewrite (take_S_r _ _ (digit_char up (m mod radix base))) by (apply list_lookup_insert_eq; lia).
      rewrite take_insert_ge by lia. by rewrite <- (assoc_L app).
Qed.

Lemma get_sign_ok flags num :
  -2147483648 <= num < 2147483648 -> (has SIGN flags = true -> num <> -2147483648) ->
  let m := magnitude flags num in
  0 <= m < 2 ^ 32 /\
  exists sg, get_sign (clear_pad flags) num = Ok (sg, i32 m) /\ sign_text flags num = if sg =? 0 then [] else [sg].
Proof.
  intros Hn Hs. cbv zeta. unfold get_sign, sign_text, magnitude.
  unfold SIGN, PLUS, SPACE in *. rewrite !clear_pad_has by lia. destruct (has _ flags).
  - split; [lia|]. destruct (Z.ltb_spec num 0).
    + rewrite chk32_Ok by lia. cbn [mbind result_bind]. exists (ch "-"). rewrite i32_small by lia.
      by replace (Z.abs num) with (- num) by lia.
    + replace (i32 (Z.abs num)) with num by (rewrite i32_small; lia).
      destruct (has _ flags); [by exists (ch "+")|]. destruct (has _ flags); [by exists (ch " ")|by exists 0].
  - pose proof (u32_range num). split; [lia|]. exists 0. split; [|done]. do 2 f_equal.
    unfold i32, u32. Z.to_euclidean_division_equations; lia.
Qed.

Lemma number_digits_ok base flags m :
  0 <= m < 2 ^ 32 ->
  let ds := numeral (has LARGE flags) (radix base) m in
  exists tmp, number_digits base (clear_pad flags) (i32 m) = Ok (tmp, Z.of_nat (length ds)) /\ length tmp = 16%nat /\
    rev (take (length ds) tmp) = ds /\ (1 <= length ds <= 16)%nat.
Proof.
  intros Hm. cbv zeta. unfold number_digits, numeral. unfold LARGE. rewrite clear_pad_has by lia. fold LARGE. destruct (Z.eqb_spec m 0) as [->|Hm0].
  - eexists. split; [done|]. split; [done|]. split; [done|]. cbn. lia.
  - replace (i32 m =? 0) with false by (unfold i32; Z.to_euclidean_division_equations; lia).
    destruct (store_digits_ok 15 (has LARGE flags) base m (replicate 16 0) 0) as (tmp & E & L & T); [done| |cbn; lia|].
    { change (Z.of_nat 15) with 15. destruct (radix_pos base) as [-> | ->]; lia. }
    rewrite length_replicate in L. cbn [take app Nat.add] in E, T. exists tmp. rewrite length_map, length_rev.
    split; [exact E|]. split; [done|]. rewrite T. split; [by rewrite map_rev|].
    pose proof (digits_length 15 (radix base) m). split; [|lia]. cbn [digits_of]. apply Z.eqb_neq in Hm0 as ->. cbn. lia.
Qed.

(** ** Strings *)

Lemma until_nul_some s t : until_nul s = Some t -> exists r, s = t ++ NUL :: r /\ NUL ∉ t.
Proof.
  revert t. induction s as [|c s IH]; intros t; cbn; [done|]. destruct (Z.eqb_spec c NUL) as [->|Hc].
  - intros [= <-]. exists s. split; [done|apply not_elem_of_nil].
  - destruct (until_nul s) as [t'|]; [|done]. intros [= <-]. destruct (IH t' eq_refl) as (r & -> & Hn).
    exists r. split; [done|]. apply not_elem_of_cons. by split.
Qed.

Lemma str_len_ok t r len w :
  NUL ∉ t -> (w < 0 \/ len <= w) -> 0 <= len ->
  str_len len w (t ++ NUL :: r) = Ok (if w <? 0 then len + Z.of_nat (length t) else Z.min w (len + Z.of_nat (length t))).
Proof.
  revert len. induction t as [|c t IH]; intros len Hn Hw Hl; cbn [str_len app].
  - change (NUL =? NUL) with true. destruct (Z.eqb_spec len w); f_equal; cbn; destruct (Z.ltb_spec w 0); lia.
  - apply not_elem_of_cons in Hn as [Hc Hn]. destruct (Z.eqb_spec len w) as [->|Hne].
    + f_equal. destruct (Z.ltb_spec w 0); lia.
    + replace (c =? NUL) with false by lia. rewrite IH by (done || lia). cbn [length].
      destruct (w <? 0); f_equal; lia.
Qed.

Lemma shorter {A} (t u : list A) n : Z.of_nat (length (t ++ u)) <= n -> Z.of_nat (length t) <= n.
Proof. rewrite length_app. lia. Qed.

Section Numbers.
Context (e : Z) (o : list Z) (limit : Z).
Context (He : 0 <= e) (Hfit : Z.min e limit <= Z.of_nat (length o)).

Lemma pad_nothing n c w :
  0 <= n -> w <= n -> -2147483647 <= w <= 2147483647 -> forall t, Z.of_nat (length t) <= limit -> pad e n c w (holds e o t) = Ok (w - 1, holds e o t).
Proof using He Hfit.
  intros Hn Hw Hb t Hl. pose proof (pad_emits e o limit He Hfit n c w ltac:(lia) ltac:(lia) t) as H.
  replace (Z.to_nat (w - n)) with 0%nat in H by lia. cbn [replicate] in H. rewrite app_nil_r in H.
  replace (Z.min n w) with w in H by lia. by apply H.
Qed.

Lemma pad_zero c w t :
  -2147483647 <= w <= 2147483647 -> Z.of_nat (length (t ++ replicate (Z.to_nat w) c)) <= limit ->
  pad e 0 c w (holds e o t) = Ok (Z.min 0 w - 1, holds e o (t ++ replicate (Z.to_nat w) c)).
Proof using He Hfit.
  intros Hw Hl. pose proof (pad_emits e o limit He Hfit 0 c w ltac:(lia) Hw t) as H.
  rewrite Z.sub_0_r in H. by apply H.
Qed.

Lemma number_front_ok flags sg size :
  -2 ^ 30 - 1 <= size <= 2 ^ 30 ->
  let sign := if sg =? 0 then [] else [sg] in
  let n := size - Z.of_nat (length sign) in
  let left := has LEFT flags in
  exists size', -2 ^ 31 < size' <= 2 ^ 30 /\ spaces size' = (if left then spaces n else []) /\
    emits e o limit (if left then sign else if has ZEROPAD flags then sign ++ zeros n else spaces n ++ sign) size'
      (number_front e (clear_pad flags) sg size).
Proof using He Hfit.
  intros Hs. cbv zeta. unfold number_front. rewrite has_either, clear_pad_zero. unfold LEFT. rewrite clear_pad_has by lia.
  fold LEFT. destruct (has LEFT flags); cbn [negb]; [rewrite andb_false_r; cbn [orb negb]|destruct (has ZEROPAD flags); cbn [orb andb negb]].
  - destruct (Z.eqb_spec sg 0) as [->|Hg]; cbn [negb].
    + exists size. split; [lia|]. split; [f_equal; cbn; lia|]. intros t _. cbn. by rewrite app_nil_r.
    + exists (size - 1). split; [lia|]. split; [done|]. intros t Hl. cbn [mbind result_bind].
      rewrite (put_writes e o limit He Hfit) by done. cbn [mbind result_bind]. by rewrite chk32_Ok by lia.
  - destruct (Z.eqb_spec sg 0) as [->|Hg]; cbn [negb mbind result_bind].
    + exists (Z.min 0 size - 1). split; [lia|].
      split; [unfold spaces; by replace (Z.to_nat (Z.min 0 size - 1)) with 0%nat by lia|].
      intros t Hl. cbn [app length] in *. rewrite Z.sub_0_r in *. by rewrite pad_zero by (done || lia).
    + exists (Z.min 0 (size - 1) - 1). split; [lia|].
      split; [unfold spaces; by replace (Z.to_nat (Z.min 0 (size - 1) - 1)) with 0%nat by lia|].
      intros t Hl. cbn [length app] in *. rewrite (put_writes e o limit He Hfit) by (rewrite length_app in *; cbn in *; lia).
      cbn [mbind result_bind]. rewrite chk32_Ok by lia. cbn [mbind result_bind].
      change (sg :: zeros _) with ([sg] ++ zeros (size - 1)) in *. rewrite (assoc_L app) in *.
      by rewrite pad_zero by (done || lia).
  - destruct (Z.eqb_spec sg 0) as [->|Hg]; cbn [negb andb mbind result_bind app length] in *.
    + exists (Z.min 0 size - 1 - 1). split; [lia|].
      split; [unfold spaces; by replace (Z.to_nat (Z.min 0 size - 1 - 1)) with 0%nat by lia|].
      intros t Hl. rewrite app_nil_r, Z.sub_0_r in *. rewrite pad_zero by (done || lia).
      cbn [mbind result_bind]. rewrite pad_nothing by (done || lia). done.
    + set (size1 := if 0 <? size then size - 1 else size).
      assert (spaces (size - Z.of_nat 1) = replicate (Z.to_nat size1) (ch " ")) as Es.
      { unfold spaces, size1. f_equal. destruct (Z.ltb_spec 0 size); lia. }
      assert (-2 ^ 30 - 1 <= size1 <= 2 ^ 30) as Hs1 by (unfold size1; destruct (Z.ltb_spec 0 size); lia).
      exists (Z.min 0 size1 - 1 - 1 - 1). split; [lia|].
      split; [unfold spaces; by replace (Z.to_nat (Z.min 0 size1 - 1 - 1 - 1)) with 0%nat by lia|].
      intros t Hl. rewrite Es, (assoc_L app) in *. rewrite pad_zero by (lia || by eapply shorter).
      cbn [mbind result_bind]. rewrite (put_writes e o limit He Hfit) by done. cbn [mbind result_bind].
      rewrite chk32_Ok by lia. cbn [mbind result_bind]. rewrite pad_nothing by (done || lia). done.
Qed.

Lemma number_writes num base w precision flags :
  -2147483648 <= num < 2147483648 -> (has SIGN flags = true -> num <> -2147483648) ->
  -1 <= w <= 2 ^ 30 - 16 -> -1 <= precision <= 2 ^ 30 - 16 ->
  writes e o limit (number_text num base w precision flags) (print_number e num base w precision flags).
Proof using He Hfit.
  intros Hn Hs Hw Hp t Hl. unfold print_number. cbv zeta. fold (clear_pad flags).
  destruct (get_sign_ok flags num Hn Hs) as (Hm & sg & Esg & Est). rewrite Esg. cbn [mbind result_bind].
  destruct (number_digits_ok base flags _ Hm) as (tmp & Etmp & Ltmp & Hrev & Hlen).
  rewrite Etmp. cbn [mbind result_bind]. clear Esg Etmp.
  unfold number_text in *. rewrite Est in *. set (ds := numeral _ _ _) in *. clearbody ds.
  set (p' := if precision <? Z.of_nat (length ds) then Z.of_nat (length ds) else precision).
  assert (p' = Z.max (Z.of_nat (length ds)) precision) as Ep by (unfold p'; destruct (Z.ltb_spec precision (Z.of_nat (length ds))); lia).
  rewrite Ep. clear p' Ep. rewrite chk32_Ok by lia. cbn [mbind result_bind].
  set (len := Z.of_nat (length ds)) in *. set (n := w - len `max` precision) in *.
  destruct (number_front_ok flags sg n) as (size' & Hs' & Esp & F); [lia|]. cbv zeta in F, Esp.
  set (sign := if sg =? 0 then [] else [sg]) in *. set (m := n - Z.of_nat (length sign)) in *.
  set (front := if has LEFT flags then sign else if has ZEROPAD flags then sign ++ zeros m else spaces m ++ sign) in *.
  assert (forall u, (if has LEFT flags then sign ++ u ++ spaces m else if has ZEROPAD flags then sign ++ zeros m ++ u else spaces m ++ sign ++ u)
    = front ++ u ++ spaces size') as Eu.
  { intros u. unfold front. rewrite Esp. destruct (has LEFT flags); [done|].
    rewrite app_nil_r. by destruct (has ZEROPAD flags); rewrite <- (assoc_L app). }
  rewrite Eu in *. clear Eu. rewrite <- (assoc_L app) in Hl |- *. rewrite !(assoc_L app) in Hl |- *.
  rewrite F by (do 3 apply shorter in Hl; exact Hl). cbn [mbind result_bind].
  rewrite (pad_emits e o limit He Hfit) by (lia || (replace (Z.to_nat _) with (Z.to_nat (precision - len)) by lia; by do 2 apply shorter in Hl)).
  cbn [mbind result_bind]. replace (Z.to_nat (len `max` precision - len)) with (Z.to_nat (precision - len)) by lia.
  rewrite (Nat2Z.id (length ds) : Z.to_nat len = length ds).
  rewrite (put_digits_writes e o limit He Hfit) by (lia || (rewrite Hrev; by apply shorter in Hl)).
  cbn [mbind result_bind]. rewrite Hrev. rewrite pad_zero by (done || lia). done.
Qed.

Lemma int_writes num base w precision flags u :
  -2147483648 <= num < 2147483648 -> int_text num base w precision flags = Some u ->
  writes e o limit u (print_number e num base w precision flags).
Proof using He Hfit.
  unfold int_text, wide. intros Hn. destruct (_ && _) eqn:E; [|done]. intros [= <-].
  apply andb_true_iff in E as [[Hw Hp]%andb_true_iff Hs]. apply number_writes; lia.
Qed.

Lemma char_emits flags w v args :
  wide w = true -> emits e o limit (char_text flags w v) args (conv_c e flags w (Word v :: args)).
Proof using He Hfit.
  unfold wide, char_text. intros Hw t Hl. unfold conv_c. destruct (has LEFT flags); cbn [negb va_word mbind result_bind].
  - rewrite (assoc_L app) in Hl |- *. rewrite (put_writes e o limit He Hfit) by by eapply shorter.
    cbn [mbind result_bind]. by rewrite (pad_before_emits e o limit He Hfit) by (done || lia).
  - rewrite (assoc_L app) in Hl |- *. rewrite (pad_before_emits e o limit He Hfit) by (lia || by eapply shorter).
    cbn [mbind result_bind]. rewrite (put_writes e o limit He Hfit) by done. cbn [mbind result_bind].
    set (w' := Z.min 0 (w - 1)). pose proof (pad_before_emits e o limit He Hfit (ch " ") w') as P.
    replace (Z.to_nat (w' - 1)) with 0%nat in P by lia. unfold emits in P. cbn [replicate] in P.
    specialize (P ltac:(lia) ((t ++ spaces (w - 1)) ++ [u8 v])). rewrite app_nil_r in P. unfold spaces in *. by rewrite P.
Qed.

Lemma put_str_writes n s : (n <= length s)%nat -> writes e o limit (take n s) (put_str e n s).
Proof using He Hfit.
  revert n. induction s as [|c s IH]; intros n Hn t Hl; destruct n as [|n]; cbn [put_str take] in *;
    [by rewrite app_nil_r|cbn in Hn; lia|by rewrite app_nil_r|].
  change (c :: take n s) with ([c] ++ take n s) in *. rewrite (assoc_L app) in *.
  rewrite (put_writes e o limit He Hfit) by by eapply shorter. cbn [mbind result_bind]. apply IH; [cbn in Hn; lia|done].
Qed.

Lemma str_emits flags w precision p args t :
  wide w = true -> until_nul (default null_text p) = Some t ->
  emits e o limit (str_text flags w precision t) args (conv_s e flags w precision (Str p :: args)).
Proof using He Hfit.
  unfold wide. intros Hw Ht. destruct (until_nul_some _ _ Ht) as (r & Es & Hn). intros t0 Hl.
  unfold conv_s. cbn [va_str mbind result_bind]. rewrite Es. rewrite str_len_ok by (done || lia). cbn [mbind result_bind].
  rewrite Z.add_0_l. unfold str_text in Hl |- *. set (s1 := if w <? 0 then t else take (Z.to_nat w) t) in *.
  set (s2 := if 0 <? precision then take (Z.to_nat precision) s1 else s1) in *.
  set (len := if w <? 0 then _ else _).
  assert (len = Z.of_nat (length s1)) as El.
  { unfold len, s1. destruct (Z.ltb_spec w 0); [done|]. rewrite length_take. lia. }
  set (len' := if _ && _ then precision else len).
  assert (len' = Z.of_nat (length s2)) as El'.
  { unfold len', s2. rewrite El. destruct (Z.ltb_spec 0 precision); cbn [andb]; [|done]. rewrite length_take.
    destruct (Z.ltb_spec precision (Z.of_nat (length s1))); lia. }
  assert (s2 = take (length s2) (t ++ NUL :: r)) as E2.
  { assert (s2 `prefix_of` t) as [k Ek].
    { unfold s2, s1. destruct (0 <? precision), (w <? 0); rewrite ?take_take; first [done|apply prefix_take]. }
    rewrite Ek, <- (assoc_L app), take_app_length. done. }
  assert (length s2 <= length (t ++ NUL :: r))%nat as Hs2 by (rewrite E2, length_take; lia).
  clearbody len' len s1 s2. rewrite El' in *. clear El' len' El len. rewrite Nat2Z.id.
  destruct (has LEFT flags); cbn [negb].
  - cbn [mbind result_bind]. rewrite (assoc_L app) in Hl |- *.
    rewrite (put_str_writes (length s2)) by (done || (rewrite <- E2; by eapply shorter)). rewrite <- E2. cbn [mbind result_bind].
    by rewrite (pad_emits e o limit He Hfit) by (done || lia).
  - rewrite (assoc_L app) in Hl |- *. rewrite (pad_emits e o limit He Hfit) by (lia || by eapply shorter).
    cbn [mbind result_bind]. rewrite (put_str_writes (length s2)) by (done || (rewrite <- E2; done)). rewrite <- E2. cbn [mbind result_bind].
    rewrite pad_nothing; [done|lia..|done].
Qed.

(** ** Conversions *)

Lemma conv_int_emits base flags w precision qualifier args u args' :
  match args with
  | Word v :: args => t ← int_text (i32 (int_arg flags qualifier v)) base w precision flags; Some (t, args)
  | _ => None
  end = Some (u, args') ->
  emits e o limit u args' (conv_int e base flags w precision qualifier args).
Proof using He Hfit.
  destruct args as [|[v|] args]; [done| |done]. intros (t0 & E & [= -> ->])%bind_Some t Hl.
  unfold conv_int. cbn [va_word mbind result_bind].
  rewrite (int_writes _ _ _ _ _ u) by (done || apply i32_range). done.
Qed.

Lemma convert_emits c flags w precision qualifier args u args' :
  conv_text c flags w precision qualifier args = Some (u, args') ->
  emits e o limit u args' (convert e c flags w precision qualifier args).
Proof using He Hfit.
  unfold conv_text, convert. cbv zeta.
  destruct (c =? ch "c"); [|destruct (c =? ch "s"); [|destruct (c =? ch "p"); [|destruct (c =? ch "%"); [|
    destruct (c =? ch "o"); [apply conv_int_emits|destruct (c =? ch "X"); [apply conv_int_emits|
    destruct (c =? ch "x"); [apply conv_int_emits|destruct ((c =? ch "d") || (c =? ch "i")); [apply conv_int_emits|
    destruct (c =? ch "u"); [apply conv_int_emits|]]]]]]]]].
  - destruct args as [|[v|] args]; [done| |done]. destruct (wide w) eqn:Ew; [|done]. intros [= <- <-].
    by apply char_emits.
  - destruct args as [|[|p] args]; [done|done|]. intros (t & Et & H)%bind_Some. destruct (wide w) eqn:Ew; [|done].
    injection H as <- <-. by apply str_emits.
  - destruct args as [|[v|] args]; [done| |done]. intros (t0 & E & [= -> ->])%bind_Some t Hl. unfold conv_p.
    cbn [va_word mbind result_bind]. change (Z.shiftl 4 1) with 8.
    destruct (w =? -1); cbn [mbind result_bind]; by rewrite (int_writes _ _ _ _ _ u) by (done || apply i32_range).
  - intros [= <- <-] t Hl. by rewrite (put_writes e o limit He Hfit).
  - intros [= <- <-] t Hl. destruct (c =? NUL); cbn [negb].
    + by rewrite (put_writes e o limit He Hfit).
    + change [ch "%"; c] with ([ch "%"] ++ [c]) in *. rewrite (assoc_L app) in *.
      rewrite (put_writes e o limit He Hfit) by by eapply shorter. cbn [mbind result_bind].
      by rewrite (put_writes e o limit He Hfit).
Qed.
End Numbers.

(** ** The loop over the format *)

Lemma skip_flags_suffix flags fmt r fmt' : skip_flags flags fmt = Ok (r, fmt') -> (length fmt' <= length fmt)%nat.
Proof.
  revert flags. induction fmt as [|c fmt IH]; intros flags; cbn [skip_flags]; [done|]. cbn [length].
  repeat (destruct (c =? _); [intros H; apply IH in H; lia|]). by intros [= _ <-].
Qed.

Lemma skip_atoi_suffix i s r s' : skip_atoi_loop i s = Ok (r, s') -> (length s' <= length s)%nat.
Proof.
  revert i. induction s as [|c s IH]; intros i; cbn [skip_atoi_loop]; [done|]. cbn [length].
  destruct (_ISDIGIT c); [|by intros [= _ <-]].
  intros (i1 & _ & (i2 & _ & (i3 & _ & H)%bind_Ok)%bind_Ok)%bind_Ok. apply IH in H. lia.
Qed.

Lemma tail_length {A} (l : list A) : (length (tail l) <= length l)%nat.
Proof. destruct l; cbn; lia. Qed.

Lemma directive_suffix fmt args flags w precision qualifier fmt' args' :
  directive fmt args = Ok (flags, w, precision, qualifier, fmt', args') -> (length fmt' <= length fmt)%nat.
Proof.
  unfold directive. intros ([f0 fmt0] & E0%skip_flags_suffix & H)%bind_Ok.
  apply bind_Ok in H as ([[[w1 f1] fmt1] args1] & E1 & H). apply bind_Ok in H as ([[p2 fmt2] args2] & E2 & H).
  apply bind_Ok in H as ([q3 fmt3] & E3 & [= -> -> -> -> -> ->]).
  assert (length fmt1 <= length fmt0)%nat as L1.
  { unfold get_width in E1. apply bind_Ok in E1 as (c & _ & E1). destruct (_ISDIGIT c).
    - apply bind_Ok in E1 as ([w' s'] & E%skip_atoi_suffix & [= _ _ <- _]). done.
    - destruct (_ =? _); [|by injection E1 as _ _ <- _]. apply bind_Ok in E1 as ([v a] & _ & E1).
      destruct (_ <? _); [apply bind_Ok in E1 as (? & _ & E1)|]; injection E1 as _ _ <- _; apply tail_length. }
  assert (length fmt2 <= length fmt1)%nat as L2.
  { unfold get_precision in E2. apply bind_Ok in E2 as (c & _ & E2). destruct (_ =? _); [|by injection E2 as _ <- _].
    apply bind_Ok in E2 as (c' & _ & E2). apply bind_Ok in E2 as ([[p' s'] a'] & E & [= _ <- _]).
    pose proof (tail_length fmt1). destruct (_ISDIGIT c').
    - apply bind_Ok in E as ([w' s''] & E%skip_atoi_suffix & [= _ <- _]). lia.
    - destruct (_ =? _); [|by injection E as _ <- _]. apply bind_Ok in E as ([v a] & _ & [= _ <- _]).
      pose proof (tail_length (tail fmt1)). lia. }
  unfold get_qualifier in E3. apply bind_Ok in E3 as (c & _ & E3).
  destruct (_ || _); injection E3 as _ <-; pose proof (tail_length fmt2); lia.
Qed.

Lemma loop_writes e o limit fmt args u :
  0 <= e -> Z.min e limit <= Z.of_nat (length o) -> formats fmt args u ->
  forall fuel, (length fmt <= fuel)%nat -> writes e o limit u (vsnprintf_loop (S fuel) e fmt args).
Proof.
  intros He Hfit F. induction F as [fmt args|c fmt args u Hc Hp F IH|fmt args flags w precision qualifier c fmt' args' u args'' v E T F IH];
    intros fuel Hf t Hl; cbn [vsnprintf_loop peek mbind result_bind].
  - cbn. by rewrite app_nil_r.
  - apply Z.eqb_neq in Hc as ->. apply Z.eqb_neq in Hp as ->. cbn [negb tail].
    change (c :: u) with ([c] ++ u) in *. rewrite (assoc_L app) in *.
    rewrite (put_writes e o limit He Hfit) by by eapply shorter. cbn [mbind result_bind].
    destruct fuel as [|fuel]; [cbn in Hf; lia|]. apply IH; [cbn in Hf; lia|done].
  - change (ch "%" =? NUL) with false. rewrite Z.eqb_refl. cbn [negb tail]. rewrite E.
    cbn [mbind result_bind peek tail]. rewrite (assoc_L app) in *.
    rewrite (convert_emits e o limit He Hfit _ _ _ _ _ _ _ _ T) by by eapply shorter. cbn [mbind result_bind].
    destruct fuel as [|fuel]; [cbn in Hf; lia|]. apply IH; [|done].
    apply directive_suffix in E. cbn in E, Hf. destruct (c =? NUL); cbn; lia.
Qed.

(** The bytes below [end]: all of [size], unless the buffer reaches the end of
    the address space. *)
Definition room (buf size : Z) : Z := if buf + size <? 2 ^ 32 then size else 2 ^ 32 - 1 - buf.
(** The object [o] with the text [t] cut to a string of [e] bytes. *)
Definition cut (e : Z) (t o : list Z) : list Z :=
  if e =? 0 then o
  else take (Z.to_nat (e - 1)) t ++ [NUL] ++ drop (S (Z.to_nat (e - 1) `min` length t)) o.

Lemma end_room buf size :
  0 <= buf < 2 ^ 32 -> 0 <= size < 2 ^ 32 ->
  let fin := u32 (buf + size) in
  let r := if fin <? buf then (u32 (-1), u32 (-1) - buf) else (fin, size) in
  r.1 - buf = room buf size /\ r.2 = room buf size /\ 0 <= room buf size.
Proof.
  intros Hb Hs. cbv zeta. unfold room. change (u32 (-1)) with 4294967295.
  destruct (Z.ltb_spec (buf + size) (2 ^ 32)).
  - rewrite u32_small by lia. replace (buf + size <? buf) with false by lia. cbn. lia.
  - replace (u32 (buf + size)) with (buf + size - 4294967296) by (unfold u32; Z.to_euclidean_division_equations; lia).
    replace (_ <? buf) with true by lia. cbn. lia.
Qed.

Lemma terminated e t o :
  0 < e -> Z.min e (Z.of_nat (length t) + 1) <= Z.of_nat (length o) ->
  let s := holds e o t in
  (if str s <? e then aset (out s) (str s) NUL else aset (out s) (e - 1) NUL) = Ok (cut e t o).
Proof.
  intros He Hl. cbv zeta. unfold holds, cut. cbn [str out]. replace (e =? 0) with false by lia.
  destruct (Z.ltb_spec (Z.of_nat (length t)) e).
  - rewrite (take_ge t) by lia. rewrite Nat.min_r by lia.
    rewrite aset_Ok by (rewrite length_app, length_drop; lia). rewrite Nat2Z.id.
    rewrite (take_ge t) by lia. rewrite Nat.min_r by lia. f_equal.
    rewrite insert_app_r_alt, Nat.sub_diag by lia. f_equal.
    by rewrite (drop_S o (o !!! length t) (length t)) by (apply list_lookup_lookup_total_lt; lia).
  - rewrite Nat.min_l by lia. rewrite aset_Ok by (rewrite length_app, length_take, length_drop; lia). f_equal.
    destruct (lookup_lt_is_Some_2 t (Z.to_nat (e - 1)) ltac:(lia)) as [c Ec].
    replace (Z.to_nat e) with (S (Z.to_nat (e - 1))) by lia. rewrite (take_S_r _ _ c Ec).
    rewrite Nat.min_l by lia. rewrite <- (assoc_L app). rewrite insert_app_r_alt by (rewrite length_take; lia).
    rewrite length_take_le, Nat.sub_diag by lia. done.
Qed.

Lemma vsnprintf_ok buf size fmt args t o :
  formats fmt args t -> 0 <= buf < 2 ^ 32 -> 0 <= size < 2 ^ 32 -> Z.of_nat (length t) < 2 ^ 31 ->
  Z.min (room buf size) (Z.of_nat (length t) + 1) <= Z.of_nat (length o) ->
  rt_vsnprintf buf size fmt args o = Ok (Z.of_nat (length t), cut (room buf size) t o).
Proof.
  intros F Hb Hs Ht Ho. destruct (end_room buf size Hb Hs) as (E1 & E2 & Hr). unfold rt_vsnprintf.
  destruct (if u32 (buf + size) <? buf then _ else _) as [fin sz]. cbn in E1, E2. rewrite E1, E2. set (e := room buf size) in *.
  assert (mk_sink o 0 = holds e o []) as -> by (unfold holds; by rewrite take_nil, Nat.min_0_r).
  rewrite (loop_writes e o (Z.of_nat (length t) + 1) fmt args t) by (done || (cbn; lia)). cbn [mbind result_bind app].
  replace (i32 (str (holds e o t))) with (Z.of_nat (length t)) by (rewrite i32_small; cbn; lia).
  destruct (Z.ltb_spec 0 e).
  - by rewrite (terminated e t o).
  - assert (e = 0) as -> by lia. done.
Qed.

(** The line on the console: the text, or its first 254 bytes and a NUL. *)
Lemma rt_kprintf_line buf fmt args t rt_log_buf :
  formats fmt args t -> 0 <= buf < 2 ^ 31 -> Z.of_nat (length t) < 2 ^ 31 -> length rt_log_buf = 256%nat ->
  exists o, rt_kprintf buf fmt args rt_log_buf =
    Ok (Z.min 255 (Z.of_nat (length t)), if Z.of_nat (length t) <? 255 then t else take 254 t ++ [NUL], o).
Proof.
  intros F Hb Ht Hl. unfold rt_kprintf. assert (room buf (RT_CONSOLEBUF_SIZE - 1) = 255) as Er.
  { unfold room, RT_CONSOLEBUF_SIZE. by replace (_ <? _) with true by lia. }
  rewrite (vsnprintf_ok _ _ _ _ t) by (done || (rewrite ?Er; unfold RT_CONSOLEBUF_SIZE; lia)). rewrite Er.
  cbn [mbind result_bind]. rewrite u32_small by lia. unfold RT_CONSOLEBUF_SIZE.
  eexists. f_equal. f_equal. unfold cut. cbn [Z.eqb]. change (Z.to_nat (255 - 1)) with 254%nat.
  destruct (Z.ltb_spec (256 - 1) (Z.of_nat (length t))), (Z.ltb_spec (Z.of_nat (length t)) 255); try lia.
  - f_equal; [lia|]. rewrite (assoc_L app), take_app_length'; [done|]. rewrite length_app, length_take. cbn [length]. lia.
  - f_equal; [lia|]. rewrite (take_ge t) by lia. by rewrite take_app_length' by lia.
  - f_equal; [lia|]. rewrite (assoc_L app), take_app_length'; [done|]. rewrite length_app, length_take. cbn [length]. lia.
Qed.

(** C32: Formatted output is safe and right for every size of the buffer.  A format is
    a list of pieces, characters and directives; its text is the one the C standard
    gives it.  For the conversions d, i, u, x, X, c, s and %%, with their flags, widths,
    precisions and qualifiers, where the code follows the standard ([plain_use]),
    [rt_snprintf] returns the length of that text, also when the buffer is too short;
    the buffer then holds the longest part of it that leaves room for a NUL, the NUL,
    and behind it what was there before; no byte outside [size] is touched, and with
    size 0 none at all.  [rt_sprintf] stores the whole text.  [rt_kprintf] sends the
    text to the console when it is shorter than 255 bytes, else its first 254 bytes and
    a NUL, and returns the number of bytes sent. *)
Theorem formatted_output (buf size : Z) (ps : list piece) (args : list arg) (t o rt_log_buf : list Z) :
  formatted ps args t -> 0 <= buf < 2 ^ 31 -> 0 <= size < 2 ^ 32 -> Z.of_nat (length t) < 2 ^ 31 - 1 ->
  length rt_log_buf = 256%nat ->
  (Z.min (room buf size) (Z.of_nat (length t) + 1) <= Z.of_nat (length o) ->
   rt_snprintf buf size (render ps) args o = Ok (Z.of_nat (length t), cut (room buf size) t o)) /\
  ((length t < length o)%nat ->
   rt_sprintf buf (render ps) args o = Ok (Z.of_nat (length t), t ++ [NUL] ++ drop (S (length t)) o)) /\
  (exists o', rt_kprintf buf (render ps) args rt_log_buf =
    Ok (Z.min 255 (Z.of_nat (length t)), if Z.of_nat (length t) <? 255 then t else take 254 t ++ [NUL], o')).
Proof.
  intros F%formatted_formats Hb Hs Ht Hl. split_and!.
  - intros Ho. apply vsnprintf_ok; done || lia.
  - intros Ho. unfold rt_sprintf, rt_vsprintf. change (u32 (-1)) with 4294967295.
    assert (Z.of_nat (length t) < room buf 4294967295) by (unfold room; destruct (_ <? _); lia).
    rewrite (vsnprintf_ok _ _ _ _ t) by (done || lia). unfold cut. replace (_ =? 0) with false by lia.
    rewrite take_ge, Nat.min_r by lia. done.
  - apply rt_kprintf_line; done || lia.
Qed.

(** ** Reading a number back *)

(** A number in front of a string, the way a C library reads it: sign, digits. *)
Definition scan (s : list Z) : result (Z * list Z) :=
  match s with
  | c :: s' => if c =? ch "-" then '(n, r) ← skip_atoi s'; Ok (- n, r) else skip_atoi s
  | [] => skip_atoi s
  end.

Definition decimal (n : Z) : list Z := sign_text SIGN n ++ numeral false 10 (Z.abs n).

Lemma decimal_formats n :
  -2147483648 < n < 2147483648 -> formats (text "%d") [Word n] (decimal n).
Proof.
  intros Hn. rewrite <- (app_nil_r (decimal n)).
  eapply (formats_conv _ _ 0 (-1) (-1) 0 (ch "d") [NUL] [Word n] (decimal n) []); [done| |apply formats_end].
  unfold conv_text. change (ch "d" =? ch "c") with false. change (ch "d" =? ch "s") with false.
  change (ch "d" =? ch "p") with false. change (ch "d" =? ch "%") with false. change (ch "d" =? ch "o") with false.
  change (ch "d" =? ch "X") with false. change (ch "d" =? ch "x") with false. change (ch "d" =? ch "d") with true.
  cbn [orb]. change (Z.lor 0 SIGN) with SIGN.
  assert (i32 (int_arg SIGN 0 n) = n) as ->.
  { unfold int_arg. change (0 =? ch "h") with false. unfold i32, u32. Z.to_euclidean_division_equations; lia. }
  unfold int_text. change (wide (-1)) with true. change (has SIGN SIGN) with true. replace (n =? -2147483648) with false by lia.
  cbn [andb negb mbind option_bind]. do 2 f_equal. unfold number_text, magnitude, decimal.
  change (has SIGN SIGN) with true. change (has LEFT SIGN) with false. change (has ZEROPAD SIGN) with false.
  change (has LARGE SIGN) with false. change (-1 =? 0) with false. cbv match.
  change (radix 10) with 10. set (ds := numeral _ _ _). unfold spaces, zeros.
  replace (Z.to_nat (_ - Z.of_nat (length (sign_text SIGN n)))) with 0%nat by lia.
  by replace (Z.to_nat (-1 - Z.of_nat (length ds))) with 0%nat by lia.
Qed.

Lemma decimal_length n : -2147483648 < n < 2147483648 -> (1 <= length (decimal n) <= 16)%nat.
Proof.
  intros Hn. unfold decimal. rewrite length_app.
  destruct (number_digits_ok 10 0 (Z.abs n) ltac:(lia)) as (tmp & _ & _ & _ & Hl). change (has LARGE 0) with false in Hl. change (radix 10) with 10 in Hl.
  assert (length (numeral false 10 (Z.abs n)) <= 15)%nat.
  { unfold numeral. destruct (_ =? _); cbn [length]; [lia|]. rewrite length_map, length_rev. apply digits_length. }
  assert (length (sign_text SIGN n) <= 1)%nat; [|lia].
  unfold sign_text. destruct (has SIGN SIGN), (n <? 0), (has PLUS SIGN), (has SPACE SIGN); cbn; lia.
Qed.

Lemma scan_decimal n rest :
  -2147483600 < n < 2147483600 -> scan (decimal n ++ NUL :: rest) = Ok (n, NUL :: rest).
Proof.
  intros Hn. unfold decimal. unfold sign_text. change (has SIGN SIGN) with true. change (has PLUS SIGN) with false.
  change (has SPACE SIGN) with false. cbv match. destruct (Z.ltb_spec n 0).
  - cbn [app scan]. rewrite Z.eqb_refl, skip_atoi_numeral by (done || lia). cbn [mbind result_bind]. do 2 f_equal. lia.
  - cbn [app]. assert (exists c l, numeral false 10 (Z.abs n) = c :: l /\ c <> ch "-") as (c & l & El & Hc).
    { destruct (decide (Z.abs n = 0)) as [->|]; [by exists (ch "0"), []|].
      destruct (numeral_head (Z.abs n)) as (c & l & -> & Hc); [lia|]. exists c, l. split; [done|]. unfold ch in *. cbn in *. lia. }
    pose proof (skip_atoi_numeral (Z.abs n) NUL rest ltac:(lia) eq_refl) as E. rewrite El in E |- *. cbn [app scan].
    apply Z.eqb_neq in Hc as ->. cbn [app] in E. rewrite E. do 2 f_equal. lia.
Qed.

(** A printed number is read back.  [rt_sprintf] with "%d" stores the
    number so that the code's own [skip_atoi], behind a minus sign, reads it from
    the buffer and stops at the NUL, for every number up to 2147483599 either
    way. *)
Lemma decimal_roundtrip (buf n : Z) (o : list Z) :
  0 <= buf < 2 ^ 31 -> -2147483600 < n < 2147483600 -> (17 <= length o)%nat ->
  exists len o', rt_sprintf buf (text "%d") [Word n] o = Ok (len, o') /\
    scan o' = Ok (n, NUL :: drop (Z.to_nat len + 1) o').
Proof.
  intros Hb Hn Ho. pose proof (decimal_length n ltac:(lia)) as Hl. unfold rt_sprintf, rt_vsprintf.
  rewrite (vsnprintf_ok _ _ _ _ (decimal n)) by (try apply decimal_formats; change (u32 (-1)) with 4294967295; lia).
  change (u32 (-1)) with 4294967295.
  assert (Z.of_nat (length (decimal n)) < room buf 4294967295) by (unfold room; destruct (_ <? _); lia).
  eexists _, _. split; [done|]. unfold cut. replace (_ =? 0) with false by lia. rewrite take_ge, Nat.min_r by lia.
  set (r := drop _ o). cbn [app]. rewrite scan_decimal by done. do 3 f_equal.
  rewrite Nat2Z.id. change (decimal n ++ NUL :: r) with (decimal n ++ [NUL] ++ r). rewrite (assoc_L app), drop_app_length'; [done|].
  rewrite length_app. cbn. lia.
Qed.

(** ** Concrete runs *)

(** "n=%5d|%-*s|%04x", with a width of 6 for the string. *)
Definition sample_pieces : list piece :=
  [Literal (ch "n"); Literal (ch "="); Directive (mk_field [] (Width 5) NoPrecision Default Decimal); Literal (ch "|");
   Directive (mk_field [Minus] StarWidth NoPrecision Default Text); Literal (ch "|");
   Directive (mk_field [Zero] (Width 4) NoPrecision Short (Hex false))].
Definition sample_args : list arg := [Word (-42); Word 6; Str (Some (text "abc")); Word 0x12fe].
Definition sample_text : list Z := map ch (list_ascii_of_string "n=  -42|abc   |12fe").
Lemma sample_formatted : formatted sample_pieces sample_args sample_text.
Proof.
  apply formatted_literal; [done..|]. apply formatted_literal; [done..|].
  apply (formatted_directive _ _ _ [Word (-42); Word 6; Str (Some (text "abc")); Word 0x12fe] [Word 6; Str (Some (text "abc")); Word 0x12fe]
    (Word (-42)) [] (Some 5) None (map ch [" "; " "; "-"; "4"; "2"]%char)); try done.
  { split; [done|]. split; [done|]. split; [done|]. by intros _; left. }
  apply formatted_literal; [done..|].
  apply (formatted_directive _ _ _ [Str (Some (text "abc")); Word 0x12fe] [Word 0x12fe] (Str (Some (text "abc"))) [Minus] (Some 6) None
    (map ch ["a"; "b"; "c"; " "; " "; " "]%char)); try done.
  { split; [done|]. split; [done|]. intros t w [= <-] [= <-]. done. }
  apply formatted_literal; [done..|].
  apply (formatted_directive _ _ _ [Word 0x12fe] [] (Word 0x12fe) [Zero] (Some 4) None (map ch ["1"; "2"; "f"; "e"]%char) []); try done.
  { split; [done|]. split; [done|]. by intros _; left. }
  apply formatted_nil.
Qed.

(** A buffer of six bytes behind which another byte lies. *)
Lemma formatted_output_witness :
  (Z.min (room 0x20000000 6) 20 <= 7 ->
   rt_snprintf 0x20000000 6 (text "n=%5d|%-*s|%04hx") sample_args (replicate 7 85)
     = Ok (19, cut (room 0x20000000 6) sample_text (replicate 7 85))) /\
  ((19 < 7)%nat ->
   rt_sprintf 0x20000000 (text "n=%5d|%-*s|%04hx") sample_args (replicate 7 85)
     = Ok (19, sample_text ++ [NUL] ++ drop 20 (replicate 7 85))) /\
  (exists o', rt_kprintf 0x20000000 (text "n=%5d|%-*s|%04hx") sample_args (replicate 256 0) = Ok (19, sample_text, o')).
Proof.
  apply (formatted_output 0x20000000 6 sample_pieces sample_args sample_text (replicate 7 85) (replicate 256 0));
    [exact sample_formatted|lia|lia|done|done].
Defined.

Lemma decimal_roundtrip_witness :
  exists len o', rt_sprintf 0x20000000 (text "%d") [Word (-1234)] (replicate 20 85) = Ok (len, o') /\
    scan o' = Ok (-1234, NUL :: drop (Z.to_nat len + 1) o').
Proof. apply (decimal_roundtrip 0x20000000 (-1234) (replicate 20 85)); [lia|lia|cbn; lia]. Defined.

(** ** Where it differs from the C library *)

Definition prints (fmt : string) (args : list arg) : option string :=
  match rt_snprintf 0x20000000 32 (text fmt) args (replicate 32 85) with
  | Ok (n, o) => Some (string_of_list_ascii (map (fun z => ascii_of_N (Z.to_N z)) (take (Z.to_nat n) o)))
  | Fault _ => None
  end.

(** The value returned is the length of the text, not the number of characters
    written, which is 3 and a NUL here. *)
Lemma returns_text_length :
  rt_snprintf 0x20000000 4 (text "hello") [] (replicate 4 85) = Ok (5, map ch ["h"; "e"; "l"]%char ++ [NUL]).
Proof. by vm_compute. Qed.
(** Behind a precision the flag 0 still gives zeros, which the C standard ignores. *)
Lemma zeros_with_precision : prints "%05.3d" [Word 7] = Some "00007"%string.
Proof. by vm_compute. Qed.
(** A negative precision is not "no precision". *)
Lemma negative_precision : prints "%.*d" [Word (-1); Word 7] = Some EmptyString.
Proof. by vm_compute. Qed.
(** "%o" divides by 16: octal output has hexadecimal digits. *)
Lemma octal_prints_hex : prints "%o" [Word 64] = Some "40"%string.
Proof. by vm_compute. Qed.
(** The width cuts a string. *)
Lemma width_cuts_string : prints "%3s" [Str (Some (text "hello"))] = Some "hel"%string.
Proof. by vm_compute. Qed.
(** Precision 0 prints no digits, whatever the number. *)
Lemma precision_zero_prints_nothing : prints "%.0d" [Word 7] = Some EmptyString.
Proof. by vm_compute. Qed.
(** The least [long] is negated. *)
Lemma least_long_overflows : print_number 32 (-2147483648) 10 (-1) (-1) SIGN (mk_sink (replicate 32 0) 0) = Fault Overflow.
Proof. by vm_compute. Qed.
(** A width overflows while it is read though it fits. *)
Lemma width_overflows : skip_atoi (text "2147483640") = Fault Overflow.
Proof. by vm_compute. Qed.
End Kprintf.
