(* ===== verification/KString.v ===== *)
(** * Memory and string functions (rt-thread/src/kservice.c)

    [rt_memset], [rt_memcpy] and [rt_memmove], which store word by word where the
    addresses allow it, and the string functions, on a byte memory.

    The theorems: whatever the addresses and alignments, the result is that of one
    store of all bytes, for [rt_memcpy] when the destination is at or below the source
    or the areas are apart; the string functions compute what a definition on lists
    of characters says. *)

From S2P Require Import Prelude.

Module KString.

(** The memory is the list of its bytes; a pointer is an index, and the memory
    starts at a word boundary. *)
Abbreviation memory := (list Z).

Definition get (mem : memory) (p : Z) : result Z := aget mem p.
Definition put (p c : Z) (mem : memory) : result memory := aset mem p c.

(** A [long], the least byte first. *)
Definition LBLOCKSIZE : Z := 4.
Definition get_long (mem : memory) (p : Z) : result Z :=
  a ← get mem p; b ← get mem (p + 1); c ← get mem (p + 2); d ← get mem (p + 3);
  Ok (a + b * 2 ^ 8 + c * 2 ^ 16 + d * 2 ^ 24).
Definition put_long (p w : Z) (mem : memory) : result memory :=
  mem ← put p (u8 w) mem;
  mem ← put (p + 1) (u8 (Z.shiftr w 8)) mem;
  mem ← put (p + 2) (u8 (Z.shiftr w 16)) mem;
  put (p + 3) (u8 (Z.shiftr w 24)) mem.

(** ** [rt_memset] *)

(** [while (count--) *m++ = (char)d;] *)
Fixpoint set_bytes (count : nat) (m d : Z) (mem : memory) : result memory :=
  match count with
  | O => Ok mem
  | S count => mem ← put m (u8 d) mem; set_bytes count (m + 1) d mem
  end.
(** [n] stores of a word. *)
Fixpoint set_longs (n : nat) (p w : Z) (mem : memory) : result memory :=
  match n with
  | O => Ok mem
  | S n => mem ← put_long p w mem; set_longs n (p + LBLOCKSIZE) w mem
  end.
(** [while (count >= step) ...] with the stores of a round; the address and the
    count after it. *)
Fixpoint set_while (fuel : nat) (words : nat) (p w count : Z) (mem : memory) : result (Z * Z * memory) :=
  match fuel with
  | O => Fault OutOfFuel
  | S fuel =>
      let step := Z.of_nat words * LBLOCKSIZE in
      if step <=? count then
        mem ← set_longs words p w mem;
        set_while fuel words (p + step) w (count - step) mem
      else Ok (p, count, mem)
  end.

Definition rt_memset (s c count : Z) (mem : memory) : result memory :=
  let d := Z.land c 0xff in
  if negb (count <? LBLOCKSIZE) && (Z.land s (LBLOCKSIZE - 1) =? 0) then
    let buffer := Z.lor (Z.shiftl d 8) d in
    let buffer := Z.lor buffer (Z.shiftl buffer 16) in
    '(p, count, mem) ← set_while (S (Z.to_nat count)) 4 s buffer count mem;
    '(p, count, mem) ← set_while (S (Z.to_nat count)) 1 p buffer count mem;
    set_bytes (Z.to_nat count) p d mem
  else set_bytes (Z.to_nat count) s d mem.

(** ** [rt_memcpy] and [rt_memmove] *)

(** [while (len--) *dst++ = *src++;] *)
Fixpoint copy_bytes (len : nat) (dst src : Z) (mem : memory) : result memory :=
  match len with
  | O => Ok mem
  | S len => c ← get mem src; mem ← put dst c mem; copy_bytes len (dst + 1) (src + 1) mem
  end.
Fixpoint copy_longs (n : nat) (dst src : Z) (mem : memory) : result memory :=
  match n with
  | O => Ok mem
  | S n => w ← get_long mem src; mem ← put_long dst w mem; copy_longs n (dst + LBLOCKSIZE) (src + LBLOCKSIZE) mem
  end.
Fixpoint copy_while (fuel : nat) (words : nat) (dst src len : Z) (mem : memory) : result (Z * Z * Z * memory) :=
  match fuel with
  | O => Fault OutOfFuel
  | S fuel =>
      let step := Z.of_nat words * LBLOCKSIZE in
      if step <=? len then
        mem ← copy_longs words dst src mem;
        copy_while fuel words (dst + step) (src + step) (len - step) mem
      else Ok (dst, src, len, mem)
  end.

(** [len] is an [int], compared with an unsigned size; a negative one would be
    decremented until it overflows. *)
Definition rt_memcpy (dst src count : Z) (mem : memory) : result memory :=
  let len := i32 count in
  if negb (u32 len <? LBLOCKSIZE * 4) &&
     (Z.lor (Z.land src (LBLOCKSIZE - 1)) (Z.land dst (LBLOCKSIZE - 1)) =? 0) then
    '(dst, src, len, mem) ← copy_while (S (Z.to_nat (u32 len))) 4 dst src (u32 len) mem;
    '(dst, src, len, mem) ← copy_while (S (Z.to_nat len)) 1 dst src len mem;
    copy_bytes (Z.to_nat len) dst src mem
  else if len <? 0 then Fault Overflow
  else copy_bytes (Z.to_nat len) dst src mem.

(** [while (n--) *(--tmp) = *(--s);] *)
Fixpoint copy_back (n : nat) (tmp s : Z) (mem : memory) : result memory :=
  match n with
  | O => Ok mem
  | S n => c ← get mem (s - 1); mem ← put (tmp - 1) c mem; copy_back n (tmp - 1) (s - 1) mem
  end.
Definition rt_memmove (dest src n : Z) (mem : memory) : result memory :=
  if (src <? dest) && (dest <? src + n) then copy_back (Z.to_nat n) (dest + n) (src + n) mem
  else copy_bytes (Z.to_nat n) dest src mem.

Fixpoint memcmp_loop (count : nat) (cs ct : Z) (mem : memory) : result Z :=
  match count with
  | O => Ok 0
  | S count =>
      a ← get mem cs; b ← get mem ct;
      if negb (a - b =? 0) then Ok (a - b) else memcmp_loop count (cs + 1) (ct + 1) mem
  end.
Definition rt_memcmp (cs ct count : Z) (mem : memory) : result Z := memcmp_loop (Z.to_nat count) cs ct mem.

(** ** Strings *)

(** A string that is only read is the list of the characters from the pointer on;
    a [char] is unsigned, as on the processor of the car. *)
Fixpoint rt_strlen (s : list Z) : result Z :=
  match s with
  | [] => Fault OutOfBounds
  | c :: s => if c =? 0 then Ok 0 else n ← rt_strlen s; Ok (n + 1)
  end.

(** The character is read before the length is compared. *)
Fixpoint strnlen_loop (n maxlen : Z) (s : list Z) : result Z :=
  match s with
  | [] => Fault OutOfBounds
  | c :: s => if negb (c =? 0) && (n <? maxlen) then strnlen_loop (n + 1) maxlen s else Ok n
  end.
Definition rt_strnlen (s : list Z) (maxlen : Z) : result Z := strnlen_loop 0 maxlen s.

(** [*cs && *cs == *ct] reads [*ct] only for a character of [cs]; the result
    reads both. *)
Fixpoint rt_strcmp (cs ct : list Z) : result Z :=
  match cs, ct with
  | c :: cs, d :: ct => if negb (c =? 0) && (c =? d) then rt_strcmp cs ct else Ok (c - d)
  | _, _ => Fault OutOfBounds
  end.

Definition i8 (z : Z) : Z := (z + 2 ^ 7) mod 2 ^ 8 - 2 ^ 7.
(** [__res] is a [signed char]. *)
Fixpoint strncmp_loop (count : nat) (res : Z) (cs ct : list Z) : result Z :=
  match count with
  | O => Ok res
  | S count =>
      match cs, ct with
      | c :: cs, d :: ct =>
          let res := i8 (c - d) in
          if negb (res =? 0) || (c =? 0) then Ok res else strncmp_loop count res cs ct
      | _, _ => Fault OutOfBounds
      end
  end.
Definition rt_strncmp (cs ct : list Z) (count : Z) : result Z := strncmp_loop (Z.to_nat count) 0 cs ct.

(** ['A'] is 65, ['Z'] 90, ['a'] 97. *)
Definition lower (c : Z) : Z := if (65 <=? c) && (c <=? 90) then c + (97 - 65) else c.
Fixpoint rt_strcasecmp (a b : list Z) : result Z :=
  match a, b with
  | c :: a, d :: b =>
      let ca := lower (Z.land c 0xff) in let cb := lower (Z.land d 0xff) in
      if (ca =? cb) && negb (ca =? 0) then rt_strcasecmp a b else Ok (ca - cb)
  | _, _ => Fault OutOfBounds
  end.

(** [rt_strcpy] and [rt_strncpy]; the fuel is one more than the memory has bytes. *)
Fixpoint strcpy_loop (fuel : nat) (dst src : Z) (mem : memory) : result memory :=
  match fuel with
  | O => Fault OutOfFuel
  | S fuel =>
      c ← get mem src;
      if negb (c =? 0) then mem ← put dst c mem; strcpy_loop fuel (dst + 1) (src + 1) mem
      else put dst 0 mem
  end.
Definition rt_strcpy (dst src : Z) (mem : memory) : result memory := strcpy_loop (S (length mem)) dst src mem.

(** [do ... while (--n != 0)], for [n] characters. *)
Fixpoint strncpy_loop (n : nat) (d s : Z) (mem : memory) : result memory :=
  match n with
  | O => Ok mem
  | S n =>
      c ← get mem s;
      mem ← put d c mem;
      if c =? 0 then set_bytes n (d + 1) 0 mem else strncpy_loop n (d + 1) (s + 1) mem
  end.
Definition rt_strncpy (dst src n : Z) (mem : memory) : result memory := strncpy_loop (Z.to_nat n) dst src mem.

(** [while (l1 >= l2)]; the pointer, or [None] for [RT_NULL]. *)
Fixpoint strstr_loop (fuel : nat) (s1 s2 l1 l2 : Z) (mem : memory) : result (option Z) :=
  match fuel with
  | O => Fault OutOfFuel
  | S fuel =>
      if l2 <=? l1 then
        r ← rt_memcmp s1 s2 l2 mem;
        if r =? 0 then Ok (Some s1) else strstr_loop fuel (s1 + 1) s2 (l1 - 1) l2 mem
      else Ok None
  end.
Definition rt_strstr (s1 s2 : Z) (mem : memory) : result (option Z) :=
  l2 ← rt_strlen (drop (Z.to_nat s2) mem);
  if l2 =? 0 then Ok (Some s1)
  else
    l1 ← rt_strlen (drop (Z.to_nat s1) mem);
    strstr_loop (S (Z.to_nat l1)) s1 s2 l1 l2 mem.

(** ** One store of all bytes *)

(** The memory with the bytes [l] at [p]. *)
Definition over (p : nat) (l : list Z) (mem : memory) : memory := list_inserts p l mem.
Definition read (p n : nat) (mem : memory) : list Z := take n (drop p mem).

Section Memory.
Implicit Types (mem l : list Z) (p n i : nat).

Lemma over_app p l1 l2 mem : over p (l1 ++ l2) mem = over (p + length l1) l2 (over p l1 mem).
Proof. unfold over. rewrite list_inserts_app_l. by rewrite Nat.add_comm. Qed.
Lemma length_over p l mem : length (over p l mem) = length mem.
Proof. apply length_inserts. Qed.
Lemma over_one p c mem : over p [c] mem = <[p := c]> mem.
Proof. done. Qed.

Lemma put_Ok p c mem : (p < length mem)%nat -> put (Z.of_nat p) c mem = Ok (over p [c] mem).
Proof. intros H. unfold put. rewrite aset_Ok by lia. by rewrite Nat2Z.id. Qed.
Lemma get_Ok p mem : (p < length mem)%nat -> exists c, get mem (Z.of_nat p) = Ok c /\ mem !! p = Some c.
Proof.
  intros H. destruct (lookup_lt_is_Some_2 mem p H) as [c E]. exists c. split; [|done].
  apply aget_Ok; [lia|by rewrite Nat2Z.id].
Qed.

Lemma read_S p n mem c : mem !! p = Some c -> read p (S n) mem = c :: read (S p) n mem.
Proof. intros E. unfold read. by rewrite (drop_S mem c p). Qed.
Lemma read_app p n1 n2 mem : read p (n1 + n2) mem = read p n1 mem ++ read (p + n1) n2 mem.
Proof. unfold read. rewrite <- drop_drop. symmetry. apply take_take_drop. Qed.
Lemma length_read p n mem : (p + n <= length mem)%nat -> length (read p n mem) = n.
Proof. intros H. unfold read. rewrite length_take, length_drop. lia. Qed.

(** Bytes outside the store are as before. *)
Lemma read_over p n q l mem :
  (p + n <= q \/ q + length l <= p)%nat -> read p n (over q l mem) = read p n mem.
Proof.
  intros H. unfold read. apply list_eq. intros i. destruct (decide (i < n)%nat).
  - rewrite !lookup_take_lt, !lookup_drop by done. unfold over.
    destruct H; [apply list_lookup_inserts_lt|apply list_lookup_inserts_ge]; lia.
  - by rewrite !lookup_take_ge by lia.
Qed.

Lemma set_bytes_ok n p d mem :
  (p + n <= length mem)%nat -> set_bytes n (Z.of_nat p) d mem = Ok (over p (replicate n (u8 d)) mem).
Proof.
  revert p mem. induction n as [|n IH]; intros p mem H; cbn [set_bytes]; [done|].
  rewrite put_Ok by lia. cbn [mbind result_bind]. replace (Z.of_nat p + 1) with (Z.of_nat (S p)) by lia.
  rewrite IH by (rewrite length_over; lia). cbn [replicate]. change (u8 d :: replicate n (u8 d)) with ([u8 d] ++ replicate n (u8 d)).
  rewrite over_app. by rewrite Nat.add_1_r.
Qed.

(** A word as its bytes. *)
Definition long_bytes (w : Z) : list Z := [u8 w; u8 (Z.shiftr w 8); u8 (Z.shiftr w 16); u8 (Z.shiftr w 24)].
Lemma put_long_ok p w mem : (p + 4 <= length mem)%nat -> put_long (Z.of_nat p) w mem = Ok (over p (long_bytes w) mem).
Proof.
  intros H. unfold put_long. rewrite put_Ok by lia. cbn [mbind result_bind].
  replace (Z.of_nat p + 1) with (Z.of_nat (S p)) by lia. rewrite put_Ok by (rewrite length_over; lia). cbn [mbind result_bind].
  replace (Z.of_nat p + 2) with (Z.of_nat (S (S p))) by lia. rewrite put_Ok by (rewrite !length_over; lia). cbn [mbind result_bind].
  replace (Z.of_nat p + 3) with (Z.of_nat (S (S (S p)))) by lia. rewrite put_Ok by (rewrite !length_over; lia). f_equal.
  change (long_bytes w) with ([u8 w] ++ [u8 (Z.shiftr w 8)] ++ [u8 (Z.shiftr w 16)] ++ [u8 (Z.shiftr w 24)]).
  rewrite !over_app. cbn [length]. by rewrite !Nat.add_1_r.
Qed.

Lemma fill_word d : 0 <= d < 256 ->
  let b := Z.lor (Z.shiftl d 8) d in long_bytes (Z.lor b (Z.shiftl b 16)) = replicate 4 d.
Proof.
  intros H. assert (d ∈ seqZ 0 256) as Hd by (apply elem_of_seqZ; lia).
  clear H. revert d Hd. apply Forall_forall. apply (bool_decide_unpack _). by vm_compute.
Qed.

Lemma over_nil p mem : over p [] mem = mem.
Proof. done. Qed.

(** A later store that does not meet an earlier one can be made first. *)
Lemma over_comm p l q c mem :
  (p + length l <= q \/ q < p)%nat -> over p l (over q [c] mem) = over q [c] (over p l mem).
Proof.
  revert p. induction l as [|x l IH]; intros p H; [done|]. cbn [length] in H.
  change (over p (x :: l) (over q [c] mem)) with (<[p := x]> (over (S p) l (over q [c] mem))).
  rewrite IH by lia. rewrite !over_one.
  change (over p (x :: l) mem) with (<[p := x]> (over (S p) l mem)). apply list_insert_insert_ne. lia.
Qed.

Lemma Forall_over (P : Z -> Prop) p l mem : Forall P l -> Forall P mem -> Forall P (over p l mem).
Proof.
  revert p. induction l as [|x l IH]; intros p Hl H; [done|]. inversion Hl; subst.
  change (over p (x :: l) mem) with (<[p := x]> (over (S p) l mem)). by apply Forall_insert; [apply IH|].
Qed.
Lemma Forall_read (P : Z -> Prop) p n mem : Forall P mem -> Forall P (read p n mem).
Proof. intros H. by apply Forall_take, Forall_drop. Qed.

(** *** The stores of [rt_memset] *)

Lemma set_longs_ok n p w d mem :
  long_bytes w = replicate 4 d -> (p + 4 * n <= length mem)%nat ->
  set_longs n (Z.of_nat p) w mem = Ok (over p (replicate (4 * n) d) mem).
Proof.
  intros Hw. revert p mem. induction n as [|n IH]; intros p mem H; cbn [set_longs]; [done|].
  rewrite put_long_ok by lia. cbn [mbind result_bind]. unfold LBLOCKSIZE.
  replace (Z.of_nat p + 4) with (Z.of_nat (p + 4)) by lia.
  rewrite IH by (rewrite length_over; lia). rewrite Hw. f_equal.
  replace (4 * S n)%nat with (4 + 4 * n)%nat by lia. rewrite replicate_add, over_app. by rewrite length_replicate.
Qed.

Lemma set_while_ok words fuel p n w d mem :
  (0 < words)%nat -> long_bytes w = replicate 4 d -> (p + n <= length mem)%nat -> (n < fuel)%nat ->
  exists k, (k <= n)%nat /\
    set_while fuel words (Z.of_nat p) w (Z.of_nat n) mem =
      Ok (Z.of_nat (p + k), Z.of_nat (n - k), over p (replicate k d) mem).
Proof.
  intros Hwd Hw. revert p n mem. induction fuel as [|fuel IH]; intros p n mem H Hf; [lia|].
  cbn [set_while]. unfold LBLOCKSIZE. destruct (Z.leb_spec (Z.of_nat words * 4) (Z.of_nat n)) as [Hle|Hlt].
  - rewrite (set_longs_ok words p w d) by (done || lia). cbn [mbind result_bind].
    replace (Z.of_nat p + Z.of_nat words * 4) with (Z.of_nat (p + 4 * words)) by lia.
    replace (Z.of_nat n - Z.of_nat words * 4) with (Z.of_nat (n - 4 * words)) by lia.
    destruct (IH (p + 4 * words)%nat (n - 4 * words)%nat (over p (replicate (4 * words) d) mem)) as (k & Hk & ->);
      [rewrite length_over; lia|lia|].
    exists (4 * words + k)%nat. split; [lia|]. rewrite replicate_add, over_app, length_replicate, Nat.sub_add_distr, Nat.add_assoc. done.
  - exists 0%nat. split; [lia|]. by rewrite Nat.add_0_r, Nat.sub_0_r.
Qed.

Lemma rt_memset_ok p n c mem :
  (p + n <= length mem)%nat ->
  rt_memset (Z.of_nat p) c (Z.of_nat n) mem = Ok (over p (replicate n (u8 c)) mem).
Proof.
  intros H. unfold rt_memset. change 0xff with (Z.ones 8). rewrite Z.land_ones by lia. fold (u8 c).
  pose proof (u8_range c) as Hc. destruct (_ && _).
  - set (d := u8 c) in *. assert (u8 d = d) as Hd by (apply u8_small; done). pose proof (fill_word d Hc) as Hw. cbv zeta in Hw.
    destruct (set_while_ok 4 (S (Z.to_nat (Z.of_nat n))) p n _ d mem ltac:(lia) Hw H ltac:(lia)) as (k & Hk & ->).
    cbn [mbind result_bind].
    edestruct (set_while_ok 1 (S (Z.to_nat (Z.of_nat (n - k)))) (p + k) (n - k) _ d (over p (replicate k d) mem) ltac:(lia) Hw)
      as (j & Hj & ->); [rewrite length_over; lia|lia|].
    cbn [mbind result_bind]. rewrite Nat2Z.id, set_bytes_ok by (rewrite !length_over; lia). rewrite Hd. f_equal.
    replace n with (k + (j + (n - k - j)))%nat at 2 by lia. rewrite !replicate_add, !over_app, !length_replicate. done.
  - rewrite Nat2Z.id, set_bytes_ok by lia. f_equal. by rewrite (u8_small (u8 c)).
Qed.

(** *** The copies *)

Lemma copy_bytes_ok n dst src mem :
  (dst + n <= length mem)%nat -> (src + n <= length mem)%nat -> (dst <= src \/ src + n <= dst)%nat ->
  copy_bytes n (Z.of_nat dst) (Z.of_nat src) mem = Ok (over dst (read src n mem) mem).
Proof.
  revert dst src mem. induction n as [|n IH]; intros dst src mem Hd Hs Ho; cbn [copy_bytes]; [by destruct (drop src mem)|].
  destruct (get_Ok src mem) as (c & -> & Ec); [lia|]. cbn [mbind result_bind]. rewrite put_Ok by lia. cbn [mbind result_bind].
  replace (Z.of_nat dst + 1) with (Z.of_nat (S dst)) by lia. replace (Z.of_nat src + 1) with (Z.of_nat (S src)) by lia.
  rewrite IH by (rewrite ?length_over; lia). rewrite (read_S src n mem c Ec), read_over by (cbn [length]; lia).
  change (c :: read (S src) n mem) with ([c] ++ read (S src) n mem). rewrite over_app. by rewrite Nat.add_1_r.
Qed.

Lemma copy_back_ok n dst src mem :
  (dst + n <= length mem)%nat -> (src <= dst)%nat ->
  copy_back n (Z.of_nat (dst + n)) (Z.of_nat (src + n)) mem = Ok (over dst (read src n mem) mem).
Proof.
  revert mem. induction n as [|n IH]; intros mem Hd Ho; cbn [copy_back]; [by destruct (drop src mem)|].
  replace (Z.of_nat (src + S n) - 1) with (Z.of_nat (src + n)) by lia.
  replace (Z.of_nat (dst + S n) - 1) with (Z.of_nat (dst + n)) by lia.
  destruct (get_Ok (src + n) mem) as (c & -> & Ec); [lia|]. cbn [mbind result_bind]. rewrite put_Ok by lia. cbn [mbind result_bind].
  rewrite IH by (rewrite ?length_over; lia). rewrite read_over by lia. f_equal.
  replace (S n) with (n + 1)%nat by lia. rewrite read_app, (read_S (src + n) 0 mem c Ec).
  replace (read (S (src + n)) 0 mem) with (@nil Z) by (by unfold read; rewrite take_0).
  rewrite over_app, length_read by lia. apply over_comm. rewrite length_read by lia. lia.
Qed.

Definition byte (z : Z) : Prop := 0 <= z < 256.

Lemma long_bytes_of a b c d :
  byte a -> byte b -> byte c -> byte d -> long_bytes (a + b * 2 ^ 8 + c * 2 ^ 16 + d * 2 ^ 24) = [a; b; c; d].
Proof.
  unfold byte, long_bytes, u8. intros. rewrite !Z.shiftr_div_pow2 by lia. repeat f_equal; zmod.
Qed.

Lemma copy_long_ok dst src mem (k : memory -> result memory) :
  Forall byte mem -> (dst + 4 <= length mem)%nat -> (src + 4 <= length mem)%nat ->
  (w ← get_long mem (Z.of_nat src); mem ← put_long (Z.of_nat dst) w mem; k mem) = k (over dst (read src 4 mem) mem).
Proof.
  intros Hb Hd Hs. unfold get_long.
  replace (Z.of_nat src + 1) with (Z.of_nat (S src)) by lia. replace (Z.of_nat src + 2) with (Z.of_nat (S (S src))) by lia.
  replace (Z.of_nat src + 3) with (Z.of_nat (S (S (S src)))) by lia.
  destruct (get_Ok src mem) as (a & -> & Ea); [lia|]. destruct (get_Ok (S src) mem) as (b & -> & Eb); [lia|].
  destruct (get_Ok (S (S src)) mem) as (c & -> & Ec); [lia|]. destruct (get_Ok (S (S (S src))) mem) as (d & -> & Ed); [lia|].
  cbn [mbind result_bind]. rewrite put_long_ok by lia. cbn [mbind result_bind].
  rewrite long_bytes_of by (eapply Forall_lookup_1; eassumption).
  rewrite (read_S _ _ _ _ Ea), (read_S _ _ _ _ Eb), (read_S _ _ _ _ Ec), (read_S _ _ _ _ Ed). unfold read. by rewrite take_0.
Qed.

Lemma copy_longs_ok n dst src mem :
  Forall byte mem -> (dst + 4 * n <= length mem)%nat -> (src + 4 * n <= length mem)%nat ->
  (dst <= src \/ src + 4 * n <= dst)%nat ->
  copy_longs n (Z.of_nat dst) (Z.of_nat src) mem = Ok (over dst (read src (4 * n) mem) mem).
Proof.
  revert dst src mem. induction n as [|n IH]; intros dst src mem Hb Hd Hs Ho; cbn [copy_longs]; [by destruct (drop src mem)|].
  rewrite copy_long_ok by (done || lia). unfold LBLOCKSIZE.
  replace (Z.of_nat dst + 4) with (Z.of_nat (dst + 4)) by lia. replace (Z.of_nat src + 4) with (Z.of_nat (src + 4)) by lia.
  rewrite IH by (rewrite ?length_over; first [lia | by apply Forall_over; [apply Forall_read|]]).
  rewrite read_over by (rewrite length_read; lia).
  replace (4 * S n)%nat with (4 + 4 * n)%nat by lia. by rewrite read_app, over_app, length_read by lia.
Qed.

Lemma copy_while_ok words fuel dst src n mem :
  (0 < words)%nat -> Forall byte mem -> (dst + n <= length mem)%nat -> (src + n <= length mem)%nat ->
  (dst <= src \/ src + n <= dst)%nat -> (n < fuel)%nat ->
  exists k, (k <= n)%nat /\
    copy_while fuel words (Z.of_nat dst) (Z.of_nat src) (Z.of_nat n) mem =
      Ok (Z.of_nat (dst + k), Z.of_nat (src + k), Z.of_nat (n - k), over dst (read src k mem) mem).
Proof.
  intros Hwd. revert dst src n mem. induction fuel as [|fuel IH]; intros dst src n mem Hb Hd Hs Ho Hf; [lia|].
  cbn [copy_while]. unfold LBLOCKSIZE. destruct (Z.leb_spec (Z.of_nat words * 4) (Z.of_nat n)) as [Hle|Hlt].
  - rewrite copy_longs_ok by (done || lia). cbn [mbind result_bind].
    replace (Z.of_nat dst + Z.of_nat words * 4) with (Z.of_nat (dst + 4 * words)) by lia.
    replace (Z.of_nat src + Z.of_nat words * 4) with (Z.of_nat (src + 4 * words)) by lia.
    replace (Z.of_nat n - Z.of_nat words * 4) with (Z.of_nat (n - 4 * words)) by lia.
    destruct (IH (dst + 4 * words)%nat (src + 4 * words)%nat (n - 4 * words)%nat (over dst (read src (4 * words) mem) mem))
      as (k & Hk & ->); try (rewrite ?length_over; lia); [by apply Forall_over; [apply Forall_read|]|].
    exists (4 * words + k)%nat. split; [lia|]. rewrite read_over by (rewrite length_read; lia).
    by rewrite read_app, over_app, length_read, Nat.sub_add_distr, !Nat.add_assoc by lia.
  - exists 0%nat. split; [lia|]. unfold read. by rewrite take_0, !Nat.add_0_r, Nat.sub_0_r.
Qed.

Lemma rt_memcpy_ok dst src n mem :
  Forall byte mem -> (dst + n <= length mem)%nat -> (src + n <= length mem)%nat -> Z.of_nat n < 2 ^ 31 ->
  (dst <= src \/ src + n <= dst)%nat ->
  rt_memcpy (Z.of_nat dst) (Z.of_nat src) (Z.of_nat n) mem = Ok (over dst (read src n mem) mem).
Proof.
  intros Hb Hd Hs Hn Ho. unfold rt_memcpy. cbv zeta. cint. destruct (_ && _).
  - destruct (copy_while_ok 4 (S (Z.to_nat (Z.of_nat n))) dst src n mem) as (k & Hk & ->); try (done || lia).
    cbn [mbind result_bind].
    destruct (copy_while_ok 1 (S (Z.to_nat (Z.of_nat (n - k)))) (dst + k) (src + k) (n - k) (over dst (read src k mem) mem))
      as (j & Hj & ->); try (rewrite ?length_over; lia); [by apply Forall_over; [apply Forall_read|]|].
    cbn [mbind result_bind]. rewrite Nat2Z.id, copy_bytes_ok by (rewrite ?length_over; lia). f_equal.
    replace n with (k + (j + (n - k - j)))%nat at 2 by lia.
    rewrite !read_over by (rewrite ?length_read by (rewrite ?length_over; lia); lia).
    rewrite !read_app, !over_app, !length_read by (rewrite ?length_over; lia). done.
  - destruct (Z.ltb_spec (Z.of_nat n) 0); [lia|]. by rewrite Nat2Z.id, copy_bytes_ok by lia.
Qed.

Lemma rt_memmove_ok dst src n mem :
  (dst + n <= length mem)%nat -> (src + n <= length mem)%nat ->
  rt_memmove (Z.of_nat dst) (Z.of_nat src) (Z.of_nat n) mem = Ok (over dst (read src n mem) mem).
Proof.
  intros Hd Hs. unfold rt_memmove. rewrite Nat2Z.id. destruct (_ && _) eqn:E.
  - rewrite <- !Nat2Z.inj_add. apply copy_back_ok; lia.
  - apply copy_bytes_ok; lia.
Qed.

(** Two areas compared: 0 when they are equal, or the difference of the first two
    bytes that differ. *)
Definition compares (l k : list Z) (r : Z) : Prop :=
  (l = k /\ r = 0) \/
  exists i a b, take i l = take i k /\ l !! i = Some a /\ k !! i = Some b /\ a <> b /\ r = a - b.
Lemma compares_cons a l k r : compares l k r -> compares (a :: l) (a :: k) r.
Proof.
  intros [[-> ->]|(i & x & y & Ht & Hx & Hy & H)]; [by left|right]. exists (S i), x, y. cbn [take]. by rewrite Ht.
Qed.
Lemma compares_zero l k r : compares l k r -> r = 0 <-> l = k.
Proof.
  intros [[-> ->]|(i & a & b & _ & Ha & Hb & Hab & ->)]; [done|]. split; [lia|]. intros ->. by simplify_eq.
Qed.

Lemma memcmp_loop_ok n p q mem :
  (p + n <= length mem)%nat -> (q + n <= length mem)%nat ->
  exists r, memcmp_loop n (Z.of_nat p) (Z.of_nat q) mem = Ok r /\ compares (read p n mem) (read q n mem) r.
Proof.
  revert p q. induction n as [|n IH]; intros p q Hp Hq; cbn [memcmp_loop].
  { exists 0. split; [done|]. left. unfold read. by rewrite !take_0. }
  destruct (get_Ok p mem) as (a & -> & Ea); [lia|]. destruct (get_Ok q mem) as (b & -> & Eb); [lia|]. cbn [mbind result_bind].
  rewrite (read_S p n mem a Ea), (read_S q n mem b Eb). destruct (Z.eqb_spec (a - b) 0) as [E|E]; cbn [negb].
  - replace (Z.of_nat p + 1) with (Z.of_nat (S p)) by lia. replace (Z.of_nat q + 1) with (Z.of_nat (S q)) by lia.
    destruct (IH (S p) (S q)) as (r & -> & Hr); [lia..|]. exists r. split; [done|].
    replace b with a by lia. by apply compares_cons.
  - exists (a - b). split; [done|]. right. exists 0%nat, a, b. split_and!; [done..|lia|done].
Qed.

(** *** Strings *)

(** The characters [l], without a NUL, and the NUL after them, at the pointer. *)
Definition text (l : list Z) : Prop := Forall (fun c => 0 < c < 256) l.

Lemma rt_strlen_ok l rest : text l -> rt_strlen (l ++ 0 :: rest) = Ok (Z.of_nat (length l)).
Proof.
  induction 1 as [|c l Hc Hl IH]; [done|]. cbn [app rt_strlen]. destruct (Z.eqb_spec c 0); [lia|].
  rewrite IH. cbn [mbind result_bind length]. f_equal. lia.
Qed.

Lemma strnlen_loop_ok (n maxlen : Z) l rest :
  text l -> n <= maxlen -> strnlen_loop n maxlen (l ++ 0 :: rest) = Ok (Z.min (n + Z.of_nat (length l)) maxlen).
Proof.
  intros Hl. revert n. induction Hl as [|c l Hc Hl IH]; intros n Hn; cbn [app strnlen_loop length].
  - cbn. f_equal. lia.
  - destruct (Z.eqb_spec c 0); [lia|]. destruct (Z.ltb_spec n maxlen); cbn [negb andb].
    + rewrite IH by lia. f_equal. lia.
    + f_equal. lia.
Qed.
Lemma rt_strnlen_ok maxlen l rest :
  text l -> 0 <= maxlen -> rt_strnlen (l ++ 0 :: rest) maxlen = Ok (Z.min (Z.of_nat (length l)) maxlen).
Proof. intros Hl Hm. unfold rt_strnlen. by rewrite strnlen_loop_ok. Qed.

(** The first difference of two texts, the end counting as 0. *)
Fixpoint first_diff (a b : list Z) : Z :=
  match a, b with
  | [], b => - default 0 (head b)
  | a, [] => default 0 (head a)
  | c :: a, d :: b => if decide (c = d) then first_diff a b else c - d
  end.

Lemma first_diff_0 a b : text a -> text b -> first_diff a b = 0 <-> a = b.
Proof.
  intros Ha. revert b. induction Ha as [|c a Hc Ha IH]; intros b Hb.
  - destruct Hb as [|d b Hd Hb]; cbn; [done|]. split; [lia|done].
  - destruct Hb as [|d b Hd Hb]; cbn [first_diff]; [cbn; split; [lia|done]|]. destruct (decide (c = d)) as [->|Hn].
    + rewrite IH by done. split; [by intros ->|by intros [= ->]].
    + split; [lia|by intros [= ??]].
Qed.

Lemma rt_strcmp_ok a b resta restb :
  text a -> text b -> rt_strcmp (a ++ 0 :: resta) (b ++ 0 :: restb) = Ok (first_diff a b).
Proof.
  intros Ha. revert b. induction Ha as [|c a Hc Ha IH]; intros b Hb.
  - by destruct Hb as [|d b Hd Hb].
  - destruct (Z.eqb_spec c 0); [lia|]. destruct Hb as [|d b Hd Hb]; cbn [app rt_strcmp first_diff].
    + destruct (Z.eqb_spec c 0); [lia|]. cbn. f_equal. lia.
    + destruct (Z.eqb_spec c 0); [lia|]. destruct (Z.eqb_spec c d), (decide (c = d)); try lia; cbn [negb andb]; [by apply IH|done].
Qed.

(** [rt_strcasecmp] compares the texts in lower case. *)
Lemma lower_text l : text l -> text (map lower l).
Proof. induction 1 as [|c l Hc Hl IH]; constructor; [|done]. unfold lower. destruct (_ && _) eqn:E; lia. Qed.
Lemma rt_strcasecmp_ok a b resta restb :
  text a -> text b -> rt_strcasecmp (a ++ 0 :: resta) (b ++ 0 :: restb) = Ok (first_diff (map lower a) (map lower b)).
Proof.
  assert (forall c, 0 < c < 256 -> 0 < lower c < 256 /\ Z.land c 0xff = c) as Hl.
  { intros c Hc. split; [unfold lower; destruct (_ && _) eqn:E; lia|].
    change 0xff with (Z.ones 8). rewrite Z.land_ones by lia. by apply u8_small; lia. }
  intros Ha. revert b. induction Ha as [|c a Hc Ha IH]; intros b Hb.
  - destruct Hb as [|d b Hd Hb]; [done|]. cbn [app rt_strcasecmp map first_diff]. destruct (Hl d Hd) as [Hd' ->].
    change (lower (Z.land 0 255)) with 0. cbv zeta. by destruct (Z.eqb_spec 0 (lower d)); [lia|].
  - destruct (Hl c Hc) as [Hc' Ec]. destruct Hb as [|d b Hd Hb]; cbn [app rt_strcasecmp map first_diff]; rewrite Ec.
    + change (lower (Z.land 0 255)) with 0. cbv zeta. destruct (Z.eqb_spec (lower c) 0); [lia|]. cbn. f_equal. lia.
    + destruct (Hl d Hd) as [Hd' ->]. cbv zeta. destruct (Z.eqb_spec (lower c) 0); [lia|].
      destruct (Z.eqb_spec (lower c) (lower d)), (decide (lower c = lower d)); try lia; cbn [negb andb]; [by apply IH|done].
Qed.

(** [rt_strncmp] reports the first difference as a signed character. *)
Lemma i8_diff c d : 0 <= c < 256 -> 0 <= d < 256 -> i8 (c - d) = 0 <-> c = d.
Proof. intros Hc Hd. unfold i8. zmod. Qed.
Lemma rt_strncmp_ok n a b resta restb :
  text a -> text b ->
  rt_strncmp (a ++ 0 :: resta) (b ++ 0 :: restb) (Z.of_nat n) = Ok (i8 (first_diff (take n a) (take n b))).
Proof.
  unfold rt_strncmp. rewrite Nat2Z.id. intros Ha. revert n b.
  induction Ha as [|c a Hc Ha IH]; intros [|n] b Hb; cbn [take]; rewrite ?take_nil; [done| |done|].
  - by destruct Hb as [|d b Hd Hb]; cbn [app strncmp_loop]; cbv zeta; rewrite orb_true_r.
  - destruct Hb as [|d b Hd Hb]; cbn [app strncmp_loop first_diff take]; cbv zeta.
    + pose proof (i8_diff c 0 ltac:(lia) ltac:(lia)). destruct (Z.eqb_spec (i8 (c - 0)) 0); [lia|].
      cbn. by rewrite Z.sub_0_r.
    + pose proof (i8_diff c d ltac:(lia) ltac:(lia)) as Hi. destruct (decide (c = d)) as [->|Hn].
      * replace (i8 (d - d)) with 0 by (symmetry; by apply Hi). destruct (Z.eqb_spec d 0); [lia|]. cbn [negb orb Z.eqb]. by apply IH.
      * destruct (Z.eqb_spec (i8 (c - d)) 0) as [E|E]; [by apply Hi in E|done].
Qed.

Lemma read_cons_inv p n mem c l :
  read p (S n) mem = c :: l -> mem !! p = Some c /\ read (S p) n mem = l.
Proof.
  intros H. destruct (mem !! p) as [x|] eqn:E.
  - rewrite (read_S p n mem x E) in H. by injection H as -> ->.
  - apply lookup_ge_None_1 in E. unfold read in H. rewrite drop_ge, take_nil in H by done. done.
Qed.

Lemma strcpy_loop_ok l fuel dst src mem :
  text l -> read src (S (length l)) mem = l ++ [0] ->
  (dst + S (length l) <= length mem)%nat -> (dst <= src \/ src + S (length l) <= dst)%nat -> (length l < fuel)%nat ->
  strcpy_loop fuel (Z.of_nat dst) (Z.of_nat src) mem = Ok (over dst (l ++ [0]) mem).
Proof.
  intros Hl. revert fuel dst src mem.
  induction Hl as [|c l Hc Hl IH]; intros [|fuel] dst src mem Hr Hd Ho Hf; cbn [length] in *; try lia;
    cbn [strcpy_loop]; apply read_cons_inv in Hr as [Ec Hr];
    rewrite (aget_Ok mem (Z.of_nat src) _ ltac:(lia) ltac:(rewrite Nat2Z.id; exact Ec) : get mem _ = _); cbn [mbind result_bind].
  - cbn [Z.eqb negb]. by apply put_Ok; lia.
  - destruct (Z.eqb_spec c 0); [lia|]. cbn [negb]. rewrite put_Ok by lia. cbn [mbind result_bind].
    replace (Z.of_nat dst + 1) with (Z.of_nat (S dst)) by lia. replace (Z.of_nat src + 1) with (Z.of_nat (S src)) by lia.
    rewrite IH; [|rewrite read_over by (cbn [length]; lia); done|rewrite ?length_over; lia..].
    change ((c :: l) ++ [0]) with ([c] ++ l ++ [0]). rewrite (over_app dst [c]). by rewrite Nat.add_1_r.
Qed.
Lemma rt_strcpy_ok l dst src mem :
  text l -> read src (S (length l)) mem = l ++ [0] ->
  (dst + S (length l) <= length mem)%nat -> (dst <= src \/ src + S (length l) <= dst)%nat ->
  rt_strcpy (Z.of_nat dst) (Z.of_nat src) mem = Ok (over dst (l ++ [0]) mem).
Proof. intros. apply strcpy_loop_ok; [done..|lia]. Qed.

(** [rt_strncpy] stores [n] bytes: the characters, as far as there is room, and NULs. *)
Lemma rt_strncpy_ok l n dst src mem :
  text l -> read src (S (length l)) mem = l ++ [0] ->
  (dst + n <= length mem)%nat -> (dst <= src \/ src + S (length l) <= dst)%nat ->
  rt_strncpy (Z.of_nat dst) (Z.of_nat src) (Z.of_nat n) mem = Ok (over dst (take n (l ++ replicate n 0)) mem).
Proof.
  unfold rt_strncpy. rewrite Nat2Z.id. intros Hl. revert n dst src mem.
  induction Hl as [|c l Hc Hl IH]; intros [|n] dst src mem Hr Hd Ho; cbn [length] in *; try done;
    cbn [strncpy_loop]; apply read_cons_inv in Hr as [Ec Hr];
    rewrite (aget_Ok mem (Z.of_nat src) _ ltac:(lia) ltac:(rewrite Nat2Z.id; exact Ec) : get mem _ = _); cbn [mbind result_bind].
  - rewrite put_Ok by lia. cbn [mbind result_bind Z.eqb].
    replace (Z.of_nat dst + 1) with (Z.of_nat (S dst)) by lia. rewrite set_bytes_ok by (rewrite length_over; lia).
    rewrite app_nil_l, take_ge by (rewrite length_replicate; lia). cbn [replicate].
    change (0 :: replicate n 0) with ([0] ++ replicate n 0). rewrite (over_app dst [0]). by rewrite Nat.add_1_r.
  - destruct (Z.eqb_spec c 0); [lia|]. rewrite put_Ok by lia. cbn [mbind result_bind].
    replace (Z.of_nat dst + 1) with (Z.of_nat (S dst)) by lia. replace (Z.of_nat src + 1) with (Z.of_nat (S src)) by lia.
    rewrite IH; [|rewrite read_over by (cbn [length]; lia); done|rewrite ?length_over; lia..].
    cbn [app take]. change (c :: take n (l ++ replicate (S n) 0)) with ([c] ++ take n (l ++ replicate (S n) 0)).
    rewrite (over_app dst [c]), Nat.add_1_r. cbn [length]. do 2 f_equal.
    replace (S n) with (n + 1)%nat by lia. rewrite replicate_add, app_assoc.
    by rewrite (take_app_le (l ++ replicate n 0)) by (rewrite length_app, length_replicate; lia).
Qed.

(** *** The search *)

Lemma rt_memcmp_text p q n mem :
  (p + n <= length mem)%nat -> (q + n <= length mem)%nat ->
  exists r, rt_memcmp (Z.of_nat p) (Z.of_nat q) (Z.of_nat n) mem = Ok r /\ compares (read p n mem) (read q n mem) r.
Proof. intros. unfold rt_memcmp. rewrite Nat2Z.id. by apply memcmp_loop_ok. Qed.

(** [k] stands in [l] at [i]. *)
Definition found_at (k l : list Z) (i : nat) : Prop := k `prefix_of` drop i l.

Definition first_found (p : nat) (k l : list Z) (o : option Z) : Prop :=
  match o with
  | Some r => exists i, r = Z.of_nat (p + i) /\ found_at k l i /\ forall j, (j < i)%nat -> ~ found_at k l j
  | None => forall j, ~ found_at k l j
  end.

Lemma found_at_read p k l i rest mem :
  drop p mem = l ++ rest -> (i + length k <= length l)%nat ->
  found_at k l i <-> read (p + i) (length k) mem = k.
Proof.
  intros Hm Hi. unfold read. rewrite <- drop_drop, Hm, drop_app_le, take_app_le by (rewrite ?length_drop; lia).
  unfold found_at. split.
  - intros [x ->]. by rewrite take_app_length.
  - intros E. exists (drop (length k) (drop i l)). rewrite <- E at 1. by rewrite take_drop.
Qed.
Lemma found_at_room k l i : k <> [] -> found_at k l i -> (i + length k <= length l)%nat.
Proof.
  intros Hk [x E]. apply (f_equal length) in E. rewrite length_drop, length_app in E.
  destruct k; [done|]. cbn [length] in *. lia.
Qed.

Lemma strstr_loop_ok p q k l restl restk mem fuel i :
  k <> [] -> drop p mem = l ++ 0 :: restl -> drop q mem = k ++ 0 :: restk ->
  (i <= length l)%nat -> (length l - i < fuel)%nat -> (forall j, (j < i)%nat -> ~ found_at k l j) ->
  exists o, strstr_loop fuel (Z.of_nat (p + i)) (Z.of_nat q) (Z.of_nat (length l - i)) (Z.of_nat (length k)) mem = Ok o /\
            first_found p k l o.
Proof.
  intros Hk Hp Hq. revert i. induction fuel as [|fuel IH]; intros i Hi Hf Hn; [lia|]. cbn [strstr_loop].
  pose proof (f_equal length Hp) as Lp. pose proof (f_equal length Hq) as Lq.
  rewrite length_drop, length_app in Lp, Lq. cbn [length] in Lp, Lq.
  destruct (Z.leb_spec (Z.of_nat (length k)) (Z.of_nat (length l - i))) as [Hle|Hlt].
  - destruct (rt_memcmp_text (p + i) q (length k) mem) as (r & -> & Hr%compares_zero); [lia..|]. cbn [mbind result_bind].
    assert (found_at k l i <-> r = 0) as Hat.
    { rewrite Hr, (found_at_read p k l i _ mem Hp) by lia. unfold read at 3. rewrite Hq, take_app_length. done. }
    assert (length k <> 0)%nat by (by destruct k).
    destruct (Z.eqb_spec r 0) as [E|E]; [exists (Some (Z.of_nat (p + i))); split; [done|]; exists i; by rewrite Hat|].
    replace (Z.of_nat (p + i) + 1) with (Z.of_nat (p + S i)) by lia.
    replace (Z.of_nat (length l - i) - 1) with (Z.of_nat (length l - S i)) by lia.
    apply IH; [lia..|]. intros j Hj. destruct (decide (j = i)) as [->|]; [by rewrite Hat|apply Hn; lia].
  - exists None. split; [done|]. intros j Hf'. pose proof (found_at_room k l j Hk Hf'). apply (Hn j); [lia|done].
Qed.

Lemma rt_strstr_ok p q k l restl restk mem :
  text l -> text k -> drop p mem = l ++ 0 :: restl -> drop q mem = k ++ 0 :: restk ->
  exists o, rt_strstr (Z.of_nat p) (Z.of_nat q) mem = Ok o /\ first_found p k l o.
Proof.
  intros Hl Hk Hp Hq. unfold rt_strstr. rewrite !Nat2Z.id, Hp, Hq, !rt_strlen_ok by done. cbn [mbind result_bind].
  destruct (Z.eqb_spec (Z.of_nat (length k)) 0) as [E|E].
  - exists (Some (Z.of_nat p)). split; [done|]. exists 0%nat. destruct k; [|done].
    split; [by rewrite Nat.add_0_r|]. split; [apply prefix_nil|lia].
  - destruct (strstr_loop_ok p q k l restl restk mem (S (Z.to_nat (Z.of_nat (length l)))) 0) as (o & Ho & Hf);
      [by intros ->|done..|lia|lia|lia|].
    rewrite Nat.add_0_r, Nat.sub_0_r in Ho. by exists o.
Qed.
End Memory.

(** ** The properties *)

(** C33: The word-by-word functions are the byte functions, for areas of fewer than
    2^31 bytes at every address and alignment inside the memory: [rt_memset] changes
    the memory by one store of [n] equal bytes; [rt_memmove] by one store of the bytes
    the source had before the call, however the areas overlap; [rt_memcpy] does the
    same when the areas are apart or the destination is at or below the source;
    [rt_memcmp] answers the difference of the first two bytes that differ, as unsigned
    bytes, and 0 for equal areas.  None of them reads or writes outside its areas. *)
Theorem memory_functions_bytewise (mem : memory) (dst src n : nat) (c : Z) :
  Forall byte mem -> (dst + n <= length mem)%nat -> (src + n <= length mem)%nat -> Z.of_nat n < 2 ^ 31 ->
  rt_memset (Z.of_nat dst) c (Z.of_nat n) mem = Ok (over dst (replicate n (u8 c)) mem) /\
  rt_memmove (Z.of_nat dst) (Z.of_nat src) (Z.of_nat n) mem = Ok (over dst (read src n mem) mem) /\
  ((dst <= src \/ src + n <= dst)%nat ->
   rt_memcpy (Z.of_nat dst) (Z.of_nat src) (Z.of_nat n) mem = Ok (over dst (read src n mem) mem)) /\
  exists r, rt_memcmp (Z.of_nat dst) (Z.of_nat src) (Z.of_nat n) mem = Ok r /\
            compares (read dst n mem) (read src n mem) r.
Proof.
  intros Hb Hd Hs Hn. split; [by apply rt_memset_ok|]. split; [by apply rt_memmove_ok|].
  split; [by apply rt_memcpy_ok|by apply rt_memcmp_text].
Qed.

(** An aligned copy with two words and three bytes, onto itself moved down by a word. *)
Lemma memory_functions_bytewise_witness :
  let mem := seqZ 1 40 in
  rt_memset 4 (-1) 27 mem = Ok (over 4 (replicate 27 255) mem) /\
  rt_memmove 4 8 27 mem = Ok (over 4 (seqZ 9 27) mem) /\
  ((4 <= 8 \/ 8 + 27 <= 4)%nat -> rt_memcpy 4 8 27 mem = Ok (over 4 (seqZ 9 27) mem)) /\
  exists r, rt_memcmp 4 8 27 mem = Ok r /\ compares (seqZ 5 27) (seqZ 9 27) r.
Proof.
  cbv zeta. apply (memory_functions_bytewise (seqZ 1 40) 4 8 27 (-1)).
  - apply (bool_decide_unpack (Forall byte (seqZ 1 40))). by vm_compute.
  - vm_compute. lia.
  - vm_compute. lia.
  - reflexivity.
Defined.

(** A copy to a place above the source that overlaps it repeats the bytes it wrote
    itself: there [rt_memcpy] is not [rt_memmove]. *)
Lemma memcpy_overlap : rt_memcpy 1 0 3 [1; 2; 3; 4] = Ok [1; 1; 1; 1] /\ rt_memmove 1 0 3 [1; 2; 3; 4] = Ok [1; 1; 2; 3].
Proof. by split. Qed.

(** A difference of 128 or more changes its sign in [rt_strncmp], not in [rt_strcmp]. *)
Lemma strncmp_sign : rt_strncmp [200; 0] [65; 0] 1 = Ok (-121) /\ rt_strcmp [200; 0] [65; 0] = Ok 135.
Proof. by split. Qed.

(** [rt_strnlen] reads the character at [maxlen]: beyond an array of [maxlen] characters. *)
Lemma strnlen_reads_beyond (l : list Z) : text l -> rt_strnlen l (Z.of_nat (length l)) = Fault OutOfBounds.
Proof.
  intros Hl. unfold rt_strnlen. set (m := Z.of_nat (length l)). assert (0 + Z.of_nat (length l) = m) as Hm by done.
  clearbody m. revert Hm. generalize 0 as n. induction Hl as [|c l Hc Hl IH]; intros n Hm; [done|].
  cbn [strnlen_loop length] in *. destruct (Z.eqb_spec c 0); [lia|]. destruct (Z.ltb_spec n m); [|lia].
  apply IH. lia.
Qed.
End KString.
