(* ===== verification/Msh.v ===== *)
(** * Command lines of the shell (rt-thread/components/finsh/msh.c)

    A command line is cut into arguments in place, the command is looked up in the
    table that the linker collects, and an incomplete name is completed.  The line
    is the list of its bytes; pointers are indices.

    The commands themselves are parameters: what a command returns depends on its
    arguments, and it leaves the line alone.

    The theorem: the arguments a command gets are those of a tokenizer on the text,
    and nothing outside the line is touched. *)

From S2P Require Import Prelude KString.

Module Msh.

Definition FINSH_ARG_MAX : nat := 10.

(** Characters, without the NUL. *)
Abbreviation str := (list Z).

(** An entry of the command table; a function is known by a number. *)
Record finsh_syscall := mk_syscall { name : str; desc : str; func : nat }.

(** What goes out: texts handed to [rt_kprintf] (see Kprintf for what it does with
    them) and calls of commands with their arguments. *)
Inductive event := Put (t : str) | Run (f : nat) (argv : list str).

Definition SPACE : Z := 32.
Definition TAB : Z := 9.
Definition QUOTE : Z := 34.
Definition BACKSLASH : Z := 92.
Definition blank (c : Z) : bool := (c =? SPACE) || (c =? TAB).

(** The characters up to the NUL. *)
Fixpoint c_string (s : list Z) : result str :=
  match s with
  | [] => Fault OutOfBounds
  | c :: s => if c =? 0 then Ok [] else r ← c_string s; Ok (c :: r)
  end.
Definition string_at (mem : list Z) (p : Z) : result str := c_string (drop (Z.to_nat p) mem).

(** ** [msh_split] *)

(** Blanks at the pointer become NULs, up to the end of the line. *)
Fixpoint strip (fuel : nat) (ptr position length : Z) (mem : list Z) : result (Z * Z * list Z) :=
  match fuel with
  | O => Fault OutOfFuel
  | S fuel =>
      c ← aget mem ptr;
      if blank c && (position <? length) then
        mem ← aset mem ptr 0; strip fuel (ptr + 1) (position + 1) length mem
      else Ok (ptr, position, mem)
  end.

(** The loop over a quoted string. *)
Fixpoint skip_string (fuel : nat) (ptr position length : Z) (mem : list Z) : result (Z * Z) :=
  match fuel with
  | O => Fault OutOfFuel
  | S fuel =>
      c ← aget mem ptr;
      if negb (c =? QUOTE) && (position <? length) then
        '(ptr, position) ←
          (if c =? BACKSLASH then
             d ← aget mem (ptr + 1);
             Ok (if d =? QUOTE then (ptr + 1, position + 1) else (ptr, position))
           else Ok (ptr, position));
        skip_string fuel (ptr + 1) (position + 1) length mem
      else Ok (ptr, position)
  end.

(** The loop over a word. *)
Fixpoint skip_word (fuel : nat) (ptr position length : Z) (mem : list Z) : result (Z * Z) :=
  match fuel with
  | O => Fault OutOfFuel
  | S fuel =>
      c ← aget mem ptr;
      if negb (blank c) && (position <? length) then skip_word fuel (ptr + 1) (position + 1) length mem
      else Ok (ptr, position)
  end.

(** Too many args ! We only Use: *)
Definition too_many : str :=
  [84; 111; 111; 32; 109; 97; 110; 121; 32; 97; 114; 103; 115; 32; 33; 32;
   87; 101; 32; 111; 110; 108; 121; 32; 85; 115; 101; 58; 10].
Fixpoint print_args (argv : list Z) (mem : list Z) : result (list event) :=
  match argv with
  | [] => Ok []
  | p :: argv => a ← string_at mem p; r ← print_args argv mem; Ok (Put (a ++ [SPACE]) :: r)
  end.

(** The main loop; each round but the last consumes a character. *)
Fixpoint split_loop (fuel : nat) (ptr position length : Z) (argv : list Z) (mem : list Z) (out : list event)
  : result (list Z * list Z * list event) :=
  match fuel with
  | O => Fault OutOfFuel
  | S fuel =>
      if position <? length then
        let n := S (Z.to_nat length) in
        '(ptr, position, mem) ← strip n ptr position length mem;
        if (FINSH_ARG_MAX <=? base.length argv)%nat then
          a ← print_args argv mem;
          Ok (argv, mem, out ++ [Put too_many] ++ a ++ [Put [10]])
        else if length <=? position then Ok (argv, mem, out)
        else
          c ← aget mem ptr;
          if c =? QUOTE then
            let ptr := ptr + 1 in let position := position + 1 in
            let argv := argv ++ [ptr] in
            '(ptr, position) ← skip_string n ptr position length mem;
            if length <=? position then Ok (argv, mem, out)
            else
              mem ← aset mem ptr 0;
              split_loop fuel (ptr + 1) (position + 1) length argv mem out
          else
            let argv := argv ++ [ptr] in
            '(ptr, position) ← skip_word n ptr position length mem;
            if length <=? position then Ok (argv, mem, out)
            else split_loop fuel ptr position length argv mem out
      else Ok (argv, mem, out)
  end.

(** The pointers to the arguments; their number is the value returned. *)
Definition msh_split (cmd length : Z) (mem : list Z) (out : list event) : result (list Z * list Z * list event) :=
  split_loop (S (Z.to_nat length)) cmd 0 length [] mem out.

(** ** Commands *)

(** [strncmp(a, b, n) == 0], the strings with their NULs. *)
Fixpoint strncmp_eq (n : nat) (a b : list Z) : result bool :=
  match n with
  | O => Ok true
  | S n =>
      match a, b with
      | c :: a, d :: b => if negb (c =? d) then Ok false else if c =? 0 then Ok true else strncmp_eq n a b
      | _, _ => Fault OutOfBounds
      end
  end.

Fixpoint msh_get_cmd (table : list finsh_syscall) (cmd : list Z) (size : Z) : result (option nat) :=
  match table with
  | [] => Ok None
  | index :: table =>
      e ← strncmp_eq (Z.to_nat size) (name index ++ [0]) cmd;
      if e : bool then
        c ← aget (name index ++ [0]) size;
        if c =? 0 then Ok (Some (func index)) else msh_get_cmd table cmd size
      else msh_get_cmd table cmd size
  end.

(** [while (cmd[cmd0_size] is no blank && cmd0_size < length)] *)
Fixpoint cmd0_loop (fuel : nat) (cmd0_size cmd length : Z) (mem : list Z) : result Z :=
  match fuel with
  | O => Fault OutOfFuel
  | S fuel =>
      c ← aget mem (cmd + cmd0_size);
      if negb (blank c) && (cmd0_size <? length) then cmd0_loop fuel (cmd0_size + 1) cmd length mem
      else Ok cmd0_size
  end.

Fixpoint strings_at (argv : list Z) (mem : list Z) : result (list str) :=
  match argv with
  | [] => Ok []
  | p :: argv => a ← string_at mem p; r ← strings_at argv mem; Ok (a :: r)
  end.

(** Truncation at the first space, and the line that is printed. *)
Fixpoint end_of_word (fuel : nat) (p : Z) (mem : list Z) : result Z :=
  match fuel with
  | O => Fault OutOfFuel
  | S fuel =>
      c ← aget mem p;
      if negb (c =? SPACE) && negb (c =? 0) then end_of_word fuel (p + 1) mem else Ok p
  end.
(** : command not found. *)
Definition not_found : str :=
  [58; 32; 99; 111; 109; 109; 97; 110; 100; 32; 110; 111; 116; 32; 102; 111; 117; 110; 100; 46; 10].

(** Blanks at the beginning are left out. *)
Fixpoint trim (fuel : nat) (cmd length : Z) (mem : list Z) : result (Z * Z) :=
  match fuel with
  | O => Fault OutOfFuel
  | S fuel =>
      if 0 <? length then
        c ← aget mem cmd;
        if blank c then trim fuel (cmd + 1) (length - 1) mem else Ok (cmd, length)
      else Ok (cmd, length)
  end.

Section Commands.
(** The table and what the commands return. *)
Context (table : list finsh_syscall) (command : nat -> list str -> Z).

(** The result is 0 with the value of the command, or [- RT_ERROR]. *)
Definition _msh_exec_cmd (cmd length : Z) (mem : list Z) (out : list event)
  : result (option Z * list Z * list event) :=
  cmd0_size ← cmd0_loop (S (Z.to_nat length)) 0 cmd length mem;
  if cmd0_size =? 0 then Ok (None, mem, out)
  else
    f ← msh_get_cmd table (drop (Z.to_nat cmd) mem) cmd0_size;
    match f with
    | None => Ok (None, mem, out)
    | Some f =>
        '(argv, mem, out) ← msh_split cmd length mem out;
        if (base.length argv =? 0)%nat then Ok (None, mem, out)
        else
          a ← strings_at argv mem;
          Ok (Some (command f a), mem, out ++ [Run f a])
    end.

Definition msh_exec (cmd length : Z) (mem : list Z) (out : list event) : result (Z * list Z * list event) :=
  '(cmd, length) ← trim (S (Z.to_nat length)) cmd length mem;
  if length =? 0 then Ok (0, mem, out)
  else
    '(r, mem, out) ← _msh_exec_cmd cmd length mem out;
    match r with
    | Some cmd_ret => Ok (cmd_ret, mem, out)
    | None =>
        tcmd ← end_of_word (S (base.length mem)) cmd mem;
        mem ← aset mem tcmd 0;
        t ← string_at mem cmd;
        Ok (-1, mem, out ++ [Put (t ++ not_found)])
    end.

(** ** Completion *)

(** RT-Thread shell commands: The format of the name is %-16s, which pads and cuts. *)
Definition help_title : str :=
  [82; 84; 45; 84; 104; 114; 101; 97; 100; 32; 115; 104; 101; 108; 108; 32;
   99; 111; 109; 109; 97; 110; 100; 115; 58; 10].
Definition help_line (index : finsh_syscall) : str :=
  take 16 (name index) ++ replicate (16 - base.length (name index)) SPACE ++ [SPACE; 45; SPACE] ++ desc index ++ [10].
Definition msh_help : list event := [Put help_title] ++ map (fun index => Put (help_line index)) table ++ [Put [10]].

(** The strings with their NULs. *)
Fixpoint str_common (str1 str2 : list Z) : result Z :=
  match str1, str2 with
  | c :: str1, d :: str2 =>
      if negb (c =? 0) && negb (d =? 0) && (c =? d) then r ← str_common str1 str2; Ok (r + 1) else Ok 0
  | _, _ => Fault OutOfBounds
  end.

(** The loop over the table: [name_ptr], [min_length], and the names printed. *)
Fixpoint complete_loop (t : list finsh_syscall) (prefix : str) (name_ptr : option str) (min_length : Z)
    (out : list event) : result (option str * Z * list event) :=
  match t with
  | [] => Ok (name_ptr, min_length, out)
  | index :: t =>
      let cmd_name := name index in
      e ← strncmp_eq (base.length prefix) (prefix ++ [0]) (cmd_name ++ [0]);
      if e : bool then
        let name_ptr := if min_length =? 0 then cmd_name else default cmd_name name_ptr in
        let min_length := if min_length =? 0 then Z.of_nat (base.length name_ptr) else min_length in
        length ← str_common (name_ptr ++ [0]) (cmd_name ++ [0]);
        let min_length := if length <? min_length then length else min_length in
        complete_loop t prefix (Some name_ptr) min_length (out ++ [Put (cmd_name ++ [10])])
      else complete_loop t prefix name_ptr min_length out
  end.

(** [rt_strncpy] into the line. *)
Definition strncpy (line : list Z) (src : str) (n : Z) : result (list Z) :=
  acopy line 0 (take (Z.to_nat n) (src ++ replicate (Z.to_nat n) 0)) 0 n.

Definition msh_auto_complete (line : list Z) (out : list event) : result (list Z * list event) :=
  c ← aget line 0;
  if c =? 0 then Ok (line, out ++ msh_help)
  else
    prefix ← c_string line;
    '(name_ptr, min_length, out) ← complete_loop table prefix None 0 out;
    match name_ptr with
    | Some name_ptr => line ← strncpy line name_ptr min_length; Ok (line, out)
    | None => Ok (line, out)
    end.
End Commands.

(** ** The tokenizer *)

Fixpoint skip_blanks (l : str) : str :=
  match l with c :: r => if blank c then skip_blanks r else l | [] => [] end.
(** A word, and what follows. *)
Fixpoint span_word (l : str) : str * str :=
  match l with
  | [] => ([], [])
  | c :: r => if blank c then ([], l) else let '(w, k) := span_word r in (c :: w, k)
  end.
(** A string after its quote, and what follows the closing one; an escaped quote
    belongs to the string. *)
Fixpoint span_string (l : str) : str * option str :=
  match l with
  | [] => ([], None)
  | c :: r =>
      if c =? QUOTE then ([], Some r)
      else match r with
           | d :: r' =>
               if (c =? BACKSLASH) && (d =? QUOTE) then let '(s, k) := span_string r' in (c :: d :: s, k)
               else let '(s, k) := span_string r in (c :: s, k)
           | [] => ([c], None)
           end
  end.

(** At most [n] arguments, and the characters after them. *)
Fixpoint tokens (n : nat) (l : str) : list str * str :=
  match n with
  | O => ([], l)
  | S n =>
      match skip_blanks l with
      | [] => ([], [])
      | c :: r =>
          if c =? QUOTE then
            match span_string r with
            | (s, Some k) => let '(ts, k) := tokens n k in (s :: ts, k)
            | (s, None) => ([s], [])
            end
          else let '(w, k) := span_word (c :: r) in let '(ts, k) := tokens n k in (w :: ts, k)
      end
  end.

(** ** The pieces of a line *)

Section Split.
Implicit Types (pre post mem l r w s : list Z) (ptr position length : Z).
Notation "# l" := (Z.of_nat (base.length l)) (at level 1, format "# l").

Lemma aget_app pre r : aget (pre ++ r) (#pre) = match r with c :: _ => Ok c | [] => Fault OutOfBounds end.
Proof.
  unfold aget. rewrite decide_True by lia. rewrite Nat2Z.id, lookup_app_r, Nat.sub_diag by lia. by destruct r.
Qed.
Lemma aset_app pre c r v : aset (pre ++ c :: r) (#pre) v = Ok (pre ++ v :: r).
Proof.
  rewrite aset_Ok by (rewrite length_app; cbn; lia). rewrite Nat2Z.id, insert_app_r_alt by lia. by rewrite Nat.sub_diag.
Qed.
Lemma string_app pre w post : KString.text w -> string_at (pre ++ w ++ 0 :: post) (#pre) = Ok w.
Proof.
  intros Hw. unfold string_at. rewrite Nat2Z.id, drop_app_length. induction Hw as [|c w Hc Hw IH]; [done|]. cbn.
  destruct (Z.eqb_spec c 0); [lia|]. cbn in IH. by rewrite IH.
Qed.

Lemma skip_blanks_split l : exists b, l = b ++ skip_blanks l /\ Forall (fun c => blank c = true) b /\
  match skip_blanks l with c :: _ => blank c = false | [] => True end.
Proof.
  induction l as [|c l (b & E & Hb & Hc)]; [by exists []|]. cbn. destruct (blank c) eqn:Ec.
  - exists (c :: b). split; [by rewrite E at 1|]. split; [by constructor|done].
  - exists []. done.
Qed.

Lemma blank_nonzero c : blank c = true -> c <> 0.
Proof. unfold blank. intros H ->. by vm_compute in H. Qed.

Lemma strip_ok fuel pre b k post position :
  Forall (fun c => blank c = true) b -> match k with c :: _ => blank c = false | [] => True end ->
  (base.length b < fuel)%nat ->
  strip fuel (#pre) position (position + #(b ++ k)) (pre ++ b ++ k ++ 0 :: post) =
    Ok (#(pre ++ b), position + #b, pre ++ replicate (base.length b) 0 ++ k ++ 0 :: post).
Proof.
  intros Hb Hk. revert pre position fuel. induction Hb as [|c b Hc Hb IH]; intros pre position fuel Hf.
  - destruct fuel as [|fuel]; [lia|]. cbn [strip app]. rewrite aget_app. rewrite app_nil_r.
    destruct k as [|c k]; cbn [app mbind result_bind base.length].
    + replace (position <? position + Z.of_nat 0) with false by lia. rewrite andb_false_r. by rewrite Z.add_0_r.
    + rewrite Hk. cbn [andb]. by rewrite Z.add_0_r.
  - destruct fuel as [|fuel]; [cbn in Hf; lia|]. cbn [strip app]. rewrite aget_app. cbn [mbind result_bind].
    rewrite Hc. cbn [base.length]. replace (position <? _) with true by lia. cbn [andb].
    rewrite aset_app. cbn [mbind result_bind].
    replace (pre ++ 0 :: b ++ k ++ 0 :: post) with ((pre ++ [0]) ++ b ++ k ++ 0 :: post) by (by rewrite <- app_assoc).
    replace (#pre + 1) with (#(pre ++ [0])) by (rewrite length_app; cbn; lia).
    replace (position + Z.of_nat (S (base.length (b ++ k)))) with ((position + 1) + #(b ++ k)) by lia.
    cbn [base.length] in Hf. rewrite IH by lia. f_equal. f_equal; [f_equal|].
    + rewrite !length_app. cbn. lia.
    + lia.
    + by rewrite <- !app_assoc.
Qed.

Lemma skip_word_ok fuel pre l post position :
  (base.length l < fuel)%nat ->
  let '(w, k) := span_word l in
  l = w ++ k /\ match k with c :: _ => blank c = true | [] => True end /\
  skip_word fuel (#pre) position (position + #l) (pre ++ l ++ 0 :: post) = Ok (#(pre ++ w), position + #w).
Proof.
  revert pre position fuel. induction l as [|c l IH]; intros pre position fuel Hf; cbn [span_word].
  - split_and!; [done|done|]. destruct fuel; [cbn in Hf; lia|]. cbn [skip_word app]. rewrite aget_app. cbn [mbind result_bind base.length].
    replace (position <? position + Z.of_nat 0) with false by lia. rewrite andb_false_r, app_nil_r. by rewrite Z.add_0_r.
  - destruct fuel as [|fuel]; [cbn in Hf; lia|]. cbn [base.length] in Hf. destruct (blank c) eqn:Hc.
    + split_and!; [done|done|]. cbn [skip_word app]. rewrite aget_app. cbn [mbind result_bind base.length].
      rewrite Hc. cbn [negb andb]. rewrite app_nil_r. by rewrite Z.add_0_r.
    + specialize (IH (pre ++ [c]) (position + 1) fuel ltac:(lia)). destruct (span_word l) as [w k]. destruct IH as (-> & Hk & E).
      split_and!; [done|done|]. cbn [skip_word app]. rewrite aget_app. cbn [mbind result_bind base.length].
      rewrite Hc. replace (position <? _) with true by lia. cbn [negb andb].
      replace (pre ++ c :: (w ++ k) ++ 0 :: post) with ((pre ++ [c]) ++ (w ++ k) ++ 0 :: post) by (by rewrite <- app_assoc).
      replace (#pre + 1) with (#(pre ++ [c])) by (rewrite length_app; cbn; lia).
      replace (position + Z.of_nat (S (base.length (w ++ k)))) with ((position + 1) + #(w ++ k)) by lia.
      rewrite E. f_equal. f_equal; [rewrite !length_app; cbn; lia|lia].
Qed.

Lemma span_string_split l :
  match span_string l with (s, Some k) => l = s ++ QUOTE :: k | (s, None) => s = l end.
Proof.
  revert l. fix IH 1. intros [|c r]; [done|]. cbn [span_string]. destruct (Z.eqb_spec c QUOTE) as [->|Hc]; [done|].
  pose proof (IH r) as H. destruct r as [|d r']; [done|]. destruct (_ && _) eqn:E.
  - clear H. specialize (IH r'). destruct (span_string r') as [s [k|]]; by rewrite IH.
  - destruct (span_string (d :: r')) as [s [k|]]; by rewrite H.
Qed.

(** One character further. *)
Lemma shift_pre pre c l : pre ++ c :: l = (pre ++ [c]) ++ l.
Proof. by rewrite <- app_assoc. Qed.
Lemma shift_len pre c : #pre + 1 = #(pre ++ [c]).
Proof. rewrite length_app. cbn. lia. Qed.

Lemma skip_string_ok fuel pre l post position :
  KString.text l -> (base.length l < fuel)%nat ->
  skip_string fuel (#pre) position (position + #l) (pre ++ l ++ 0 :: post) =
    Ok (#(pre ++ fst (span_string l)), position + #(fst (span_string l))).
Proof.
  revert pre l position. induction fuel as [|fuel IH]; intros pre l position Hl Hf; [lia|]. cbn [skip_string].
  destruct l as [|c r]; cbn [app]; rewrite aget_app; cbn [mbind result_bind base.length].
  { replace (position <? position + Z.of_nat 0) with false by lia. rewrite andb_false_r. cbn. by rewrite app_nil_r, Z.add_0_r. }
  apply Forall_cons in Hl as [Hc Hl]. cbn [base.length] in Hf. cbn [span_string].
  destruct (Z.eqb_spec c QUOTE) as [->|Hcq]; cbn [negb andb].
  { cbn. by rewrite app_nil_r, Z.add_0_r. }
  replace (position <? _) with true by lia.
  rewrite (shift_len pre c). rewrite (shift_pre pre c (r ++ 0 :: post)).
  destruct (Z.eqb_spec c BACKSLASH) as [->|Hcb]; cbn [andb].
  - rewrite aget_app. destruct r as [|d r']; cbn [app mbind result_bind].
    + replace (0 =? QUOTE) with false by done.
      pose proof (IH (pre ++ [BACKSLASH]) [] (position + 1) (Forall_nil_2 _) ltac:(cbn; lia)) as E. cbn [app base.length] in E.
      rewrite (shift_len pre BACKSLASH).
      match goal with |- skip_string _ _ _ ?n _ = _ => replace n with (position + 1 + Z.of_nat 0) by (cbn; lia) end.
      rewrite E. cbn. f_equal. f_equal; [|lia].
      by rewrite app_nil_r.
    + apply Forall_cons in Hl as [Hd Hl]. cbn [base.length] in Hf. destruct (Z.eqb_spec d QUOTE) as [->|Hdq].
      * rewrite ?(shift_len pre BACKSLASH), (shift_len (pre ++ [BACKSLASH]) QUOTE), (shift_pre (pre ++ [BACKSLASH]) QUOTE (r' ++ 0 :: post)).
        match goal with |- skip_string _ _ _ ?n _ = _ => replace n with (position + 1 + 1 + #r') by (cbn; lia) end.
        rewrite IH by (done || lia). destruct (span_string r') as [s k]. cbn [fst]. f_equal. f_equal; [rewrite !length_app|]; cbn; lia.
      * match goal with |- skip_string _ _ _ ?n _ = _ => replace n with (position + 1 + #(d :: r')) by (cbn; lia) end.
        rewrite ?(shift_len pre BACKSLASH). rewrite (IH _ (d :: r')) by (first [by constructor | cbn [base.length]; lia]).
        destruct (span_string (d :: r')) as [s k]. cbn [fst]. f_equal. f_equal; [rewrite !length_app|]; cbn; lia.
  - cbn [mbind result_bind]. match goal with |- skip_string _ _ _ ?n _ = _ => replace n with (position + 1 + #r) by (cbn; lia) end.
    rewrite ?(shift_len pre c), IH by (done || lia).
    destruct r as [|d r']; [cbn; f_equal; f_equal; rewrite ?length_app; cbn; lia|].
    destruct (span_string (d :: r')) as [s k]. cbn [fst]. f_equal. f_equal; [rewrite !length_app|]; cbn; lia.
Qed.

(** Appends to the right. *)
Ltac napp := repeat first [rewrite <- app_assoc | progress (cbn [app])].

(** *** The whole line *)

Lemma strings_app a b mem x y :
  strings_at a mem = Ok x -> strings_at b mem = Ok y -> strings_at (a ++ b) mem = Ok (x ++ y).
Proof.
  revert x. induction a as [|p a IH]; intros x; cbn [strings_at app]; [by intros [= <-]|].
  intros (t & E & (r & Er & [= <-])%bind_Ok)%bind_Ok Eb. rewrite E. cbn [mbind result_bind]. by rewrite (IH r Er Eb).
Qed.
Lemma print_args_ok argv mem ts :
  strings_at argv mem = Ok ts -> print_args argv mem = Ok (map (fun a => Put (a ++ [SPACE])) ts).
Proof.
  revert ts. induction argv as [|p argv IH]; intros ts; cbn [strings_at print_args]; [by intros [= <-]|].
  intros (t & E & (r & Er & [= <-])%bind_Ok)%bind_Ok. rewrite E. cbn [mbind result_bind]. by rewrite (IH r Er).
Qed.

(** After a part of the line is done: the first blank has become a NUL. *)
Definition closed l l' : Prop :=
  base.length l' = base.length l /\ match l with c :: _ => blank c = true -> head l' = Some 0 | [] => True end.

(** The message after too many arguments. *)
Definition complaint (ts : list str) (k : str) : list event :=
  match k with [] => [] | _ => [Put too_many] ++ map (fun a => Put (a ++ [SPACE])) ts ++ [Put [10]] end.

Lemma blanks_text b : Forall (fun c => blank c = true) b -> base.length (replicate (base.length b) 0) = base.length b.
Proof. intros _. apply length_replicate. Qed.
Lemma closed_blanks b k :
  match k with c :: _ => blank c = false | [] => True end -> forall k', base.length k' = base.length k ->
  closed (b ++ k) (replicate (base.length b) 0 ++ k').
Proof.
  intros Hk k' Hl. split; [rewrite !length_app, length_replicate; lia|].
  destruct b as [|c b]; [|done]. cbn. destruct k as [|c k]; [done|]. by rewrite Hk.
Qed.

Section Loop.
Context (lim : Z) (post : list Z).

(** What a run of the loop from [l] on does. *)
Definition splits (fuel : nat) pre l (argv : list Z) (ready : list str) (out : list event) (n : nat) : Prop :=
  exists ps l', split_loop fuel (#pre) (lim - #l) lim argv (pre ++ l ++ 0 :: post) out =
      Ok (argv ++ ps, pre ++ l' ++ 0 :: post, out ++ complaint (ready ++ fst (tokens n l)) (snd (tokens n l))) /\
    closed l l' /\ strings_at (argv ++ ps) (pre ++ l' ++ 0 :: post) = Ok (ready ++ fst (tokens n l)).

(** The arguments so far stay what they are, whatever becomes of the rest. *)
Definition settled pre l (argv : list Z) (ready : list str) : Prop :=
  forall l', closed l l' -> strings_at argv (pre ++ l' ++ 0 :: post) = Ok ready.

Lemma settled_next pre l argv ready p w q pre' l1 :
  settled pre l argv ready ->
  (forall l', closed l1 l' -> exists l0', pre' ++ l' ++ 0 :: post = pre ++ l0' ++ 0 :: post /\ closed l l0' /\
     exists post', pre' ++ l' ++ 0 :: post = q ++ w ++ 0 :: post') ->
  p = #q -> KString.text w -> settled pre' l1 (argv ++ [p]) (ready ++ [w]).
Proof.
  intros S H -> Hw l' Hc. destruct (H l' Hc) as (l0' & E & Hc0 & post' & E'). apply strings_app.
  - rewrite E. by apply S.
  - cbn [strings_at]. rewrite E', string_app by done. done.
Qed.

(** A run from the next argument on is a run from here on. *)
Lemma splits_next fuel fuel' pre l argv ready w p out n pre' l1 (rest : list Z -> list Z) mem ts k :
  splits fuel pre' l1 (argv ++ [p]) (ready ++ [w]) out n ->
  split_loop fuel' (#pre) (lim - #l) lim argv mem out =
    split_loop fuel (#pre') (lim - #l1) lim (argv ++ [p]) (pre' ++ l1 ++ 0 :: post) out ->
  mem = pre ++ l ++ 0 :: post ->
  (forall l', closed l1 l' -> pre' ++ l' = pre ++ rest l' /\ closed l (rest l')) ->
  tokens n l1 = (ts, k) -> tokens (S n) l = (w :: ts, k) -> splits fuel' pre l argv ready out (S n).
Proof.
  intros (ps & l' & E & Hc & Es) Eq -> H0 T1 T. destruct (H0 l' Hc) as [Em Hc0]. rewrite T1 in E, Es. cbn [fst snd] in E, Es.
  exists (p :: ps), (rest l'). rewrite T. cbn [fst snd]. rewrite Eq, E. rewrite <- !app_assoc in *. cbn [app] in *.
  rewrite !(app_assoc pre), <- Em, <- !app_assoc. split_and!; done.
Qed.

Lemma strip_stage pre l :
  #l <= lim -> exists z k, skip_blanks l = k /\ match k with c :: _ => blank c = false | [] => True end /\
    (base.length k <= base.length l)%nat /\
    strip (S (Z.to_nat lim)) (#pre) (lim - #l) lim (pre ++ l ++ 0 :: post) =
      Ok (#(pre ++ z), lim - #k, (pre ++ z) ++ k ++ 0 :: post) /\
    (forall k', base.length k' = base.length k -> closed l (z ++ k')) /\ (KString.text l -> KString.text k).
Proof.
  intros HL. destruct (skip_blanks_split l) as (b & Eb & Hb & Hk). set (k := skip_blanks l) in *.
  exists (replicate (base.length b) 0), k. rewrite Eb, length_app in HL |- *. split_and!; [done|done|lia| | |].
  - pose proof (strip_ok (S (Z.to_nat lim)) pre b k post (lim - Z.of_nat (base.length b + base.length k)) Hb Hk ltac:(lia)) as E.
    rewrite length_app in E. replace (lim - _ + _) with lim in E by lia. rewrite <- !app_assoc in *. rewrite E.
    f_equal. f_equal; [f_equal; [by rewrite !length_app, length_replicate|lia]].
  - intros k' Hk'. by apply closed_blanks.
  - intros [_ ?]%Forall_app. done.
Qed.

Lemma splits_nil n fuel pre argv ready out :
  (0 < fuel)%nat -> settled pre [] argv ready -> splits fuel pre [] argv ready out n.
Proof.
  intros Hf S. destruct fuel as [|fuel]; [lia|]. exists [], []. cbn [split_loop].
  replace (lim - _ <? lim) with false by (cbn; lia).
  assert (tokens n [] = ([], [])) as -> by by destruct n. cbn [fst snd complaint]. rewrite !app_nil_r.
  split_and!; [done|done|by apply (S [])].
Qed.

(** The loop does its work for [n] more arguments. *)
Definition handles (n : nat) : Prop :=
  forall fuel pre l argv ready out, KString.text l -> #l <= lim -> (base.length l < fuel)%nat ->
  (base.length argv + n = FINSH_ARG_MAX)%nat -> settled pre l argv ready -> splits fuel pre l argv ready out n.

(** A round that comes to a character. *)
Lemma split_step fuel pre l argv out z c r :
  0 < #l -> (base.length argv < FINSH_ARG_MAX)%nat ->
  strip (S (Z.to_nat lim)) (#pre) (lim - #l) lim (pre ++ l ++ 0 :: post) =
    Ok (#(pre ++ z), lim - #(c :: r), (pre ++ z) ++ (c :: r) ++ 0 :: post) ->
  split_loop (S fuel) (#pre) (lim - #l) lim argv (pre ++ l ++ 0 :: post) out =
    (if c =? QUOTE then
       '(ptr, position) ← skip_string (S (Z.to_nat lim)) (#((pre ++ z) ++ [c])) (lim - #r) lim
                            (((pre ++ z) ++ [c]) ++ r ++ 0 :: post);
       if lim <=? position then Ok (argv ++ [ #((pre ++ z) ++ [c])], ((pre ++ z) ++ [c]) ++ r ++ 0 :: post, out)
       else mem ← aset (((pre ++ z) ++ [c]) ++ r ++ 0 :: post) ptr 0;
            split_loop fuel (ptr + 1) (position + 1) lim (argv ++ [ #((pre ++ z) ++ [c])]) mem out
     else
       '(ptr, position) ← skip_word (S (Z.to_nat lim)) (#(pre ++ z)) (lim - #(c :: r)) lim
                            ((pre ++ z) ++ (c :: r) ++ 0 :: post);
       if lim <=? position then Ok (argv ++ [ #(pre ++ z)], (pre ++ z) ++ (c :: r) ++ 0 :: post, out)
       else split_loop fuel ptr position lim (argv ++ [ #(pre ++ z)]) ((pre ++ z) ++ (c :: r) ++ 0 :: post) out).
Proof.
  intros Hpos Hn Est. cbn [split_loop]. replace (lim - #l <? lim) with true by lia. rewrite Est. cbn [mbind result_bind].
  rewrite (proj2 (Nat.leb_gt _ _)) by lia. replace (lim <=? lim - #(c :: r)) with false by (cbn; lia).
  rewrite aget_app. cbn [app mbind result_bind].
  rewrite (shift_len (pre ++ z) c), (shift_pre (pre ++ z) c (r ++ 0 :: post)). cbn [base.length].
  by replace (lim - Z.of_nat (S (base.length r)) + 1) with (lim - #r) by lia.
Qed.

Section Step.
Context (n fuel : nat) (pre l : list Z) (argv : list Z) (ready : list str) (out : list event) (z : list Z) (c : Z) (r : list Z).
Context (IH : handles n) (HL : #l <= lim) (Hf : (base.length l < S fuel)%nat) (Hn : (base.length argv + S n = FINSH_ARG_MAX)%nat)
  (Hset : settled pre l argv ready) (Ek : skip_blanks l = c :: r) (Hlen : (base.length (c :: r) <= base.length l)%nat)
  (Est : strip (S (Z.to_nat lim)) (#pre) (lim - #l) lim (pre ++ l ++ 0 :: post) =
         Ok (#(pre ++ z), lim - #(c :: r), (pre ++ z) ++ (c :: r) ++ 0 :: post))
  (Hc : forall k', base.length k' = base.length (c :: r) -> closed l (z ++ k')) (Hr : KString.text (c :: r)).

Lemma split_string : c = QUOTE -> splits (S fuel) pre l argv ready out (S n).
Proof.
  intros ->. cbn [base.length] in Hlen. assert (0 < #l) as Hpos by lia.
  pose proof (split_step fuel pre l argv out z QUOTE r Hpos ltac:(lia) Est) as Hstep. apply Forall_cons in Hr as [_ Hr'].
  pose proof (skip_string_ok (S (Z.to_nat lim)) ((pre ++ z) ++ [QUOTE]) r post (lim - #r) Hr' ltac:(lia)) as K.
  pose proof (span_string_split r) as Es. destruct (span_string r) as [w o] eqn:Ew. cbn [fst] in K.
  replace (lim - #r + #r) with lim in K by lia. rewrite K in Hstep. cbn [mbind result_bind] in Hstep.
  assert (QUOTE =? QUOTE = true) as Eqq by done. rewrite Eqq in Hstep. set (q := (pre ++ z) ++ [QUOTE]) in *.
  assert (forall l', base.length l' = base.length r -> closed l (z ++ QUOTE :: l')) as Hcl by (intros l' El; apply Hc; cbn; lia).
  destruct o as [k|].
  - assert (tokens (S n) l = (w :: fst (tokens n k), snd (tokens n k))) as T.
    { cbn [tokens]. rewrite Ek, Eqq, Ew. by destruct (tokens n k). }
    rewrite Es in Hr'. apply Forall_app in Hr' as [Htw [_ Htk]%Forall_cons].
    assert (base.length r = base.length w + S (base.length k))%nat as Er by (by rewrite Es, length_app).
    assert (settled (q ++ w ++ [0]) k (argv ++ [ #q]) (ready ++ [w])) as Hs.
    { apply (settled_next pre l argv ready _ w q); try done. intros l' [El' _]. exists (z ++ QUOTE :: w ++ 0 :: l').
      unfold q. napp. split_and!; [done|apply Hcl; rewrite length_app; cbn; lia|].
      exists (l' ++ 0 :: post). by napp. }
    eapply (splits_next fuel _ pre l argv ready w _ out n _ _ (fun l' => z ++ QUOTE :: w ++ 0 :: l')); [apply IH, Hs|..];
      try (done || lia).
    + rewrite length_app. cbn. lia.
    + rewrite Hstep. replace (lim <=? _) with false by lia. replace (lim - #r + #w + 1) with (lim - #k) by lia. rewrite Es.
      replace (q ++ (w ++ QUOTE :: k) ++ 0 :: post) with ((q ++ w) ++ QUOTE :: k ++ 0 :: post) by (by napp).
      rewrite aset_app. cbn [mbind result_bind].
      replace (#(q ++ w) + 1) with (#(q ++ w ++ [0])) by (rewrite !length_app; cbn; lia).
      by napp.
    + intros l' [El' _]. unfold q. napp. split; [done|]. apply Hcl. rewrite length_app. cbn. lia.
    + apply surjective_pairing.
  - subst w. exists [ #q], (z ++ QUOTE :: r). cbn [tokens]. rewrite Ek, Eqq, Ew. cbn [fst snd complaint].
    rewrite !app_nil_r. assert (closed l (z ++ QUOTE :: r)) as Hcr by by apply Hcl. split_and!; [|done|].
    + rewrite Hstep. replace (lim <=? _) with true by lia. unfold q. by napp.
    + apply strings_app; [by apply Hset|]. cbn [strings_at].
      replace (pre ++ (z ++ QUOTE :: r) ++ 0 :: post) with (q ++ r ++ 0 :: post) by (unfold q; by napp).
      by rewrite string_app.
Qed.

Lemma split_word : c <> QUOTE -> blank c = false -> splits (S fuel) pre l argv ready out (S n).
Proof.
  intros Hcq Hkb. cbn [base.length] in Hlen. assert (0 < #l) as Hpos by lia.
  pose proof (split_step fuel pre l argv out z c r Hpos ltac:(lia) Est) as Hstep. rewrite (proj2 (Z.eqb_neq _ _) Hcq) in Hstep.
  pose proof (skip_word_ok (S (Z.to_nat lim)) (pre ++ z) (c :: r) post (lim - #(c :: r)) ltac:(cbn in *; lia)) as K.
  destruct (span_word (c :: r)) as [w k] eqn:Ew. destruct K as (Ewk & Hk & K).
  replace (lim - #(c :: r) + #(c :: r)) with lim in K by lia. rewrite K in Hstep. cbn [mbind result_bind] in Hstep.
  assert (tokens (S n) l = (w :: fst (tokens n k), snd (tokens n k))) as T.
  { cbn [tokens]. rewrite Ek. rewrite (proj2 (Z.eqb_neq _ _) Hcq), Ew. by destruct (tokens n k). }
  assert (w <> []) as Hw by (intros ->; cbn in Ewk; subst k; congruence).
  assert (KString.text (w ++ k)) as [Htw Htk]%Forall_app by (by rewrite <- Ewk).
  assert (base.length (c :: r) = base.length w + base.length k)%nat as Elen by (by rewrite Ewk, length_app).
  cbn [base.length] in Elen. rewrite Ewk in Hstep, Hc. destruct k as [|d k].
  - exists [ #(pre ++ z)], (z ++ w). rewrite T.
    assert (tokens n [] = ([], [])) as -> by by destruct n. cbn [fst snd complaint]. rewrite !app_nil_r in *.
    assert (closed l (z ++ w)) as Hcl by by apply Hc. split_and!; [|done|].
    + rewrite Hstep. replace (lim <=? _) with true by (cbn in *; lia). by napp.
    + apply strings_app; [by apply Hset|]. cbn [strings_at]. by rewrite <- (app_assoc z), (app_assoc pre), string_app.
  - assert (0 < base.length w)%nat by (destruct w; [done|cbn; lia]).
    assert (forall l', closed (d :: k) l' -> closed l (z ++ w ++ l')) as Hcl.
    { intros l' [El _]. apply Hc. rewrite !length_app. lia. }
    assert (settled ((pre ++ z) ++ w) (d :: k) (argv ++ [ #(pre ++ z)]) (ready ++ [w])) as Hs.
    { apply (settled_next pre l argv ready _ w (pre ++ z)); try done. intros l' Hl'. exists (z ++ w ++ l').
      napp. split_and!; [done|by apply Hcl|]. destruct Hl' as [_ Hh]. specialize (Hh Hk).
      destruct l' as [|y l']; [done|]. injection Hh as ->. exists (l' ++ 0 :: post). by napp. }
    eapply (splits_next fuel _ pre l argv ready w _ out n _ _ (fun l' => z ++ w ++ l')); [apply IH, Hs|..]; try done.
    + cbn in *; lia.
    + cbn in *; lia.
    + rewrite length_app. cbn. lia.
    + rewrite Hstep. replace (lim - #(w ++ d :: k) + #w) with (lim - #(d :: k)) by (rewrite length_app; lia).
      replace (lim <=? _) with false by (cbn; lia). by napp.
    + intros l' Hl'. napp. split; [done|by apply Hcl].
    + apply surjective_pairing.
Qed.
End Step.

Lemma split_loop_ok n : handles n.
Proof.
  induction n as [|n IH]; intros fuel pre l argv ready out Hl HL Hf Hn Hset.
  all: destruct (decide (l = [])) as [->|Hne]; [by apply splits_nil; [lia|]|].
  all: assert (0 < #l) as Hpos by (destruct l; [done|cbn; lia]).
  all: destruct fuel as [|fuel]; [lia|].
  all: destruct (strip_stage pre l HL) as (z & k & Ek & Hkb & Hlen & Est & Hc & Hkt); specialize (Hkt Hl).
  - exists [], (z ++ k). pose proof (Hset _ (Hc k eq_refl)) as Es. rewrite <- app_assoc, (app_assoc pre) in Es.
    cbn [split_loop]. replace (lim - _ <? lim) with true by lia. rewrite Est. cbn [mbind result_bind].
    rewrite (proj2 (Nat.leb_le _ _)) by lia. rewrite (print_args_ok _ _ _ Es). cbn [mbind result_bind tokens fst snd].
    rewrite !app_nil_r, <- (app_assoc z), (app_assoc pre). split_and!; [|by apply Hc|done]. by destruct l.
  - destruct k as [|c r].
    + exists [], z. pose proof (Hset _ (Hc [] eq_refl)) as Es. rewrite app_nil_r in Es.
      cbn [tokens]. rewrite Ek. cbn [fst snd complaint]. rewrite !app_nil_r. split_and!; [|by rewrite <- (app_nil_r z); apply Hc|done].
      cbn [split_loop]. replace (lim - _ <? lim) with true by lia. rewrite Est. cbn [mbind result_bind].
      rewrite (proj2 (Nat.leb_gt _ _)) by lia. replace (lim <=? _) with true by (cbn; lia). by napp.
    + destruct (decide (c = QUOTE)); [by eapply split_string|by eapply split_word].
Qed.
End Loop.

Lemma msh_split_ok pre l post out :
  KString.text l ->
  let '(ts, k) := tokens FINSH_ARG_MAX l in
  exists argv l', msh_split (#pre) (#l) (pre ++ l ++ 0 :: post) out = Ok (argv, pre ++ l' ++ 0 :: post, out ++ complaint ts k) /\
    base.length l' = base.length l /\ strings_at argv (pre ++ l' ++ 0 :: post) = Ok ts.
Proof.
  intros Hl. destruct (split_loop_ok (#l) post FINSH_ARG_MAX (S (Z.to_nat (#l))) pre l [] [] out) as (ps & l' & E & [El _] & Es);
    try (done || lia).
  destruct (tokens FINSH_ARG_MAX l) as [ts k]. exists ps, l'. unfold msh_split.
  rewrite Z.sub_diag in E. by split_and!.
Qed.

(** ** Commands *)

Lemma strncmp_eq_ok n w rest :
  KString.text n -> KString.text w ->
  strncmp_eq (base.length w) (n ++ [0]) (w ++ rest) = Ok (bool_decide (w `prefix_of` n)).
Proof.
  intros Hn Hw. revert n Hn. induction Hw as [|c w Hc Hw IH]; intros n Hn; cbn [strncmp_eq base.length].
  - by rewrite bool_decide_true by apply prefix_nil.
  - destruct Hn as [|d n Hd Hn]; cbn [app].
    + destruct (Z.eqb_spec 0 c); [lia|]. cbn [negb]. rewrite bool_decide_false; [done|]. by intros H%prefix_nil_inv.
    + destruct (Z.eqb_spec d c) as [->|Hdc]; cbn [negb].
      * destruct (Z.eqb_spec c 0); [lia|]. rewrite IH by done. f_equal. apply bool_decide_ext.
        split; [by apply prefix_cons|by apply prefix_cons_inv_2].
      * rewrite bool_decide_false; [done|]. intros H%prefix_cons_inv_1. congruence.
Qed.

(** The entry with the name [w]. *)
Fixpoint lookup (table : list finsh_syscall) (w : str) : option nat :=
  match table with [] => None | i :: t => if decide (name i = w) then Some (func i) else lookup t w end.

Lemma msh_get_cmd_ok table w rest :
  Forall (fun i => KString.text (name i)) table -> KString.text w ->
  msh_get_cmd table (w ++ rest) (#w) = Ok (lookup table w).
Proof.
  intros Ht Hw. induction Ht as [|i t Hi Ht IH]; [done|]. cbn [msh_get_cmd lookup].
  rewrite Nat2Z.id, strncmp_eq_ok by done. cbn [mbind result_bind]. case_bool_decide as Hp.
  - destruct Hp as [k Ek]. rewrite Ek, <- app_assoc, aget_app. destruct k as [|c k]; cbn [app mbind result_bind].
    + rewrite app_nil_r. by rewrite decide_True.
    + rewrite Ek in Hi. apply Forall_app in Hi as [_ [Hc _]%Forall_cons]. destruct (Z.eqb_spec c 0); [lia|].
      rewrite decide_False; [done|]. intros E. apply (f_equal base.length) in E. rewrite length_app in E. cbn in E. lia.
  - rewrite decide_False; [done|]. intros E. by apply Hp; rewrite E.
Qed.

Lemma cmd0_loop_ok fuel pre l post n :
  (base.length l < fuel)%nat ->
  cmd0_loop fuel (#n) (#pre) (#(n ++ l)) (pre ++ n ++ l ++ 0 :: post) = Ok (#n + #(fst (span_word l))).
Proof.
  revert n fuel. induction l as [|c l IH]; intros n fuel Hf; (destruct fuel as [|fuel]; [cbn in Hf; lia|]); cbn [cmd0_loop].
  - replace (#pre + #n) with (#(pre ++ n)) by (rewrite length_app; lia). rewrite app_assoc, aget_app. cbn [app mbind result_bind].
    replace (#n <? _) with false by (rewrite app_nil_r; lia). rewrite andb_false_r. cbn. by rewrite Z.add_0_r.
  - replace (#pre + #n) with (#(pre ++ n)) by (rewrite length_app; lia). rewrite app_assoc, aget_app. cbn [app mbind result_bind span_word].
    replace (#n <? _) with true by (rewrite length_app; cbn; lia). rewrite andb_true_r. destruct (blank c); cbn [negb].
    + cbn. by rewrite Z.add_0_r.
    + cbn [base.length] in Hf. specialize (IH (n ++ [c]) fuel ltac:(lia)). revert IH. napp. rewrite (app_assoc pre).
      replace (#(n ++ [c])) with (#n + 1) by (rewrite length_app; cbn; lia). intros ->.
      destruct (span_word l) as [w k]. cbn [fst base.length]. f_equal. lia.
Qed.

Fixpoint before_space l : str :=
  match l with c :: r => if c =? SPACE then [] else c :: before_space r | [] => [] end.

(** What a command line does: the value returned and what goes out. *)
Definition spec_exec (table : list finsh_syscall) (command : nat -> list str -> Z) l : Z * list event :=
  match skip_blanks l with
  | [] => (0, [])
  | l =>
      match lookup table (fst (span_word l)) with
      | Some f => let '(ts, k) := tokens FINSH_ARG_MAX l in (command f ts, complaint ts k ++ [Run f ts])
      | None => (-1, [Put (before_space l ++ not_found)])
      end
  end.

Lemma trim_ok fuel pre l post :
  (base.length l < fuel)%nat ->
  exists b, l = b ++ skip_blanks l /\
    trim fuel (#pre) (#l) (pre ++ l ++ 0 :: post) = Ok (#(pre ++ b), #(skip_blanks l)).
Proof.
  revert pre fuel. induction l as [|c l IH]; intros pre fuel Hf; (destruct fuel as [|fuel]; [cbn in Hf; lia|]); cbn [trim skip_blanks].
  - exists []. cbn. by rewrite app_nil_r.
  - replace (0 <? _) with true by (cbn; lia). rewrite aget_app. cbn [app mbind result_bind]. destruct (blank c) eqn:Hc.
    + cbn [base.length] in *. destruct (IH (pre ++ [c]) fuel ltac:(lia)) as (b & El & E). exists (c :: b). split; [by rewrite El at 1|].
      rewrite (shift_len pre c), (shift_pre pre c (l ++ 0 :: post)). replace (Z.of_nat (S (base.length l)) - 1) with (#l) by lia.
      rewrite E. by napp.
    + exists []. split; [done|]. by rewrite app_nil_r.
Qed.

Lemma before_space_split l : exists k, l = before_space l ++ k /\ (k = [] \/ exists k', k = SPACE :: k').
Proof.
  induction l as [|c l (k & E & Hk)]; cbn [before_space]; [exists []; auto|].
  destruct (Z.eqb_spec c SPACE) as [->|Hc]; [exists (SPACE :: l); eauto|]. exists k. split; [cbn; by rewrite E at 1|done].
Qed.
Lemma end_of_word_ok fuel pre l post :
  KString.text l -> (base.length l < fuel)%nat ->
  end_of_word fuel (#pre) (pre ++ l ++ 0 :: post) = Ok (#(pre ++ before_space l)).
Proof.
  revert pre fuel. induction l as [|c l IH]; intros pre fuel Hl Hf; (destruct fuel as [|fuel]; [cbn in Hf; lia|]);
    cbn [end_of_word before_space]; rewrite aget_app; cbn [app mbind result_bind].
  - by rewrite app_nil_r.
  - apply Forall_cons in Hl as [Hc Hl]. destruct (Z.eqb_spec c 0); [lia|]. cbn [base.length] in Hf.
    destruct (Z.eqb_spec c SPACE); cbn [negb andb]; [by rewrite app_nil_r|].
    rewrite (shift_len pre c), (shift_pre pre c (l ++ 0 :: post)), IH by (done || lia). by napp.
Qed.

Lemma span_word_text l : KString.text l -> KString.text (fst (span_word l)) /\ exists k, l = fst (span_word l) ++ k.
Proof.
  induction 1 as [|c l Hc Hl [IH [k E]]]; cbn [span_word]; [split; [by constructor|by exists []]|].
  destruct (blank c); [split; [by constructor|by exists (c :: l)]|].
  destruct (span_word l) as [w k']. cbn [fst] in *. split; [by constructor|]. exists k. by rewrite E at 1.
Qed.

Lemma tokens_some n l : skip_blanks l <> [] -> fst (tokens (S n) l) <> [].
Proof.
  cbn [tokens]. destruct (skip_blanks l) as [|c r]; [done|]. intros _. destruct (c =? QUOTE).
  - destruct (span_string r) as [w [k|]]; [by destruct (tokens n k)|done].
  - destruct (span_word (c :: r)) as [w k]. by destruct (tokens n k).
Qed.

Lemma _msh_exec_cmd_ok table command pre l post out :
  Forall (fun i => KString.text (name i)) table -> KString.text l -> skip_blanks l = l -> l <> [] ->
  exists l', base.length l' = base.length l /\
    match lookup table (fst (span_word l)) with
    | Some f => let '(ts, k) := tokens FINSH_ARG_MAX l in
        _msh_exec_cmd table command (#pre) (#l) (pre ++ l ++ 0 :: post) out =
          Ok (Some (command f ts), pre ++ l' ++ 0 :: post, out ++ complaint ts k ++ [Run f ts])
    | None => l' = l /\ _msh_exec_cmd table command (#pre) (#l) (pre ++ l ++ 0 :: post) out = Ok (None, pre ++ l ++ 0 :: post, out)
    end.
Proof.
  intros Ht Hl Hb Hne. unfold _msh_exec_cmd.
  pose proof (cmd0_loop_ok (S (Z.to_nat (#l))) pre l post [] ltac:(lia)) as E. cbn [app base.length] in E. rewrite Z.add_0_l in E.
  change (Z.of_nat 0) with 0 in E. rewrite E. cbn [mbind result_bind].
  destruct (span_word_text l Hl) as [Hw [k Ek]]. set (w := fst (span_word l)) in *.
  assert (#w <> 0) as Hw0.
  { destruct l as [|c l]; [done|]. unfold w. cbn [skip_blanks span_word] in *. destruct (blank c).
    - exfalso. destruct (skip_blanks_split l) as (b & El & _). rewrite Hb in El. apply (f_equal base.length) in El.
      rewrite length_app in El. cbn in El. lia.
    - destruct (span_word l). cbn. lia. }
  rewrite (proj2 (Z.eqb_neq _ _) Hw0). rewrite Nat2Z.id, drop_app_length.
  replace (l ++ 0 :: post) with (w ++ (k ++ 0 :: post)) by (rewrite app_assoc; by rewrite <- Ek).
  rewrite msh_get_cmd_ok by done. rewrite (app_assoc w), <- Ek. cbn [mbind result_bind].
  destruct (lookup table w) as [f|]; [|by exists l].
  pose proof (msh_split_ok pre l post out Hl) as Hs. destruct (tokens FINSH_ARG_MAX l) as [ts r] eqn:ET.
  destruct Hs as (argv & l' & Es & El & Ea). exists l'. split; [done|]. rewrite Es. cbn [mbind result_bind].
  destruct argv as [|p argv].
  - exfalso. injection Ea as <-. apply (tokens_some 9 l); [by rewrite Hb|]. change 10%nat with FINSH_ARG_MAX. by rewrite ET.
  - rewrite Ea. cbn [mbind result_bind base.length Nat.eqb]. by rewrite <- (app_assoc out).
Qed.

Lemma msh_exec_ok table command pre l post out :
  Forall (fun i => KString.text (name i)) table -> KString.text l ->
  exists l', base.length l' = base.length l /\
    msh_exec table command (#pre) (#l) (pre ++ l ++ 0 :: post) out =
      Ok (fst (spec_exec table command l), pre ++ l' ++ 0 :: post, out ++ snd (spec_exec table command l)).
Proof.
  intros Ht Hl. unfold msh_exec, spec_exec.
  destruct (trim_ok (S (Z.to_nat (#l))) pre l post ltac:(lia)) as (b & El & ->). cbn [mbind result_bind].
  destruct (skip_blanks_split l) as (_ & _ & _ & Hk). destruct (skip_blanks l) as [|c k].
  { exists l. cbn. by rewrite app_nil_r. }
  replace (#(c :: k) =? 0) with false by (cbn; lia).
  assert (KString.text (c :: k)) as Hck by (rewrite El in Hl; by apply Forall_app in Hl as [_ ?]).
  assert (skip_blanks (c :: k) = c :: k) as Hsb by (cbn; by rewrite Hk).
  replace (pre ++ l ++ 0 :: post) with ((pre ++ b) ++ (c :: k) ++ 0 :: post) by (rewrite El; by napp).
  destruct (_msh_exec_cmd_ok table command (pre ++ b) (c :: k) post out Ht Hck Hsb ltac:(done)) as (l' & Hlen & H).
  destruct (lookup table _) as [f|].
  - destruct (tokens FINSH_ARG_MAX (c :: k)) as [ts r]. rewrite H. exists (b ++ l'). cbn [mbind result_bind fst snd].
    split; [rewrite El, !length_app; lia|]. by napp.
  - destruct H as [-> ->]. cbn [mbind result_bind fst snd].
    rewrite end_of_word_ok by (first [done | rewrite !length_app; lia]). cbn [mbind result_bind].
    destruct (before_space_split (c :: k)) as (r & Er & Hr). set (w := before_space (c :: k)) in *.
    assert (KString.text w) as Hw by (rewrite Er in Hck; by apply Forall_app in Hck as [? _]). rewrite Er.
    destruct Hr as [->|[r' ->]].
    + exists (b ++ w). rewrite app_nil_r in *. rewrite app_assoc, aset_app. cbn [mbind result_bind].
      rewrite <- (app_assoc (pre ++ b)), string_app by done. cbn [mbind result_bind].
      split; [by rewrite El, Er|]. by napp.
    + exists (b ++ w ++ 0 :: r'). replace ((pre ++ b) ++ (w ++ SPACE :: r') ++ 0 :: post) with (((pre ++ b) ++ w) ++ SPACE :: r' ++ 0 :: post) by by napp.
      rewrite aset_app. cbn [mbind result_bind]. rewrite <- (app_assoc (pre ++ b)), string_app by done. cbn [mbind result_bind].
      split; [by rewrite El, Er, !length_app|]. by napp.
Qed.

(** ** Completion *)

Fixpoint common (a b : str) : str :=
  match a, b with c :: a, d :: b => if decide (c = d) then c :: common a b else [] | _, _ => [] end.

Definition matches (table : list finsh_syscall) l : list str := filter (fun n => l `prefix_of` n) (map name table).

(** The longest prefix the matching names share, and what is printed. *)
Definition spec_complete (table : list finsh_syscall) l : str * list event :=
  match l with
  | [] => ([], msh_help table)
  | _ => (match matches table l with [] => l | m :: ms => foldl common m ms end,
          map (fun n => Put (n ++ [10])) (matches table l))
  end.

Lemma common_prefix a b : common a b `prefix_of` a /\ common a b `prefix_of` b.
Proof.
  revert b. induction a as [|c a IH]; intros [|d b]; cbn [common]; try (split; apply prefix_nil).
  destruct (decide (c = d)) as [->|_]; [|split; apply prefix_nil]. destruct (IH b). split; by apply prefix_cons.
Qed.
Lemma common_same a : common a a = a.
Proof. induction a as [|c a IH]; cbn; [done|]. by rewrite decide_True, IH. Qed.
Lemma common_glb l a b : l `prefix_of` a -> l `prefix_of` b -> l `prefix_of` common a b.
Proof.
  revert a b. induction l as [|c l IH]; intros a b [x ->] [y ->]; [apply prefix_nil|]. cbn. rewrite decide_True by done.
  apply prefix_cons, IH; by eexists.
Qed.
Lemma common_min c m n :
  c `prefix_of` m -> base.length (common c n) = Nat.min (base.length c) (base.length (common m n)).
Proof.
  intros [x ->]. revert n. induction c as [|d c IH]; intros [|e n]; cbn [common app base.length]; try lia.
  destruct (decide (d = e)); cbn [base.length]; [rewrite IH; lia|lia].
Qed.

Lemma str_common_ok a b :
  KString.text a -> KString.text b -> str_common (a ++ [0]) (b ++ [0]) = Ok (#(common a b)).
Proof.
  intros Ha. revert b. induction Ha as [|c a Hc Ha IH]; intros b Hb; [by destruct Hb|].
  destruct Hb as [|d b Hd Hb]; cbn [app str_common common].
  - by rewrite andb_false_r.
  - destruct (Z.eqb_spec c 0); [lia|]. destruct (Z.eqb_spec d 0); [lia|]. destruct (Z.eqb_spec c d) as [->|Hn]; cbn [negb andb].
    + rewrite IH by done. rewrite decide_True by done. cbn [mbind result_bind base.length]. f_equal. lia.
    + by rewrite decide_False.
Qed.

Lemma strncmp_prefix l n :
  KString.text l -> KString.text n ->
  strncmp_eq (base.length l) (l ++ [0]) (n ++ [0]) = Ok (bool_decide (l `prefix_of` n)).
Proof.
  intros Hl. revert n. induction Hl as [|x l Hx Hl IH]; intros n Hn; cbn [strncmp_eq base.length app].
  - by rewrite bool_decide_true by apply prefix_nil.
  - destruct Hn as [|y n Hy Hn]; cbn [app].
    + destruct (Z.eqb_spec x 0); [lia|]. cbn [negb]. rewrite bool_decide_false; [done|]. by intros H%prefix_nil_inv.
    + destruct (Z.eqb_spec x y) as [->|Hxy]; cbn [negb].
      * destruct (Z.eqb_spec y 0); [lia|]. rewrite IH by done. f_equal. apply bool_decide_ext.
        split; [by apply prefix_cons|by apply prefix_cons_inv_2].
      * rewrite bool_decide_false; [done|]. intros H%prefix_cons_inv_1. congruence.
Qed.

Lemma complete_loop_ok t l m c out :
  Forall (fun i => KString.text (name i)) t -> KString.text l -> l <> [] -> KString.text m ->
  l `prefix_of` c -> c `prefix_of` m ->
  complete_loop t l (Some m) (#c) out =
    Ok (Some m, #(foldl common c (matches t l)), out ++ map (fun n => Put (n ++ [10])) (matches t l)) /\
  l `prefix_of` foldl common c (matches t l) /\ foldl common c (matches t l) `prefix_of` m.
Proof.
  intros Ht Hl Hne Hm. revert c out. induction Ht as [|i t Hi Ht IH]; intros c out Hlc Hcm; cbn [complete_loop].
  - cbn. by rewrite app_nil_r.
  - unfold matches in *. cbn [map].
    rewrite strncmp_prefix by done.
    cbn [mbind result_bind]. case_bool_decide as Hp.
    + rewrite filter_cons_True by done. cbn [map foldl].
      assert (#c =? 0 = false) as -> by (destruct Hlc as [y ->]; rewrite length_app; destruct l; [done|cbn; lia]).
      cbn [default]. change (id m) with m. rewrite str_common_ok by done. cbn [mbind result_bind].
      pose proof (common_min c m (name i) Hcm) as Hmin.
      replace (if #(common m (name i)) <? #c then #(common m (name i)) else #c) with (#(common c (name i))) by (destruct (Z.ltb_spec (#(common m (name i))) (#c)); lia).
      destruct (common_prefix c (name i)) as [Hc1 _].
      destruct (IH (common c (name i)) (out ++ [Put (name i ++ [10])])) as (E & H1 & H2);
        [by apply common_glb|by etrans|]. rewrite E. by rewrite <- app_assoc.
    + rewrite filter_cons_False by done. by apply IH.
Qed.

Lemma complete_first t l out :
  Forall (fun i => KString.text (name i)) t -> KString.text l -> l <> [] ->
  match matches t l with
  | [] => complete_loop t l None 0 out = Ok (None, 0, out)
  | m :: ms =>
      complete_loop t l None 0 out = Ok (Some m, #(foldl common m ms), out ++ map (fun n => Put (n ++ [10])) (m :: ms)) /\
      l `prefix_of` foldl common m ms /\ foldl common m ms `prefix_of` m
  end.
Proof.
  intros Ht Hl Hne. induction Ht as [|i t Hi Ht IH]; [done|]. unfold matches in *. cbn [map complete_loop].
  rewrite strncmp_prefix by done. cbn [mbind result_bind]. case_bool_decide as Hp.
  - rewrite filter_cons_True by done. cbn [Z.eqb]. rewrite str_common_ok, common_same by done. cbn [mbind result_bind].
    rewrite Z.ltb_irrefl. destruct (complete_loop_ok t l (name i) (name i) (out ++ [Put (name i ++ [10])])) as (E & H); try done.
    rewrite E. split; [|exact H]. by rewrite <- app_assoc.
  - rewrite filter_cons_False by done. exact IH.
Qed.

(** A line as it is kept: the text and NULs. *)
Definition padded (n : nat) l : list Z := l ++ replicate (n - base.length l) 0.

Lemma strncpy_ok n l c m :
  l `prefix_of` c -> c `prefix_of` m -> (base.length c <= n)%nat -> strncpy (padded n l) m (#c) = Ok (padded n c).
Proof.
  intros [x ->] [y ->] Hn. unfold strncpy, padded. rewrite Nat2Z.id, <- app_assoc, take_app_length.
  rewrite length_app in *. rewrite acopy_Ok; rewrite ?length_app, ?length_replicate; try lia.
  rewrite Nat2Z.id, drop_0. change (Z.to_nat 0) with 0%nat. rewrite take_0. cbn [app]. rewrite take_ge by (rewrite ?length_app; lia).
  do 2 f_equal. rewrite drop_app_ge by lia. rewrite drop_replicate. f_equal. lia.
Qed.

Lemma padded_string n l : (base.length l < n)%nat -> exists r, padded n l = l ++ 0 :: r.
Proof.
  intros H. unfold padded. destruct (n - base.length l)%nat as [|d] eqn:E; [lia|]. by exists (replicate d 0).
Qed.

Lemma msh_auto_complete_ok table n l out :
  Forall (fun i => KString.text (name i)) table -> KString.text l -> (base.length l < n)%nat ->
  (base.length (fst (spec_complete table l)) <= n)%nat ->
  msh_auto_complete table (padded n l) out =
    Ok (padded n (fst (spec_complete table l)), out ++ snd (spec_complete table l)).
Proof.
  intros Ht Hl Hn Hc. unfold msh_auto_complete. destruct (padded_string n l Hn) as [r Er].
  rewrite Er. destruct (decide (l = [])) as [->|Hne].
  - cbn [app] in *. change (aget (0 :: r) 0) with (Ok 0). cbn [mbind result_bind Z.eqb spec_complete fst snd]. by rewrite Er.
  - assert (exists c, aget (l ++ 0 :: r) 0 = Ok c /\ c <> 0) as (c & -> & Hc0).
    { destruct l as [|c l']; [done|]. apply Forall_cons in Hl as [? _]. exists c. split; [done|lia]. }
    cbn [mbind result_bind]. destruct (Z.eqb_spec c 0); [lia|].
    assert (c_string (l ++ 0 :: r) = Ok l) as -> by exact (string_app [] l r Hl).
    cbn [mbind result_bind]. rewrite <- Er. pose proof (complete_first table l out Ht Hl Hne) as H.
    unfold spec_complete in *. destruct l as [|c0 l0] eqn:El; [done|]. rewrite <- El in *.
    destruct (matches table l) as [|m ms]; rewrite ?H.
    + cbn. by rewrite app_nil_r.
    + destruct H as (-> & H1 & H2). cbn [mbind result_bind fst snd] in *. by rewrite strncpy_ok.
Qed.

Lemma foldl_common m ms : foldl common m ms `prefix_of` m.
Proof.
  revert m. induction ms as [|n ms IH]; intros m; [done|]. cbn [foldl]. etrans; [apply IH|apply common_prefix].
Qed.

(** The completed text is part of a name, or the text is left as it is. *)
Lemma spec_complete_from table l :
  fst (spec_complete table l) = l \/ exists i, i ∈ table /\ fst (spec_complete table l) `prefix_of` name i.
Proof.
  destruct (decide (l = [])) as [->|Hne]; [by left|].
  assert (fst (spec_complete table l) = match matches table l with [] => l | m :: ms => foldl common m ms end) as -> by by destruct l.
  destruct (matches table l) as [|m ms] eqn:Em; [by left|right].
  assert (m ∈ matches table l) as [_ Hm]%list_elem_of_filter by (rewrite Em; set_solver).
  apply list_elem_of_fmap in Hm as (i & -> & Hi). exists i. split; [done|apply foldl_common].
Qed.
Lemma spec_complete_forall (P : Z -> Prop) table l :
  Forall (fun i => Forall P (name i)) table -> Forall P l -> Forall P (fst (spec_complete table l)).
Proof.
  intros Ht Hl. destruct (spec_complete_from table l) as [->|(i & Hi & [y Hy])]; [done|].
  pose proof (proj1 (Forall_forall _ _) Ht i Hi) as H. cbn in H. rewrite Hy in H. by apply Forall_app in H as [? _].
Qed.

(** ** Typing arguments *)

(** A character that has no meaning of its own in a string. *)
Definition harmless (c : Z) : Prop := 0 < c < 256 /\ c <> QUOTE /\ c <> BACKSLASH.
Definition bare (w : str) : bool := bool_decide (w <> []) && negb (existsb blank w).
(** How an argument is typed: in quotes where it is empty or has blanks. *)
Definition render (w : str) : str := if bare w then w else [QUOTE] ++ w ++ [QUOTE].
Definition type_line (ws : list str) : str := concat (map (fun w => render w ++ [SPACE]) ws).

Lemma span_word_bare w k :
  existsb blank w = false -> span_word (w ++ SPACE :: k) = (w, SPACE :: k).
Proof. induction w as [|c w IH]; [done|]. cbn. intros [-> Hw]%orb_false_iff. by rewrite IH. Qed.
Lemma span_string_quoted w k : Forall harmless w -> span_string (w ++ QUOTE :: k) = (w, Some k).
Proof.
  induction 1 as [|c w (Hc & Hq & Hb) Hw IH]; [done|]. cbn [app span_string]. rewrite (proj2 (Z.eqb_neq _ _) Hq).
  destruct (w ++ QUOTE :: k) as [|d r] eqn:E; [by destruct w|]. rewrite (proj2 (Z.eqb_neq _ _) Hb). cbn [andb]. by rewrite IH.
Qed.

Lemma tokens_space n l : tokens n (SPACE :: l) = match n with O => ([], SPACE :: l) | _ => tokens n l end.
Proof. by destruct n. Qed.
Lemma tokens_typed n w l : Forall harmless w -> tokens (S n) (render w ++ SPACE :: l) = (w :: fst (tokens n (SPACE :: l)), snd (tokens n (SPACE :: l))).
Proof.
  intros Hw. unfold render. destruct (bare w) eqn:Eb.
  - apply andb_true_iff in Eb as [Hne%bool_decide_eq_true Hbl%negb_true_iff]. destruct w as [|c w]; [done|].
    pose proof (span_word_bare _ l Hbl) as Hs. cbn [existsb] in Hbl. apply orb_false_iff in Hbl as [Hc _].
    apply Forall_cons in Hw as [(_ & Hq & _) _]. cbn [tokens]. cbn [app] in *. cbn [skip_blanks].
    rewrite Hc, (proj2 (Z.eqb_neq _ _) Hq), Hs. by destruct (tokens n (SPACE :: l)).
  - cbn [tokens]. rewrite <- !app_assoc. cbn [app skip_blanks]. change (blank QUOTE) with false. cbn iota. rewrite Z.eqb_refl.
    rewrite span_string_quoted by done. by destruct (tokens n (SPACE :: l)).
Qed.

(** The arguments come back; when there are ten, so do the blanks behind them. *)
Lemma tokens_line n ws :
  Forall (Forall harmless) ws -> (base.length ws < n)%nat -> tokens n (type_line ws) = (ws, []).
Proof.
  intros Hw. revert n. induction Hw as [|w ws Hw Hws IH]; intros n Hn; (destruct n as [|n]; [cbn in Hn; lia|]); [done|].
  unfold type_line. cbn [map concat base.length] in *. rewrite <- app_assoc. cbn [app]. rewrite tokens_typed by done.
  rewrite tokens_space. destruct n as [|n]; [lia|]. fold (type_line ws). by rewrite (IH (S n)) by lia.
Qed.

Lemma type_line_text ws : Forall (Forall harmless) ws -> KString.text (type_line ws).
Proof.
  induction 1 as [|w ws Hw Hws IH]; [by constructor|]. unfold type_line. cbn [map concat]. apply Forall_app. split; [|exact IH].
  assert (KString.text w) by (eapply Forall_impl; [exact Hw|]; by intros c [? _]).
  apply Forall_app. split; [|by apply Forall_singleton]. unfold render. destruct (bare w); [done|].
  apply Forall_app. split; [by apply Forall_singleton|]. apply Forall_app. split; [done|by apply Forall_singleton].
Qed.
End Split.

(** C35: A command line does what the tokenizer says: whatever the text and the
    memory around it, [msh_exec] ends without a fault, returns and prints what
    [spec_exec] says (the command found by its exact name gets the arguments of the
    tokenizer, another name is reported), and touches no byte outside the line; and
    fewer than ten arguments of any characters but quotes and backslashes, the empty
    one included, come back from the line in which they are typed. *)
Theorem msh_exec_line table command pre l post out :
  Forall (fun i => KString.text (name i)) table -> KString.text l ->
  (exists l', length l' = length l /\
     msh_exec table command (Z.of_nat (length pre)) (Z.of_nat (length l)) (pre ++ l ++ 0 :: post) out =
       Ok (fst (spec_exec table command l), pre ++ l' ++ 0 :: post, out ++ snd (spec_exec table command l))) /\
  (forall ws, Forall (Forall harmless) ws -> (length ws < FINSH_ARG_MAX)%nat -> l = type_line ws ->
     tokens FINSH_ARG_MAX l = (ws, [])).
Proof. intros Ht Hl. split; [by apply msh_exec_ok|]. intros ws Hws Hn ->. by apply tokens_line. Qed.

(** The command  p, with a bare, an empty and a blank argument. *)
Definition sample_line : str := type_line [[112]; [97]; []; [32; 98]].
Lemma msh_exec_line_witness :
  let table := [mk_syscall [112] [] 0%nat] in
  let command := fun (_ : nat) (_ : list str) => 5 in
  (exists l', length l' = length sample_line /\
     msh_exec table command 2 12 ([1; 2] ++ sample_line ++ 0 :: [3]) [] =
       Ok (5, [1; 2] ++ l' ++ 0 :: [3], [] ++ [Run 0 [[112]; [97]; []; [32; 98]]])) /\
  (forall ws, Forall (Forall harmless) ws -> (length ws < FINSH_ARG_MAX)%nat -> sample_line = type_line ws ->
     tokens FINSH_ARG_MAX sample_line = (ws, [])).
Proof.
  cbv zeta. apply (msh_exec_line [mk_syscall [112] [] 0%nat] (fun _ _ => 5) [1; 2] sample_line [3] []).
  - apply (bool_decide_unpack (Forall (fun i => Forall (fun c => 0 < c < 256) (name i)) _)). by vm_compute.
  - apply (bool_decide_unpack (Forall (fun c => 0 < c < 256) _)). by vm_compute.
Defined.

(** Ten arguments, the most there can be, and a blank: the message about too many of
    them comes out although there are not, and the command runs. *)
Example ten_arguments_complaint :
  let a := [112; 32] in
  exists mem, msh_exec [mk_syscall [112] [] 0%nat] (fun _ _ => 5) 0 20 (concat (replicate 10 a) ++ [0]) [] =
    Ok (5, mem, [Put too_many] ++ replicate 10 (Put a) ++ [Put [10]] ++ [Run 0 (replicate 10 [112])]).
Proof. eexists. by vm_compute. Qed.

End Msh.
