(* ===== verification/Shell.v ===== *)
(** * The shell (rt-thread/components/finsh/shell.c)

    The thread that edits the command line: escape sequences of the arrow keys,
    insertion and deletion at the cursor, completion, the history, and the command
    that is run at the end of a line.  The state is the [struct finsh_shell]; one
    round of the thread's loop is [finsh_step].

    The theorems: as long as a line stays shorter than the buffer, the shell is the
    line editor [feed] (text before and after the cursor, list of lines entered), and
    a terminal that obeys its output shows the prompt, the text and the cursor. *)

From S2P Require Import Prelude KString Msh.

Module Shell.
Import Msh.

Definition FINSH_CMD_SIZE : Z := 80.
Definition FINSH_HISTORY_LINES : nat := 5.

Inductive input_stat := WAIT_NORMAL | WAIT_SPEC_KEY | WAIT_FUNC_KEY.

(** [struct finsh_shell] without the device and its semaphore; the prompt set by
    the user is a variable beside it. *)
Record finsh_shell := mk_shell {
  stat : input_stat;
  echo_mode : bool;
  prompt_mode : bool;
  current_history : Z;
  history_count : Z;
  cmd_history : list (list Z);
  line : list Z;
  line_position : Z;
  line_curpos : Z;
  finsh_prompt_custom : option str
}.

Definition with_stat (s : finsh_shell) (v : input_stat) : finsh_shell :=
  mk_shell v (echo_mode s) (prompt_mode s) (current_history s) (history_count s) (cmd_history s) (line s)
    (line_position s) (line_curpos s) (finsh_prompt_custom s).
Definition with_echo (s : finsh_shell) (v : bool) : finsh_shell :=
  mk_shell (stat s) v (prompt_mode s) (current_history s) (history_count s) (cmd_history s) (line s)
    (line_position s) (line_curpos s) (finsh_prompt_custom s).
Definition with_prompt (s : finsh_shell) (m : bool) (p : option str) : finsh_shell :=
  mk_shell (stat s) (echo_mode s) m (current_history s) (history_count s) (cmd_history s) (line s)
    (line_position s) (line_curpos s) p.
Definition with_history (s : finsh_shell) (current count : Z) (h : list (list Z)) : finsh_shell :=
  mk_shell (stat s) (echo_mode s) (prompt_mode s) current count h (line s)
    (line_position s) (line_curpos s) (finsh_prompt_custom s).
Definition with_line (s : finsh_shell) (l : list Z) (position curpos : Z) : finsh_shell :=
  mk_shell (stat s) (echo_mode s) (prompt_mode s) (current_history s) (history_count s) (cmd_history s) l
    position curpos (finsh_prompt_custom s).

(** ** Prompt and echo *)

(** [stored]: there was memory for the copy. *)
Definition finsh_set_prompt (s : finsh_shell) (prompt : option str) (stored : bool) : finsh_shell :=
  with_prompt s (prompt_mode s) (if stored then prompt else None).

(** msh > *)
Definition default_prompt : str := [109; 115; 104; 32; 62].
Definition finsh_get_prompt (s : finsh_shell) : str :=
  if negb (prompt_mode s) then []
  else match finsh_prompt_custom s with Some p => take 256 p | None => default_prompt end.

(** The modes are fields of one bit. *)
Definition finsh_set_prompt_mode (s : finsh_shell) (mode : Z) : finsh_shell :=
  with_prompt s (Z.testbit mode 0) (finsh_prompt_custom s).
Definition finsh_get_prompt_mode (s : finsh_shell) : Z := Z.b2z (prompt_mode s).
Definition finsh_set_echo (s : finsh_shell) (echo : Z) : finsh_shell := with_echo s (Z.testbit (u8 echo) 0).
Definition finsh_get_echo (s : finsh_shell) : Z := Z.b2z (echo_mode s).

(** The prompt is a format: a conversion in it takes an argument that is not there. *)
Definition PERCENT : Z := 37.
Fixpoint format (f : str) : result str :=
  match f with
  | [] => Ok []
  | c :: f =>
      if c =? PERCENT then
        match f with
        | d :: f => if d =? PERCENT then r ← format f; Ok (PERCENT :: r) else Fault OutOfBounds
        | [] => Fault OutOfBounds
        end
      else r ← format f; Ok (c :: r)
  end.
Definition put_prompt (s : finsh_shell) (out : list event) : result (list event) :=
  p ← format (finsh_get_prompt s); Ok (out ++ [Put p]).

(** ** History *)

Definition BS : Z := 8.
Definition NL : Z := 10.
(** ESC [2K and a carriage return. *)
Definition CLEAR : str := [27; 91; 50; 75; 13].
(** Times [rt_kprintf] of a backspace. *)
Definition back (n : Z) : list event := replicate (Z.to_nat n) (Put [BS]).

(** [memcmp(a, b, n) != 0] *)
Definition differ (a b : list Z) (n : Z) : result bool :=
  if decide (0 <= n <= Z.of_nat (length a) /\ n <= Z.of_nat (length b)) then
    Ok (negb (bool_decide (take (Z.to_nat n) a = take (Z.to_nat n) b)))
  else Fault OutOfBounds.

Definition shell_handle_history (s : finsh_shell) (out : list event) : result (list event) :=
  t ← c_string (line s); Ok (out ++ [Put CLEAR; Put (finsh_get_prompt s ++ t)]).

(** Rows [index] to [index + n] move down by one. *)
Fixpoint move_history (n : nat) (index : Z) (h : list (list Z)) : result (list (list Z)) :=
  match n with
  | O => Ok h
  | S n =>
      dst ← aget h index; src ← aget h (index + 1);
      row ← acopy dst 0 src 0 FINSH_CMD_SIZE;
      h ← aset h index row;
      move_history n (index + 1) h
  end.

(** [rt_memset] of a row and [rt_memcpy] of the line into it. *)
Definition store_history (s : finsh_shell) (index : Z) (h : list (list Z)) : result (list (list Z)) :=
  row ← aget h index;
  row ← acopy (replicate (length row) 0) 0 (line s) 0 (line_position s);
  aset h index row.

Definition shell_push_history (s : finsh_shell) : result finsh_shell :=
  s ← (if negb (line_position s =? 0) then
         if Z.of_nat FINSH_HISTORY_LINES <=? history_count s then
           last ← aget (cmd_history s) (Z.of_nat FINSH_HISTORY_LINES - 1);
           d ← differ last (line s) FINSH_CMD_SIZE;
           if d : bool then
             h ← move_history (FINSH_HISTORY_LINES - 1) 0 (cmd_history s);
             h ← store_history s (Z.of_nat FINSH_HISTORY_LINES - 1) h;
             Ok (with_history s (current_history s) (Z.of_nat FINSH_HISTORY_LINES) h)
           else Ok s
         else
           d ← (if history_count s =? 0 then Ok true
                else last ← aget (cmd_history s) (history_count s - 1); differ last (line s) FINSH_CMD_SIZE);
           if d : bool then
             h ← store_history s (history_count s) (cmd_history s);
             Ok (with_history s (history_count s) (u16 (history_count s + 1)) h)
           else Ok s
       else Ok s);
  Ok (with_history s (history_count s) (history_count s) (cmd_history s)).

(** ** The loop of the thread *)

Section Thread.
Context (table : list finsh_syscall) (command : nat -> list str -> Z).
Implicit Types (s : finsh_shell) (out : list event).

(** [line] becomes the row [current_history]. *)
Definition recall_history s out : result (finsh_shell * list event) :=
  row ← aget (cmd_history s) (current_history s);
  l ← acopy (line s) 0 row 0 FINSH_CMD_SIZE;
  t ← c_string l;
  let n := u16 (Z.of_nat (length t)) in
  let s := with_line s l n n in
  out ← shell_handle_history s out;
  Ok (s, out).

Definition up_key s out : result (finsh_shell * list event) :=
  if 0 <? current_history s then
    recall_history (with_history s (current_history s - 1) (history_count s) (cmd_history s)) out
  else Ok (with_history s 0 (history_count s) (cmd_history s), out).

Definition down_key s out : result (finsh_shell * list event) :=
  if current_history s <? history_count s - 1 then
    recall_history (with_history s (current_history s + 1) (history_count s) (cmd_history s)) out
  else if negb (history_count s =? 0) then
    recall_history (with_history s (history_count s - 1) (history_count s) (cmd_history s)) out
  else Ok (s, out).

Definition left_key s out : finsh_shell * list event :=
  if negb (line_curpos s =? 0) then
    (with_line s (line s) (line_position s) (line_curpos s - 1), out ++ [Put [BS]])
  else (s, out).

Definition right_key s out : result (finsh_shell * list event) :=
  if line_curpos s <? line_position s then
    c ← aget (line s) (line_curpos s);
    Ok (with_line s (line s) (line_position s) (line_curpos s + 1), out ++ [Put [c]])
  else Ok (s, out).

(** On the line of the shell. *)
Definition shell_auto_complete s out : result (list Z * list event) :=
  '(l, out) ← msh_auto_complete table (line s) (out ++ [Put [NL]]);
  t ← c_string l;
  Ok (l, out ++ [Put (finsh_get_prompt s ++ t)]).

Definition tab_key s out : result (finsh_shell * list event) :=
  '(l, out) ← shell_auto_complete s (out ++ back (line_curpos s));
  t ← c_string l;
  let n := u16 (Z.of_nat (length t)) in
  Ok (with_line s l n n, out).

Definition backspace_key s out : result (finsh_shell * list event) :=
  if line_curpos s =? 0 then Ok (s, out)
  else
    let position := u16 (line_position s - 1) in
    let curpos := u16 (line_curpos s - 1) in
    if curpos <? position then
      l ← KString.rt_memmove curpos (curpos + 1) (position - curpos) (line s);
      l ← aset l position 0;
      t ← string_at l curpos;
      Ok (with_line s l position curpos, out ++ [Put ([BS] ++ t ++ [SPACE; SPACE; BS])] ++ back (position - curpos + 1))
    else
      l ← aset (line s) position 0;
      Ok (with_line s l position curpos, out ++ [Put [BS; SPACE; BS]]).

Definition end_of_line s out : result (finsh_shell * list event) :=
  s ← shell_push_history s;
  let out := if echo_mode s then out ++ [Put [NL]] else out in
  '(_, l, out) ← msh_exec table command 0 (line_position s) (line s) out;
  out ← put_prompt s out;
  Ok (with_line s (replicate (length l) 0) 0 0, out).

Definition normal_character s (ch : Z) out : result (finsh_shell * list event) :=
  let position := if FINSH_CMD_SIZE <=? line_position s then 0 else line_position s in
  let curpos := line_curpos s in
  '(l, out) ←
    (if curpos <? position then
       l ← KString.rt_memmove (curpos + 1) curpos (position - curpos) (line s);
       l ← aset l curpos (u8 ch);
       out ← (if echo_mode s then t ← string_at l curpos; Ok (out ++ [Put t]) else Ok out);
       Ok (l, out ++ back (position - curpos))
     else
       l ← aset (line s) position (u8 ch);
       Ok (l, if echo_mode s then out ++ [Put [u8 ch]] else out));
  let position := u16 (position + 1) in
  let curpos := u16 (curpos + 1) in
  if FINSH_CMD_SIZE <=? position then Ok (with_line s l 0 0, out)
  else Ok (with_line s l position curpos, out).

(** What comes after the escape sequences. *)
Definition ordinary s (ch : Z) out : result (finsh_shell * list event) :=
  if (ch =? 0) || (ch =? 0xFF) then Ok (s, out)
  else if ch =? TAB then tab_key s out
  else if (ch =? 0x7f) || (ch =? 0x08) then backspace_key s out
  else if (ch =? 13) || (ch =? 10) then end_of_line s out
  else normal_character s ch out.

(** One round; -1 is the end of the file. *)
Definition finsh_step s (ch : Z) out : result (finsh_shell * list event) :=
  if ch <? 0 then Ok (s, out)
  else if ch =? 0x1b then Ok (with_stat s WAIT_SPEC_KEY, out)
  else
    match stat s with
    | WAIT_SPEC_KEY =>
        if ch =? 0x5b then Ok (with_stat s WAIT_FUNC_KEY, out) else ordinary (with_stat s WAIT_NORMAL) ch out
    | WAIT_FUNC_KEY =>
        let s := with_stat s WAIT_NORMAL in
        if ch =? 0x41 then up_key s out
        else if ch =? 0x42 then down_key s out
        else if ch =? 0x44 then Ok (left_key s out)
        else if ch =? 0x43 then right_key s out
        else ordinary s ch out
    | WAIT_NORMAL => ordinary s ch out
    end.

Fixpoint finsh_run s (input : list Z) out : result (finsh_shell * list event) :=
  match input with
  | [] => Ok (s, out)
  | ch :: input => '(s, out) ← finsh_step s ch out; finsh_run s input out
  end.

(** The thread, on the characters that [finsh_getchar] returns. *)
Definition finsh_thread_entry s (input : list Z) : result (finsh_shell * list event) :=
  let s := with_echo s true in
  out ← put_prompt s [];
  finsh_run s input out.
End Thread.

(** The structure as [finsh_system_init] leaves it. *)
Definition initial_shell : finsh_shell :=
  finsh_set_prompt_mode
    (mk_shell WAIT_NORMAL false false 0 0 (replicate FINSH_HISTORY_LINES (replicate 80 0)) (replicate 81 0) 0 0 None) 1.

(** ** The line editor *)

(** The text before the cursor (the nearest character first) and after it, the lines
    entered, and which of them was recalled last. *)
Record editor := mk_editor {
  mode : input_stat;
  before : str;
  after : str;
  past : list str;
  recalled : nat
}.
Definition text (e : editor) : str := rev (before e) ++ after e.

Inductive key := Up | Down | Left | Right | Tab | Back | Enter | Char (c : Z).

(** A character outside an escape sequence. *)
Definition plain (ch : Z) : option key :=
  if (ch =? 0) || (ch =? 0xFF) then None
  else if ch =? TAB then Some Tab
  else if (ch =? 0x7f) || (ch =? 0x08) then Some Back
  else if (ch =? 13) || (ch =? 10) then Some Enter
  else Some (Char ch).
Definition decode (m : input_stat) (ch : Z) : input_stat * option key :=
  if ch <? 0 then (m, None)
  else if ch =? 0x1b then (WAIT_SPEC_KEY, None)
  else
    match m with
    | WAIT_SPEC_KEY => if ch =? 0x5b then (WAIT_FUNC_KEY, None) else (WAIT_NORMAL, plain ch)
    | WAIT_FUNC_KEY =>
        (WAIT_NORMAL,
         if ch =? 0x41 then Some Up else if ch =? 0x42 then Some Down
         else if ch =? 0x44 then Some Left else if ch =? 0x43 then Some Right else plain ch)
    | WAIT_NORMAL => (WAIT_NORMAL, plain ch)
    end.

(** The list of lines keeps the last five; an empty line and a repeated one are left out. *)
Definition push (past : list str) (t : str) : list str :=
  if decide (t = [] \/ last past = Some t) then past
  else drop (S (length past) - FINSH_HISTORY_LINES) (past ++ [t]).

Section Editor.
Context (table : list finsh_syscall) (command : nat -> list str -> Z) (prompt : str).

Definition recall (e : editor) (i : nat) : editor :=
  mk_editor (mode e) (rev (default [] (past e !! i))) [] (past e) i.

(** The editor after a key; undefined when the line gets as long as the buffer. *)
Definition press (e : editor) (k : key) : option editor :=
  match k with
  | Up => Some (match recalled e with O => e | S i => recall e i end)
  | Down => Some (match past e with [] => e | _ => recall e (Nat.min (S (recalled e)) (length (past e) - 1)) end)
  | Left =>
      Some (match before e with [] => e | c :: b => mk_editor (mode e) b (c :: after e) (past e) (recalled e) end)
  | Right =>
      Some (match after e with [] => e | c :: a => mk_editor (mode e) (c :: before e) a (past e) (recalled e) end)
  | Tab =>
      let t := fst (spec_complete table (text e)) in
      if decide (Z.of_nat (length t) < FINSH_CMD_SIZE) then Some (mk_editor (mode e) (rev t) [] (past e) (recalled e))
      else None
  | Back =>
      Some (match before e with [] => e | _ :: b => mk_editor (mode e) b (after e) (past e) (recalled e) end)
  | Enter =>
      let past := push (past e) (text e) in Some (mk_editor (mode e) [] [] past (length past))
  | Char c =>
      if decide (Z.of_nat (length (text e)) + 1 < FINSH_CMD_SIZE) then
        Some (mk_editor (mode e) (c :: before e) (after e) (past e) (recalled e))
      else None
  end.

(** What a key puts on the console, and the command it runs. *)
Definition shown (e : editor) : list event := [Put CLEAR; Put (prompt ++ text e)].
Definition output (e : editor) (k : key) : list event :=
  match k with
  | Up => match recalled e with O => [] | S i => shown (recall e i) end
  | Down => match past e with [] => [] | _ => shown (recall e (Nat.min (S (recalled e)) (length (past e) - 1))) end
  | Left => match before e with [] => [] | _ => [Put [BS]] end
  | Right => match after e with [] => [] | c :: _ => [Put [c]] end
  | Tab =>
      replicate (length (before e)) (Put [BS]) ++ [Put [NL]] ++ snd (spec_complete table (text e)) ++
      [Put (prompt ++ fst (spec_complete table (text e)))]
  | Back =>
      match before e, after e with
      | [], _ => []
      | _, [] => [Put [BS; SPACE; BS]]
      | _, a => Put ([BS] ++ a ++ [SPACE; SPACE; BS]) :: replicate (S (length a)) (Put [BS])
      end
  | Enter => [Put [NL]] ++ snd (spec_exec table command (text e)) ++ [Put prompt]
  | Char c => Put (c :: after e) :: replicate (length (after e)) (Put [BS])
  end.

Definition set_mode (e : editor) (m : input_stat) : editor := mk_editor m (before e) (after e) (past e) (recalled e).

(** The editor after a character, and the output. *)
Definition feed (e : editor) (ch : Z) : option (editor * list event) :=
  let '(m, k) := decode (mode e) ch in
  let e := set_mode e m in
  match k with
  | None => Some (e, [])
  | Some k => e' ← press e k; Some (e', output e k)
  end.
Fixpoint edit (e : editor) (input : list Z) : option (editor * list event) :=
  match input with
  | [] => Some (e, [])
  | ch :: input => '(e, o) ← feed e ch; '(e, o') ← edit e input; Some (e, o ++ o')
  end.
End Editor.

(** ** The terminal *)

(** The line of the screen the cursor is in: what is left of the cursor (the nearest
    first) and from the cursor on. *)
Definition screen : Type := str * str.

Definition term_char (t : screen) (c : Z) : screen :=
  let '(l, r) := t in
  if c =? BS then match l with [] => t | d :: l => (l, d :: r) end
  else if c =? NL then ([], [])
  else (c :: l, match r with [] => [] | _ :: r => r end).
(** The one escape sequence in use erases the line. *)
Definition term_put (t : screen) (s : str) : screen :=
  if decide (s = CLEAR) then ([], []) else foldl term_char t s.

Section Display.
Context (leave : nat -> list str -> str).

(** A command writes what it likes; the last line of it, where the cursor stays, is
    [leave]: nothing, when its output ends with a line feed. *)
Definition term (t : screen) (ev : event) : screen :=
  match ev with Put s => term_put t s | Run f argv => (rev (leave f argv), []) end.
Definition display (t : screen) (o : list event) : screen := foldl term t o.

(** What is on the line before the prompt: the last line of the last command, unless
    a line was begun or erased since. *)
Definition margin (m : str) (ev : event) : str :=
  match ev with Put s => if decide (s = CLEAR \/ NL ∈ s) then [] else m | Run f argv => leave f argv end.
Definition margins (m : str) (o : list event) : str := foldl margin m o.
End Display.

(** The prompt behind the margin, the text, the cursor where it is in the text, and
    blanks. *)
Definition displays (prompt m : str) (t : screen) (e : editor) : Prop :=
  exists n, t = (before e ++ rev prompt ++ rev m, after e ++ replicate n SPACE).

(** ** The shell is the editor *)

Notation "# l" := (Z.of_nat (base.length l)) (at level 1, format "# l").

(** A line that is shorter than the buffer. *)
Definition fits (t : str) : Prop := KString.text t /\ (length t < 80)%nat.

(** The rows in use hold the lines, the others anything. *)
Definition history (h : list (list Z)) (past : list str) : Prop :=
  length h = FINSH_HISTORY_LINES /\ Forall (fun t => fits t /\ t <> []) past /\
  exists rest, h = map (padded 80) past ++ rest /\ Forall (fun r => length r = 80%nat) rest.

Lemma padded_c_string n t : KString.text t -> (length t < n)%nat -> c_string (padded n t) = Ok t.
Proof. intros Ht Hn. destruct (padded_string n t Hn) as [r ->]. exact (string_app [] t r Ht). Qed.
Lemma length_padded n t : (length t <= n)%nat -> length (padded n t) = n.
Proof. intros H. unfold padded. rewrite length_app, length_replicate. lia. Qed.
Lemma padded_wide t : (length t <= 80)%nat -> padded 80 t ++ [0] = padded 81 t.
Proof.
  intros H. unfold padded. rewrite <- app_assoc. f_equal. change [0] with (replicate 1 0). rewrite <- replicate_add.
  f_equal. lia.
Qed.
Lemma padded_inj n t t' :
  KString.text t -> KString.text t' -> (length t < n)%nat -> (length t' < n)%nat -> padded n t = padded n t' -> t = t'.
Proof. intros Ht Ht' H H' E. assert (Ok t = Ok t') as [= ->]; [|done]. by rewrite <- (padded_c_string n t), <- (padded_c_string n t'), E. Qed.
Lemma take_padded t : (length t <= 80)%nat -> take 80 (padded 81 t) = padded 80 t.
Proof. intros H. rewrite <- padded_wide by done. apply take_app_length'. by rewrite length_padded. Qed.

Lemma fits_app x y : fits (x ++ y) -> fits x /\ fits y.
Proof. unfold fits, KString.text. rewrite Forall_app, length_app. intros [[? ?] ?]. split; (split; [done|lia]). Qed.
Lemma fits_nil : fits [].
Proof. split; [by constructor|cbn; lia]. Qed.

Lemma history_row h past i t :
  history h past -> past !! i = Some t -> h !! i = Some (padded 80 t) /\ fits t.
Proof.
  intros (_ & Hp & rest & -> & _) Hi. split; [|by apply (Forall_lookup_1 _ _ _ _ Hp Hi)].
  rewrite lookup_app_l by (rewrite length_map; by eapply lookup_lt_Some). by rewrite list_lookup_fmap, Hi.
Qed.

Lemma aget_at {A} (pre : list A) c r n : n = #pre -> aget (pre ++ c :: r) n = Ok c.
Proof. intros ->. rewrite aget_Ok with (a := c); [done|lia|]. rewrite Nat2Z.id. by apply list_lookup_middle. Qed.
Lemma aset_at {A} (pre : list A) c r v n : n = #pre -> aset (pre ++ c :: r) n v = Ok (pre ++ v :: r).
Proof.
  intros ->. rewrite aset_Ok by (rewrite length_app; cbn; lia). by rewrite Nat2Z.id, insert_app_r_alt, Nat.sub_diag by lia.
Qed.
Lemma string_at_at (pre w post : list Z) n : n = #pre -> KString.text w -> string_at (pre ++ w ++ 0 :: post) n = Ok w.
Proof. intros ->. apply string_app. Qed.

Section Refinement.
Context (table : list finsh_syscall) (command : nat -> list str -> Z) (prompt : str).
Implicit Types (s : finsh_shell) (e : editor) (out : list event).

Record rel s e : Prop := {
  rel_stat : stat s = mode e;
  rel_echo : echo_mode s = true;
  rel_prompt : finsh_get_prompt s = prompt;
  rel_line : line s = padded 81 (text e);
  rel_position : line_position s = #(text e);
  rel_curpos : line_curpos s = #(before e);
  rel_fits : fits (text e);
  rel_history : history (cmd_history s) (past e);
  rel_count : history_count s = #(past e);
  rel_recalled : current_history s = Z.of_nat (recalled e);
  rel_le : (recalled e <= length (past e))%nat
}.

Lemma rel_past s e : rel s e -> (length (past e) <= 5)%nat.
Proof. intros [_ _ _ _ _ _ _ (Hl & _ & rest & E & _) _ _ _]. apply (f_equal length) in E. rewrite length_app, length_map, Hl in E. unfold FINSH_HISTORY_LINES in E. lia. Qed.

(** Another text. *)
Lemma rel_with_line s e b a n c :
  rel s e -> fits (rev b ++ a) -> n = #(rev b ++ a) -> c = #b ->
  rel (with_line s (padded 81 (rev b ++ a)) n c) (mk_editor (mode e) b a (past e) (recalled e)).
Proof. by intros [] ? -> ->. Qed.

Lemma rel_line_of s e b a n c l :
  rel s e -> l = padded 81 (rev b ++ a) -> fits (rev b ++ a) -> n = #(rev b ++ a) -> c = #b ->
  rel (with_line s l n c) (mk_editor (mode e) b a (past e) (recalled e)).
Proof. intros ? ->. by apply rel_with_line. Qed.

Lemma text_before (c : Z) b a : rev (c :: b) ++ a = rev b ++ c :: a.
Proof. cbn. by rewrite <- app_assoc. Qed.

Lemma left_key_ok s e out :
  rel s e -> exists e', press table e Left = Some e' /\
    (left_key s out).2 = out ++ output table command prompt e Left /\ rel (left_key s out).1 e'.
Proof.
  intros R. eexists. split; [done|]. unfold left_key. rewrite (rel_curpos s e R). cbn [press output].
  destruct (before e) as [|c b] eqn:Eb.
  - cbn. rewrite app_nil_r. done.
  - cbn [length Z.eqb negb fst snd]. split; [done|]. pose proof (rel_fits s e R) as Hf.
    pose proof (rel_line s e R) as El. pose proof (rel_position s e R) as Ep. unfold text in *. rewrite Eb, text_before in *.
    eapply rel_line_of; try done. lia.
Qed.

Lemma right_key_ok s e out :
  rel s e -> exists s' e', press table e Right = Some e' /\
    right_key s out = Ok (s', out ++ output table command prompt e Right) /\ rel s' e'.
Proof.
  intros R. unfold right_key. pose proof (rel_fits s e R) as Hf. pose proof (rel_line s e R) as El.
  pose proof (rel_position s e R) as Ep. pose proof (rel_curpos s e R) as Ec. cbn [press output].
  assert (#(text e) = #(before e) + #(after e)) as Hlen by (unfold text; rewrite length_app, length_rev; lia).
  unfold text in Hf, El. destruct (after e) as [|c a] eqn:Ea.
  - replace (_ <? _) with false by (cbn in *; lia). exists s. eexists. rewrite app_nil_r. done.
  - replace (_ <? _) with true by (cbn in *; lia). assert (aget (line s) (line_curpos s) = Ok c) as ->.
    { rewrite El. unfold padded. rewrite <- app_assoc. cbn [app]. by rewrite aget_at by (by rewrite length_rev). }
    cbn [mbind result_bind]. do 2 eexists. split; [done|]. split; [done|].
    unfold text in Ep. rewrite Ea in Ep. eapply rel_line_of; rewrite ?text_before; try done. cbn. lia.
Qed.

(** What a key does to related states. *)
Definition key_ok (act : finsh_shell -> list event -> result (finsh_shell * list event)) (k : key) : Prop :=
  forall s e e' out, rel s e -> press table e k = Some e' ->
  exists s', act s out = Ok (s', out ++ output table command prompt e k) /\ rel s' e'.

Lemma rel_recall s e i :
  rel s e -> (i < length (past e))%nat ->
  rel (with_history s (Z.of_nat i) (history_count s) (cmd_history s)) (mk_editor (mode e) (before e) (after e) (past e) i).
Proof. intros [] ?. constructor; try done. cbn. lia. Qed.

Lemma recall_history_ok s e i out :
  rel s e -> (i < length (past e))%nat ->
  exists s', recall_history (with_history s (Z.of_nat i) (history_count s) (cmd_history s)) out =
    Ok (s', out ++ shown prompt (recall e i)) /\ rel s' (recall e i).
Proof.
  intros R Hi. destruct (lookup_lt_is_Some_2 (past e) i Hi) as [t Et].
  destruct (history_row _ _ _ _ (rel_history s e R) Et) as [Er [Ht Hl]].
  assert (recall e i = mk_editor (mode e) (rev t) [] (past e) i) as Ee by (unfold recall; by rewrite Et).
  assert (text (recall e i) = t) as Etxt by (rewrite Ee; unfold text; cbn; by rewrite rev_involutive, app_nil_r).
  unfold recall_history. cbn [cmd_history current_history with_history line].
  rewrite (aget_Ok _ _ (padded 80 t)) by (rewrite ?Nat2Z.id; done || lia). cbn [mbind result_bind].
  destruct (rel_fits s e R) as [_ Hfl]. rewrite (rel_line s e R), acopy_Ok by (rewrite ?length_padded; unfold FINSH_CMD_SIZE; lia).
  change (Z.to_nat 0) with 0%nat. change (Z.to_nat (0 + FINSH_CMD_SIZE)) with 80%nat. change (Z.to_nat FINSH_CMD_SIZE) with 80%nat.
  rewrite take_0, drop_0, take_ge, <- (padded_wide (text e)), drop_app_length' by (rewrite ?length_padded; lia).
  cbn [app]. rewrite padded_wide by lia. cbn [mbind result_bind].
  unfold shell_handle_history. cbn [line with_line]. rewrite padded_c_string by (done || lia). cbn [mbind result_bind].
  rewrite u16_small by lia. eexists. split.
  - unfold shown. rewrite Etxt. change (finsh_get_prompt (with_line _ _ _ _)) with (finsh_get_prompt s). by rewrite (rel_prompt s e R).
  - rewrite Ee. pose proof (rel_recall s e i R Hi) as R'.
    eapply (rel_line_of _ _ (rev t) []) in R'; [exact R'|..]; rewrite ?length_rev, ?rev_involutive, ?app_nil_r; done.
Qed.

Lemma up_key_ok : key_ok up_key Up.
Proof.
  intros s e e' out R [= <-]. unfold up_key. rewrite (rel_recalled s e R). pose proof (rel_le s e R). cbn [output].
  destruct (recalled e) as [|i] eqn:Ei.
  - cbn. rewrite app_nil_r. eexists. split; [done|]. destruct R. constructor; try done. cbn. lia.
  - replace (0 <? _) with true by lia. replace (Z.of_nat (S i) - 1) with (Z.of_nat i) by lia.
    by apply recall_history_ok; [|lia].
Qed.

Lemma down_key_ok : key_ok down_key Down.
Proof.
  intros s e e' out R E. apply (inj Some) in E. subst e'. unfold down_key. rewrite (rel_recalled s e R). pose proof (rel_count s e R) as Ec.
  pose proof (rel_le s e R). cbn [output]. destruct (past e) as [|t ts] eqn:Ep.
  - rewrite Ec. replace (_ <? _) with false by (cbn; lia). cbn. rewrite app_nil_r. by exists s.
  - rewrite <- Ep in *. assert (length (past e) <> 0)%nat by (by rewrite Ep).
    replace (history_count s =? 0) with false by lia. cbn [negb]. destruct (Z.ltb_spec (Z.of_nat (recalled e)) (history_count s - 1)).
    + replace (Z.of_nat (recalled e) + 1) with (Z.of_nat (S (recalled e) `min` (length (past e) - 1))) by lia.
      apply recall_history_ok; [done|lia].
    + replace (history_count s - 1) with (Z.of_nat (S (recalled e) `min` (length (past e) - 1))) by lia.
      apply recall_history_ok; [done|lia].
Qed.

Lemma tab_key_ok :
  Forall (fun i => KString.text (name i)) table -> key_ok (tab_key table) Tab.
Proof.
  intros Ht s e e' out R. cbn [press]. destruct (decide _) as [Hlt|]; [|done]. intros [= <-].
  destruct (rel_fits s e R) as [Htx Hfl]. unfold tab_key, shell_auto_complete. unfold FINSH_CMD_SIZE in Hlt.
  rewrite (rel_line s e R), msh_auto_complete_ok by (done || lia). cbn [mbind result_bind].
  assert (KString.text (fst (spec_complete table (text e)))) as Hc by by apply spec_complete_forall.
  rewrite padded_c_string by (done || lia). cbn [mbind result_bind]. rewrite padded_c_string by (done || lia). cbn [mbind result_bind].
  rewrite u16_small by lia. eexists. split.
  - cbn [output]. unfold back. rewrite (rel_curpos s e R), (rel_prompt s e R), Nat2Z.id. by rewrite <- !app_assoc.
  - eapply (rel_line_of _ _ (rev _) []) in R; [exact R|..]; rewrite ?length_rev, ?rev_involutive, ?app_nil_r; try done. split; [done|lia].
Qed.

Lemma u16_pred n : 0 < n < 65536 -> u16 (n - 1) = n - 1.
Proof. intros. apply u16_small. lia. Qed.

(** [rt_memmove] that closes a gap, and one that opens it. *)
Lemma over_middle (b v w z : list Z) : length w = length v -> KString.over (length b) w (b ++ v ++ z) = b ++ w ++ z.
Proof.
  intros H. unfold KString.over. pose proof (list_inserts_app_r w b (v ++ z) 0) as E. rewrite Nat.add_0_r in E.
  by rewrite E, list_inserts_0_r.
Qed.
Lemma close_gap (b a : list Z) c z n m k :
  n = #b -> m = #b + 1 -> k = #a -> exists x, KString.rt_memmove n m k (b ++ c :: a ++ z) = Ok (b ++ a ++ x :: z).
Proof.
  intros -> -> ->. destruct (exists_last (l := c :: a) ltac:(done)) as (v & x & E). exists x.
  assert (length a = length v) as El by (apply (f_equal length) in E; rewrite length_app in E; cbn in E; lia).
  replace (#b + 1) with (Z.of_nat (length b + 1)) by lia.
  rewrite KString.rt_memmove_ok by (rewrite !length_app; cbn; rewrite ?length_app; lia). f_equal.
  replace (KString.read (length b + 1) (length a) (b ++ c :: a ++ z)) with a.
  - rewrite app_comm_cons, E, <- app_assoc. cbn [app]. by apply over_middle.
  - unfold KString.read. rewrite (shift_pre b c (a ++ z)), drop_app_length' by (rewrite length_app; cbn; lia).
    by rewrite take_app_length.
Qed.
Lemma open_gap (b a : list Z) y z n m k :
  n = #b + 1 -> m = #b -> k = #a -> exists x, KString.rt_memmove n m k (b ++ a ++ y :: z) = Ok (b ++ x :: a ++ z).
Proof.
  intros -> -> ->. destruct (a ++ [y]) as [|x v] eqn:E; [by destruct a|]. exists x.
  assert (length a = length v) as El by (apply (f_equal length) in E; rewrite length_app in E; cbn in E; lia).
  replace (#b + 1) with (Z.of_nat (length b + 1)) by lia.
  rewrite KString.rt_memmove_ok by (rewrite !length_app; cbn; rewrite ?length_app; lia). f_equal.
  replace (KString.read (length b) (length a) (b ++ a ++ y :: z)) with a.
  - rewrite (shift_pre a y z), E. cbn [app]. rewrite (shift_pre b x (v ++ z)), (shift_pre b x (a ++ z)).
    replace (length b + 1)%nat with (length (b ++ [x])) by (rewrite length_app; cbn; lia). by apply over_middle.
  - unfold KString.read. by rewrite drop_app_length, take_app_length.
Qed.

Lemma padded_cons n t k : (S (length t) + k = n)%nat -> t ++ 0 :: replicate k 0 = padded n t.
Proof. intros <-. unfold padded. f_equal. change (0 :: replicate k 0) with (replicate (S k) 0). f_equal. lia. Qed.
Lemma padded_split n t : padded n t = t ++ replicate (n - length t) 0.
Proof. done. Qed.

Lemma backspace_key_ok : key_ok backspace_key Back.
Proof.
  intros s e e' out R E. apply (inj Some) in E. subst e'. unfold backspace_key. pose proof (rel_fits s e R) as Hf.
  pose proof (rel_line s e R) as El. pose proof (rel_position s e R) as Ep. pose proof (rel_curpos s e R) as Ec. cbn [output].
  destruct (before e) as [|c b] eqn:Eb.
  { rewrite Ec. cbn. rewrite app_nil_r. by exists s. }
  replace (line_curpos s =? 0) with false by (cbn in *; lia).
  assert (length (text e) = S (length b + length (after e))) as Hlen by (unfold text; rewrite Eb, length_app, length_rev; cbn; lia).
  pose proof (proj2 Hf) as Hf0. unfold text in Hf, El. rewrite Eb, text_before in Hf, El. cbn [length] in Ec.
  assert (fits (rev b ++ after e)) as Hf'.
  { apply fits_app in Hf as Hf2. destruct Hf2 as [[Hb _] [[_ Ha]%Forall_cons _]]. destruct Hf as [_ Hf].
    rewrite length_app in Hf. split; [by apply Forall_app|rewrite length_app; cbn in Hf; lia]. }
  rewrite !u16_small by lia. rewrite Ep, Ec, Hlen, El, padded_split, <- app_assoc.
  assert (length (rev b ++ c :: after e) = S (length b + length (after e))) as Hl2 by (rewrite length_app, length_rev; cbn; lia).
  assert (length (rev b ++ after e) = length b + length (after e))%nat as Hl3 by (rewrite length_app, length_rev; cbn; lia).
  destruct (after e) as [|d a] eqn:Ea.
  - replace (_ <? _) with false by (cbn; lia). cbn [app]. rewrite aset_at by (rewrite length_rev; cbn; lia).
    cbn [mbind result_bind]. eexists. split; [done|]. rewrite app_nil_r in Hl3.
    eapply rel_line_of; rewrite ?app_nil_r in *; try done; rewrite ?length_rev in *; [|lia..].
    apply padded_cons. rewrite length_rev. lia.
  - set (a' := d :: a) in *. assert (0 < length a')%nat by (unfold a'; cbn; lia).
    replace (_ <? _) with true by lia. cbn [app].
    edestruct (close_gap (rev b) a' c (replicate (81 - length (rev b ++ c :: a')) 0)) as [x ->]; [rewrite length_rev; lia..|lia|].
    cbn [mbind result_bind]. rewrite app_assoc, aset_at by lia. cbn [mbind result_bind].
    rewrite <- app_assoc. rewrite string_at_at by (first [rewrite length_rev; lia | by apply fits_app in Hf' as [_ [? _]]]).
    cbn [mbind result_bind]. rewrite app_assoc, (padded_cons 81) by lia. eexists. split.
    + unfold a', back. do 5 f_equal. cbn. lia.
    + eapply rel_line_of; try done; unfold a' in *; lia.
Qed.

Lemma fits_insert (b a : str) c :
  fits (rev b ++ a) -> 0 < c < 256 -> Z.of_nat (length (rev b ++ a)) + 1 < FINSH_CMD_SIZE -> fits (rev b ++ c :: a).
Proof.
  intros [[Hb Ha]%Forall_app _] Hc Hl. unfold FINSH_CMD_SIZE in Hl. split.
  - apply Forall_app. split; [done|by constructor].
  - rewrite length_app in *. cbn. lia.
Qed.

Lemma normal_character_ok c : 0 < c < 256 -> key_ok (fun s => normal_character s c) (Char c).
Proof.
  intros Hc s e e' out R. cbn [press]. destruct (decide _) as [Hlt|]; [|done]. intros [= <-]. unfold normal_character.
  pose proof (rel_fits s e R) as Hf. pose proof (rel_line s e R) as El. pose proof (rel_position s e R) as Ep.
  pose proof (rel_curpos s e R) as Ec. pose proof (fits_insert _ _ _ Hf Hc Hlt) as Hf'. unfold FINSH_CMD_SIZE in Hlt.
  assert (length (text e) = length (before e) + length (after e))%nat as Hlen by (unfold text; rewrite length_app, length_rev; lia).
  assert (length (rev (before e) ++ c :: after e) = S (length (text e))) as Hl2 by (rewrite length_app, length_rev; cbn; lia).
  rewrite (rel_echo s e R), u8_small by lia. unfold FINSH_CMD_SIZE. replace (80 <=? line_position s) with false by lia.
  assert (line s = rev (before e) ++ after e ++ 0 :: replicate (80 - length (text e)) 0) as Em.
  { rewrite El, <- (padded_cons 81 (text e) (80 - length (text e))) by lia. unfold text at 1. by rewrite <- app_assoc. }
  rewrite Ep, Ec, Em. assert (#(text e) < 79) by lia. cbn [output]. destruct (after e) as [|d a] eqn:Ea.
  - cbn [length] in Hlen. replace (_ <? _) with false by lia. cbn [app]. rewrite aset_at by (rewrite length_rev; cbn in *; lia).
    cbn [mbind result_bind]. rewrite !u16_small by lia. replace (80 <=? _) with false by lia.
    eexists. split; [done|]. eapply rel_line_of; try done; rewrite ?text_before; [|done|lia|cbn; lia].
    rewrite padded_split, <- app_assoc. cbn [app]. do 3 f_equal. lia.
  - rewrite <- Ea in *. assert (0 < length (after e))%nat by (rewrite Ea; cbn; lia). replace (_ <? _) with true by lia.
    edestruct (open_gap (rev (before e)) (after e) 0 (replicate (80 - length (text e)) 0)) as [x ->]; [rewrite length_rev; lia..|lia|].
    cbn [mbind result_bind]. rewrite aset_at by (by rewrite length_rev). cbn [mbind result_bind].
    replace (80 - length (text e))%nat with (S (79 - length (text e))) by lia. cbn [replicate]. rewrite app_comm_cons.
    rewrite string_at_at by (first [by rewrite length_rev | by apply fits_app in Hf' as [_ [? _]]]).
    cbn [mbind result_bind]. rewrite !u16_small by lia. replace (80 <=? _) with false by lia.
    eexists. split.
    + unfold back. rewrite <- app_assoc. by replace (Z.to_nat (#(text e) - #(before e))) with (length (after e)) by lia.
    + eapply rel_line_of; try done; rewrite ?text_before; [|done|lia|cbn; lia].
      rewrite app_assoc. apply padded_cons. lia.
Qed.

(** *** The history *)

Lemma differ_ok t t' : fits t -> fits t' -> differ (padded 80 t) (padded 81 t') FINSH_CMD_SIZE = Ok (negb (bool_decide (t = t'))).
Proof.
  intros [Ht Hl] [Ht' Hl']. unfold differ. rewrite !length_padded by lia. unfold FINSH_CMD_SIZE. rewrite decide_True by lia.
  change (Z.to_nat 80) with 80%nat. rewrite take_padded, take_ge by (rewrite ?length_padded; lia). do 2 f_equal.
  apply bool_decide_ext. split; [intros; by apply (padded_inj 80)|by intros ->].
Qed.

Lemma acopy_row (r r' : list Z) : length r = 80%nat -> length r' = 80%nat -> acopy r 0 r' 0 FINSH_CMD_SIZE = Ok r'.
Proof.
  intros H H'. unfold FINSH_CMD_SIZE. rewrite acopy_Ok by lia. change (Z.to_nat (0 + 80)) with 80%nat. change (Z.to_nat 80) with 80%nat.
  change (Z.to_nat 0) with 0%nat. rewrite take_0, drop_0, take_ge, drop_ge by lia. by rewrite app_nil_r.
Qed.
Lemma move_history_ok (pre : list (list Z)) r rs :
  Forall (fun r => length r = 80%nat) (r :: rs) ->
  exists x, length x = 80%nat /\ move_history (length rs) (#pre) (pre ++ r :: rs) = Ok (pre ++ rs ++ [x]).
Proof.
  revert pre r. induction rs as [|r' rs IH]; intros pre r H; [by apply Forall_cons in H as [? _]; exists r|].
  apply Forall_cons in H as [Hr H]. apply Forall_cons in H as H2. destruct H2 as [Hr' _]. cbn [length move_history].
  rewrite (aget_at pre r _ (#pre)) by done. cbn [mbind result_bind].
  replace (pre ++ r :: r' :: rs) with ((pre ++ [r]) ++ r' :: rs) by (by rewrite <- app_assoc).
  rewrite aget_at by (rewrite length_app; cbn; lia). rewrite <- app_assoc. cbn [app mbind result_bind].
  rewrite acopy_row by done. cbn [mbind result_bind]. rewrite aset_at by done. cbn [mbind result_bind].
  destruct (IH (pre ++ [r']) r' H) as (x & Hx & E). exists x. split; [done|].
  replace (#pre + 1) with (#(pre ++ [r'])) by (rewrite length_app; cbn; lia).
  replace (pre ++ r' :: r' :: rs) with ((pre ++ [r']) ++ r' :: rs) by (by rewrite <- app_assoc).
  rewrite E. by rewrite <- !app_assoc.
Qed.

Lemma store_history_ok s e pre x rest :
  rel s e -> length x = 80%nat -> store_history s (#pre) (pre ++ x :: rest) = Ok (pre ++ padded 80 (text e) :: rest).
Proof.
  intros R Hx. unfold store_history. destruct (rel_fits s e R) as [_ Hf].
  rewrite aget_at by done. cbn [mbind result_bind].
  rewrite (rel_position s e R), (rel_line s e R), Hx, acopy_Ok by (rewrite ?length_replicate, ?length_padded; lia).
  cbn [mbind result_bind]. change (Z.to_nat 0) with 0%nat. rewrite Z.add_0_l, Nat2Z.id, take_0, drop_0, padded_split, take_app_length, drop_replicate.
  by rewrite aset_at.
Qed.

Lemma push_past (past : list str) t : t <> [] -> last past <> Some t -> push past t = drop (S (length past) - 5) (past ++ [t]).
Proof. intros H1 H2. unfold push. by rewrite decide_False by (by intros [?|?]). Qed.
Lemma push_same (past : list str) t : t = [] \/ last past = Some t -> push past t = past.
Proof. intros H. unfold push. by rewrite decide_True. Qed.

Lemma history_push h rest p t :
  Forall (fun t => fits t /\ t <> []) p -> fits t -> t <> [] -> Forall (fun r => length r = 80%nat) rest ->
  h = map (padded 80) (p ++ [t]) ++ rest -> length h = FINSH_HISTORY_LINES -> history h (p ++ [t]).
Proof.
  intros Hp Ht Hne Hr -> Hl. split; [done|]. split; [apply Forall_app; split; [done|by apply Forall_singleton]|by exists rest].
Qed.

(** Five lines are kept: the first goes. *)
Lemma push_full s e :
  rel s e -> text e <> [] -> length (past e) = 5%nat ->
  exists h1 h, move_history 4 0 (cmd_history s) = Ok h1 /\ store_history s 4 h1 = Ok h /\ history h (drop 1 (past e ++ [text e])).
Proof.
  intros R Hne Hl. destruct (rel_history s e R) as (Hlen & Hp & rest & E & _).
  assert (rest = []) as -> by (apply nil_length_inv; rewrite E, length_app, length_map in Hlen; unfold FINSH_HISTORY_LINES in Hlen; lia).
  rewrite app_nil_r in E. destruct (past e) as [|t0 ts]; [done|]. cbn in Hl. cbn [app map drop] in *.
  assert (length (map (padded 80) ts) = 4%nat) as Hm by (rewrite length_map; lia).
  destruct (move_history_ok [] (padded 80 t0) (map (padded 80) ts)) as (x & Hx & Em).
  { change (padded 80 t0 :: map (padded 80) ts) with (map (padded 80) (t0 :: ts)). apply Forall_map.
    eapply Forall_impl; [exact Hp|]. intros t [[_ ?] _]. cbn. by rewrite length_padded by lia. }
  rewrite Hm in Em. cbn [app] in Em. exists (map (padded 80) ts ++ [x]). eexists. split; [by rewrite E|]. split.
  - replace 4 with (#(map (padded 80) ts)) by (by rewrite Hm). by apply (store_history_ok s e).
  - apply Forall_cons in Hp as [_ Hp]. eapply (history_push _ []); try done; [apply R|by rewrite map_app, app_nil_r|].
    rewrite length_app, Hm. done.
Qed.

Lemma push_room s e :
  rel s e -> text e <> [] -> (length (past e) < 5)%nat ->
  exists h, store_history s (#(past e)) (cmd_history s) = Ok h /\ history h (past e ++ [text e]).
Proof.
  intros R Hne Hl. destruct (rel_history s e R) as (Hlen & Hp & rest & E & Hr). unfold FINSH_HISTORY_LINES in Hlen.
  destruct rest as [|x rest]. { rewrite E, app_nil_r, length_map in Hlen. lia. }
  apply Forall_cons in Hr as [Hx Hr]. eexists. split.
  - rewrite E, <- (length_map (padded 80)). by apply (store_history_ok s e).
  - eapply (history_push _ rest); try done; [apply R| |].
    + rewrite map_app, <- app_assoc. done.
    + rewrite E, length_app in *. cbn in *. done.
Qed.

(** The comparison with the last line. *)
Lemma last_row s e t n :
  rel s e -> last (past e) = Some t -> n = #(past e) - 1 ->
  exists row, aget (cmd_history s) n = Ok row /\
    differ row (line s) FINSH_CMD_SIZE = Ok (negb (bool_decide (t = text e))).
Proof.
  intros R Hl ->. rewrite last_lookup in Hl. destruct (history_row _ _ _ _ (rel_history s e R) Hl) as [Er Ht].
  exists (padded 80 t). split; [|rewrite (rel_line s e R); by apply differ_ok; [|apply R]].
  assert (length (past e) <> 0)%nat by (intros H0; by rewrite (nil_length_inv _ H0) in Hl).
  apply aget_Ok; [lia|]. by replace (Z.to_nat (#(past e) - 1)) with (pred (length (past e))) by lia.
Qed.

Lemma shell_push_history_ok s e :
  rel s e -> let p := push (past e) (text e) in
  exists h, shell_push_history s = Ok (with_history s (#p) (#p) h) /\ history h p.
Proof.
  intros R. cbv zeta. pose proof (rel_past s e R) as H5. pose proof (rel_count s e R) as Ec. pose proof (rel_position s e R) as Ep.
  unfold shell_push_history. destruct (decide (text e = [])) as [Ht|Hne].
  { rewrite push_same by auto. assert (line_position s =? 0 = true) as -> by by rewrite Ep, Ht. cbn [negb mbind result_bind].
    rewrite Ec. exists (cmd_history s). by split; [|apply R]. }
  assert (length (text e) <> 0)%nat by (by destruct (text e)). replace (line_position s =? 0) with false by lia. cbn [negb].
  change (Z.of_nat FINSH_HISTORY_LINES) with 5. change (FINSH_HISTORY_LINES - 1)%nat with 4%nat. change (5 - 1) with 4.
  destruct (decide (last (past e) = Some (text e))) as [Hs|Hd].
  - rewrite push_same by auto. destruct (last_row s e _ _ R Hs eq_refl) as (row & Er & Ed). rewrite bool_decide_true in Ed by done.
    exists (cmd_history s). split; [|apply R]. assert (past e <> []) as Hpe by (by intros Hpe; rewrite Hpe in Hs).
    assert (length (past e) <> 0)%nat by (by destruct (past e)). destruct (Z.leb_spec 5 (history_count s)).
    + replace 4 with (#(past e) - 1) by lia. rewrite Er. cbn [mbind result_bind]. rewrite Ed. cbn [negb mbind result_bind]. by rewrite Ec.
    + replace (history_count s =? 0) with false by lia. rewrite Ec, Er. cbn [mbind result_bind]. rewrite Ed. cbn [negb mbind result_bind]. by rewrite ?Ec.
  - rewrite push_past by done. destruct (Z.leb_spec 5 (history_count s)).
    + assert (length (past e) = 5%nat) as Hl by lia. destruct (push_full s e R Hne Hl) as (h1 & h & Em & Es & Hh).
      destruct (last (past e)) as [t|] eqn:Et; [|apply last_None in Et; by rewrite Et in Hl].
      destruct (last_row s e t 4 R Et ltac:(lia)) as (row & Er & Ed). rewrite bool_decide_false in Ed by congruence.
      rewrite Er. cbn [mbind result_bind]. rewrite Ed. cbn [negb mbind result_bind]. rewrite Em. cbn [mbind result_bind].
      rewrite Es. cbn [mbind result_bind]. rewrite Hl. exists h. split; [|exact Hh]. rewrite length_drop, length_app, Hl. done.
    + destruct (push_room s e R Hne ltac:(lia)) as (h & Es & Hh). replace (S (length (past e)) - 5)%nat with 0%nat by lia.
      rewrite drop_0, length_app. cbn [length]. exists h. split; [|exact Hh].
      assert (exists d, d = true /\ (if history_count s =? 0 then Ok true
        else last ← aget (cmd_history s) (history_count s - 1); differ last (line s) FINSH_CMD_SIZE) = Ok d) as (d & -> & ->).
      { exists true. split; [done|]. destruct (Z.eqb_spec (history_count s) 0); [done|].
        destruct (last (past e)) as [t|] eqn:Et; [|apply last_None in Et; rewrite Et in Ec; cbn in Ec; lia].
        destruct (last_row s e t (history_count s - 1) R Et ltac:(lia)) as (row & -> & Ed). cbn [mbind result_bind].
        rewrite Ed, bool_decide_false by congruence. done. }
      cbn [mbind result_bind]. rewrite Ec at 1. rewrite Es. cbn [mbind result_bind]. rewrite Ec, u16_small by lia.
      replace (#(past e) + 1) with (Z.of_nat (length (past e) + 1)) by lia. done.
Qed.

(** *** The loop *)

Context (Htable : Forall (fun i => KString.text (name i)) table) (Hprompt : Forall (fun c => c <> PERCENT) prompt).

Lemma format_plain f : Forall (fun c => c <> PERCENT) f -> format f = Ok f.
Proof.
  induction 1 as [|c f Hc Hf IH]; [done|]. cbn [format]. rewrite (proj2 (Z.eqb_neq _ _) Hc), IH. done.
Qed.

Lemma put_prompt_ok s e out : rel s e -> put_prompt s out = Ok (out ++ [Put prompt]).
Proof. intros R. unfold put_prompt. by rewrite (rel_prompt s e R), format_plain. Qed.

Lemma rel_entered s e h :
  rel s e -> history h (push (past e) (text e)) ->
  let p := push (past e) (text e) in
  rel (with_line (with_history s (#p) (#p) h) (replicate 81 0) 0 0) (mk_editor (mode e) [] [] p (length p)).
Proof. intros [] Hh. constructor; try done. apply fits_nil. Qed.

Lemma end_of_line_ok : key_ok (end_of_line table command) Enter.
Proof.
  intros s e e' out R E. apply (inj Some) in E. subst e'. unfold end_of_line.
  destruct (shell_push_history_ok s e R) as (h & -> & Hh). cbn [mbind result_bind].
  destruct (rel_fits s e R) as [Ht Hl]. destruct (padded_string 81 (text e) ltac:(lia)) as [post Ep].
  set (p := push (past e) (text e)) in *. cbn [with_history echo_mode line line_position].
  rewrite (rel_echo s e R), (rel_line s e R), (rel_position s e R), Ep.
  destruct (msh_exec_ok table command [] (text e) post (out ++ [Put [NL]]) Htable Ht) as (l' & Hl' & E).
  cbn [app] in E. change (#([] : list Z)) with 0 in E. rewrite E. cbn [mbind result_bind].
  unfold put_prompt. change (finsh_get_prompt (with_history _ _ _ _)) with (finsh_get_prompt s).
  rewrite (rel_prompt s e R), format_plain by done. cbn [mbind result_bind].
  eexists. split; [cbn [output]; by rewrite <- !app_assoc|].
  assert (length (l' ++ 0 :: post) = 81%nat) as ->.
  { rewrite length_app, Hl', <- length_app, <- Ep. apply length_padded. lia. }
  by apply rel_entered.
Qed.

Lemma ordinary_ok s e ch out k e' :
  rel s e -> 0 <= ch < 256 -> plain ch = Some k -> press table e k = Some e' ->
  exists s', ordinary table command s ch out = Ok (s', out ++ output table command prompt e k) /\ rel s' e'.
Proof.
  intros R Hc Hk. unfold ordinary, plain in *. destruct (_ || _) eqn:E0 in *; [done|].
  repeat case_match; simplify_eq.
  - by apply tab_key_ok.
  - by apply backspace_key_ok.
  - by apply end_of_line_ok.
  - apply (normal_character_ok ch); [|done]. apply orb_false_iff in E0 as [E0 _]. apply Z.eqb_neq in E0. lia.
Qed.
Lemma ordinary_none s ch out : plain ch = None -> ordinary table command s ch out = Ok (s, out).
Proof. unfold ordinary, plain. repeat case_match; done. Qed.

Lemma rel_mode s e m : rel s e -> rel (with_stat s m) (set_mode e m).
Proof. by intros []. Qed.

Lemma key_step act k s e out e' o :
  key_ok act k -> rel s e -> (e1 ← press table e k; Some (e1, output table command prompt e k)) = Some (e', o) ->
  exists s', act s out = Ok (s', out ++ o) /\ rel s' e'.
Proof. intros H R (e1 & Ep & [-> <-]%(inj Some)%pair_equal_spec)%bind_Some. by apply H. Qed.
Lemma left_key_key : key_ok (fun s out => Ok (left_key s out)) Left.
Proof.
  intros s e e' out R E. destruct (left_key_ok s e out R) as (e2 & E2 & Eo & R2).
  assert (e2 = e') as -> by congruence. eexists. split; [|exact R2]. by rewrite <- Eo, <- surjective_pairing.
Qed.
Lemma right_key_key : key_ok right_key Right.
Proof.
  intros s e e' out R E. destruct (right_key_ok s e out R) as (s2 & e2 & E2 & Eo & R2).
  assert (e2 = e') as -> by congruence. eauto.
Qed.

Lemma ordinary_step s e ch out e' o :
  rel s e -> 0 <= ch < 256 ->
  match plain ch with
  | None => Some (set_mode e WAIT_NORMAL, [])
  | Some k => e' ← press table (set_mode e WAIT_NORMAL) k; Some (e', output table command prompt (set_mode e WAIT_NORMAL) k)
  end = Some (e', o) ->
  exists s', ordinary table command (with_stat s WAIT_NORMAL) ch out = Ok (s', out ++ o) /\ rel s' e'.
Proof.
  intros R%(rel_mode _ _ WAIT_NORMAL) Hc. destruct (plain ch) as [k|] eqn:Ek.
  - intros (e1 & Ep & [= <- <-])%bind_Some. by apply (ordinary_ok _ _ ch out k e1).
  - intros [= <- <-]. rewrite ordinary_none, app_nil_r by done. eauto.
Qed.

Lemma finsh_step_ok s e ch out e' o :
  rel s e -> ch < 256 -> feed table command prompt e ch = Some (e', o) ->
  exists s', finsh_step table command s ch out = Ok (s', out ++ o) /\ rel s' e'.
Proof.
  intros R Hc. unfold feed, decode, finsh_step. rewrite (rel_stat s e R).
  assert (forall m, exists s', Ok (with_stat s m, out) = Ok (s', out ++ []) /\ rel s' (set_mode e m)) as Hquiet.
  { intros m. rewrite app_nil_r. eexists. split; [done|by apply rel_mode]. }
  destruct (Z.ltb_spec ch 0). { intros [= <- <-]. destruct e. rewrite app_nil_r. eauto. }
  destruct (Z.eqb_spec ch 0x1b); [by intros [= <- <-]|].
  pose proof (rel_mode s e WAIT_NORMAL R) as Rn. destruct (mode e) eqn:Em.
  - assert (with_stat s WAIT_NORMAL = s) as Es.
    { pose proof (rel_stat s e R) as H1. rewrite Em in H1. destruct s. cbn in H1. by subst. }
    rewrite <- Es. by apply ordinary_step.
  - destruct (ch =? 0x5b); [by intros [= <- <-]|]. by apply ordinary_step.
  - destruct (ch =? 0x41); [by apply (key_step _ _ _ _ _ _ _ up_key_ok)|].
    destruct (ch =? 0x42); [by apply (key_step _ _ _ _ _ _ _ down_key_ok)|].
    destruct (ch =? 0x44); [by apply (key_step _ _ _ _ _ _ _ left_key_key)|].
    destruct (ch =? 0x43); [by apply (key_step _ _ _ _ _ _ _ right_key_key)|].
    by apply ordinary_step.
Qed.

Lemma finsh_run_ok s e input out e' o :
  rel s e -> Forall (fun ch => ch < 256) input -> edit table command prompt e input = Some (e', o) ->
  exists s', finsh_run table command s input out = Ok (s', out ++ o) /\ rel s' e'.
Proof.
  intros R Hin. revert s e out e' o R. induction Hin as [|ch input Hc Hin IH]; intros s e out e' o R; cbn [edit finsh_run].
  - intros [= <- <-]. rewrite app_nil_r. eauto.
  - intros ([e1 o1] & E1 & ([e2 o2] & E2 & [= <- <-])%bind_Some)%bind_Some.
    destruct (finsh_step_ok _ _ _ out _ _ R Hc E1) as (s1 & -> & R1). cbn [mbind result_bind].
    destruct (IH _ _ (out ++ o1) _ _ R1 E2) as (s2 & -> & R2). exists s2. by rewrite <- app_assoc.
Qed.
End Refinement.

(** ** The screen *)

Definition printable (s : str) : Prop := Forall (fun c => SPACE <= c) s.
(** A character that is shown, or one with a function. *)
Definition keyable (ch : Z) : Prop := SPACE <= ch \/ ch < 0 \/ ch ∈ [0; 8; 9; 10; 13; 27].
Definition legible (e : editor) : Prop := printable (text e) /\ Forall printable (past e).

Section Screen.
Context (table : list finsh_syscall) (command : nat -> list str -> Z) (prompt : str).
Context (leave : nat -> list str -> str).
Context (Htable : Forall (fun i => printable (name i)) table) (Hprompt : printable prompt).
Notation term := (term leave).
Notation display := (display leave).
Notation margins := (margins leave).
Implicit Types (l r w : str) (t : screen).

Lemma term_chars l r w : printable w -> foldl term_char (l, r) w = (rev w ++ l, drop (length w) r).
Proof.
  intros Hw. revert l r. induction Hw as [|c w Hc Hw IH]; intros l r; [done|]. cbn [foldl term_char].
  unfold SPACE in Hc. rewrite (proj2 (Z.eqb_neq c BS)), (proj2 (Z.eqb_neq c NL)) by (unfold BS, NL; lia).
  rewrite IH. cbn [rev length]. rewrite <- app_assoc. f_equal. by destruct r; [rewrite drop_nil|].
Qed.
Lemma term_put_printable l r w : printable w -> term_put (l, r) w = (rev w ++ l, drop (length w) r).
Proof.
  intros Hw. unfold term_put. rewrite decide_False; [by apply term_chars|]. intros ->. apply Forall_cons in Hw as [Hw _]. by vm_compute in Hw.
Qed.
Lemma term_back c l r : term (c :: l, r) (Put [BS]) = (l, c :: r).
Proof. done. Qed.
Lemma display_back l r w n : n = length w -> display (rev w ++ l, r) (replicate n (Put [BS])) = (l, w ++ r).
Proof.
  intros ->. revert r. induction w as [|c w IH] using rev_ind; intros r; [done|].
  rewrite length_app, Nat.add_comm, rev_app_distr. cbn [length Nat.add replicate Shell.display foldl rev app].
  rewrite term_back. unfold Shell.display in IH. rewrite IH. by rewrite <- app_assoc.
Qed.

(** What leaves the cursor at the beginning of an empty line. *)
Definition ends (ev : event) : Prop := match ev with Put s => exists u, s = u ++ [NL] | Run _ _ => False end.
Lemma term_ends t m ev : ends ev -> term t ev = ([], []) /\ margin leave m ev = [].
Proof.
  destruct ev as [s|]; [|done]. intros [u ->]. cbn [Shell.term margin]. split; [|rewrite decide_True; [done|set_solver]].
  unfold term_put. rewrite decide_False.
  - rewrite foldl_app. cbn. by destruct (foldl _ _ _).
  - change CLEAR with ([27; 91; 50; 75] ++ [13]). by intros [_ ?]%app_inj_2.
Qed.
Lemma display_ends o : Forall ends o -> display ([], []) o = ([], []) /\ margins [] o = [].
Proof.
  induction 1 as [|ev o H _ IH]; [done|]. unfold Shell.display, Shell.margins in *. cbn [foldl].
  by destruct (term_ends ([], []) [] ev H) as [-> ->].
Qed.

Lemma display_app t o o' : display t (o ++ o') = display (display t o) o'.
Proof. apply foldl_app. Qed.
Lemma margins_app m o o' : margins m (o ++ o') = margins (margins m o) o'.
Proof. apply foldl_app. Qed.
(** Only the last event counts. *)
Lemma display_last t m o ev : ends ev -> display t (o ++ [ev]) = ([], []) /\ margins m (o ++ [ev]) = [].
Proof.
  intros H. rewrite display_app, margins_app. unfold Shell.display, Shell.margins. cbn [foldl]. by apply term_ends.
Qed.

(** Characters that are shown leave the margin alone. *)
Lemma margin_same m s : s <> CLEAR -> NL ∉ s -> margin leave m (Put s) = m.
Proof. intros H H'. cbn [margin]. rewrite decide_False; [done|]. by intros [?|?]. Qed.
Lemma printable_line w : printable w -> w <> CLEAR /\ NL ∉ w.
Proof.
  intros Hw. split; [intros ->; apply Forall_cons in Hw as [Hw _]; by vm_compute in Hw|].
  intros H. apply (proj1 (Forall_forall _ _) Hw) in H. by vm_compute in H.
Qed.
Lemma margin_printable m w : printable w -> margin leave m (Put w) = m.
Proof. intros Hw. by apply margin_same; apply printable_line. Qed.
Lemma margins_back m n : margins m (replicate n (Put [BS])) = m.
Proof.
  induction n as [|n IH]; [done|]. unfold Shell.margins in *. cbn [replicate foldl]. rewrite margin_same; [done|done|].
  by intros ?%list_elem_of_singleton.
Qed.

Lemma display_complete l : display ([], []) (snd (spec_complete table l)) = ([], []) /\ margins [] (snd (spec_complete table l)) = [].
Proof.
  unfold spec_complete. destruct l as [|c l]; cbn [snd].
  - unfold msh_help. rewrite app_assoc. apply display_last. by exists [].
  - apply display_ends, Forall_map, Forall_true. intros w. by eexists.
Qed.
Lemma display_exec l :
  exists m, display ([], []) (snd (spec_exec table command l)) = (rev m, []) /\ margins [] (snd (spec_exec table command l)) = m.
Proof.
  unfold spec_exec. destruct (skip_blanks l) as [|c k]; [by exists []|]. destruct (lookup _ _) as [f|].
  - destruct (tokens _ _) as [ts r]. exists (leave f ts). cbn [snd]. by rewrite display_app, margins_app.
  - exists []. cbn [snd]. apply (display_last _ _ []). exists (before_space (c :: k) ++ removelast not_found). by rewrite <- app_assoc.
Qed.

Lemma display_shown t m e :
  printable (text e) -> after e = [] -> displays prompt (margins m (shown prompt e)) (display t (shown prompt e)) e.
Proof.
  intros Ht Ha. exists 0%nat. unfold shown, text, Shell.margins in *. rewrite Ha, app_nil_r in *. cbn [Shell.display foldl Shell.term].
  assert (margin leave m (Put CLEAR) = []) as -> by (cbn [margin]; rewrite decide_True; [done|by left]).
  assert (printable (prompt ++ rev (before e))) as Hp by by apply Forall_app.
  rewrite margin_printable by done.
  assert (term_put t CLEAR = ([], [])) as -> by (unfold term_put; by rewrite decide_True).
  rewrite term_put_printable by done. by rewrite rev_app_distr, rev_involutive, drop_nil, !app_nil_r.
Qed.

Lemma legible_mode e m : legible e -> legible (set_mode e m).
Proof. done. Qed.
Lemma legible_recall e i : legible e -> legible (recall e i).
Proof.
  intros [Ht Hp]. split; [|done]. unfold recall, text. cbn [before after]. rewrite rev_involutive, app_nil_r.
  destruct (past e !! i) as [t|] eqn:Et; [|by constructor]. by apply (Forall_lookup_1 _ _ _ _ Hp Et).
Qed.
Lemma legible_push p (u : str) : Forall printable p -> printable u -> Forall printable (push p u).
Proof.
  intros Hp Ht. unfold push. destruct (decide _); [done|]. apply Forall_drop, Forall_app. split; [done|by apply Forall_singleton].
Qed.

Lemma legible_press e k e' :
  legible e -> match k with Char c => SPACE <= c | _ => True end -> press table e k = Some e' -> legible e'.
Proof.
  intros He Hk. destruct k; cbn [press]; try (intros [= <-]).
  - destruct (recalled e); [done|by apply legible_recall].
  - destruct (past e) eqn:Ep; [done|]. rewrite <- Ep. by apply legible_recall.
  - destruct He as [Ht Hp]. destruct (before e) as [|c b] eqn:Eb; [done|]. split; [|done]. unfold text in *. by rewrite Eb, text_before in Ht.
  - destruct He as [Ht Hp]. destruct (after e) as [|c b] eqn:Eb; [done|]. split; [|done]. unfold text in *. cbn [before after]. by rewrite text_before, <- Eb.
  - destruct (decide _); [|done]. intros [= <-]. destruct He as [Ht Hp]. split; [|done]. unfold text at 1. cbn [before after].
    rewrite rev_involutive, app_nil_r. by apply spec_complete_forall.
  - destruct He as [Ht Hp]. destruct (before e) as [|c b] eqn:Eb; [done|]. split; [|done]. unfold text in *. cbn [before after].
    rewrite Eb, text_before in Ht. unfold printable in *. rewrite !Forall_app, Forall_cons in *. naive_solver.
  - destruct He as [Ht Hp]. split; [by constructor|]. by apply legible_push.
  - destruct (decide _); [|done]. intros [= <-]. destruct He as [Ht Hp]. split; [|done]. unfold text in *. cbn [before after].
    rewrite text_before. unfold printable in *. rewrite !Forall_app, Forall_cons in *. naive_solver.
Qed.

(** A line with the prompt. *)
Lemma display_prompt m w :
  printable w -> display (rev m, []) [Put (prompt ++ w)] = (rev w ++ rev prompt ++ rev m, []) /\ margins m [Put (prompt ++ w)] = m.
Proof.
  intros Hw. assert (printable (prompt ++ w)) by by apply Forall_app. split.
  - cbn [Shell.display foldl Shell.term]. rewrite term_put_printable by done. by rewrite rev_app_distr, drop_nil, app_assoc.
  - by apply margin_printable.
Qed.

Lemma drop_spaces n m : drop n (replicate m SPACE) = replicate (m - n) SPACE.
Proof. apply drop_replicate. Qed.

(** A character in the text, and one out of it. *)
Lemma display_insert l a c n :
  SPACE <= c -> printable a ->
  exists m, display (l, a ++ replicate n SPACE) (Put (c :: a) :: replicate (length a) (Put [BS])) = (c :: l, a ++ replicate m SPACE).
Proof.
  intros Hc Ha. cbn [Shell.display foldl Shell.term]. rewrite term_put_printable by by constructor. cbn [rev]. rewrite <- app_assoc. cbn [app length].
  exists (n - 1)%nat. pose proof (display_back (c :: l) (replicate (n - 1) SPACE) a _ eq_refl) as E. unfold Shell.display in E.
  rewrite <- E. f_equal. f_equal. rewrite drop_app_ge by lia. rewrite drop_spaces. f_equal. lia.
Qed.
Lemma display_delete l c n :
  display (c :: l, replicate n SPACE) [Put [BS; SPACE; BS]] = (l, replicate (S n) SPACE).
Proof. by destruct n. Qed.
Lemma display_delete_middle l a c n :
  printable a -> a <> [] ->
  exists m, display (c :: l, a ++ replicate n SPACE)
    (Put ([BS] ++ a ++ [SPACE; SPACE; BS]) :: replicate (S (length a)) (Put [BS])) = (l, a ++ replicate m SPACE).
Proof.
  intros Ha Hne. exists (S (S (n - 1))). cbn [Shell.display foldl Shell.term].
  assert (term_put (c :: l, a ++ replicate n SPACE) ([BS] ++ a ++ [SPACE; SPACE; BS]) =
    (rev (a ++ [SPACE]) ++ l, SPACE :: replicate (n - 1) SPACE)) as ->.
  { unfold term_put. rewrite decide_False by (by destruct a). rewrite !foldl_app. cbn [foldl]. 
    change (term_char (c :: l, a ++ replicate n SPACE) BS) with (l, c :: a ++ replicate n SPACE). rewrite term_chars by done.
    rewrite rev_app_distr. cbn [rev app].
    assert (exists x, drop (length a) (c :: a ++ replicate n SPACE) = x :: replicate n SPACE) as [x ->]; [|destruct n as [|n]; [done|]; cbn; by rewrite Nat.sub_0_r].
    clear Ha Hne. revert c. induction a as [|d a IH]; intros c; [by exists c|]. apply IH. }
  pose proof (display_back l (SPACE :: replicate (n - 1) SPACE) (a ++ [SPACE]) (S (length a))) as E.
  rewrite length_app in E. unfold Shell.display in E. rewrite E by (cbn; lia). by rewrite <- app_assoc.
Qed.

Lemma margins_cons m w n :
  printable w -> margins m (Put w :: replicate n (Put [BS])) = m.
Proof. intros Hw. change (margins (margin leave m (Put w)) (replicate n (Put [BS])) = m). rewrite margin_printable by done. apply margins_back. Qed.
Lemma margins_delete m a n :
  printable a -> margins m (Put ([BS] ++ a ++ [SPACE; SPACE; BS]) :: replicate n (Put [BS])) = m.
Proof.
  intros Ha. change (margins (margin leave m (Put ([BS] ++ a ++ [SPACE; SPACE; BS]))) (replicate n (Put [BS])) = m).
  rewrite margin_same; [apply margins_back|done|]. apply printable_line in Ha as [_ Ha].
  rewrite !not_elem_of_app. split_and!; [by apply (bool_decide_unpack _)|done|by apply (bool_decide_unpack _)].
Qed.

(** A key on the line. *)
Lemma display_enter t m l :
  displays prompt (margins m ([Put [NL]] ++ snd (spec_exec table command l) ++ [Put prompt]))
    (display t ([Put [NL]] ++ snd (spec_exec table command l) ++ [Put prompt])) (mk_editor WAIT_NORMAL [] [] [] 0).
Proof.
  exists 0%nat. cbn [before after]. rewrite !display_app, !margins_app.
  destruct (term_ends t m (Put [NL]) ltac:(by exists [])) as [E E'].
  change (display t [Put [NL]]) with (term t (Put [NL])). change (margins m [Put [NL]]) with (margin leave m (Put [NL])).
  rewrite E, E'. destruct (display_exec l) as (m' & -> & ->).
  destruct (display_prompt m' [] ltac:(by constructor)) as [Ed Em]. rewrite app_nil_r in Ed, Em. by rewrite Ed, Em.
Qed.
Lemma display_tab t m l b :
  printable l ->
  displays prompt (margins m (replicate b (Put [BS]) ++ [Put [NL]] ++ snd (spec_complete table l) ++ [Put (prompt ++ fst (spec_complete table l))]))
    (display t (replicate b (Put [BS]) ++ [Put [NL]] ++ snd (spec_complete table l) ++ [Put (prompt ++ fst (spec_complete table l))]))
    (mk_editor WAIT_NORMAL (rev (fst (spec_complete table l))) [] [] 0).
Proof.
  intros Hl. exists 0%nat. cbn [before after]. rewrite !display_app, !margins_app.
  set (t' := display t _). set (m' := margins m _).
  destruct (term_ends t' m' (Put [NL]) ltac:(by exists [])) as [E E'].
  change (display t' [Put [NL]]) with (term t' (Put [NL])). change (margins m' [Put [NL]]) with (margin leave m' (Put [NL])).
  rewrite E, E'. destruct (display_complete l) as (-> & ->).
  destruct (display_prompt [] (fst (spec_complete table l)) ltac:(by apply spec_complete_forall)) as [Ed Em].
  change ([] : str) with (rev [] : str) at 1. by rewrite Ed, Em.
Qed.

Lemma display_press t m e k e' :
  legible e -> match k with Char c => SPACE <= c | _ => True end -> displays prompt m t e -> press table e k = Some e' ->
  displays prompt (margins m (output table command prompt e k)) (display t (output table command prompt e k)) e'.
Proof.
  intros He Hk [n ->]. pose proof He as [Ht Hp].
  assert (printable (rev (before e)) /\ printable (after e)) as [Hb Ha] by (by apply Forall_app).
  destruct k; cbn [press output]; try (intros [= <-]).
  - destruct (recalled e); [by exists n|]. apply display_shown; [|done]. by apply legible_recall.
  - destruct (past e) eqn:Ep; [by exists n|]. rewrite <- Ep. apply display_shown; [|done]. by apply legible_recall.
  - destruct (before e) as [|c b] eqn:Eb; [exists n; by rewrite Eb|]. exists n. change (margins m [Put [BS]]) with (margins m (replicate 1 (Put [BS]))). by rewrite margins_back.
  - destruct (after e) as [|c a] eqn:Ea; [exists n; by rewrite Ea|]. apply Forall_cons in Ha as [Hc _]. exists n.
    change (margins m [Put [c]]) with (margins m (Put [c] :: replicate 0 (Put [BS]))).
    rewrite margins_cons by by apply Forall_singleton.
    cbn [Shell.display foldl Shell.term]. by rewrite term_put_printable by by apply Forall_singleton.
  - destruct (decide _); [|done]. intros [= <-]. by apply display_tab.
  - destruct (before e) as [|c b] eqn:Eb; [exists n; by rewrite Eb|]. cbn [app]. unfold displays. cbn [before after].
    destruct (after e) as [|d a] eqn:Ea.
    + exists (S n). change (margins m [Put [BS; SPACE; BS]]) with (margin leave m (Put [BS; SPACE; BS])).
      rewrite margin_same; [apply display_delete|done|by apply (bool_decide_unpack _)].
    + pose proof (margins_delete m (d :: a) (S (length (d :: a))) Ha) as Em.
      destruct (display_delete_middle (b ++ rev prompt ++ rev m) (d :: a) c n Ha ltac:(done)) as [x Ex]. exists x.
      cbn [app length] in Em, Ex |- *. by rewrite Em.
  - by apply display_enter.
  - destruct (decide _); [|done]. intros [= <-]. unfold displays. cbn [before after app].
    rewrite margins_cons by by constructor. by apply display_insert.
Qed.

Lemma decode_char m ch m' c : keyable ch -> decode m ch = (m', Some (Char c)) -> SPACE <= c.
Proof.
  intros Hk. assert (forall c, ch <> 27 -> 0 <= ch -> plain ch = Some (Char c) -> SPACE <= c) as Hp.
  { intros c0 H27 Hge. unfold plain. repeat case_match; intros [= <-].
    destruct Hk as [?|[?|Hk]]; [done|lia|]. rewrite !orb_false_iff, ?Z.eqb_neq in *. unfold TAB in *. set_solver by lia. }
  unfold decode. repeat case_match; try (by intros [=]); intros [= _ E]; apply Hp; done || lia.
Qed.

Lemma display_feed t m e ch e' o :
  legible e -> keyable ch -> displays prompt m t e -> feed table command prompt e ch = Some (e', o) ->
  displays prompt (margins m o) (display t o) e' /\ legible e'.
Proof.
  intros He Hk Hd. unfold feed. destruct (decode (mode e) ch) as [md k] eqn:Ed.
  assert (displays prompt m t (set_mode e md)) as Hd' by exact Hd. assert (legible (set_mode e md)) as He' by exact He.
  destruct k as [k|]; [|by intros [= <- <-]]. intros (e1 & Ep & [-> <-]%(inj Some)%pair_equal_spec)%bind_Some.
  assert (match k with Char c => SPACE <= c | _ => True end) as Hc by (destruct k; try done; by eapply decode_char).
  split; [by apply display_press|by eapply legible_press].
Qed.
Lemma display_edit t m e input e' o :
  legible e -> Forall keyable input -> displays prompt m t e -> edit table command prompt e input = Some (e', o) ->
  displays prompt (margins m o) (display t o) e'.
Proof.
  intros He Hin. revert t m e e' o He. induction Hin as [|ch input Hk Hin IH]; intros t m e e' o He Hd; cbn [edit].
  - by intros [= <- <-].
  - intros ([e1 o1] & E1 & ([e2 o2] & E2 & [= <- <-])%bind_Some)%bind_Some.
    destruct (display_feed _ _ _ _ _ _ He Hk Hd E1) as [Hd1 He1]. rewrite display_app, margins_app. by apply (IH _ _ e1).
Qed.
End Screen.

(** ** The thread *)

Definition new_editor : editor := mk_editor WAIT_NORMAL [] [] [] 0.

Section Start.
Context (table : list finsh_syscall) (command : nat -> list str -> Z) (custom : option str) (stored : bool).
Context (Htable : Forall (fun i => KString.text (name i)) table).
Notation s0 := (finsh_set_prompt initial_shell custom stored).
Context (Hprompt : Forall (fun c => c <> PERCENT) (finsh_get_prompt s0)).

Lemma rel_start : rel (finsh_get_prompt s0) (with_echo s0 true) new_editor.
Proof.
  constructor; try done; [apply fits_nil|]. split; [done|]. split; [by constructor|].
  exists (replicate 5 (replicate 80 0)). split; [done|]. by repeat constructor.
Qed.

Lemma thread_ok input e o :
  Forall (fun ch => ch < 256) input -> edit table command (finsh_get_prompt s0) new_editor input = Some (e, o) ->
  exists s, finsh_thread_entry table command s0 input = Ok (s, Put (finsh_get_prompt s0) :: o) /\ rel (finsh_get_prompt s0) s e.
Proof.
  intros Hin E. unfold finsh_thread_entry. pose proof rel_start as R.
  rewrite (put_prompt_ok _ Hprompt _ _ [] R). cbn [mbind result_bind].
  exact (finsh_run_ok table command _ Htable Hprompt _ _ _ [Put (finsh_get_prompt s0)] _ _ R Hin E).
Qed.
End Start.

(** C36: The shell is the line editor: for all characters typed on which the editor
    is defined (the line never gets as long as the buffer), the thread reads them without a
    fault, its line is the text of the editor, its position the cursor, its history the
    last lines entered, and it prints and runs exactly what the editor does. *)
Theorem shell_refines_editor table command custom stored input e o :
  let s0 := finsh_set_prompt initial_shell custom stored in
  Forall (fun i => KString.text (name i)) table -> Forall (fun c => c <> PERCENT) (finsh_get_prompt s0) ->
  Forall (fun ch => ch < 256) input -> edit table command (finsh_get_prompt s0) new_editor input = Some (e, o) ->
  exists s, finsh_thread_entry table command s0 input = Ok (s, Put (finsh_get_prompt s0) :: o) /\
    line s = padded 81 (text e) /\ line_curpos s = #(before e) /\ line_position s = #(text e) /\
    history (cmd_history s) (past e) /\ history_count s = #(past e) /\ (length (past e) <= 5)%nat.
Proof.
  intros s0 Ht Hp Hin E. destruct (thread_ok table command custom stored Ht Hp input e o Hin E) as (s & Es & R).
  exists s. split; [exact Es|]. pose proof (rel_past _ _ _ R). by destruct R.
Qed.

(** A session: ps b, left, a, enter, up, backspace. *)
Definition sample_table : list finsh_syscall := [mk_syscall [104; 101; 108; 112] [] 0; mk_syscall [112; 115] [] 1].
Definition sample_input : list Z := [112; 115; 32; 98; 27; 91; 68; 97; 13; 27; 91; 65; 8].
Definition sample_editor : editor := mk_editor WAIT_NORMAL [97; 32; 115; 112] [] [[112; 115; 32; 97; 98]] 0.
Definition sample_output : list event :=
  [Put [112]; Put [115]; Put [32]; Put [98]; Put [8]; Put [97; 98]; Put [8]; Put [10];
   Run 1 [[112; 115]; [97; 98]]; Put default_prompt; Put CLEAR; Put (default_prompt ++ [112; 115; 32; 97; 98]); Put [8; 32; 8]].

Lemma shell_refines_editor_witness :
  let command := fun (_ : nat) (_ : list str) => 0 in
  exists s, finsh_thread_entry sample_table command initial_shell sample_input = Ok (s, Put default_prompt :: sample_output) /\
    line s = padded 81 [112; 115; 32; 97] /\ line_curpos s = 4 /\ line_position s = 4 /\
    history (cmd_history s) [[112; 115; 32; 97; 98]] /\ history_count s = 1 /\ (1 <= 5)%nat.
Proof.
  cbv zeta. apply (shell_refines_editor sample_table (fun _ _ => 0) None true sample_input sample_editor sample_output).
  - apply (bool_decide_unpack (Forall (fun i => Forall (fun c => 0 < c < 256) (name i)) _)). by vm_compute.
  - apply (bool_decide_unpack (Forall (fun c => c <> PERCENT) _)). by vm_compute.
  - apply (bool_decide_unpack (Forall (fun c => c < 256) _)). by vm_compute.
  - vm_compute. reflexivity.
Defined.


(** The command ps leaves ok on its last line: the prompt comes behind it. *)
Definition sample_leave (f : nat) (argv : list str) : str := if decide (f = 1%nat) then [111; 107] else [].

(** ** Lines as long as the buffer *)

(** The 80th character ends the line, but its bytes stay: the next command gets them
    behind its argument. *)
Example large_line_leftover :
  exists s, finsh_thread_entry sample_table (fun _ _ => 0) initial_shell (replicate 80 120 ++ [112; 115; 32; 97; 13]) =
    Ok (s, [Put default_prompt] ++ map (fun c => Put [c]) (replicate 80 120 ++ [112; 115; 32; 97; 10]) ++
           [Run 1 [[112; 115]; 97 :: replicate 76 120]; Put default_prompt]).
Proof. eexists. vm_compute. reflexivity. Qed.

(** With Tab the position is that of these bytes; one character and two backspaces
    later it is 65535, and the bytes after the line are moved. *)
Example large_line_overrun :
  finsh_thread_entry sample_table (fun _ _ => 0) initial_shell (replicate 80 120 ++ [9; 112; 8; 8]) = Fault OutOfBounds.
Proof. vm_compute. reflexivity. Qed.

(** The modes have one bit. *)
Example modes_one_bit :
  finsh_get_prompt_mode (finsh_set_prompt_mode initial_shell 2) = 0 /\
  finsh_get_echo (finsh_set_echo initial_shell 3) = 1.
Proof. done. Qed.
(** A prompt of 5%s is a format without its argument. *)
Example prompt_is_a_format :
  put_prompt (finsh_set_prompt initial_shell (Some [53; 37; 115]) true) [] = Fault OutOfBounds.
Proof. done. Qed.
End Shell.
