(* ===== verification/I2c.v ===== *)
(** * The bit-banged I2C bus (rt-thread/components/drivers/i2c)

    Messages on two lines that the processor and a device share: start and stop
    conditions, bytes with their acknowledgements, addresses with retries, and whole
    transfers (i2c-bit-ops.c, i2c_core.c).

    The functions on bytes and messages use the bus through the operations [prims];
    [bit_prims] are the code's own, on the lines; [byte_prims] are those of a bus on
    which bytes travel whole.  A device of any behaviour, which may hold the clock
    back, is replayed on the history of the lines.  The theorems: a transfer on the lines is the transfer of
    whole bytes, and what is written into registers is read back. *)

From S2P Require Import Prelude.

Module I2c.

(** What happens on the lines, and the time that passes. *)
Inductive ev := Sda (v : Z) | Scl (v : Z) | Udelay (us : Z) | Sleep (ticks : Z).

(** The history, newest first, and the tick of the system. *)
Record i2c := mk_i2c { hist : list ev; tick : Z }.

(** [get_sda] and [get_scl] read the lines after a history; a bus need not be able
    to read the clock. *)
Record rt_i2c_bit_ops := mk_ops {
  get_sda : list ev -> bool;
  get_scl : option (list ev -> bool);
  delay_us : Z;
  timeout : Z
}.

Record rt_i2c_msg := mk_msg { addr : Z; flags : Z; len : Z; buf : list Z }.

Definition RT_EOK : Z := 0.
Definition RT_ERROR : Z := 1.
Definition RT_ETIMEOUT : Z := 2.
Definition RT_EIO : Z := 8.

Definition RT_I2C_RD (flags : Z) : bool := Z.testbit flags 0.
Definition RT_I2C_ADDR_10BIT (flags : Z) : bool := Z.testbit flags 2.
Definition RT_I2C_NO_START (flags : Z) : bool := Z.testbit flags 4.
Definition RT_I2C_IGNORE_NACK (flags : Z) : bool := Z.testbit flags 5.
Definition RT_I2C_NO_READ_ACK (flags : Z) : bool := Z.testbit flags 6.
Definition RT_I2C_NO_STOP (flags : Z) : bool := Z.testbit flags 7.

(** ** The lines *)

Section Bits.
Context (ops : rt_i2c_bit_ops).
Implicit Types (s : i2c).

Definition emit (e : ev) s : i2c := mk_i2c (e :: hist s) (tick s).
Definition SET_SDA (v : Z) s : i2c := emit (Sda v) s.
Definition SET_SCL (v : Z) s : i2c := emit (Scl v) s.
Definition GET_SDA s : bool := get_sda ops (hist s).
Definition SDA_L s : i2c := SET_SDA 0 s.
Definition SDA_H s : i2c := SET_SDA 1 s.
Definition SCL_L s : i2c := SET_SCL 0 s.
Definition i2c_delay s : i2c := emit (Udelay (Z.shiftr (u32 (delay_us ops + 1)) 1)) s.
Definition i2c_delay2 s : i2c := emit (Udelay (delay_us ops)) s.

(** [rt_thread_delay], after which the time has come. *)
Definition rt_thread_delay (n : Z) s : i2c := mk_i2c (Sleep n :: hist s) (u32 (tick s + n)).

(** Whether the clock goes high before the time is over. *)
Fixpoint wait_scl (fuel : nat) (get : list ev -> bool) (start : Z) s : result (bool * i2c) :=
  match fuel with
  | O => Fault OutOfFuel
  | S fuel =>
      if get (hist s) then Ok (true, s)
      else if timeout ops <? u32 (tick s - start) then Ok (false, s)
      else wait_scl fuel get start (rt_thread_delay (Z.shiftr (u32 (timeout ops + 1)) 1) s)
  end.
(** Two waits of half the time, and one for the rounding. *)
Definition SCL_FUEL : nat := 4.
Definition SCL_H s : result (Z * i2c) :=
  let s := SET_SCL 1 s in
  '(high, s) ← (match get_scl ops with
                | None => Ok (true, s)
                | Some get => wait_scl SCL_FUEL get (tick s) s
                end);
  if high : bool then Ok (RT_EOK, i2c_delay s) else Ok (- RT_ETIMEOUT, s).

Definition i2c_start s : i2c := SCL_L (i2c_delay (SDA_L s)).
Definition i2c_restart s : result i2c :=
  '(_, s) ← SCL_H (SDA_H s);
  Ok (SCL_L (i2c_delay (SDA_L (i2c_delay s)))).
Definition i2c_stop s : result i2c :=
  '(_, s) ← SCL_H (i2c_delay (SDA_L s));
  Ok (i2c_delay2 (SDA_H (i2c_delay s))).

Definition i2c_waitack s : result (Z * i2c) :=
  '(r, s) ← SCL_H (i2c_delay (SDA_H s));
  if r <? 0 then Ok (- RT_ETIMEOUT, s)
  else
    let ack := negb (GET_SDA s) in
    Ok (Z.b2z ack, SCL_L s).

(** The bits below [n], the highest first. *)
Fixpoint writeb_loop (n : nat) (data : Z) s : result (Z * i2c) :=
  match n with
  | O => Ok (RT_EOK, s)
  | S n =>
      let bit := Z.land (Z.shiftr data (Z.of_nat n)) 1 in
      '(r, s) ← SCL_H (i2c_delay (SET_SDA bit (SCL_L s)));
      if r <? 0 then Ok (- RT_ETIMEOUT, s) else writeb_loop n data s
  end.
Definition i2c_writeb (data : Z) s : result (Z * i2c) :=
  '(r, s) ← writeb_loop 8 (u8 data) s;
  if r <? 0 then Ok (r, s) else i2c_waitack (i2c_delay (SCL_L s)).

Fixpoint readb_loop (n : nat) (data : Z) s : result (Z * i2c) :=
  match n with
  | O => Ok (data, s)
  | S n =>
      let data := u8 (Z.shiftl data 1) in
      '(r, s) ← SCL_H s;
      if r <? 0 then Ok (- RT_ETIMEOUT, s)
      else
        let data := if GET_SDA s then Z.lor data 1 else data in
        readb_loop n data (i2c_delay2 (SCL_L s))
  end.
Definition i2c_readb s : result (Z * i2c) := readb_loop 8 0 (i2c_delay (SDA_H s)).

Definition i2c_send_ack_or_nack (ack : Z) s : result (Z * i2c) :=
  let s := if negb (ack =? 0) then SET_SDA 0 s else s in
  '(r, s) ← SCL_H (i2c_delay s);
  if r <? 0 then Ok (- RT_ETIMEOUT, s) else Ok (RT_EOK, SCL_L s).
End Bits.

(** ** Bytes and messages *)

(** What the functions on bytes use of the bus. *)
Record prims (W : Type) := mk_prims {
  p_start : W -> result W;
  p_restart : W -> result W;
  p_stop : W -> result W;
  p_delay2 : W -> W;
  p_writeb : Z -> W -> result (Z * W);
  p_readb : W -> result (Z * W);
  p_ack : Z -> W -> result (Z * W)
}.
Arguments p_start {W}. Arguments p_restart {W}. Arguments p_stop {W}. Arguments p_delay2 {W}.
Arguments p_writeb {W}. Arguments p_readb {W}. Arguments p_ack {W}.

Definition bit_prims (ops : rt_i2c_bit_ops) : prims i2c :=
  mk_prims i2c (fun s => Ok (i2c_start ops s)) (i2c_restart ops) (i2c_stop ops) (i2c_delay2 ops)
    (i2c_writeb ops) (i2c_readb ops) (i2c_send_ack_or_nack ops).

Section Bytes.
Context {W : Type} (P : prims W) (retries : Z).
Implicit Types (s : W).

(** The result, a [rt_size_t]; [i] bytes are sent. *)
Fixpoint send_loop (count : nat) (i : Z) (ptr : list Z) (ignore_nack : bool) s : result (Z * W) :=
  match count with
  | O => Ok (i, s)
  | S count =>
      b ← aget ptr i;
      '(ret, s) ← p_writeb P b s;
      if (0 <? ret) || (ignore_nack && (ret =? 0)) then send_loop count (i + 1) ptr ignore_nack s
      else if ret =? 0 then Ok (0, s) else Ok (u32 ret, s)
  end.
Definition i2c_send_bytes (msg : rt_i2c_msg) s : result (Z * W) :=
  send_loop (Z.to_nat (len msg)) 0 (buf msg) (RT_I2C_IGNORE_NACK (flags msg)) s.

(** The result, the buffer; [i] bytes have come. *)
Fixpoint recv_loop (count : nat) (i : Z) (flags : Z) (ptr : list Z) s : result (Z * list Z * W) :=
  match count with
  | O => Ok (i, ptr, s)
  | S count =>
      '(val, s) ← p_readb P s;
      if 0 <=? val then
        ptr ← aset ptr i (u8 val);
        if negb (RT_I2C_NO_READ_ACK flags) then
          '(val, s) ← p_ack P (Z.of_nat count) s;
          if val <? 0 then Ok (u32 val, ptr, s) else recv_loop count (i + 1) flags ptr s
        else recv_loop count (i + 1) flags ptr s
      else Ok (i, ptr, s)
  end.
Definition i2c_recv_bytes (msg : rt_i2c_msg) s : result (Z * rt_i2c_msg * W) :=
  '(ret, b, s) ← recv_loop (Z.to_nat (len msg)) 0 (flags msg) (buf msg) s;
  Ok (ret, mk_msg (addr msg) (flags msg) (len msg) b, s).

(** [n] rounds are left. *)
Fixpoint address_loop (n : nat) (ret : Z) (addr : Z) s : result (Z * W) :=
  match n with
  | O => Ok (ret, s)
  | S n =>
      '(ret, s) ← p_writeb P addr s;
      if (ret =? 1) || (n =? 0)%nat then Ok (ret, s)
      else
        s ← p_stop P s;
        s ← p_start P (p_delay2 P s);
        address_loop n ret addr s
  end.
Definition i2c_send_address (addr : Z) (retries : Z) s : result (Z * W) :=
  address_loop (Z.to_nat (retries + 1)) 0 addr s.

Definition i2c_bit_send_address (msg : rt_i2c_msg) s : result (Z * W) :=
  let ignore_nack := RT_I2C_IGNORE_NACK (flags msg) in
  let retries := if ignore_nack then 0 else i32 retries in
  if RT_I2C_ADDR_10BIT (flags msg) then
    let addr1 := Z.lor 0xf0 (Z.land (Z.shiftr (addr msg) 7) 0x06) in
    let addr2 := Z.land (addr msg) 0xff in
    '(ret, s) ← i2c_send_address addr1 retries s;
    if negb (ret =? 1) && negb ignore_nack then Ok (- RT_EIO, s)
    else
      '(ret, s) ← p_writeb P addr2 s;
      if negb (ret =? 1) && negb ignore_nack then Ok (- RT_EIO, s)
      else if RT_I2C_RD (flags msg) then
        s ← p_restart P s;
        '(ret, s) ← i2c_send_address (Z.lor addr1 0x01) retries s;
        if negb (ret =? 1) && negb ignore_nack then Ok (- RT_EIO, s) else Ok (RT_EOK, s)
      else Ok (RT_EOK, s)
  else
    let addr1 := u8 (Z.shiftl (addr msg) 1) in
    let addr1 := if RT_I2C_RD (flags msg) then Z.lor addr1 1 else addr1 in
    '(ret, s) ← i2c_send_address addr1 retries s;
    if negb (ret =? 1) && negb ignore_nack then Ok (- RT_EIO, s) else Ok (RT_EOK, s).

(** One message: the error with which the transfer ends, or the message done. *)
Definition xfer_msg (i : Z) (msg : rt_i2c_msg) s : result (option Z * rt_i2c_msg * W) :=
  '(failed, s) ← (if negb (RT_I2C_NO_START (flags msg)) then
                    s ← (if negb (i =? 0) then p_restart P s else p_start P s);
                    '(ret, s) ← i2c_bit_send_address msg s;
                    Ok (if negb (ret =? RT_EOK) && negb (RT_I2C_IGNORE_NACK (flags msg)) then Some ret else None, s)
                  else Ok (None, s));
  match failed with
  | Some ret => Ok (Some ret, msg, s)
  | None =>
      if RT_I2C_RD (flags msg) then
        '(ret, msg, s) ← i2c_recv_bytes msg s;
        let ret := i32 ret in
        Ok (if ret <? len msg then Some (if 0 <=? ret then - RT_EIO else ret) else None, msg, s)
      else
        '(ret, s) ← i2c_send_bytes msg s;
        let ret := i32 ret in
        Ok (if ret <? len msg then Some (if 0 <=? ret then - RT_ERROR else ret) else None, msg, s)
  end.

(** The messages from number [i] on; the flags of the last one that was touched. *)
Fixpoint xfer_loop (i : Z) (last : Z) (msgs : list rt_i2c_msg) s : result (Z * list rt_i2c_msg * Z * W) :=
  match msgs with
  | [] => Ok (i, [], last, s)
  | msg :: msgs =>
      '(failed, msg, s) ← xfer_msg i msg s;
      match failed with
      | Some ret => Ok (ret, msg :: msgs, flags msg, s)
      | None => '(ret, msgs, last, s) ← xfer_loop (i + 1) (flags msg) msgs s; Ok (ret, msg :: msgs, last, s)
      end
  end.
Definition i2c_bit_xfer (msgs : list rt_i2c_msg) s : result (Z * list rt_i2c_msg * W) :=
  match msgs with
  | [] => Ok (0, [], s)
  | _ =>
      '(ret, msgs, last, s) ← xfer_loop 0 0 msgs s;
      s ← (if negb (RT_I2C_NO_STOP last) then p_stop P s else Ok s);
      Ok (u32 ret, msgs, s)
  end.

(** The transfer holds the mutex of the bus, which Ipc models. *)
Definition rt_i2c_transfer (msgs : list rt_i2c_msg) s : result (Z * list rt_i2c_msg * W) := i2c_bit_xfer msgs s.
Definition rt_i2c_master_send (addr flags : Z) (b : list Z) (count : Z) s : result (Z * W) :=
  '(ret, _, s) ← rt_i2c_transfer [mk_msg addr flags (u16 count) b] s;
  let ret := i32 ret in
  Ok (if 0 <? ret then count else u32 ret, s).
Definition rt_i2c_master_recv (addr flags : Z) (b : list Z) (count : Z) s : result (Z * list Z * W) :=
  '(ret, msgs, s) ← rt_i2c_transfer [mk_msg addr (Z.lor flags 1) (u16 count) b] s;
  let ret := i32 ret in
  Ok (if 0 <? ret then count else u32 ret, default b (buf <$> head msgs), s).
End Bytes.

(** ** The device *)

(** A device of the bus: what a start, a stop, its address and a byte do to its state,
    whether it acknowledges, the next byte it sends, and for how many looks at the
    clock it holds it down. *)
Record slave (S : Type) := mk_slave {
  on_start : S -> S;
  on_stop : S -> S;
  on_address : Z -> S -> bool * S;
  on_byte : Z -> S -> bool * S;
  next_byte : S -> Z * S;
  stretch : nat -> nat
}.
Arguments on_start {S}. Arguments on_stop {S}. Arguments on_address {S}. Arguments on_byte {S}.
Arguments next_byte {S}. Arguments stretch {S}.

(** Receiving [n] bits of a byte (of an address); acknowledging; sending from bit [n]
    on; waiting for an acknowledgement and having seen it. *)
Inductive phase := Quiet | Rx (address : bool) (n : nat) (byte : Z) | Ack (talk : bool) | Tx (byte : Z) (n : nat)
  | AckIn | AckSeen (more : bool).

(** The levels that the processor wants, the level of the clock, the looks left, the
    clocks so far, the level that the device wants for the data. *)
Record wire (S : Type) := mk_wire {
  m_sda : bool; m_scl : bool; scl : bool; hold : nat; clock : nat; out : bool; ph : phase; st : S
}.
Arguments mk_wire {S}. Arguments m_sda {S}. Arguments m_scl {S}. Arguments scl {S}. Arguments hold {S}.
Arguments clock {S}. Arguments out {S}. Arguments ph {S}. Arguments st {S}.

Section Device.
Context {S : Type} (d : slave S).
Implicit Types (w : wire S).

Definition sda_line w : bool := m_sda w && out w.

(** The clock goes up: who receives looks at the data. *)
Definition rise w : wire S :=
  mk_wire (m_sda w) true true 0 (clock w) (out w)
    (match ph w with
     | Rx a n b => Rx a (Datatypes.S n) (2 * b + Z.b2z (sda_line w))
     | AckIn => AckSeen (negb (sda_line w))
     | p => p
     end) (st w).

(** The device begins to send. *)
Definition talk (st : S) : bool * phase * S :=
  let '(b, st) := next_byte d st in (Z.testbit b 7, Tx b 7, st).
(** The clock goes down: who sends puts the data. *)
Definition fall w : wire S :=
  let '(o, p, st) :=
    match ph w with
    | Rx a n b =>
        if (n =? 8)%nat then
          let '(ack, st) := if a then on_address d b (st w) else on_byte d b (st w) in
          if ack : bool then (false, Ack (a && Z.odd b), st) else (true, Quiet, st)
        else (out w, ph w, st w)
    | Ack true => talk (st w)
    | Ack false => (true, Rx false 0 0, st w)
    | Tx b (Datatypes.S n) => (Z.testbit b (Z.of_nat n), Tx b n, st w)
    | Tx b O => (true, AckIn, st w)
    | AckSeen true => talk (st w)
    | AckSeen false => (true, Quiet, st w)
    | p => (out w, p, st w)
    end in
  mk_wire (m_sda w) false false 0 (clock w) o p st.

Definition wire_step (e : ev) w : wire S :=
  match e with
  | Sda v =>
      let v := negb (v =? 0) in
      let w' := mk_wire v (m_scl w) (scl w) (hold w) (clock w) (out w) (ph w) (st w) in
      if scl w then
        match sda_line w, sda_line w' with
        | true, false => mk_wire v (m_scl w) (scl w) (hold w) (clock w) true (Rx true 0 0) (on_start d (st w))
        | false, true => mk_wire v (m_scl w) (scl w) (hold w) (clock w) true Quiet (on_stop d (st w))
        | _, _ => w'
        end
      else w'
  | Scl v =>
      if v =? 0 then
        if scl w then fall w else mk_wire (m_sda w) false false 0 (clock w) (out w) (ph w) (st w)
      else if scl w then w
      else
        let n := stretch d (clock w) in
        let w := mk_wire (m_sda w) true false n (Datatypes.S (clock w)) (out w) (ph w) (st w) in
        if (n =? 0)%nat then rise w else w
  | Udelay _ => w
  | Sleep _ =>
      if m_scl w && negb (scl w) then
        let w' := mk_wire (m_sda w) true false (hold w - 1) (clock w) (out w) (ph w) (st w) in
        if (hold w' =? 0)%nat then rise w' else w'
      else w
  end.

Definition replay (w0 : wire S) (h : list ev) : wire S := foldr wire_step w0 h.

(** The lines with this device on them. *)
Definition bus_ops (sense : bool) (delay t : Z) (w0 : wire S) : rt_i2c_bit_ops :=
  mk_ops (fun h => sda_line (replay w0 h)) (if sense then Some (fun h => scl (replay w0 h)) else None) delay t.
End Device.

(** ** The bus of bytes *)

(** Nobody uses the bus; the device does not listen; it expects its address, bytes to
    receive; it sends, and waits for the acknowledgement. *)
Inductive mode := Idle | Silent | Address | Listening | Talking (b : Z) | Waiting.

Section Bus.
Context {S : Type} (d : slave S).
Implicit Types (m : mode) (s : mode * S).

(** What breaks the protocol is no result. *)
Definition broken {A} : result A := Fault AssertFail.

Definition b_start s : result (mode * S) :=
  match fst s with Idle => Ok (Address, on_start d (snd s)) | _ => broken end.
Definition b_restart s : result (mode * S) :=
  match fst s with Idle | Talking _ | Waiting => broken | _ => Ok (Address, on_start d (snd s)) end.
Definition b_stop s : result (mode * S) :=
  match fst s with Idle | Talking _ | Waiting => broken | _ => Ok (Idle, on_stop d (snd s)) end.
Definition b_talk (st : S) : mode * S := let '(b, st) := next_byte d st in (Talking b, st).
Definition b_writeb (b : Z) s : result (Z * (mode * S)) :=
  let b := u8 b in
  match fst s with
  | Idle | Talking _ | Waiting => broken
  | Silent => Ok (0, s)
  | Address =>
      let '(ack, st) := on_address d b (snd s) in
      Ok (Z.b2z ack, if ack : bool then (if Z.odd b then b_talk st else (Listening, st)) else (Silent, st))
  | Listening =>
      let '(ack, st) := on_byte d b (snd s) in Ok (Z.b2z ack, (if ack : bool then Listening else Silent, st))
  end.
Definition b_readb s : result (Z * (mode * S)) :=
  match fst s with Talking b => Ok (b, (Waiting, snd s)) | Silent => Ok (255, s) | _ => broken end.
Definition b_ack (ack : Z) s : result (Z * (mode * S)) :=
  match fst s with
  | Waiting => Ok (RT_EOK, if ack =? 0 then (Silent, snd s) else b_talk (snd s))
  | Silent => Ok (RT_EOK, s)
  | _ => broken
  end.
Definition byte_prims : prims (mode * S) := mk_prims _ b_start b_restart b_stop (fun s => s) b_writeb b_readb b_ack.
End Bus.

(** ** The lines carry bytes *)

Section Lines.
Context {S : Type} (d : slave S) (sense : bool) (delay t : Z) (w0 : wire S).
Context (Ht : 1 <= t < 2 ^ 31) (Hstretch : forall n, (stretch d n <= if sense then 2 else 0)%nat)
  (Hbytes : forall x, 0 <= fst (next_byte d x) < 256).
Notation ops := (bus_ops d sense delay t w0).
Implicit Types (s : i2c) (w : wire S) (m : mode) (a b : bool) (h c : nat) (o : bool) (p : phase) (x : S).

Definition bus s : wire S := replay d w0 (hist s).

Lemma bus_emit e s : bus (emit e s) = wire_step d e (bus s).
Proof. done. Qed.
Lemma bus_delay s : bus (i2c_delay ops s) = bus s.
Proof. done. Qed.
Lemma bus_delay2 s : bus (i2c_delay2 ops s) = bus s.
Proof. done. Qed.
Lemma bus_sleep n s : bus (rt_thread_delay n s) = wire_step d (Sleep n) (bus s).
Proof. done. Qed.

(** The data changes while the clock is low. *)
Lemma bus_sda v s a b h c o p x :
  bus s = mk_wire a b false h c o p x -> bus (SET_SDA v s) = mk_wire (negb (v =? 0)) b false h c o p x.
Proof. intros E. unfold SET_SDA. by rewrite bus_emit, E. Qed.
(** The clock goes down, or stays there. *)
Lemma bus_scl_low s a b h c o p x :
  bus s = mk_wire a b false h c o p x -> bus (SCL_L s) = mk_wire a false false 0 c o p x.
Proof. intros E. unfold SCL_L, SET_SCL. by rewrite bus_emit, E. Qed.
Lemma bus_scl_fall s w : bus s = w -> scl w = true -> bus (SCL_L s) = fall d w.
Proof. intros E Hs. unfold SCL_L, SET_SCL. rewrite bus_emit, E. cbn. by rewrite Hs. Qed.

Lemma elapsed start n : 0 <= n < 2 ^ 32 -> u32 (u32 (start + n) - start) = n.
Proof.
  intros H. unfold u32. rewrite Zminus_mod_idemp_l. replace (start + n - start) with n by lia. by apply Z.mod_small.
Qed.

Lemma half_time : Z.shiftr (u32 (t + 1)) 1 = (t + 1) / 2.
Proof. rewrite u32_small by lia. by rewrite Z.shiftr_div_pow2. Qed.

(** A look at a clock that is down, with time left. *)
Lemma wait_scl_low op fuel start s :
  timeout op = t -> scl (bus s) = false -> u32 (tick s - start) <= t ->
  wait_scl op (Datatypes.S fuel) (fun l => scl (replay d w0 l)) start s =
    wait_scl op fuel (fun l => scl (replay d w0 l)) start (rt_thread_delay ((t + 1) / 2) s).
Proof. intros Eo E H. cbn [wait_scl]. unfold bus in E. rewrite E, Eo, half_time. by replace (t <? _) with false by lia. Qed.
Lemma wait_scl_high op fuel start s :
  scl (bus s) = true -> wait_scl op (Datatypes.S fuel) (fun l => scl (replay d w0 l)) start s = Ok (true, s).
Proof. intros E. cbn [wait_scl]. unfold bus in E. by rewrite E. Qed.
Lemma bus_wait n s a h c o p x :
  bus s = mk_wire a true false (Datatypes.S h) c o p x ->
  bus (rt_thread_delay n s) = if (h =? 0)%nat then rise (mk_wire a true false 0 c o p x) else mk_wire a true false h c o p x.
Proof. intros E. rewrite bus_sleep, E. cbn. rewrite Nat.sub_0_r. by destruct h. Qed.

(** The clock goes up after at most two waits. *)
Lemma SCL_H_ok s a b h c o p x :
  bus s = mk_wire a b false h c o p x ->
  exists s', SCL_H ops s = Ok (RT_EOK, s') /\ bus s' = rise (mk_wire a true false 0 (Datatypes.S c) o p x).
Proof.
  intros E. unfold SCL_H. set (w1 := rise (mk_wire a true false 0 (Datatypes.S c) o p x)).
  assert (bus (SET_SCL 1 s) = if (stretch d c =? 0)%nat then w1 else mk_wire a true false (stretch d c) (Datatypes.S c) o p x) as E1.
  { unfold SET_SCL. rewrite bus_emit, E. cbn. by destruct (stretch d c). }
  assert (scl w1 = true) as Hw1 by done. set (s1 := SET_SCL 1 s) in *. clearbody s1. specialize (Hstretch c). destruct sense eqn:Esense.
  2:{ replace (stretch d c) with 0%nat in E1 by lia. cbn [get_scl bus_ops mbind result_bind]. by eexists. }
  cbn [get_scl bus_ops]. unfold SCL_FUEL.
  assert (exists s', wait_scl (bus_ops d true delay t w0) 4 (fun l => scl (replay d w0 l)) (tick s1) s1 = Ok (true, s') /\ bus s' = w1)
    as (s' & -> & E'); [|by eexists].
  assert (0 <= (t + 1) / 2 <= t) as Hhalf by (split; [apply Z.div_pos; lia|apply Z.div_le_upper_bound; lia]).
  destruct (stretch d c) as [|n] eqn:En; cbn [Nat.eqb] in E1.
  - exists s1. by rewrite wait_scl_high by by rewrite E1.
  - pose proof (bus_wait ((t + 1) / 2) _ _ _ _ _ _ _ E1) as E2. fold w1 in E2.
    rewrite wait_scl_low by (first [done | by rewrite E1 | rewrite Z.sub_diag; change (u32 0) with 0; lia]).
    assert (tick (rt_thread_delay ((t + 1) / 2) s1) = u32 (tick s1 + (t + 1) / 2)) as Et by done.
    set (s2 := rt_thread_delay ((t + 1) / 2) s1) in *. clearbody s2. destruct n as [|n]; cbn [Nat.eqb] in E2.
    + exists s2. by rewrite wait_scl_high by by rewrite E2.
    + destruct n as [|n]; [|lia]. pose proof (bus_wait ((t + 1) / 2) _ _ _ _ _ _ _ E2) as E3. fold w1 in E3. cbn [Nat.eqb] in E3.
      rewrite wait_scl_low by (first [done | by rewrite E2 | rewrite Et, elapsed; lia]).
      eexists. by rewrite wait_scl_high by by rewrite E3.
Qed.

(** *** Receiving *)

Definition receiving m : Prop := match m with Silent | Address | Listening => True | _ => False end.
Definition rx m (n : nat) (v : Z) : phase :=
  match m with Address => Rx true n v | Listening => Rx false n v | _ => Quiet end.

Lemma bit_of data n : Z.land (Z.shiftr data (Z.of_nat n)) 1 = Z.b2z (Z.testbit data (Z.of_nat n)).
Proof.
  change 1 with (Z.ones 1). rewrite Z.land_ones by lia. change (2 ^ 1) with 2. rewrite <- Z.bit0_mod, Z.shiftr_spec by lia.
  by rewrite Z.add_0_l.
Qed.

Lemma rise_rx m n v h c x a :
  rise (mk_wire a true false h c true (rx m n v) x) = mk_wire a true true 0 c true (rx m (Datatypes.S n) (2 * v + Z.b2z a)) x.
Proof. unfold rise, sda_line. destruct m; cbn; by rewrite ?andb_true_r. Qed.
Lemma fall_rx m n v h c x a :
  (n < 8)%nat -> fall d (mk_wire a true true h c true (rx m n v) x) = mk_wire a false false 0 c true (rx m n v) x.
Proof. intros H. unfold fall. destruct m; cbn [rx ph m_sda clock out st]; try done; by rewrite (proj2 (Nat.eqb_neq n 8)) by lia. Qed.

Lemma bits_above data n : 0 <= data -> data mod 2 ^ Z.of_nat (Datatypes.S n) = 2 ^ Z.of_nat n * Z.b2z (Z.testbit data (Z.of_nat n)) + data mod 2 ^ Z.of_nat n.
Proof.
  intros H. rewrite Z.testbit_spec' by lia. replace (2 ^ Z.of_nat (Datatypes.S n)) with (2 ^ Z.of_nat n * 2) by (rewrite Nat2Z.inj_succ, Z.pow_succ_r; lia).
  rewrite Z.rem_mul_r by lia. lia.
Qed.

Lemma writeb_loop_ok m data n :
  receiving m -> 0 <= data -> forall k v s a h c x, (k + n = 8)%nat ->
  bus s = mk_wire a (negb (k =? 0)%nat) (negb (k =? 0)%nat) h c true (rx m k v) x ->
  exists s' a' h' c', writeb_loop ops n data s = Ok (RT_EOK, s') /\
    bus s' = mk_wire a' (negb (k + n =? 0)%nat) (negb (k + n =? 0)%nat) h' c' true (rx m 8 (v * 2 ^ Z.of_nat n + data mod 2 ^ Z.of_nat n)) x.
Proof.
  intros Hm Hd. induction n as [|n IH]; intros k v s a h c x Hk E; cbn [writeb_loop].
  - exists s, a, h, c. split; [done|]. rewrite E, Nat.add_0_r. rewrite Z.mod_1_r. replace k with 8%nat by lia. by replace (v * 2 ^ Z.of_nat 0 + 0) with v by lia.
  - assert (exists h', bus (SCL_L s) = mk_wire a false false h' c true (rx m k v) x) as [h' E1].
    { exists 0%nat. destruct (k =? 0)%nat eqn:Ek; cbn [negb] in E; [by eapply bus_scl_low|].
      rewrite (bus_scl_fall s _ E) by done. apply fall_rx. lia. }
    apply (bus_sda (Z.land (Z.shiftr data (Z.of_nat n)) 1)) in E1.
    destruct (SCL_H_ok (i2c_delay ops (SET_SDA (Z.land (Z.shiftr data (Z.of_nat n)) 1) (SCL_L s))) _ _ _ _ _ _ _ E1) as (s1 & -> & E2).
    cbn [mbind result_bind]. replace (RT_EOK <? 0) with false by done. rewrite rise_rx in E2.
    rewrite bit_of in E2. destruct (IH (Datatypes.S k) _ _ _ _ _ _ ltac:(lia) E2) as (s' & a' & h1 & c1 & -> & E3).
    exists s', a', h1, c1. split; [done|]. rewrite E3. f_equal; [f_equal; lia..|]. f_equal.
    rewrite bits_above by done. rewrite Nat2Z.inj_succ, Z.pow_succ_r by lia. destruct (Z.testbit _ _); cbn [Z.b2z negb Z.eqb]; lia.
Qed.

(** ** The states correspond *)

Definition shape m w x : Prop :=
  match m with
  | Idle => exists h c, w = mk_wire true true true h c true Quiet x
  | Silent | Address | Listening => exists a h c, w = mk_wire a false false h c true (rx m 0 0) x
  | Talking v => 0 <= v < 256 /\ exists a h c, w = mk_wire a false false h c (Z.testbit v 7) (Tx v 7) x
  | Waiting => exists h c, w = mk_wire true false false h c true AckIn x
  end.
Definition rel s (ms : mode * S) : Prop := shape (fst ms) (bus s) (snd ms).

Lemma rel_delay2 s ms : rel s ms -> rel (i2c_delay2 ops s) ms.
Proof. done. Qed.

Lemma SCL_H_rx s m a b h c v x n :
  bus s = mk_wire a b false h c true (rx m n v) x ->
  exists s' c', SCL_H ops s = Ok (RT_EOK, s') /\ bus s' = mk_wire a true true 0 c' true (rx m (Datatypes.S n) (2 * v + Z.b2z a)) x.
Proof. intros E. destruct (SCL_H_ok _ _ _ _ _ _ _ _ E) as (s' & -> & E'). rewrite rise_rx in E'. eauto. Qed.

(** After an acknowledgement: the device sends, listens or is silent. *)
Lemma talk_shape a h c x :
  let '(o, p, x') := talk d x in
  let '(m, x1) := b_talk d x in x1 = x' /\ shape m (mk_wire a false false h c o p x') x'.
Proof.
  unfold talk, b_talk. pose proof (Hbytes x) as Hb. destruct (next_byte d x) as [v x']. split; [done|]. split; [done|]. by exists a, h, c.
Qed.

Lemma waitack_ok s a h c o p x :
  bus s = mk_wire a false false h c o p x -> (p = Quiet \/ exists tk, p = Ack tk) ->
  exists s' c', i2c_waitack ops s = Ok (Z.b2z (negb o), s') /\ bus s' = fall d (mk_wire true true true 0 c' o p x).
Proof.
  intros E Hp. unfold i2c_waitack. apply (bus_sda 1) in E. change (negb (1 =? 0)) with true in E.
  destruct (SCL_H_ok (i2c_delay ops (SDA_H s)) _ _ _ _ _ _ _ E) as (s1 & -> & E1). cbn [mbind result_bind]. change (RT_EOK <? 0) with false.
  assert (bus s1 = mk_wire true true true 0 (Datatypes.S c) o p x) as E2 by (rewrite E1; by destruct Hp as [->|[tk ->]]).
  exists (SCL_L s1), (Datatypes.S c). split.
  - do 3 f_equal. unfold GET_SDA. cbn [get_sda bus_ops]. change (replay d w0 (hist s1)) with (bus s1). by rewrite E2.
  - by apply bus_scl_fall.
Qed.

(** The device decides on a byte. *)
Lemma fall_byte ad h c v x a :
  fall d (mk_wire a true true h c true (Rx ad 8 v) x) =
    let '(ack, x') := if ad : bool then on_address d v x else on_byte d v x in
    mk_wire a false false 0 c (negb ack) (if ack then Ack (ad && Z.odd v) else Quiet) x'.
Proof. unfold fall. cbn [ph st Nat.eqb]. destruct (if ad then _ else _) as [[] x']; done. Qed.
Lemma fall_ack tk h c x a o :
  exists o' p x', fall d (mk_wire a true true h c o (Ack tk) x) = mk_wire a false false 0 c o' p x' /\
    let '(m, x1) := if tk : bool then b_talk d x else (Listening, x) in x1 = x' /\ shape m (mk_wire a false false 0 c o' p x') x'.
Proof.
  unfold fall. cbn [ph st m_sda clock]. destruct tk.
  - pose proof (talk_shape a 0 c x) as H. destruct (talk d x) as [[o' p] x']. exists o', p, x'. by destruct (b_talk d x).
  - exists true, (Rx false 0 0), x. split; [done|]. split; [done|]. by exists a, 0%nat, c.
Qed.

Lemma writeb_end s ad a h c v x :
  bus s = fall d (mk_wire a true true h c true (Rx ad 8 v) x) ->
  let '(ack, x1) := if ad : bool then on_address d v x else on_byte d v x in
  exists s', i2c_waitack ops (i2c_delay ops s) = Ok (Z.b2z ack, s') /\
    rel s' (if ack : bool then (if ad && Z.odd v then b_talk d x1 else (Listening, x1)) else (Silent, x1)).
Proof.
  rewrite fall_byte. destruct (if ad then _ else _) as [ack x1]. intros E.
  destruct (waitack_ok (i2c_delay ops s) _ _ _ _ _ _ E) as (s' & c' & -> & E'); [destruct ack; eauto|].
  exists s'. rewrite negb_involutive. split; [done|]. unfold rel. rewrite E'. destruct ack; cbn [negb].
  - destruct (fall_ack (ad && Z.odd v) 0 c' x1 true false) as (o' & p & x' & -> & H).
    destruct (if ad && _ then _ else _) as [m x2]. by destruct H as [-> H].
  - by exists true, 0%nat, c'.
Qed.

Lemma writeb_ok s ms v r ms' :
  rel s ms -> b_writeb d v ms = Ok (r, ms') -> exists s', i2c_writeb ops v s = Ok (r, s') /\ rel s' ms'.
Proof.
  destruct ms as [m x]. unfold rel, b_writeb. cbn [fst snd]. intros R B.
  assert (receiving m) as Hm by by destruct m.
  assert (exists a h c, bus s = mk_wire a false false h c true (rx m 0 0) x) as (a & h & c & E) by by destruct m.
  unfold i2c_writeb.
  destruct (writeb_loop_ok m (u8 v) 8 Hm ltac:(pose proof (u8_range v); lia) 0%nat 0 s a h c x eq_refl E) as (s1 & a1 & h1 & c1 & -> & E1).
  cbn [mbind result_bind]. change (RT_EOK <? 0) with false. cbn [Nat.add Nat.eqb negb] in E1.
  replace (0 * 2 ^ Z.of_nat 8 + u8 v mod 2 ^ Z.of_nat 8) with (u8 v) in E1 by (unfold u8; change (Z.of_nat 8) with 8; rewrite Zmod_mod; lia).
  apply bus_scl_fall in E1; [|done].
  destruct m; try done; cbn [rx] in E1.
  - injection B as <- <-. destruct (waitack_ok (i2c_delay ops (SCL_L s1)) _ _ _ _ _ _ E1) as (s' & c' & -> & E'); [by left|].
    exists s'. split; [done|]. rewrite E'. by exists true, 0%nat, c'.
  - pose proof (writeb_end _ _ _ _ _ _ _ E1) as H. cbn iota in H. destruct (on_address d (u8 v) x) as [ack x1].
    destruct H as (s' & Ew & R'). injection B as <- <-. by exists s'.
  - pose proof (writeb_end _ _ _ _ _ _ _ E1) as H. cbn iota in H. destruct (on_byte d (u8 v) x) as [ack x1].
    destruct H as (s' & Ew & R'). injection B as <- <-. exists s'. split; [done|]. cbn [andb] in R'. by destruct ack.
Qed.

(** *** Sending *)

(** What the device wants with [n] bits to go. *)
Definition tx (n : nat) v : bool * phase :=
  match n with O => (true, AckIn) | Datatypes.S n => (Z.testbit v (Z.of_nat n), Tx v n) end.
Definition released (n : nat) (v : Z) : bool * phase := (true, Quiet).

Definition sends (f : nat -> Z -> bool * phase) v : Prop :=
  forall n h c x, (n < 8)%nat ->
  fst (f (Datatypes.S n) v) = Z.testbit v (Z.of_nat n) /\
  rise (mk_wire true true false h c (fst (f (Datatypes.S n) v)) (snd (f (Datatypes.S n) v)) x) =
    mk_wire true true true 0 c (fst (f (Datatypes.S n) v)) (snd (f (Datatypes.S n) v)) x /\
  fall d (mk_wire true true true h c (fst (f (Datatypes.S n) v)) (snd (f (Datatypes.S n) v)) x) =
    mk_wire true false false 0 c (fst (f n v)) (snd (f n v)) x.

Lemma tx_sends v : sends tx v.
Proof. intros n h c x Hn. split; [done|]. split; [done|]. by destruct n. Qed.
Lemma released_sends : sends released 255.
Proof.
  intros n h c x Hn. split; [|done]. change 255 with (Z.ones 8). cbn [released fst]. symmetry. apply Z.ones_spec_low. lia.
Qed.

Lemma shift_in v n : 0 <= v < 256 -> (n < 8)%nat ->
  Z.lor (u8 (Z.shiftl (Z.shiftr v (Z.of_nat (Datatypes.S n))) 1)) (Z.b2z (Z.testbit v (Z.of_nat n))) = Z.shiftr v (Z.of_nat n).
Proof.
  intros Hv Hn. rewrite Z.shiftl_mul_pow2, !Z.shiftr_div_pow2 by lia. change (2 ^ 1) with 2.
  replace (2 ^ Z.of_nat (Datatypes.S n)) with (2 ^ Z.of_nat n * 2) by (rewrite Nat2Z.inj_succ, Z.pow_succ_r; lia).
  rewrite <- Z.div_div by lia. set (q := v / 2 ^ Z.of_nat n).
  assert (0 <= q < 256) as Hq by (split; [apply Z.div_pos; lia|apply Z.div_lt_upper_bound; nia]).
  pose proof (Z.mod_pos_bound q 2 ltac:(lia)) as Hm. pose proof (Z.div_mod q 2 ltac:(lia)) as Eq.
  rewrite u8_small by lia. assert (Z.b2z (Z.testbit v (Z.of_nat n)) = q mod 2) as -> by (rewrite Z.testbit_spec' by lia; done).
  assert (0 <= q / 2) by lia. rewrite Eq at 3. rewrite (Z.mul_comm (q / 2)). destruct (decide (q mod 2 = 0)) as [->|].
  - rewrite Z.lor_0_r. lia.
  - replace (q mod 2) with 1 by lia. destruct (q / 2); done || lia.
Qed.

Lemma readb_loop_ok f v n :
  0 <= v < 256 -> sends f v -> (n <= 8)%nat -> forall s h c x,
  bus s = mk_wire true false false h c (fst (f n v)) (snd (f n v)) x ->
  exists s' h' c', readb_loop ops n (Z.shiftr v (Z.of_nat n)) s = Ok (v, s') /\
    bus s' = mk_wire true false false h' c' (fst (f 0%nat v)) (snd (f 0%nat v)) x.
Proof.
  intros Hv Hf. induction n as [|n IH]; intros Hn s h c x E; cbn [readb_loop].
  - exists s, h, c. by rewrite Z.shiftr_0_r.
  - destruct (SCL_H_ok _ _ _ _ _ _ _ _ E) as (s1 & -> & E1). cbn [mbind result_bind]. change (RT_EOK <? 0) with false. cbn iota.
    destruct (Hf n 0%nat (Datatypes.S c) x ltac:(lia)) as (Eb & Er & Efall). rewrite Er in E1.
    assert (GET_SDA ops s1 = Z.testbit v (Z.of_nat n)) as ->.
    { unfold GET_SDA. cbn [get_sda bus_ops]. change (replay d w0 (hist s1)) with (bus s1). by rewrite E1, <- Eb. }
    apply bus_scl_fall in E1; [|done]. rewrite Efall in E1.
    assert ((if Z.testbit v (Z.of_nat n) then Z.lor (u8 (Z.shiftl (Z.shiftr v (Z.of_nat (Datatypes.S n))) 1)) 1
             else u8 (Z.shiftl (Z.shiftr v (Z.of_nat (Datatypes.S n))) 1)) = Z.shiftr v (Z.of_nat n)) as ->.
    { rewrite <- (shift_in v n) by (done || lia). destruct (Z.testbit _ _); cbn [Z.b2z]; [done|by rewrite Z.lor_0_r]. }
    apply (IH ltac:(lia) (i2c_delay2 ops (SCL_L s1)) _ _ _ E1).
Qed.

Lemma readb_ok s ms r ms' :
  rel s ms -> b_readb ms = Ok (r, ms') -> exists s', i2c_readb ops s = Ok (r, s') /\ rel s' ms'.
Proof.
  destruct ms as [m x]. unfold rel, b_readb, i2c_readb. cbn [fst snd]. intros R B.
  destruct m as [| | | |v|]; try done; injection B as <- <-.
  - destruct R as (a & h & c & E). apply (bus_sda 1) in E.
    destruct (readb_loop_ok released 255 8 ltac:(lia) released_sends ltac:(lia) (i2c_delay ops (SDA_H s)) _ _ _ E) as (s' & h' & c' & Er & E').
    exists s'. split; [exact Er|]. by exists true, h', c'.
  - destruct R as (Hv & a & h & c & E). apply (bus_sda 1) in E.
    destruct (readb_loop_ok tx v 8 Hv (tx_sends v) ltac:(lia) (i2c_delay ops (SDA_H s)) _ _ _ E) as (s' & h' & c' & Er & E').
    assert (Z.shiftr v (Z.of_nat 8) = 0) as E0 by (rewrite Z.shiftr_div_pow2 by lia; by apply Z.div_small).
    rewrite E0 in Er. exists s'. split; [exact Er|by exists h', c'].
Qed.

Lemma ack_ok s k ms r ms' :
  rel s ms -> b_ack d k ms = Ok (r, ms') -> exists s', i2c_send_ack_or_nack ops k s = Ok (r, s') /\ rel s' ms'.
Proof.
  destruct ms as [m x]. unfold rel, b_ack, i2c_send_ack_or_nack. cbn [fst snd]. intros R B.
  destruct m as [| | | | |]; try done; injection B as <- <-.
  - destruct R as (a & h & c & E).
    assert (exists a h c, bus (if negb (k =? 0) then SET_SDA 0 s else s) = mk_wire a false false h c true Quiet x) as (a1 & h1 & c1 & E1).
    { destruct (k =? 0); cbn [negb]; [by eauto|]. apply (bus_sda 0) in E. eauto. }
    destruct (SCL_H_ok (i2c_delay ops (if negb (k =? 0) then SET_SDA 0 s else s)) _ _ _ _ _ _ _ E1) as (s' & -> & E').
    cbn [mbind result_bind]. eexists. split; [done|]. apply bus_scl_fall in E'; [|done]. rewrite E'. by eexists _, _, _.
  - destruct R as (h & c & E).
    assert (bus (if negb (k =? 0) then SET_SDA 0 s else s) = mk_wire (k =? 0) false false h c true AckIn x) as E1.
    { destruct (k =? 0); cbn [negb]; [done|]. by apply (bus_sda 0) in E. }
    destruct (SCL_H_ok (i2c_delay ops (if negb (k =? 0) then SET_SDA 0 s else s)) _ _ _ _ _ _ _ E1) as (s' & -> & E').
    cbn [mbind result_bind]. eexists. split; [done|]. apply bus_scl_fall in E'; [|done]. rewrite E'.
    unfold rise, sda_line, fall. cbn [ph m_sda out st clock]. rewrite andb_true_r. destruct (k =? 0); cbn [negb].
    + by eexists _, _, _.
    + pose proof (talk_shape false 0%nat (Datatypes.S c) x) as H. destruct (talk d x) as [[o p] x'], (b_talk d x) as [m' x1]. by destruct H as [-> H].
Qed.

(** *** Conditions *)

Lemma bus_start_ok s ms ms' : rel s ms -> b_start d ms = Ok ms' -> rel (i2c_start ops s) ms'.
Proof.
  destruct ms as [m x]. unfold rel, b_start, i2c_start. cbn [fst snd]. intros R B. destruct m; try done. injection B as <-.
  destruct R as (h & c & E).
  assert (bus (SDA_L s) = mk_wire false true true h c true (Rx true 0 0) (on_start d x)) as E1 by (unfold SDA_L, SET_SDA; by rewrite bus_emit, E).
  apply (bus_scl_fall (i2c_delay ops (SDA_L s))) in E1; [|done]. rewrite E1. by exists false, 0%nat, c.
Qed.

Lemma restart_ok s ms ms' : rel s ms -> b_restart d ms = Ok ms' -> exists s', i2c_restart ops s = Ok s' /\ rel s' ms'.
Proof.
  destruct ms as [m x]. unfold rel, b_restart, i2c_restart. cbn [fst snd]. intros R B.
  assert (exists a h c, bus s = mk_wire a false false h c true (rx m 0 0) x /\ ms' = (Address, on_start d x)) as (a & h & c & E & ->)
    by (destruct m; try done; injection B as <-; destruct R as (a & h & c & E); by exists a, h, c).
  apply (bus_sda 1) in E. destruct (SCL_H_rx (SDA_H s) _ _ _ _ _ _ _ _ E) as (s1 & c1 & -> & E1). cbn [mbind result_bind].
  assert (bus (SDA_L (i2c_delay ops s1)) = mk_wire false true true 0 c1 true (Rx true 0 0) (on_start d x)) as E2
    by (unfold SDA_L, SET_SDA; by rewrite bus_emit, bus_delay, E1).
  eexists. split; [done|]. apply (bus_scl_fall (i2c_delay ops (SDA_L (i2c_delay ops s1)))) in E2; [|done]. rewrite E2. by exists false, 0%nat, c1.
Qed.

Lemma bus_stop_ok s ms ms' : rel s ms -> b_stop d ms = Ok ms' -> exists s', i2c_stop ops s = Ok s' /\ rel s' ms'.
Proof.
  destruct ms as [m x]. unfold rel, b_stop, i2c_stop. cbn [fst snd]. intros R B.
  assert (exists a h c, bus s = mk_wire a false false h c true (rx m 0 0) x /\ ms' = (Idle, on_stop d x)) as (a & h & c & E & ->)
    by (destruct m; try done; injection B as <-; destruct R as (a & h & c & E); by exists a, h, c).
  apply (bus_sda 0) in E. destruct (SCL_H_rx (i2c_delay ops (SDA_L s)) _ _ _ _ _ _ _ _ E) as (s1 & c1 & -> & E1). cbn [mbind result_bind].
  eexists. split; [done|]. exists 0%nat, c1. rewrite bus_delay2. unfold SDA_H, SET_SDA. by rewrite bus_emit, bus_delay, E1.
Qed.
End Lines.

(** ** The functions on bytes do not see which bus it is *)

Section Lift.
Context {A B : Type} (R : A -> B -> Prop).

(** What the second ends with, the first ends with too. *)
Definition sim {X} (ma : result (X * A)) (mb : result (X * B)) : Prop :=
  forall r b, mb = Ok (r, b) -> exists a, ma = Ok (r, a) /\ R a b.
Definition sim_state (ma : result A) (mb : result B) : Prop := forall b, mb = Ok b -> exists a, ma = Ok a /\ R a b.

Lemma sim_ret {X} (r : X) a b : R a b -> sim (Ok (r, a)) (Ok (r, b)).
Proof. intros H r' b' [= <- <-]. eauto. Qed.
Lemma sim_bind {X Y} (ma : result (X * A)) (mb : result (X * B)) (ka : X * A -> result (Y * A)) (kb : X * B -> result (Y * B)) :
  sim ma mb -> (forall x a b, R a b -> sim (ka (x, a)) (kb (x, b))) -> sim (ma ≫= ka) (mb ≫= kb).
Proof. intros Hm Hk r b ([x b1] & E & H)%bind_Ok. destruct (Hm _ _ E) as (a1 & -> & R1). exact (Hk _ _ _ R1 _ _ H). Qed.
Lemma sim_bind_state {Y} (ma : result A) (mb : result B) (ka : A -> result (Y * A)) (kb : B -> result (Y * B)) :
  sim_state ma mb -> (forall a b, R a b -> sim (ka a) (kb b)) -> sim (ma ≫= ka) (mb ≫= kb).
Proof. intros Hm Hk r b (b1 & E & H)%bind_Ok. destruct (Hm _ E) as (a1 & -> & R1). exact (Hk _ _ R1 _ _ H). Qed.
Lemma sim_bind_pure {X Y} (m : result X) (ka : X -> result (Y * A)) (kb : X -> result (Y * B)) :
  (forall x, sim (ka x) (kb x)) -> sim (m ≫= ka) (m ≫= kb).
Proof. intros Hk r b (x & -> & H)%bind_Ok. exact (Hk _ _ _ H). Qed.
Lemma sim_if {X} (c : bool) (ma ma' : result (X * A)) (mb mb' : result (X * B)) :
  sim ma mb -> sim ma' mb' -> sim (if c then ma else ma') (if c then mb else mb').
Proof. by destruct c. Qed.
Lemma sim_state_if (c : bool) (ma ma' : result A) (mb mb' : result B) :
  sim_state ma mb -> sim_state ma' mb' -> sim_state (if c then ma else ma') (if c then mb else mb').
Proof. by destruct c. Qed.
Lemma sim_state_ret a b : R a b -> sim_state (Ok a) (Ok b).
Proof. intros H b' [= <-]. eauto. Qed.
End Lift.

(** What one bus has to promise to stand for another. *)
Class Simulates {A B} (PA : prims A) (PB : prims B) (R : A -> B -> Prop) := {
  sim_start a b : R a b -> sim_state R (p_start PA a) (p_start PB b);
  sim_restart a b : R a b -> sim_state R (p_restart PA a) (p_restart PB b);
  sim_stop a b : R a b -> sim_state R (p_stop PA a) (p_stop PB b);
  sim_delay2 a b : R a b -> R (p_delay2 PA a) (p_delay2 PB b);
  sim_writeb v a b : R a b -> sim R (p_writeb PA v a) (p_writeb PB v b);
  sim_readb a b : R a b -> sim R (p_readb PA a) (p_readb PB b);
  sim_ack v a b : R a b -> sim R (p_ack PA v a) (p_ack PB v b)
}.

Create HintDb i2c.
#[export] Hint Resolve sim_ret sim_state_ret sim_start sim_restart sim_stop sim_writeb sim_readb sim_ack : i2c.
#[export] Hint Extern 4 => simple apply sim_delay2 : i2c.
(** Along the structure of the program. *)
Ltac simulate :=
  repeat match goal with
  | |- forall _, _ => intros
  | |- sim _ (let _ := _ in _) _ => cbv zeta
  | |- sim _ (if _ then _ else _) _ => apply sim_if
  | |- sim_state _ (if _ then _ else _) _ => apply sim_state_if
  | |- sim _ (_ ≫= _) _ => first [apply sim_bind_pure | eapply sim_bind | eapply sim_bind_state]
  | |- sim _ (match ?x with _ => _ end) _ => destruct x
  end; eauto with i2c.

Section Simulation.
Context {A B : Type} (PA : prims A) (PB : prims B) (R : A -> B -> Prop) {H : Simulates PA PB R} (retries : Z).
Implicit Types (a : A) (b : B).

Lemma send_loop_sim n i ptr ign a b : R a b -> sim R (send_loop PA n i ptr ign a) (send_loop PB n i ptr ign b).
Proof. revert i a b. induction n as [|n IH]; intros i a b HR; cbn [send_loop]; simulate. Qed.

Lemma recv_loop_sim n i fl ptr a b : R a b -> sim R (recv_loop PA n i fl ptr a) (recv_loop PB n i fl ptr b).
Proof. revert i ptr a b. induction n as [|n IH]; intros i ptr a b HR; cbn [recv_loop]; simulate. Qed.

Lemma recv_bytes_sim msg a b : R a b -> sim R (i2c_recv_bytes PA msg a) (i2c_recv_bytes PB msg b).
Proof. intros HR. unfold i2c_recv_bytes. eapply sim_bind; [by apply recv_loop_sim|]. intros [r p] a1 b1 H1. by apply sim_ret. Qed.

Lemma address_loop_sim n ret ad a b : R a b -> sim R (address_loop PA n ret ad a) (address_loop PB n ret ad b).
Proof. revert ret a b. induction n as [|n IH]; intros ret a b HR; cbn [address_loop]; simulate. Qed.
Lemma send_address_sim ad r a b : R a b -> sim R (i2c_send_address PA ad r a) (i2c_send_address PB ad r b).
Proof. apply address_loop_sim. Qed.
#[local] Hint Resolve send_address_sim recv_bytes_sim send_loop_sim : i2c.

Lemma bit_send_address_sim msg a b :
  R a b -> sim R (i2c_bit_send_address PA retries msg a) (i2c_bit_send_address PB retries msg b).
Proof. intros HR. unfold i2c_bit_send_address. simulate. Qed.
#[local] Hint Resolve bit_send_address_sim : i2c.

Lemma xfer_msg_sim i msg a b : R a b -> sim R (xfer_msg PA retries i msg a) (xfer_msg PB retries i msg b).
Proof. intros HR. unfold xfer_msg, i2c_send_bytes. simulate. Qed.

Lemma xfer_loop_sim i last msgs a b : R a b -> sim R (xfer_loop PA retries i last msgs a) (xfer_loop PB retries i last msgs b).
Proof.
  revert i last a b. induction msgs as [|msg msgs IH]; intros i last a b HR; cbn [xfer_loop]; [by apply sim_ret|].
  eapply sim_bind; [by apply xfer_msg_sim|]. intros [[ret|] msg'] a1 b1 H1; [by apply sim_ret|].
  eapply sim_bind; [by apply IH|]. intros [[ret ms] l] a2 b2 H2. by apply sim_ret.
Qed.

Lemma xfer_sim msgs a b : R a b -> sim R (i2c_bit_xfer PA retries msgs a) (i2c_bit_xfer PB retries msgs b).
Proof.
  intros HR. unfold i2c_bit_xfer. destruct msgs as [|msg msgs]; [by apply sim_ret|].
  eapply sim_bind; [by apply xfer_loop_sim|]. intros [[ret ms] l] a2 b2 H2. cbn beta iota. simulate.
Qed.
End Simulation.

Section Carry.
Context {S : Type} (d : slave S) (sense : bool) (delay t : Z) (w0 : wire S).
Context (Ht : 1 <= t < 2 ^ 31) (Hstretch : forall n, (stretch d n <= if sense then 2 else 0)%nat)
  (Hbytes : forall x, 0 <= fst (next_byte d x) < 256).

#[global] Instance lines_carry_bytes : Simulates (bit_prims (bus_ops d sense delay t w0)) (byte_prims d) (rel d w0).
Proof.
  constructor; intros.
  - intros b' E. eexists. split; [done|]. by eapply bus_start_ok.
  - intros b' E. by eapply restart_ok.
  - intros b' E. by eapply bus_stop_ok.
  - done.
  - intros r b' E. by eapply writeb_ok.
  - intros r b' E. by eapply readb_ok.
  - intros r b' E. by eapply ack_ok.
Qed.
End Carry.

(** A device of state [x] on lines that nobody holds down. *)
Definition quiet_lines {S} (x : S) : wire S := mk_wire true true true 0 0 true Quiet x.

Lemma carry {S} (d : slave S) sense delay t retries msgs x tick ret msgs' m x' :
  1 <= t < 2 ^ 31 -> (forall n, (stretch d n <= if sense : bool then 2 else 0)%nat) ->
  (forall x, 0 <= fst (next_byte d x) < 256) ->
  i2c_bit_xfer (byte_prims d) retries msgs (Idle, x) = Ok (ret, msgs', (m, x')) ->
  exists s', i2c_bit_xfer (bit_prims (bus_ops d sense delay t (quiet_lines x))) retries msgs (mk_i2c [] tick) = Ok (ret, msgs', s') /\
    shape m (replay d (quiet_lines x) (hist s')) x'.
Proof.
  intros Ht Hs Hb E.
  pose proof (lines_carry_bytes d sense delay t (quiet_lines x) Ht Hs Hb) as HS.
  destruct (xfer_sim _ _ (rel d (quiet_lines x)) (H := HS) retries msgs (mk_i2c [] tick) (Idle, x)) with (r := (ret, msgs')) (b := (m, x'))
    as (s' & E' & R); [by exists 0%nat, 0%nat|exact E|]. exists s'. by split.
Qed.

(** ** A device with registers *)

(** Bytes at addresses; the first byte after a start sets the address, the others are
    stored at it and the ones after it, from which reading goes on. *)
Record registers := mk_registers { cell : Z -> Z; pointer : Z; first : bool }.
Definition next_pointer (p : Z) : Z := (p + 1) mod 256.
Definition register_device (own : Z) (hold : nat -> nat) : slave registers :=
  mk_slave registers (fun r => mk_registers (cell r) (pointer r) true) (fun r => r)
    (fun a r => (Z.shiftr a 1 =? own, r))
    (fun v r => (true, if first r then mk_registers (cell r) v false
                       else mk_registers (fun p => if p =? pointer r then v else cell r p) (next_pointer (pointer r)) false))
    (fun r => (u8 (cell r (pointer r)), mk_registers (cell r) (next_pointer (pointer r)) (first r))) hold.

Definition byte (v : Z) : Prop := 0 <= v < 256.

Section Registers.
Context (own : Z) (hold : nat -> nat) (retries : Z).
Context (Hown : 0 <= own < 128) (Hretries : 0 <= retries < 2 ^ 31).
Notation d := (register_device own hold).
Notation P := (byte_prims d).
Implicit Types (r : registers) (data old pre : list Z).

(** What the device stores and sends. *)
Fixpoint store r data : registers :=
  match data with [] => r | v :: data => store (snd (on_byte d v r)) data end.
Fixpoint fetch (n : nat) r : list Z * registers :=
  match n with
  | O => ([], r)
  | S n => let '(v, r) := next_byte d r in let '(l, r) := fetch n r in (v :: l, r)
  end.

Lemma send_loop_store pre data ign r :
  Forall byte data ->
  send_loop P (length data) (Z.of_nat (length pre)) (pre ++ data) ign (Listening, r) =
    Ok (Z.of_nat (length pre + length data), (Listening, store r data)).
Proof.
  intros Hd. revert pre r. induction Hd as [|v data Hv Hd IH]; intros pre r; cbn [length send_loop].
  - by rewrite Nat.add_0_r.
  - rewrite (aget_Ok _ _ v) by (rewrite ?Nat2Z.id; first [lia | by apply list_lookup_middle]). cbn [mbind result_bind].
    unfold byte in Hv. cbn [p_writeb byte_prims b_writeb fst snd]. rewrite u8_small by done.
    cbn [register_device on_byte mbind result_bind Z.b2z Z.ltb orb].
    replace (Z.of_nat (length pre) + 1) with (Z.of_nat (length (pre ++ [v]))) by (rewrite length_app; cbn; lia).
    replace (pre ++ v :: data) with ((pre ++ [v]) ++ data) by (by rewrite <- app_assoc).
    cbn [Z.compare]. rewrite IH, length_app. cbn [length store register_device on_byte snd]. do 2 f_equal. lia.
Qed.

Lemma recv_loop_fetch fl pre old r v :
  RT_I2C_NO_READ_ACK fl = false -> old <> [] -> byte v ->
  recv_loop P (length old) (Z.of_nat (length pre)) fl (pre ++ old) (Talking v, r) =
    Ok (Z.of_nat (length pre + length old), pre ++ v :: fst (fetch (length old - 1) r), (Silent, snd (fetch (length old - 1) r))).
Proof.
  intros Hfl Hne. revert pre r v. induction old as [|o old IH]; [done|]; intros pre r v Hv. clear Hne. unfold byte in Hv.
  cbn [length recv_loop p_readb byte_prims b_readb fst snd mbind result_bind]. replace (0 <=? v) with true by lia.
  rewrite aset_Ok by (rewrite length_app; cbn; lia). rewrite u8_small by lia. cbn [mbind result_bind].
  rewrite Nat2Z.id, insert_app_r_alt, Nat.sub_diag by lia. cbn [list_insert insert]. rewrite Hfl. cbn [negb p_ack byte_prims b_ack fst snd].
  destruct old as [|o' old]; cbn [length Nat.sub].
  - cbn. do 3 f_equal. lia.
  - change (Z.of_nat (S (length old)) =? 0) with false. cbn [mbind result_bind]. change (RT_EOK <? 0) with false. cbn iota.
    unfold b_talk. cbn [fetch]. pose proof (u8_range (cell r (pointer r))) as Hb. cbn [register_device next_byte].
    replace (Z.of_nat (length pre) + 1) with (Z.of_nat (length (pre ++ [v]))) by (rewrite length_app; cbn; lia).
    replace (pre ++ v :: o' :: old) with ((pre ++ [v]) ++ o' :: old) by (by rewrite <- app_assoc).
    change (S (length old)) with (length (o' :: old)). rewrite IH by done. rewrite length_app. cbn [length Nat.sub]. rewrite Nat.sub_0_r.
    cbn [register_device next_byte]. destruct (fetch (length old) _) as [l r']. cbn [fst snd]. rewrite <- app_assoc. do 3 f_equal. lia.
Qed.

Lemma next_pointer_range p : 0 <= next_pointer p < 256.
Proof. apply Z.mod_pos_bound. lia. Qed.

(** A store does not reach the cells behind it. *)
Lemma store_other data c p q :
  0 <= p < 256 -> 0 <= q < 256 -> Z.of_nat (length data) <= (q - p) mod 256 ->
  cell (store (mk_registers c p false) data) q = c q.
Proof.
  revert c p. induction data as [|v data IH]; intros c p Hp Hq Hl; [done|]. cbn [store register_device on_byte snd first pointer cell length] in *.
  assert ((q - next_pointer p) mod 256 = (q - p) mod 256 - 1) as Em.
  { unfold next_pointer. rewrite Zminus_mod_idemp_r. replace (q - (p + 1)) with (q - p - 1) by lia.
    pose proof (Z.mod_pos_bound (q - p) 256 ltac:(lia)). rewrite (Z.mod_eq (q - p - 1)), (Z.mod_eq (q - p)) by lia.
    enough ((q - p - 1) / 256 = (q - p) / 256) by lia. symmetry. apply Z.div_unique with ((q - p) mod 256 - 1); [lia|].
    pose proof (Z.div_mod (q - p) 256). lia. }
  rewrite IH by (first [apply next_pointer_range | lia]).
  destruct (Z.eqb_spec q p) as [->|]; [|done]. rewrite Z.sub_diag in Hl. change (0 mod 256) with 0 in Hl. lia.
Qed.

Lemma fetch_stored data c p b :
  Forall byte data -> 0 <= p < 256 -> (length data <= 256)%nat ->
  fst (fetch (length data) (mk_registers (cell (store (mk_registers c p false) data)) p b)) = data.
Proof.
  revert c p. intros c p Hd. revert c p. induction Hd as [|v data Hv Hd IH]; intros c p Hp Hl; [done|]. cbn [length] in Hl.
  cbn [store register_device on_byte snd first pointer cell length fetch next_byte].
  rewrite store_other by (first [apply next_pointer_range | lia | unfold next_pointer; rewrite Zminus_mod_idemp_r;
    replace (p - (p + 1)) with (-1) by lia; change (-1 mod 256) with 255; lia]).
  rewrite Z.eqb_refl, u8_small by done.
  specialize (IH (fun q => if q =? p then v else c q) (next_pointer p) (next_pointer_range p) ltac:(lia)).
  destruct (fetch _ _) as [l r]. cbn [fst] in *. by rewrite IH.
Qed.

(** *** The messages *)

Lemma i32_retries : i32 retries = retries.
Proof. apply i32_small. lia. Qed.

Lemma send_address_ok a r :
  0 <= a < 256 -> Z.shiftr a 1 = own ->
  i2c_send_address P a retries (Address, r) = Ok (1, if Z.odd a then b_talk d r else (Listening, r)).
Proof.
  intros Ha Ho. unfold i2c_send_address. replace (Z.to_nat (retries + 1)) with (S (Z.to_nat retries)) by lia. cbn [address_loop].
  cbn [p_writeb byte_prims b_writeb fst snd]. rewrite u8_small by done. cbn [register_device on_address]. rewrite Ho, Z.eqb_refl. done.
Qed.

Lemma own_address : u8 (Z.shiftl own 1) = 2 * own.
Proof. rewrite Z.shiftl_mul_pow2 by lia. change (2 ^ 1) with 2. rewrite u8_small; lia. Qed.

Lemma address_write n b r : i2c_bit_send_address P retries (mk_msg own 0 n b) (Address, r) = Ok (RT_EOK, (Listening, r)).
Proof.
  unfold i2c_bit_send_address. cbn [flags addr]. change (RT_I2C_ADDR_10BIT 0) with false. change (RT_I2C_RD 0) with false.
  change (RT_I2C_IGNORE_NACK 0) with false. cbn iota. rewrite i32_retries, own_address.
  rewrite send_address_ok by (first [lia | by rewrite Z.shiftr_div_pow2, Z.mul_comm, Z.div_mul by lia]).
  by rewrite Z.odd_even.
Qed.
Lemma address_read n b r : i2c_bit_send_address P retries (mk_msg own 1 n b) (Address, r) = Ok (RT_EOK, b_talk d r).
Proof.
  unfold i2c_bit_send_address. cbn [flags addr]. change (RT_I2C_ADDR_10BIT 1) with false. change (RT_I2C_RD 1) with true.
  change (RT_I2C_IGNORE_NACK 1) with false. cbn iota. rewrite i32_retries, own_address.
  assert (Z.lor (2 * own) 1 = 2 * own + 1) as -> by (destruct own; done || lia).
  rewrite send_address_ok; [by rewrite Z.odd_odd|lia|].
  rewrite Z.shiftr_div_pow2 by lia. change (2 ^ 1) with 2. symmetry. apply Z.div_unique with 1; lia.
Qed.

(** The bus can be started: for the first message, or again. *)
Definition can_start (i : Z) m : Prop := (i = 0 /\ m = Idle) \/ (i <> 0 /\ receiving m).
Lemma started i m r :
  can_start i m -> (if negb (i =? 0) then p_restart P (m, r) else p_start P (m, r)) = Ok (Address, on_start d r).
Proof. intros [[-> ->]|[Hi Hm]]; [done|]. rewrite (proj2 (Z.eqb_neq _ _) Hi). cbn [negb]. by destruct m. Qed.

Lemma write_message i m n data r :
  n = Z.of_nat (length data) -> can_start i m -> Forall byte data -> Z.of_nat (length data) < 65536 ->
  xfer_msg P retries i (mk_msg own 0 n data) (m, r) =
    Ok (None, mk_msg own 0 n data, (Listening, store (on_start d r) data)).
Proof.
  intros -> Hs Hd Hl. unfold xfer_msg. cbn [flags]. change (RT_I2C_NO_START 0) with false. change (RT_I2C_RD 0) with false. cbn [negb].
  rewrite started by done. cbn [mbind result_bind]. rewrite address_write. cbn [mbind result_bind]. change (RT_EOK =? RT_EOK) with true. cbn [negb andb].
  unfold i2c_send_bytes. cbn [len buf flags]. rewrite Nat2Z.id.
  pose proof (send_loop_store [] data (RT_I2C_IGNORE_NACK 0) (on_start d r) Hd) as E. cbn [app length Nat.add] in E.
  change (Z.of_nat 0) with 0 in E. rewrite E. cbn [mbind result_bind]. rewrite i32_small by lia. by rewrite Z.ltb_irrefl.
Qed.

Lemma fetch_S n r : fetch (S n) r =
  (u8 (cell r (pointer r)) :: fst (fetch n (snd (next_byte d r))), snd (fetch n (snd (next_byte d r)))).
Proof. cbn [fetch register_device next_byte snd]. by destruct (fetch n _). Qed.

Lemma read_message i m n old r :
  n = Z.of_nat (length old) -> can_start i m -> old <> [] -> Z.of_nat (length old) < 65536 ->
  xfer_msg P retries i (mk_msg own 1 n old) (m, r) =
    Ok (None, mk_msg own 1 n (fst (fetch (length old) (on_start d r))),
        (Silent, snd (fetch (length old) (on_start d r)))).
Proof.
  intros -> Hs Hne Hl. unfold xfer_msg. cbn [flags]. change (RT_I2C_NO_START 1) with false. change (RT_I2C_RD 1) with true. cbn [negb].
  rewrite started by done. cbn [mbind result_bind]. rewrite address_read. cbn [mbind result_bind]. change (RT_EOK =? RT_EOK) with true. cbn [negb andb].
  unfold i2c_recv_bytes. cbn [len buf flags addr]. rewrite Nat2Z.id. unfold b_talk. cbn [register_device next_byte on_start cell pointer first].
  destruct old as [|o old]; [done|]. cbn [length]. rewrite fetch_S.
  pose proof (recv_loop_fetch 1 [] (o :: old) (mk_registers (cell r) (next_pointer (pointer r)) true) (u8 (cell r (pointer r))) eq_refl
    ltac:(done) (u8_range _)) as E. cbn [app length Nat.add Nat.sub] in E. rewrite Nat.sub_0_r in E. change (Z.of_nat 0) with 0 in E.
  rewrite E. cbn [mbind result_bind fst snd]. rewrite i32_small by (cbn in Hl; lia). by rewrite Z.ltb_irrefl.
Qed.

Lemma registers_on_bytes reg data old r :
  byte reg -> Forall byte data -> data <> [] -> (length data <= 256)%nat -> length old = length data ->
  exists r', i2c_bit_xfer P retries
    [mk_msg own 0 (Z.of_nat (S (length data))) (reg :: data); mk_msg own 0 1 [reg]; mk_msg own 1 (Z.of_nat (length data)) old] (Idle, r) =
    Ok (3, [mk_msg own 0 (Z.of_nat (S (length data))) (reg :: data); mk_msg own 0 1 [reg]; mk_msg own 1 (Z.of_nat (length data)) data],
        (Idle, r')).
Proof.
  intros Hr Hd Hne Hl Ho. unfold i2c_bit_xfer. cbn [xfer_loop].
  rewrite (write_message 0) by (first [done | by left | by constructor | cbn [length]; lia]). cbn [mbind result_bind].
  rewrite (write_message (0 + 1)) by (first [done | by right | by constructor | cbn [length]; lia]). cbn [mbind result_bind].
  rewrite (read_message (0 + 1 + 1)) by (first [by rewrite Ho | by right | intros ->; by destruct data | lia]). cbn [mbind result_bind].
  eexists. cbn [flags]. change (RT_I2C_NO_STOP 1) with false. cbn [negb p_stop byte_prims b_stop fst snd mbind result_bind].
  change (u32 (0 + 1 + 1 + 1)) with 3. rewrite Ho.
  assert (fst (fetch (length data) (on_start d (store (on_start d (store (on_start d r) (reg :: data))) [reg]))) = data) as ->; [|done].
  cbn [store register_device on_start on_byte snd first cell pointer]. by apply fetch_stored.
Qed.
End Registers.

(** ** Errors *)

Section Errors.
Context {S : Type} (d : slave S) (retries own : Z) (b : list Z) (msgs : list rt_i2c_msg).
Context (Hown : 0 <= own < 128) (Hretries : 0 <= retries < 2 ^ 31) (Hb : Forall byte b) (Hlen : Z.of_nat (length b) < 65536).
Notation P := (byte_prims d).
Notation msg := (mk_msg own 0 (Z.of_nat (length b)) b).

(** Nobody answers: after the last try the transfer ends. *)
Lemma address_loop_absent n ret a x :
  (forall a x, fst (on_address d a x) = false) ->
  exists x', address_loop P (Datatypes.S n) ret a (Address, x) = Ok (0, (Silent, x')).
Proof.
  intros Ha. revert ret x. induction n as [|n IH]; intros ret x.
  - cbn [address_loop p_writeb byte_prims b_writeb fst snd]. specialize (Ha (u8 a) x). destruct (on_address d (u8 a) x) as [ack x1].
    cbn [fst] in Ha. subst ack. by exists x1.
  - specialize (Ha (u8 a) x) as Ha1. remember (Datatypes.S n) as n1 eqn:En. cbn [address_loop p_writeb byte_prims b_writeb fst snd].
    destruct (on_address d (u8 a) x) as [ack x1]. cbn [fst] in Ha1. subst ack n1.
    cbn [Z.b2z mbind result_bind Z.eqb orb Nat.eqb p_stop p_start p_delay2 byte_prims b_stop b_start fst snd]. apply IH.
Qed.

Lemma own_byte : u8 (u8 (Z.shiftl own 1)) = 2 * own /\ u8 (Z.shiftl own 1) = 2 * own.
Proof. rewrite (own_address own Hown). rewrite u8_small by lia. done. Qed.

Lemma absent_device x :
  (forall a x, fst (on_address d a x) = false) ->
  exists x', i2c_bit_xfer P retries (msg :: msgs) (Idle, x) = Ok (u32 (- RT_EIO), msg :: msgs, (Idle, x')).
Proof.
  intros Ha. unfold i2c_bit_xfer. cbn [xfer_loop]. unfold xfer_msg. cbn [flags].
  change (RT_I2C_NO_START 0) with false. change (0 =? 0) with true. cbn [negb p_start byte_prims b_start fst snd mbind result_bind].
  unfold i2c_bit_send_address, i2c_send_address. cbn [flags addr]. change (RT_I2C_ADDR_10BIT 0) with false. change (RT_I2C_RD 0) with false.
  change (RT_I2C_IGNORE_NACK 0) with false. cbn iota. rewrite (i32_retries retries Hretries).
  replace (Z.to_nat (retries + 1)) with (Datatypes.S (Z.to_nat retries)) by lia.
  destruct (address_loop_absent (Z.to_nat retries) 0 (u8 (Z.shiftl own 1)) (on_start d x) Ha) as [x1 ->]. by eexists.
Qed.

(** The bytes are all acknowledged. *)
Fixpoint accepts (data : list Z) (x : S) : bool :=
  match data with [] => true | v :: data => let '(ack, x) := on_byte d v x in ack && accepts data x end.

Lemma send_loop_refused pre data x :
  Forall byte data -> accepts data x = false ->
  exists x', send_loop P (length data) (Z.of_nat (length pre)) (pre ++ data) false (Listening, x) = Ok (0, (Silent, x')).
Proof.
  intros Hd. revert pre x. induction Hd as [|v data Hv Hd IH]; intros pre x; [done|]. cbn [accepts length send_loop].
  rewrite (aget_Ok _ _ v) by (rewrite ?Nat2Z.id; first [lia | by apply list_lookup_middle]). cbn [mbind result_bind].
  cbn [p_writeb byte_prims b_writeb fst snd]. rewrite u8_small by done. destruct (on_byte d v x) as [[] x1]; cbn [andb].
  - intros Hn. replace (Z.of_nat (length pre) + 1) with (Z.of_nat (length (pre ++ [v]))) by (rewrite length_app; cbn; lia).
    replace (pre ++ v :: data) with ((pre ++ [v]) ++ data) by (by rewrite <- app_assoc). by apply IH.
  - intros _. by exists x1.
Qed.

Lemma refused_byte x x1 :
  on_address d (2 * own) (on_start d x) = (true, x1) -> accepts b x1 = false ->
  exists x', i2c_bit_xfer P retries (msg :: msgs) (Idle, x) = Ok (u32 (- RT_ERROR), msg :: msgs, (Idle, x')).
Proof.
  intros Ha Hn. unfold i2c_bit_xfer. cbn [xfer_loop]. unfold xfer_msg. cbn [flags].
  change (RT_I2C_NO_START 0) with false. change (0 =? 0) with true. cbn [negb p_start byte_prims b_start fst snd mbind result_bind].
  unfold i2c_bit_send_address, i2c_send_address. cbn [flags addr]. change (RT_I2C_ADDR_10BIT 0) with false. change (RT_I2C_RD 0) with false.
  change (RT_I2C_IGNORE_NACK 0) with false. cbn iota. rewrite (i32_retries retries Hretries).
  replace (Z.to_nat (retries + 1)) with (Datatypes.S (Z.to_nat retries)) by lia. cbn [address_loop p_writeb byte_prims b_writeb fst snd].
  rewrite (proj1 own_byte), Ha, Z.odd_even. cbn [Z.b2z mbind result_bind].
  change (1 =? 1) with true. cbn [orb mbind result_bind]. change (1 =? 1) with true. cbn [negb andb mbind result_bind].
  change (RT_EOK =? RT_EOK) with true. cbn [negb andb]. unfold i2c_send_bytes. cbn [len buf flags]. rewrite Nat2Z.id.
  change (RT_I2C_IGNORE_NACK 0) with false.
  destruct (send_loop_refused [] b x1 Hb Hn) as [x2 E]. cbn [app length] in E. change (Z.of_nat 0) with 0 in E. rewrite E.
  cbn [mbind result_bind]. assert (0 < Z.of_nat (length b)) by (destruct b; [done|cbn; lia]).
  change (i32 0) with 0. replace (0 <? Z.of_nat (length b)) with true by lia. by eexists.
Qed.
End Errors.

(** A clock that somebody holds down for ever. *)
Section Stuck.
Context (sda : list ev -> bool) (delay t retries : Z) (Ht : 1 <= t < 2 ^ 31) (Hretries : 0 <= retries < 2 ^ 31).
Notation ops := (mk_ops sda (Some (fun _ => false)) delay t).
Implicit Types (s : i2c).

Lemma SCL_H_stuck s : exists s', SCL_H ops s = Ok (- RT_ETIMEOUT, s').
Proof.
  unfold SCL_H. cbn [get_scl]. unfold SCL_FUEL. set (s1 := SET_SCL 1 s). cbn [wait_scl timeout]. rewrite half_time by done.
  assert (t <= 2 * ((t + 1) / 2) <= t + 1) as Hh by (pose proof (Z.div_mod (t + 1) 2); pose proof (Z.mod_pos_bound (t + 1) 2); lia).
  set (n := (t + 1) / 2) in *.
  assert (forall k, 0 <= k -> u32 (u32 (tick s1 + k) + n) = u32 (tick s1 + (k + n))) as Ha.
  { intros k Hk. unfold u32. rewrite Zplus_mod_idemp_l. f_equal. lia. }
  cbn [tick rt_thread_delay hist]. rewrite (Ha n), (Ha (n + n)) by lia.
  assert (forall k, 0 <= k < 2 ^ 32 -> u32 (u32 (tick s1 + k) - tick s1) = k) as He by (intros; by apply elapsed).
  rewrite Z.sub_diag, !He by lia. change (u32 0) with 0. replace (t <? 0) with false by lia.
  replace (t <? n + n + n) with true by lia. destruct (t <? n), (t <? n + n); by eexists.
Qed.

Lemma writeb_stuck v s : exists s', i2c_writeb ops v s = Ok (- RT_ETIMEOUT, s').
Proof.
  unfold i2c_writeb. cbn [writeb_loop].
  match goal with |- context [SCL_H ops ?x] => destruct (SCL_H_stuck x) as [s1 E] end. rewrite E. by eexists.
Qed.
Lemma stop_stuck s : exists s', i2c_stop ops s = Ok s'.
Proof. unfold i2c_stop. destruct (SCL_H_stuck (i2c_delay ops (SDA_L s))) as [s1 ->]. by eexists. Qed.

Lemma address_loop_stuck n ret a s : exists s', address_loop (bit_prims ops) (S n) ret a s = Ok (- RT_ETIMEOUT, s').
Proof.
  revert ret s. induction n as [|n IH]; intros ret s; [|remember (S n) as n1 eqn:En]; cbn [address_loop p_writeb bit_prims];
    destruct (writeb_stuck a s) as [s1 ->]; cbn [mbind result_bind]; change (- RT_ETIMEOUT =? 1) with false; cbn [orb].
  - by eexists.
  - subst n1. cbn [Nat.eqb p_stop p_start p_delay2 bit_prims]. destruct (stop_stuck s1) as [s2 ->]. cbn [mbind result_bind]. apply IH.
Qed.

Lemma xfer_stuck own n b msgs s :
  exists s', i2c_bit_xfer (bit_prims ops) retries (mk_msg own 0 n b :: msgs) s = Ok (u32 (- RT_EIO), mk_msg own 0 n b :: msgs, s').
Proof.
  unfold i2c_bit_xfer. cbn [xfer_loop]. unfold xfer_msg. cbn [flags].
  change (RT_I2C_NO_START 0) with false. change (0 =? 0) with true. cbn [negb p_start bit_prims mbind result_bind].
  unfold i2c_bit_send_address, i2c_send_address. cbn [flags addr]. change (RT_I2C_ADDR_10BIT 0) with false. change (RT_I2C_RD 0) with false.
  change (RT_I2C_IGNORE_NACK 0) with false. cbn iota. rewrite (i32_retries retries Hretries).
  replace (Z.to_nat (retries + 1)) with (S (Z.to_nat retries)) by lia.
  destruct (address_loop_stuck (Z.to_nat retries) 0 (u8 (Z.shiftl own 1)) (i2c_start ops s)) as [s1 ->]. cbn [mbind result_bind].
  change (- RT_ETIMEOUT =? 1) with false. cbn [negb andb mbind result_bind]. change (- RT_EIO =? RT_EOK) with false.
  cbn [negb andb mbind result_bind]. change (RT_I2C_NO_STOP 0) with false. cbn [negb p_stop bit_prims].
  destruct (stop_stuck s1) as [s2 ->]. by eexists.
Qed.
End Stuck.

(** C38: A transfer on the two lines is a transfer of bytes: with any device that
    holds the clock for at most two looks at it, any messages and any number of
    retries, if the messages keep to the protocol on a bus of bytes (a read is of one
    byte at least, and every byte but the last is acknowledged), the functions
    that move single bits return the same result and the same data, without a fault,
    and the lines and the device are left as on the bus of bytes. *)
Theorem i2c_lines_carry_bytes {S} (d : slave S) sense delay t retries msgs x tick ret msgs' m x' :
  1 <= t < 2 ^ 31 -> (forall n, (stretch d n <= if sense : bool then 2 else 0)%nat) ->
  (forall x, 0 <= fst (next_byte d x) < 256) ->
  i2c_bit_xfer (byte_prims d) retries msgs (Idle, x) = Ok (ret, msgs', (m, x')) ->
  exists s', i2c_bit_xfer (bit_prims (bus_ops d sense delay t (quiet_lines x))) retries msgs (mk_i2c [] tick) = Ok (ret, msgs', s') /\
    shape m (replay d (quiet_lines x) (hist s')) x'.
Proof. apply carry. Qed.

(** Two bytes are written at 5 and read back, with two retries, by a device that holds
    every other clock. *)
Definition sample_device : slave registers := register_device 0x38 (fun n => Nat.modulo n 2).
Definition sample_registers : registers := mk_registers (fun _ => 0) 0 false.
Definition sample_messages (b : list Z) : list rt_i2c_msg :=
  [mk_msg 0x38 0 3 [5; 0xa5; 0x5a]; mk_msg 0x38 0 1 [5]; mk_msg 0x38 1 2 b].
Definition sample_after : registers :=
  mk_registers (fun p => if p =? 6 then 0x5a else if p =? 5 then 0xa5 else 0) 7 true.

Lemma sample_stretch n : (stretch sample_device n <= 2)%nat.
Proof. cbn. pose proof (Nat.mod_upper_bound n 2). lia. Qed.
Lemma sample_bytes x : 0 <= fst (next_byte sample_device x) < 256.
Proof. apply u8_range. Qed.

Lemma i2c_lines_carry_bytes_witness :
  exists s', i2c_bit_xfer (bit_prims (bus_ops sample_device true 1 100 (quiet_lines sample_registers))) 2 (sample_messages [0; 0])
      (mk_i2c [] 0) = Ok (3, sample_messages [0xa5; 0x5a], s') /\
    shape Idle (replay sample_device (quiet_lines sample_registers) (hist s')) sample_after.
Proof.
  apply (i2c_lines_carry_bytes sample_device true 1 100 2 (sample_messages [0; 0]) sample_registers 0 3 (sample_messages [0xa5; 0x5a]) Idle sample_after).
  - lia.
  - exact sample_stretch.
  - exact sample_bytes.
  - reflexivity.
Defined.

(** C39: What is written into the registers of a device is read back over the
    lines: for every address, register and up to 256 bytes, a transfer that writes
    the register's number and the bytes, writes the number again and reads, returns 3
    and the bytes, whatever the registers held, however often the clock is held back
    (for up to two looks) and whatever the tick. *)
Theorem i2c_registers_roundtrip own hold sense delay t retries reg data old r tick :
  0 <= own < 128 -> 0 <= retries < 2 ^ 31 -> 1 <= t < 2 ^ 31 -> (forall n, (hold n <= if sense : bool then 2 else 0)%nat) ->
  byte reg -> Forall byte data -> data <> [] -> (length data <= 256)%nat -> length old = length data ->
  exists s', i2c_bit_xfer (bit_prims (bus_ops (register_device own hold) sense delay t (quiet_lines r))) retries
    [mk_msg own 0 (Z.of_nat (S (length data))) (reg :: data); mk_msg own 0 1 [reg]; mk_msg own 1 (Z.of_nat (length data)) old]
    (mk_i2c [] tick) =
    Ok (3, [mk_msg own 0 (Z.of_nat (S (length data))) (reg :: data); mk_msg own 0 1 [reg]; mk_msg own 1 (Z.of_nat (length data)) data], s').
Proof.
  intros Ho Hr Ht Hh Hreg Hd Hne Hl Hold.
  destruct (registers_on_bytes own hold retries Ho Hr reg data old r Hreg Hd Hne Hl Hold) as [r' E].
  destruct (carry (register_device own hold) sense delay t retries _ r tick _ _ _ _ Ht Hh (fun x => u8_range _) E) as (s' & Es & _).
  by exists s'.
Qed.

Lemma i2c_registers_roundtrip_witness :
  exists s', i2c_bit_xfer (bit_prims (bus_ops (register_device 0x38 (fun _ => 2%nat)) true 1 100 (quiet_lines sample_registers))) 0
    [mk_msg 0x38 0 3 [255; 1; 2]; mk_msg 0x38 0 1 [255]; mk_msg 0x38 1 2 [7; 7]] (mk_i2c [] 4294967295) =
    Ok (3, [mk_msg 0x38 0 3 [255; 1; 2]; mk_msg 0x38 0 1 [255]; mk_msg 0x38 1 2 [1; 2]], s').
Proof.
  apply (i2c_registers_roundtrip 0x38 (fun _ => 2%nat) true 1 100 0 255 [1; 2] [7; 7] sample_registers 4294967295);
    try done; try (unfold byte; lia); try (cbn; lia).
  repeat constructor; unfold byte; lia.
Defined.

(** C40: Errors are reported and leave the bus free: a write to a device that
    does not answer ends with [- RT_EIO] after the last try, one of which the device refuses a
    byte with [- RT_ERROR], and one whose clock is held down for ever with
    [- RT_EIO] instead of waiting for ever. *)
Theorem i2c_errors_reported {S} (d : slave S) sense delay t retries own b msgs x tick :
  0 <= own < 128 -> 0 <= retries < 2 ^ 31 -> 1 <= t < 2 ^ 31 -> (forall n, (stretch d n <= if sense : bool then 2 else 0)%nat) ->
  (forall x, 0 <= fst (next_byte d x) < 256) -> Forall byte b -> Z.of_nat (length b) < 65536 ->
  let xfer ops := i2c_bit_xfer (bit_prims ops) retries (mk_msg own 0 (Z.of_nat (length b)) b :: msgs) (mk_i2c [] tick) in
  let lines := bus_ops d sense delay t (quiet_lines x) in
  let ends r := exists s' x', xfer lines = Ok (u32 r, mk_msg own 0 (Z.of_nat (length b)) b :: msgs, s') /\
                              shape Idle (replay d (quiet_lines x) (hist s')) x' in
  ((forall a x, fst (on_address d a x) = false) -> ends (- RT_EIO)) /\
  (forall x1, on_address d (2 * own) (on_start d x) = (true, x1) -> accepts d b x1 = false -> ends (- RT_ERROR)) /\
  (forall sda, exists s', xfer (mk_ops sda (Some (fun _ => false)) delay t) =
                          Ok (u32 (- RT_EIO), mk_msg own 0 (Z.of_nat (length b)) b :: msgs, s')).
Proof.
  intros Ho Hr Ht Hs Hby Hb Hl xfer lines ends. split_and!.
  - intros Ha. destruct (absent_device d retries own b msgs Hr x Ha) as [x' E].
    destruct (carry d sense delay t retries _ x tick _ _ _ _ Ht Hs Hby E) as (s' & Es & R). by exists s', x'.
  - intros x1 Ha Hn. destruct (refused_byte d retries own b msgs Ho Hr Hb Hl x x1 Ha Hn) as [x' E].
    destruct (carry d sense delay t retries _ x tick _ _ _ _ Ht Hs Hby E) as (s' & Es & R). by exists s', x'.
  - intros sda. exact (xfer_stuck sda delay t retries Ht Hr own (Z.of_nat (length b)) b msgs (mk_i2c [] tick)).
Qed.

(** A device that takes its address and nothing else. *)
Definition deaf_device : slave unit :=
  mk_slave unit (fun _ => tt) (fun _ => tt) (fun a _ => (a =? 0x70, tt)) (fun _ _ => (false, tt)) (fun _ => (0, tt)) (fun _ => 0%nat).
Lemma i2c_errors_reported_witness :
  let xfer ops := i2c_bit_xfer (bit_prims ops) 1 [mk_msg 0x38 0 1 [9]] (mk_i2c [] 0) in
  let lines := bus_ops deaf_device false 1 100 (quiet_lines tt) in
  let ends r := exists s' x', xfer lines = Ok (u32 r, [mk_msg 0x38 0 1 [9]], s') /\
                              shape Idle (replay deaf_device (quiet_lines tt) (hist s')) x' in
  ((forall a x, fst (on_address deaf_device a x) = false) -> ends (- RT_EIO)) /\
  (forall x1, on_address deaf_device (2 * 0x38) (on_start deaf_device tt) = (true, x1) -> accepts deaf_device [9] x1 = false ->
     ends (- RT_ERROR)) /\
  (forall sda, exists s', xfer (mk_ops sda (Some (fun _ => false)) 1 100) = Ok (u32 (- RT_EIO), [mk_msg 0x38 0 1 [9]], s')).
Proof.
  apply (i2c_errors_reported deaf_device false 1 100 1 0x38 [9] [] tt 0); try (cbn; lia); try done.
  repeat constructor; unfold byte; lia.
Defined.

(** ** What goes wrong *)

(** After a transfer without a stop the next one pulls the data down while the clock is
    low, which is no start: the device, still listening, stores the address as a byte. *)
Example start_without_stop :
  let lines := bus_ops sample_device true 1 100 (quiet_lines sample_registers) in
  match i2c_bit_xfer (bit_prims lines) 0 [mk_msg 0x38 0x80 1 [5]] (mk_i2c [] 0) with
  | Ok (ret1, _, s1) =>
      match i2c_bit_xfer (bit_prims lines) 0 [mk_msg 0x38 0 1 [6]] s1 with
      | Ok (ret2, _, s2) =>
          let r := st (replay sample_device (quiet_lines sample_registers) (hist s2)) in
          (ret1, ret2, cell r 5, cell r 6, pointer r) = (1, 1, 0x70, 6, 7)
      | Fault _ => False
      end
  | Fault _ => False
  end.
Proof. vm_compute. reflexivity. Qed.

(** The length of a message has 16 bits, the count that is reported 32: nothing is sent, and
    65536 bytes are reported. *)
Example long_message_lost :
  exists s, rt_i2c_master_send (byte_prims sample_device) 0 0x38 0 (replicate 10 1) 65536 (Idle, sample_registers) = Ok (65536, s).
Proof. eexists. vm_compute. reflexivity. Qed.
End I2c.
