(* ===== verification/DataQueue.v ===== *)
(** * Data queues (rt-thread/components/drivers/ipc/dataqueue.c)

    A data queue is a ring of pointers with their sizes, two suspend lists, a low
    water mark and a callback.  A call that may wait is the part up to the
    [rt_schedule] and the part after it, which tries again with the same time
    limit.  The event a call hands to [evt_notify] is part of its answer.

    The theorems are about every interleaving of calls by any threads with
    anything else the kernel does: each call answers, and notifies, what a
    bounded queue with that water mark does, and no wake-up is lost: a thread
    that waits to push is woken once the queue is down to the mark. *)

From stdpp Require Import functions fin_maps.
From S2P Require Import Prelude Timer Thread Evolve Ipc Channel.

Module DataQueue.
Import Timer Thread Evolve Ipc Channel.

Definition RT_EEMPTY : Z := 4.
Definition RT_ENOMEM : Z := 5.
Definition DATAQUEUE_MAGIC : Z := 0xbead0e0e.
Definition RT_DATAQUEUE_EVENT_POP : Z := 0x01.
Definition RT_DATAQUEUE_EVENT_PUSH : Z := 0x02.
Definition RT_DATAQUEUE_EVENT_LWM : Z := 0x03.

Record rt_data_item := mk_item { data_ptr : Z; data_size : Z }.
#[export] Instance item_inhabited : Inhabited rt_data_item := populate (mk_item 0 0).
#[export] Instance item_eq_dec : EqDecision rt_data_item.
Proof. solve_decision. Defined.

(** [struct rt_data_queue]; the bits [is_empty] and [is_full] are booleans, a
    suspend list is the address of its head, [evt_notify] is whether there is a
    callback.  [queue] is empty while the pointer is null. *)
Record rt_data_queue := mk_dq {
  magic : Z; size : Z; lwm : Z; get_index : Z; is_empty : bool; put_index : Z; is_full : bool;
  queue : list rt_data_item; suspended_push_list : nat; suspended_pop_list : nat; evt_notify : bool }.

(** What a bit-field of 15 bits keeps. *)
Definition u15 (z : Z) : Z := z mod 2 ^ 15.

Definition set_put (pool : list rt_data_item) (put : Z) (empty full : bool) (q : rt_data_queue) : rt_data_queue :=
  mk_dq (magic q) (size q) (lwm q) (get_index q) empty put full pool
    (suspended_push_list q) (suspended_pop_list q) (evt_notify q).
Definition set_get (get : Z) (empty full : bool) (q : rt_data_queue) : rt_data_queue :=
  mk_dq (magic q) (size q) (lwm q) get empty (put_index q) full (queue q)
    (suspended_push_list q) (suspended_pop_list q) (evt_notify q).

(** [push] and [pop] are the addresses of the list heads, [mem] what [rt_malloc]
    returned. *)
Definition rt_data_queue_init (push pop : nat) (sz mark : Z) (notify : bool)
    (mem : option (list rt_data_item)) (k : kernel) : result (Z * rt_data_queue * kernel) :=
  _ ← rt_assert (0 <? sz);
  let q pool := mk_dq DATAQUEUE_MAGIC sz mark 0 true 0 false pool push pop notify in
  let k := new_head pop (new_head push k) in
  match mem with
  | Some pool => Ok (RT_EOK, q pool, k)
  | None => Ok (- RT_ENOMEM, q [], k)
  end.

Definition check_magic (q : rt_data_queue) : result unit := rt_assert (magic q =? DATAQUEUE_MAGIC).

Definition rt_data_queue_len (q : rt_data_queue) : result Z :=
  _ ← check_magic q;
  if is_empty q then Ok 0
  else
    let len := if get_index q <? put_index q then i16 (put_index q - get_index q)
               else i16 (size q + put_index q - get_index q) in
    Ok (u16 len).

(** How a call ends, with the event for the callback, or that it waits. *)
Inductive outcome := Return (err : Z) (notified : option Z) | Block.
Definition notify (e : Z) (q : rt_data_queue) : option Z := if evt_notify q then Some e else None.

(** The loop body up to the [rt_schedule]: a list in the order of arrival. *)
Definition suspend_on (l t : nat) (timeout : Z) (k : kernel) : result kernel :=
  block_on l RT_IPC_FLAG_FIFO t timeout k.

(** From the store into the ring to the end of [rt_data_queue_push]. *)
Definition push_store (item : rt_data_item) (q : rt_data_queue) : result rt_data_queue :=
  pool ← aset (queue q) (put_index q) item;
  let put := u15 (put_index q + 1) in
  let put := if put =? size q then 0 else put in
  Ok (set_put pool put false (if put =? get_index q then true else is_full q) q).
Definition push_now (item : rt_data_item) (q : rt_data_queue) (k : kernel)
  : result (outcome * rt_data_queue * kernel) :=
  q ← push_store item q;
  e ← rt_list_isempty (Waiting (suspended_pop_list q)) k;
  if negb e then
    k ← _ipc_list_resume (suspended_pop_list q) k;
    k ← rt_schedule k;
    Ok (Return RT_EOK None, q, k)
  else Ok (Return RT_EOK (notify RT_DATAQUEUE_EVENT_PUSH q), q, k).

(** The [while] of [rt_data_queue_push], to the next switch or the end. *)
Definition push_loop (thread : option nat) (item : rt_data_item) (timeout : Z) (q : rt_data_queue) (k : kernel)
  : result (outcome * rt_data_queue * kernel) :=
  if is_full q then
    if timeout =? 0 then Ok (Return (- RT_ETIMEOUT) None, q, k)
    else
      t ← the_thread thread;
      let k := with_thread (set_error RT_EOK) t k in
      k ← suspend_on (suspended_push_list q) t timeout k;
      Ok (Block, q, k)
  else push_now item q k.

Definition rt_data_queue_push (item : rt_data_item) (timeout : Z) (q : rt_data_queue) (k : kernel)
  : result (outcome * rt_data_queue * kernel) :=
  _ ← check_magic q;
  _ ← RT_DEBUG_SCHEDULER_AVAILABLE (negb (timeout =? 0)) k;
  push_loop (rt_thread_self k) item timeout q k.
(** The thread [t] of the call runs again. *)
Definition rt_data_queue_push_rest (t : nat) (item : rt_data_item) (timeout : Z) (q : rt_data_queue) (k : kernel)
  : result (outcome * rt_data_queue * kernel) :=
  if negb (error (thread k t) =? RT_EOK) then Ok (Return (error (thread k t)) None, q, k)
  else push_loop (Some t) item timeout q k.

(** From the load to the end of [rt_data_queue_pop]; the item is [*data_ptr] and
    [*size]. *)
Definition pop_load (q : rt_data_queue) : result (rt_data_item * rt_data_queue) :=
  item ← aget (queue q) (get_index q);
  let get := u15 (get_index q + 1) in
  let get := if get =? size q then 0 else get in
  Ok (item, set_get get (if put_index q =? get then true else is_empty q) false q).
Definition pop_now (q : rt_data_queue) (k : kernel)
  : result (outcome * option rt_data_item * rt_data_queue * kernel) :=
  '(item, q) ← pop_load q;
  len ← rt_data_queue_len q;
  if len <=? lwm q then
    k ← wake_first (suspended_push_list q) k;
    Ok (Return RT_EOK (notify RT_DATAQUEUE_EVENT_LWM q), Some item, q, k)
  else Ok (Return RT_EOK (notify RT_DATAQUEUE_EVENT_POP q), Some item, q, k).

Definition pop_loop (thread : option nat) (timeout : Z) (q : rt_data_queue) (k : kernel)
  : result (outcome * option rt_data_item * rt_data_queue * kernel) :=
  if is_empty q then
    if timeout =? 0 then Ok (Return (- RT_ETIMEOUT) None, None, q, k)
    else
      t ← the_thread thread;
      let k := with_thread (set_error RT_EOK) t k in
      k ← suspend_on (suspended_pop_list q) t timeout k;
      Ok (Block, None, q, k)
  else pop_now q k.

Definition rt_data_queue_pop (timeout : Z) (q : rt_data_queue) (k : kernel)
  : result (outcome * option rt_data_item * rt_data_queue * kernel) :=
  _ ← check_magic q;
  _ ← RT_DEBUG_SCHEDULER_AVAILABLE (negb (timeout =? 0)) k;
  pop_loop (rt_thread_self k) timeout q k.
Definition rt_data_queue_pop_rest (t : nat) (timeout : Z) (q : rt_data_queue) (k : kernel)
  : result (outcome * option rt_data_item * rt_data_queue * kernel) :=
  if negb (error (thread k t) =? RT_EOK) then Ok (Return (error (thread k t)) None, None, q, k)
  else pop_loop (Some t) timeout q k.

Definition rt_data_queue_peek (q : rt_data_queue) : result (Z * option rt_data_item) :=
  _ ← check_magic q;
  if is_empty q then Ok (- RT_EEMPTY, None)
  else item ← aget (queue q) (get_index q); Ok (RT_EOK, Some item).

(** The loops that wake all threads of a list are those of [_ipc_list_resume_all]. *)
Definition rt_data_queue_reset (q : rt_data_queue) (k : kernel) : result (rt_data_queue * kernel) :=
  _ ← check_magic q;
  let q := set_get 0 true false (set_put (queue q) 0 true false q) in
  let k := rt_enter_critical k in
  k ← _ipc_list_resume_all (suspended_pop_list q) k;
  k ← _ipc_list_resume_all (suspended_push_list q) k;
  k ← rt_exit_critical k;
  k ← rt_schedule k;
  Ok (q, k).

(** The freed memory is gone from the queue. *)
Definition rt_data_queue_deinit (q : rt_data_queue) (k : kernel) : result (Z * rt_data_queue * kernel) :=
  _ ← check_magic q;
  '(q, k) ← rt_data_queue_reset q k;
  Ok (RT_EOK,
      mk_dq 0 (size q) (lwm q) (get_index q) (is_empty q) (put_index q) (is_full q) []
        (suspended_push_list q) (suspended_pop_list q) (evt_notify q), k).

(** ** The data queue among threads *)

(** A thread inside a call that may wait. *)
Inductive dq_call := Pushing (item : rt_data_item) (timeout : Z) | Popping (timeout : Z).
Definition pushes (c : dq_call) : Prop := match c with Pushing _ _ => True | Popping _ => False end.
Definition pops (c : dq_call) : Prop := match c with Pushing _ _ => False | Popping _ => True end.
Definition call_timeout (c : dq_call) : Z := match c with Pushing _ n | Popping n => n end.
#[export] Instance pushes_dec c : Decision (pushes c).
Proof. destruct c; apply _. Defined.
#[export] Instance pops_dec c : Decision (pops c).
Proof. destruct c; apply _. Defined.

Record world := mk_world { dq : rt_data_queue; kern : kernel; calls : gmap nat dq_call }.

(** A call, the continuation of the call of the current thread, or anything else
    in the kernel.  [Reset] runs as one step. *)
Inductive dq_event :=
| Push (item : rt_data_item) (timeout : Z) | Pop (timeout : Z) | Peek | Len | Reset | Continue | Other (e : event).
Inductive reply := Answer (err : Z) (got : option rt_data_item) (notified : option Z) | Blocked.

(** The end of a call by thread [self]; [o] when it was waiting before. *)
Definition settle (o self : option nat) (r : outcome) (got : option rt_data_item) (c : dq_call)
    (q : rt_data_queue) (k : kernel) (cs : gmap nat dq_call) : reply * world :=
  match r, self with
  | Return err n, _ => (Answer err got n, mk_world q k (drop_call o cs))
  | Block, Some t => (Blocked, mk_world q k (<[t := c]> cs))
  | Block, None => (Blocked, mk_world q k cs)
  end.

Definition dq_run (e : dq_event) (wd : world) : result (reply * world) :=
  let q := dq wd in let k := kern wd in let cs := calls wd in
  match e with
  | Push x n =>
      '(r, q, k') ← rt_data_queue_push x n q k;
      Ok (settle None (rt_thread_self k) r None (Pushing x n) q k' cs)
  | Pop n =>
      '(r, got, q, k') ← rt_data_queue_pop n q k;
      Ok (settle None (rt_thread_self k) r got (Popping n) q k' cs)
  | Peek => '(err, got) ← rt_data_queue_peek q; Ok (Answer err got None, wd)
  | Len => n ← rt_data_queue_len q; Ok (Answer n None None, wd)
  | Reset => '(q, k) ← rt_data_queue_reset q k; Ok (Answer RT_EOK None None, mk_world q k cs)
  | Continue =>
      t ← current k;
      match cs !! t with
      | Some (Pushing x n) =>
          '(r, q, k') ← rt_data_queue_push_rest t x n q k;
          Ok (settle (Some t) (Some t) r None (Pushing x n) q k' cs)
      | Some (Popping n) =>
          '(r, got, q, k') ← rt_data_queue_pop_rest t n q k;
          Ok (settle (Some t) (Some t) r got (Popping n) q k' cs)
      | None => Fault OutOfBounds
      end
  | Other e => k ← run e k; Ok (Answer RT_EOK None None, mk_world q k cs)
  end.

(** Who may do what: a call that may wait comes from a thread that is in no call;
    a thread in a call does nothing else, and nobody closes it. *)
Definition may_wait (timeout : Z) (wd : world) : Prop :=
  timeout = 0 \/ (may_block (kern wd) /\ timeout < half /\
                  forall t, rt_current_thread (kern wd) = Some t -> calls wd !! t = None).
Definition dq_enabled (e : dq_event) (wd : world) : Prop :=
  match e with
  | Push _ timeout | Pop timeout => may_wait timeout wd
  | Peek | Len => True
  | Reset => rt_scheduler_lock_nest (kern wd) < 32767
  | Continue => exists t c, rt_current_thread (kern wd) = Some t /\ calls wd !! t = Some c /\
      status (thread (kern wd) t) = RT_THREAD_RUNNING
  | Other e => enabled e (kern wd) /\ forall t, touched e (kern wd) = Some t -> calls wd !! t = None
  end.

(** ** A bounded queue with a low water mark *)

(** The operations; [waited] is whether a thread waits to pop. *)
Inductive op := Put (item : rt_data_item) (waited : bool) | Get | Look | Count | GiveUp | Clear | Silent.

Definition op_of (e : dq_event) (wd : world) : op :=
  let waited := negb (bool_decide (members (Waiting (suspended_pop_list (dq wd))) (kern wd) = [])) in
  match e with
  | Push x _ => Put x waited
  | Pop _ => Get
  | Peek => Look
  | Len => Count
  | Reset => Clear
  | Continue =>
      match rt_current_thread (kern wd) with
      | Some t =>
          if error (thread (kern wd) t) =? RT_EOK then
            match calls wd !! t with Some (Pushing x _) => Put x waited | Some (Popping _) => Get | None => Silent end
          else GiveUp
      | None => Silent
      end
  | Other _ => Silent
  end.

(** What is fixed in a queue: capacity, mark, callback. *)
Record shape := mk_shape { sh_cap : Z; sh_lwm : Z; sh_notify : bool }.
Definition shape_of (q : rt_data_queue) : shape := mk_shape (size q) (lwm q) (evt_notify q).

(** The answers of a bounded queue that holds [l], and what it holds then; the
    answer [Blocked] is possible while the queue is full, or empty. *)
Definition tell (s : shape) (e : Z) : option Z := if sh_notify s then Some e else None.
Definition full (s : shape) (l : list rt_data_item) : bool := sh_cap s <=? Z.of_nat (length l).
Definition replay (s : shape) (l : list rt_data_item) (o : op) (r : reply) : option (list rt_data_item) :=
  match o, r with
  | Put x waited, Answer err None n =>
      if full s l then (if decide (err = - RT_ETIMEOUT /\ n = None) then Some l else None)
      else if decide (err = RT_EOK /\ n = if waited then None else tell s RT_DATAQUEUE_EVENT_PUSH)
           then Some (l ++ [x]) else None
  | Put _ _, Blocked => if full s l then Some l else None
  | Get, Answer err (Some x) n =>
      match l with
      | y :: l' =>
          let e := if Z.of_nat (length l') <=? sh_lwm s then RT_DATAQUEUE_EVENT_LWM else RT_DATAQUEUE_EVENT_POP in
          if decide (err = RT_EOK /\ x = y /\ n = tell s e) then Some l' else None
      | [] => None
      end
  | Get, Answer err None n =>
      if decide (err = - RT_ETIMEOUT /\ n = None /\ l = []) then Some l else None
  | Get, Blocked => if decide (l = []) then Some l else None
  | Look, Answer err got None =>
      if decide (got = l !! 0%nat /\ err = if bool_decide (l = []) then - RT_EEMPTY else RT_EOK) then Some l else None
  | Count, Answer n None None => if decide (n = Z.of_nat (length l)) then Some l else None
  | GiveUp, Answer err None None => if decide (err = RT_EOK) then None else Some l
  | Clear, Answer err None None => if decide (err = RT_EOK) then Some [] else None
  | Silent, Answer _ None None => Some l
  | _, _ => None
  end.

(** Runs, with what was asked and answered, the first first. *)
Inductive dq_reachable (w0 : world) : list (op * reply) -> world -> Prop :=
| dq_start : dq_reachable w0 [] w0
| dq_step tr e w r w' : dq_reachable w0 tr w -> dq_enabled e w -> dq_run e w = Ok (r, w') ->
                        dq_reachable w0 (tr ++ [(op_of e w, r)]) w'.
Fixpoint replay_all (s : shape) (l : list rt_data_item) (tr : list (op * reply)) : option (list rt_data_item) :=
  match tr with
  | [] => Some l
  | (o, r) :: tr => l ← replay s l o r; replay_all s l tr
  end.

(** ** The ring *)

(** The items, oldest first. *)
Definition len_of (q : rt_data_queue) : Z :=
  if is_empty q then 0
  else if get_index q <? put_index q then put_index q - get_index q
  else size q + put_index q - get_index q.
Definition queued (q : rt_data_queue) : list rt_data_item := slots (queue q) (size q) (get_index q) (len_of q).

Record ring_ok (q : rt_data_queue) : Prop := {
  rg_magic : magic q = DATAQUEUE_MAGIC;
  rg_size : 0 < size q <= 32768;
  rg_lwm : 0 <= lwm q;
  rg_pool : size q <= Z.of_nat (length (queue q));
  rg_get : 0 <= get_index q < size q;
  rg_put : 0 <= put_index q < size q;
  rg_empty : is_empty q = true -> is_full q = false;
  rg_flags : get_index q = put_index q <-> is_empty q = true \/ is_full q = true }.

Lemma len_range q : ring_ok q -> 0 <= len_of q <= size q.
Proof. intros []. unfold len_of. destruct (is_empty q); [lia|]. destruct (Z.ltb_spec (get_index q) (put_index q)); lia. Qed.
Lemma len_empty q : ring_ok q -> is_empty q = (len_of q =? 0).
Proof.
  intros [? ? ? ? ? ? ? F]. unfold len_of. destruct (is_empty q); [done|]. symmetry. apply Z.eqb_neq.
  destruct (Z.ltb_spec (get_index q) (put_index q)); lia.
Qed.
Lemma len_full q : ring_ok q -> is_full q = (len_of q =? size q).
Proof.
  intros [? ? ? ? ? ? E F]. unfold len_of. destruct (is_empty q).
  - rewrite E by done. lia.
  - destruct (Z.ltb_spec (get_index q) (put_index q)), (is_full q); destruct F as [F1 F2];
      try (rewrite F2 in *; [lia|by right]); try lia.
Qed.
Lemma put_at q : ring_ok q -> put_index q = (get_index q + len_of q) mod size q.
Proof.
  intros R. pose proof (len_empty q R) as Ee. destruct R as [? ? ? ? ? ? E F]. unfold len_of in *.
  destruct (is_empty q) eqn:Eq.
  - rewrite Z.add_0_r, Z.mod_small by lia. symmetry. apply F. by left.
  - destruct (Z.ltb_spec (get_index q) (put_index q)).
    + rewrite Z.mod_small; lia.
    + replace (get_index q + _) with (put_index q + 1 * size q) by lia.
      rewrite Z.mod_add by lia. by rewrite Z.mod_small.
Qed.
Lemma queue_length_queued q : length (queued q) = Z.to_nat (len_of q).
Proof. apply length_slots. Qed.

Lemma queue_full_queued q : ring_ok q -> full (shape_of q) (queued q) = is_full q.
Proof.
  intros R. pose proof (len_range q R). rewrite len_full by done. unfold full. rewrite queue_length_queued.
  cbn. lia.
Qed.
Lemma queue_empty_queued q : ring_ok q -> queued q = [] <-> is_empty q = true.
Proof.
  intros R. pose proof (len_range q R). rewrite len_empty, Z.eqb_eq by done.
  rewrite <- length_zero_iff_nil, queue_length_queued. lia.
Qed.

(** The next index. *)
Lemma next_index i sz :
  0 <= i < sz -> sz <= 32768 -> (if u15 (i + 1) =? sz then 0 else u15 (i + 1)) = (i + 1) mod sz.
Proof.
  intros Hi Hs. unfold u15. change (2 ^ 15) with 32768. destruct (Z.eq_dec (i + 1) 32768) as [E|E].
  - rewrite E, Z.mod_same by done. assert (sz = 32768) as -> by lia. done.
  - rewrite (Z.mod_small (i + 1) 32768) by lia. destruct (Z.eqb_spec (i + 1) sz) as [<-|].
    + symmetry. apply Z.mod_same. lia.
    + symmetry. apply Z.mod_small. lia.
Qed.

(** The two queues are one object. *)
Definition same_queue (q q' : rt_data_queue) : Prop :=
  shape_of q' = shape_of q /\ suspended_push_list q' = suspended_push_list q /\
  suspended_pop_list q' = suspended_pop_list q.

(** The length from the indices and the flags. *)
Lemma len_unique q n :
  ring_ok q -> 0 <= n <= size q -> put_index q = (get_index q + n) mod size q ->
  (n = 0 -> is_empty q = true) -> (n = size q -> is_full q = true) -> len_of q = n.
Proof.
  intros R Hn Hp He Hf. pose proof (len_range q R) as Hl. pose proof (put_at q R) as Hq.
  pose proof (len_empty q R) as E1. pose proof (len_full q R) as E2.
  destruct (Z.eq_dec n 0) as [->|]; [rewrite He in E1; lia|].
  destruct (Z.eq_dec n (size q)) as [->|]; [rewrite Hf in E2; lia|].
  assert (0 < size q) by apply R.
  destruct (Z.eq_dec (len_of q) (size q)) as [E|].
  - assert (get_index q = put_index q) as Eg by (apply R; right; lia).
    rewrite <- Eg in Hp. rewrite <- (Z.mod_small (get_index q) (size q)) in Hp at 1 by apply R.
    rewrite <- (Z.add_0_r (get_index q)) in Hp at 1. apply mod_inj in Hp; lia.
  - rewrite Hp in Hq. apply mod_inj in Hq; lia.
Qed.

Lemma push_store_spec x q :
  ring_ok q -> is_full q = false ->
  exists q', push_store x q = Ok q' /\ same_queue q q' /\ ring_ok q' /\
    len_of q' = len_of q + 1 /\ queued q' = queued q ++ [x].
Proof.
  intros R Hf. pose proof (len_range q R) as Hl. pose proof (put_at q R) as Hp.
  pose proof (len_full q R) as Ef. pose proof R as [M S L P G U E F]. rewrite Hf in Ef.
  assert (len_of q < size q) as Hlt by lia. unfold push_store. rewrite aset_Ok by lia.
  cbn [mbind result_bind]. cbv zeta. rewrite next_index by lia.
  set (put := (put_index q + 1) mod size q). set (pool := <[_ := x]> (queue q)).
  set (q' := set_put _ _ _ _ _).
  assert (0 <= put < size q) as Hput by (apply Z.mod_pos_bound; lia).
  assert (put = (get_index q + (len_of q + 1)) mod size q) as Ep.
  { unfold put. rewrite Hp, Zplus_mod_idemp_l. f_equal. lia. }
  assert (put = get_index q <-> len_of q + 1 = size q) as Hwrap.
  { split; intros Ew.
    - rewrite Ep in Ew. rewrite <- (Z.mod_small (get_index q) (size q)) in Ew at 2 by done.
      destruct (Z.eq_dec (len_of q + 1) (size q)); [done|].
      rewrite <- (Z.add_0_r (get_index q)) in Ew at 2. apply mod_inj in Ew; lia.
    - rewrite Ep, Ew. replace (get_index q + size q) with (get_index q + 1 * size q) by lia.
      rewrite Z.mod_add by lia. by apply Z.mod_small. }
  assert (ring_ok q') as R'.
  { split; cbn; try done.
    - subst pool. by rewrite length_insert.
    - rewrite Hf. destruct (Z.eqb_spec put (get_index q)); split; auto; try lia; by intros []. }
  assert (len_of q' = len_of q + 1) as El.
  { apply len_unique; cbn; try done; try lia. rewrite <- Hwrap, <- Z.eqb_eq. by intros ->. }
  exists q'. split_and!; try done. unfold queued. rewrite El. cbn. subst pool. rewrite Hp.
  apply slots_put; lia.
Qed.

Lemma pop_load_spec q :
  ring_ok q -> is_empty q = false ->
  exists x q', pop_load q = Ok (x, q') /\ same_queue q q' /\ ring_ok q' /\
    len_of q' = len_of q - 1 /\ queued q = x :: queued q'.
Proof.
  intros R He. pose proof (len_range q R) as Hl. pose proof (put_at q R) as Hp.
  pose proof (len_empty q R) as Ee. pose proof R as [M S L P G U E F]. rewrite He in Ee.
  assert (0 < len_of q) as Hlt by lia. unfold pop_load.
  rewrite (aget_Ok _ _ (queue q !!! Z.to_nat (get_index q))) by
    (try lia; apply list_lookup_lookup_total_lt; lia).
  cbn [mbind result_bind]. cbv zeta. rewrite next_index by lia.
  set (get := (get_index q + 1) mod size q). set (q' := set_get _ _ _ _).
  assert (0 <= get < size q) as Hget by (apply Z.mod_pos_bound; lia).
  assert (put_index q = (get + (len_of q - 1)) mod size q) as Ep.
  { rewrite Hp. unfold get. rewrite Zplus_mod_idemp_l. f_equal. lia. }
  assert (get = put_index q <-> len_of q = 1) as Hwrap.
  { split; intros Ew.
    - rewrite <- (Z.mod_small get (size q)), Ep, <- (Z.add_0_r get) in Ew at 1 by done.
      apply mod_inj in Ew; lia.
    - rewrite Ep, Ew, Z.add_0_r. symmetry. by apply Z.mod_small. }
  assert (ring_ok q') as R'.
  { split; cbn; try done. rewrite He. destruct (Z.eqb_spec (put_index q) get); split; auto; try lia; by intros []. }
  assert (len_of q' = len_of q - 1) as El.
  { apply len_unique; cbn; try done; try lia. intros E1.
    replace (put_index q =? get) with true; [done|]. symmetry. apply Z.eqb_eq. symmetry. apply Hwrap. lia. }
  eexists _, q'. split_and!; try done. unfold queued. rewrite El. cbn. apply slots_get; lia.
Qed.

(** The count, on 16 bits. *)
Lemma len_Ok q : ring_ok q -> rt_data_queue_len q = Ok (len_of q).
Proof.
  intros R. pose proof (len_range q R) as Hl. pose proof (rg_size q R).
  unfold rt_data_queue_len, check_magic. rewrite (rg_magic q R), Z.eqb_refl. cbn [rt_assert mbind result_bind].
  unfold len_of in *. destruct (is_empty q); [done|]. f_equal.
  assert (forall z, 0 <= z <= 32768 -> u16 (i16 z) = z) as Hz.
  { intros z Hz. unfold u16, i16. destruct (Z.eq_dec z 32768) as [->|]; [done|]. rewrite (Z.mod_small (z + 2 ^ 15)); [|lia].
    rewrite Z.mod_small; lia. }
  revert Hl. destruct (_ <? _); intros Hl; apply Hz; lia.
Qed.

(** ** The invariant *)

(** How far the queue is below its mark: so many pushes are due. *)
Definition due (q : rt_data_queue) : Z := Z.min (lwm q + 1) (size q) - len_of q.

Record dq_ok (wd : world) : Prop := {
  dk_kernel : kernel_ok (kern wd);
  dk_current : is_Some (rt_current_thread (kern wd));
  dk_ring : ring_ok (dq wd);
  dk_lists : suspended_push_list (dq wd) <> suspended_pop_list (dq wd);
  dk_pushes : room pushes (suspended_push_list (dq wd)) (due (dq wd)) (calls wd) (kern wd);
  dk_pops : room pops (suspended_pop_list (dq wd)) (len_of (dq wd)) (calls wd) (kern wd);
  dk_times t c : calls wd !! t = Some c -> call_timeout c <> 0 /\ call_timeout c < half }.

Lemma pushes_pops c : pushes c -> ~ pops c.
Proof. destruct c; cbn; tauto. Qed.
Lemma pops_pushes c : pops c -> ~ pushes c.
Proof. destruct c; cbn; tauto. Qed.

(** The state after a step that keeps the object. *)
Lemma dq_ok_intro q q' k' cs' wd :
  dq_ok wd -> q = dq wd -> same_queue q q' -> ring_ok q' ->
  kernel_ok k' -> is_Some (rt_current_thread k') ->
  room pushes (suspended_push_list q) (due q') cs' k' ->
  room pops (suspended_pop_list q) (len_of q') cs' k' ->
  (forall t c, cs' !! t = Some c -> call_timeout c <> 0 /\ call_timeout c < half) ->
  dq_ok (mk_world q' k' cs').
Proof.
  intros W -> (_ & Eu & Eo) R H C Rs Rr T. split; cbn; rewrite ?Eu, ?Eo; try done; apply W.
Qed.

Lemma queue_drop_call_times o (cs : gmap nat dq_call) t c :
  (forall t c, cs !! t = Some c -> call_timeout c <> 0 /\ call_timeout c < half) ->
  drop_call o cs !! t = Some c -> call_timeout c <> 0 /\ call_timeout c < half.
Proof.
  intros H. destruct o as [t'|]; cbn; [|apply H]. intros [_ E]%lookup_delete_Some. by apply (H t).
Qed.

Lemma same_due q q' n : same_queue q q' -> len_of q' = len_of q + n -> due q' = due q - n.
Proof. intros ([= Es El _] & _) E. unfold due. rewrite Es, El, E. lia. Qed.

(** What a step shows: it ends, keeps the invariant, and answers as the bounded
    queue does. *)
Definition answers (o : op) (wd : world) (rep : reply) (wd' : world) : Prop :=
  dq_ok wd' /\ shape_of (dq wd') = shape_of (dq wd) /\
  replay (shape_of (dq wd)) (queued (dq wd)) o rep = Some (queued (dq wd')).
Definition step_ok (o : op) (wd : world) (x : result (reply * world)) : Prop :=
  exists rep wd', x = Ok (rep, wd') /\ answers o wd rep wd'.

(** Whether a thread waits to pop. *)
Definition waited (wd : world) : bool :=
  negb (bool_decide (members (Waiting (suspended_pop_list (dq wd))) (kern wd) = [])).

(** The one who asks: no thread in a call, or the thread that continues. *)
Definition asks (P : dq_call -> Prop) (o : option nat) (wd : world) : Prop :=
  forall t, o = Some t -> exists c, calls wd !! t = Some c /\ P c /\ awake (kern wd) t.

Lemma push_now_ok o self x n wd :
  dq_ok wd -> asks pushes o wd -> is_full (dq wd) = false ->
  exists r q' k', push_now x (dq wd) (kern wd) = Ok (r, q', k') /\
    let '(rep, wd') := settle o self r None (Pushing x n) q' k' (calls wd) in
    answers (Put x (waited wd)) wd rep wd'.
Proof.
  intros W Ho Hf. pose proof W as [H C R Q Rs Rr T].
  destruct (push_store_spec x (dq wd) R Hf) as (q' & E & S & R' & El & Eq).
  destruct (served pushes pops pushes_pops (suspended_push_list (dq wd)) (suspended_pop_list (dq wd))
    _ _ (calls wd) (kern wd) o H C Q Rs Rr Ho) as (k' & Ek & H' & C' & Rs' & Rr').
  assert (dq_ok (mk_world q' k' (drop_call o (calls wd)))) as W'.
  { eapply dq_ok_intro; try done; [by rewrite (same_due _ _ _ S El)|by rewrite El|].
    intros t c. by apply queue_drop_call_times. }
  unfold push_now. rewrite E. cbn [mbind result_bind]. pose proof S as (Es & _ & Eo). rewrite Eo.
  unfold wake_first in Ek. unfold rt_list_isempty in *. rewrite get_list_members in * by apply Rr.
  cbn [mbind result_bind] in *.
  assert (forall nt, nt = (if waited wd then None else tell (shape_of (dq wd)) RT_DATAQUEUE_EVENT_PUSH) ->
    answers (Put x (waited wd)) wd (Answer RT_EOK None nt) (mk_world q' k' (drop_call o (calls wd)))) as Ha.
  { intros nt ->. split_and!; [done|done|]. cbn [replay dq]. rewrite queue_full_queued, Hf by done.
    by rewrite decide_True, Eq. }
  unfold waited in *. case_bool_decide as Em; cbn [negb] in *.
  - injection Ek as <-. eexists _, q', _. split; [done|]. cbn [settle]. apply Ha.
    unfold notify, tell. cbn. by injection Es as _ _ ->.
  - apply bind_Ok in Ek as (k1 & -> & Ek). cbn [mbind result_bind]. rewrite Ek. cbn [mbind result_bind].
    exists (Return RT_EOK None), q', k'. split; [done|]. by apply Ha.
Qed.

Lemma pop_now_ok o self n wd :
  dq_ok wd -> asks pops o wd -> is_empty (dq wd) = false ->
  exists r got q' k', pop_now (dq wd) (kern wd) = Ok (r, got, q', k') /\
    let '(rep, wd') := settle o self r got (Popping n) q' k' (calls wd) in answers Get wd rep wd'.
Proof.
  intros W Ho He. pose proof W as [H C R Q Rs Rr T].
  destruct (pop_load_spec (dq wd) R He) as (x & q' & E & S & R' & El & Eq).
  unfold pop_now. rewrite E. cbn [mbind result_bind]. rewrite len_Ok by done. cbn [mbind result_bind].
  pose proof S as ([= Es Em En] & Eu & Eo). rewrite Eu.
  assert (due q' = due (dq wd) + 1) as Ed.
  { rewrite (same_due _ _ (-1) S); lia. }
  assert (forall k' e, dq_ok (mk_world q' k' (drop_call o (calls wd))) ->
    e = (if len_of q' <=? lwm q' then RT_DATAQUEUE_EVENT_LWM else RT_DATAQUEUE_EVENT_POP) ->
    answers Get wd (Answer RT_EOK (Some x) (notify e q')) (mk_world q' k' (drop_call o (calls wd)))) as Ha.
  { intros k' e W' ->. split_and!; [done|apply S|]. cbn [replay dq]. rewrite Eq, queue_length_queued.
    pose proof (len_range q' R'). rewrite Z2Nat.id by lia. rewrite decide_True; [done|]. split_and!; [done|done|].
    unfold notify, tell. cbn. by rewrite En, Em. }
  destruct (Z.leb_spec (len_of q') (lwm q')) as [Hle|Hgt].
  - destruct (served pops pushes pops_pushes (suspended_pop_list (dq wd)) (suspended_push_list (dq wd))
      _ _ (calls wd) (kern wd) o H C (not_eq_sym Q) Rr Rs Ho) as (k' & Ek & H' & C' & Rr' & Rs').
    rewrite Ek. cbn [mbind result_bind]. eexists _, _, q', k'. split; [done|]. cbn [settle].
    apply Ha; [|done]. eapply dq_ok_intro; try done; [by rewrite Ed|by rewrite El|].
    intros t c. by apply queue_drop_call_times.
  - eexists _, _, q', (kern wd). split; [done|]. cbn [settle]. apply Ha; [|done].
    eapply dq_ok_intro; try done.
    + apply (room_none pushes _ _ (calls wd) _ (kern wd)); [by eexists| |].
      * apply (same_stay pushes _ (due (dq wd))); [|done|done]. apply drop_same. intros t c Et Ec.
        destruct (Ho t Et) as (c' & Ec' & Hp & _). rewrite Ec in Ec'. injection Ec' as ->. by apply pops_pushes.
      * unfold due. rewrite Es, Em in *. lia.
    + rewrite El. destruct o as [t|].
      * destruct (Ho t eq_refl) as (c & Ec & Hp & Haw). apply (room_taken pops _ _ (calls wd) _ _ t c); try done.
        intros j Hj. by apply lookup_delete_ne.
      * apply (room_update pops _ (len_of (dq wd)) _ (calls wd) _ (kern wd)); try done. lia.
    + intros t c. by apply queue_drop_call_times.
Qed.

(** The current thread [t], which may wait at one gate; [o] when it continues. *)
Record turn (P : dq_call -> Prop) (o : option nat) (timeout : Z) (wd : world) (t : nat) : Prop := {
  tn_current : rt_current_thread (kern wd) = Some t;
  tn_running : status (thread (kern wd) t) = RT_THREAD_RUNNING;
  tn_call c : calls wd !! t = Some c -> P c;
  tn_who t' : o = Some t' -> t' = t;
  tn_time : timeout <> 0 /\ timeout < half }.

(** The thread goes to a suspend list without error. *)
Lemma suspend_rooms P Q {Pd : forall c, Decision (P c)} {Qd : forall c, Decision (Q c)} (PQ : forall c, P c -> ~ Q c)
    l l' a a' o timeout c t wd :
  kernel_ok (kern wd) -> turn P o timeout wd t -> l <> l' -> P c -> a <= 0 ->
  room P l a (calls wd) (kern wd) -> room Q l' a' (calls wd) (kern wd) ->
  exists k', suspend_on l t timeout (with_thread (set_error RT_EOK) t (kern wd)) = Ok k' /\
    kernel_ok k' /\ is_Some (rt_current_thread k') /\
    room P l a (<[t := c]> (calls wd)) k' /\ room Q l' a' (<[t := c]> (calls wd)) k'.
Proof.
  intros H [Hc Hs Hp _ [_ Hh]] Hl Pc Ha R R'. set (k1 := with_thread (set_error RT_EOK) t (kern wd)).
  assert (evolves nobody (kern wd) k1) as V by (apply ev_thread; by right).
  assert (kernel_ok k1) as H1 by by apply change_plain_ok.
  assert (room P l a (calls wd) k1) as R1 by by apply (elsewhere P nobody _ _ _ (kern wd)); [|intros ? []|].
  assert (room Q l' a' (calls wd) k1) as R1' by by apply (elsewhere Q nobody _ _ _ (kern wd)); [|intros ? []|].
  assert (status (thread k1 t) = RT_THREAD_RUNNING /\ error (thread k1 t) = RT_EOK) as [Hs1 He1].
  { unfold k1. by rewrite thread_with_thread, decide_True. }
  destruct (block_parked l RT_IPC_FLAG_FIFO t timeout k1) as (k' & E & Pk); try done; [by left|apply R1|].
  exists k'. destruct (parked_rooms P Q PQ l l' a a' (calls wd) k1 k' t c) as [R2 R2']; try done.
  split_and!; try done; apply Pk.
Qed.

Lemma insert_times t c (cs : gmap nat dq_call) j c' :
  (forall t c, cs !! t = Some c -> call_timeout c <> 0 /\ call_timeout c < half) ->
  call_timeout c <> 0 /\ call_timeout c < half ->
  <[t := c]> cs !! j = Some c' -> call_timeout c' <> 0 /\ call_timeout c' < half.
Proof. intros T Hc [[_ <-]|[_ Hj]]%lookup_insert_Some; [done|by apply (T j)]. Qed.

Lemma push_loop_ok th o x n wd :
  dq_ok wd -> asks pushes o wd ->
  (is_full (dq wd) = true -> n = 0 /\ o = None \/ exists t, th = Some t /\ turn pushes o n wd t) ->
  exists r q' k', push_loop th x n (dq wd) (kern wd) = Ok (r, q', k') /\
    let '(rep, wd') := settle o (rt_current_thread (kern wd)) r None (Pushing x n) q' k' (calls wd) in
    answers (Put x (waited wd)) wd rep wd'.
Proof.
  intros W Ho Ht. unfold push_loop. destruct (is_full (dq wd)) eqn:Ef; [|by apply push_now_ok].
  pose proof W as [H C R Q Rs Rr T].
  assert (full (shape_of (dq wd)) (queued (dq wd)) = true) as Efl by by rewrite queue_full_queued.
  destruct (Ht eq_refl) as [[-> ->]|(t & -> & Tn)].
  - cbn [Z.eqb]. exists (Return (- RT_ETIMEOUT) None), (dq wd), (kern wd). split; [done|]. cbn [settle drop_call].
    split_and!; [by destruct W|done|]. cbn [replay dq]. by rewrite Efl.
  - pose proof Tn as [Hc _ _ _ [Hn _]]. replace (n =? 0) with false by lia. cbn [the_thread mbind result_bind].
    destruct (suspend_rooms pushes pops pushes_pops (suspended_push_list (dq wd)) (suspended_pop_list (dq wd))
      (due (dq wd)) (len_of (dq wd)) o n (Pushing x n) t wd) as (k' & E & H' & C' & Rs' & Rr'); try done.
    { rewrite len_full in Ef by done. unfold due. lia. }
    rewrite E. cbn [mbind result_bind]. exists Block, (dq wd), k'. split; [done|]. rewrite Hc. cbn [settle].
    split_and!; [|done|cbn [replay dq]; by rewrite Efl].
    eapply dq_ok_intro; try done. intros j c'. apply insert_times; [done|apply Tn].
Qed.

Lemma pop_loop_ok th o n wd :
  dq_ok wd -> asks pops o wd ->
  (is_empty (dq wd) = true -> n = 0 /\ o = None \/ exists t, th = Some t /\ turn pops o n wd t) ->
  exists r got q' k', pop_loop th n (dq wd) (kern wd) = Ok (r, got, q', k') /\
    let '(rep, wd') := settle o (rt_current_thread (kern wd)) r got (Popping n) q' k' (calls wd) in
    answers Get wd rep wd'.
Proof.
  intros W Ho Ht. unfold pop_loop. destruct (is_empty (dq wd)) eqn:Ef; [|by apply pop_now_ok].
  pose proof W as [H C R Q Rs Rr T]. assert (queued (dq wd) = []) as Eq by by apply queue_empty_queued.
  destruct (Ht eq_refl) as [[-> ->]|(t & -> & Tn)].
  - cbn [Z.eqb]. exists (Return (- RT_ETIMEOUT) None), None, (dq wd), (kern wd). split; [done|].
    cbn [settle drop_call]. split_and!; [by destruct W|done|]. cbn [replay dq]. by rewrite Eq.
  - pose proof Tn as [Hc _ _ _ [Hn _]]. replace (n =? 0) with false by lia. cbn [the_thread mbind result_bind].
    destruct (suspend_rooms pops pushes pops_pushes (suspended_pop_list (dq wd)) (suspended_push_list (dq wd))
      (len_of (dq wd)) (due (dq wd)) o n (Popping n) t wd) as (k' & E & H' & C' & Rr' & Rs'); try done.
    { rewrite len_empty in Ef by done. lia. }
    rewrite E. cbn [mbind result_bind]. exists Block, None, (dq wd), k'. split; [done|]. rewrite Hc. cbn [settle].
    split_and!; [|done|cbn [replay dq]; by rewrite Eq].
    eapply dq_ok_intro; try done. intros j c'. apply insert_times; [done|apply Tn].
Qed.

(** ** Every step *)

(** The first checks of a call. *)
Lemma magic_Ok wd : dq_ok wd -> check_magic (dq wd) = Ok tt.
Proof. intros W. unfold check_magic. by rewrite (rg_magic _ (dk_ring _ W)), Z.eqb_refl. Qed.

Lemma queue_may_wait_debug timeout wd :
  may_wait timeout wd -> RT_DEBUG_SCHEDULER_AVAILABLE (negb (timeout =? 0)) (kern wd) = Ok tt.
Proof.
  intros [->|(Hm & _)]; [done|]. destruct (timeout =? 0); [done|]. by apply debug_available.
Qed.

Lemma queue_may_wait_turn P timeout wd :
  may_wait timeout wd ->
  timeout = 0 /\ @None nat = None \/
  exists t, rt_thread_self (kern wd) = Some t /\ turn P None timeout wd t.
Proof.
  intros [->|((_ & _ & t & Hc & Hs) & Ht & Hn)]; [by left|].
  destruct (Z.eq_dec timeout 0) as [|Hne]; [by left|]. right. exists t. split; [done|].
  split; try done. intros c Hcall. by rewrite Hn in Hcall.
Qed.

Lemma push_ok x n wd : dq_ok wd -> may_wait n wd -> step_ok (Put x (waited wd)) wd (dq_run (Push x n) wd).
Proof.
  intros W Hw. unfold dq_run, step_ok, rt_data_queue_push. rewrite magic_Ok by done. cbn [mbind result_bind].
  rewrite queue_may_wait_debug by done. cbn [mbind result_bind].
  destruct (push_loop_ok (rt_thread_self (kern wd)) None x n wd W) as (r & q' & k' & E & A); [done| |].
  { intros _. by apply queue_may_wait_turn. }
  rewrite E. cbn [mbind result_bind]. unfold rt_thread_self in *.
  destruct (settle _ _ _ _ _ _ _ _) as [rep wd']. by exists rep, wd'.
Qed.

Lemma pop_ok n wd : dq_ok wd -> may_wait n wd -> step_ok Get wd (dq_run (Pop n) wd).
Proof.
  intros W Hw. unfold dq_run, step_ok, rt_data_queue_pop. rewrite magic_Ok by done. cbn [mbind result_bind].
  rewrite queue_may_wait_debug by done. cbn [mbind result_bind].
  destruct (pop_loop_ok (rt_thread_self (kern wd)) None n wd W) as (r & got & q' & k' & E & A); [done| |].
  { intros _. by apply queue_may_wait_turn. }
  rewrite E. cbn [mbind result_bind]. unfold rt_thread_self in *.
  destruct (settle _ _ _ _ _ _ _ _) as [rep wd']. by exists rep, wd'.
Qed.

Lemma peek_ok wd : dq_ok wd -> step_ok Look wd (dq_run Peek wd).
Proof.
  intros W. pose proof (dk_ring _ W) as R. unfold dq_run, step_ok, rt_data_queue_peek.
  rewrite magic_Ok by done. cbn [mbind result_bind]. destruct (is_empty (dq wd)) eqn:Ee; cbn [mbind result_bind].
  - eexists _, wd. split; [done|]. split_and!; [done..|]. by rewrite (proj2 (queue_empty_queued _ R) Ee).
  - destruct (pop_load_spec _ R Ee) as (x & q' & E & _ & _ & _ & Eq). unfold pop_load in E.
    apply bind_Ok in E as (y & -> & [= -> _]). cbn [mbind result_bind].
    eexists _, wd. split; [done|]. split_and!; [done..|].
    cbn [replay]. rewrite Eq. by rewrite decide_True.
Qed.

Lemma len_ok wd : dq_ok wd -> step_ok Count wd (dq_run Len wd).
Proof.
  intros W. pose proof (dk_ring _ W) as R. unfold dq_run, step_ok. rewrite len_Ok by done. cbn [mbind result_bind].
  eexists _, wd. split; [done|]. split_and!; [done..|]. cbn [replay]. rewrite queue_length_queued.
  pose proof (len_range _ R). rewrite Z2Nat.id by lia. by rewrite decide_True.
Qed.

Lemma shrinks_empty q k k' : shrinks k k' -> members (Waiting q) k = [] -> members (Waiting q) k' = [].
Proof. intros S M. destruct (S q) as [Hs _]. rewrite M in Hs. by apply list_nil_subseteq in Hs. Qed.

(** All threads are woken inside the critical region. *)
Lemma reset_wakes push pop k :
  kernel_ok k -> is_Some (rt_current_thread k) -> rt_scheduler_lock_nest k < 32767 ->
  is_Some (lists k !! Waiting push) -> is_Some (lists k !! Waiting pop) ->
  exists k1 k2 k3 k4,
    _ipc_list_resume_all pop (rt_enter_critical k) = Ok k1 /\ _ipc_list_resume_all push k1 = Ok k2 /\
    rt_exit_critical k2 = Ok k3 /\ rt_schedule k3 = Ok k4 /\
    kernel_ok k4 /\ is_Some (rt_current_thread k4) /\ shrinks k k4 /\
    members (Waiting push) k4 = [] /\ members (Waiting pop) k4 = [].
Proof.
  intros H C Hn Hu Ho. pose proof (enter_critical_ok k H Hn) as H0.
  assert (shrinks k (rt_enter_critical k)) as S0 by by apply (run_shrinks EnterCritical).
  destruct (resume_all_ok pop _ H0 C) as (k1 & E1 & H1 & C1 & M1 & S1); [by apply S0|].
  destruct (resume_all_ok push k1 H1 C1) as (k2 & E2 & H2 & C2 & M2 & S2); [by apply S1, S0|].
  destruct (exit_critical_ok k2 H2 C2) as (k3 & E3 & H3 & C3).
  assert (shrinks k2 k3) as S3 by by apply (run_shrinks ExitCritical).
  destruct (schedule_ok k3 H3 C3) as (k4 & E4 & H4 & F4).
  assert (shrinks k3 k4) as S4 by by apply (schedule_evolves (R := shrinks)).
  assert (shrinks k1 k4) as S14 by (etrans; [exact S2|]; by etrans).
  exists k1, k2, k3, k4. split_and!; try done.
  - by apply (sf_current _ _ F4).
  - etrans; [exact S0|]. by etrans.
  - apply (shrinks_empty _ k2); [by etrans|done].
  - by apply (shrinks_empty _ k1).
Qed.

Lemma queue_reset_ok wd : dq_ok wd -> dq_enabled Reset wd -> step_ok Clear wd (dq_run Reset wd).
Proof.
  intros W Hn. pose proof W as [H C R Q Rs Rr T]. unfold dq_run, step_ok, rt_data_queue_reset.
  rewrite magic_Ok by done. cbn [mbind result_bind suspended_push_list suspended_pop_list set_get set_put].
  destruct (reset_wakes _ _ _ H C Hn (rm_head _ _ _ _ _ Rs) (rm_head _ _ _ _ _ Rr))
    as (k1 & k2 & k3 & k4 & E1 & E2 & E3 & E4 & H4 & C4 & S & Mu & Mo).
  cbv zeta. rewrite E1. cbn [mbind result_bind]. rewrite E2. cbn [mbind result_bind].
  rewrite E3. cbn [mbind result_bind]. rewrite E4. cbn [mbind result_bind].
  eexists _, _. split; [done|]. split_and!; [|done|done]. destruct R as [M Sz L P G U Em Fl]. split; try done; cbn.
  - split; cbn; try done; lia.
  - by apply room_empty; [apply S, Rs|].
  - by apply room_empty; [apply S, Rr|].
Qed.

(** The wait ended with an error. *)
Lemma queue_give_up_ok t c wd :
  dq_ok wd -> calls wd !! t = Some c -> status (thread (kern wd) t) = RT_THREAD_RUNNING ->
  error (thread (kern wd) t) <> RT_EOK ->
  answers GiveUp wd (Answer (error (thread (kern wd) t)) None None)
    (mk_world (dq wd) (kern wd) (delete t (calls wd))).
Proof.
  intros W Hl Hs He. pose proof W as [H C R Q Rs Rr T]. split_and!; [|done|by cbn [replay]; rewrite decide_False].
  assert (runnable (thread (kern wd) t)) as Hr by by right.
  assert (awake (kern wd) t -> False) as Ha by (by intros []).
  assert (room pushes (suspended_push_list (dq wd)) (due (dq wd)) (delete t (calls wd)) (kern wd) /\
          room pops (suspended_pop_list (dq wd)) (len_of (dq wd)) (delete t (calls wd)) (kern wd)) as [Rs' Rr'].
  { destruct c as [x n|n].
    - eapply (leaves pushes pops pushes_pops); try done; by intros c Hc; simplify_eq.
    - apply and_comm. eapply (leaves pops pushes pops_pushes); try done; by intros c Hc; simplify_eq. }
  eapply dq_ok_intro; try done. intros j c'. by apply (queue_drop_call_times (Some t)).
Qed.

(** What the thread that continues has. *)
Lemma queue_continue_turn P t c wd :
  dq_ok wd -> rt_current_thread (kern wd) = Some t -> calls wd !! t = Some c -> P c ->
  status (thread (kern wd) t) = RT_THREAD_RUNNING -> error (thread (kern wd) t) = RT_EOK ->
  asks P (Some t) wd /\ turn P (Some t) (call_timeout c) wd t.
Proof.
  intros W Hc Hl Hp Hs He. split.
  - intros t' [= <-]. exists c. split_and!; [done|done|]. split; [done|by right].
  - split; try done; [intros c' Hc'; by simplify_eq|by intros t' [= ->]|by eapply dk_times].
Qed.

Lemma queue_continue_ok wd :
  dq_ok wd -> dq_enabled Continue wd -> step_ok (op_of Continue wd) wd (dq_run Continue wd).
Proof.
  intros W (t & c & Hc & Hl & Hs). unfold dq_run, op_of, current, step_ok. rewrite Hc. cbn [mbind result_bind].
  rewrite Hl. destruct (Z.eqb_spec (error (thread (kern wd) t)) RT_EOK) as [He|He].
  - destruct c as [x n|n].
    + destruct (queue_continue_turn pushes t _ wd W Hc Hl I Hs He) as [Ha Ht]. unfold rt_data_queue_push_rest.
      rewrite He, Z.eqb_refl. cbn [negb].
      destruct (push_loop_ok (Some t) (Some t) x n wd W Ha) as (r & q' & k' & E & A); [by eauto|].
      rewrite E. rewrite Hc in A. cbn [mbind result_bind].
      destruct (settle _ _ _ _ _ _ _ _) as [rep wd']. by exists rep, wd'.
    + destruct (queue_continue_turn pops t _ wd W Hc Hl I Hs He) as [Ha Ht]. unfold rt_data_queue_pop_rest.
      rewrite He, Z.eqb_refl. cbn [negb].
      destruct (pop_loop_ok (Some t) (Some t) n wd W Ha) as (r & got & q' & k' & E & A); [by eauto|].
      rewrite E. rewrite Hc in A. cbn [mbind result_bind].
      destruct (settle _ _ _ _ _ _ _ _) as [rep wd']. by exists rep, wd'.
  - apply Z.eqb_neq in He as Heb. unfold rt_data_queue_push_rest, rt_data_queue_pop_rest. rewrite Heb. cbn [negb].
    destruct c; (eexists _, _; split; [done|]; by eapply queue_give_up_ok).
Qed.

Lemma queue_other_ok e wd :
  dq_ok wd -> dq_enabled (Other e) wd -> step_ok Silent wd (dq_run (Other e) wd).
Proof.
  intros W [He Ht]. pose proof W as [H C R Q Rs Rr T]. unfold dq_run, step_ok.
  destruct (run_ok e (kern wd) H C He) as (k' & E & H' & C'). rewrite E. cbn [mbind result_bind].
  set (X := fun t => touched e (kern wd) = Some t).
  assert (evolves X (kern wd) k') as V by by eapply run_evolves; [|exact E].
  eexists _, _. split; [done|]. split_and!; [|done|done].
  eapply dq_ok_intro; try done; by apply (elsewhere _ X _ _ _ (kern wd)).
Qed.

Lemma dq_run_ok e wd : dq_ok wd -> dq_enabled e wd -> step_ok (op_of e wd) wd (dq_run e wd).
Proof.
  intros W He. destruct e as [x n|n| | | | |e]; cbn [dq_enabled op_of] in *.
  - by apply push_ok.
  - by apply pop_ok.
  - by apply peek_ok.
  - by apply len_ok.
  - by apply queue_reset_ok.
  - by apply queue_continue_ok.
  - by apply queue_other_ok.
Qed.

Lemma queue_replay_all_app s l tr1 tr2 :
  replay_all s l (tr1 ++ tr2) = l ← replay_all s l tr1; replay_all s l tr2.
Proof.
  revert l. induction tr1 as [|[o r] tr1 IH]; intros l; cbn; [done|].
  destruct (replay s l o r); cbn; [apply IH|done].
Qed.

Lemma dq_reachable_ok w0 tr wd :
  dq_ok w0 -> dq_reachable w0 tr wd ->
  dq_ok wd /\ shape_of (dq wd) = shape_of (dq w0) /\
  replay_all (shape_of (dq w0)) (queued (dq w0)) tr = Some (queued (dq wd)).
Proof.
  intros W0. induction 1 as [|tr e wd r wd' Hr (W & S & R) He E]; [done|].
  destruct (dq_run_ok e wd W He) as (r1 & wd1 & E1 & W1 & S1 & R1).
  rewrite E in E1. injection E1 as <- <-. split_and!; [done|congruence|].
  rewrite queue_replay_all_app, R. cbn. rewrite <- S, R1. done.
Qed.

Lemma dq_init_ok push pop sz mark note pool k q k0 :
  kernel_ok k -> is_Some (rt_current_thread k) ->
  members (Waiting push) k = [] -> members (Waiting pop) k = [] -> push <> pop ->
  0 < sz <= 32768 -> 0 <= mark -> sz <= Z.of_nat (length pool) ->
  rt_data_queue_init push pop sz mark note (Some pool) k = Ok (RT_EOK, q, k0) ->
  dq_ok (mk_world q k0 ∅) /\ shape_of q = mk_shape sz mark note /\ queued q = [].
Proof.
  intros H C M1 M2 Hq Hs Hm Hp E. unfold rt_data_queue_init, rt_assert in E.
  replace (0 <? sz) with true in E by lia. cbn [mbind result_bind] in E. injection E as <- <-.
  assert (members (Waiting pop) (new_head push k) = []) as M3 by (by rewrite new_head_members).
  split_and!; [|done|done]. split; cbn; try done.
  - by apply new_head_ok; [apply new_head_ok|].
  - split; cbn; try done; lia.
  - apply room_empty; [cbn; rewrite lookup_insert_ne, lookup_insert_eq by congruence; eauto|].
    by rewrite !new_head_members.
  - apply room_empty; [cbn; rewrite lookup_insert_eq; eauto|]. by rewrite !new_head_members.
Qed.

(** A data queue is a bounded queue with a low water mark.  After
    [rt_data_queue_init], whatever calls any threads make on it with any time
    limits, whenever they are woken, time out or are preempted, and whatever else
    the kernel does in between: every call returns or waits, without a fault;
    every answer, and every event for the callback, is the one of a bounded queue
    of that capacity and mark at that point of the run; and while a thread waits
    to pop, as many woken threads are still to run as there are items, while a
    thread waits to push, as many as the queue is below its mark. *)
Theorem dataqueue_refines_queue (push pop : nat) (sz mark : Z) (note : bool) (pool : list rt_data_item)
    (k k0 : kernel) (q : rt_data_queue) (tr : list (op * reply)) (wd : world) (e : dq_event) :
  kernel_ok k -> is_Some (rt_current_thread k) ->
  members (Waiting push) k = [] -> members (Waiting pop) k = [] -> push <> pop ->
  0 < sz <= 32768 -> 0 <= mark -> sz <= Z.of_nat (length pool) ->
  rt_data_queue_init push pop sz mark note (Some pool) k = Ok (RT_EOK, q, k0) ->
  dq_reachable (mk_world q k0 ∅) tr wd -> dq_enabled e wd ->
  replay_all (mk_shape sz mark note) [] tr = Some (queued (dq wd)) /\
  (members (Waiting (suspended_pop_list (dq wd))) (kern wd) <> [] ->
   Z.of_nat (length (queued (dq wd))) <= Z.of_nat (base.size (woken pops (calls wd) (kern wd)))) /\
  (members (Waiting (suspended_push_list (dq wd))) (kern wd) <> [] ->
   Z.min (mark + 1) sz - Z.of_nat (length (queued (dq wd)))
     <= Z.of_nat (base.size (woken pushes (calls wd) (kern wd)))) /\
  exists r wd', dq_run e wd = Ok (r, wd') /\
    replay (mk_shape sz mark note) (queued (dq wd)) (op_of e wd) r = Some (queued (dq wd')).
Proof.
  intros H C M1 M2 Hq Hs Hm Hp E Hr He.
  destruct (dq_init_ok _ _ _ _ _ _ _ _ _ H C M1 M2 Hq Hs Hm Hp E) as (W0 & S0 & Q0).
  destruct (dq_reachable_ok _ tr wd W0 Hr) as (W & S & R). cbn in *. rewrite S0 in *. rewrite Q0 in R.
  pose proof (len_range _ (dk_ring _ W)). injection S as Es El _.
  rewrite queue_length_queued, Z2Nat.id by lia. split_and!; [done|apply W| |].
  - rewrite <- Es, <- El. apply W.
  - destruct (dq_run_ok e wd W He) as (r & wd' & E' & _ & _ & R'). unfold shape_of in R'.
    exists r, wd'. split; [done|]. rewrite <- R'. f_equal. destruct (dq_reachable_ok _ tr wd W0 Hr) as (_ & S & _).
    cbn in S. by rewrite S0 in S.
Qed.

(** A thread that is woken and finds the queue full again waits for the whole
    time limit once more. *)
Lemma push_waits_anew x n t wd :
  dq_ok wd -> turn pushes (Some t) n wd t -> error (thread (kern wd) t) = RT_EOK ->
  is_full (dq wd) = true -> 0 < n ->
  exists k', rt_data_queue_push_rest t x n (dq wd) (kern wd) = Ok (Block, dq wd, k') /\
    t ∈ _timer_list (timers k') /\ left (timers k') t = n.
Proof.
  intros W [Hc Hs _ _ [_ Hh]] He Hf Hn. pose proof W as [H C R Q Rs Rr T].
  unfold rt_data_queue_push_rest, push_loop. rewrite He, Hf, Z.eqb_refl. cbn [negb].
  replace (n =? 0) with false by lia. cbn [the_thread mbind result_bind]. unfold suspend_on.
  destruct (block_on_spec (suspended_push_list (dq wd)) RT_IPC_FLAG_FIFO t n
    (with_thread (set_error RT_EOK) t (kern wd))) as (k' & E & _ & _ & _ & _ & _ & _ & _ & Hl);
    try done; [by apply change_plain_ok|by rewrite thread_with_thread, decide_True|by left|apply Rs|].
  rewrite E. exists k'. split; [done|]. by apply Hl.
Qed.

(** ** Queues of more than 32768 entries *)

(** A push and a pop. *)
Definition push_pop (x : rt_data_item) (q : rt_data_queue) : result rt_data_queue :=
  q ← push_store x q; '(_, q) ← pop_load q; Ok q.

Definition large (pool : list rt_data_item) (i : Z) : rt_data_queue :=
  mk_dq DATAQUEUE_MAGIC 40000 10 i true i false pool 7 8 true.

Lemma push_pop_large x pool i :
  length pool = Z.to_nat 40000 -> 0 <= i < 32767 ->
  exists pool', push_pop x (large pool i) = Ok (large pool' (i + 1)) /\ length pool' = Z.to_nat 40000.
Proof.
  intros Hl Hi. unfold push_pop, push_store. cbn [large queue put_index]. rewrite aset_Ok by lia.
  cbn [mbind result_bind]. unfold pop_load. cbn [queue get_index set_put large].
  rewrite (aget_Ok _ _ x) by (try lia; apply list_lookup_insert_eq; lia). cbn [mbind result_bind].
  unfold set_get, set_put. cbn.
  assert (u15 (i + 1) = i + 1) as -> by (unfold u15; rewrite Z.mod_small; lia).
  replace (i + 1 =? 40000) with false by lia. rewrite Z.eqb_refl.
  eexists. split; [done|]. by rewrite length_insert.
Qed.

(** The indices have 15 bits: a queue of 40000 entries through which 32767 items
    have gone counts one item as 7233. *)
Lemma push_pops_large x pool n :
  length pool = Z.to_nat 40000 -> Z.of_nat n <= 32767 ->
  exists pool', Nat.iter n (mbind (push_pop x)) (Ok (large pool 0)) = Ok (large pool' (Z.of_nat n)) /\
    length pool' = Z.to_nat 40000.
Proof.
  intros Hl. induction n as [|n IH]; intros Hn; [by exists pool|].
  destruct IH as (p & E & Hp); [lia|]. destruct (push_pop_large x p (Z.of_nat n) Hp) as (p' & E' & Hp'); [lia|].
  exists p'. split; [|done]. rewrite Nat.iter_succ, E. cbn [mbind result_bind]. rewrite E'. do 2 f_equal. lia.
Qed.

Example large_queue_miscounts x pool :
  length pool = Z.to_nat 40000 ->
  exists q q', Nat.iter (Z.to_nat 32767) (mbind (push_pop x)) (Ok (large pool 0)) = Ok q /\
    is_empty q = true /\ push_store x q = Ok q' /\ rt_data_queue_len q' = Ok 7233.
Proof.
  intros Hl. destruct (push_pops_large x pool (Z.to_nat 32767) Hl) as (p & E & Hp); [lia|].
  rewrite Z2Nat.id in E by done. exists (large p 32767). eexists. split; [exact E|]. split; [done|].
  unfold push_store. cbn [large queue put_index]. rewrite aset_Ok by lia. split; [done|].
  unfold rt_data_queue_len, check_magic. cbn [magic is_empty get_index put_index size set_put large]. reflexivity.
Qed.

(** ** Concrete runs *)

Definition dq0 : rt_data_queue := mk_dq DATAQUEUE_MAGIC 2 0 0 true 0 false [mk_item 0 0; mk_item 0 0] 7 8 true.
Definition car_queue : kernel := new_head 8 (new_head 7 car).
Definition wd0 : world := mk_world dq0 car_queue ∅.
(** Thread 2 waits for an item; thread 3 runs. *)
Definition wd1 : world := state_of wd0 (dq_run (Pop 5) wd0).

Lemma wd1_reached : dq_reachable wd0 [(Get, Blocked)] wd1.
Proof.
  apply (dq_step wd0 [] (Pop 5) wd0 Blocked wd1).
  - apply dq_start.
  - right. split; [|split; [by unfold half|by intros t _]].
    split; [by vm_compute|]. split; [by vm_compute|]. exists 2%nat. by vm_compute.
  - apply ran. by vm_compute.
Qed.

Lemma dataqueue_refines_queue_witness :
  replay_all (mk_shape 2 0 true) [] [(Get, Blocked)] = Some (queued (dq wd1)) /\
  (members (Waiting (suspended_pop_list (dq wd1))) (kern wd1) <> [] ->
   Z.of_nat (length (queued (dq wd1))) <= Z.of_nat (base.size (woken pops (calls wd1) (kern wd1)))) /\
  (members (Waiting (suspended_push_list (dq wd1))) (kern wd1) <> [] ->
   Z.min (0 + 1) 2 - Z.of_nat (length (queued (dq wd1)))
     <= Z.of_nat (base.size (woken pushes (calls wd1) (kern wd1)))) /\
  exists r wd', dq_run (Push (mk_item 11 4) 0) wd1 = Ok (r, wd') /\
    replay (mk_shape 2 0 true) (queued (dq wd1)) (Put (mk_item 11 4) true) r = Some (queued (dq wd')).
Proof.
  apply (dataqueue_refines_queue 7 8 2 0 true [mk_item 0 0; mk_item 0 0] car car_queue dq0 [(Get, Blocked)] wd1
           (Push (mk_item 11 4) 0));
    [apply car_ok|apply car_ok|by vm_compute|by vm_compute|done|done|done|done|reflexivity|exact wd1_reached|by left].
Defined.
End DataQueue.
