(* ===== verification/Completion.v ===== *)
(** * Completions (rt-thread/components/drivers/ipc/completion.c)

    A completion is a flag and the suspend list of the one thread that may wait
    for it.  [rt_completion_wait] is the part up to the [rt_schedule] and the
    rest.

    Whatever the threads do, the calls answer as a latch does that a wait closes
    again, nobody waits while it is open, and opening it wakes the waiter.  Two
    examples show where the closing loses or shares an opening. *)

From stdpp Require Import functions fin_maps.
From S2P Require Import Prelude Timer Thread Evolve Ipc Channel.

Module Completion.
Import Timer Thread Evolve Ipc Channel.

Definition RT_COMPLETED : Z := 1.
Definition RT_UNCOMPLETED : Z := 0.

(** [suspended_list] is the address of the list head. *)
Record rt_completion := mk_completion { flag : Z; suspended_list : nat }.
Definition set_flag (f : Z) (c : rt_completion) : rt_completion := mk_completion f (suspended_list c).

Definition rt_completion_init (q : nat) (k : kernel) : rt_completion * kernel :=
  (mk_completion RT_UNCOMPLETED q, new_head q k).

Inductive outcome := Return (err : Z) | Block.

Definition rt_completion_wait (timeout : Z) (c : rt_completion) (k : kernel)
  : result (outcome * rt_completion * kernel) :=
  _ ← RT_DEBUG_SCHEDULER_AVAILABLE (negb (timeout =? 0)) k;
  let thread := rt_thread_self k in
  if negb (flag c =? RT_COMPLETED) then
    e ← rt_list_isempty (Waiting (suspended_list c)) k;
    _ ← rt_assert e;
    if timeout =? 0 then Ok (Return (- RT_ETIMEOUT), c, k)
    else
      t ← the_thread thread;
      let k := with_thread (set_error RT_EOK) t k in
      k ← block_on (suspended_list c) RT_IPC_FLAG_FIFO t timeout k;
      Ok (Block, c, k)
  else Ok (Return RT_EOK, set_flag RT_UNCOMPLETED c, k).
(** "thread is waked up" *)
Definition rt_completion_wait_rest (t : nat) (c : rt_completion) (k : kernel) : Z * rt_completion :=
  (error (thread k t), set_flag RT_UNCOMPLETED c).

Definition rt_completion_done (c : rt_completion) (k : kernel) : result (rt_completion * kernel) :=
  if flag c =? RT_COMPLETED then Ok (c, k)
  else
    let c := set_flag RT_COMPLETED c in
    e ← rt_list_isempty (Waiting (suspended_list c)) k;
    if negb e then
      k ← _ipc_list_resume (suspended_list c) k;
      k ← rt_schedule k;
      Ok (c, k)
    else Ok (c, k).

(** ** Among threads *)

Record world := mk_world { comp : rt_completion; kern : kernel }.
Inductive comp_event := CWait (timeout : Z) | CDone | Continue (t : nat) | Other (e : event).
Inductive reply := Answer (err : Z) | Blocked.

Definition comp_run (e : comp_event) (wd : world) : result (reply * world) :=
  match e with
  | CWait n =>
      '(r, c, k) ← rt_completion_wait n (comp wd) (kern wd);
      Ok (match r with Return err => Answer err | Block => Blocked end, mk_world c k)
  | CDone => '(c, k) ← rt_completion_done (comp wd) (kern wd); Ok (Answer RT_EOK, mk_world c k)
  | Continue t =>
      let '(err, c) := rt_completion_wait_rest t (comp wd) (kern wd) in Ok (Answer err, mk_world c (kern wd))
  | Other e => k ← run e (kern wd); Ok (Answer RT_EOK, mk_world (comp wd) k)
  end.

Definition waiter (wd : world) : list nat := members (Waiting (suspended_list (comp wd))) (kern wd).

(** Nobody waits for a completion that another thread waits for; [Continue t] is
    the rest of the wait of the current thread [t]. *)
Definition comp_enabled (e : comp_event) (wd : world) : Prop :=
  match e with
  | CWait timeout =>
      waiter wd = [] /\ timeout < half /\ (timeout = 0 \/ may_block (kern wd))
  | CDone => True
  | Continue t => rt_current_thread (kern wd) = Some t
  | Other e => enabled e (kern wd)
  end.

Inductive comp_reachable (w0 : world) : world -> Prop :=
| comp_start : comp_reachable w0 w0
| comp_step e w r w' : comp_reachable w0 w -> comp_enabled e w -> comp_run e w = Ok (r, w') ->
                       comp_reachable w0 w'.

(** ** A latch *)

(** The latch after an event, by its answer; [None] when a latch does not answer so. *)
Definition latch (b : bool) (e : comp_event) (r : reply) : option bool :=
  match e, r with
  | CWait _, Answer err => if decide (err = if b then RT_EOK else - RT_ETIMEOUT) then Some false else None
  | CWait n, Blocked => if b || (n =? 0) then None else Some false
  | CDone, Answer _ => Some true
  | Continue _, Answer _ => Some false
  | Other _, Answer _ => Some b
  | _, _ => None
  end.
Definition is_open (wd : world) : bool := flag (comp wd) =? RT_COMPLETED.

Record comp_ok (wd : world) : Prop := {
  cp_kernel : kernel_ok (kern wd);
  cp_current : is_Some (rt_current_thread (kern wd));
  cp_head : is_Some (lists (kern wd) !! Waiting (suspended_list (comp wd)));
  cp_flag : flag (comp wd) = RT_COMPLETED \/ flag (comp wd) = RT_UNCOMPLETED;
  cp_one : (length (waiter wd) <= 1)%nat;
  cp_open : is_open wd = true -> waiter wd = [] }.

(** What a step shows. *)
Definition latched (e : comp_event) (wd : world) : Prop :=
  exists r wd', comp_run e wd = Ok (r, wd') /\ comp_ok wd' /\ latch (is_open wd) e r = Some (is_open wd') /\
    (e = CDone -> forall t, t ∈ waiter wd -> runnable (thread (kern wd') t) /\
                                            error (thread (kern wd') t) = error (thread (kern wd) t)).

Lemma wait_latched n wd : comp_ok wd -> comp_enabled (CWait n) wd -> latched (CWait n) wd.
Proof.
  intros [H C Hq F One Op] (He & Hn & Hm). unfold latched, comp_run, rt_completion_wait.
  assert (RT_DEBUG_SCHEDULER_AVAILABLE (negb (n =? 0)) (kern wd) = Ok tt) as ->.
  { destruct (Z.eqb_spec n 0) as [|Hne]; [done|]. destruct Hm as [|Hm]; [done|]. by apply debug_available. }
  cbn [mbind result_bind]. destruct (Z.eqb_spec (flag (comp wd)) RT_COMPLETED) as [Ec|Ec]; cbn [negb].
  - cbn [mbind result_bind]. eexists _, _. split; [done|]. split; [split; cbn; try done; by right|]. split; [|done].
    unfold is_open. rewrite Ec. done.
  - assert (is_open wd = false) as Eo by by apply Z.eqb_neq.
    unfold rt_list_isempty. rewrite get_list_members by done. cbn [mbind result_bind].
    unfold waiter in He. rewrite He. rewrite bool_decide_true by done. cbn [rt_assert mbind result_bind].
    destruct (Z.eqb_spec n 0) as [->|Hne].
    + cbn [mbind result_bind]. eexists _, _. split; [done|]. split; [by split|]. split; [|done]. cbn [latch].
      rewrite Eo. cbn. change (is_open _) with (is_open wd). by rewrite Eo.
    + destruct Hm as [|(Hl & Hi & t & Hc & Hs)]; [done|]. unfold rt_thread_self. rewrite Hc.
      cbn [the_thread mbind result_bind]. set (k1 := with_thread (set_error RT_EOK) t (kern wd)).
      destruct (block_parked (suspended_list (comp wd)) RT_IPC_FLAG_FIFO t n k1) as (k' & E & Pk); try done.
      { by apply change_plain_ok. }
      { unfold k1. by rewrite thread_with_thread, decide_True. }
      { by left. }
      rewrite E. cbn [mbind result_bind]. eexists _, _. split; [done|]. split; [|split; [|done]].
      * pose proof (pk_members _ _ _ _ Pk) as Pm. change (members _ k1) with (members (Waiting (suspended_list (comp wd))) (kern wd)) in Pm.
        rewrite He in Pm. split; cbn; try done; try apply Pk; [exact Hq| |].
        -- unfold waiter. cbn. by rewrite Pm.
        -- change (is_open _) with (is_open wd). by rewrite Eo.
      * cbn [latch]. rewrite Eo. replace (n =? 0) with false by lia. cbn. change (is_open _) with (is_open wd). by rewrite Eo.
Qed.

Lemma done_latched wd : comp_ok wd -> latched CDone wd.
Proof.
  intros [H C Hq F One Op]. unfold latched, comp_run, rt_completion_done.
  destruct (Z.eqb_spec (flag (comp wd)) RT_COMPLETED) as [Ec|Ec].
  - assert (is_open wd = true) as Eo by by apply Z.eqb_eq. cbn [mbind result_bind].
    eexists _, _. split; [done|]. split; [by split|]. split; [cbn; by rewrite <- Eo|].
    intros _ t. rewrite Op by done. by intros ?%not_elem_of_nil.
  - destruct (wake_first_spec _ _ H C Hq) as (k' & E & H' & C' & V & _ & M).
    unfold wake_first, rt_list_isempty in E. cbn [suspended_list set_flag]. unfold rt_list_isempty.
    rewrite get_list_members in * by done. cbn [mbind result_bind] in *.
    assert (is_Some (lists k' !! Waiting (suspended_list (comp wd)))) as Hq' by by apply V.
    case_bool_decide as Em; cbn [negb] in *.
    + cbn [mbind result_bind]. eexists _, _. split; [done|]. split.
      * split; cbn; try done; by left.
      * split; [done|]. intros _ t. unfold waiter. rewrite Em. by intros ?%not_elem_of_nil.
    + apply bind_Ok in E as (k1 & -> & E). cbn [mbind result_bind]. rewrite E. cbn [mbind result_bind].
      eexists _, _. split; [done|]. unfold waiter in *.
      destruct (members (Waiting (suspended_list (comp wd))) (kern wd)) as [|t [|]] eqn:El; [done| |cbn in One; lia].
      destruct M as (M & Hr & He). split.
      * split; cbn; try done; try (by left); unfold waiter; cbn; rewrite M; cbn; lia.
      * split; [done|]. intros _ j [->|?%not_elem_of_nil]%elem_of_cons; [|done]. by split.
Qed.

Lemma other_latched e wd : comp_ok wd -> comp_enabled (Other e) wd -> latched (Other e) wd.
Proof.
  intros [H C Hq F One Op] He. unfold latched, comp_run.
  destruct (run_ok e (kern wd) H C He) as (k' & E & H' & C'). rewrite E. cbn [mbind result_bind].
  apply run_shrinks in E as S. destruct (S (suspended_list (comp wd))) as [Hs Hh].
  eexists _, _. split; [done|]. split; [|split; done]. split; cbn; try done; [by apply Hh|..].
  - pose proof (si_nodup _ _ _ (ko_sched _ H') (Waiting (suspended_list (comp wd)))) as Hnd.
    etrans; [|exact One]. unfold waiter. cbn. by apply submseteq_length, NoDup_submseteq.
  - intros Ho. unfold waiter in *. cbn. rewrite Op in Hs by done. by apply list_nil_subseteq in Hs.
Qed.

Lemma step_latched e wd : comp_ok wd -> comp_enabled e wd -> latched e wd.
Proof.
  intros W He. destruct e as [n| |t|e]; [by apply wait_latched|by apply done_latched| |by apply other_latched].
  destruct W as [H C Hq F One Op]. eexists _, _. split; [done|]. split; [|split; done].
  split; cbn; try done. by right.
Qed.

Lemma init_comp_ok q k :
  kernel_ok k -> is_Some (rt_current_thread k) -> members (Waiting q) k = [] ->
  let '(c, k') := rt_completion_init q k in comp_ok (mk_world c k').
Proof.
  intros H C M. cbn. assert (members (Waiting q) (new_head q k) = []) as M' by by rewrite new_head_members.
  split; cbn; try done; [by apply new_head_ok|rewrite lookup_insert_eq; by eexists|by right|].
  unfold waiter. cbn. rewrite M'. cbn. lia.
Qed.

(** A completion is a latch: in every run every call ends without a fault and
    answers as the latch does, nobody waits while it is open, and [CDone] makes the
    thread that waits run again without an error. *)
Theorem completion_is_latch (q : nat) (k : kernel) (wd : world) (e : comp_event) :
  kernel_ok k -> is_Some (rt_current_thread k) -> members (Waiting q) k = [] ->
  (let '(c, k') := rt_completion_init q k in comp_reachable (mk_world c k') wd) ->
  comp_enabled e wd ->
  (is_open wd = true -> waiter wd = []) /\ latched e wd.
Proof.
  intros H C M Hr He. assert (comp_ok wd) as W; [|by split; [apply W|apply step_latched]]. clear He e.
  pose proof (init_comp_ok q k H C M) as W0. cbn in Hr, W0.
  induction Hr as [|e w r w' Hr IH He E]; [done|].
  destruct (step_latched e w IH He) as (r1 & w1 & E1 & W1 & _). by rewrite E in E1; injection E1 as <- <-.
Qed.

(** ** Where a completion is lost, or used twice *)

Definition comp0 : world := mk_world (mk_completion RT_UNCOMPLETED 7) (new_head 7 car).
Definition after (es : list comp_event) (wd : world) : result (list reply * world) :=
  foldl (fun x e => '(rs, wd) ← x; '(r, wd) ← comp_run e wd; Ok (rs ++ [r], wd)) (Ok ([], wd)) es.

(** Thread 2 waits for two ticks and times out; before it runs again, thread 3
    completes.  The call of thread 2 answers a timeout and closes the completion:
    the next wait does not see it. *)
Example completion_lost :
  answer_of (after [CWait 2; Other ClockTick; Other ClockTick; CDone; Other Yield; Continue 2; CWait 0] comp0) =
  Some [Blocked; Answer RT_EOK; Answer RT_EOK; Answer RT_EOK; Answer RT_EOK;
        Answer (- RT_ETIMEOUT); Answer (- RT_ETIMEOUT)].
Proof. by vm_compute. Qed.

(** Thread 2 waits; thread 3 completes once and waits itself before thread 2 runs:
    both waits succeed. *)
Example completion_shared :
  answer_of (after [CWait 5; CDone; CWait 0; Other Yield; Continue 2] comp0) =
  Some [Blocked; Answer RT_EOK; Answer RT_EOK; Answer RT_EOK; Answer RT_EOK].
Proof. by vm_compute. Qed.
End Completion.
